(* ===== verification/_CoqProject ===== *)
-Q . S2P
Prelude.v
CString.v
Riscv.v
Spinlock.v
Kalloc.v
Bio.v
Layout.v
Log.v
Txn.v
Fs.v
Dir.v
Vm.v
VmCopy.v
Pipe.v
Proc.v
ProcTable.v
AllocPid.v
Wakeup.v
Sh.v
File.v
Syscall.v
Sysfile.v
Exec.v
FsData.v
DirData.v
Mkfs.v
Ulib.v
Umalloc.v
Grep.v
Virtio.v
Console.v
Kprintf.v
Trap.v
Sleep.v
Textutil.v
Uproc.v
Uprogs.v
ShRun.v
