(* ===== verification/Prelude.v ===== *)
(** * Verification of the xv6-riscv kernel and its user programs

    ** The program

    The repository is xv6 for RISC-V (kernel/, user/, mkfs/): a Unix-like
    kernel with processes, paging, a buffer cache, a write-ahead log, an inode
    file system, pipes and a console, and the user programs that run on it.
    The layers call downwards:

      user programs, shell      user/*.c
      system calls              kernel/syscall.c sysproc.c sysfile.c exec.c
      open files, pipes         kernel/file.c pipe.c
      file system               kernel/fs.c
      log                       kernel/log.c
      buffer cache              kernel/bio.c
      disk driver               kernel/virtio_disk.c
      processes, traps          kernel/proc.c trap.c
      virtual memory            kernel/vm.c
      page allocator            kernel/kalloc.c
      locks                     kernel/spinlock.c sleeplock.c

    mkfs/mkfs.c runs on the build host and writes the disk image that the
    kernel starts from.

    Everything is translated function by function into Rocq definitions that
    keep the names of the source.  The files, in dependency order:

    - Prelude: machine integers with their wrap-around ([u8] ... [u64], [s32]),
      the outcome monad [M], loops, the tactics and hint databases, generic
      lemmas on lists.
    - CString: byte memory ([mem]) and kernel/string.c.
    - Riscv: the constants and address macros of riscv.h, memlayout.h and
      param.h, and the interface [Mmio] of device registers.
    - Spinlock: spinlock.c, sleeplock.c; also spin locks instruction by
      instruction on any number of harts ([smp_step]).
    - Kalloc: kalloc.c; interface [PageAlloc] with laws [PageAllocLaws].
    - Bio: bio.c; interface [BufCache] with laws [BufCacheLaws].
    - Layout: the on-disk structures of fs.h and stat.h.
    - Log: log.c over [BufCache]; crashes; several processes in operations at
      once ([gstep]).
    - Txn: interface [BlockTxn] (blocks inside a transaction) with laws
      [BlockTxnLaws], provided by log.c over bio.c.
    - Fs, Dir, FsData, DirData: fs.c over [BlockTxn]: blocks, inodes and
      contents; directories and paths; the contents of a file as an array of
      bytes; a directory as a map from names to inodes.
    - Mkfs: mkfs.c, and the kernel's invariants on the image it leaves.
    - Vm, VmCopy: vm.c over [PageAlloc]; the copy of an address space.
    - Pipe: pipe.c; interfaces [UserMem] and [ProcServices].
    - Proc, ProcTable, AllocPid, Wakeup: proc.c; the typing of the process
      table; allocpid, and sleep and wakeup, one access at a time on several
      harts.
    - File, Syscall, Sysfile, Exec: file.c; syscall.c and sysproc.c;
      sysfile.c; exec.c.
    - Virtio: virtio_disk.c against a device that obeys the virtio protocol
      and completes requests with any status.
    - Console: console.c and uart.c.
    - Kprintf: the kernel's printf.c.
    - Trap: trap.c, plic.c, start.c and the control registers of riscv.h.
    - Sleep: whole sessions of sys_sleep against the clock interrupt.
    - Ulib, Grep, Textutil: user/ulib.c; user/grep.c; cat, wc, echo,
      ls.
    - Umalloc: user/umalloc.c.
    - Sh, Uproc, ShRun, Uprogs: the shell's parser; processes that make
      system calls, interleaved; the shell's execution of commands; pingpong,
      sleep and the other small programs.

    ** How the code is modelled

    A C function over a state [S] is a value of [M S A]: it returns ([Ret]),
    panics ([Panic]), blocks ([Block]: it sleeps, spins on a lock somebody
    else holds, or a loop ran out of its fuel) or does something C leaves
    undefined ([Undef]: an access through a freed or null pointer).  Functions
    that sleep and must be interleaved (pipes, console, disk driver, [wait],
    [sys_sleep]) are written in the pieces between two sleeps, each of which
    runs under the lock the source holds there.  State a component does not
    own is reached through a type class; the theorems of the client use only
    the laws of the class, and the component below has an instance.  Linked
    structures that live in memory stay there: the free list is threaded
    through the free pages, page tables are pages of 512 entries, the
    structures of the disk are bytes of blocks.

    Parameters that stand for code outside the repository, with their laws:
    the disk controller ([VirtioDevice]), the UART ([UartLaws]), device
    registers ([Mmio]), printf of user/printf.c, which the repository
    does not contain, the calls of pingpong and sleep that user.h does not
    allow ([printf_fd] and [wait_void] of Uprogs), and the host files mkfs
    reads ([host] of Mkfs).  Each class has an instance that computes, and the
    theorems that use it have a witness at that instance.

    Fuel: loops whose bound the source gives run for that bound ([NPROC],
    [NBUF], the blocks of a transfer).  Loops that run to a NUL byte or to the
    end of a list take a bound as an argument, and the theorems say that every
    bound above the length of the string or list gives the result:
    [skipelem_components], [parse_total] and [match_decides_language] are the
    instances where the bound matters; the recursive functions of the parser
    and of grep get a bound computed from the length of the line.

    ** What the theorems show

    - Crash safety: a commit interrupted after any of its disk writes, and any
      number of boots whose initlog is interrupted after any of its own,
      leave all or none of a transaction ([commit_crash_atomic],
      [initlog_recovers]); operations in progress never meet a commit and have
      their budget reserved in the log header ([group_commit],
      [log_write_absorbs]); the log area mkfs makes is one block smaller than
      that, so the last write of a full group panics ([log_area_too_small]).
    - Storage stack: bio.c implements the cache log.c relies on, log.c over it
      the transactions fs.c relies on; the disk driver serves every request
      atomically and once, in every interleaving with the device, and panics
      exactly when the device has failed a request ([virtio_refines_disk]).
    - File system: the block allocator, the inode table and its round trip to
      the disk, contents as an array of bytes ([writei_refines], which falls
      short only on a full disk or an unreadable source, and [readi_reads]), a
      directory as a map ([dir_refines_map]), path components.  The image mkfs
      builds holds the files it was given and satisfies the invariants these
      theorems start from, the root directory unless its entries fill their
      blocks exactly ([mkfs_builds], [root_block_missing]).
    - Memory: the page allocator is a stack of frames; mappages, uvmalloc and
      uvmdealloc change exactly the entries of their range, and uvmalloc gives
      everything back when it fails; uvmcopy gives a child pages of its own
      with the parent's contents, or gives every page back
      ([uvmcopy_copies]); copyin and copyout stay within what the user may
      read or write.
    - Processes: the process table is well typed after every sequence of whole
      calls, wherever each stops ([process_table_typed]); pids are unique under
      every interleaving of allocpid ([allocpid_unique]); exit, wait, wakeup
      and kill; no lost wakeup in any interleaving; mutual exclusion of spin locks on any number
      of harts; traps protect the kernel and interrupts are transparent.
    - Files, pipes and console: reference counts of open files in every
      interleaving; a pipe is a bounded FIFO; console input is a line editor.
    - User programs: the shell's parser is total and inverts spelling; the
      shell loads only commands of the last line it read, with the descriptors
      that line gives them ([sh_execs_leaves]), and can run every line of the
      grammar to its end ([sh_runs_line]); grep decides the language of its
      pattern and selects the matching lines; wc and cat do not depend on how
      read cuts the input; malloc and free keep a sorted ring of disjoint
      blocks and lose no memory.  pingpong and sleep do not compile against
      user.h; what is proved of them is under a reading of the calls that do
      not match ([fprintf_reading], [wait_reading]).

    ** Not modelled

    The assembly files (entry.S, kernelvec.S, trampoline.S, swtch.S,
    initcode.S, usys.pl's output): their effect is written out where the C
    code relies on it.  user/usertests.c, user/grind.c, user/forktest.c and
    user/stressfs.c are tests of the kernel, not part of it.
    kernel/main.c only calls the initialisers in order, each of which is
    modelled with its component.  user/printf.c
    and user/rm.c are named by the Makefile and missing from the repository.
    The memory model is sequentially consistent: the fences
    ([__sync_synchronize]) are no-ops.  Races on data the kernel reads without
    a lock (uartputc_sync, [panicked]) are outside the model. *)
From stdpp Require Export base strings numbers gmap list.
Local Open Scope Z_scope.

(** ** Machine integers

    Every C integer is a [Z]; the conversions of types.h are written out. *)
Definition u8 (x : Z) : Z := x mod 2 ^ 8.
Definition u16 (x : Z) : Z := x mod 2 ^ 16.
Definition u32 (x : Z) : Z := x mod 2 ^ 32.
Definition u64 (x : Z) : Z := x mod 2 ^ 64.
Definition s16 (x : Z) : Z := (x + 2 ^ 15) mod 2 ^ 16 - 2 ^ 15.
Definition s32 (x : Z) : Z := (x + 2 ^ 31) mod 2 ^ 32 - 2 ^ 31.

(** ** Outcomes and the kernel monad

    A kernel function either returns, calls [panic], reaches a point where
    the calling thread cannot go on ([sleep] on a channel, or the spin loop of
    [acquire] on a lock another CPU holds), or does something C leaves
    undefined, such as an access outside an array. *)
Record chan : Type := Chan { ch_obj : string; ch_idx : Z }.

Inductive outcome (A : Type) : Type :=
| Ret (a : A)
| Panic (msg : string)
| Block (c : chan)
| Undef (what : string).
Arguments Ret {A} a.
Arguments Panic {A} msg.
Arguments Block {A} c.
Arguments Undef {A} what.

Definition M (S A : Type) : Type := S -> outcome A * S.

Definition ret {S A} (a : A) : M S A := fun s => (Ret a, s).
Definition panic {S A} (msg : string) : M S A := fun s => (Panic msg, s).
Definition stall {S A} (c : chan) : M S A := fun s => (Block c, s).
Definition undef {S A} (what : string) : M S A := fun s => (Undef what, s).
Definition get {S} : M S S := fun s => (Ret s, s).
Definition gets {S A} (f : S -> A) : M S A := fun s => (Ret (f s), s).
Definition modify {S} (f : S -> S) : M S unit := fun s => (Ret tt, f s).
Definition bind {S A B} (m : M S A) (k : A -> M S B) : M S B :=
  fun s =>
    match m s with
    | (Ret a, s') => k a s'
    | (Panic e, s') => (Panic e, s')
    | (Block c, s') => (Block c, s')
    | (Undef e, s') => (Undef e, s')
    end.

(** Running a component's operation inside a larger state. *)
Definition zoom {S T A} (g : S -> T) (p : T -> S -> S) (m : M T A) : M S A :=
  fun s => let '(r, t) := m (g s) in (r, p t s).

Declare Scope xv6_scope.
Delimit Scope xv6_scope with xv6.
Notation "'let!' x ':=' m 'in' k" := (bind m (fun x => k))
  (at level 10, x pattern, m at level 100, k at level 200) : xv6_scope.
Notation "m ;; k" := (bind m (fun _ => k))
  (at level 100, k at level 200, right associativity) : xv6_scope.
Notation "'when' b 'do' m" := (if b then m else ret tt)
  (at level 99, b at level 98, m at level 98) : xv6_scope.
Open Scope xv6_scope.

(** A counted C loop: [n] iterations, the counter starting at [i] and
    advancing by [d]; the body returns [Some a] to leave the loop early. *)
Fixpoint forn {S A} (n : nat) (i d : Z) (body : Z -> M S (option A)) : M S (option A) :=
  match n with
  | O => ret None
  | S n' =>
      let! r := body i in
      match r with
      | Some a => ret (Some a)
      | None => forn n' (i + d) d body
      end
  end.

(** [for (i = lo; i < hi; i += d)] *)
Definition for_loop {S A} (lo hi d : Z) (body : Z -> M S (option A)) : M S (option A) :=
  forn (Z.to_nat ((hi - lo + d - 1) / d)) lo d body.

(** ** Total correctness of monadic code

    [runs m s Q]: from [s] the computation returns (it neither panics nor
    blocks) and the result and the final state satisfy [Q]. *)
Definition runs {S A} (m : M S A) (s : S) (Q : A -> S -> Prop) : Prop :=
  exists a s', m s = (Ret a, s') /\ Q a s'.

(** ** Bytes *)
Fixpoint le_dec (l : list Z) : Z :=
  match l with
  | [] => 0
  | b :: t => b + 2 ^ 8 * le_dec t
  end.

Fixpoint le_enc (n : nat) (v : Z) : list Z :=
  match n with
  | O => []
  | S n' => u8 v :: le_enc n' (v / 2 ^ 8)
  end.

Definition byte_ok (b : Z) : Prop := 0 <= b < 2 ^ 8.

(** Fields of a structure laid over an array of bytes. *)
Definition get_bytes (l : list Z) (off n : nat) : list Z := take n (drop off l).
Definition put_bytes (l : list Z) (off : nat) (bs : list Z) : list Z :=
  take off l ++ bs ++ drop (off + length bs) l.
Definition get_le (l : list Z) (off n : nat) : Z := le_dec (get_bytes l off n).
Definition put_le (l : list Z) (off n : nat) (v : Z) : list Z := put_bytes l off (le_enc n v).

(** ** Instances *)
#[export] Instance chan_eq_dec : EqDecision chan.
Proof. solve_decision. Defined.

#[export] Instance chan_inhabited : Inhabited chan := populate (Chan "" 0).

(** ** Lemmas: the monad *)
Create HintDb xv6 discriminated.
Create Rewrite HintDb xv6_len.

Section runs_rules.
Context {St : Type}.
Implicit Types s : St.

Lemma runs_ret {A} (a : A) s (Q : A -> St -> Prop) : Q a s -> runs (ret a) s Q.
Proof. intros H. by exists a, s. Qed.

Lemma runs_gets {A} (f : St -> A) s (Q : A -> St -> Prop) : Q (f s) s -> runs (gets f) s Q.
Proof. intros H. by exists (f s), s. Qed.

Lemma runs_get s (Q : St -> St -> Prop) : Q s s -> runs get s Q.
Proof. intros H. by exists s, s. Qed.

Lemma runs_modify (f : St -> St) s (Q : unit -> St -> Prop) :
  Q tt (f s) -> runs (modify f) s Q.
Proof. intros H. by exists tt, (f s). Qed.

Lemma runs_bind {A B} (m : M St A) (k : A -> M St B) s (Q : B -> St -> Prop) :
  runs m s (fun a s' => runs (k a) s' Q) -> runs (bind m k) s Q.
Proof.
  intros (a & s' & Hm & b & s'' & Hk & HQ). exists b, s''.
  unfold bind. by rewrite Hm.
Qed.

Lemma runs_mono {A} (m : M St A) s (P Q : A -> St -> Prop) :
  runs m s P -> (forall a s', P a s' -> Q a s') -> runs m s Q.
Proof. intros (a & s' & Hm & HP) HPQ. exists a, s'. eauto. Qed.

(** Sequencing through a specification of the first computation. *)
Lemma runs_seq {A B} (m : M St A) (k : A -> M St B) s
    (P : A -> St -> Prop) (Q : B -> St -> Prop) :
  runs m s P -> (forall a s', P a s' -> runs (k a) s' Q) -> runs (bind m k) s Q.
Proof. intros Hm Hk. apply runs_bind. eapply runs_mono; eauto. Qed.

Lemma runs_inv {A} (m : M St A) s (Q : A -> St -> Prop) a s' :
  runs m s Q -> m s = (Ret a, s') -> Q a s'.
Proof. intros (b & t & Hm & HQ) E. rewrite Hm in E. by simplify_eq. Qed.

Lemma runs_eq {A} (m : M St A) s a s' (Q : A -> St -> Prop) :
  m s = (Ret a, s') -> Q a s' -> runs m s Q.
Proof. intros. by exists a, s'. Qed.

(** A computation that behaves as another one in this state. *)
Lemma runs_as {A} (m m' : M St A) s (Q : A -> St -> Prop) : m s = m' s -> runs m' s Q -> runs m s Q.
Proof. intros E (a & s' & Hm & HQ). exists a, s'. by rewrite E. Qed.

(** Grouping the first two computations of a sequence. *)
Lemma runs_assoc {A B C} (m : M St A) (k : A -> M St B) (k2 : B -> M St C) s (Q : C -> St -> Prop) :
  runs (bind (bind m k) k2) s Q -> runs (bind m (fun a => bind (k a) k2)) s Q.
Proof.
  intros (a & t & E & HQ). exists a, t. split; [|done]. rewrite <- E. unfold bind.
  by destruct (m s) as [[] ?].
Qed.

(** Invariant rule of the counted loop. *)
Lemma runs_forn {A} (n : nat) (i d : Z) (body : Z -> M St (option A))
    (I : nat -> St -> Prop) (Q : option A -> St -> Prop) s :
  I 0%nat s ->
  (forall (k : nat) t, (k < n)%nat -> I k t ->
     runs (body (i + d * Z.of_nat k)) t
       (fun r t' => match r with Some a => Q (Some a) t' | None => I (S k) t' end)) ->
  (forall t, I n t -> Q None t) ->
  runs (forn n i d body) s Q.
Proof.
  revert i s I. induction n as [|n IH]; intros i s I H0 Hbody Hend.
  - apply runs_ret. auto.
  - simpl. eapply runs_seq.
    { replace i with (i + d * Z.of_nat 0) by lia. apply Hbody; [lia|done]. }
    intros [a|] t Ht; [by apply runs_ret|].
    apply (IH (i + d) t (fun k => I (S k))); [done| |done].
    intros k t' Hk HI. replace (i + d + d * Z.of_nat k) with (i + d * Z.of_nat (S k)) by lia.
    apply Hbody; [lia|done].
Qed.
End runs_rules.

Lemma runs_zoom {S T A} (g : S -> T) (p : T -> S -> S) (m : M T A) s (Q : A -> S -> Prop) :
  runs m (g s) (fun a t => Q a (p t s)) -> runs (zoom g p m) s Q.
Proof.
  intros (a & t & Hm & HQ). exists a, (p t s). unfold zoom. by rewrite Hm.
Qed.

(** One symbolic step through straight-line monadic code. *)
Ltac mstep :=
  match goal with
  | |- runs (bind (bind _ _) _) _ _ => apply runs_bind
  | |- runs (bind (ret _) _) _ _ => apply runs_bind, runs_ret
  | |- runs (bind (gets _) _) _ _ => apply runs_bind, runs_gets
  | |- runs (bind get _) _ _ => apply runs_bind, runs_get
  | |- runs (bind (modify _) _) _ _ => apply runs_bind, runs_modify
  | |- runs (ret _) _ _ => apply runs_ret
  | |- runs (gets _) _ _ => apply runs_gets
  | |- runs (modify _) _ _ => apply runs_modify
  end; cbn beta.

(** ** Lemmas: machine integers *)
Lemma u8_range x : 0 <= u8 x < 2 ^ 8.
Proof. by apply Z.mod_pos_bound. Qed.
Lemma u32_range x : 0 <= u32 x < 2 ^ 32.
Proof. by apply Z.mod_pos_bound. Qed.
Lemma u64_range x : 0 <= u64 x < 2 ^ 64.
Proof. by apply Z.mod_pos_bound. Qed.
Lemma u32_small x : 0 <= x < 2 ^ 32 -> u32 x = x.
Proof. apply Z.mod_small. Qed.
Lemma u64_small x : 0 <= x < 2 ^ 64 -> u64 x = x.
Proof. apply Z.mod_small. Qed.
Lemma u16_small x : 0 <= x < 2 ^ 16 -> u16 x = x.
Proof. apply Z.mod_small. Qed.
Lemma u8_small x : 0 <= x < 2 ^ 8 -> u8 x = x.
Proof. apply Z.mod_small. Qed.
Lemma s32_small x : - 2 ^ 31 <= x < 2 ^ 31 -> s32 x = x.
Proof. intros. unfold s32. rewrite Z.mod_small; lia. Qed.
Lemma s16_small x : - 2 ^ 15 <= x < 2 ^ 15 -> s16 x = x.
Proof. intros. unfold s16. rewrite Z.mod_small; lia. Qed.

(** ** Lemmas: little-endian codecs *)
Lemma length_le_enc n v : length (le_enc n v) = n.
Proof. revert v. induction n; intros; simpl; auto. Qed.

Lemma le_dec_enc n v : le_dec (le_enc n v) = v mod 2 ^ (8 * Z.of_nat n).
Proof.
  revert v. induction n as [|n IH]; intros v.
  - by rewrite Z.mod_1_r.
  - simpl le_enc. simpl le_dec. rewrite IH. unfold u8.
    replace (8 * Z.of_nat (S n)) with (8 + 8 * Z.of_nat n) by lia.
    rewrite Z.pow_add_r, Z.rem_mul_r by lia. lia.
Qed.

Lemma le_enc_ok n v : Forall byte_ok (le_enc n v).
Proof.
  revert v. induction n; intros; simpl; constructor; [apply u8_range|auto].
Qed.

Lemma le_dec_range l : Forall byte_ok l -> 0 <= le_dec l < 2 ^ (8 * Z.of_nat (length l)).
Proof.
  induction 1 as [|b l Hb _ IH]; simpl; [lia|].
  unfold byte_ok in Hb.
  replace (8 * Z.of_nat (S (length l))) with (8 + 8 * Z.of_nat (length l)) by lia.
  rewrite Z.pow_add_r by lia. lia.
Qed.

Lemma le_enc_dec l : Forall byte_ok l -> le_enc (length l) (le_dec l) = l.
Proof.
  induction 1 as [|b l Hb _ IH]; simpl; [done|].
  unfold byte_ok in Hb. unfold u8. change (2 ^ 8) with 256 in *. f_equal.
  - rewrite (Z.mul_comm 256), Z.mod_add by lia. apply Z.mod_small; lia.
  - rewrite (Z.mul_comm 256), Z.div_add, Z.div_small by lia. done.
Qed.

(** ** Lemmas: fields of byte arrays *)
Lemma length_get_bytes l off n :
  (off + n <= length l)%nat -> length (get_bytes l off n) = n.
Proof. intros. unfold get_bytes. rewrite length_take, length_drop. lia. Qed.

Lemma length_put_bytes l off bs :
  (off + length bs <= length l)%nat -> length (put_bytes l off bs) = length l.
Proof.
  intros. unfold put_bytes. rewrite !length_app, length_take, length_drop. lia.
Qed.

Lemma length_put_le l off n v :
  (off + n <= length l)%nat -> length (put_le l off n v) = length l.
Proof. intros. apply length_put_bytes. by rewrite length_le_enc. Qed.

Lemma lookup_put_bytes l off bs (i : nat) :
  (off + length bs <= length l)%nat ->
  put_bytes l off bs !! i =
    if decide (off <= i < off + length bs)%nat then bs !! (i - off)%nat else l !! i.
Proof.
  intros H. unfold put_bytes. case_decide.
  - rewrite lookup_app_r by (rewrite length_take; lia).
    rewrite lookup_app_l by (rewrite length_take; lia).
    f_equal. rewrite length_take. lia.
  - destruct (decide (i < off)%nat).
    + rewrite lookup_app_l by (rewrite length_take; lia).
      by rewrite lookup_take_lt by lia.
    + rewrite lookup_app_r by (rewrite length_take; lia).
      rewrite lookup_app_r by (rewrite length_take; lia).
      rewrite lookup_drop. f_equal. rewrite length_take. lia.
Qed.

Lemma lookup_get_bytes l off n (i : nat) :
  get_bytes l off n !! i = if decide (i < n)%nat then l !! (off + i)%nat else None.
Proof.
  unfold get_bytes. case_decide.
  - by rewrite lookup_take_lt, lookup_drop.
  - apply lookup_take_ge. lia.
Qed.

Lemma get_put_same l off bs :
  (off + length bs <= length l)%nat -> get_bytes (put_bytes l off bs) off (length bs) = bs.
Proof.
  intros. apply list_eq. intros i. rewrite lookup_get_bytes.
  case_decide.
  - rewrite lookup_put_bytes by done. rewrite decide_True by lia. f_equal. lia.
  - symmetry. apply lookup_ge_None. lia.
Qed.

Lemma get_put_disjoint l off bs off' n :
  (off + length bs <= length l)%nat ->
  (off' + n <= off \/ off + length bs <= off')%nat ->
  get_bytes (put_bytes l off bs) off' n = get_bytes l off' n.
Proof.
  intros. apply list_eq. intros i. rewrite !lookup_get_bytes.
  case_decide; [|done]. rewrite lookup_put_bytes by done. rewrite decide_False; [done|lia].
Qed.

Lemma put_put_same l off bs bs' :
  length bs = length bs' -> (off + length bs <= length l)%nat ->
  put_bytes (put_bytes l off bs) off bs' = put_bytes l off bs'.
Proof.
  intros Hl Hb. apply list_eq. intros i.
  rewrite !lookup_put_bytes; rewrite ?length_put_bytes; try lia.
  repeat case_decide; try done; lia.
Qed.

Lemma put_get_id l off n :
  (off + n <= length l)%nat -> put_bytes l off (get_bytes l off n) = l.
Proof.
  intros H. apply list_eq. intros i.
  rewrite lookup_put_bytes; rewrite length_get_bytes by done; [|done].
  case_decide; [|done]. rewrite lookup_get_bytes, decide_True by lia.
  f_equal. lia.
Qed.

Lemma get_le_put_same l off n v :
  (off + n <= length l)%nat -> get_le (put_le l off n v) off n = v mod 2 ^ (8 * Z.of_nat n).
Proof.
  intros. unfold get_le, put_le.
  rewrite <- (length_le_enc n v) at 2.
  rewrite get_put_same by (by rewrite length_le_enc).
  apply le_dec_enc.
Qed.

Lemma get_le_put_disjoint l off n v off' n' :
  (off + n <= length l)%nat -> (off' + n' <= off \/ off + n <= off')%nat ->
  get_le (put_le l off n v) off' n' = get_le l off' n'.
Proof.
  intros. unfold get_le, put_le.
  rewrite get_put_disjoint by (rewrite length_le_enc; lia). done.
Qed.

Lemma Forall_put_bytes (P : Z -> Prop) l off bs :
  Forall P l -> Forall P bs -> Forall P (put_bytes l off bs).
Proof.
  intros Hl Hb. unfold put_bytes.
  repeat apply Forall_app_2; auto using Forall_take, Forall_drop.
Qed.

Lemma Forall_get_bytes (P : Z -> Prop) l off n :
  Forall P l -> Forall P (get_bytes l off n).
Proof. intros. apply Forall_take, Forall_drop. done. Qed.

(** ** Lemmas: lists *)
Lemma filter_cong {A} (P Q : A -> Prop) {HP : forall a, Decision (P a)} {HQ : forall a, Decision (Q a)} (l : list A) :
  (forall a, a ∈ l -> P a <-> Q a) -> filter P l = filter Q l.
Proof.
  induction l as [|a l IH]; intros H; [done|]. rewrite !filter_cons, IH.
  - pose proof (H a ltac:(by left)). repeat case_decide; tauto.
  - intros b Hb. apply H. by right.
Qed.

Lemma filter_all {A} (P : A -> Prop) {HP : forall a, Decision (P a)} (l : list A) :
  (forall a, a ∈ l -> P a) -> filter P l = l.
Proof.
  induction l as [|a l IH]; intros H; [done|]. rewrite filter_cons, decide_True by (apply H; by left).
  f_equal. apply IH. intros b Hb. apply H. by right.
Qed.

Lemma prefix_app_cases {A} (p a b : list A) :
  p `prefix_of` a ++ b -> p `prefix_of` a \/ exists q, p = a ++ q /\ q `prefix_of` b.
Proof.
  revert a. induction p as [|x p IH]; intros a H; [left; apply prefix_nil|].
  destruct a as [|y a]; [right; by exists (x :: p)|].
  apply prefix_cons_inv_1 in H as E. apply prefix_cons_inv_2 in H. subst y.
  destruct (IH a H) as [H1|(q & -> & Hq)]; [left; by apply prefix_cons|right; by exists q].
Qed.

Lemma prefix_snoc_cases {A} (p a : list A) x :
  p `prefix_of` a ++ [x] -> p `prefix_of` a \/ p = a ++ [x].
Proof.
  intros [H|(q & -> & Hq)]%prefix_app_cases; [by left|].
  destruct q as [|y q]; [left; by rewrite app_nil_r|right].
  apply prefix_cons_inv_1 in Hq as E. apply prefix_cons_inv_2, prefix_nil_inv in Hq. by subst.
Qed.

#[export] Hint Resolve u8_range u32_range u64_range le_enc_ok : xv6.
#[export] Hint Rewrite length_le_enc @length_insert @length_replicate @length_app
  @length_take @length_drop : xv6_len.
Ltac lens := autorewrite with xv6_len; try lia.

(** [lia] with division and remainder by constants. *)
Ltac dlia := Z.to_euclidean_division_equations; lia.
