(* ===== verification/CString.v ===== *)
(** * Byte memory and kernel/string.c

    Memory is a map from addresses to bytes; an address that was never
    written reads as 0.  Pointers are [Z] addresses.  Each routine of
    string.c is translated with the loop it is written with: the two copying
    directions of [memmove], the two loops of [strncpy], and the store after
    the loop of [safestrcpy]. *)
From S2P Require Import Prelude.
Local Open Scope Z_scope.

Abbreviation mem := (gmap Z Z).

Definition rd (m : mem) (a : Z) : Z := default 0 (m !! a).
Definition wr (m : mem) (a v : Z) : mem := <[a := v]> m.

(** [for(i = 0; i < n; i++) cdst[i] = c] *)
Fixpoint memset_loop (n : nat) (m : mem) (d c : Z) : mem :=
  match n with
  | O => m
  | S n' => memset_loop n' (wr m d c) (d + 1) c
  end.

Definition memset (m : mem) (dst c n : Z) : mem :=
  memset_loop (Z.to_nat n) m dst (u8 c).

Fixpoint memcmp_loop (n : nat) (m : mem) (s1 s2 : Z) : Z :=
  match n with
  | O => 0
  | S n' =>
      if negb (rd m s1 =? rd m s2) then rd m s1 - rd m s2
      else memcmp_loop n' m (s1 + 1) (s2 + 1)
  end.

Definition memcmp (m : mem) (v1 v2 n : Z) : Z := memcmp_loop (Z.to_nat n) m v1 v2.

(** [while(n-- > 0) *d++ = *s++] *)
Fixpoint copy_fwd (n : nat) (m : mem) (d s : Z) : mem :=
  match n with
  | O => m
  | S n' => copy_fwd n' (wr m d (rd m s)) (d + 1) (s + 1)
  end.

(** [while(n-- > 0) *--d = *--s] *)
Fixpoint copy_bwd (n : nat) (m : mem) (d s : Z) : mem :=
  match n with
  | O => m
  | S n' => copy_bwd n' (wr m (d - 1) (rd m (s - 1))) (d - 1) (s - 1)
  end.

Definition memmove (m : mem) (dst src n : Z) : mem :=
  if n =? 0 then m
  else if (src <? dst) && (dst <? src + n)
       then copy_bwd (Z.to_nat n) m (dst + n) (src + n)
       else copy_fwd (Z.to_nat n) m dst src.

Definition memcpy (m : mem) (dst src n : Z) : mem := memmove m dst src n.

Fixpoint strncmp_loop (n : nat) (m : mem) (p q : Z) : Z :=
  match n with
  | O => 0
  | S n' =>
      if negb (rd m p =? 0) && (rd m p =? rd m q)
      then strncmp_loop n' m (p + 1) (q + 1)
      else u8 (rd m p) - u8 (rd m q)
  end.

Definition strncmp (m : mem) (p q n : Z) : Z := strncmp_loop (Z.to_nat n) m p q.

(** [while(n-- > 0) *s++ = 0] *)
Fixpoint zero_fill (n : nat) (m : mem) (s : Z) : mem :=
  match n with
  | O => m
  | S n' => zero_fill n' (wr m s 0) (s + 1)
  end.

Fixpoint strncpy_loop (n : nat) (m : mem) (s t : Z) : mem :=
  match n with
  | O => m
  | S n' =>
      let c := rd m t in
      let m' := wr m s c in
      if c =? 0 then zero_fill n' m' (s + 1)
      else strncpy_loop n' m' (s + 1) (t + 1)
  end.

Definition strncpy (m : mem) (s t n : Z) : mem := strncpy_loop (Z.to_nat n) m s t.

(** The loop of [safestrcpy] with [n] iterations left, then [*s = 0]. *)
Fixpoint safestrcpy_loop (n : nat) (m : mem) (s t : Z) : mem :=
  match n with
  | O => wr m s 0
  | S n' =>
      let c := rd m t in
      let m' := wr m s c in
      if c =? 0 then wr m' (s + 1) 0
      else safestrcpy_loop n' m' (s + 1) (t + 1)
  end.

Definition safestrcpy (m : mem) (s t n : Z) : mem :=
  if n <=? 0 then m else safestrcpy_loop (Z.to_nat (n - 1)) m s t.

(** [strlen] with a bound on the number of bytes looked at: [None] when no
    NUL was met. *)
Fixpoint strlen_loop (fuel : nat) (m : mem) (s n : Z) : option Z :=
  match fuel with
  | O => None
  | S f => if rd m (s + n) =? 0 then Some n else strlen_loop f m s (n + 1)
  end.

Definition strlen (fuel : nat) (m : mem) (s : Z) : option Z := strlen_loop fuel m s 0.

Arguments memset : simpl never.
Arguments memmove : simpl never.

(** The name held by an [n]-byte field: its bytes up to the first NUL. *)
Fixpoint field_name (n : nat) (m : mem) (p : Z) : list Z :=
  match n with
  | O => []
  | S n' => if rd m p =? 0 then [] else rd m p :: field_name n' m (p + 1)
  end.

(** A NUL-terminated string in memory. *)
Fixpoint cstr (m : mem) (p : Z) (l : list Z) : Prop :=
  match l with
  | [] => rd m p = 0
  | c :: t => rd m p = c /\ c <> 0 /\ cstr m (p + 1) t
  end.

Definition mem_ok (m : mem) : Prop := forall a, byte_ok (rd m a).

(** ** Reads and writes *)
Lemma rd_wr m a v b : rd (wr m a v) b = if decide (a = b) then v else rd m b.
Proof. unfold rd, wr. rewrite lookup_insert. by case_decide. Qed.

Lemma rd_wr_eq m a v : rd (wr m a v) a = v.
Proof. rewrite rd_wr. by case_decide. Qed.

Lemma rd_wr_ne m a v b : a <> b -> rd (wr m a v) b = rd m b.
Proof. intros. rewrite rd_wr. by case_decide. Qed.

(** A routine that leaves every byte outside [lo, lo+n) alone. *)
Definition only_changes (lo n : Z) (m m' : mem) : Prop :=
  forall a, ~ (lo <= a < lo + n) -> rd m' a = rd m a.

Lemma cstr_ext lo n m m' p l :
  only_changes lo n m m' -> (p + Z.of_nat (length l) < lo \/ lo + n <= p) -> cstr m p l -> cstr m' p l.
Proof.
  intros HO. revert p. induction l as [|c t IH]; intros p Hd HC; cbn in *.
  - rewrite HO; [done|lia].
  - destruct HC as (H1 & H2 & H3). split_and!; [rewrite HO; [done|lia]|done|apply IH; [lia|done]].
Qed.

Lemma memset_loop_spec n m d c a :
  rd (memset_loop n m d c) a = if decide (d <= a < d + Z.of_nat n) then c else rd m a.
Proof.
  revert m d. induction n as [|n IH]; intros m d; cbn [memset_loop].
  - by rewrite decide_False by lia.
  - rewrite IH, rd_wr. repeat case_decide; try done; lia.
Qed.

Lemma zero_fill_spec n m d a :
  rd (zero_fill n m d) a = if decide (d <= a < d + Z.of_nat n) then 0 else rd m a.
Proof.
  revert m d. induction n as [|n IH]; intros m d; cbn [zero_fill].
  - by rewrite decide_False by lia.
  - rewrite IH, rd_wr. repeat case_decide; try done; lia.
Qed.

Lemma rd_memset m dst c n a :
  0 <= n -> rd (memset m dst c n) a = if decide (dst <= a < dst + n) then u8 c else rd m a.
Proof.
  intros. unfold memset. rewrite memset_loop_spec, Z2Nat.id by done. done.
Qed.

(** Copying upwards is right unless the destination starts inside the source. *)
Lemma copy_fwd_spec n m d s a :
  ~ (s < d < s + Z.of_nat n) ->
  rd (copy_fwd n m d s) a =
    if decide (d <= a < d + Z.of_nat n) then rd m (s + (a - d)) else rd m a.
Proof.
  revert m d s. induction n as [|n IH]; intros m d s H; cbn [copy_fwd].
  - by rewrite decide_False by lia.
  - rewrite IH by lia. rewrite !rd_wr.
    repeat case_decide; try done; try lia; f_equal; lia.
Qed.

(** Copying downwards is right when the destination is above the source. *)
Lemma copy_bwd_spec n m d s a :
  s < d ->
  rd (copy_bwd n m d s) a =
    if decide (d - Z.of_nat n <= a < d) then rd m (s + (a - d)) else rd m a.
Proof.
  revert m d s. induction n as [|n IH]; intros m d s H; cbn [copy_bwd].
  - by rewrite decide_False by lia.
  - rewrite IH by lia. rewrite !rd_wr.
    repeat case_decide; try done; try lia; f_equal; lia.
Qed.

Lemma rd_memmove m dst src n a :
  0 <= n ->
  rd (memmove m dst src n) a =
    if decide (dst <= a < dst + n) then rd m (src + (a - dst)) else rd m a.
Proof.
  intros Hn. unfold memmove. destruct (Z.eqb_spec n 0) as [->|].
  { by rewrite decide_False by lia. }
  destruct (Z.ltb_spec src dst); cbn [andb].
  - destruct (Z.ltb_spec dst (src + n)).
    + rewrite copy_bwd_spec, Z2Nat.id by lia.
      repeat case_decide; try lia; try done; f_equal; lia.
    + rewrite copy_fwd_spec, Z2Nat.id by lia. done.
  - rewrite copy_fwd_spec, Z2Nat.id by lia. done.
Qed.

(** ** Names *)
Lemma strncmp_loop_zero n m p q :
  mem_ok m ->
  strncmp_loop n m p q = 0 <-> field_name n m p = field_name n m q.
Proof.
  intros Hm. revert p q. induction n as [|n IH]; intros p q; cbn [strncmp_loop field_name].
  { done. }
  assert (Hu : forall x, u8 (rd m x) = rd m x) by (intros; apply u8_small, Hm).
  destruct (Z.eqb_spec (rd m p) 0) as [Hp|Hp]; cbn [negb andb].
  - rewrite !Hu, Hp. destruct (Z.eqb_spec (rd m q) 0); split; intros; (done || lia).
  - destruct (Z.eqb_spec (rd m p) (rd m q)) as [Hpq|Hpq].
    + rewrite IH. rewrite <- Hpq. rewrite (proj2 (Z.eqb_neq _ _) Hp).
      split; [intros ->; done|intros [=]; done].
    + rewrite !Hu. split; [lia|].
      destruct (Z.eqb_spec (rd m q) 0); intros [=]; done.
Qed.

Lemma strncpy_loop_only n m s t : only_changes s (Z.of_nat n) m (strncpy_loop n m s t).
Proof.
  revert m s t. induction n as [|n IH]; intros m s t a Ha; cbn [strncpy_loop]; [done|].
  destruct (Z.eqb_spec (rd m t) 0).
  - rewrite zero_fill_spec, rd_wr. repeat case_decide; try done; lia.
  - rewrite IH by lia. apply rd_wr_ne. lia.
Qed.

Lemma field_name_ext n m m' p :
  (forall a, p <= a < p + Z.of_nat n -> rd m' a = rd m a) -> field_name n m' p = field_name n m p.
Proof.
  revert p. induction n as [|n IH]; intros p H; cbn [field_name]; [done|].
  rewrite H by lia. rewrite (IH (p + 1)) by (intros; apply H; lia). done.
Qed.

(** Every byte [strncpy] stores: the name, then NULs up to the field's end. *)
Lemma strncpy_loop_name n m s t :
  s + Z.of_nat n <= t \/ t + Z.of_nat n <= s ->
  field_name n (strncpy_loop n m s t) s = field_name n m t.
Proof.
  revert m s t. induction n as [|n IH]; intros m s t H; [done|]. cbn [strncpy_loop].
  destruct (Z.eqb_spec (rd m t) 0) as [E|E]; cbn [field_name].
  - rewrite zero_fill_spec, decide_False, rd_wr_eq by lia. by rewrite E.
  - rewrite (strncpy_loop_only n _ (s + 1) (t + 1)) by lia.
    rewrite rd_wr_eq. rewrite IH by lia.
    destruct (Z.eqb_spec (rd m t) 0); [done|]. f_equal.
    apply field_name_ext. intros a Ha. apply rd_wr_ne. lia.
Qed.

Lemma strncpy_loop_ok n m s t : mem_ok m -> mem_ok (strncpy_loop n m s t).
Proof.
  revert m s t. induction n as [|n IH]; intros m s t Hm a; cbn [strncpy_loop]; [apply Hm|].
  destruct (rd m t =? 0).
  - rewrite zero_fill_spec, rd_wr. repeat case_decide; try apply Hm; unfold byte_ok; lia.
  - apply IH. intros b. rewrite rd_wr. case_decide; apply Hm.
Qed.

Lemma safestrcpy_loop_only n m s t :
  only_changes s (Z.of_nat n + 1) m (safestrcpy_loop n m s t).
Proof.
  revert m s t. induction n as [|n IH]; intros m s t a Ha; cbn [safestrcpy_loop].
  - apply rd_wr_ne. lia.
  - destruct (Z.eqb_spec (rd m t) 0).
    + rewrite !rd_wr_ne by lia. done.
    + rewrite IH by lia. apply rd_wr_ne. lia.
Qed.

Lemma safestrcpy_loop_name n m s t :
  s + Z.of_nat n + 1 <= t \/ t + Z.of_nat n <= s ->
  field_name (S n) (safestrcpy_loop n m s t) s = field_name n m t /\
  exists k, s <= k <= s + Z.of_nat n /\ rd (safestrcpy_loop n m s t) k = 0.
Proof.
  revert m s t. induction n as [|n IH]; intros m s t H; cbn [safestrcpy_loop].
  - cbn [field_name]. rewrite rd_wr_eq. split; [done|]. exists s. rewrite rd_wr_eq. lia.
  - destruct (Z.eqb_spec (rd m t) 0) as [E|E].
    + cbn [field_name]. rewrite rd_wr_ne, rd_wr_eq by lia. rewrite E. split; [done|].
      exists s. rewrite rd_wr_ne, rd_wr_eq by lia. lia.
    + destruct (IH (wr m s (rd m t)) (s + 1) (t + 1)) as [Hname (k & Hk & Hz)]; [lia|].
      assert (Hs : rd (safestrcpy_loop n (wr m s (rd m t)) (s + 1) (t + 1)) s = rd m t).
      { rewrite safestrcpy_loop_only by lia. apply rd_wr_eq. }
      split; [|exists k; split; [lia|done]].
      remember (S n) as sn eqn:Hsn. cbn [field_name]. rewrite Hs, Hname. subst sn.
      cbn [field_name]. destruct (Z.eqb_spec (rd m t) 0); [done|]. f_equal.
      apply field_name_ext. intros a Ha. apply rd_wr_ne. lia.
Qed.

Lemma strlen_loop_spec k : forall fuel m s i,
  (forall j, i <= j < i + Z.of_nat k -> rd m (s + j) <> 0) ->
  rd m (s + i + Z.of_nat k) = 0 -> (k < fuel)%nat ->
  strlen_loop fuel m s i = Some (i + Z.of_nat k).
Proof.
  induction k as [|k IH]; intros fuel m s i Hnz Hz Hf; (destruct fuel as [|fuel]; [lia|]);
    cbn [strlen_loop].
  - rewrite Z.add_0_r in Hz |- *. by rewrite Hz.
  - destruct (Z.eqb_spec (rd m (s + i)) 0) as [E|_]; [by destruct (Hnz i); [lia|]|].
    rewrite IH; [f_equal; lia| | |lia].
    + intros j Hj. apply Hnz. lia.
    + rewrite <- Hz. f_equal. lia.
Qed.

(** ** Properties *)

(** [memmove] copies [n] bytes from [src] to [dst] as if through a
    temporary buffer, whether or not and whichever way the two ranges
    overlap, and changes no other byte. *)
Theorem memmove_correct m dst src n :
  0 <= n ->
  (forall i, 0 <= i < n -> rd (memmove m dst src n) (dst + i) = rd m (src + i)) /\
  only_changes dst n m (memmove m dst src n).
Proof.
  intros Hn. split.
  - intros i Hi. rewrite rd_memmove, decide_True by lia. f_equal. lia.
  - intros a Ha. by rewrite rd_memmove, decide_False by lia.
Qed.

Lemma memmove_correct_witness :
  rd (memmove {[10 := 1; 11 := 2; 12 := 3]} 11 10 3) (11 + 2) = rd {[10 := 1; 11 := 2; 12 := 3]} (10 + 2).
Proof. apply memmove_correct; lia. Defined.

(** Directory-entry names: [strncpy] into an [n]-byte field followed by
    [strncmp] bounded by [n] finds the name again, and [strncmp] says two
    fields are equal exactly when the names they hold (up to NUL or the end
    of the field) are. *)
Theorem strncpy_strncmp_roundtrip m s t n :
  0 <= n -> mem_ok m -> s + n <= t \/ t + n <= s ->
  strncmp (strncpy m s t n) s t n = 0 /\
  only_changes s n m (strncpy m s t n) /\
  (forall p q, strncmp m p q n = 0 <-> field_name (Z.to_nat n) m p = field_name (Z.to_nat n) m q).
Proof.
  intros Hn Hm Hst. unfold strncmp, strncpy.
  assert (Hon : only_changes s n m (strncpy_loop (Z.to_nat n) m s t)).
  { pose proof (strncpy_loop_only (Z.to_nat n) m s t) as H. by rewrite Z2Nat.id in H. }
  split_and!; [|done|by intros; apply strncmp_loop_zero].
  apply strncmp_loop_zero; [by apply strncpy_loop_ok|].
  rewrite strncpy_loop_name by lia. symmetry. apply field_name_ext.
  intros a Ha. apply Hon. lia.
Qed.

Lemma strncpy_strncmp_roundtrip_witness :
  strncmp (strncpy {[100 := 108; 101 := 115]} 0 100 14) 0 100 14 = 0.
Proof.
  apply strncpy_strncmp_roundtrip; [lia| |lia].
  intros a. unfold rd. rewrite lookup_insert, lookup_singleton.
  repeat case_decide; cbn; unfold byte_ok; lia.
Defined.

(** [safestrcpy] into an [n]-byte buffer never stores outside it, always
    leaves it NUL-terminated, and the buffer then holds the source string cut
    to [n - 1] bytes. *)
Theorem safestrcpy_terminates_in_bounds m s t n :
  0 < n -> s + n <= t \/ t + n <= s ->
  only_changes s n m (safestrcpy m s t n) /\
  (exists k, s <= k < s + n /\ rd (safestrcpy m s t n) k = 0) /\
  field_name (Z.to_nat n) (safestrcpy m s t n) s = field_name (Z.to_nat (n - 1)) m t.
Proof.
  intros Hn Hst. unfold safestrcpy. rewrite (proj2 (Z.leb_gt _ _)) by lia.
  destruct (safestrcpy_loop_name (Z.to_nat (n - 1)) m s t) as [Hname (k & Hk & Hz)]; [lia|].
  split_and!.
  - intros a Ha. apply safestrcpy_loop_only. lia.
  - exists k. split; [lia|done].
  - by replace (Z.to_nat n) with (S (Z.to_nat (n - 1))) by lia.
Qed.

Lemma safestrcpy_terminates_in_bounds_witness :
  field_name 3 (safestrcpy {[100 := 108; 101 := 115; 102 := 120]} 0 100 3) 0 = [108; 115].
Proof.
  rewrite (proj2 (proj2 (safestrcpy_terminates_in_bounds
    {[100 := 108; 101 := 115; 102 := 120]} 0 100 3 ltac:(lia) ltac:(lia)))).
  reflexivity.
Defined.
