(* ===== verification/Riscv.v ===== *)
(** * Constants and address arithmetic: kernel/riscv.h, kernel/memlayout.h,
    kernel/param.h

    The macros are kept with the shifts and masks they are written with; the
    lemmas restate them with division and remainder. *)
From S2P Require Import Prelude CString.
Local Open Scope Z_scope.

Definition PGSIZE : Z := 4096.
Definition PGSHIFT : Z := 12.
Definition PGROUNDUP (sz : Z) : Z := u64 (Z.land (sz + PGSIZE - 1) (Z.lnot (PGSIZE - 1))).
Definition PGROUNDDOWN (a : Z) : Z := u64 (Z.land a (Z.lnot (PGSIZE - 1))).

Definition PTE_V : Z := Z.shiftl 1 0.
Definition PTE_R : Z := Z.shiftl 1 1.
Definition PTE_W : Z := Z.shiftl 1 2.
Definition PTE_X : Z := Z.shiftl 1 3.
Definition PTE_U : Z := Z.shiftl 1 4.

Definition PA2PTE (pa : Z) : Z := u64 (Z.shiftl (Z.shiftr pa 12) 10).
Definition PTE2PA (pte : Z) : Z := u64 (Z.shiftl (Z.shiftr pte 10) 12).
Definition PTE_FLAGS (pte : Z) : Z := Z.land pte 1023.

Definition PXMASK : Z := 511.
Definition PXSHIFT (level : Z) : Z := PGSHIFT + 9 * level.
Definition PX (level va : Z) : Z := Z.land (Z.shiftr va (PXSHIFT level)) PXMASK.
Definition MAXVA : Z := Z.shiftl 1 (9 + 9 + 9 + 12 - 1).

Definition KERNBASE : Z := 2147483648.
Definition PHYSTOP : Z := KERNBASE + 128 * 1024 * 1024.
Definition TRAMPOLINE : Z := MAXVA - PGSIZE.
Definition TRAPFRAME : Z := TRAMPOLINE - PGSIZE.
Definition KSTACK (p : Z) : Z := TRAMPOLINE - (p + 1) * 2 * PGSIZE.
Definition UART0 : Z := 268435456.
Definition VIRTIO0 : Z := 268439552.
Definition PLIC : Z := 201326592.

(** kernel/param.h, with LAB_UTIL defined (conf/lab.mk). *)
Definition NPROC : Z := 64.
Definition NOFILE : Z := 16.
Definition NFILE : Z := 100.
Definition NINODE : Z := 50.
Definition NDEV : Z := 10.
Definition ROOTDEV : Z := 1.
Definition MAXARG : Z := 32.
Definition MAXOPBLOCKS : Z := 10.
Definition LOGSIZE : Z := MAXOPBLOCKS * 3.
Definition NBUF : Z := MAXOPBLOCKS * 3.
Definition FSSIZE : Z := 2000.
Definition MAXPATH : Z := 128.
Definition USERSTACK : Z := 2.

(** fcntl.h: the modes of open. *)
Definition O_RDONLY : Z := 0x000.
Definition O_WRONLY : Z := 0x001.
Definition O_RDWR : Z := 0x002.
Definition O_CREATE : Z := 0x200.
Definition O_TRUNC : Z := 0x400.

(** 64-bit loads and stores of little-endian memory. *)
Fixpoint load_bytes (n : nat) (m : mem) (a : Z) : list Z :=
  match n with
  | O => []
  | S n' => rd m a :: load_bytes n' m (a + 1)
  end.

Fixpoint store_bytes (m : mem) (a : Z) (bs : list Z) : mem :=
  match bs with
  | [] => m
  | b :: bs' => store_bytes (wr m a b) (a + 1) bs'
  end.

Definition load64 (m : mem) (a : Z) : Z := le_dec (load_bytes 8 m a).
Definition store64 (m : mem) (a v : Z) : mem := store_bytes m a (le_enc 8 v).

Arguments load64 : simpl never.
Arguments store64 : simpl never.

(** The memory-mapped registers of a device: reading one can depend on what
    was written to it and to the others. *)
Class Mmio (R : Type) := {
  reg_read : Z -> M R Z;
  reg_write : Z -> Z -> M R unit
}.

(** ** Lemmas: rounding *)
Lemma land_lnot_4095 a : Z.land a (Z.lnot (PGSIZE - 1)) = a - a mod PGSIZE.
Proof.
  change (PGSIZE - 1) with (Z.ones 12). rewrite <- Z.ldiff_land, Z.ldiff_ones_r by lia.
  rewrite Z.shiftl_mul_pow2, Z.shiftr_div_pow2 by lia. change (2 ^ 12) with PGSIZE.
  pose proof (Z.div_mod a PGSIZE ltac:(done)). lia.
Qed.

Lemma PGROUNDDOWN_eq a : 0 <= a < 2 ^ 64 -> PGROUNDDOWN a = a - a mod PGSIZE.
Proof.
  intros H. unfold PGROUNDDOWN. rewrite land_lnot_4095. apply u64_small.
  pose proof (Z.mod_pos_bound a PGSIZE ltac:(done)).
  pose proof (Z.mod_le a PGSIZE). unfold PGSIZE in *. lia.
Qed.

Lemma PGROUNDUP_eq sz :
  0 <= sz -> sz + PGSIZE - 1 < 2 ^ 64 -> PGROUNDUP sz = (sz + PGSIZE - 1) / PGSIZE * PGSIZE.
Proof.
  intros H0 H. unfold PGROUNDUP. rewrite land_lnot_4095.
  pose proof (Z.div_mod (sz + PGSIZE - 1) PGSIZE ltac:(done)).
  pose proof (Z.mod_pos_bound (sz + PGSIZE - 1) PGSIZE ltac:(done)).
  rewrite u64_small; unfold PGSIZE in *; lia.
Qed.

Lemma PGROUNDUP_id sz : 0 <= sz < 2 ^ 63 -> sz mod PGSIZE = 0 -> PGROUNDUP sz = sz.
Proof. intros H Hm. rewrite PGROUNDUP_eq by (unfold PGSIZE; lia). unfold PGSIZE in *. dlia. Qed.

Lemma PGROUNDUP_bounds sz :
  0 <= sz -> sz + PGSIZE - 1 < 2 ^ 64 ->
  PGROUNDUP sz mod PGSIZE = 0 /\ sz <= PGROUNDUP sz < sz + PGSIZE.
Proof.
  intros H0 H. rewrite PGROUNDUP_eq by done. split; [by rewrite Z.mod_mul|].
  pose proof (Z.div_mod (sz + PGSIZE - 1) PGSIZE ltac:(done)).
  pose proof (Z.mod_pos_bound (sz + PGSIZE - 1) PGSIZE ltac:(done)).
  unfold PGSIZE in *. lia.
Qed.

Lemma PX_eq level va : 0 <= level -> PX level va = (va / 2 ^ (12 + 9 * level)) mod 512.
Proof.
  intros. unfold PX, PXSHIFT, PGSHIFT, PXMASK.
  change 511 with (Z.ones 9). rewrite Z.land_ones, Z.shiftr_div_pow2 by lia. done.
Qed.

Lemma PX_range level va : 0 <= level -> 0 <= PX level va < 512.
Proof. intros. rewrite PX_eq by done. by apply Z.mod_pos_bound. Qed.

(** ** Lemmas: words in memory *)
Lemma load_bytes_ext n m m' a :
  (forall i, a <= i < a + Z.of_nat n -> rd m' i = rd m i) -> load_bytes n m' a = load_bytes n m a.
Proof.
  revert a. induction n as [|n IH]; intros a H; cbn [load_bytes]; [done|].
  rewrite H by lia. f_equal. apply IH. intros. apply H. lia.
Qed.

Lemma rd_store_bytes_out m a bs i :
  ~ (a <= i < a + Z.of_nat (length bs)) -> rd (store_bytes m a bs) i = rd m i.
Proof.
  revert m a. induction bs as [|b bs IH]; intros m a H; cbn [store_bytes length] in *; [done|].
  rewrite IH by lia. apply rd_wr_ne. lia.
Qed.

Lemma load_store_bytes m a bs : load_bytes (length bs) (store_bytes m a bs) a = bs.
Proof.
  revert m a. induction bs as [|b bs IH]; intros m a; cbn [store_bytes load_bytes length]; [done|].
  f_equal; [|apply IH]. rewrite rd_store_bytes_out by lia. apply rd_wr_eq.
Qed.

Lemma length_load_bytes n m a : length (load_bytes n m a) = n.
Proof. revert a. induction n as [|n IH]; intros a; cbn [load_bytes length]; [done|]. by rewrite IH. Qed.

Lemma load_bytes_total n m a (j : nat) : (j < n)%nat -> load_bytes n m a !!! j = rd m (a + Z.of_nat j).
Proof.
  revert a j. induction n as [|n IH]; intros a [|j] Hj; [lia|lia| |]; cbn [load_bytes].
  - by rewrite Z.add_0_r.
  - change (load_bytes n m (a + 1) !!! j = rd m (a + Z.of_nat (S j))). rewrite IH by lia. f_equal. lia.
Qed.

Lemma rd_store_bytes m a bs i :
  rd (store_bytes m a bs) i = if decide (a <= i < a + Z.of_nat (length bs)) then bs !!! Z.to_nat (i - a) else rd m i.
Proof.
  case_decide as H; [|by apply rd_store_bytes_out].
  pose proof (load_bytes_total (length bs) (store_bytes m a bs) a (Z.to_nat (i - a)) ltac:(lia)) as E.
  rewrite load_store_bytes in E. rewrite E. f_equal. lia.
Qed.

Lemma load_store64 m a v : 0 <= v < 2 ^ 64 -> load64 (store64 m a v) a = v.
Proof.
  intros H. unfold load64, store64.
  replace 8%nat with (length (le_enc 8 v)) at 1 by apply length_le_enc.
  rewrite load_store_bytes, le_dec_enc. by apply Z.mod_small.
Qed.

Lemma rd_store64_out m a v i : ~ (a <= i < a + 8) -> rd (store64 m a v) i = rd m i.
Proof. intros. apply rd_store_bytes_out. by rewrite length_le_enc. Qed.

Lemma load64_ext m m' a :
  (forall i, a <= i < a + 8 -> rd m' i = rd m i) -> load64 m' a = load64 m a.
Proof. intros. unfold load64. f_equal. by apply load_bytes_ext. Qed.

Lemma load64_only lo n m m' a :
  only_changes lo n m m' -> a + 8 <= lo \/ lo + n <= a -> load64 m' a = load64 m a.
Proof. intros H Ha. apply load64_ext. intros i Hi. apply H. lia. Qed.

Lemma store64_only m a v : only_changes a 8 m (store64 m a v).
Proof. intros i Hi. by apply rd_store64_out. Qed.

Lemma memset_only m d c n : 0 <= n -> only_changes d n m (memset m d c n).
Proof. intros Hn a Ha. by rewrite rd_memset, decide_False. Qed.

Lemma only_changes_trans lo n m1 m2 m3 :
  only_changes lo n m1 m2 -> only_changes lo n m2 m3 -> only_changes lo n m1 m3.
Proof. intros H1 H2 a Ha. by rewrite H2, H1. Qed.

Lemma only_changes_weaken lo n lo' n' m m' :
  only_changes lo n m m' -> lo' <= lo -> lo + n <= lo' + n' -> only_changes lo' n' m m'.
Proof. intros H ?? a Ha. apply H. lia. Qed.

(** [lia] with the layout constants unfolded. *)
Ltac alia := unfold TRAPFRAME, TRAMPOLINE, PHYSTOP, KERNBASE, PGSIZE in *; lia.
