(* ===== verification/Spinlock.v ===== *)
(** * Spin locks and sleep locks: kernel/spinlock.c, kernel/sleeplock.c

    [struct cpu]'s interrupt nesting ([push_off]/[pop_off]) and the lock word
    are separate pieces of state.  [acquire_word]/[release_word] are the part
    of [acquire]/[release] that works on [struct spinlock]; they are what the
    other components zoom into.  [acquire]/[release] add the interrupt
    nesting.  The multi-CPU section runs the instructions of
    [acquire]/[release] interleaved on any number of harts. *)
From S2P Require Import Prelude.
Local Open Scope Z_scope.

(** struct spinlock; [lk_cpu] is the hart recorded in [lk->cpu]. *)
Record spinlock := Spinlock { locked : Z; lk_name : string; lk_cpu : option Z }.

(** struct cpu's nesting fields and the hart's SSTATUS_SIE bit. *)
Record cpu := Cpu { noff : Z; intena : bool; sie : bool }.

(** The caller: [cpuid()] and [myproc()->pid]. *)
Record ctx := Ctx { c_hart : Z; c_pid : Z }.

Definition initlock (name : string) : spinlock := Spinlock 0 name None.

(** Is [hart] the cpu holding [lk]? *)
Definition holding (hart : Z) (lk : spinlock) : bool :=
  negb (locked lk =? 0) && bool_decide (lk_cpu lk = Some hart).

(** [holding] check, the test-and-set loop, and the recording of the cpu.
    A lock another hart holds keeps the loop spinning. *)
Definition acquire_word (hart : Z) : M spinlock unit :=
  let! lk := get in
  if holding hart lk then panic "acquire"
  else if negb (locked lk =? 0) then stall (Chan (lk_name lk) 0)
  else modify (fun lk => Spinlock 1 (lk_name lk) (Some hart)).

Definition release_word (hart : Z) : M spinlock unit :=
  let! lk := get in
  if negb (holding hart lk) then panic "release"
  else modify (fun lk => Spinlock (locked lk) (lk_name lk) None) ;;
       modify (fun lk => Spinlock 0 (lk_name lk) (lk_cpu lk)).

Arguments acquire_word : simpl never.
Arguments release_word : simpl never.

Definition intr_get (c : cpu) : bool := sie c.
Definition intr_off (c : cpu) : cpu := Cpu (noff c) (intena c) false.
Definition intr_on (c : cpu) : cpu := Cpu (noff c) (intena c) true.

Definition push_off : M cpu unit :=
  let! old := gets intr_get in
  modify intr_off ;;
  let! c := get in
  when (noff c =? 0) do modify (fun c => Cpu (noff c) old (sie c)) ;;
  modify (fun c => Cpu (noff c + 1) (intena c) (sie c)).

Definition pop_off : M cpu unit :=
  let! c := get in
  if intr_get c then panic "pop_off - interruptible"
  else if noff c <? 1 then panic "pop_off"
  else
    modify (fun c => Cpu (noff c - 1) (intena c) (sie c)) ;;
    let! c := get in
    when (noff c =? 0) && intena c do modify intr_on.

(** One hart's view: its struct cpu and a lock. *)
Definition on_cpu {A} (m : M cpu A) : M (cpu * spinlock) A :=
  zoom fst (fun c s => (c, snd s)) m.
Definition on_lock {A} (m : M spinlock A) : M (cpu * spinlock) A :=
  zoom snd (fun l s => (fst s, l)) m.

Definition acquire (hart : Z) : M (cpu * spinlock) unit :=
  on_cpu push_off ;; on_lock (acquire_word hart).

Definition release (hart : Z) : M (cpu * spinlock) unit :=
  on_lock (release_word hart) ;; on_cpu pop_off.

(** ** Sleep locks *)
Record sleeplock := Sleeplock { sl_locked : Z; sl_lk : spinlock; sl_name : string; sl_pid : Z }.

(** A sleep lock with the list of channels [wakeup] was called on. *)
Record sl_state := SlState { sl : sleeplock; woken : list chan }.

Definition initsleeplock (name : string) : sleeplock :=
  Sleeplock 0 (initlock "sleep lock") name 0.

Definition sl_spin {A} (m : M spinlock A) : M sl_state A :=
  zoom (fun s => sl_lk (sl s))
       (fun l s => SlState (Sleeplock (sl_locked (sl s)) l (sl_name (sl s)) (sl_pid (sl s))) (woken s)) m.

Definition wakeup_sl (c : chan) : M sl_state unit :=
  modify (fun s => SlState (sl s) (woken s ++ [c])).

(** [while (lk->locked) sleep(lk, &lk->lk)]: a held lock makes the caller
    release the inner spin lock and sleep on [c]; woken, it runs the loop
    again from the test. *)
Definition acquiresleep (x : ctx) (c : chan) : M sl_state unit :=
  sl_spin (acquire_word (c_hart x)) ;;
  let! s := get in
  if negb (sl_locked (sl s) =? 0)
  then sl_spin (release_word (c_hart x)) ;; stall c
  else
    modify (fun s => SlState (Sleeplock 1 (sl_lk (sl s)) (sl_name (sl s)) (sl_pid (sl s))) (woken s)) ;;
    modify (fun s => SlState (Sleeplock (sl_locked (sl s)) (sl_lk (sl s)) (sl_name (sl s)) (c_pid x)) (woken s)) ;;
    sl_spin (release_word (c_hart x)).

Definition releasesleep (x : ctx) (c : chan) : M sl_state unit :=
  sl_spin (acquire_word (c_hart x)) ;;
  modify (fun s => SlState (Sleeplock 0 (sl_lk (sl s)) (sl_name (sl s)) 0) (woken s)) ;;
  wakeup_sl c ;;
  sl_spin (release_word (c_hart x)).

Definition holdingsleep (x : ctx) : M sl_state bool :=
  sl_spin (acquire_word (c_hart x)) ;;
  let! r := gets (fun s => negb (sl_locked (sl s) =? 0) && (sl_pid (sl s) =? c_pid x)) in
  sl_spin (release_word (c_hart x)) ;;
  ret r.

(** ** Harts interleaved on one lock

    Where a hart is in [acquire]/[release]: outside; spinning on the swap;
    after the swap that returned 0; inside the critical section (after
    [lk->cpu = mycpu()]); in [release] after [lk->cpu = 0]. *)
Inductive lpc := Outside | Spinning | Swapped | Inside | Leaving.

#[export] Instance lpc_eq_dec : EqDecision lpc.
Proof. solve_decision. Defined.

Record hart_st := HartSt { h_pc : lpc; h_cpu : cpu }.
Record smp := Smp { smp_lock : spinlock; smp_hart : Z -> hart_st; smp_panic : bool }.

Definition upd {A} (f : Z -> A) (h : Z) (v : A) : Z -> A :=
  fun i => if decide (i = h) then v else f i.

Definition cpu_of (s : smp) (h : Z) : cpu := h_cpu (smp_hart s h).
Definition pc_of (s : smp) (h : Z) : lpc := h_pc (smp_hart s h).
Definition set_hart (s : smp) (h : Z) (pc : lpc) (c : cpu) : smp :=
  Smp (smp_lock s) (upd (smp_hart s) h (HartSt pc c)) (smp_panic s).
Definition set_lock (s : smp) (l : spinlock) : smp :=
  Smp l (smp_hart s) (smp_panic s).
Definition do_panic (s : smp) : smp := Smp (smp_lock s) (smp_hart s) true.

(** [snd (push_off c)] and [snd (pop_off c)] are the states those calls end in;
    a panicking [pop_off] raises the panic flag. *)
Inductive smp_step : smp -> smp -> Prop :=
| step_push s h :            (* push_off for some other reason *)
    smp_step s (set_hart s h (pc_of s h) (snd (push_off (cpu_of s h))))
| step_pop s h :             (* its matching pop_off *)
    (if decide (pc_of s h = Outside) then 0 else 1) < noff (cpu_of s h) ->
    smp_step s
      (match pop_off (cpu_of s h) with
       | (Ret _, c) => set_hart s h (pc_of s h) c
       | _ => do_panic s
       end)
| step_acquire s h :         (* push_off(); if(holding(lk)) panic("acquire") *)
    pc_of s h = Outside ->
    smp_step s
      (if holding h (smp_lock s) then do_panic s
       else set_hart s h Spinning (snd (push_off (cpu_of s h))))
| step_swap s h :            (* __sync_lock_test_and_set(&lk->locked, 1) *)
    pc_of s h = Spinning ->
    smp_step s
      (set_lock
         (if locked (smp_lock s) =? 0 then set_hart s h Swapped (cpu_of s h) else s)
         (Spinlock 1 (lk_name (smp_lock s)) (lk_cpu (smp_lock s))))
| step_record s h :          (* lk->cpu = mycpu() *)
    pc_of s h = Swapped ->
    smp_step s
      (set_lock (set_hart s h Inside (cpu_of s h))
         (Spinlock (locked (smp_lock s)) (lk_name (smp_lock s)) (Some h)))
| step_release s h :         (* if(!holding(lk)) panic("release"); lk->cpu = 0 *)
    pc_of s h = Inside ->
    smp_step s
      (if negb (holding h (smp_lock s)) then do_panic s
       else set_lock (set_hart s h Leaving (cpu_of s h))
              (Spinlock (locked (smp_lock s)) (lk_name (smp_lock s)) None))
| step_unlock s h :          (* __sync_lock_release(&lk->locked); pop_off() *)
    pc_of s h = Leaving ->
    smp_step s
      (match pop_off (cpu_of s h) with
       | (Ret _, c) =>
           set_lock (set_hart s h Outside c)
             (Spinlock 0 (lk_name (smp_lock s)) (lk_cpu (smp_lock s)))
       | _ => do_panic s
       end).

(** The states reachable from a free lock and harts with no nesting. *)
Definition smp_init (s : smp) : Prop :=
  locked (smp_lock s) = 0 /\ lk_cpu (smp_lock s) = None /\ smp_panic s = false /\
  forall h, pc_of s h = Outside /\ noff (cpu_of s h) = 0.

Inductive smp_reach : smp -> Prop :=
| reach_init s : smp_init s -> smp_reach s
| reach_step s t : smp_reach s -> smp_step s t -> smp_reach t.

(** A hart owns the lock from the successful swap to the unlocking store. *)
Definition owns (p : lpc) : bool :=
  match p with Swapped | Inside | Leaving => true | _ => false end.

(** ** Lemmas: interrupt nesting *)
Definition cpu_ok (c : cpu) : Prop := 0 <= noff c /\ (0 < noff c -> sie c = false).

Lemma push_off_eq c :
  push_off c = (Ret tt, Cpu (noff c + 1) (if noff c =? 0 then sie c else intena c) false).
Proof.
  unfold push_off, bind, gets, get, modify, intr_off, intr_get, ret; cbn.
  destruct (noff c =? 0); reflexivity.
Qed.

Lemma pop_off_eq c :
  sie c = false -> 0 < noff c ->
  pop_off c = (Ret tt, Cpu (noff c - 1) (intena c) ((noff c =? 1) && intena c)).
Proof.
  intros Hs Hn. unfold pop_off, bind, get, modify, intr_get, intr_on, ret; cbn.
  rewrite Hs, (proj2 (Z.ltb_ge _ _)) by lia. cbn.
  destruct (Z.eqb_spec (noff c - 1) 0), (Z.eqb_spec (noff c) 1); try lia; cbn; [|by rewrite Hs].
  by destruct (intena c); cbn; rewrite ?Hs.
Qed.

Lemma push_off_ok c : cpu_ok c -> cpu_ok (snd (push_off c)).
Proof. intros [? ?]. rewrite push_off_eq. split; cbn; [lia|done]. Qed.

Lemma pop_off_ok c : cpu_ok c -> 0 < noff c -> cpu_ok (snd (pop_off c)).
Proof.
  intros [? ?] ?. rewrite pop_off_eq by auto. split; cbn; [lia|].
  intros. by rewrite (proj2 (Z.eqb_neq _ _)) by lia.
Qed.

(** ** Lemmas: lock word *)
Definition lk_free (l : spinlock) : Prop := locked l = 0 /\ lk_cpu l = None.

Lemma lk_free_eq l : lk_free l -> l = Spinlock 0 (lk_name l) None.
Proof. destruct l; intros [??]; cbn in *; congruence. Qed.

Lemma acquire_word_free hart l :
  lk_free l -> acquire_word hart l = (Ret tt, Spinlock 1 (lk_name l) (Some hart)).
Proof.
  intros [Hl Hc]. unfold acquire_word, bind, get, holding, modify.
  by rewrite Hl, Hc.
Qed.

Lemma release_word_held hart name :
  release_word hart (Spinlock 1 name (Some hart)) = (Ret tt, Spinlock 0 name None).
Proof.
  unfold release_word, bind, get, holding, modify; cbn.
  by rewrite bool_decide_eq_true_2.
Qed.

(** Sleep-lock operations on a lock whose inner spin lock is free. *)
Definition sl_ok (s : sleeplock) : Prop := lk_free (sl_lk s).

Lemma acquiresleep_free x c s :
  sl_ok (sl s) -> sl_locked (sl s) = 0 ->
  acquiresleep x c s =
    (Ret tt, SlState (Sleeplock 1 (sl_lk (sl s)) (sl_name (sl s)) (c_pid x)) (woken s)).
Proof.
  intros Hok Hl. unfold acquiresleep, sl_spin, bind, zoom, get, modify; cbn.
  rewrite acquire_word_free by done. cbn. rewrite Hl. cbn.
  rewrite release_word_held. by rewrite <- (lk_free_eq _ Hok).
Qed.

Lemma acquiresleep_busy x c s :
  sl_ok (sl s) -> sl_locked (sl s) <> 0 -> acquiresleep x c s = (Block c, s).
Proof.
  intros Hok Hl. destruct s as [[lkd lk nm pd] w]. unfold sl_ok in Hok. cbn in *.
  unfold acquiresleep, sl_spin, bind, zoom, get, modify; cbn.
  rewrite acquire_word_free by done. cbn. rewrite (proj2 (Z.eqb_neq _ _)) by done. cbn.
  rewrite release_word_held. cbn. by rewrite <- (lk_free_eq _ Hok).
Qed.

Lemma releasesleep_eq x c s :
  sl_ok (sl s) ->
  releasesleep x c s =
    (Ret tt, SlState (Sleeplock 0 (sl_lk (sl s)) (sl_name (sl s)) 0) (woken s ++ [c])).
Proof.
  intros Hok. unfold releasesleep, wakeup_sl, sl_spin, bind, zoom, get, modify; cbn.
  rewrite acquire_word_free by done. cbn. rewrite release_word_held. cbn.
  by rewrite <- (lk_free_eq _ Hok).
Qed.

Lemma holdingsleep_eq x s :
  sl_ok (sl s) ->
  holdingsleep x s = (Ret (negb (sl_locked (sl s) =? 0) && (sl_pid (sl s) =? c_pid x)), s).
Proof.
  intros Hok. destruct s as [[lkd lk nm pd] w]. unfold sl_ok in Hok. cbn in *.
  unfold holdingsleep, sl_spin, bind, zoom, gets, ret; cbn.
  rewrite acquire_word_free by done. cbn. rewrite release_word_held. cbn.
  by rewrite <- (lk_free_eq _ Hok).
Qed.

(** ** Lemmas: the interleaved harts *)
Record smp_inv (s : smp) : Prop := {
  si_excl : forall h k, owns (pc_of s h) = true -> owns (pc_of s k) = true -> h = k;
  si_bit : locked (smp_lock s) = 0 \/ locked (smp_lock s) = 1;
  si_free : (forall h, owns (pc_of s h) = false) -> lk_free (smp_lock s);
  si_word : forall h, owns (pc_of s h) = true -> locked (smp_lock s) = 1;
  si_cpu : forall h, lk_cpu (smp_lock s) = Some h <-> pc_of s h = Inside;
  si_panic : smp_panic s = false;
  si_noff : forall h, cpu_ok (cpu_of s h) /\ (pc_of s h <> Outside -> 0 < noff (cpu_of s h));
}.

Lemma holding_inside s h : smp_inv s -> holding h (smp_lock s) = bool_decide (pc_of s h = Inside).
Proof.
  intros I. unfold holding. apply eq_true_iff_eq. split.
  - intros [_ H]%andb_true_iff. apply bool_decide_eq_true in H.
    apply bool_decide_eq_true_2. by apply (si_cpu s I).
  - intros H. apply bool_decide_eq_true in H. apply andb_true_iff. split.
    + by rewrite (si_word s I h) by (by rewrite H).
    + apply bool_decide_eq_true_2. by apply (si_cpu s I).
Qed.

Lemma upd_eq {A} (f : Z -> A) h v : upd f h v h = v.
Proof. unfold upd. by case_decide. Qed.
Lemma upd_ne {A} (f : Z -> A) h v i : i <> h -> upd f h v i = f i.
Proof. intros. unfold upd. by case_decide. Qed.

Lemma smp_inv_init s : smp_init s -> smp_inv s.
Proof.
  intros (Hl & Hc & Hp & Hh). split; try done.
  - intros h k H. by rewrite (proj1 (Hh h)) in H.
  - by left.
  - intros h H. by rewrite (proj1 (Hh h)) in H.
  - intros h. rewrite Hc, (proj1 (Hh h)). done.
  - intros h. unfold cpu_ok. rewrite (proj2 (Hh h)), (proj1 (Hh h)). split_and!; [lia|lia|done].
Qed.

(** Reading the hart table after an update of one hart. *)
Lemma pc_set_hart s h pc c k :
  pc_of (set_hart s h pc c) k = if decide (k = h) then pc else pc_of s k.
Proof. unfold pc_of, set_hart, upd; cbn. by case_decide. Qed.
Lemma cpu_set_hart s h pc c k :
  cpu_of (set_hart s h pc c) k = if decide (k = h) then c else cpu_of s k.
Proof. unfold cpu_of, set_hart, upd; cbn. by case_decide. Qed.

(** A hart whose ownership does not change may move and renest. *)
Lemma smp_inv_move s h pc c :
  smp_inv s -> owns pc = owns (pc_of s h) -> (pc = Inside <-> pc_of s h = Inside) ->
  cpu_ok c -> (pc <> Outside -> 0 < noff c) -> smp_inv (set_hart s h pc c).
Proof.
  intros I Ho Hin Hc Hn.
  assert (Hown : forall k, owns (pc_of (set_hart s h pc c) k) = owns (pc_of s k)).
  { intros k. rewrite pc_set_hart. by case_decide; subst. }
  split.
  - intros k l. rewrite !Hown. apply (si_excl s I).
  - apply (si_bit s I).
  - intros H. apply (si_free s I). intros k. rewrite <- Hown. apply H.
  - intros k. rewrite Hown. apply (si_word s I).
  - intros k. rewrite pc_set_hart. cbn. rewrite (si_cpu s I k).
    case_decide; [subst; tauto|done].
  - apply (si_panic s I).
  - intros k. rewrite pc_set_hart, cpu_set_hart.
    case_decide; [by split|apply (si_noff s I)].
Qed.

(** Taking the free lock, recording the holder, starting and finishing
    [release]: hart [h] is the only owner before or after. *)
Lemma smp_inv_own s h pc c l :
  smp_inv s -> (forall k, k <> h -> owns (pc_of s k) = false) ->
  (if owns pc then locked l = 1 else lk_free l) ->
  (lk_cpu l = if decide (pc = Inside) then Some h else None) ->
  cpu_ok c -> (pc <> Outside -> 0 < noff c) ->
  smp_inv (set_lock (set_hart s h pc c) l).
Proof.
  intros I Hoth Hl Hc Hok Hn.
  assert (Hpc : forall k, pc_of (set_lock (set_hart s h pc c) l) k =
                          if decide (k = h) then pc else pc_of s k).
  { intros k. apply pc_set_hart. }
  assert (Hown : forall k, owns (pc_of (set_lock (set_hart s h pc c) l) k) = true ->
                           k = h /\ owns pc = true).
  { intros k. rewrite Hpc. destruct (decide (k = h)); [done|]. by rewrite Hoth. }
  split.
  - intros k1 k2 [-> _]%Hown [-> _]%Hown. done.
  - cbn. destruct (owns pc); [by right|left; apply Hl].
  - intros H. specialize (H h). rewrite Hpc, decide_True in H by done. by rewrite H in Hl.
  - intros k [_ H]%Hown. by rewrite H in Hl.
  - intros k. rewrite Hpc. cbn. rewrite Hc.
    destruct (decide (k = h)) as [->|]; [by case_decide|].
    split; [case_decide; intros; by simplify_eq|].
    intros E. pose proof (Hoth k ltac:(done)) as F. by rewrite E in F.
  - apply (si_panic s I).
  - intros k. rewrite Hpc.
    change (cpu_of (set_lock (set_hart s h pc c) l) k) with (cpu_of (set_hart s h pc c) k).
    rewrite cpu_set_hart. destruct (decide (k = h)); [by split|apply (si_noff s I)].
Qed.

Lemma smp_others_out s h :
  smp_inv s -> owns (pc_of s h) = true -> forall k, k <> h -> owns (pc_of s k) = false.
Proof.
  intros I Hh k Hk. destruct (owns (pc_of s k)) eqn:E; [|done].
  by destruct Hk; apply (si_excl s I).
Qed.

Lemma smp_lock_taken s : smp_inv s -> locked (smp_lock s) = 0 -> forall k, owns (pc_of s k) = false.
Proof.
  intros I H0 k. destruct (owns (pc_of s k)) eqn:E; [|done].
  rewrite (si_word s I k E) in H0. lia.
Qed.

Lemma push_off_noff c : cpu_ok c -> 0 < noff (snd (push_off c)).
Proof. intros [? ?]. rewrite push_off_eq. cbn. lia. Qed.

Lemma smp_inv_step s t : smp_inv s -> smp_step s t -> smp_inv t.
Proof.
  intros I H. destruct H as [s h|s h Hn|s h Hp|s h Hp|s h Hp|s h Hp|s h Hp];
    destruct (si_noff s I h) as [Hok Hpos].
  - apply smp_inv_move; auto using push_off_ok. intros _. by apply push_off_noff.
  - assert (0 < noff (cpu_of s h)) by (case_decide; lia).
    pose proof (pop_off_ok _ Hok ltac:(done)) as Hpop.
    rewrite pop_off_eq in Hpop |- * by (done || by apply Hok).
    apply smp_inv_move; auto. intros Hne. rewrite decide_False in Hn by done. cbn. lia.
  - rewrite (holding_inside s h I), bool_decide_eq_false_2 by (by rewrite Hp).
    apply smp_inv_move; rewrite ?Hp; [done|done|done|by apply push_off_ok|].
    intros _. by apply push_off_noff.
  - destruct (Z.eqb_spec (locked (smp_lock s)) 0) as [E|E].
    + pose proof (smp_lock_taken s I E) as Hnone.
      apply smp_inv_own; [done|auto|done| |done|intros _; apply Hpos; by rewrite Hp].
      by apply (si_free s I).
    + assert (Hw : locked (smp_lock s) = 1).
      { by destruct (si_bit s I). }
      rewrite <- Hw at 1. by destruct s as [[] ? ?].
  - apply smp_inv_own; [done| | |done|done|].
    + apply smp_others_out; [done|by rewrite Hp].
    + apply (si_word s I h). by rewrite Hp.
    + intros _. apply Hpos. by rewrite Hp.
  - rewrite (holding_inside s h I), bool_decide_eq_true_2 by done. cbn [negb].
    apply smp_inv_own; [done| | |done|done|].
    + apply smp_others_out; [done|by rewrite Hp].
    + apply (si_word s I h). by rewrite Hp.
    + intros _. apply Hpos. by rewrite Hp.
  - assert (0 < noff (cpu_of s h)) by (apply Hpos; by rewrite Hp).
    pose proof (pop_off_ok _ Hok ltac:(done)) as Hpop.
    rewrite pop_off_eq in Hpop |- * by (done || by apply Hok).
    assert (Hno : lk_cpu (smp_lock s) = None).
    { destruct (lk_cpu (smp_lock s)) as [k|] eqn:E; [|done].
      apply (si_cpu s I) in E. assert (k = h) as ->; [|by rewrite Hp in E].
      apply (si_excl s I); by rewrite ?E, ?Hp. }
    apply smp_inv_own; [done| |by split|done|done|done].
    apply smp_others_out; [done|by rewrite Hp].
Qed.

Lemma smp_reach_inv s : smp_reach s -> smp_inv s.
Proof. induction 1; eauto using smp_inv_init, smp_inv_step. Qed.

(** [n] calls in a row on the same cpu. *)
Fixpoint repeat_m {S} (n : nat) (m : M S unit) : M S unit :=
  match n with
  | O => ret tt
  | S n' => m ;; repeat_m n' m
  end.

Lemma repeat_push_off n c :
  (0 < n)%nat -> 0 <= noff c ->
  repeat_m n push_off c =
    (Ret tt, Cpu (noff c + Z.of_nat n) (if noff c =? 0 then sie c else intena c) false).
Proof.
  revert c. induction n as [|n IH]; intros c Hn Hc; [lia|].
  cbn [repeat_m]. unfold bind. rewrite push_off_eq.
  destruct n as [|n]; [done|].
  rewrite IH by (cbn; lia). cbn. rewrite (proj2 (Z.eqb_neq (noff c + 1) 0)) by lia.
  do 2 f_equal. lia.
Qed.

Lemma repeat_pop_off n c :
  (0 < n)%nat -> sie c = false -> Z.of_nat n <= noff c ->
  repeat_m n pop_off c =
    (Ret tt, Cpu (noff c - Z.of_nat n) (intena c) ((noff c =? Z.of_nat n) && intena c)).
Proof.
  revert c. induction n as [|n IH]; intros c Hn Hs Hc; [lia|].
  cbn [repeat_m]. unfold bind. rewrite pop_off_eq by (done || lia).
  destruct n as [|n]; [done|].
  rewrite IH; cbn [sie noff intena]; [|lia| |lia].
  - do 2 f_equal; [lia|]. by destruct (Z.eqb_spec (noff c - 1) (Z.of_nat (S n))),
      (Z.eqb_spec (noff c) (Z.of_nat (S (S n)))); try lia.
  - by rewrite (proj2 (Z.eqb_neq _ _)) by lia.
Qed.

(** ** Properties *)

(** C40. Spin locks exclude: in every interleaving of [acquire]/[release] by any
    number of harts, at most one hart is between the winning test-and-set and
    the unlocking store, [holding] is true exactly of the hart inside, that
    hart runs with interrupts off, and neither the "acquire"/"release" nor the
    [pop_off] panics fire. *)
Theorem spinlock_mutual_exclusion s :
  smp_reach s ->
  (forall h k, owns (pc_of s h) = true -> owns (pc_of s k) = true -> h = k) /\
  (forall h, holding h (smp_lock s) = true <-> pc_of s h = Inside) /\
  (forall h, pc_of s h = Inside -> sie (cpu_of s h) = false) /\
  smp_panic s = false.
Proof.
  intros R. pose proof (smp_reach_inv s R) as I. split_and!.
  - apply (si_excl s I).
  - intros h. rewrite (holding_inside s h I). apply bool_decide_eq_true.
  - intros h Hp. destruct (si_noff s I h) as [[_ Hs] Hn]. apply Hs, Hn. by rewrite Hp.
  - apply (si_panic s I).
Qed.

Definition smp_two : smp :=
  Smp (initlock "kmem") (fun _ => HartSt Outside (Cpu 0 false true)) false.

Lemma spinlock_mutual_exclusion_witness :
  smp_panic (set_hart smp_two 1 Spinning (snd (push_off (cpu_of smp_two 1)))) = false.
Proof.
  apply (spinlock_mutual_exclusion (set_hart smp_two 1 Spinning (snd (push_off (cpu_of smp_two 1))))).
  apply (reach_step smp_two); [apply reach_init; unfold smp_init; repeat split; done|].
  exact (step_acquire smp_two 1 eq_refl).
Defined.

(** [push_off]/[pop_off] are matched: after [n] of the one and [n] of the
    other the nesting depth and the interrupt-enable bit are what they were,
    whatever the initial depth, and no panic occurs; in between interrupts
    are off. *)
Theorem push_pop_balanced n c :
  cpu_ok c -> (0 < n)%nat ->
  (exists c1, repeat_m n push_off c = (Ret tt, c1) /\ sie c1 = false) /\
  (exists c2, (repeat_m n push_off ;; repeat_m n pop_off) c = (Ret tt, c2) /\
              noff c2 = noff c /\ sie c2 = sie c).
Proof.
  intros [Hn Hs] Hpos. pose proof (repeat_push_off n c Hpos Hn) as Hpush. split.
  - eexists. by split.
  - unfold bind. rewrite Hpush. rewrite repeat_pop_off by (cbn; lia || done).
    eexists. split; [done|]. cbn. split; [lia|].
    destruct (Z.eqb_spec (noff c) 0) as [E|E].
    + rewrite E, Z.add_0_l, Z.eqb_refl. done.
    + rewrite (proj2 (Z.eqb_neq _ _)) by lia. symmetry. apply Hs. lia.
Qed.

Lemma push_pop_balanced_witness :
  exists c2, (repeat_m 2 push_off ;; repeat_m 2 pop_off) (Cpu 0 false true) = (Ret tt, c2) /\
              noff c2 = 0 /\ sie c2 = true.
Proof. apply (push_pop_balanced 2 (Cpu 0 false true)); [split; cbn; lia|lia]. Defined.

(** Sleep locks: on a free lock [acquiresleep] takes it for the calling
    process, so [holdingsleep] answers true for that process and false for
    every other, a second [acquiresleep] sleeps on the lock's channel without
    changing it, and [releasesleep] frees it and wakes that channel. *)
Theorem sleeplock_protocol x c s :
  sl_ok (sl s) -> sl_locked (sl s) = 0 ->
  exists s1, acquiresleep x c s = (Ret tt, s1) /\
    (forall y, holdingsleep y s1 = (Ret (c_pid x =? c_pid y), s1)) /\
    (forall y, acquiresleep y c s1 = (Block c, s1)) /\
    exists s2, releasesleep x c s1 = (Ret tt, s2) /\
      sl_locked (sl s2) = 0 /\ sl_ok (sl s2) /\ c ∈ woken s2 /\
      forall y, exists s3, acquiresleep y c s2 = (Ret tt, s3) /\ sl_pid (sl s3) = c_pid y.
Proof.
  intros Hok H0. rewrite acquiresleep_free by done. eexists. split; [done|].
  split_and!; [intros y; by rewrite holdingsleep_eq| intros y; by rewrite acquiresleep_busy|].
  rewrite releasesleep_eq by done. eexists. split; [done|].
  split_and!; [done|done|set_solver|].
  intros y. rewrite acquiresleep_free by done. eexists. by split.
Qed.

Lemma sleeplock_protocol_witness :
  exists s1, acquiresleep (Ctx 0 7) (Chan "buf" 3) (SlState (initsleeplock "buffer") []) = (Ret tt, s1) /\
    (forall y, holdingsleep y s1 = (Ret (7 =? c_pid y), s1)).
Proof.
  destruct (sleeplock_protocol (Ctx 0 7) (Chan "buf" 3) (SlState (initsleeplock "buffer") []))
    as (s1 & H1 & H2 & _); [split; reflexivity|reflexivity|].
  exists s1. split; assumption.
Defined.
