(* ===== verification/Kalloc.v ===== *)
(** * Physical page allocator: kernel/kalloc.c

    The free list is threaded through the free pages themselves: the first
    eight bytes of a free page hold the address of the next one.  The
    allocator is proved to implement an abstract stack of free pages
    ([PageAlloc]), which is the interface the virtual-memory code is verified
    against. *)
From S2P Require Import Prelude CString Riscv Spinlock.
Local Open Scope Z_scope.

(** [kmem], and physical memory. *)
Record kst := Kst { k_mem : mem; k_lock : spinlock; k_freelist : Z }.

Definition set_mem (m : mem) (s : kst) : kst := Kst m (k_lock s) (k_freelist s).
Definition set_freelist (r : Z) (s : kst) : kst := Kst (k_mem s) (k_lock s) r.
Definition k_spin {A} (m : M spinlock A) : M kst A :=
  zoom k_lock (fun l s => Kst (k_mem s) l (k_freelist s)) m.

Section kalloc.
(** [end], the first address after the kernel (kernel.ld). *)
Context (kend : Z) (x : ctx).

Definition kfree (pa : Z) : M kst unit :=
  if negb (pa mod PGSIZE =? 0) || (pa <? kend) || (PHYSTOP <=? pa)
  then panic "kfree"
  else
    modify (fun s => set_mem (memset (k_mem s) pa 1 PGSIZE) s) ;;
    k_spin (acquire_word (c_hart x)) ;;
    modify (fun s => set_mem (store64 (k_mem s) pa (k_freelist s)) s) ;;
    modify (set_freelist pa) ;;
    k_spin (release_word (c_hart x)).

Definition kalloc : M kst Z :=
  k_spin (acquire_word (c_hart x)) ;;
  let! r := gets k_freelist in
  (if negb (r =? 0)
   then modify (fun s => set_freelist (load64 (k_mem s) r) s)
   else ret tt) ;;
  k_spin (release_word (c_hart x)) ;;
  (if negb (r =? 0)
   then modify (fun s => set_mem (memset (k_mem s) r 5 PGSIZE) s)
   else ret tt) ;;
  ret r.

(** [for(; p + PGSIZE <= pa_end; p += PGSIZE) kfree(p)] *)
Definition freerange (pa_start pa_end : Z) : M kst unit :=
  let p := PGROUNDUP pa_start in
  forn (A := unit) (Z.to_nat ((pa_end - p) / PGSIZE)) p PGSIZE
    (fun p => kfree p ;; ret None) ;;
  ret tt.

Definition kinit : M kst unit :=
  modify (fun s => Kst (k_mem s) (initlock "kmem") (k_freelist s)) ;;
  freerange kend PHYSTOP.

(** The list of addresses reached from [r] through the pages' first words. *)
Fixpoint chain (m : mem) (r : Z) (l : list Z) : Prop :=
  match l with
  | [] => r = 0
  | p :: l' => r = p /\ chain m (load64 m p) l'
  end.

Definition page_ok (p : Z) : Prop := p mod PGSIZE = 0 /\ kend <= p /\ p + PGSIZE <= PHYSTOP.

Record kinv (s : kst) (fl : list Z) : Prop := {
  ki_chain : chain (k_mem s) (k_freelist s) fl;
  ki_nodup : NoDup fl;
  ki_pages : Forall page_ok fl;
  ki_lock : lk_free (k_lock s);
}.
End kalloc.

(** ** The interface *)

(** A page allocator over physical memory: [pa_free s fl] says that [fl] are
    the pages it may hand out.  A client may write anywhere outside them. *)
Class PageAlloc (S : Type) : Type := {
  pa_alloc : M S Z;
  pa_release : Z -> M S unit;
  pa_mem : S -> mem;
  pa_set_mem : mem -> S -> S;
  pa_page : Z -> Prop;
  pa_free : S -> list Z -> Prop;
}.

Class PageAllocLaws (S : Type) {P : PageAlloc S} : Prop := {
  pa_mem_set : forall m s, pa_mem (pa_set_mem m s) = m;
  pa_page_bounds : forall p, pa_page p -> 0 < p /\ p mod PGSIZE = 0 /\ p + PGSIZE < 2 ^ 56;
  pa_free_pages : forall s fl, pa_free s fl -> NoDup fl /\ Forall pa_page fl;
  pa_alloc_none : forall s, pa_free s [] -> runs pa_alloc s (fun r s' => r = 0 /\ pa_free s' [] /\ pa_mem s' = pa_mem s);
  pa_alloc_some : forall s p fl, pa_free s (p :: fl) ->
    runs pa_alloc s (fun r s' => r = p /\ pa_free s' fl /\ only_changes p PGSIZE (pa_mem s) (pa_mem s'));
  pa_release_ok : forall s p fl, pa_free s fl -> pa_page p -> p ∉ fl ->
    runs (pa_release p) s (fun _ s' => pa_free s' (p :: fl) /\ only_changes p PGSIZE (pa_mem s) (pa_mem s'));
  pa_write_frame : forall s fl m', pa_free s fl ->
    (forall p a, p ∈ fl -> p <= a < p + PGSIZE -> rd m' a = rd (pa_mem s) a) ->
    pa_free (pa_set_mem m' s) fl;
}.

(** ** Lemmas: the chain *)
Section lemmas.
Context (kend : Z) (x : ctx).
Hypothesis Hkend : KERNBASE <= kend <= PHYSTOP.

Abbreviation page_ok := (page_ok kend).
Abbreviation kinv := (kinv kend).

Lemma page_pos p : page_ok p -> 0 < p /\ p + PGSIZE < 2 ^ 56.
Proof. intros (? & ? & ?). alia. Qed.

Lemma page_sep p q : page_ok p -> page_ok q -> p <> q -> p + PGSIZE <= q \/ q + PGSIZE <= p.
Proof.
  intros (Hp & _) (Hq & _) Hne.
  apply Z.mod_divide in Hp as [i ->]; [|done]. apply Z.mod_divide in Hq as [j ->]; [|done].
  alia.
Qed.

Lemma chain_ext m m' r l :
  (forall p, p ∈ l -> load64 m' p = load64 m p) -> chain m r l -> chain m' r l.
Proof.
  revert r. induction l as [|p l IH]; intros r H; [done|]. cbn.
  intros [-> Hc]. split; [done|]. rewrite H by (by left). apply IH; [|done]. intros q Hq. apply H. by right.
Qed.

Lemma chain_page_write m m' p r l :
  page_ok p -> Forall page_ok l -> p ∉ l -> only_changes p PGSIZE m m' ->
  chain m r l -> chain m' r l.
Proof.
  intros Hp Hl Hni Ho. apply chain_ext. intros q Hq.
  rewrite list.Forall_forall in Hl. specialize (Hl q Hq).
  eapply load64_only; [exact Ho|].
  destruct (page_sep p q Hp Hl ltac:(set_solver)); alia.
Qed.

Lemma kalloc_empty s :
  kinv s [] -> kalloc x s = (Ret 0, s).
Proof.
  intros [Hc _ _ Hl]. destruct s as [m l f]. cbn in *. subst f.
  unfold kalloc, k_spin, bind, zoom, gets, ret; cbn.
  rewrite acquire_word_free by done. cbn. rewrite release_word_held. cbn.
  by rewrite <- (lk_free_eq _ Hl).
Qed.

Lemma kalloc_cons s p fl :
  kinv s (p :: fl) ->
  kalloc x s = (Ret p, Kst (memset (k_mem s) p 5 PGSIZE) (k_lock s) (load64 (k_mem s) p)).
Proof.
  intros [Hc _ Hp Hl]. destruct s as [m l f]. cbn in *. destruct Hc as [-> _].
  apply Forall_cons_1 in Hp as [Hp _]. apply page_pos in Hp.
  unfold kalloc, k_spin, bind, zoom, gets, ret, modify; cbn.
  rewrite acquire_word_free by done. cbn.
  rewrite (proj2 (Z.eqb_neq p 0)) by lia. cbn. rewrite release_word_held. cbn.
  by rewrite <- (lk_free_eq _ Hl).
Qed.

Lemma kfree_eq s p :
  page_ok p -> lk_free (k_lock s) ->
  kfree kend x p s =
    (Ret tt, Kst (store64 (memset (k_mem s) p 1 PGSIZE) p (k_freelist s)) (k_lock s) p).
Proof.
  intros (Hm & Hlo & Hhi) Hl. destruct s as [m l f]. cbn in *. unfold kfree.
  rewrite (proj2 (Z.eqb_eq _ _)) by done.
  rewrite (proj2 (Z.ltb_ge _ _)) by done.
  rewrite (proj2 (Z.leb_gt _ _)) by (alia). cbn [negb orb].
  unfold k_spin, bind, zoom, modify; cbn.
  rewrite acquire_word_free by done. cbn. rewrite release_word_held. cbn.
  by rewrite <- (lk_free_eq _ Hl).
Qed.

Lemma kalloc_inv s p fl :
  kinv s (p :: fl) -> kinv (Kst (memset (k_mem s) p 5 PGSIZE) (k_lock s) (load64 (k_mem s) p)) fl.
Proof.
  intros [[_ Hc] Hnd Hp Hl]. apply NoDup_cons in Hnd as [Hni Hnd].
  apply Forall_cons_1 in Hp as [Hp Hps]. split; cbn; try done.
  eapply chain_page_write; eauto. by apply memset_only.
Qed.

Lemma chain_head_range m r l : Forall page_ok l -> chain m r l -> 0 <= r < 2 ^ 64.
Proof.
  destruct l as [|p l]; cbn; [intros _ ->; lia|].
  intros [Hp _]%Forall_cons_1 [-> _]. apply page_pos in Hp. alia.
Qed.

Lemma kfree_inv s p fl :
  kinv s fl -> page_ok p -> p ∉ fl ->
  kinv (Kst (store64 (memset (k_mem s) p 1 PGSIZE) p (k_freelist s)) (k_lock s) p) (p :: fl) /\
  only_changes p PGSIZE (k_mem s) (store64 (memset (k_mem s) p 1 PGSIZE) p (k_freelist s)).
Proof.
  intros [Hc Hnd Hps Hl] Hp Hni.
  assert (Ho : only_changes p PGSIZE (k_mem s) (store64 (memset (k_mem s) p 1 PGSIZE) p (k_freelist s))).
  { eapply only_changes_trans; [by apply memset_only|].
    eapply only_changes_weaken; [apply store64_only|lia|unfold PGSIZE; lia]. }
  split; [|done]. split; cbn [k_mem k_freelist k_lock]; [|by constructor|by constructor|done].
  cbn. split; [done|]. rewrite load_store64 by (by eapply chain_head_range).
  eapply chain_page_write; eauto.
Qed.

(** The first [n] pages from [p] on, last one first. *)
Fixpoint pages_down (n : nat) (p : Z) : list Z :=
  match n with
  | O => []
  | S n' => (p + PGSIZE * Z.of_nat n') :: pages_down n' p
  end.

Lemma pages_down_lt n p q : q ∈ pages_down n p <-> exists i, (i < n)%nat /\ q = p + PGSIZE * Z.of_nat i.
Proof.
  induction n as [|n IH]; cbn [pages_down].
  - split; [by intros ?%elem_of_nil|]. intros (i & ? & _). lia.
  - rewrite elem_of_cons, IH. split.
    + intros [->|(i & ? & ->)]; [exists n|exists i]; (split; [lia|done]).
    + intros (i & Hi & ->). destruct (decide (i = n)) as [->|]; [by left|right].
      exists i. split; [lia|done].
Qed.

Lemma freerange_run n p s :
  p mod PGSIZE = 0 -> kend <= p -> p + PGSIZE * Z.of_nat n <= PHYSTOP ->
  kinv s [] ->
  runs (forn (A := unit) n p PGSIZE (fun p => kfree kend x p ;; ret None)) s
    (fun _ s' => kinv s' (pages_down n p)).
Proof.
  intros Hal Hlo Hhi I.
  apply (runs_forn n p PGSIZE _ (fun k t => kinv t (pages_down k p))); [done| |done].
  intros k t Hk It.
  assert (Hp : page_ok (p + PGSIZE * Z.of_nat k)).
  { split_and!; [|alia|alia]. rewrite Z.mul_comm, Z.mod_add by done. done. }
  apply runs_bind. eapply runs_eq; [apply kfree_eq; [done|apply It]|]. apply runs_ret.
  eapply kfree_inv; [exact It|done|].
  intros (i & Hi & Heq)%pages_down_lt. alia.
Qed.
End lemmas.

(** kalloc.c implements the interface. *)
Section instance.
Context (kend : Z) (x : ctx).

#[local] Instance kalloc_PageAlloc : PageAlloc kst := {
  pa_alloc := kalloc x;
  pa_release := kfree kend x;
  pa_mem := k_mem;
  pa_set_mem := set_mem;
  pa_page := page_ok kend;
  pa_free := kinv kend;
}.

Lemma kalloc_PageAllocLaws :
  KERNBASE <= kend <= PHYSTOP -> @PageAllocLaws kst kalloc_PageAlloc.
Proof.
  intros Hk. split; cbn.
  - done.
  - intros p Hp. destruct (page_pos kend Hk p Hp). destruct Hp as (? & _). done.
  - intros s fl [_ ? ? _]. done.
  - intros s I. eapply runs_eq; [by apply (kalloc_empty kend x)|done].
  - intros s p fl I. eapply runs_eq; [by apply (kalloc_cons kend x Hk _ _ fl)|]. cbn.
    split_and!; [done|by apply (kalloc_inv kend Hk)|by apply memset_only].
  - intros s p fl I Hp Hni. eapply runs_eq; [apply (kfree_eq kend x _ _ Hp), I|].
    by apply (kfree_inv kend Hk).
  - intros s fl m' [Hc ? Hp ?] Hm. split; cbn; try done.
    eapply chain_ext; [|exact Hc]. intros p Hin. apply load64_ext.
    intros i Hi. apply (Hm p); [done|unfold PGSIZE; lia].
Qed.
End instance.

(** ** Properties *)

(** C39. The allocator implements an abstract stack of free pages: [kalloc]
    pops (0 exactly when the stack is empty), [kfree] pushes; the list stays
    duplicate-free, page-aligned and inside physical memory; and neither
    touches a byte outside the page it moves. *)
Theorem kalloc_refines_stack kend x :
  KERNBASE <= kend <= PHYSTOP ->
  (forall s, kinv kend s [] -> kalloc x s = (Ret 0, s)) /\
  (forall s p fl, kinv kend s (p :: fl) ->
     runs (kalloc x) s (fun r s' => r = p /\ r <> 0 /\ kinv kend s' fl /\
       (forall i, 0 <= i < PGSIZE -> rd (k_mem s') (p + i) = 5) /\
       only_changes p PGSIZE (k_mem s) (k_mem s'))) /\
  (forall s p fl, kinv kend s fl -> page_ok kend p -> p ∉ fl ->
     runs (kfree kend x p) s (fun _ s' => kinv kend s' (p :: fl) /\
       only_changes p PGSIZE (k_mem s) (k_mem s'))).
Proof.
  intros Hk. split_and!.
  - intros s I. by apply (kalloc_empty kend).
  - intros s p fl I. eapply runs_eq; [by apply (kalloc_cons kend x Hk _ _ fl)|]. cbn [k_mem].
    pose proof (ki_pages _ _ _ I) as [Hp _]%Forall_cons_1.
    split_and!; [done|apply (page_pos kend Hk) in Hp; lia|by apply (kalloc_inv kend Hk)| |by apply memset_only].
    intros i Hi. rewrite rd_memset, decide_True by alia. done.
  - intros s p fl I Hp Hni. eapply runs_eq; [apply (kfree_eq kend x _ _ Hp), I|].
    by apply (kfree_inv kend Hk).
Qed.

Definition k_boot : kst := Kst ∅ (initlock "kmem") 0.

Lemma kalloc_refines_stack_witness :
  let kend := KERNBASE + 8 * PGSIZE in
  let p := KERNBASE + 9 * PGSIZE in
  kalloc (Ctx 0 1) k_boot = (Ret 0, k_boot) /\
  runs (kfree kend (Ctx 0 1) p) k_boot (fun _ s => kinv kend s [p] /\
    runs (kalloc (Ctx 0 1)) s (fun r s' => r = p /\ kinv kend s' [])).
Proof.
  intros kend p. destruct (kalloc_refines_stack kend (Ctx 0 1)) as (H1 & H2 & H3); [split; vm_compute; discriminate|].
  assert (I : kinv kend k_boot []) by (repeat constructor).
  split; [by apply H1|].
  eapply runs_mono; [apply (H3 k_boot p [] I); [by repeat split|by apply not_elem_of_nil]|].
  intros _ s [Is _]. split; [exact Is|]. eapply runs_mono; [exact (H2 s p [] Is)|]. by intros r s' (-> & _ & I' & _).
Defined.

(** After [kinit] exactly the whole pages between the end of the kernel
    and PHYSTOP are free, each once, and [kinit] does not panic. *)
Theorem kinit_frees_all kend x s :
  KERNBASE <= kend <= PHYSTOP -> k_freelist s = 0 ->
  runs (kinit kend x) s (fun _ s' =>
    exists fl, kinv kend s' fl /\
      forall p, p ∈ fl <-> p mod PGSIZE = 0 /\ kend <= p /\ p + PGSIZE <= PHYSTOP).
Proof.
  intros Hk H0. unfold kinit, freerange. mstep.
  pose proof (PGROUNDUP_bounds kend) as [Hm Hb]; [alia|alia|].
  set (p0 := PGROUNDUP kend) in *.
  set (n := Z.to_nat ((PHYSTOP - p0) / PGSIZE)).
  assert (Hp0 : p0 <= PHYSTOP).
  { apply Z.mod_divide in Hm as [i Hi]; [|done]. alia. }
  assert (Hn : p0 + PGSIZE * Z.of_nat n <= PHYSTOP /\ PHYSTOP < p0 + PGSIZE * Z.of_nat n + PGSIZE).
  { subst n. rewrite Z2Nat.id by (apply Z.div_pos; alia).
    pose proof (Z.div_mod (PHYSTOP - p0) PGSIZE ltac:(done)).
    pose proof (Z.mod_pos_bound (PHYSTOP - p0) PGSIZE ltac:(done)). lia. }
  eapply runs_seq.
  { apply (freerange_run kend x Hk); [done|lia|lia|]. split; cbn; try done; by constructor. }
  intros ? t I; cbn beta in I. apply runs_ret. exists (pages_down n p0). split; [done|].
  intros p. rewrite pages_down_lt. split.
  - intros (i & Hi & ->). split_and!; [|alia|alia].
    by rewrite Z.mul_comm, Z.mod_add by done.
  - intros (Hpm & Hlo & Hhi). clear I t.
    apply Z.mod_divide in Hpm as [j ->]; [|done]. apply Z.mod_divide in Hm as [j0 Hj0]; [|done].
    clearbody p0 n. subst p0. exists (Z.to_nat (j - j0)). alia.
Qed.

Lemma kinit_frees_all_witness :
  runs (kinit (PHYSTOP - 5000) (Ctx 0 1)) k_boot (fun _ s' =>
    exists fl, kinv (PHYSTOP - 5000) s' fl /\
      forall p, p ∈ fl <-> p mod PGSIZE = 0 /\ PHYSTOP - 5000 <= p /\ p + PGSIZE <= PHYSTOP).
Proof.
  apply kinit_frees_all; [split; vm_compute; discriminate|reflexivity].
Defined.

(** [kfree] refuses (panics on) exactly the addresses that are not
    page-aligned or lie outside [end, PHYSTOP), leaving memory untouched. *)
Theorem kfree_rejects kend x pa s :
  KERNBASE <= kend <= PHYSTOP -> lk_free (k_lock s) ->
  (kfree kend x pa s = (Panic "kfree", s) <-> ~ page_ok kend pa).
Proof.
  intros Hk Hl. split.
  - intros E Hp. by rewrite kfree_eq in E.
  - intros Hn. unfold kfree.
    destruct (Z.eqb_spec (pa mod PGSIZE) 0) as [Hm|]; [|done]. cbn [negb orb].
    destruct (Z.ltb_spec pa kend); [done|]. cbn [orb].
    destruct (Z.leb_spec PHYSTOP pa); [done|].
    destruct Hn. split_and!; [done|done|].
    apply Z.mod_divide in Hm as [i ->]; [|done]. alia.
Qed.

Lemma kfree_rejects_witness :
  kfree (KERNBASE + PGSIZE) (Ctx 0 1) 4095 k_boot = (Panic "kfree", k_boot).
Proof.
  apply (kfree_rejects (KERNBASE + PGSIZE) (Ctx 0 1) 4095 k_boot);
    [split; vm_compute; discriminate|split; reflexivity|].
  intros (H & _). vm_compute in H. discriminate.
Defined.
