(* ===== verification/Bio.v ===== *)
(** * Buffer cache: kernel/bio.c, kernel/buf.h

    The cache is an array of [NBUF] buffers and the list head, linked through
    [prev]/[next] indices (index [NBUF] is [bcache.head]).  The disk is the
    contract of [virtio_disk_rw]: a read fills the buffer with the block, a
    write replaces the block and is complete when the call returns; the
    sequence of writes is recorded, so that a crash between any two of them
    can be considered. *)
From S2P Require Import Prelude Riscv Spinlock.
Local Open Scope Z_scope.

Definition BSIZE : Z := 1024.
Definition BSZ : nat := 1024.
Definition NBUFn : nat := Z.to_nat NBUF.
Definition HEAD : nat := NBUFn.

Abbreviation block := (list Z).

Record buf := Buf {
  b_valid : Z;
  b_disk : Z;
  b_dev : Z;
  b_blockno : Z;
  b_lock : sleeplock;
  b_refcnt : Z;
  b_prev : nat;
  b_next : nat;
  b_data : block;
}.

Definition buf0 : buf := Buf 0 0 0 0 (Sleeplock 0 (Spinlock 0 "" None) "" 0) 0 0 0 (replicate BSZ 0).
#[export] Instance buf_inhabited : Inhabited buf := populate buf0.

Definition with_valid (v : Z) (b : buf) := Buf v (b_disk b) (b_dev b) (b_blockno b) (b_lock b) (b_refcnt b) (b_prev b) (b_next b) (b_data b).
Definition with_id (d n : Z) (b : buf) := Buf (b_valid b) (b_disk b) d n (b_lock b) (b_refcnt b) (b_prev b) (b_next b) (b_data b).
Definition with_lock (l : sleeplock) (b : buf) := Buf (b_valid b) (b_disk b) (b_dev b) (b_blockno b) l (b_refcnt b) (b_prev b) (b_next b) (b_data b).
Definition with_refcnt (r : Z) (b : buf) := Buf (b_valid b) (b_disk b) (b_dev b) (b_blockno b) (b_lock b) r (b_prev b) (b_next b) (b_data b).
Definition with_prev (p : nat) (b : buf) := Buf (b_valid b) (b_disk b) (b_dev b) (b_blockno b) (b_lock b) (b_refcnt b) p (b_next b) (b_data b).
Definition with_next (p : nat) (b : buf) := Buf (b_valid b) (b_disk b) (b_dev b) (b_blockno b) (b_lock b) (b_refcnt b) (b_prev b) p (b_data b).
Definition with_data (d : block) (b : buf) := Buf (b_valid b) (b_disk b) (b_dev b) (b_blockno b) (b_lock b) (b_refcnt b) (b_prev b) (b_next b) d.

(** [bcache] (the head is the last entry of the array), the disk, the writes
    made to it so far, and the channels woken. *)
Record bst := Bst {
  bc_lock : spinlock;
  bc_buf : list buf;
  bc_disk : gmap Z block;
  bc_trace : list (Z * block);
  bc_woken : list chan;
}.

Definition disk_get (d : gmap Z block) (n : Z) : block := default (replicate BSZ 0) (d !! n).

Definition getb (i : nat) (s : bst) : buf := bc_buf s !!! i.
Definition set_bufs (l : list buf) (s : bst) : bst := Bst (bc_lock s) l (bc_disk s) (bc_trace s) (bc_woken s).
Definition updb (i : nat) (f : buf -> buf) (s : bst) : bst := set_bufs (<[i := f (getb i s)]> (bc_buf s)) s.

Definition b_spin {A} (m : M spinlock A) : M bst A :=
  zoom bc_lock (fun l s => Bst l (bc_buf s) (bc_disk s) (bc_trace s) (bc_woken s)) m.

(** The sleep lock of buffer [i]; its channel is the lock's address. *)
Definition b_chan (i : nat) : chan := Chan "buf.lock" (Z.of_nat i).
Definition b_sleep {A} (i : nat) (m : M sl_state A) : M bst A :=
  zoom (fun s => SlState (b_lock (getb i s)) (bc_woken s))
       (fun l s => let s := updb i (with_lock (sl l)) s in
                   Bst (bc_lock s) (bc_buf s) (bc_disk s) (bc_trace s) (woken l)) m.

(** Contract of [virtio_disk_rw(b, write)]: the block is transferred and the
    driver no longer owns the buffer when it returns. *)
Definition virtio_disk_rw (i : nat) (write : bool) : M bst unit :=
  modify (fun s =>
    let b := getb i s in
    if write
    then Bst (bc_lock s) (bc_buf s) (<[b_blockno b := b_data b]> (bc_disk s))
             (bc_trace s ++ [(b_blockno b, b_data b)]) (bc_woken s)
    else updb i (with_data (disk_get (bc_disk s) (b_blockno b))) s).

Section ops.
Context (x : ctx).

Definition binit : M bst unit :=
  modify (fun s => Bst (initlock "bcache") (bc_buf s) (bc_disk s) (bc_trace s) (bc_woken s)) ;;
  modify (updb HEAD (with_prev HEAD)) ;;
  modify (updb HEAD (with_next HEAD)) ;;
  forn (A := unit) NBUFn 0 1 (fun i =>
    let b := Z.to_nat i in
    modify (fun s => updb b (with_next (b_next (getb HEAD s))) s) ;;
    modify (updb b (with_prev HEAD)) ;;
    modify (updb b (with_lock (initsleeplock "buffer"))) ;;
    modify (fun s => updb (b_next (getb HEAD s)) (with_prev b) s) ;;
    modify (updb HEAD (with_next b)) ;;
    ret None) ;;
  ret tt.

(** [for(b = start; b != &bcache.head; b = step(b)) if(p(b)) ...]: the
    first buffer on the way that satisfies [p].  [fuel] bounds the number of
    buffers looked at; a walk longer than that never ends. *)
Fixpoint walk_list (fuel : nat) (step : buf -> nat) (p : buf -> bool) (i : nat) (s : bst) : option (option nat) :=
  match fuel with
  | O => None
  | S f =>
      if decide (i = HEAD) then Some None
      else if p (getb i s) then Some (Some i)
      else walk_list f step p (step (getb i s)) s
  end.

Definition bget (dev blockno : Z) : M bst nat :=
  b_spin (acquire_word (c_hart x)) ;;
  let! s := get in
  match walk_list (S NBUFn) b_next (fun b => (b_dev b =? dev) && (b_blockno b =? blockno)) (b_next (getb HEAD s)) s with
  | None => stall (Chan "bcache" 0)
  | Some (Some b) =>
      modify (updb b (fun bf => with_refcnt (u32 (b_refcnt bf + 1)) bf)) ;;
      b_spin (release_word (c_hart x)) ;;
      b_sleep b (acquiresleep x (b_chan b)) ;;
      ret b
  | Some None =>
      match walk_list (S NBUFn) b_prev (fun b => b_refcnt b =? 0) (b_prev (getb HEAD s)) s with
      | None => stall (Chan "bcache" 0)
      | Some (Some b) =>
          modify (updb b (with_id dev blockno)) ;;
          modify (updb b (with_valid 0)) ;;
          modify (updb b (with_refcnt 1)) ;;
          b_spin (release_word (c_hart x)) ;;
          b_sleep b (acquiresleep x (b_chan b)) ;;
          ret b
      | Some None => panic "bget: no buffers"
      end
  end.

Definition bread (dev blockno : Z) : M bst nat :=
  let! b := bget dev blockno in
  let! v := gets (fun s => b_valid (getb b s)) in
  (if v =? 0
   then virtio_disk_rw b false ;; modify (updb b (with_valid 1))
   else ret tt) ;;
  ret b.

Definition bwrite (b : nat) : M bst unit :=
  let! h := b_sleep b (holdingsleep x) in
  if negb h then panic "bwrite" else virtio_disk_rw b true.

Definition brelse (b : nat) : M bst unit :=
  let! h := b_sleep b (holdingsleep x) in
  if negb h then panic "brelse"
  else
    b_sleep b (releasesleep x (b_chan b)) ;;
    b_spin (acquire_word (c_hart x)) ;;
    modify (updb b (fun bf => with_refcnt (u32 (b_refcnt bf - 1)) bf)) ;;
    let! r := gets (fun s => b_refcnt (getb b s)) in
    (if r =? 0
     then
       modify (fun s => updb (b_next (getb b s)) (with_prev (b_prev (getb b s))) s) ;;
       modify (fun s => updb (b_prev (getb b s)) (with_next (b_next (getb b s))) s) ;;
       modify (fun s => updb b (with_next (b_next (getb HEAD s))) s) ;;
       modify (updb b (with_prev HEAD)) ;;
       modify (fun s => updb (b_next (getb HEAD s)) (with_prev b) s) ;;
       modify (updb HEAD (with_next b))
     else ret tt) ;;
    b_spin (release_word (c_hart x)).

Definition bpin (b : nat) : M bst unit :=
  b_spin (acquire_word (c_hart x)) ;;
  modify (updb b (fun bf => with_refcnt (u32 (b_refcnt bf + 1)) bf)) ;;
  b_spin (release_word (c_hart x)).

Definition bunpin (b : nat) : M bst unit :=
  b_spin (acquire_word (c_hart x)) ;;
  modify (updb b (fun bf => with_refcnt (u32 (b_refcnt bf - 1)) bf)) ;;
  b_spin (release_word (c_hart x)).
End ops.

(** ** The interface

    What log.c and fs.c may assume of a buffer cache for device [dv]: a block
    is held by at most one caller, a held block's buffer shows and takes its
    contents ([bc_view]), blocks that nobody references agree with the disk,
    and the disk changes only by [bc_write]. *)
Class BufCache (S : Type) : Type := {
  bc_read : Z -> Z -> M S nat;
  bc_write : nat -> M S unit;
  bc_relse : nat -> M S unit;
  bc_pin : nat -> M S unit;
  bc_unpin : nat -> M S unit;
  bc_get_data : nat -> S -> block;
  bc_set_data : nat -> block -> S -> S;
  bc_get_no : nat -> S -> Z;
}.

(** The logical state of the cache. *)
Class BufCacheView (S : Type) : Type := {
  v_inv : S -> Prop;
  v_view : S -> Z -> block;
  v_disk : S -> Z -> block;
  v_refs : S -> Z -> Z;
  v_held : S -> Z -> option nat;
  v_room : S -> Z;
  v_trace : S -> list (Z * block);
}.

(** [s'] differs from [s] only in what the arguments say. *)
Record cache_step {S} {V : BufCacheView S} (s s' : S) (view disk : Z -> block) (refs : Z -> Z)
    (held : Z -> option nat) (room : Z) (tr : list (Z * block)) : Prop := {
  cs_inv : v_inv s';
  cs_view : forall b, v_view s' b = view b;
  cs_disk : forall b, v_disk s' b = disk b;
  cs_refs : forall b, v_refs s' b = refs b;
  cs_held : forall b, v_held s' b = held b;
  cs_room : v_room s' = room;
  cs_trace : v_trace s' = v_trace s ++ tr;
}.

Definition upd_at {A} (f : Z -> A) (k : Z) (v : A) : Z -> A :=
  fun i => if decide (i = k) then v else f i.

(** Case analysis on the points at which functions were updated. *)
Ltac upd_solve :=
  unfold upd_at in *;
  repeat match goal with
    | |- context [decide ?P] =>
        lazymatch P with context [decide _] => fail | _ => destruct (decide P); try subst end
    end;
  try done; try lia.

Class BufCacheLaws (S : Type) {B : BufCache S} {V : BufCacheView S} (dv : Z) : Prop := {
  bl_read : forall s b,
    v_inv s -> v_held s b = None -> 0 < v_refs s b \/ 0 < v_room s -> v_refs s b < 2 ^ 31 ->
    runs (bc_read dv b) s (fun h s' =>
      cache_step s s' (v_view s) (v_disk s) (upd_at (v_refs s) b (v_refs s b + 1))
        (upd_at (v_held s) b (Some h))
        (if decide (v_refs s b = 0) then v_room s - 1 else v_room s) []);
  bl_relse : forall s b h,
    v_inv s -> v_held s b = Some h -> (v_refs s b = 1 -> v_view s b = v_disk s b) ->
    runs (bc_relse h) s (fun _ s' =>
      cache_step s s' (v_view s) (v_disk s) (upd_at (v_refs s) b (v_refs s b - 1))
        (upd_at (v_held s) b None)
        (if decide (v_refs s b = 1) then v_room s + 1 else v_room s) []);
  bl_write : forall s b h,
    v_inv s -> v_held s b = Some h ->
    runs (bc_write h) s (fun _ s' =>
      cache_step s s' (v_view s) (upd_at (v_disk s) b (v_view s b)) (v_refs s) (v_held s)
        (v_room s) [(b, v_view s b)]);
  bl_pin : forall s b h,
    v_inv s -> v_held s b = Some h -> v_refs s b < 2 ^ 31 ->
    runs (bc_pin h) s (fun _ s' =>
      cache_step s s' (v_view s) (v_disk s) (upd_at (v_refs s) b (v_refs s b + 1)) (v_held s)
        (v_room s) []);
  bl_unpin : forall s b h,
    v_inv s -> v_held s b = Some h -> 1 < v_refs s b ->
    runs (bc_unpin h) s (fun _ s' =>
      cache_step s s' (v_view s) (v_disk s) (upd_at (v_refs s) b (v_refs s b - 1)) (v_held s)
        (v_room s) []);
  bl_set : forall s b h d,
    v_inv s -> v_held s b = Some h -> length d = BSZ ->
    cache_step s (bc_set_data h d s) (upd_at (v_view s) b d) (v_disk s) (v_refs s) (v_held s)
      (v_room s) [];
  bl_data : forall s b h, v_inv s -> v_held s b = Some h -> bc_get_data h s = v_view s b;
  bl_no : forall s b h, v_inv s -> v_held s b = Some h -> bc_get_no h s = b;
  bl_len : forall s b, v_inv s -> length (v_view s b) = BSZ;
  bl_refs : forall s b, v_inv s -> 0 <= v_refs s b < 2 ^ 32 /\ (v_held s b <> None -> 0 < v_refs s b);
  bl_clean : forall s b, v_inv s -> v_refs s b = 0 -> v_view s b = v_disk s b;
}.

(** ** The logical state of bio.c's cache

    [core] forgets a buffer's links; a table is the cores of the buffers. *)
Definition core (b : buf) : buf := with_prev 0 (with_next 0 b).
Definition table (s : bst) : nat -> buf := fun i => core (getb i s).

Section view.
Context (x : ctx) (dv : Z).

Definition match_buf (g : nat -> buf) (b : Z) (i : nat) : bool :=
  (b_dev (g i) =? dv) && (b_blockno (g i) =? b).

Definition find_buf (g : nat -> buf) (b : Z) : option nat :=
  snd <$> list_find (fun i => match_buf g b i = true) (seq 0 NBUFn).

Definition t_view (g : nat -> buf) (d : gmap Z block) (b : Z) : block :=
  match find_buf g b with Some i => b_data (g i) | None => disk_get d b end.
Definition t_refs (g : nat -> buf) (b : Z) : Z :=
  match find_buf g b with Some i => b_refcnt (g i) | None => 0 end.
Definition t_held (g : nat -> buf) (b : Z) : option nat :=
  match find_buf g b with
  | Some i => if sl_locked (b_lock (g i)) =? 0 then None else Some i
  | None => None
  end.
Definition t_room (g : nat -> buf) : Z :=
  Z.of_nat (length (filter (fun i => b_refcnt (g i) = 0) (seq 0 NBUFn))).

(** A buffer between operations of the one thread [x]. *)
Record buf_ok (d : gmap Z block) (b : buf) : Prop := {
  bo_len : length (b_data b) = BSZ;
  bo_sl : sl_ok (b_lock b);
  bo_ref : 0 <= b_refcnt b < 2 ^ 32;
  bo_held : sl_locked (b_lock b) = 0 \/
            sl_locked (b_lock b) = 1 /\ sl_pid (b_lock b) = c_pid x /\ 0 < b_refcnt b;
  bo_id : b_dev b = dv /\ b_valid b = 1 \/ b_dev b = 0 /\ b_refcnt b = 0;
  bo_clean : b_dev b = dv -> b_refcnt b = 0 -> b_data b = disk_get d (b_blockno b);
}.

Record tbl_ok (g : nat -> buf) (d : gmap Z block) : Prop := {
  tk_buf : forall i, (i < NBUFn)%nat -> buf_ok d (g i);
  tk_uniq : forall i j, (i < NBUFn)%nat -> (j < NBUFn)%nat ->
    b_dev (g i) = dv -> b_dev (g j) = dv -> b_blockno (g i) = b_blockno (g j) -> i = j;
  tk_disk : forall b, length (disk_get d b) = BSZ;
}.

(** The links [next]/[prev] go around the head and the buffers of [l]. *)
Fixpoint linked (f p : nat -> nat) (path : list nat) : Prop :=
  match path with
  | a :: ((b :: _) as t) => f a = b /\ p b = a /\ linked f p t
  | _ => True
  end.

Definition nx (s : bst) (i : nat) : nat := b_next (getb i s).
Definition pv (s : bst) (i : nat) : nat := b_prev (getb i s).

Record ring (f p : nat -> nat) (l : list nat) : Prop := {
  rg_perm : l ≡ₚ seq 0 NBUFn;
  rg_linked : linked f p (HEAD :: l ++ [HEAD]);
}.

Record binv (s : bst) : Prop := {
  bi_len : length (bc_buf s) = S NBUFn;
  bi_lock : lk_free (bc_lock s);
  bi_ring : exists l, ring (nx s) (pv s) l;
  bi_tbl : tbl_ok (table s) (bc_disk s);
}.
End view.

(** ** Lemmas: array updates *)
Lemma getb_updb i f j s :
  (i < length (bc_buf s))%nat ->
  getb j (updb i f s) = if decide (i = j) then f (getb i s) else getb j s.
Proof.
  intros Hi. unfold getb, updb; cbn. case_decide as E.
  - subst j. apply list_lookup_total_insert_eq. done.
  - by apply list_lookup_total_insert_ne.
Qed.

Lemma length_updb i f s : length (bc_buf (updb i f s)) = length (bc_buf s).
Proof. apply length_insert. Qed.

(** ** Lemmas: the ring *)
Section ring_lemmas.
Implicit Types (f p : nat -> nat) (path l : list nat).

Definition updn (f : nat -> nat) (k v : nat) : nat -> nat :=
  fun i => if decide (i = k) then v else f i.

Lemma linked_ext f p f' p' path :
  (forall i, i ∈ path -> f' i = f i) -> (forall i, i ∈ path -> p' i = p i) ->
  linked f p path -> linked f' p' path.
Proof.
  induction path as [|a [|b t] IH]; [done|done|]. intros Hf Hp (H1 & H2 & H3).
  split_and!.
  - rewrite Hf; [done|set_solver].
  - rewrite Hp; [done|set_solver].
  - apply IH; [set_solver|set_solver|done].
Qed.

Lemma linked_app f p l1 m l2 :
  linked f p (l1 ++ m :: l2) <-> linked f p (l1 ++ [m]) /\ linked f p (m :: l2).
Proof.
  induction l1 as [|a l1 IH]; cbn [app].
  - split; [intros H; by split|by intros [_ H]].
  - destruct l1 as [|b l1]; cbn [app] in *.
    + cbn. tauto.
    + cbn [linked]. rewrite IH. tauto.
Qed.

Lemma linked_next f p l1 a b l2 : linked f p (l1 ++ a :: b :: l2) -> f a = b /\ p b = a.
Proof. intros [_ H]%linked_app. destruct H as (? & ? & _). done. Qed.

(** [f] may change at the path's last node, [p] at its first. *)
Lemma linked_upd_end f p l a k v :
  linked f p (l ++ [a]) -> k ∉ l -> linked (updn f k v) p (l ++ [a]).
Proof.
  induction l as [|c l IH]; [done|]. intros H Hk.
  destruct l as [|d l]; cbn [app] in *.
  - destruct H as (H1 & H2 & _). cbn. unfold updn. rewrite decide_False by set_solver. done.
  - destruct H as (H1 & H2 & H3). split_and!.
    + unfold updn. rewrite decide_False by set_solver. done.
    + done.
    + apply IH; [done|set_solver].
Qed.

Lemma linked_upd_start f p a l k v :
  linked f p (a :: l) -> k ∉ l -> linked f (updn p k v) (a :: l).
Proof.
  revert a. induction l as [|c l IH]; [done|]. intros a (H1 & H2 & H3) Hk. split_and!.
  - done.
  - unfold updn. rewrite decide_False by set_solver. done.
  - apply IH; [done|set_solver].
Qed.

(** [b->next->prev = b->prev; b->prev->next = b->next]: [b] leaves the list. *)
Lemma linked_unlink f p h l1 b l2 :
  linked f p (h :: l1 ++ b :: l2 ++ [h]) -> NoDup (h :: l1 ++ b :: l2) ->
  linked (updn f (p b) (f b)) (updn p (f b) (p b)) (h :: l1 ++ l2 ++ [h]).
Proof.
  intros HL HN.
  destruct (exists_last (l := h :: l1) ltac:(done)) as (A & c & HA).
  destruct (l2 ++ [h]) as [|n B] eqn:HB; [by destruct l2|].
  assert (HL' : linked f p (A ++ c :: b :: n :: B)).
  { change (linked f p ((h :: l1) ++ b :: n :: B)) in HL. rewrite HA in HL.
    by rewrite <- app_assoc in HL. }
  pose proof (linked_next _ _ _ _ _ _ HL') as [_ Hpb].
  assert (Hfb : f b = n).
  { apply (linked_next f p (A ++ [c]) b n B). by rewrite <- app_assoc. }
  rewrite Hpb, Hfb.
  change (linked (updn f c n) (updn p n c) ((h :: l1) ++ n :: B)).
  assert (HN1 : NoDup (h :: l1) /\ NoDup (l2 ++ [h])).
  { split; [apply (NoDup_app (h :: l1) (b :: l2)); exact HN|].
    apply NoDup_cons in HN as [Hh HN]. apply NoDup_app in HN as (_ & _ & HN2).
    apply NoDup_cons in HN2 as [_ HN2]. apply NoDup_app. split_and!; [done| |apply NoDup_singleton].
    intros y Hy. set_solver. }
  destruct HN1 as [HN1 HN2].
  assert (Hdis : forall y, y ∈ h :: l1 -> y ∉ l2).
  { intros y Hy Hy2. apply (NoDup_app (h :: l1) (b :: l2)) in HN as (_ & HN & _).
    apply (HN y Hy). by right. }
  assert (Hdis' : forall y, y ∈ l2 ++ [h] -> y ∉ l1).
  { intros y [Hy|Hy%list_elem_of_singleton]%elem_of_app Hy1.
    - apply (Hdis y); [by right|done].
    - subst y. by apply NoDup_cons in HN1 as [? _]. }
  rewrite HA, <- app_assoc. cbn [app]. apply linked_app in HL' as [HLa HLb].
  destruct HLb as (_ & _ & _ & _ & HLb).
  apply linked_app. split.
  - apply linked_upd_end.
    + rewrite <- HA in HLa |- *. apply linked_upd_start; [done|].
      apply Hdis'. rewrite HB. by left.
    + rewrite HA in HN1. apply NoDup_app in HN1 as (_ & HN1 & _).
      intros Hc. apply (HN1 c Hc). by left.
  - split_and!; [unfold updn; by rewrite decide_True|unfold updn; by rewrite decide_True|].
    apply linked_upd_start; [|rewrite HB in HN2; by apply NoDup_cons in HN2 as [? _]].
    rewrite <- HB in HLb |- *. apply linked_upd_end; [done|].
    apply Hdis. rewrite HA. apply elem_of_app. right. by left.
Qed.

(** The four stores that put [b] behind the head. *)
Lemma linked_push f p h l b :
  linked f p (h :: l ++ [h]) -> b ∉ h :: l -> h ∉ l -> NoDup l ->
  linked (updn (updn f b (f h)) h b) (updn (updn p b h) (f h) b) (h :: b :: l ++ [h]).
Proof.
  intros HL Hb Hh Hnd.
  destruct (l ++ [h]) as [|t T] eqn:HT; [by destruct l|].
  destruct HL as (Hf & Hp & HL). rewrite Hf.
  assert (Hbt : b <> t).
  { intros ->. assert (t ∈ l ++ [h]) as [|]%elem_of_app by (rewrite HT; by left); set_solver. }
  assert (HtT : t ∉ T).
  { assert (HN : NoDup (l ++ [h])).
    { apply NoDup_app. split_and!; [done| |apply NoDup_singleton]. set_solver. }
    rewrite HT in HN. by apply NoDup_cons in HN as [? _]. }
  assert (HbT : b ∉ T).
  { intros HbT. assert (b ∈ l ++ [h]) as [|]%elem_of_app by (rewrite HT; by right); set_solver. }
  split; [|split]; [| |split; [|split]].
  - unfold updn. by rewrite decide_True.
  - unfold updn. rewrite decide_False, decide_True by done. done.
  - unfold updn. rewrite decide_False, decide_True by set_solver. done.
  - unfold updn. by rewrite decide_True.
  - apply linked_upd_start; [|done]. apply linked_upd_start; [|done].
    rewrite <- HT in HL |- *. apply linked_upd_end; [|done].
    apply linked_upd_end; [done|set_solver].
Qed.
End ring_lemmas.

(** A walk along [next] meets the buffers of the ring in order. *)
Lemma walk_next_spec f p (P : buf -> bool) s h l fuel :
  (forall i, f i = b_next (getb i s)) ->
  linked f p (h :: l ++ [HEAD]) -> HEAD ∉ l -> (length l < fuel)%nat ->
  walk_list fuel b_next P (f h) s = Some (snd <$> list_find (fun i => P (getb i s) = true) l).
Proof.
  intros Hf. revert h fuel. induction l as [|a l IH]; intros h fuel HL Hh Hfuel;
    (destruct fuel as [|fuel]; [cbn in Hfuel; lia|]).
  - destruct HL as (-> & _). cbn. by rewrite decide_True.
  - destruct HL as (Hha & _ & HL). cbn [app] in *. rewrite Hha.
    cbn [walk_list list_find]. rewrite decide_False by set_solver.
    destruct (P (getb a s)) eqn:EP.
    + by rewrite decide_True.
    + rewrite decide_False by done. rewrite <- Hf, IH; [|done|set_solver|cbn in Hfuel; lia].
      by destruct (list_find _ l) as [[]|].
Qed.

(** A walk along [prev] meets them in the opposite order. *)
Lemma walk_prev_spec f p (P : buf -> bool) s h l fuel :
  (forall i, p i = b_prev (getb i s)) ->
  linked f p (HEAD :: l ++ [h]) -> HEAD ∉ l -> (length l < fuel)%nat ->
  walk_list fuel b_prev P (p h) s = Some (snd <$> list_find (fun i => P (getb i s) = true) (reverse l)).
Proof.
  intros Hp. revert h fuel. induction l as [|a l IH] using rev_ind; intros h fuel HL Hh Hfuel;
    (destruct fuel as [|fuel]; [cbn in Hfuel; lia|]).
  - destruct HL as (_ & -> & _). cbn. by rewrite decide_True.
  - rewrite <- app_assoc in HL. cbn [app] in HL.
    pose proof (linked_next f p (HEAD :: l) a h [] HL) as [_ Hha].
    apply (linked_app f p (HEAD :: l) a [h]) in HL as [HL _].
    rewrite Hha, reverse_app. cbn [reverse rev_append app].
    cbn [walk_list list_find]. rewrite decide_False by set_solver.
    destruct (P (getb a s)) eqn:EP.
    + by rewrite decide_True.
    + rewrite decide_False by done. rewrite length_app in Hfuel. cbn in Hfuel.
      rewrite <- Hp, IH; [|done|set_solver|lia].
      by destruct (list_find _ (reverse l)) as [[]|].
Qed.

Lemma ring_facts f p l :
  ring f p l -> NoDup (HEAD :: l) /\ length l = NBUFn /\ forall i, i ∈ l <-> (i < NBUFn)%nat.
Proof.
  intros [Hperm _].
  assert (Hin : forall i, i ∈ l <-> (i < NBUFn)%nat).
  { intros i. rewrite Hperm, elem_of_seq. lia. }
  split_and!; [|by rewrite Hperm, length_seq|done].
  apply NoDup_cons. split.
  - rewrite Hin. unfold HEAD. lia.
  - rewrite Hperm. apply NoDup_seq.
Qed.

(** ** Lemmas: tables *)
Section table_lemmas.
Context (x : ctx) (dv : Z).
Abbreviation tbl_ok := (tbl_ok x dv).
Abbreviation find_buf := (find_buf dv).

Lemma match_buf_true g b i : match_buf dv g b i = true <-> b_dev (g i) = dv /\ b_blockno (g i) = b.
Proof. unfold match_buf. rewrite andb_true_iff, !Z.eqb_eq. done. Qed.

Lemma find_buf_Some g d b i :
  tbl_ok g d ->
  find_buf g b = Some i <-> (i < NBUFn)%nat /\ b_dev (g i) = dv /\ b_blockno (g i) = b.
Proof.
  intros T. unfold Bio.find_buf. split.
  - intros ([k j] & Hf & ->)%fmap_Some. cbn.
    apply list_find_Some in Hf as (Hk & Hm%match_buf_true & _).
    apply lookup_seq in Hk as [-> Hk]. split; [lia|done].
  - intros (Hi & Hd & Hb). destruct (list_find _ _) as [[k j]|] eqn:E.
    + apply list_find_Some in E as (Hk & Hm%match_buf_true & _).
      apply lookup_seq in Hk as [Hj Hk]. cbn in Hj |- *. subst j. f_equal.
      apply (tk_uniq x dv g d T); [lia|done|apply Hm|done|destruct Hm; congruence].
    + apply list_find_None in E. rewrite Forall_forall in E.
      destruct (E i); [apply elem_of_seq; lia|by apply match_buf_true].
Qed.

Lemma find_buf_None g b :
  find_buf g b = None <-> forall i, (i < NBUFn)%nat -> ~ (b_dev (g i) = dv /\ b_blockno (g i) = b).
Proof.
  unfold Bio.find_buf. rewrite fmap_None, list_find_None, Forall_forall. split.
  - intros H i Hi Hm. apply (H i); [apply elem_of_seq; lia|by apply match_buf_true].
  - intros H i Hi Hm%match_buf_true. apply (H i); [apply elem_of_seq in Hi; lia|done].
Qed.

(** Counting with one entry changed. *)
Lemma count_seq_upd (P Q : nat -> Prop) {HP : forall i, Decision (P i)} {HQ : forall i, Decision (Q i)} k n m :
  (forall i, (m <= i < m + n)%nat -> i <> k -> P i <-> Q i) -> (m <= k < m + n)%nat ->
  Z.of_nat (length (filter Q (seq m n))) =
    Z.of_nat (length (filter P (seq m n))) - (if decide (P k) then 1 else 0) + (if decide (Q k) then 1 else 0).
Proof.
  revert m. induction n as [|n IH]; intros m Hpq Hk; [lia|].
  rewrite <- cons_seq, !filter_cons. destruct (decide (k = m)) as [->|Hne].
  - assert (E : filter Q (seq (S m) n) = filter P (seq (S m) n)).
    { apply filter_cong. intros i Hi%elem_of_seq.
      symmetry. apply Hpq; lia. }
    rewrite E. repeat case_decide; cbn [length]; lia.
  - specialize (IH (S m) ltac:(intros; apply Hpq; lia) ltac:(lia)).
    destruct (decide (P m)) as [Hp|Hp], (decide (Q m)) as [Hq|Hq]; cbn [length];
      rewrite ?Nat2Z.inj_succ; try lia;
      by exfalso; (apply Hp || apply Hq); apply (Hpq m); try lia.
Qed.

Lemma room_upd g g' k :
  (k < NBUFn)%nat -> (forall i, (i < NBUFn)%nat -> i <> k -> g' i = g i) ->
  t_room g' = t_room g - (if decide (b_refcnt (g k) = 0) then 1 else 0)
                       + (if decide (b_refcnt (g' k) = 0) then 1 else 0).
Proof.
  intros Hk Hg. unfold t_room. refine (count_seq_upd (fun i => b_refcnt (g i) = 0) (fun i => b_refcnt (g' i) = 0) k NBUFn 0 _ _); [|lia].
  intros i Hi Hne. by rewrite Hg by lia.
Qed.

Section same.
Context (g g' : nat -> buf) (d d' : gmap Z block) (k : nat).
Hypothesis T : tbl_ok g d.
Hypothesis Hk : (k < NBUFn)%nat.
Hypothesis Hg : forall i, (i < NBUFn)%nat -> i <> k -> g' i = g i.
Hypothesis Hdev : b_dev (g k) = dv.
Hypothesis Hdev' : b_dev (g' k) = dv.
Hypothesis Hno : b_blockno (g' k) = b_blockno (g k).
Hypothesis Hok : buf_ok x dv d' (g' k).
Hypothesis Hd : forall b, b <> b_blockno (g k) -> disk_get d' b = disk_get d b.
Hypothesis Hlen : length (disk_get d' (b_blockno (g k))) = BSZ.

Lemma same_tbl : tbl_ok g' d'.
Proof.
  split.
  - intros i Hi. destruct (decide (i = k)) as [->|Hne]; [done|]. rewrite Hg by done.
    destruct (tk_buf x dv g d T i Hi). split; try done.
    intros E1 E2. rewrite Hd; [auto|]. intros E3. apply Hne.
    by apply (tk_uniq x dv g d T).
  - intros i j Hi Hj. destruct (decide (i = k)) as [->|], (decide (j = k)) as [->|]; try done;
      rewrite ?(Hg i), ?(Hg j), ?Hno by done; intros; apply (tk_uniq x dv g d T); auto.
  - intros b. destruct (decide (b = b_blockno (g k))) as [->|]; [done|].
    rewrite Hd by done. apply (tk_disk x dv g d T).
Qed.

Lemma same_find b : find_buf g' b = find_buf g b.
Proof.
  destruct (find_buf g b) as [i|] eqn:E.
  - apply (find_buf_Some g d) in E as (Hi & E1 & E2); [|done].
    apply (find_buf_Some g' d' b i same_tbl). split; [done|].
    destruct (decide (i = k)) as [->|]; [by rewrite Hno|by rewrite Hg].
  - rewrite find_buf_None in E |- *. intros i Hi. specialize (E i Hi).
    destruct (decide (i = k)) as [->|]; [rewrite Hno, Hdev'; by rewrite Hdev in E|by rewrite Hg].
Qed.

Lemma same_find_k : find_buf g (b_blockno (g k)) = Some k.
Proof. by apply (find_buf_Some g d). Qed.

Lemma same_find_ne b i : b <> b_blockno (g k) -> find_buf g b = Some i -> (i < NBUFn)%nat /\ i <> k.
Proof.
  intros Hb (Hi & _ & E)%(find_buf_Some g d); [|done]. split; [done|]. by intros ->.
Qed.

Lemma same_view b :
  t_view dv g' d' b = upd_at (t_view dv g d) (b_blockno (g k)) (b_data (g' k)) b.
Proof.
  unfold t_view, upd_at. rewrite same_find. case_decide as E.
  - subst b. by rewrite same_find_k.
  - destruct (find_buf g b) as [i|] eqn:F; [|by rewrite Hd].
    apply same_find_ne in F as [??]; [|done]. by rewrite Hg.
Qed.

Lemma same_refs b :
  t_refs dv g' b = upd_at (t_refs dv g) (b_blockno (g k)) (b_refcnt (g' k)) b.
Proof.
  unfold t_refs, upd_at. rewrite same_find. case_decide as E.
  - subst b. by rewrite same_find_k.
  - destruct (find_buf g b) as [i|] eqn:F; [|done].
    apply same_find_ne in F as [??]; [|done]. by rewrite Hg.
Qed.

Lemma same_held b :
  t_held dv g' b = upd_at (t_held dv g) (b_blockno (g k))
                     (if sl_locked (b_lock (g' k)) =? 0 then None else Some k) b.
Proof.
  unfold t_held, upd_at. rewrite same_find. case_decide as E.
  - subst b. by rewrite same_find_k.
  - destruct (find_buf g b) as [i|] eqn:F; [|done].
    apply same_find_ne in F as [??]; [|done]. by rewrite Hg.
Qed.
End same.

Section recycle.
Context (g g' : nat -> buf) (d : gmap Z block) (k : nat) (b0 : Z).
Hypothesis T : tbl_ok g d.
Hypothesis Hk : (k < NBUFn)%nat.
Hypothesis Hg : forall i, (i < NBUFn)%nat -> i <> k -> g' i = g i.
Hypothesis Hidle : b_refcnt (g k) = 0.
Hypothesis Hmiss : find_buf g b0 = None.
Hypothesis Hid : b_dev (g' k) = dv /\ b_blockno (g' k) = b0.
Hypothesis Hok : buf_ok x dv d (g' k).

Lemma recycle_tbl : tbl_ok g' d.
Proof.
  rewrite find_buf_None in Hmiss. destruct Hid as [Hid1 Hid2]. split.
  - intros i Hi. destruct (decide (i = k)) as [->|]; [done|]. rewrite Hg by done.
    by apply (tk_buf x dv g d T).
  - intros i j Hi Hj.
    destruct (decide (i = k)) as [->|], (decide (j = k)) as [->|]; try done;
      rewrite ?(Hg i), ?(Hg j), ?Hid2 by done; intros E1 E2 E3.
    + by destruct (Hmiss j).
    + by destruct (Hmiss i).
    + by apply (tk_uniq x dv g d T).
  - apply (tk_disk x dv g d T).
Qed.

Lemma recycle_find b :
  find_buf g' b = if decide (b = b0) then Some k
                  else if decide (find_buf g b = Some k) then None else find_buf g b.
Proof.
  destruct Hid as [Hid1 Hid2]. destruct (decide (b = b0)) as [->|Hb].
  { by apply (find_buf_Some g' d b0 k recycle_tbl). }
  destruct (find_buf g b) as [i|] eqn:E.
  - apply (find_buf_Some g d) in E as (Hi & E1 & E2); [|done]. case_decide as F.
    + injection F as ->. apply find_buf_None. intros j Hj.
      destruct (decide (j = k)) as [->|Hne]; [rewrite Hid2; by intros [_ ?]|].
      rewrite Hg by done. intros [F1 F2]. apply Hne.
      apply (tk_uniq x dv g d T); congruence.
    + apply (find_buf_Some g' d b i recycle_tbl). rewrite Hg by (done || congruence). done.
  - rewrite decide_False by done. rewrite find_buf_None in E |- *. intros j Hj.
    destruct (decide (j = k)) as [->|]; [rewrite Hid2; by intros [_ ?]|].
    rewrite Hg by done. by apply E.
Qed.

Lemma recycle_view b :
  b_data (g' k) = disk_get d b0 -> t_view dv g' d b = t_view dv g d b.
Proof.
  intros Hdata. unfold t_view. rewrite recycle_find.
  destruct (decide (b = b0)) as [->|]; [by rewrite Hmiss, Hdata|].
  case_decide as E.
  - rewrite E. apply (find_buf_Some g d) in E as (_ & E1 & E2); [|done].
    rewrite <- E2. symmetry. by apply (bo_clean x dv d _ (tk_buf x dv g d T k Hk)).
  - destruct (find_buf g b) as [i|] eqn:F; [|done].
    rewrite Hg; [done|by apply (find_buf_Some g d) in F as (? & _)|congruence].
Qed.

Lemma recycle_refs b :
  b_refcnt (g' k) = 1 -> t_refs dv g' b = upd_at (t_refs dv g) b0 (t_refs dv g b0 + 1) b.
Proof.
  intros Hr. unfold t_refs, upd_at. rewrite recycle_find.
  destruct (decide (b = b0)) as [->|]; [by rewrite Hmiss, Hr|].
  case_decide as E; [by rewrite E|].
  destruct (find_buf g b) as [i|] eqn:F; [|done].
  rewrite Hg; [done|by apply (find_buf_Some g d) in F as (? & _)|congruence].
Qed.

Lemma recycle_held b :
  sl_locked (b_lock (g' k)) = 1 -> t_held dv g' b = upd_at (t_held dv g) b0 (Some k) b.
Proof.
  intros Hl. unfold t_held, upd_at. rewrite recycle_find.
  destruct (decide (b = b0)) as [->|]; [by rewrite Hl|].
  case_decide as E.
  - rewrite E. destruct (bo_held x dv d _ (tk_buf x dv g d T k Hk)) as [->|(_ & _ & ?)]; [done|lia].
  - destruct (find_buf g b) as [i|] eqn:F; [|done].
    rewrite Hg; [done|by apply (find_buf_Some g d) in F as (? & _)|congruence].
Qed.
End recycle.
End table_lemmas.

(** ** Lemmas: the operations *)
Definition set_lk (l : spinlock) (s : bst) : bst := Bst l (bc_buf s) (bc_disk s) (bc_trace s) (bc_woken s).
Definition set_woken (w : list chan) (s : bst) : bst := Bst (bc_lock s) (bc_buf s) (bc_disk s) (bc_trace s) w.

Section op_lemmas.
Context (x : ctx) (dv : Z).
Hypothesis Hdv : dv <> 0.
Abbreviation binv := (binv x dv).

#[local] Instance bio_view : BufCacheView bst := {
  v_inv := binv;
  v_view := fun s => t_view dv (table s) (bc_disk s);
  v_disk := fun s => disk_get (bc_disk s);
  v_refs := fun s => t_refs dv (table s);
  v_held := fun s => t_held dv (table s);
  v_room := fun s => t_room (table s);
  v_trace := bc_trace;
}.

#[local] Instance bio_cache : BufCache bst := {
  bc_read := bread x;
  bc_write := bwrite x;
  bc_relse := brelse x;
  bc_pin := bpin x;
  bc_unpin := bunpin x;
  bc_get_data := fun i s => b_data (getb i s);
  bc_set_data := fun i d => updb i (with_data d);
  bc_get_no := fun i s => b_blockno (getb i s);
}.

Lemma b_spin_acquire s :
  lk_free (bc_lock s) ->
  b_spin (acquire_word (c_hart x)) s = (Ret tt, set_lk (Spinlock 1 (lk_name (bc_lock s)) (Some (c_hart x))) s).
Proof. intros H. unfold b_spin, zoom. by rewrite acquire_word_free. Qed.

Lemma b_spin_release s name :
  bc_lock s = Spinlock 1 name (Some (c_hart x)) ->
  b_spin (release_word (c_hart x)) s = (Ret tt, set_lk (Spinlock 0 name None) s).
Proof. intros H. unfold b_spin, zoom. by rewrite H, release_word_held. Qed.

Lemma b_sleep_acquire i s :
  sl_ok (b_lock (getb i s)) -> sl_locked (b_lock (getb i s)) = 0 ->
  b_sleep i (acquiresleep x (b_chan i)) s =
    (Ret tt, updb i (with_lock (Sleeplock 1 (sl_lk (b_lock (getb i s))) (sl_name (b_lock (getb i s))) (c_pid x))) s).
Proof. intros H1 H2. unfold b_sleep, zoom. by rewrite acquiresleep_free. Qed.

Lemma b_sleep_release i s :
  sl_ok (b_lock (getb i s)) ->
  b_sleep i (releasesleep x (b_chan i)) s =
    (Ret tt, set_woken (bc_woken s ++ [b_chan i])
               (updb i (with_lock (Sleeplock 0 (sl_lk (b_lock (getb i s))) (sl_name (b_lock (getb i s))) 0)) s)).
Proof. intros H1. unfold b_sleep, zoom. by rewrite releasesleep_eq. Qed.

Lemma updb_id i s : (i < length (bc_buf s))%nat -> updb i (with_lock (b_lock (getb i s))) s = s.
Proof.
  intros Hi. destruct s as [l bs d t w]. unfold updb, set_bufs, getb in *; cbn in *. f_equal.
  apply list_insert_id. apply list_lookup_lookup_total_lt in Hi. rewrite Hi. f_equal.
  by destruct (bs !!! i).
Qed.

Lemma b_sleep_holding i s :
  (i < length (bc_buf s))%nat -> sl_ok (b_lock (getb i s)) ->
  sl_locked (b_lock (getb i s)) = 1 -> sl_pid (b_lock (getb i s)) = c_pid x ->
  b_sleep i (holdingsleep x) s = (Ret true, s).
Proof.
  intros Hi H1 H2 H3. unfold b_sleep, zoom. rewrite holdingsleep_eq by done. cbn [sl woken].
  rewrite H2, H3, Z.eqb_refl. cbn [negb andb]. rewrite updb_id by done. by destruct s.
Qed.

(** [s'] has [s]'s buffers up to links, except [k]. *)
Record upd1 (s s' : bst) (k : nat) (bf : buf) (d' : gmap Z block) (tr : list (Z * block)) : Prop := {
  u_len : length (bc_buf s') = length (bc_buf s);
  u_lock : lk_free (bc_lock s');
  u_ring : exists l, ring (nx s') (pv s') l;
  u_other : forall j, (j < NBUFn)%nat -> j <> k -> table s' j = table s j;
  u_k : table s' k = core bf;
  u_disk : bc_disk s' = d';
  u_trace : bc_trace s' = bc_trace s ++ tr;
}.

Lemma step_same s s' k bf d' tr :
  binv s -> (k < NBUFn)%nat -> b_dev (getb k s) = dv -> upd1 s s' k bf d' tr ->
  b_dev bf = dv -> b_blockno bf = b_blockno (getb k s) -> buf_ok x dv d' (core bf) ->
  (forall b, b <> b_blockno (getb k s) -> disk_get d' b = disk_get (bc_disk s) b) ->
  length (disk_get d' (b_blockno (getb k s))) = BSZ ->
  cache_step s s' (upd_at (v_view s) (b_blockno (getb k s)) (b_data bf)) (disk_get d')
    (upd_at (v_refs s) (b_blockno (getb k s)) (b_refcnt bf))
    (upd_at (v_held s) (b_blockno (getb k s)) (if sl_locked (b_lock bf) =? 0 then None else Some k))
    (v_room s - (if decide (b_refcnt (getb k s) = 0) then 1 else 0) + (if decide (b_refcnt bf = 0) then 1 else 0))
    tr.
Proof.
  intros I Hk Hdev U Hd Hn Hok Hdisk Hlen. destruct U as [Ul Ulk Ur Uo Uk Ud Ut]. subst d'.
  pose proof (bi_tbl x dv s I) as T.
  assert (Hid : b_dev (table s' k) = dv /\ b_blockno (table s' k) = b_blockno (table s k)).
  { rewrite Uk. done. }
  destruct Hid as [Hid1 Hid2]. rewrite <- Uk in Hok.
  split; cbn.
  - split; [by rewrite Ul; apply I|done|done|].
    eapply (same_tbl x dv (table s)); eauto.
  - intros b. rewrite (same_view x dv (table s) (table s') (bc_disk s) (bc_disk s') k) by done.
    by rewrite Uk.
  - done.
  - intros b. rewrite (same_refs x dv (table s) (table s') (bc_disk s) (bc_disk s') k) by done.
    by rewrite Uk.
  - intros b. rewrite (same_held x dv (table s) (table s') (bc_disk s) (bc_disk s') k) by done.
    by rewrite Uk.
  - rewrite (room_upd (table s) (table s') k) by done. by rewrite Uk.
  - done.
Qed.

(** *** Links under updates *)
Lemma ring_ext f p f' p' l :
  (forall i, (i <= NBUFn)%nat -> f' i = f i) -> (forall i, (i <= NBUFn)%nat -> p' i = p i) ->
  ring f p l -> ring f' p' l.
Proof.
  intros Hf Hp R. pose proof (ring_facts _ _ _ R) as (_ & _ & Hin). destruct R as [Hperm HL].
  split; [done|].
  assert (Hle : forall i, i ∈ HEAD :: l ++ [HEAD] -> (i <= NBUFn)%nat).
  { intros i [->|[Hi%Hin|Hi%list_elem_of_singleton]%elem_of_app]%elem_of_cons; unfold HEAD in *; lia. }
  apply (linked_ext f p); auto.
Qed.

Lemma nx_with_next i v s j :
  (i < length (bc_buf s))%nat -> nx (updb i (with_next v) s) j = updn (nx s) i v j.
Proof. intros. unfold nx, updn. rewrite getb_updb by done. repeat case_decide; by subst. Qed.
Lemma nx_with_prev i v s j : (i < length (bc_buf s))%nat -> nx (updb i (with_prev v) s) j = nx s j.
Proof. intros. unfold nx. rewrite getb_updb by done. case_decide; by subst. Qed.
Lemma pv_with_prev i v s j :
  (i < length (bc_buf s))%nat -> pv (updb i (with_prev v) s) j = updn (pv s) i v j.
Proof. intros. unfold pv, updn. rewrite getb_updb by done. repeat case_decide; by subst. Qed.
Lemma pv_with_next i v s j : (i < length (bc_buf s))%nat -> pv (updb i (with_next v) s) j = pv s j.
Proof. intros. unfold pv. rewrite getb_updb by done. case_decide; by subst. Qed.
Lemma table_with_next i v s j :
  (i < length (bc_buf s))%nat -> table (updb i (with_next v) s) j = table s j.
Proof. intros. unfold table. rewrite getb_updb by done. case_decide; by subst. Qed.
Lemma table_with_prev i v s j :
  (i < length (bc_buf s))%nat -> table (updb i (with_prev v) s) j = table s j.
Proof. intros. unfold table. rewrite getb_updb by done. case_decide; by subst. Qed.

Lemma updb_updb i f h s : (i < length (bc_buf s))%nat -> updb i f (updb i h s) = updb i (fun b => f (h b)) s.
Proof.
  intros Hi. unfold updb at 1. rewrite getb_updb, decide_True by done.
  unfold updb, set_bufs; cbn. by rewrite list_insert_insert_eq.
Qed.

(** A buffer replaced by one with the same links. *)
Lemma upd1_insert s s' k bf d' tr :
  binv s -> (k < NBUFn)%nat -> bc_buf s' = <[k := bf]> (bc_buf s) ->
  b_next bf = b_next (getb k s) -> b_prev bf = b_prev (getb k s) ->
  lk_free (bc_lock s') -> bc_disk s' = d' -> bc_trace s' = bc_trace s ++ tr ->
  upd1 s s' k bf d' tr.
Proof.
  intros I Hk Hb Hn Hp Hl Hd Ht. pose proof (bi_len x dv s I) as Hlen.
  assert (Hg : forall j, getb j s' = if decide (k = j) then bf else getb j s).
  { intros j. unfold getb. rewrite Hb. case_decide; [subst; apply list_lookup_total_insert_eq; lia|].
    by apply list_lookup_total_insert_ne. }
  split; [by rewrite Hb, length_insert|done| | | |done|done].
  - destruct (bi_ring x dv s I) as [l R]. exists l. revert R. apply ring_ext; intros i Hi;
      unfold nx, pv; rewrite Hg; by case_decide; subst.
  - intros j Hj Hne. unfold table. rewrite Hg. by case_decide; subst.
  - unfold table. rewrite Hg. by case_decide.
Qed.

Lemma held_inv s b h :
  binv s -> v_held s b = Some h ->
  (h < NBUFn)%nat /\ b_dev (getb h s) = dv /\ b_blockno (getb h s) = b /\
  buf_ok x dv (bc_disk s) (getb h s) /\
  sl_locked (b_lock (getb h s)) = 1 /\ sl_pid (b_lock (getb h s)) = c_pid x /\
  0 < b_refcnt (getb h s) /\ v_refs s b = b_refcnt (getb h s) /\ v_view s b = b_data (getb h s).
Proof.
  intros I. cbn. unfold t_held, t_refs, t_view.
  destruct (find_buf dv (table s) b) as [i|] eqn:E; [|done].
  destruct (Z.eqb_spec (sl_locked (b_lock (table s i))) 0) as [|Hl]; [done|]. intros [= <-].
  apply (find_buf_Some x dv _ (bc_disk s)) in E as (Hi & E1 & E2); [|apply I].
  pose proof (tk_buf x dv _ _ (bi_tbl x dv s I) i Hi) as Hok.
  destruct (bo_held x dv _ _ Hok) as [|(H1 & H2 & H3)]; [done|].
  destruct Hok as [K1 K2 K3 K4 K5 K6]. cbn in *.
  split_and!; try done.
Qed.

Lemma buf_ok_core d b : buf_ok x dv d b -> buf_ok x dv d (core b).
Proof. intros []. by split. Qed.

Lemma cache_step_ext {V : BufCacheView bst} (s s' : bst) v v' d d' r r' h h' rm rm' tr :
  cache_step s s' v d r h rm tr ->
  (forall b, v b = v' b) -> (forall b, d b = d' b) -> (forall b, r b = r' b) ->
  (forall b, h b = h' b) -> rm = rm' -> cache_step s s' v' d' r' h' rm' tr.
Proof. intros [] Hv Hd Hr Hh ->. split; intros; rewrite <- ?Hv, <- ?Hd, <- ?Hr, <- ?Hh; auto. Qed.

Lemma upd_at_id {A} (f : Z -> A) k v b : f k = v -> upd_at f k v b = f b.
Proof. intros <-. unfold upd_at. by case_decide; subst. Qed.

Lemma set_data_law s b h d :
  binv s -> v_held s b = Some h -> length d = BSZ ->
  cache_step s (bc_set_data h d s) (upd_at (v_view s) b d) (v_disk s) (v_refs s) (v_held s) (v_room s) [].
Proof.
  intros I Hh Hd. pose proof (held_inv s b h I Hh) as (Hk & H1 & H2 & Hok & H4 & H5 & H6 & H7 & H8).
  assert (U : upd1 s (bc_set_data h d s) h (with_data d (getb h s)) (bc_disk s) []).
  { apply upd1_insert; try done; [apply I|cbn; by rewrite app_nil_r]. }
  eapply cache_step_ext; [eapply (step_same s _ h); try exact U; try done| | | | |]; rewrite ?H2.
  - apply buf_ok_core. destruct Hok. split; try done. cbn. lia.
  - apply (tk_disk x dv _ _ (bi_tbl x dv s I)).
  - done.
  - done.
  - intros b'. apply upd_at_id. done.
  - intros b'. apply upd_at_id. cbn [b_lock with_data]. by rewrite H4.
  - cbn [b_refcnt with_data]. lia.
Qed.

Lemma crit_modify f s :
  lk_free (bc_lock s) -> (forall t, bc_lock (f t) = bc_lock t) ->
  (b_spin (acquire_word (c_hart x)) ;; modify f ;; b_spin (release_word (c_hart x))) s =
    (Ret tt, set_lk (bc_lock s) (f (set_lk (Spinlock 1 (lk_name (bc_lock s)) (Some (c_hart x))) s))).
Proof.
  intros Hl Hf. unfold bind. rewrite b_spin_acquire by done. cbn [modify].
  unfold modify. rewrite (b_spin_release _ (lk_name (bc_lock s))) by (by rewrite Hf).
  by rewrite <- (lk_free_eq _ Hl).
Qed.

(** [bpin]/[bunpin]: a critical section that sets the reference count. *)
Lemma refcnt_law (f : Z -> Z) s b h :
  binv s -> v_held s b = Some h -> 0 < f (v_refs s b) < 2 ^ 32 ->
  runs (b_spin (acquire_word (c_hart x)) ;;
        modify (updb h (fun bf => with_refcnt (f (b_refcnt bf)) bf)) ;;
        b_spin (release_word (c_hart x))) s
    (fun _ s' => cache_step s s' (v_view s) (v_disk s) (upd_at (v_refs s) b (f (v_refs s b)))
                   (v_held s) (v_room s) []).
Proof.
  intros I Hh Hf. pose proof (held_inv s b h I Hh) as (Hk & H1 & H2 & Hok & H4 & H5 & H6 & H7 & H8).
  eapply runs_eq; [apply crit_modify; [apply I|done]|].
  rewrite H7 in Hf |- *.
  eapply cache_step_ext; [eapply (step_same s _ h (with_refcnt (f (b_refcnt (getb h s))) (getb h s)) (bc_disk s) [])| | | | |];
    try done; rewrite ?H2.
  - apply upd1_insert; try done; [apply I|cbn; by rewrite app_nil_r].
  - apply buf_ok_core. destruct Hok. split; try done; cbn; lia.
  - apply (tk_disk x dv _ _ (bi_tbl x dv s I)).
  - intros b'. apply upd_at_id. done.
  - done.
  - intros b'. apply upd_at_id. cbn [b_lock with_refcnt]. by rewrite H4.
  - cbn [b_refcnt with_refcnt]. rewrite !decide_False by lia. lia.
Qed.

Lemma pin_law s b h :
  binv s -> v_held s b = Some h -> v_refs s b < 2 ^ 31 ->
  runs (bpin x h) s (fun _ s' =>
    cache_step s s' (v_view s) (v_disk s) (upd_at (v_refs s) b (v_refs s b + 1)) (v_held s) (v_room s) []).
Proof.
  intros I Hh Hr. pose proof (held_inv s b h I Hh) as (_ & _ & _ & _ & _ & _ & H6 & H7 & _).
  assert (E : u32 (v_refs s b + 1) = v_refs s b + 1) by (apply u32_small; lia).
  eapply runs_mono; [apply (refcnt_law (fun r => u32 (r + 1)) s b h); try done; lia|].
  intros ? s'. cbn beta. by rewrite E.
Qed.

Lemma unpin_law s b h :
  binv s -> v_held s b = Some h -> 1 < v_refs s b ->
  runs (bunpin x h) s (fun _ s' =>
    cache_step s s' (v_view s) (v_disk s) (upd_at (v_refs s) b (v_refs s b - 1)) (v_held s) (v_room s) []).
Proof.
  intros I Hh Hr. pose proof (held_inv s b h I Hh) as (_ & _ & _ & [? ? Href] & _ & _ & H6 & H7 & _).
  assert (E : u32 (v_refs s b - 1) = v_refs s b - 1) by (apply u32_small; lia).
  eapply runs_mono; [apply (refcnt_law (fun r => u32 (r - 1)) s b h); try done; lia|].
  intros ? s'. cbn beta. by rewrite E.
Qed.

Lemma write_law s b h :
  binv s -> v_held s b = Some h ->
  runs (bwrite x h) s (fun _ s' =>
    cache_step s s' (v_view s) (upd_at (v_disk s) b (v_view s b)) (v_refs s) (v_held s)
      (v_room s) [(b, v_view s b)]).
Proof.
  intros I Hh. pose proof (held_inv s b h I Hh) as (Hk & H1 & H2 & Hok & H4 & H5 & H6 & H7 & H8).
  pose proof (bi_len x dv s I) as Hlen.
  unfold bwrite. apply runs_bind. eapply runs_eq; [apply b_sleep_holding; try done; [lia|apply Hok]|].
  cbn [negb]. unfold virtio_disk_rw. apply runs_modify. rewrite H8.
  assert (Hdk : forall b', disk_get (<[b_blockno (getb h s):=b_data (getb h s)]> (bc_disk s)) b' =
                           upd_at (disk_get (bc_disk s)) b (b_data (getb h s)) b').
  { intros b'. unfold disk_get, upd_at. rewrite lookup_insert, H2. repeat case_decide; subst; (done || congruence). }
  eapply cache_step_ext;
    [eapply (step_same s _ h (getb h s) (<[b_blockno (getb h s):=b_data (getb h s)]> (bc_disk s)))| | | | |];
    try done; rewrite ?H2.
  - apply upd1_insert; try done.
    + symmetry. apply list_insert_id. apply list_lookup_lookup_total_lt. lia.
    + apply I.
  - apply buf_ok_core. destruct Hok. split; try done; cbn. intros; lia.
  - intros b' Hb'. rewrite <- H2, Hdk. unfold upd_at. by rewrite decide_False.
  - rewrite <- H2, Hdk. unfold upd_at. rewrite decide_True by done. apply Hok.
  - intros b'. by apply upd_at_id.
  - intros b'. by apply upd_at_id.
  - intros b'. apply upd_at_id. by rewrite H4.
  - lia.
Qed.

(** *** bread *)
Lemma list_find_unique (P : nat -> Prop) {HP : forall i, Decision (P i)} (l : list nat) k :
  k ∈ l -> P k -> (forall i, i ∈ l -> P i -> i = k) -> snd <$> list_find P l = Some k.
Proof.
  intros Hk HPk Hu. destruct (list_find P l) as [[i j]|] eqn:E.
  - apply list_find_Some in E as (Hi & Hj & _). cbn. f_equal.
    apply Hu; [by eapply list_elem_of_lookup_2|done].
  - apply list_find_None in E. rewrite Forall_forall in E. by destruct (E k).
Qed.

Lemma walk_next_inv s t l b :
  binv s -> ring (nx s) (pv s) l -> bc_buf t = bc_buf s ->
  walk_list (S NBUFn) b_next (fun bf => (b_dev bf =? dv) && (b_blockno bf =? b)) (b_next (getb HEAD t)) t = Some (find_buf dv (table s) b).
Proof.
  intros I R Ht. pose proof (ring_facts _ _ _ R) as (Hnd & Hl & Hin).
  assert (Hg : forall i, getb i t = getb i s) by (intros; unfold getb; by rewrite Ht).
  rewrite Hg. change (b_next (getb HEAD s)) with (nx s HEAD).
  rewrite (walk_next_spec (nx s) (pv s) _ t HEAD l); [|by intros; unfold nx; rewrite Hg|apply R| |lia].
  2:{ by apply NoDup_cons in Hnd as [? _]. }
  f_equal.
  assert (Heq : forall i, (b_dev (getb i t) =? dv) && (b_blockno (getb i t) =? b) = match_buf dv (table s) b i) by (intros; by rewrite Hg).
  destruct (find_buf dv (table s) b) as [k|] eqn:E.
  - pose proof E as (Hk & E1 & E2)%(find_buf_Some x dv _ (bc_disk s)); [|apply I].
    apply list_find_unique; [by apply Hin|rewrite Heq; by apply match_buf_true|].
    intros i Hi%Hin. rewrite Heq. intros [F1 F2]%match_buf_true.
    apply (tk_uniq x dv _ _ (bi_tbl x dv s I)); try done; congruence.
  - rewrite find_buf_None in E. rewrite fmap_None, list_find_None, Forall_forall.
    intros i Hi%Hin. rewrite Heq, match_buf_true. by apply E.
Qed.

Lemma walk_prev_inv s t l :
  binv s -> ring (nx s) (pv s) l -> bc_buf t = bc_buf s ->
  walk_list (S NBUFn) b_prev (fun b => b_refcnt b =? 0) (b_prev (getb HEAD t)) t =
    Some (snd <$> list_find (fun i => (b_refcnt (getb i s) =? 0) = true) (reverse l)).
Proof.
  intros I R Ht. pose proof (ring_facts _ _ _ R) as (Hnd & Hl & Hin).
  assert (Hg : forall i, getb i t = getb i s) by (intros; unfold getb; by rewrite Ht).
  rewrite Hg. change (b_prev (getb HEAD s)) with (pv s HEAD).
  rewrite (walk_prev_spec (nx s) (pv s) _ t HEAD l); [|by intros; unfold pv; rewrite Hg|apply R| |lia].
  2:{ by apply NoDup_cons in Hnd as [? _]. }
  do 2 f_equal. unfold getb. by rewrite Ht.
Qed.

Definition take_lock (bf : buf) : buf :=
  with_lock (Sleeplock 1 (sl_lk (b_lock bf)) (sl_name (b_lock bf)) (c_pid x)) bf.

Lemma set_lk_updb l i f s : set_lk l (updb i f s) = updb i f (set_lk l s).
Proof. done. Qed.
Lemma set_lk_lk l l' s : set_lk l (set_lk l' s) = set_lk l s.
Proof. done. Qed.
Lemma set_lk_id s : set_lk (bc_lock s) s = s.
Proof. by destruct s. Qed.

(** The end of both branches of [bget]. *)
Lemma bget_finish f k s :
  binv s -> (k < NBUFn)%nat -> sl_locked (b_lock (getb k s)) = 0 ->
  b_lock (f (getb k s)) = b_lock (getb k s) ->
  (modify (updb k f) ;; b_spin (release_word (c_hart x)) ;; b_sleep k (acquiresleep x (b_chan k)) ;; ret k)
    (set_lk (Spinlock 1 (lk_name (bc_lock s)) (Some (c_hart x))) s) =
    (Ret k, updb k (fun bf => take_lock (f bf)) s).
Proof.
  intros I Hk Hl Hf. pose proof (bi_len x dv s I) as Hlen.
  pose proof (tk_buf x dv _ _ (bi_tbl x dv s I) k Hk) as Hok.
  unfold bind, modify. rewrite (b_spin_release _ (lk_name (bc_lock s))) by done.
  rewrite set_lk_updb, set_lk_lk, <- (lk_free_eq _ (bi_lock x dv s I)), set_lk_id.
  rewrite b_sleep_acquire; rewrite getb_updb, decide_True, ?Hf by (done || lia).
  - unfold ret. f_equal. rewrite updb_updb by lia.
    unfold updb. f_equal. f_equal. unfold take_lock. by rewrite Hf.
  - apply Hok.
  - done.
Qed.

Lemma bread_hit s b k :
  binv s -> find_buf dv (table s) b = Some k -> v_held s b = None ->
  bread x dv b s = (Ret k, updb k (fun bf => take_lock (with_refcnt (u32 (b_refcnt bf + 1)) bf)) s).
Proof.
  intros I Hf Hh. destruct (bi_ring x dv s I) as [l R].
  pose proof Hf as (Hk & E1 & E2)%(find_buf_Some x dv _ (bc_disk s)); [|apply I].
  pose proof (bi_len x dv s I) as Hlen.
  assert (Hun : sl_locked (b_lock (getb k s)) = 0).
  { cbn in Hh. unfold t_held in Hh. rewrite Hf in Hh.
    destruct (Z.eqb_spec (sl_locked (b_lock (table s k))) 0) as [E|]; [exact E|done]. }
  assert (Hv : b_valid (getb k s) = 1).
  { destruct (bo_id x dv _ _ (tk_buf x dv _ _ (bi_tbl x dv s I) k Hk)) as [[_ H]|[H _]]; [exact H|].
    cbn in E1, H. congruence. }
  unfold bread. unfold bind at 1. unfold bget. unfold bind at 1.
  rewrite b_spin_acquire by apply I. unfold bind at 1, get.
  rewrite (walk_next_inv s _ l) by done. rewrite Hf. cbn iota beta.
  rewrite bget_finish by done.
  unfold bind, gets, ret. rewrite getb_updb, decide_True by (done || lia).
  cbn [take_lock with_lock with_refcnt b_valid]. by rewrite Hv.
Qed.

(** The buffer [bget] recycles: the least recently used idle one. *)
Definition lru_idle (s : bst) (l : list nat) : option nat :=
  snd <$> list_find (fun i => (b_refcnt (getb i s) =? 0) = true) (reverse l).

Lemma bread_miss s b l k :
  binv s -> ring (nx s) (pv s) l -> find_buf dv (table s) b = None -> lru_idle s l = Some k ->
  bread x dv b s =
    (Ret k, updb k (fun bf => with_valid 1 (with_data (disk_get (bc_disk s) b)
                      (take_lock (with_refcnt 1 (with_valid 0 (with_id dv b bf)))))) s) /\
  (k < NBUFn)%nat /\ b_refcnt (getb k s) = 0.
Proof.
  intros I R Hf Hk. pose proof (bi_len x dv s I) as Hlen.
  pose proof (ring_facts _ _ _ R) as (_ & _ & Hin).
  assert (Hk' : (k < NBUFn)%nat /\ b_refcnt (getb k s) = 0).
  { unfold lru_idle in Hk. apply fmap_Some in Hk as ([i j] & E & ->).
    apply list_find_Some in E as (Hi & Hr & _). cbn. split; [|by apply Z.eqb_eq].
    apply Hin. apply elem_of_reverse. by eapply list_elem_of_lookup_2. }
  destruct Hk' as [HkN Hr]. split; [|done].
  assert (Hun : sl_locked (b_lock (getb k s)) = 0).
  { destruct (bo_held x dv _ _ (tk_buf x dv _ _ (bi_tbl x dv s I) k HkN)) as [H|(_ & _ & H)]; [exact H|].
    cbn in H. lia. }
  unfold bread. unfold bind at 1. unfold bget. unfold bind at 1.
  rewrite b_spin_acquire by apply I. unfold bind at 1, get.
  rewrite (walk_next_inv s _ l) by done. rewrite Hf.
  rewrite (walk_prev_inv s _ l) by done. unfold lru_idle in Hk. rewrite Hk. cbn iota beta.
  set (sL := set_lk _ s).
  assert (Hfuse : forall m : M bst nat,
    (modify (updb k (with_id dv b)) ;; modify (updb k (with_valid 0)) ;; modify (updb k (with_refcnt 1)) ;; m) sL =
    (modify (updb k (fun bf => with_refcnt 1 (with_valid 0 (with_id dv b bf)))) ;; m) sL).
  { intros m. unfold bind, modify. by rewrite !updb_updb by (rewrite ?length_updb; unfold sL; cbn; lia). }
  rewrite Hfuse. unfold sL. rewrite bget_finish by done.
  unfold bind, gets, ret. rewrite getb_updb, decide_True by (done || lia).
  cbn [take_lock with_lock with_refcnt with_valid b_valid]. rewrite Z.eqb_refl.
  unfold virtio_disk_rw, modify. rewrite getb_updb, decide_True by (done || lia).
  rewrite !updb_updb by (rewrite ?length_updb; lia). done.
Qed.

Lemma room_pos s l :
  binv s -> ring (nx s) (pv s) l -> 0 < v_room s <-> is_Some (lru_idle s l).
Proof.
  intros I R. pose proof (ring_facts _ _ _ R) as (_ & _ & Hin).
  unfold lru_idle. rewrite fmap_is_Some. cbn. unfold t_room. split.
  - intros H. destruct (filter _ _) as [|i t] eqn:E; [cbn in H; lia|].
    assert (Hi : i ∈ filter (fun i => b_refcnt (table s i) = 0) (seq 0 NBUFn)) by (rewrite E; by left).
    apply list_elem_of_filter in Hi as [Hr Hi%elem_of_seq].
    destruct (list_find _ (reverse l)) as [|] eqn:F; [done|].
    apply list_find_None in F. rewrite Forall_forall in F. destruct (F i).
    + apply elem_of_reverse, Hin. lia.
    + apply Z.eqb_eq. exact Hr.
  - intros [[i j] E]. apply list_find_Some in E as (Hi & Hr & _). apply Z.eqb_eq in Hr.
    apply list_elem_of_lookup_2, elem_of_reverse, Hin in Hi.
    destruct (filter _ _) as [|c t] eqn:F; [|cbn; lia].
    assert (Hj : j ∈ filter (fun i => b_refcnt (table s i) = 0) (seq 0 NBUFn)).
    { apply list_elem_of_filter. split; [exact Hr|apply elem_of_seq; lia]. }
    rewrite F in Hj. by apply elem_of_nil in Hj.
Qed.

Lemma read_law s b :
  binv s -> v_held s b = None -> 0 < v_refs s b \/ 0 < v_room s -> v_refs s b < 2 ^ 31 ->
  runs (bread x dv b) s (fun h s' =>
    cache_step s s' (v_view s) (v_disk s) (upd_at (v_refs s) b (v_refs s b + 1))
      (upd_at (v_held s) b (Some h))
      (if decide (v_refs s b = 0) then v_room s - 1 else v_room s) []).
Proof.
  intros I Hh Hroom Hr. destruct (find_buf dv (table s) b) as [k|] eqn:Hf.
  - eapply runs_eq; [by apply bread_hit|]. cbn beta.
    pose proof Hf as (Hk & E1 & E2)%(find_buf_Some x dv _ (bc_disk s)); [|apply I].
    pose proof (tk_buf x dv _ _ (bi_tbl x dv s I) k Hk) as [K1 K2 K3 K4 K5 K6]. cbn in *.
    assert (Hrf : t_refs dv (table s) b = b_refcnt (getb k s)) by (unfold t_refs; by rewrite Hf).
    assert (Hu : u32 (b_refcnt (getb k s) + 1) = b_refcnt (getb k s) + 1).
    { apply u32_small. lia. }
    eapply cache_step_ext; [eapply (step_same s _ k (take_lock (with_refcnt (u32 (b_refcnt (getb k s) + 1)) (getb k s))) (bc_disk s) [])| | | | |];
      try done; [apply upd1_insert; try done; [apply I|cbn; by rewrite app_nil_r]|..];
      cbn -[u32]; rewrite ?E2, ?Hu.
    + apply buf_ok_core. split; cbn -[u32]; rewrite ?Hu; try done; try lia.
    + apply (tk_disk x dv _ _ (bi_tbl x dv s I)).
    + intros b'. apply upd_at_id. unfold t_view. by rewrite Hf.
    + intros b'. by rewrite Hrf.
    + done.
    + rewrite Hrf. rewrite (decide_False (P := b_refcnt (getb k s) + 1 = 0)) by lia.
      case_decide; lia.
  - destruct (bi_ring x dv s I) as [l R].
    assert (Hr0 : t_refs dv (table s) b = 0) by (unfold t_refs; by rewrite Hf).
    assert (Hpos : 0 < v_room s) by (cbn in *; lia).
    apply (room_pos s l I R) in Hpos as [k Hk].
    destruct (bread_miss s b l k I R Hf Hk) as (Hrun & HkN & Hk0).
    eapply runs_eq; [exact Hrun|]. cbn beta. clear Hrun.
    match goal with |- cache_step s (updb k ?f s) _ _ _ _ _ _ => set (bf := f (getb k s)); set (s' := updb k f s) end.
    pose proof (bi_len x dv s I) as Hlen.
    pose proof (tk_buf x dv _ _ (bi_tbl x dv s I) k HkN) as [K1 K2 K3 K4 K5 K6]. cbn in *.
    assert (U : upd1 s s' k bf (bc_disk s) []).
    { apply upd1_insert; try done; [apply I|by rewrite app_nil_r]. }
    assert (Hok : buf_ok x dv (bc_disk s) (table s' k)).
    { rewrite (u_k _ _ _ _ _ _ U). apply buf_ok_core. split; cbn; try done; try lia; auto.
      apply (tk_disk x dv _ _ (bi_tbl x dv s I)). }
    assert (Hid : b_dev (table s' k) = dv /\ b_blockno (table s' k) = b).
    { by rewrite (u_k _ _ _ _ _ _ U). }
    pose proof (u_other _ _ _ _ _ _ U) as Uo.
    split; cbn.
    + split; [by rewrite (u_len _ _ _ _ _ _ U)|apply U|apply U|].
      eapply (recycle_tbl x dv (table s)); eauto. apply I.
    + intros b'. eapply (recycle_view x dv (table s)); eauto; [apply I|].
      by rewrite (u_k _ _ _ _ _ _ U).
    + done.
    + intros b'. eapply (recycle_refs x dv (table s)); eauto; [apply I|].
      by rewrite (u_k _ _ _ _ _ _ U).
    + intros b'. eapply (recycle_held x dv (table s)); eauto; [apply I|].
      by rewrite (u_k _ _ _ _ _ _ U).
    + rewrite (room_upd (table s) (table s') k) by done. rewrite (u_k _ _ _ _ _ _ U).
      rewrite Hr0. change (b_refcnt (table s k)) with (b_refcnt (getb k s)). rewrite Hk0.
      cbn. rewrite !(decide_True (P := 0 = 0)), (decide_False (P := 1 = 0)) by done. lia.
    + by rewrite app_nil_r.
Qed.

(** *** brelse *)
Definition relink (b : nat) : M bst unit :=
  modify (fun s => updb (b_next (getb b s)) (with_prev (b_prev (getb b s))) s) ;;
  modify (fun s => updb (b_prev (getb b s)) (with_next (b_next (getb b s))) s) ;;
  modify (fun s => updb b (with_next (b_next (getb HEAD s))) s) ;;
  modify (updb b (with_prev HEAD)) ;;
  modify (fun s => updb (b_next (getb HEAD s)) (with_prev b) s) ;;
  modify (updb HEAD (with_next b)).

(** The neighbours of a buffer in the ring are other nodes of it. *)
Lemma ring_neighbours f p l1 b l2 :
  ring f p (l1 ++ b :: l2) ->
  (b < NBUFn)%nat /\
  (forall i, i ∈ HEAD :: l1 ++ l2 ++ [HEAD] -> (i < S NBUFn)%nat /\ i <> b) /\
  f b ∈ HEAD :: l1 ++ l2 ++ [HEAD] /\ p b ∈ HEAD :: l1 ++ l2 ++ [HEAD].
Proof.
  intros R. pose proof (ring_facts _ _ _ R) as (Hnd & Hl & Hin). destruct R as [Hperm HL].
  rewrite <- app_assoc in HL. cbn [app] in HL. split_and!.
  - apply Hin, elem_of_app. right. by left.
  - intros i Hi. assert (Hi' : i = HEAD \/ i ∈ l1 \/ i ∈ l2) by set_solver.
    assert (Hb : (b < NBUFn)%nat) by (apply Hin, elem_of_app; right; by left).
    destruct Hi' as [->|Hi']; [unfold HEAD; lia|]. split; [apply Nat.lt_lt_succ_r, Hin; set_solver|].
    intros ->. apply NoDup_cons in Hnd as [_ Hnd]. apply NoDup_app in Hnd as (_ & H1 & H2).
    destruct Hi' as [Hi'|Hi']; [apply (H1 b Hi'); by left|by apply NoDup_cons in H2 as [? _]].
  - destruct (l2 ++ [HEAD]) as [|n B] eqn:E; [by destruct l2|].
    destruct (linked_next f p (HEAD :: l1) b n B) as [-> _]; [exact HL|]. set_solver.
  - destruct (exists_last (l := HEAD :: l1) ltac:(done)) as (A & c & HA).
    destruct (linked_next f p A c b (l2 ++ [HEAD])) as [_ ->].
    { change (linked f p ((HEAD :: l1) ++ b :: l2 ++ [HEAD])) in HL.
      rewrite HA in HL. by rewrite <- app_assoc in HL. }
    change (c ∈ (HEAD :: l1) ++ l2 ++ [HEAD]). rewrite HA. set_solver.
Qed.

(** Unlinking and pushing, as functions on the links. *)
Lemma ring_to_front f p l1 b l2 f2 p2 :
  ring f p (l1 ++ b :: l2) ->
  (forall i, f2 i = updn f (p b) (f b) i) -> (forall i, p2 i = updn p (f b) (p b) i) ->
  ring (updn (updn f2 b (f2 HEAD)) HEAD b) (updn (updn p2 b HEAD) (f2 HEAD) b) (b :: l1 ++ l2) /\
  (f2 HEAD < S NBUFn)%nat.
Proof.
  intros R Hf2 Hp2. pose proof (ring_neighbours _ _ _ _ _ R) as (_ & Hnb & _).
  pose proof (ring_facts _ _ _ R) as (Hnd & _ & _). destruct R as [Hperm HL].
  rewrite <- app_assoc in HL. cbn [app] in HL.
  pose proof (linked_unlink _ _ _ _ _ _ HL Hnd) as HU.
  assert (HU2 : linked f2 p2 (HEAD :: (l1 ++ l2) ++ [HEAD])).
  { rewrite <- app_assoc. exact (linked_ext _ _ _ _ _ (fun i _ => Hf2 i) (fun i _ => Hp2 i) HU). }
  split.
  - split; [rewrite <- Hperm; apply Permutation_middle|]. cbn [app].
    apply linked_push; [done| | |].
    + intros Hb. apply (Hnb b); [|done]. set_solver.
    + apply NoDup_cons in Hnd as [Hnd _]. set_solver.
    + apply NoDup_cons in Hnd as [_ Hnd]. apply NoDup_ListNoDup, (NoDup_remove_1 l1 l2 b).
      by apply NoDup_ListNoDup.
  - rewrite <- app_assoc in HU2. destruct (l1 ++ l2 ++ [HEAD]) as [|c T] eqn:ET; [by destruct l1, l2|].
    destruct HU2 as (-> & _). apply (Hnb c). set_solver.
Qed.

(** The relinking moves [b] to the front and touches nothing but links. *)
Lemma relink_spec s l1 b l2 :
  length (bc_buf s) = S NBUFn -> ring (nx s) (pv s) (l1 ++ b :: l2) ->
  runs (relink b) s (fun _ s' =>
    ring (nx s') (pv s') (b :: l1 ++ l2) /\ (forall j, table s' j = table s j) /\
    length (bc_buf s') = length (bc_buf s) /\ bc_lock s' = bc_lock s /\
    bc_disk s' = bc_disk s /\ bc_trace s' = bc_trace s).
Proof.
  intros Hlen R. pose proof (ring_neighbours _ _ _ _ _ R) as (HbN & Hnb & Hn & Hp).
  pose proof (Hnb _ Hn) as [Hn1 Hn2]. pose proof (Hnb _ Hp) as [Hp1 Hp2].
  unfold relink. repeat mstep.
  change (b_next (getb b s)) with (nx s b). change (b_prev (getb b s)) with (pv s b).
  set (s1 := updb (nx s b) (with_prev (pv s b)) s).
  assert (L1 : length (bc_buf s1) = S NBUFn) by (subst s1; by rewrite length_updb).
  assert (E1 : b_prev (getb b s1) = pv s b /\ b_next (getb b s1) = nx s b).
  { subst s1. rewrite getb_updb, decide_False by lia. done. }
  destruct E1 as [-> ->].
  set (s2 := updb (pv s b) (with_next (nx s b)) s1).
  assert (L2 : length (bc_buf s2) = S NBUFn) by (subst s2; by rewrite length_updb).
  destruct (ring_to_front _ _ _ _ _ (nx s2) (pv s2) R) as [R' Ht].
  { intros j. subst s2. rewrite nx_with_next by lia. unfold updn. case_decide; [done|].
    subst s1. by rewrite nx_with_prev by lia. }
  { intros j. subst s2. rewrite pv_with_next by lia. subst s1. by rewrite pv_with_prev by lia. }
  change (b_next (getb HEAD s2)) with (nx s2 HEAD).
  set (s3 := updb b (with_next (nx s2 HEAD)) s2).
  assert (L3 : length (bc_buf s3) = S NBUFn) by (subst s3; by rewrite length_updb).
  set (s4 := updb b (with_prev HEAD) s3).
  assert (L4 : length (bc_buf s4) = S NBUFn) by (subst s4; by rewrite length_updb).
  assert (Et : b_next (getb HEAD s4) = nx s2 HEAD).
  { subst s4 s3. rewrite !getb_updb, !decide_False by (rewrite ?length_updb; unfold HEAD in *; lia). done. }
  rewrite Et.
  set (s5 := updb (nx s2 HEAD) (with_prev b) s4).
  assert (L5 : length (bc_buf s5) = S NBUFn) by (subst s5; by rewrite length_updb).
  split_and!; [| |rewrite length_updb; lia|done|done|done].
  - revert R'. apply ring_ext; intros j _.
    + rewrite nx_with_next by (unfold HEAD; lia). unfold updn.
      destruct (decide (j = HEAD)); [done|]. subst s5 s4. rewrite !nx_with_prev by lia.
      subst s3. by rewrite nx_with_next by lia.
    + rewrite pv_with_next by (unfold HEAD; lia).
      subst s5. rewrite pv_with_prev by lia. unfold updn.
      destruct (decide (j = nx s2 HEAD)); [done|].
      subst s4. rewrite pv_with_prev by lia. unfold updn. destruct (decide (j = b)); [done|].
      subst s3. by rewrite pv_with_next by lia.
  - intros j. rewrite table_with_next by (unfold HEAD; lia).
    subst s5 s4. rewrite !table_with_prev by lia. subst s3. rewrite table_with_next by lia.
    subst s2. rewrite table_with_next by lia. subst s1. by rewrite table_with_prev by lia.
Qed.

Definition drop_ref (bf : buf) : buf :=
  with_refcnt (u32 (b_refcnt bf - 1))
    (with_lock (Sleeplock 0 (sl_lk (b_lock bf)) (sl_name (b_lock bf)) 0) bf).

(** [brelse] on a held buffer: unlock, drop the reference, and move the
    buffer to the front when that was the last one. *)
Lemma brelse_run s b h l1 l2 :
  binv s -> v_held s b = Some h -> ring (nx s) (pv s) (l1 ++ h :: l2) ->
  runs (brelse x h) s (fun _ s' =>
    upd1 s s' h (drop_ref (getb h s)) (bc_disk s) [] /\
    (v_refs s b = 1 -> ring (nx s') (pv s') (h :: l1 ++ l2)) /\
    (v_refs s b <> 1 -> ring (nx s') (pv s') (l1 ++ h :: l2))).
Proof.
  intros I Hh R. pose proof (held_inv s b h I Hh) as (Hk & H1 & H2 & Hok & H4 & H5 & H6 & H7 & H8).
  pose proof (bi_len x dv s I) as Hlen. pose proof (bi_lock x dv s I) as Hfree.
  unfold brelse. apply runs_bind. eapply runs_eq; [apply b_sleep_holding; try done; [lia|apply Hok]|].
  cbn [negb]. apply runs_bind. eapply runs_eq; [apply b_sleep_release, Hok|].
  apply runs_bind. eapply runs_eq; [by apply b_spin_acquire|]. apply runs_bind, runs_modify.
  apply runs_bind, runs_gets.
  match goal with |- runs _ ?t _ => set (s1 := t) end.
  assert (Hbuf : bc_buf s1 = <[h := drop_ref (getb h s)]> (bc_buf s)).
  { subst s1. unfold updb, set_lk, set_woken, set_bufs, getb; cbn -[u32].
    rewrite list_lookup_total_insert_eq by lia. apply list_insert_insert_eq. }
  assert (Hg : forall j, getb j s1 = if decide (h = j) then drop_ref (getb h s) else getb j s).
  { intros j. unfold getb at 1. rewrite Hbuf. case_decide; [subst; apply list_lookup_total_insert_eq; lia|].
    by apply list_lookup_total_insert_ne. }
  assert (HT : (forall j, (j < NBUFn)%nat -> j <> h -> table s1 j = table s j) /\ table s1 h = core (drop_ref (getb h s))).
  { split; [intros j Hj Hne|]; unfold table; rewrite Hg; by case_decide; subst. }
  destruct HT as [HT1 HT2].
  assert (R1 : ring (nx s1) (pv s1) (l1 ++ h :: l2)).
  { revert R. apply ring_ext; intros i _; unfold nx, pv; rewrite Hg; by case_decide; subst. }
  assert (L1 : length (bc_buf s1) = length (bc_buf s)) by (by rewrite Hbuf, length_insert).
  rewrite Hg, decide_True by done. cbn [drop_ref with_refcnt b_refcnt].
  rewrite u32_small by (destruct (bo_ref x dv _ _ Hok); lia). rewrite H7.
  destruct (Z.eqb_spec (b_refcnt (getb h s) - 1) 0) as [E|E].
  - eapply runs_seq; [apply (relink_spec s1 l1 h l2); [lia|done]|].
    intros _ s2 (R2 & T2 & L2 & K2 & D2 & Tr2).
    eapply runs_eq; [by apply (b_spin_release s2 (lk_name (bc_lock s)))|].
    assert (HTr : bc_trace s2 = bc_trace s ++ []) by (rewrite Tr2, app_nil_r; done).
    split_and!; [|by intros _|lia].
    split; try done; [cbn; lia|by eexists|intros j Hj Hne|].
    + rewrite <- (HT1 j Hj Hne). apply T2.
    + rewrite <- HT2. apply T2.
  - apply runs_bind, runs_ret.
    eapply runs_eq; [by apply (b_spin_release s1 (lk_name (bc_lock s)))|].
    split_and!; [|lia|by intros _].
    split; try done; [by eexists|by rewrite app_nil_r].
Qed.

Lemma relse_law s b h :
  binv s -> v_held s b = Some h -> (v_refs s b = 1 -> v_view s b = v_disk s b) ->
  runs (brelse x h) s (fun _ s' =>
    cache_step s s' (v_view s) (v_disk s) (upd_at (v_refs s) b (v_refs s b - 1))
      (upd_at (v_held s) b None)
      (if decide (v_refs s b = 1) then v_room s + 1 else v_room s) []).
Proof.
  intros I Hh Hcl. pose proof (held_inv s b h I Hh) as (Hk & H1 & H2 & Hok & H4 & H5 & H6 & H7 & H8).
  destruct (bi_ring x dv s I) as [l R]. pose proof (ring_facts _ _ _ R) as (_ & _ & Hin).
  destruct (list_elem_of_split l h (proj2 (Hin h) Hk)) as (l1 & l2 & ->).
  eapply runs_mono; [by apply (brelse_run s b h l1 l2)|].
  intros _ s' (U & _ & _).
  assert (Hu : u32 (b_refcnt (getb h s) - 1) = v_refs s b - 1).
  { rewrite H7. apply u32_small. destruct (bo_ref x dv _ _ Hok). lia. }
  eapply cache_step_ext; [eapply (step_same s _ h (drop_ref (getb h s)) (bc_disk s) [])| | | | |]; try done;
    cbn -[u32 v_refs v_view v_held v_room]; rewrite ?H2, ?Hu.
  - apply buf_ok_core. destruct Hok as [K1 K2 K3 K4 K5 K6]. rewrite H7 in Hu.
    split; cbn -[u32]; rewrite ?Hu; try done; try lia.
    intros _ Hz. rewrite H2. rewrite <- H8. apply Hcl. lia.
  - apply (tk_disk x dv _ _ (bi_tbl x dv s I)).
  - intros b'. by apply upd_at_id.
  - done.
  - done.
  - rewrite H7. rewrite (decide_False (P := b_refcnt (getb h s) = 0)) by lia.
    repeat case_decide; lia.
Qed.

(** bio.c implements the interface. *)
Lemma bio_laws : @BufCacheLaws bst bio_cache bio_view dv.
Proof.
  split.
  - exact read_law.
  - exact relse_law.
  - exact write_law.
  - exact pin_law.
  - exact unpin_law.
  - exact set_data_law.
  - intros s b h I Hh. by pose proof (held_inv s b h I Hh) as (_ & _ & _ & _ & _ & _ & _ & _ & ->).
  - intros s b h I Hh. by pose proof (held_inv s b h I Hh) as (_ & _ & H & _).
  - intros s b I. cbn. unfold t_view. destruct (find_buf dv (table s) b) as [i|] eqn:E.
    + apply (find_buf_Some x dv _ (bc_disk s)) in E as (Hi & _); [|apply I].
      apply (tk_buf x dv _ _ (bi_tbl x dv s I) i Hi).
    + apply (tk_disk x dv _ _ (bi_tbl x dv s I)).
  - intros s b I. split.
    + cbn. unfold t_refs. destruct (find_buf dv (table s) b) as [i|] eqn:E; [|lia].
      apply (find_buf_Some x dv _ (bc_disk s)) in E as (Hi & _); [|apply I].
      apply (tk_buf x dv _ _ (bi_tbl x dv s I) i Hi).
    + intros Hh. destruct (v_held s b) as [h|] eqn:E; [|done].
      pose proof (held_inv s b h I E) as (_ & _ & _ & _ & _ & _ & H6 & H7 & _). lia.
  - intros s b I. cbn. unfold t_refs, t_view.
    destruct (find_buf dv (table s) b) as [i|] eqn:E; [|done]. intros Hr.
    apply (find_buf_Some x dv _ (bc_disk s)) in E as (Hi & E1 & <-); [|apply I].
    by apply (tk_buf x dv _ _ (bi_tbl x dv s I) i Hi).
Qed.
End op_lemmas.

(** ** Boot *)

(** Static storage as the loader leaves it: every field zero. *)
Definition bcache_boot (d : gmap Z block) : bst :=
  Bst (Spinlock 0 "" None) (replicate (S NBUFn) buf0) d [] [].

Definition buf_init : buf := with_lock (initsleeplock "buffer") buf0.

(** The state after [k] iterations of [binit]'s loop. *)
Record binit_inv (d : gmap Z block) (k : nat) (s : bst) : Prop := {
  bt_len : length (bc_buf s) = S NBUFn;
  bt_lock : bc_lock s = initlock "bcache";
  bt_disk : bc_disk s = d;
  bt_trace : bc_trace s = [];
  bt_linked : linked (nx s) (pv s) (HEAD :: reverse (seq 0 k) ++ [HEAD]);
  bt_core : forall j, (j < NBUFn)%nat -> table s j = core (if decide (j < k)%nat then buf_init else buf0);
}.

Definition binit_body (b : nat) (s : bst) : bst :=
  let s := updb b (with_next (b_next (getb HEAD s))) s in
  let s := updb b (with_prev HEAD) s in
  let s := updb b (with_lock (initsleeplock "buffer")) s in
  let s := updb (b_next (getb HEAD s)) (with_prev b) s in
  updb HEAD (with_next b) s.

Lemma nx_with_lock i v s j : (i < length (bc_buf s))%nat -> nx (updb i (with_lock v) s) j = nx s j.
Proof. intros. unfold nx. rewrite getb_updb by done. case_decide; by subst. Qed.
Lemma pv_with_lock i v s j : (i < length (bc_buf s))%nat -> pv (updb i (with_lock v) s) j = pv s j.
Proof. intros. unfold pv. rewrite getb_updb by done. case_decide; by subst. Qed.

Lemma binit_body_inv d k s : (k < NBUFn)%nat -> binit_inv d k s -> binit_inv d (S k) (binit_body k s).
Proof.
  intros Hk [L K D T HL HC]. unfold binit_body.
  set (t := b_next (getb HEAD s)).
  set (s3 := updb k (with_lock (initsleeplock "buffer")) (updb k (with_prev HEAD) (updb k (with_next t) s))).
  assert (L3 : length (bc_buf s3) = S NBUFn) by (subst s3; by rewrite !length_updb).
  assert (Ht : b_next (getb HEAD s3) = t).
  { subst s3. rewrite !getb_updb, !decide_False by (rewrite ?length_updb; unfold HEAD; lia). done. }
  rewrite Ht.
  assert (HtN : (t < S NBUFn)%nat).
  { change t with (nx s HEAD). destruct k as [|k'].
    - destruct HL as (-> & _). unfold HEAD. lia.
    - rewrite seq_S, reverse_app in HL. cbn in HL. destruct HL as (-> & _). lia. }
  assert (Hlen5 : length (bc_buf (updb t (with_prev k) s3)) = S NBUFn) by (by rewrite length_updb).
  split; try done; [by rewrite length_updb| |].
  - rewrite seq_S, reverse_app. cbn [reverse rev_append app].
    eapply linked_ext; [..|apply (linked_push (nx s) (pv s) HEAD (reverse (seq 0 k)) k); [done|..]].
    + intros j _. rewrite nx_with_next by (unfold HEAD; lia). unfold updn.
      destruct (decide (j = HEAD)); [done|]. rewrite nx_with_prev by lia. subst s3.
      rewrite nx_with_lock, nx_with_prev, nx_with_next by (rewrite ?length_updb; lia). done.
    + intros j _. rewrite pv_with_next by (unfold HEAD; lia). rewrite pv_with_prev by lia. unfold updn.
      change (nx s HEAD) with t. destruct (decide (j = t)); [done|]. subst s3.
      rewrite pv_with_lock, pv_with_prev by (rewrite ?length_updb; lia). unfold updn.
      destruct (decide (j = k)); [done|]. by rewrite pv_with_next by lia.
    + rewrite elem_of_cons, elem_of_reverse, elem_of_seq. unfold HEAD. lia.
    + rewrite elem_of_reverse, elem_of_seq. unfold HEAD. lia.
    + rewrite reverse_Permutation. apply NoDup_seq.
  - intros j Hj. rewrite table_with_next, table_with_prev by (unfold HEAD; lia).
    subst s3. unfold table. rewrite !getb_updb by (rewrite ?length_updb; lia).
    destruct (decide (k = j)) as [->|Hne].
    + rewrite !(decide_True (P := j = j)) by done. rewrite decide_True by lia. specialize (HC j Hj). rewrite decide_False in HC by lia.
      unfold table in HC. destruct (getb j s). unfold core, buf_init, buf0 in *. cbn in *.
      injection HC as -> -> -> -> _ -> ->. done.
    + specialize (HC j Hj). unfold table in HC. rewrite HC.
      destruct (decide (j < k)%nat), (decide (j < S k)%nat); try lia; done.
Qed.

Lemma binit_run d :
  runs binit (bcache_boot d) (fun _ s => binit_inv d NBUFn s).
Proof.
  unfold binit. do 3 mstep. apply runs_bind.
  apply (runs_forn NBUFn 0 1 _ (fun k s => binit_inv d k s)).
  - split; [by rewrite !length_updb|done|done|done| |].
    + cbn. split_and!; try done; vm_compute; done.
    + intros j Hj. rewrite decide_False by lia. unfold table.
      rewrite !getb_updb, !decide_False by (rewrite ?length_updb; first [unfold HEAD; lia | vm_compute; lia]).
      unfold getb; cbn [bc_buf bcache_boot]. rewrite lookup_total_replicate_2 by lia. done.
  - intros k s Hk I. replace (Z.to_nat (0 + 1 * Z.of_nat k)) with k by lia.
    repeat mstep. exact (binit_body_inv d k s Hk I).
  - intros s I. apply runs_ret. exact I.
Qed.

Lemma binit_binv x dv d s :
  dv <> 0 -> (forall b, length (disk_get d b) = BSZ) -> binit_inv d NBUFn s -> binv x dv s.
Proof.
  intros Hdv Hd [L K D T HL HC]. subst d.
  assert (HC' : forall j, (j < NBUFn)%nat -> table s j = core buf_init).
  { intros j Hj. rewrite HC by done. by rewrite decide_True. }
  split; [done|by rewrite K|exists (reverse (seq 0 NBUFn)); split; [apply reverse_Permutation|done]|].
  split; [|intros i j Hi Hj E; rewrite HC' in E by done; cbn in E; congruence|done].
  intros i Hi. rewrite HC' by done. split; cbn; try done; try lia; auto.
Qed.

(** ** Properties *)

(** [binit] establishes the cache invariant: the list through the head
    contains every buffer once, in both directions, and all buffers are idle. *)
Theorem binit_establishes x dv d :
  dv <> 0 -> (forall b, length (disk_get d b) = BSZ) ->
  runs binit (bcache_boot d) (fun _ s =>
    binv x dv s /\ ring (nx s) (pv s) (reverse (seq 0 NBUFn)) /\ t_room (table s) = NBUF).
Proof.
  intros Hdv Hd. eapply runs_mono; [apply binit_run|]. intros ? s I; cbn beta in I. split_and!.
  - by apply (binit_binv x dv d).
  - split; [apply reverse_Permutation|apply (bt_linked d NBUFn s I)].
  - unfold t_room. rewrite filter_all; [by rewrite length_seq|].
    intros i Hi%elem_of_seq. rewrite (bt_core d NBUFn s I) by lia. by rewrite decide_True by lia.
Qed.

Lemma disk_get_empty b : length (disk_get ∅ b) = BSZ.
Proof. unfold disk_get. rewrite lookup_empty. apply length_replicate. Qed.

Lemma binit_establishes_witness :
  runs binit (bcache_boot ∅) (fun _ s =>
    binv (Ctx 0 1) 1 s /\ ring (nx s) (pv s) (reverse (seq 0 NBUFn)) /\ t_room (table s) = NBUF).
Proof. apply binit_establishes; [lia|exact disk_get_empty]. Defined.

(** C38. bio.c implements the buffer-cache interface: every operation keeps
    the cache invariant (one buffer per block, consistent list, idle buffers
    agree with the disk), [bread] yields the block's current contents and
    locks it, only [bwrite] changes the disk, and reference counts, locks and
    the number of idle buffers change exactly as stated. *)
Theorem bio_implements_cache x dv :
  dv <> 0 -> @BufCacheLaws bst (bio_cache x) (bio_view x dv) dv.
Proof. apply bio_laws. Qed.

Lemma bio_implements_cache_witness :
  @BufCacheLaws bst (bio_cache (Ctx 0 1)) (bio_view (Ctx 0 1) 1) 1.
Proof. apply bio_implements_cache. lia. Defined.

(** Least-recently-used replacement: releasing the last reference moves
    the buffer to the front of the list and leaves the order of the others;
    a block that is not cached goes into the idle buffer nearest the back. *)
Theorem bio_lru x dv s l :
  dv <> 0 -> binv x dv s -> ring (nx s) (pv s) l ->
  (forall b h l1 l2, t_held dv (table s) b = Some h -> t_refs dv (table s) b = 1 -> l = l1 ++ h :: l2 ->
     runs (brelse x h) s (fun _ s' => ring (nx s') (pv s') (h :: l1 ++ l2))) /\
  (forall b k, find_buf dv (table s) b = None -> lru_idle s l = Some k ->
     runs (bread x dv b) s (fun h s' => h = k /\ b_blockno (getb k s') = b /\
       b_data (getb k s') = disk_get (bc_disk s) b /\
       forall j, j <> k -> getb j s' = getb j s)).
Proof.
  intros Hdv I R. split.
  - intros b h l1 l2 Hh Hr ->. eapply runs_mono; [by apply (brelse_run x dv Hdv s b h l1 l2)|].
    intros _ s' (_ & H & _). by apply H.
  - intros b k Hf Hk. destruct (bread_miss x dv s b l k I R Hf Hk) as (Hrun & HkN & _).
    eapply runs_eq; [exact Hrun|]. pose proof (bi_len x dv s I).
    rewrite getb_updb, decide_True by (done || lia). split_and!; try done.
    intros j Hj. rewrite getb_updb, decide_False by (done || lia). done.
Qed.

Lemma bio_lru_witness :
  exists s, runs (bread (Ctx 0 1) 1 7) s (fun h s' => h = 0%nat /\ b_blockno (getb 0 s') = 7 /\
       b_data (getb 0 s') = disk_get (bc_disk s) 7 /\ forall j, j <> 0%nat -> getb j s' = getb j s).
Proof.
  destruct (binit_run ∅) as (? & s & _ & I). exists s.
  pose proof (binit_binv (Ctx 0 1) 1 ∅ s ltac:(lia) disk_get_empty I) as B.
  assert (HC : forall j, (j < NBUFn)%nat -> table s j = core buf_init).
  { intros j Hj. rewrite (bt_core _ _ _ I) by done. by rewrite decide_True. }
  eapply (bio_lru (Ctx 0 1) 1 s (reverse (seq 0 NBUFn))); [lia|done| | |].
  - split; [apply reverse_Permutation|apply I].
  - apply find_buf_None. intros i Hi. rewrite HC by done. intros [E _]. cbn in E. lia.
  - unfold lru_idle. rewrite reverse_involutive.
    change (seq 0 NBUFn) with (0%nat :: seq 1 (pred NBUFn)). cbn [list_find].
    assert (E : b_refcnt (getb 0 s) = 0).
    { change (b_refcnt (table s 0) = 0). rewrite HC by (vm_compute; lia). reflexivity. }
    rewrite E. reflexivity.
Defined.

(** [bread] of a block the caller does not hold panics exactly when the
    block is not cached and every buffer is referenced. *)
Theorem bread_panics_iff_full x dv s b :
  dv <> 0 -> binv x dv s -> t_held dv (table s) b = None -> t_refs dv (table s) b < 2 ^ 31 ->
  ((bread x dv b s).1 = Panic "bget: no buffers" <->
   find_buf dv (table s) b = None /\ t_room (table s) = 0).
Proof.
  intros Hdv I Hh Hr. destruct (bi_ring x dv s I) as [l R]. split.
  - intros HP. destruct (decide (0 < t_refs dv (table s) b \/ 0 < t_room (table s))) as [Hok|Hno].
    + destruct (read_law x dv Hdv s b I Hh Hok Hr) as (h & s' & E & _). by rewrite E in HP.
    + assert (0 <= t_room (table s)) by (unfold t_room; lia). split; [|lia].
      destruct (find_buf dv (table s) b) as [k|] eqn:Hf; [|done].
      by rewrite (bread_hit x dv Hdv s b k I Hf Hh) in HP.
  - intros [Hf H0]. destruct (lru_idle s l) as [k|] eqn:Hk.
    { assert (0 < v_room s (BufCacheView := bio_view x dv)); [|cbn in *; lia].
      apply (room_pos x dv s l I R). by eexists. }
    unfold bread. unfold bind at 1. unfold bget. unfold bind at 1.
    rewrite b_spin_acquire by apply I. unfold bind at 1, get.
    rewrite (walk_next_inv x dv s _ l) by done. rewrite Hf.
    rewrite (walk_prev_inv x dv s _ l) by done. unfold lru_idle in Hk. rewrite Hk. done.
Qed.

Lemma bread_panics_iff_full_witness :
  exists s, (bread (Ctx 0 1) 1 7 s).1 = Panic "bget: no buffers" <->
   find_buf 1 (table s) 7 = None /\ t_room (table s) = 0.
Proof.
  destruct (binit_run ∅) as (? & s & _ & I). exists s.
  pose proof (binit_binv (Ctx 0 1) 1 ∅ s ltac:(lia) disk_get_empty I) as B.
  assert (F : find_buf 1 (table s) 7 = None).
  { apply find_buf_None. intros i Hi. rewrite (bt_core _ _ _ I) by done. rewrite decide_True by done.
    intros [E _]. cbn in E. lia. }
  apply bread_panics_iff_full; [lia|done|unfold t_held; by rewrite F|unfold t_refs; rewrite F; lia].
Defined.
