(* ===== verification/Layout.v ===== *)
(** * On-disk format: kernel/fs.h, kernel/stat.h

    The structures of the file system image and their byte layout: the super
    block, the inode of 64 bytes and the directory entry of 16 bytes, with the
    block-address macros. *)
From S2P Require Import Prelude Bio.
Local Open Scope Z_scope.

Definition ROOTINO : Z := 1.
Definition FSMAGIC : Z := 270544960.
Definition NDIRECT : Z := 12.
Definition NINDIRECT : Z := BSIZE / 4.
Definition MAXFILE : Z := NDIRECT + NINDIRECT.
Definition DIRSIZ : Z := 14.

Definition T_DIR : Z := 1.
Definition T_FILE : Z := 2.
Definition T_DEVICE : Z := 3.

Record superblock := Superblock {
  sb_magic : Z;
  sb_size : Z;
  sb_nblocks : Z;
  sb_ninodes : Z;
  sb_nlog : Z;
  sb_logstart : Z;
  sb_inodestart : Z;
  sb_bmapstart : Z;
}.

(** The bytes of the structure, and reading it back. *)
Definition sb_enc (sb : superblock) : list Z :=
  le_enc 4 (sb_magic sb) ++ le_enc 4 (sb_size sb) ++ le_enc 4 (sb_nblocks sb) ++
  le_enc 4 (sb_ninodes sb) ++ le_enc 4 (sb_nlog sb) ++ le_enc 4 (sb_logstart sb) ++
  le_enc 4 (sb_inodestart sb) ++ le_enc 4 (sb_bmapstart sb).
Definition sb_dec (d : block) : superblock :=
  Superblock (get_le d 0 4) (get_le d 4 4) (get_le d 8 4) (get_le d 12 4)
             (get_le d 16 4) (get_le d 20 4) (get_le d 24 4) (get_le d 28 4).

Record dinode := Dinode {
  di_type : Z;
  di_major : Z;
  di_minor : Z;
  di_nlink : Z;
  di_size : Z;
  di_addrs : list Z;
}.

Definition DISIZE : Z := 64.
Definition IPB : Z := BSIZE / DISIZE.
Definition IBLOCK (i : Z) (sb : superblock) : Z := i / IPB + sb_inodestart sb.
Definition BPB : Z := BSIZE * 8.
Definition BBLOCK (b : Z) (sb : superblock) : Z := b / BPB + sb_bmapstart sb.

Fixpoint words (n : nat) (d : block) (off : nat) : list Z :=
  match n with
  | O => []
  | S n' => get_le d off 4 :: words n' d (off + 4)
  end.
Fixpoint words_enc (l : list Z) : list Z :=
  match l with
  | [] => []
  | w :: t => le_enc 4 w ++ words_enc t
  end.

Definition NADDRS : nat := 13.

Definition dinode_dec (d : block) (off : nat) : dinode :=
  Dinode (s16 (get_le d off 2)) (s16 (get_le d (off + 2) 2)) (s16 (get_le d (off + 4) 2))
         (s16 (get_le d (off + 6) 2)) (get_le d (off + 8) 4) (words NADDRS d (off + 12)).
Definition dinode_enc (di : dinode) : list Z :=
  le_enc 2 (di_type di) ++ le_enc 2 (di_major di) ++ le_enc 2 (di_minor di) ++
  le_enc 2 (di_nlink di) ++ le_enc 4 (di_size di) ++ words_enc (di_addrs di).

Record dirent := Dirent { de_inum : Z; de_name : list Z }.
Definition DESIZE : Z := 16.
Definition dirent_dec (d : list Z) : dirent := Dirent (get_le d 0 2) (get_bytes d 2 14).
Definition dirent_enc (de : dirent) : list Z := le_enc 2 (de_inum de) ++ de_name de.

Record dinode_ok (di : dinode) : Prop := {
  dk_type : - 2 ^ 15 <= di_type di < 2 ^ 15;
  dk_major : - 2 ^ 15 <= di_major di < 2 ^ 15;
  dk_minor : - 2 ^ 15 <= di_minor di < 2 ^ 15;
  dk_nlink : - 2 ^ 15 <= di_nlink di < 2 ^ 15;
  dk_size : 0 <= di_size di < 2 ^ 32;
  dk_len : length (di_addrs di) = NADDRS;
  dk_addrs : Forall (fun a => 0 <= a < 2 ^ 32) (di_addrs di);
}.

(** ** Lemmas *)
Lemma length_words_enc l : length (words_enc l) = (4 * length l)%nat.
Proof. induction l as [|w l IH]; cbn [words_enc length]; [done|]. rewrite length_app, length_le_enc, IH. lia. Qed.

Lemma length_words n d off : length (words n d off) = n.
Proof. revert off. induction n as [|n IH]; intros off; cbn; [done|]. by rewrite IH. Qed.

Lemma length_dinode_enc di : length (di_addrs di) = NADDRS -> length (dinode_enc di) = 64%nat.
Proof. intros H. unfold dinode_enc. rewrite !length_app, !length_le_enc, length_words_enc, H. reflexivity. Qed.

Lemma get_bytes_app_r (a b : list Z) off n :
  (length a <= off)%nat -> get_bytes (a ++ b) off n = get_bytes b (off - length a) n.
Proof. intros. unfold get_bytes. rewrite drop_app_ge by done. done. Qed.

Lemma get_bytes_app_l (a b : list Z) n : length a = n -> get_bytes (a ++ b) 0 n = a.
Proof. intros <-. unfold get_bytes. rewrite drop_0, take_app_length. done. Qed.

Lemma get_le_app_r (a b : list Z) off n :
  (length a <= off)%nat -> get_le (a ++ b) off n = get_le b (off - length a) n.
Proof. intros. unfold get_le. by rewrite get_bytes_app_r. Qed.

Lemma get_le_app_l n v b : get_le (le_enc n v ++ b) 0 n = v mod 2 ^ (8 * Z.of_nat n).
Proof. unfold get_le. rewrite get_bytes_app_l by apply length_le_enc. apply le_dec_enc. Qed.

Lemma words_app_r a b n off :
  (length a <= off)%nat -> words n (a ++ b) off = words n b (off - length a).
Proof.
  revert off. induction n as [|n IH]; intros off H; cbn [words]; [done|].
  rewrite get_le_app_r, IH by lia. do 2 f_equal. lia.
Qed.

Lemma words_enc_dec l d :
  Forall (fun a => 0 <= a < 2 ^ 32) l -> words (length l) (words_enc l ++ d) 0 = l.
Proof.
  induction 1 as [|w l Hw _ IH]; cbn [words words_enc length]; [done|].
  rewrite <- app_assoc, get_le_app_l, Z.mod_small by done. f_equal.
  rewrite words_app_r by (rewrite length_le_enc; lia). rewrite length_le_enc. exact IH.
Qed.

Lemma s16_mod v : - 2 ^ 15 <= v < 2 ^ 15 -> s16 (v mod 2 ^ 16) = v.
Proof.
  intros. unfold s16. rewrite Zplus_mod_idemp_l. rewrite Z.mod_small; lia.
Qed.

Lemma words_put d off bs n o :
  (off + length bs <= length d)%nat ->
  (o + 4 * n <= off \/ off + length bs <= o)%nat ->
  words n (put_bytes d off bs) o = words n d o.
Proof.
  revert o. induction n as [|n IH]; intros o H1 H2; cbn [words]; [done|].
  rewrite IH by lia. f_equal. unfold get_le. rewrite get_put_disjoint by lia. done.
Qed.

Lemma get_bytes_shift d off bs o n :
  (off + length bs <= length d)%nat -> (o + n <= length bs)%nat ->
  get_bytes (put_bytes d off bs) (off + o) n = get_bytes bs o n.
Proof.
  intros H1 H2. apply list_eq. intros i. rewrite !lookup_get_bytes.
  case_decide; [|done]. rewrite lookup_put_bytes by done. rewrite decide_True by lia. f_equal. lia.
Qed.

Lemma words_shift d off bs n o :
  (off + length bs <= length d)%nat -> (o + 4 * n <= length bs)%nat ->
  words n (put_bytes d off bs) (off + o) = words n bs o.
Proof.
  revert o. induction n as [|n IH]; intros o H1 H2; cbn [words]; [done|].
  unfold get_le at 1 2. rewrite get_bytes_shift by lia. f_equal.
  replace (off + o + 4)%nat with (off + (o + 4))%nat by lia. apply IH; lia.
Qed.

(** Writing an inode into its slot of a block and reading it back. *)
Lemma dinode_dec_put d off di :
  dinode_ok di -> (off + 64 <= length d)%nat -> dinode_dec (put_bytes d off (dinode_enc di)) off = di.
Proof.
  intros [H1 H2 H3 H4 H5 H6 H7] Hd. pose proof (length_dinode_enc di H6) as HL.
  unfold dinode_dec.
  replace (get_le (put_bytes d off (dinode_enc di)) off 2)
    with (get_le (put_bytes d off (dinode_enc di)) (off + 0) 2) by (f_equal; lia).
  unfold get_le. rewrite !get_bytes_shift, words_shift by (rewrite HL; unfold NADDRS; lia).
  fold (get_le (dinode_enc di) 0 2) (get_le (dinode_enc di) 2 2) (get_le (dinode_enc di) 4 2)
    (get_le (dinode_enc di) 6 2) (get_le (dinode_enc di) 8 4).
  unfold dinode_enc.
  rewrite (get_le_app_l 2 (di_type di)).
  do 4 rewrite (get_le_app_r (le_enc 2 (di_type di))) by (rewrite length_le_enc; lia).
  rewrite (words_app_r (le_enc 2 (di_type di))) by (rewrite length_le_enc; lia).
  rewrite length_le_enc; cbn [Nat.sub]. rewrite (get_le_app_l 2 (di_major di)).
  do 3 rewrite (get_le_app_r (le_enc 2 (di_major di))) by (rewrite length_le_enc; lia).
  rewrite (words_app_r (le_enc 2 (di_major di))) by (rewrite length_le_enc; lia).
  rewrite length_le_enc; cbn [Nat.sub]. rewrite (get_le_app_l 2 (di_minor di)).
  do 2 rewrite (get_le_app_r (le_enc 2 (di_minor di))) by (rewrite length_le_enc; lia).
  rewrite (words_app_r (le_enc 2 (di_minor di))) by (rewrite length_le_enc; lia).
  rewrite length_le_enc; cbn [Nat.sub]. rewrite (get_le_app_l 2 (di_nlink di)).
  rewrite (get_le_app_r (le_enc 2 (di_nlink di))) by (rewrite length_le_enc; lia).
  rewrite (words_app_r (le_enc 2 (di_nlink di))) by (rewrite length_le_enc; lia).
  rewrite length_le_enc; cbn [Nat.sub]. rewrite (get_le_app_l 4 (di_size di)).
  rewrite (words_app_r (le_enc 4 (di_size di))) by (rewrite length_le_enc; lia).
  rewrite length_le_enc; cbn [Nat.sub].
  rewrite <- (app_nil_r (words_enc _)), <- H6, words_enc_dec by done.
  rewrite (Z.mod_small (di_size di)) by done. rewrite !s16_mod by done. by destruct di.
Qed.

(** The other inodes of the block keep their contents. *)
Lemma dinode_dec_put_other d off off' di :
  length (di_addrs di) = NADDRS -> (off + 64 <= length d)%nat ->
  (off' + 64 <= off \/ off + 64 <= off')%nat ->
  dinode_dec (put_bytes d off (dinode_enc di)) off' = dinode_dec d off'.
Proof.
  intros HA Hd Ho. pose proof (length_dinode_enc di HA) as HL. unfold dinode_dec, get_le.
  rewrite !get_put_disjoint, words_put by (rewrite ?HL; unfold NADDRS; lia). done.
Qed.
