(* ===== verification/Log.v ===== *)
(** * Write-ahead log: kernel/log.c

    The log over an abstract buffer cache.  [logst] is [struct log] together
    with the cache and the channels woken; every function of log.c is a
    definition of section [ops].  The second half reasons about the disk
    itself: the writes a commit or a recovery makes, in order, and what a
    recovery makes of the disk when only a prefix of them happened. *)
From S2P Require Import Prelude Riscv Spinlock Bio Layout.
Local Open Scope Z_scope.

Record logst (S : Type) := LogSt {
  lg_lock : spinlock;
  lg_start : Z;
  lg_size : Z;
  lg_outstanding : Z;
  lg_committing : Z;
  lg_dev : Z;
  lg_n : Z;                 (* lh.n *)
  lg_block : list Z;        (* lh.block[LOGSIZE] *)
  lg_bc : S;
  lg_woken : list chan;
}.
Arguments LogSt {S}.
Arguments lg_lock {S}. Arguments lg_start {S}. Arguments lg_size {S}.
Arguments lg_outstanding {S}. Arguments lg_committing {S}. Arguments lg_dev {S}.
Arguments lg_n {S}. Arguments lg_block {S}. Arguments lg_bc {S}. Arguments lg_woken {S}.

Definition log_chan : chan := Chan "log" 0.

Section setters.
Context {S : Type}.
Implicit Types l : logst S.
Definition set_lg_lock k l := LogSt k (lg_start l) (lg_size l) (lg_outstanding l) (lg_committing l) (lg_dev l) (lg_n l) (lg_block l) (lg_bc l) (lg_woken l).
Definition set_geom st sz dv l := LogSt (lg_lock l) st sz (lg_outstanding l) (lg_committing l) dv (lg_n l) (lg_block l) (lg_bc l) (lg_woken l).
Definition set_outstanding o l := LogSt (lg_lock l) (lg_start l) (lg_size l) o (lg_committing l) (lg_dev l) (lg_n l) (lg_block l) (lg_bc l) (lg_woken l).
Definition set_committing c l := LogSt (lg_lock l) (lg_start l) (lg_size l) (lg_outstanding l) c (lg_dev l) (lg_n l) (lg_block l) (lg_bc l) (lg_woken l).
Definition set_n n l := LogSt (lg_lock l) (lg_start l) (lg_size l) (lg_outstanding l) (lg_committing l) (lg_dev l) n (lg_block l) (lg_bc l) (lg_woken l).
Definition set_block b l := LogSt (lg_lock l) (lg_start l) (lg_size l) (lg_outstanding l) (lg_committing l) (lg_dev l) (lg_n l) b (lg_bc l) (lg_woken l).
Definition set_bc (c : S) (l : logst S) : logst S := LogSt (lg_lock l) (lg_start l) (lg_size l) (lg_outstanding l) (lg_committing l) (lg_dev l) (lg_n l) (lg_block l) c (lg_woken l).
Definition add_woken c l := LogSt (lg_lock l) (lg_start l) (lg_size l) (lg_outstanding l) (lg_committing l) (lg_dev l) (lg_n l) (lg_block l) (lg_bc l) (lg_woken l ++ [c]).
End setters.

(** [struct logheader] laid over the bytes of a block. *)
Definition LOGSIZEn : nat := Z.to_nat LOGSIZE.
Definition hb_off (i : nat) : nat := 4 + 4 * i.

(** [for (i = 0; i < n; i++) log.lh.block[i] = lh->block[i];] *)
Fixpoint load_blocks (k i : nat) (d : block) (bl : list Z) : list Z :=
  match k with
  | O => bl
  | S k' => load_blocks k' (S i) d (<[i := s32 (get_le d (hb_off i) 4)]> bl)
  end.

(** [for (i = 0; i < n; i++) hb->block[i] = log.lh.block[i];] *)
Fixpoint store_blocks (k i : nat) (bl : list Z) (d : block) : block :=
  match k with
  | O => d
  | S k' => store_blocks k' (S i) bl (put_le d (hb_off i) 4 (bl !!! i))
  end.

(** The absorption search: the first [i < n] with [lh.block[i] == blockno],
    or [n]. *)
Fixpoint find_slot (k i : nat) (bl : list Z) (bno : Z) : nat :=
  match k with
  | O => i
  | S k' => if u32 (bl !!! i) =? bno then i else find_slot k' (S i) bl bno
  end.

Section ops.
Context {S : Type} {B : BufCache S} (x : ctx).
Local Abbreviation LM := (M (logst S)).

Definition on_bc {A} (m : M S A) : LM A := zoom lg_bc set_bc m.
Definition lg_spin {A} (m : M spinlock A) : LM A := zoom lg_lock set_lg_lock m.

Definition log_bread (bno : Z) : LM nat :=
  let! dev := gets lg_dev in on_bc (bc_read dev (u32 bno)).

(** [log.lh.block[i]] *)
Definition lh_block (i : Z) : LM Z :=
  let! bl := gets lg_block in
  match bl !! Z.to_nat i with
  | Some b => ret b
  | None => undef "log.lh.block"
  end.

(** [memmove(to->data, from->data, BSIZE)] *)
Definition copy_data (to from : nat) : LM unit :=
  on_bc (modify (fun s => bc_set_data to (bc_get_data from s) s)).

Definition install_trans (recovering : bool) : LM unit :=
  let! n := gets lg_n in
  forn (A := unit) (Z.to_nat n) 0 1 (fun tail =>
    let! start := gets lg_start in
    let! lbuf := log_bread (start + tail + 1) in
    let! bno := lh_block tail in
    let! dbuf := log_bread bno in
    copy_data dbuf lbuf ;;
    on_bc (bc_write dbuf) ;;
    (if recovering then ret tt else on_bc (bc_unpin dbuf)) ;;
    on_bc (bc_relse lbuf) ;;
    on_bc (bc_relse dbuf) ;;
    ret None) ;;
  ret tt.

Definition read_head : LM unit :=
  let! start := gets lg_start in
  let! buf := log_bread start in
  let! d := gets (fun l => bc_get_data buf (lg_bc l)) in
  modify (set_n (s32 (get_le d 0 4))) ;;
  let! n := gets lg_n in
  (if LOGSIZE <? n then undef "log.lh.block"
   else modify (fun l => set_block (load_blocks (Z.to_nat n) 0 d (lg_block l)) l)) ;;
  on_bc (bc_relse buf).

Definition write_head : LM unit :=
  let! start := gets lg_start in
  let! buf := log_bread start in
  let! n := gets lg_n in
  let! bl := gets lg_block in
  (if LOGSIZE <? n then undef "log.lh.block"
   else on_bc (modify (fun s =>
          bc_set_data buf (store_blocks (Z.to_nat n) 0 bl (put_le (bc_get_data buf s) 0 4 n)) s))) ;;
  on_bc (bc_write buf) ;;
  on_bc (bc_relse buf).

Definition recover_from_log : LM unit :=
  read_head ;;
  install_trans true ;;
  modify (set_n 0) ;;
  write_head.

Definition initlog (dev : Z) (sb : superblock) : LM unit :=
  (if BSIZE <=? 4 + 4 * LOGSIZE then panic "initlog: too big logheader" else ret tt) ;;
  modify (set_lg_lock (initlock "log")) ;;
  modify (set_geom (s32 (sb_logstart sb)) (s32 (sb_nlog sb)) dev) ;;
  recover_from_log.

(** A caller that has to wait releases the lock and sleeps on [&log]; woken,
    it starts over. *)
Definition begin_op : LM unit :=
  lg_spin (acquire_word (c_hart x)) ;;
  let! l := get in
  if negb (lg_committing l =? 0) then
    lg_spin (release_word (c_hart x)) ;; stall log_chan
  else if LOGSIZE <? lg_n l + (lg_outstanding l + 1) * MAXOPBLOCKS then
    lg_spin (release_word (c_hart x)) ;; stall log_chan
  else
    modify (set_outstanding (lg_outstanding l + 1)) ;;
    lg_spin (release_word (c_hart x)).

Definition write_log : LM unit :=
  let! n := gets lg_n in
  forn (A := unit) (Z.to_nat n) 0 1 (fun tail =>
    let! start := gets lg_start in
    let! to := log_bread (start + tail + 1) in
    let! bno := lh_block tail in
    let! from := log_bread bno in
    copy_data to from ;;
    on_bc (bc_write to) ;;
    on_bc (bc_relse from) ;;
    on_bc (bc_relse to) ;;
    ret None) ;;
  ret tt.

Definition commit : LM unit :=
  let! n := gets lg_n in
  if 0 <? n then
    write_log ;;
    write_head ;;
    install_trans false ;;
    modify (set_n 0) ;;
    write_head
  else ret tt.

(** The locked section at the start of [end_op]: whether to commit. *)
Definition end_op_enter : LM bool :=
  lg_spin (acquire_word (c_hart x)) ;;
  modify (fun l => set_outstanding (lg_outstanding l - 1) l) ;;
  let! l := get in
  (if negb (lg_committing l =? 0) then panic "log.committing" else ret tt) ;;
  let! do_commit :=
    (if lg_outstanding l =? 0 then modify (set_committing 1) ;; ret true
     else modify (add_woken log_chan) ;; ret false) in
  lg_spin (release_word (c_hart x)) ;;
  ret do_commit.

(** The locked section after the commit. *)
Definition end_op_leave : LM unit :=
  lg_spin (acquire_word (c_hart x)) ;;
  modify (set_committing 0) ;;
  modify (add_woken log_chan) ;;
  lg_spin (release_word (c_hart x)).

Definition end_op : LM unit :=
  let! do_commit := end_op_enter in
  if (do_commit : bool) then commit ;; end_op_leave else ret tt.

Definition log_write (b : nat) : LM unit :=
  lg_spin (acquire_word (c_hart x)) ;;
  let! l := get in
  (if (LOGSIZE <=? lg_n l) || (lg_size l - 1 <=? lg_n l)
   then panic "too big a transaction" else ret tt) ;;
  (if lg_outstanding l <? 1 then panic "log_write outside of trans" else ret tt) ;;
  let bno := bc_get_no b (lg_bc l) in
  let i := find_slot (Z.to_nat (lg_n l)) 0 (lg_block l) bno in
  modify (set_block (<[i := s32 bno]> (lg_block l))) ;;
  (if Z.of_nat i =? lg_n l then
     on_bc (bc_pin b) ;;
     modify (fun l => set_n (lg_n l + 1) l)
   else ret tt) ;;
  lg_spin (release_word (c_hart x)).
End ops.

(** ** Operations of several processes

    [g_used] holds, for every process between [begin_op] and [end_op], how
    many [log_write]s it has made; [g_committer] is the process that is in
    [commit].  The cache may change between steps. *)
Section group.
Context {S : Type} {B : BufCache S} (x : ctx).

Record gst := Gst { g_log : logst S; g_used : gmap Z Z; g_committer : option Z }.

Inductive gstep : gst -> gst -> Prop :=
| g_begin g p l' :
    g_used g !! p = None -> g_committer g <> Some p -> begin_op x (g_log g) = (Ret tt, l') ->
    gstep g (Gst l' (<[p := 0]> (g_used g)) (g_committer g))
| g_wait g c l' :
    begin_op x (g_log g) = (Block c, l') -> gstep g (Gst l' (g_used g) (g_committer g))
| g_write g p u h l' :
    g_used g !! p = Some u -> u < MAXOPBLOCKS -> log_write x h (g_log g) = (Ret tt, l') ->
    gstep g (Gst l' (<[p := u + 1]> (g_used g)) (g_committer g))
| g_end g p u c l' :
    g_used g !! p = Some u -> end_op_enter x (g_log g) = (Ret c, l') ->
    gstep g (Gst l' (delete p (g_used g)) (if c then Some p else g_committer g))
| g_commit g p l' :
    g_committer g = Some p -> (commit ;; end_op_leave x) (g_log g) = (Ret tt, l') ->
    gstep g (Gst l' (g_used g) None)
| g_cache g s' :
    gstep g (Gst (set_bc s' (g_log g)) (g_used g) (g_committer g)).

(** From a log as [initlog] leaves it. *)
Inductive greach : gst -> Prop :=
| gr_init l : lk_free (lg_lock l) -> lg_n l = 0 -> lg_outstanding l = 0 -> lg_committing l = 0 ->
    greach (Gst l ∅ None)
| gr_step g g' : greach g -> gstep g g' -> greach g'.
End group.

(** ** The log on disk

    A disk is a function from block numbers to blocks; a crash leaves the
    disk after some prefix of the writes issued. *)
Definition apply_writes (d : Z -> block) (tr : list (Z * block)) : Z -> block :=
  fold_left (fun d w => upd_at d (fst w) (snd w)) tr d.

(** The header read back: its count and its block numbers. *)
Definition hdr_n (h : block) : Z := s32 (get_le h 0 4).
Definition hdr_blk (h : block) (i : nat) : Z := u32 (s32 (get_le h (hb_off i) 4)).
Definition hdr_list (h : block) : list Z := map (hdr_blk h) (seq 0 (Z.to_nat (hdr_n h))).

(** What [install_trans] writes from the log at [start] for blocks [bl]. *)
Definition install_writes (start : Z) (d : Z -> block) (bl : list Z) : list (Z * block) :=
  imap (fun i b => (b, d (start + Z.of_nat i + 1))) bl.

(** All writes of [recover_from_log] on disk [d], and the disk it leaves. *)
Definition recover_writes (start : Z) (d : Z -> block) : list (Z * block) :=
  install_writes start d (hdr_list (d start)) ++ [(start, put_le (d start) 0 4 0)].
Definition recovered (start : Z) (d : Z -> block) : Z -> block :=
  apply_writes d (recover_writes start d).

(** The header block [write_head] makes from [h] for [n] blocks of [bl]. *)
Definition head_block (n : Z) (bl : list Z) (h : block) : block :=
  store_blocks (Z.to_nat n) 0 bl (put_le h 0 4 n).

(** All writes of [commit] for logged blocks [lb] whose cached contents are [v]. *)
Definition log_writes (start : Z) (v : Z -> block) (lb : list Z) : list (Z * block) :=
  imap (fun i b => (start + Z.of_nat i + 1, v b)) lb.
Definition home_writes (v : Z -> block) (lb : list Z) : list (Z * block) :=
  map (fun b => (b, v b)) lb.
Definition commit_writes (start : Z) (v d : Z -> block) (n : Z) (bl : list Z) : list (Z * block) :=
  let lb := map u32 (take (Z.to_nat n) bl) in
  let h := head_block n bl (d start) in
  log_writes start v lb ++ [(start, h)] ++ home_writes v lb ++ [(start, put_le h 0 4 0)].

(** The blocks of the log area. *)
Definition in_log (start size b : Z) : Prop := start <= b < start + size.

(** Equality of disks outside the log area. *)
Definition same_data (start size : Z) (d d' : Z -> block) : Prop :=
  forall b, ~ in_log start size b -> d b = d' b.

(** A header [recover_from_log] can act on. *)
Record head_ok (start size : Z) (h : block) : Prop := {
  ho_len : length h = BSZ;
  ho_n : 0 <= hdr_n h <= LOGSIZE /\ hdr_n h < size;
  ho_home : forall b, b ∈ hdr_list h -> ~ in_log start size b;
}.

(** Interrupted recoveries: each gets through some prefix of its writes. *)
Inductive crashes (start : Z) : (Z -> block) -> (Z -> block) -> Prop :=
| crash_none d : crashes start d d
| crash_again d p d' :
    p `prefix_of` recover_writes start d -> crashes start (apply_writes d p) d' ->
    crashes start d d'.

(** ** Lemmas: writes *)
Lemma apply_writes_app d p q : apply_writes d (p ++ q) = apply_writes (apply_writes d p) q.
Proof. apply fold_left_app. Qed.

Lemma apply_writes_notin d tr b : b ∉ tr.*1 -> apply_writes d tr b = d b.
Proof.
  revert d. induction tr as [|[c e] tr IH]; intros d Hb; [done|]. cbn in *.
  unfold apply_writes in IH. rewrite IH by set_solver. unfold upd_at.
  rewrite decide_False; [done|]. set_solver.
Qed.

(** The contents of a block that is written do not depend on the old disk. *)
Lemma apply_writes_in d d' tr b : b ∈ tr.*1 -> apply_writes d tr b = apply_writes d' tr b.
Proof.
  revert d d'. induction tr as [|[c e] tr IH]; intros d d' Hb; [set_solver|].
  cbn in *. destruct (decide (b ∈ tr.*1)) as [Hi|Hi]; [by apply IH|].
  change (apply_writes (upd_at d c e) tr b = apply_writes (upd_at d' c e) tr b).
  rewrite !apply_writes_notin by done. unfold upd_at. rewrite !decide_True; set_solver.
Qed.

Lemma apply_writes_agree d d' tr b : d b = d' b -> apply_writes d tr b = apply_writes d' tr b.
Proof.
  intros E. destruct (decide (b ∈ tr.*1)); [by apply apply_writes_in|].
  by rewrite !apply_writes_notin.
Qed.

(** Writing a list of blocks again gives what writing it once gives. *)
Lemma apply_writes_again d p tr b :
  (forall c, c ∈ p.*1 -> c ∈ tr.*1) -> apply_writes (apply_writes d p) tr b = apply_writes d tr b.
Proof.
  intros Hp. destruct (decide (b ∈ tr.*1)) as [Hi|Hi]; [by apply apply_writes_in|].
  rewrite (apply_writes_notin _ tr), (apply_writes_notin d tr) by done.
  apply apply_writes_notin. auto.
Qed.

Lemma fst_install start d bl : (install_writes start d bl).*1 = bl.
Proof.
  unfold install_writes. rewrite fmap_imap. unfold compose. cbn.
  apply list_eq. intros i. rewrite list_lookup_imap. by destruct (bl !! i).
Qed.

Lemma fst_home v lb : (home_writes v lb).*1 = lb.
Proof. unfold home_writes. rewrite <- list_fmap_compose. cbn. apply list_fmap_id. Qed.

Lemma home_writes_lookup d v lb b :
  apply_writes d (home_writes v lb) b = if decide (b ∈ lb) then v b else d b.
Proof.
  case_decide as Hb; [|by rewrite apply_writes_notin by (by rewrite fst_home)].
  revert d. induction lb as [|c lb IH]; intros d; [set_solver|]. cbn.
  destruct (decide (b ∈ lb)) as [Hi|Hi]; [by apply IH|].
  change (apply_writes (upd_at d c (v c)) (home_writes v lb) b = v b).
  rewrite apply_writes_notin by (by rewrite fst_home). unfold upd_at.
  rewrite decide_True by set_solver. f_equal. set_solver.
Qed.

Lemma fst_log_writes start v lb c :
  c ∈ (log_writes start v lb).*1 -> start < c <= start + Z.of_nat (length lb).
Proof.
  intros [[a e] [-> H]]%list_elem_of_fmap. apply list_elem_of_lookup in H as [i H].
  unfold log_writes in H. rewrite list_lookup_imap in H.
  destruct (lb !! i) eqn:E; [|done]. cbn in H. injection H as <- _.
  apply lookup_lt_Some in E. cbn. lia.
Qed.

Lemma log_writes_lookup d start v lb i b :
  lb !! i = Some b -> apply_writes d (log_writes start v lb) (start + Z.of_nat i + 1) = v b.
Proof.
  induction lb as [|c lb IH] using rev_ind; [done|]. intros Hi.
  unfold log_writes. rewrite imap_app, apply_writes_app. cbn. unfold upd_at.
  destruct (decide (i = length lb)) as [->|Hne].
  - rewrite lookup_app_r, Nat.sub_diag in Hi by lia. cbn in Hi. injection Hi as ->.
    rewrite decide_True by (f_equal; lia). done.
  - rewrite decide_False by lia. apply IH. apply lookup_lt_Some in Hi as Hl.
    rewrite length_app in Hl. cbn in Hl. rewrite lookup_app_l in Hi by lia. done.
Qed.

Lemma install_lookup start d bl i b :
  NoDup bl -> bl !! i = Some b ->
  apply_writes d (install_writes start d bl) b = d (start + Z.of_nat i + 1).
Proof.
  induction bl as [|c bl IH] using rev_ind; [done|]. intros Hnd Hi.
  unfold install_writes. rewrite imap_app, apply_writes_app. cbn. unfold upd_at.
  apply NoDup_app in Hnd as (Hnd & Hdis & _).
  destruct (decide (i = length bl)) as [->|Hne].
  - rewrite lookup_app_r, Nat.sub_diag in Hi by lia. cbn in Hi. injection Hi as ->.
    rewrite decide_True by done. do 2 f_equal. lia.
  - apply lookup_lt_Some in Hi as Hl. rewrite length_app in Hl. cbn in Hl. rewrite lookup_app_l in Hi by lia.
    rewrite decide_False; [by apply IH|]. intros ->. apply (Hdis c); [by eapply list_elem_of_lookup_2|set_solver].
Qed.

(** ** Lemmas: the header block *)
Lemma s32_mod v : s32 (v mod 2 ^ 32) = s32 v.
Proof. unfold s32. by rewrite Zplus_mod_idemp_l. Qed.

Lemma u32_s32 v : u32 (s32 v) = u32 v.
Proof.
  unfold u32, s32. rewrite Zminus_mod_idemp_l. f_equal. lia.
Qed.

Lemma hb_bound i : (i < LOGSIZEn)%nat -> (hb_off i + 4 <= BSZ)%nat.
Proof. intros Hi. unfold hb_off, BSZ. assert (LOGSIZEn = 30%nat) by reflexivity. lia. Qed.

Lemma length_store_blocks k i bl d :
  length d = BSZ -> (i + k <= LOGSIZEn)%nat -> length (store_blocks k i bl d) = BSZ.
Proof.
  revert i d. induction k as [|k IH]; intros i d Hd Hk; [done|]. cbn [store_blocks].
  apply IH; [|lia]. rewrite length_put_le; [done|]. rewrite Hd. apply hb_bound. lia.
Qed.

Lemma store_blocks_out k i bl d o n :
  length d = BSZ -> (i + k <= LOGSIZEn)%nat -> (o + n <= hb_off i)%nat ->
  get_le (store_blocks k i bl d) o n = get_le d o n.
Proof.
  revert i d. induction k as [|k IH]; intros i d Hd Hk Ho; [done|]. cbn [store_blocks].
  assert (hb_off i + 4 <= BSZ)%nat by (apply hb_bound; lia).
  rewrite IH; [|rewrite length_put_le; lia|lia|unfold hb_off in *; lia].
  rewrite get_le_put_disjoint; [done|lia|lia].
Qed.

Lemma store_blocks_in k i bl d j :
  length d = BSZ -> (i + k <= LOGSIZEn)%nat -> (i <= j < i + k)%nat ->
  get_le (store_blocks k i bl d) (hb_off j) 4 = u32 (bl !!! j).
Proof.
  revert i d. induction k as [|k IH]; intros i d Hd Hk Hj; [lia|]. cbn [store_blocks].
  assert (hb_off i + 4 <= BSZ)%nat by (apply hb_bound; lia).
  destruct (decide (j = i)) as [->|Hne].
  - rewrite store_blocks_out; [|rewrite length_put_le; lia|lia|unfold hb_off in *; lia].
    rewrite get_le_put_same by lia. done.
  - apply IH; [rewrite length_put_le; lia|lia|lia].
Qed.

Lemma n_nat n : n <= LOGSIZE -> (Z.to_nat n <= LOGSIZEn)%nat.
Proof. unfold LOGSIZEn. lia. Qed.

Lemma length_head_block n bl h : n <= LOGSIZE -> length h = BSZ -> length (head_block n bl h) = BSZ.
Proof.
  intros Hn Hh. apply length_store_blocks; [|by apply n_nat]. rewrite length_put_le; [done|].
  rewrite Hh. unfold BSZ. lia.
Qed.

Lemma hdr_n_head n bl h : 0 <= n <= LOGSIZE -> length h = BSZ -> hdr_n (head_block n bl h) = n.
Proof.
  intros Hn Hh. unfold hdr_n, head_block. assert (0 + 4 <= BSZ)%nat by (unfold BSZ; lia).
  rewrite store_blocks_out; [|rewrite length_put_le; lia|apply n_nat; lia|unfold hb_off; lia].
  rewrite get_le_put_same by lia. cbn [Z.of_nat Z.mul]. rewrite s32_mod. apply s32_small.
  unfold LOGSIZE, MAXOPBLOCKS in Hn. lia.
Qed.

Lemma hdr_list_head n bl h :
  0 <= n <= LOGSIZE -> length h = BSZ -> length bl = LOGSIZEn ->
  hdr_list (head_block n bl h) = map u32 (take (Z.to_nat n) bl).
Proof.
  intros Hn Hh Hbl. unfold hdr_list. rewrite hdr_n_head by done.
  pose proof (n_nat n (proj2 Hn)) as Hnn. apply list_eq. intros i.
  rewrite !list_lookup_fmap. destruct (decide (i < Z.to_nat n)%nat) as [Hi|Hi].
  - rewrite lookup_seq_lt, lookup_take_lt by done. cbn.
    destruct (lookup_lt_is_Some_2 bl i) as [b Hb]; [lia|]. rewrite Hb. cbn. f_equal.
    unfold hdr_blk, head_block. rewrite store_blocks_in; [|..|lia|lia].
    + rewrite u32_s32. unfold u32. rewrite Z.mod_mod by lia. by rewrite (list_lookup_total_correct _ _ _ Hb).
    + rewrite length_put_le; [done|]. rewrite Hh. unfold BSZ. lia.
  - rewrite lookup_seq_ge, lookup_take_ge by lia. done.
Qed.

Lemma hdr_n_clear h : length h = BSZ -> hdr_n (put_le h 0 4 0) = 0.
Proof. intros Hh. unfold hdr_n. rewrite get_le_put_same; [done|]. rewrite Hh. unfold BSZ. lia. Qed.

Lemma hdr_list_zero h : hdr_n h = 0 -> hdr_list h = [].
Proof. intros H. unfold hdr_list. by rewrite H. Qed.

(** ** Lemmas: recovery and crashes *)
Section crash.
Context (start size : Z).
Implicit Types d v : Z -> block.

Lemma recovered_install d b :
  ~ in_log start size b -> 0 < size ->
  recovered start d b = apply_writes d (install_writes start d (hdr_list (d start))) b.
Proof.
  intros Hb Hs. unfold recovered, recover_writes. rewrite apply_writes_app. cbn.
  unfold upd_at. rewrite decide_False; [done|]. unfold in_log in Hb. lia.
Qed.

(** A disk whose header is clear is already recovered. *)
Lemma recovered_clear d : 0 < size -> hdr_n (d start) = 0 -> same_data start size (recovered start d) d.
Proof.
  intros Hs Hn b Hb. rewrite recovered_install by done. by rewrite hdr_list_zero.
Qed.

(** Recovery reads only the header and the log blocks. *)
Lemma install_writes_ext d d' bl :
  Z.of_nat (length bl) < size ->
  (forall b, in_log start size b -> d b = d' b) ->
  install_writes start d bl = install_writes start d' bl.
Proof.
  intros Hl E. apply imap_ext. intros i b Hi. f_equal. apply E.
  apply lookup_lt_Some in Hi. unfold in_log. lia.
Qed.

Lemma length_hdr_list h : 0 <= hdr_n h -> Z.of_nat (length (hdr_list h)) = hdr_n h.
Proof. intros. unfold hdr_list. rewrite length_map, length_seq. lia. Qed.

Lemma recover_writes_ext d d' :
  (forall b, d b = d' b) -> recover_writes start d = recover_writes start d'.
Proof.
  intros E. unfold recover_writes. rewrite (E start). f_equal. apply imap_ext. intros i b _. by rewrite E.
Qed.

Lemma recovered_ext d d' b : (forall b, d b = d' b) -> recovered start d b = recovered start d' b.
Proof. intros E. unfold recovered. rewrite (recover_writes_ext d d' E). by apply apply_writes_agree. Qed.

Lemma hdr_n_recovered d : length (d start) = BSZ -> hdr_n (recovered start d start) = 0.
Proof.
  intros Hl. unfold recovered, recover_writes. rewrite apply_writes_app. cbn. unfold upd_at.
  rewrite decide_True by done. by apply hdr_n_clear.
Qed.

(** A crash in the middle of a recovery does not change what recovery yields,
    and leaves a header recovery can act on. *)
Lemma recover_prefix d p :
  head_ok start size (d start) -> p `prefix_of` recover_writes start d ->
  same_data start size (recovered start (apply_writes d p)) (recovered start d) /\
  head_ok start size (apply_writes d p start).
Proof.
  intros [Hl [Hn Hn'] Hh] Hp.
  assert (Hs : 0 < size) by lia.
  unfold recover_writes in Hp. apply prefix_snoc_cases in Hp as [Hp| ->].
  - assert (Hsub : forall c, c ∈ p.*1 -> c ∈ (install_writes start d (hdr_list (d start))).*1).
    { destruct Hp as [k ->]. rewrite fmap_app. set_solver. }
    assert (Hin : forall b, in_log start size b -> apply_writes d p b = d b).
    { intros b Hb. apply apply_writes_notin. intros Hc%Hsub. rewrite fst_install in Hc. by apply (Hh b). }
    assert (Hst : apply_writes d p start = d start) by (apply Hin; unfold in_log; lia).
    split; [|by rewrite Hst].
    intros b Hb. rewrite !recovered_install, Hst by done.
    rewrite (install_writes_ext _ d) by (rewrite ?length_hdr_list by lia; done).
    by apply apply_writes_again.
  - change (install_writes start d (hdr_list (d start)) ++ [(start, put_le (d start) 0 4 0)])
      with (recover_writes start d). fold (recovered start d).
    assert (E : recovered start d start = put_le (d start) 0 4 0).
    { unfold recovered, recover_writes. rewrite apply_writes_app. cbn. unfold upd_at. by rewrite decide_True. }
    split; [apply recovered_clear; rewrite ?E; by try apply hdr_n_clear|].
    rewrite E. split; rewrite ?hdr_n_clear, ?hdr_list_zero by (done || by apply hdr_n_clear).
    + rewrite length_put_le; [done|]. rewrite Hl. unfold BSZ. lia.
    + lia.
    + set_solver.
Qed.

(** However often recovery is interrupted, the last one yields the same. *)
Lemma recover_crashes d d' :
  head_ok start size (d start) -> crashes start d d' ->
  same_data start size (recovered start d') (recovered start d) /\ head_ok start size (d' start).
Proof.
  intros Hh HC. induction HC as [d|d p d' Hp HC IH]; [by split; [intros b _|]|].
  destruct (recover_prefix d p Hh Hp) as [H1 H2]. destruct (IH H2) as [H3 H4].
  split; [|done]. intros b Hb. rewrite H3 by done. by apply H1.
Qed.

(** The states of the disk during a commit: before the header is written
    recovery yields the old contents, after it the new ones. *)
Context (v d : Z -> block) (n : Z) (bl : list Z).
Let lb := map u32 (take (Z.to_nat n) bl).
Let h := head_block n bl (d start).

Record commit_pre : Prop := {
  cp_n : 0 <= n <= LOGSIZE /\ n < size;
  cp_bl : length bl = LOGSIZEn;
  cp_home : forall b, b ∈ lb -> ~ in_log start size b;
  cp_clear : hdr_n (d start) = 0;
  cp_len : length (d start) = BSZ;
}.

Lemma length_lb : commit_pre -> length lb = Z.to_nat n.
Proof. intros [Hn Hb _ _ _]. unfold lb. rewrite length_map, length_take, Hb. unfold LOGSIZEn. lia. Qed.

Lemma commit_before p :
  commit_pre -> p `prefix_of` log_writes start v lb ->
  same_data start size (recovered start (apply_writes d p)) d /\
  head_ok start size (apply_writes d p start).
Proof.
  intros HP Hp. pose proof (length_lb HP) as HL. destruct HP as [Hn Hb Hh Hc Hl].
  assert (Hsub : forall c, c ∈ p.*1 -> start < c < start + size).
  { intros c Hc'. assert (c ∈ (log_writes start v lb).*1) as H%fst_log_writes; [|lia].
    destruct Hp as [k ->]. rewrite fmap_app. set_solver. }
  assert (Hst : apply_writes d p start = d start).
  { apply apply_writes_notin. intros H%Hsub. lia. }
  split.
  - intros b Hb'. rewrite (recovered_clear _ ltac:(lia)) by (done || by rewrite Hst).
    apply apply_writes_notin. intros H%Hsub. unfold in_log in Hb'. lia.
  - rewrite Hst. split; rewrite ?Hc, ?hdr_list_zero by done; [done|lia|set_solver].
Qed.

Lemma commit_after p :
  commit_pre -> p `prefix_of` home_writes v lb ++ [(start, put_le h 0 4 0)] ->
  let d' := apply_writes d (log_writes start v lb ++ [(start, h)] ++ p) in
  same_data start size (recovered start d') (fun b => if decide (b ∈ lb) then v b else d b) /\
  head_ok start size (d' start).
Proof.
  intros HP Hp d'. pose proof (length_lb HP) as HL. destruct HP as [Hn Hb Hh Hc Hl].
  assert (Hlog : forall b, ~ in_log start size b -> apply_writes d (log_writes start v lb ++ [(start, h)]) b = d b).
  { intros b Hb'. apply apply_writes_notin. rewrite fmap_app. cbn.
    intros [H%fst_log_writes| ->%list_elem_of_singleton]%elem_of_app; unfold in_log in Hb'; lia. }
  assert (Hlen : length h = BSZ) by (apply length_head_block; [lia|done]).
  assert (Hhn : hdr_n h = n) by (apply hdr_n_head; [lia|done]).
  assert (Hhl : hdr_list h = lb) by (apply hdr_list_head; [lia|done|done]).
  assert (Hnst : start ∉ lb) by (intros H%Hh; apply H; unfold in_log; lia).
  apply prefix_snoc_cases in Hp as [[q Hq]| ->].
  - assert (Hsub : forall c, c ∈ p.*1 -> c ∈ lb).
    { intros c Hc'. rewrite <- (fst_home v lb), Hq, fmap_app. set_solver. }
    assert (Hd : forall b, in_log start size b -> d' b = apply_writes d (log_writes start v lb ++ [(start, h)]) b).
    { intros b Hb'. subst d'. rewrite app_assoc, apply_writes_app. apply apply_writes_notin.
      intros H%Hsub. by apply (Hh b). }
    assert (Hst : d' start = h).
    { rewrite Hd by (unfold in_log; lia). rewrite apply_writes_app. cbn. unfold upd_at. by rewrite decide_True. }
    rewrite Hst. split; [|split; rewrite ?Hhn, ?Hhl; done || lia].
    intros b Hb'. rewrite recovered_install, Hst, Hhl by (done || lia).
    replace (install_writes start d' lb) with (home_writes v lb).
    + rewrite home_writes_lookup. case_decide as Hbl; [done|].
      subst d'. rewrite app_assoc, apply_writes_app, apply_writes_notin; [by apply Hlog|].
      by intros ?%Hsub.
    + apply list_eq. intros i. unfold install_writes, home_writes.
      rewrite list_lookup_fmap, list_lookup_imap. destruct (lb !! i) as [b'|] eqn:E; [|done].
      cbn. f_equal. f_equal. apply lookup_lt_Some in E as Hi. rewrite Hd by (unfold in_log; lia).
      rewrite apply_writes_app. cbn. unfold upd_at. rewrite decide_False by lia.
      symmetry. by apply log_writes_lookup.
  - assert (Hst : d' start = put_le h 0 4 0).
    { subst d'. rewrite !app_assoc, apply_writes_app. cbn. unfold upd_at. by rewrite decide_True. }
    rewrite Hst. split.
    + intros b Hb'. rewrite (recovered_clear _ ltac:(lia)) by (done || by rewrite Hst, hdr_n_clear).
      subst d'. rewrite app_assoc, apply_writes_app, apply_writes_app. cbn.
      unfold upd_at. rewrite decide_False by (unfold in_log in Hb'; lia).
      rewrite home_writes_lookup. case_decide; [done|by apply Hlog].
    + split; rewrite ?hdr_n_clear, ?hdr_list_zero by (done || by apply hdr_n_clear); [|lia|set_solver].
      rewrite length_put_le; [done|]. rewrite Hlen. unfold BSZ. lia.
Qed.
(** A crash at any point of a commit. *)
Lemma commit_prefix p :
  commit_pre -> p `prefix_of` commit_writes start v d n bl ->
  (same_data start size (recovered start (apply_writes d p)) d \/
   same_data start size (recovered start (apply_writes d p)) (fun b => if decide (b ∈ lb) then v b else d b)) /\
  head_ok start size (apply_writes d p start).
Proof.
  intros HP Hp. unfold commit_writes in Hp. fold lb h in Hp.
  apply prefix_app_cases in Hp as [Hp|(q & -> & Hq)]; [destruct (commit_before p HP Hp); auto|].
  destruct q as [|w q].
  - rewrite app_nil_r. destruct (commit_before _ HP ltac:(reflexivity)). auto.
  - apply prefix_cons_inv_1 in Hq as E. apply prefix_cons_inv_2 in Hq. subst w.
    destruct (commit_after q HP Hq). auto.
Qed.

(** A commit that runs to its end. *)
Lemma commit_final :
  commit_pre ->
  same_data start size (apply_writes d (commit_writes start v d n bl))
    (fun b => if decide (b ∈ lb) then v b else d b) /\
  hdr_n (apply_writes d (commit_writes start v d n bl) start) = 0.
Proof.
  intros HP. pose proof (length_lb HP) as HL. unfold commit_writes. fold lb h.
  rewrite !app_assoc, apply_writes_app. destruct HP as [Hn Hb Hh Hc Hl]. split.
  - intros b Hb'. cbn. unfold upd_at. rewrite decide_False by (unfold in_log in Hb'; lia).
    rewrite apply_writes_app, home_writes_lookup. case_decide; [done|]. apply apply_writes_notin.
    rewrite fmap_app. intros [H'%fst_log_writes|H'%list_elem_of_singleton]%elem_of_app; unfold in_log in Hb'.
    + lia.
    + cbn in H'. lia.
  - cbn. unfold upd_at. rewrite decide_True by done. apply hdr_n_clear. apply length_head_block; [lia|done].
Qed.
End crash.

(** ** Lemmas: running cache operations

    [cache_step s0 s V D R H r tr] describes the cache [s] reached from [s0]
    by its view, disk, counts, locks, idle buffers and the writes made; each
    operation takes one description to the next. *)
Section cache_rules.
Context {S : Type} {B : BufCache S} {V : BufCacheView S} {dv : Z} {L : BufCacheLaws S dv}.
Implicit Types s : S.

Lemma cs_refl s :
  v_inv s -> cache_step s s (v_view s) (v_disk s) (v_refs s) (v_held s) (v_room s) [].
Proof. intros. split; try done. by rewrite app_nil_r. Qed.

Lemma cs_weaken s0 s vw dk rf hd rm tr vw' dk' rf' hd' rm' :
  cache_step s0 s vw dk rf hd rm tr ->
  (forall b, vw b = vw' b) -> (forall b, dk b = dk' b) -> (forall b, rf b = rf' b) ->
  (forall b, hd b = hd' b) -> rm = rm' -> cache_step s0 s vw' dk' rf' hd' rm' tr.
Proof. intros [] E1 E2 E3 E4 ->. split; try done; intros b; by rewrite <- ?E1, <- ?E2, <- ?E3, <- ?E4. Qed.

Lemma upd_at_ext {A} (f g : Z -> A) k v w b :
  f b = g b -> v = w -> upd_at f k v b = upd_at g k w b.
Proof. intros E ->. unfold upd_at. case_decide; done. Qed.

Lemma cs_seq s0 s s' vw dk rf hd rm tr vw1 dk1 rf1 hd1 rm1 tr1 vw' dk' rf' hd' rm' :
  cache_step s0 s vw dk rf hd rm tr -> cache_step s s' vw1 dk1 rf1 hd1 rm1 tr1 ->
  (forall b, vw1 b = vw' b) -> (forall b, dk1 b = dk' b) -> (forall b, rf1 b = rf' b) ->
  (forall b, hd1 b = hd' b) -> rm1 = rm' -> cache_step s0 s' vw' dk' rf' hd' rm' (tr ++ tr1).
Proof.
  intros [I E1 E2 E3 E4 E5 E6] [I' F1 F2 F3 F4 F5 F6] G1 G2 G3 G4 ->.
  split; try done; intros; rewrite ?F1, ?F2, ?F3, ?F4, ?F5; auto.
  by rewrite F6, E6, <- app_assoc.
Qed.

Context (s0 : S).

Lemma st_read s vw dk rf hd rm tr b :
  cache_step s0 s vw dk rf hd rm tr -> hd b = None -> 0 < rf b \/ 0 < rm -> rf b < 2 ^ 31 ->
  runs (bc_read dv b) s (fun h s' =>
    cache_step s0 s' vw dk (upd_at rf b (rf b + 1)) (upd_at hd b (Some h))
      (if decide (rf b = 0) then rm - 1 else rm) tr).
Proof.
  intros C Hb Hr Hm. pose proof C as [I E1 E2 E3 E4 E5 E6].
  eapply runs_mono; [apply bl_read; [done|by rewrite E4|by rewrite E3, E5|by rewrite E3]|].
  intros h s' C'. rewrite <- (app_nil_r tr). eapply (cs_seq _ s); [done|exact C'|done|done|..].
  - intros c. apply upd_at_ext; [done|by rewrite E3].
  - intros c. by apply upd_at_ext.
  - by rewrite E3, E5.
Qed.

Lemma st_relse s vw dk rf hd rm tr b h :
  cache_step s0 s vw dk rf hd rm tr -> hd b = Some h -> (rf b = 1 -> vw b = dk b) ->
  runs (bc_relse h) s (fun _ s' =>
    cache_step s0 s' vw dk (upd_at rf b (rf b - 1)) (upd_at hd b None)
      (if decide (rf b = 1) then rm + 1 else rm) tr).
Proof.
  intros C Hb Hc. pose proof C as [I E1 E2 E3 E4 E5 E6].
  eapply runs_mono; [apply (bl_relse s b); [done|by rewrite E4|by rewrite E3, E1, E2]|].
  intros ? s' C'. cbn beta in C'. rewrite <- (app_nil_r tr). eapply (cs_seq _ s); [done|exact C'|done|done|..].
  - intros c. apply upd_at_ext; [done|by rewrite E3].
  - intros c. by apply upd_at_ext.
  - by rewrite E3, E5.
Qed.

Lemma st_write s vw dk rf hd rm tr b h :
  cache_step s0 s vw dk rf hd rm tr -> hd b = Some h ->
  runs (bc_write h) s (fun _ s' =>
    cache_step s0 s' vw (upd_at dk b (vw b)) rf hd rm (tr ++ [(b, vw b)])).
Proof.
  intros C Hb. pose proof C as [I E1 E2 E3 E4 E5 E6].
  eapply runs_mono; [apply (bl_write s b); [done|by rewrite E4]|].
  intros ? s' C'. cbn beta in C'. rewrite <- E1. eapply (cs_seq _ s); [done|exact C'|done|..]; try done.
  intros c. by apply upd_at_ext.
Qed.

Lemma st_pin s vw dk rf hd rm tr b h :
  cache_step s0 s vw dk rf hd rm tr -> hd b = Some h -> rf b < 2 ^ 31 ->
  runs (bc_pin h) s (fun _ s' =>
    cache_step s0 s' vw dk (upd_at rf b (rf b + 1)) hd rm tr).
Proof.
  intros C Hb Hr. pose proof C as [I E1 E2 E3 E4 E5 E6].
  eapply runs_mono; [apply (bl_pin s b); [done|by rewrite E4|by rewrite E3]|].
  intros ? s' C'. cbn beta in C'. rewrite <- (app_nil_r tr). eapply (cs_seq _ s); [done|exact C'|..]; try done.
  intros c. apply upd_at_ext; [done|by rewrite E3].
Qed.

Lemma st_unpin s vw dk rf hd rm tr b h :
  cache_step s0 s vw dk rf hd rm tr -> hd b = Some h -> 1 < rf b ->
  runs (bc_unpin h) s (fun _ s' =>
    cache_step s0 s' vw dk (upd_at rf b (rf b - 1)) hd rm tr).
Proof.
  intros C Hb Hr. pose proof C as [I E1 E2 E3 E4 E5 E6].
  eapply runs_mono; [apply (bl_unpin s b); [done|by rewrite E4|by rewrite E3]|].
  intros ? s' C'. cbn beta in C'. rewrite <- (app_nil_r tr). eapply (cs_seq _ s); [done|exact C'|..]; try done.
  intros c. apply upd_at_ext; [done|by rewrite E3].
Qed.

Lemma st_set s vw dk rf hd rm tr b h d :
  cache_step s0 s vw dk rf hd rm tr -> hd b = Some h -> length d = BSZ ->
  cache_step s0 (bc_set_data h d s) (upd_at vw b d) dk rf hd rm tr.
Proof.
  intros C Hb Hd. pose proof C as [I E1 E2 E3 E4 E5 E6].
  rewrite <- (app_nil_r tr).
  eapply (cs_seq _ s); [done|apply (bl_set s b); [done|by rewrite E4|done]|..]; try done.
  intros c. by apply upd_at_ext.
Qed.

Lemma st_data s vw dk rf hd rm tr b h :
  cache_step s0 s vw dk rf hd rm tr -> hd b = Some h -> bc_get_data h s = vw b.
Proof. intros [I E1 _ _ E4 _ _] Hb. rewrite <- E1. apply bl_data; [done|by rewrite E4]. Qed.

Lemma st_len s vw dk rf hd rm tr b :
  cache_step s0 s vw dk rf hd rm tr -> length (vw b) = BSZ.
Proof. intros [I E1 _ _ _ _ _]. rewrite <- E1. by apply bl_len. Qed.
End cache_rules.

(** ** The log's own state *)
Section log_state.
Context {S : Type} {B : BufCache S} {V : BufCacheView S}.
Implicit Types l : logst S.

(** The block numbers of the current transaction. *)
Definition logged l : list Z := map u32 (take (Z.to_nat (lg_n l)) (lg_block l)).

(** Geometry of the log: it lies on device [dv] and has room for its blocks. *)
Record log_wf (dv : Z) l : Prop := {
  lw_dev : lg_dev l = dv;
  lw_start : 0 <= lg_start l /\ lg_start l + lg_size l < 2 ^ 31;
  lw_n : 0 <= lg_n l <= LOGSIZE /\ lg_n l < lg_size l;
  lw_len : length (lg_block l) = LOGSIZEn;
  lw_home : forall b, b ∈ logged l -> ~ in_log (lg_start l) (lg_size l) b;
}.

Lemma logged_lookup l i b :
  lg_block l !! i = Some b -> (i < Z.to_nat (lg_n l))%nat -> logged l !! i = Some (u32 b).
Proof. intros E Hi. unfold logged. rewrite list_lookup_fmap, lookup_take_lt, E by done. done. Qed.

Lemma length_logged dv l : log_wf dv l -> length (logged l) = Z.to_nat (lg_n l).
Proof. intros [_ _ Hn Hl _]. unfold logged. rewrite length_map, length_take, Hl. unfold LOGSIZEn. lia. Qed.
End log_state.

Section log_run.
Context {S : Type} {B : BufCache S} {V : BufCacheView S} {dv : Z} {L : BufCacheLaws S dv}.
Implicit Types l : logst S.
Local Abbreviation LM := (M (logst S)).

Lemma run_bc {A} (m : M S A) l (Q : A -> logst S -> Prop) :
  runs m (lg_bc l) (fun a s' => Q a (set_bc s' l)) -> runs (on_bc m) l Q.
Proof. apply runs_zoom. Qed.

Lemma run_lbread l b (Q : nat -> logst S -> Prop) :
  lg_dev l = dv -> runs (bc_read dv (u32 b)) (lg_bc l) (fun h s' => Q h (set_bc s' l)) ->
  runs (log_bread b) l Q.
Proof. intros Hd H. unfold log_bread. mstep. rewrite Hd. by apply run_bc. Qed.

Lemma run_lh_block l i b (Q : Z -> logst S -> Prop) :
  lg_block l !! Z.to_nat i = Some b -> Q b l -> runs (lh_block i) l Q.
Proof. intros E HQ. unfold lh_block. mstep. rewrite E. by mstep. Qed.

Lemma run_copy s0 l vw dk rf hd rm tr b c to from (Q : unit -> logst S -> Prop) :
  cache_step s0 (lg_bc l) vw dk rf hd rm tr -> hd b = Some to -> hd c = Some from ->
  (forall s', cache_step s0 s' (upd_at vw b (vw c)) dk rf hd rm tr -> Q tt (set_bc s' l)) ->
  runs (copy_data to from) l Q.
Proof.
  intros C Hb Hc HQ. unfold copy_data. apply run_bc. mstep. apply HQ.
  rewrite (st_data s0 _ vw dk rf hd rm tr c from) by done.
  apply (st_set s0); [done|done|by eapply st_len].
Qed.

(** Opening the pair of buffers both copy loops work on: log block number
    [tail] and the block [lh.block[tail]] it belongs to. *)
Lemma run_pair {A} s0 l vw dk rf hd rm tr tail bno (k : nat -> nat -> LM A) (Q : A -> logst S -> Prop) :
  lg_dev l = dv -> lg_block l !! Z.to_nat tail = Some bno ->
  cache_step s0 (lg_bc l) vw dk rf hd rm tr ->
  let src := u32 (lg_start l + tail + 1) in
  let dst := u32 bno in
  src <> dst -> hd src = None -> hd dst = None -> rf src = 0 -> 0 <= rf dst < 2 ^ 31 ->
  (if decide (rf dst = 0) then 2 else 1) <= rm ->
  (forall a b s', cache_step s0 s' vw dk (upd_at (upd_at rf src 1) dst (rf dst + 1))
       (upd_at (upd_at hd src (Some a)) dst (Some b)) (rm - if decide (rf dst = 0) then 2 else 1) tr ->
     runs (k a b) (set_bc s' l) Q) ->
  runs (let! start := gets lg_start in
    let! lbuf := log_bread (start + tail + 1) in
    let! bno := lh_block tail in
    let! dbuf := log_bread bno in k lbuf dbuf) l Q.
Proof.
  intros Hdv Hbno C src dst Hne Hs Hd Rs Rd Hrm HK. mstep.
  apply runs_bind, run_lbread; [done|]. fold src.
  eapply runs_mono; [eapply st_read; [done|done| |lia]|].
  { rewrite Rs. right. case_decide; lia. }
  intros lbuf s1 C1. cbn beta in C1. rewrite decide_True in C1 by done.
  apply runs_bind. eapply run_lh_block; [done|].
  apply runs_bind, run_lbread; [done|]. fold dst.
  assert (E : upd_at rf src (rf src + 1) dst = rf dst) by (unfold upd_at; by rewrite decide_False).
  eapply runs_mono; [eapply (st_read s0 s1 _ _ _ _ _ _ dst); [exact C1|unfold upd_at; by rewrite decide_False| |]|].
  { rewrite E. case_decide; lia. }
  { rewrite E. lia. }
  intros dbuf s2 C2. cbn beta in C2. rewrite E in C2. apply (HK lbuf dbuf).
  eapply cs_weaken; [exact C2|done|done| |done|].
  - intros c. rewrite Rs. done.
  - case_decide; lia.
Qed.

Lemma run_relse {A} s0 l vw dk rf hd rm tr b h (k : LM A) (Q : A -> logst S -> Prop) :
  cache_step s0 (lg_bc l) vw dk rf hd rm tr -> hd b = Some h -> (rf b = 1 -> vw b = dk b) ->
  (forall s', cache_step s0 s' vw dk (upd_at rf b (rf b - 1)) (upd_at hd b None)
     (if decide (rf b = 1) then rm + 1 else rm) tr -> runs k (set_bc s' l) Q) ->
  runs (on_bc (bc_relse h) ;; k) l Q.
Proof.
  intros C Hb Hc HK. apply runs_bind, run_bc. eapply runs_mono; [by eapply (st_relse s0)|].
  intros ? s' C'. by apply HK.
Qed.

Lemma run_write {A} s0 l vw dk rf hd rm tr b h (k : LM A) (Q : A -> logst S -> Prop) :
  cache_step s0 (lg_bc l) vw dk rf hd rm tr -> hd b = Some h ->
  (forall s', cache_step s0 s' vw (upd_at dk b (vw b)) rf hd rm (tr ++ [(b, vw b)]) -> runs k (set_bc s' l) Q) ->
  runs (on_bc (bc_write h) ;; k) l Q.
Proof.
  intros C Hb HK. apply runs_bind, run_bc. eapply runs_mono; [by eapply (st_write s0)|].
  intros ? s' C'. by apply HK.
Qed.

(** One round of [install_trans]: the log block at [src] goes home to [dst]. *)
Lemma install_round s0 l vw dk rf hd rm tr (recovering : bool) tail bno (pin := if recovering then 0 else 1) :
  lg_dev l = dv -> lg_block l !! Z.to_nat tail = Some bno ->
  cache_step s0 (lg_bc l) vw dk rf hd rm tr ->
  let src := u32 (lg_start l + tail + 1) in
  let dst := u32 bno in
  src <> dst -> hd src = None -> hd dst = None -> rf src = 0 -> vw src = dk src ->
  rf dst = pin -> 2 - pin <= rm ->
  runs (let! start := gets lg_start in
    let! lbuf := log_bread (start + tail + 1) in
    let! bno := lh_block tail in
    let! dbuf := log_bread bno in
    copy_data dbuf lbuf ;;
    on_bc (bc_write dbuf) ;;
    (if recovering then ret tt else on_bc (bc_unpin dbuf)) ;;
    on_bc (bc_relse lbuf) ;;
    on_bc (bc_relse dbuf) ;;
    ret None) l
    (fun (r : option unit) l' => r = None /\ exists s', l' = set_bc s' l /\
      cache_step s0 s' (upd_at vw dst (vw src)) (upd_at dk dst (vw src)) (upd_at rf dst 0) hd
        (rm + pin) (tr ++ [(dst, vw src)])).
Proof.
  intros Hdv Hbno C src dst Hne Hs Hd Rs Vs Rd Hrm.
  eapply run_pair; try done; fold src dst; rewrite ?Rd.
  { subst pin. destruct recovering; lia. }
  { subst pin. destruct recovering; case_decide; lia. }
  intros lbuf dbuf s1 C1. apply runs_bind.
  eapply (run_copy s0 _ _ _ _ _ _ _ dst src); [exact C1|upd_solve|upd_solve|].
  intros s2 C2. eapply (run_write s0 _ _ _ _ _ _ _ dst); [exact C2|upd_solve|].
  intros s3 C3. apply runs_bind.
  assert (HU : runs (if recovering then ret tt else on_bc (bc_unpin dbuf))
    (set_bc s3 (set_bc s2 (set_bc s1 l))) (fun _ l' => exists s4, l' = set_bc s4 l /\
      cache_step s0 s4 (upd_at vw dst (vw src)) (upd_at dk dst (vw src)) (upd_at (upd_at rf src 1) dst 1)
        (upd_at (upd_at hd src (Some lbuf)) dst (Some dbuf)) (rm - 2 + pin) (tr ++ [(dst, vw src)]))).
  { assert (Hv : upd_at vw dst (vw src) dst = vw src) by upd_solve. rewrite Hv in C3.
    subst pin. destruct recovering.
    - mstep. exists s3. split; [done|]. eapply cs_weaken; [exact C3|..]; try done; upd_solve.
    - apply run_bc. eapply runs_mono; [eapply (st_unpin s0 s3 _ _ _ _ _ _ dst); [exact C3|upd_solve|upd_solve]|].
      intros ? s4 C4. exists s4. split; [done|]. eapply cs_weaken; [exact C4|..]; try done; intros; upd_solve. }
  eapply runs_mono; [exact HU|]. intros ? l' (s4 & -> & C4).
  eapply (run_relse s0 _ _ _ _ _ _ _ src); [exact C4|upd_solve|upd_solve|].
  intros s5 C5. eapply (run_relse s0 _ _ _ _ _ _ _ dst); [exact C5|upd_solve|upd_solve|].
  intros s6 C6. mstep. split; [done|]. exists s6. split; [done|].
  eapply cs_weaken; [exact C6|..]; try done; intros; upd_solve.
Qed.

(** One round of [write_log]: the cached block [dst] goes to the log. *)
Lemma write_round s0 l vw dk rf hd rm tr tail bno :
  lg_dev l = dv -> lg_block l !! Z.to_nat tail = Some bno ->
  cache_step s0 (lg_bc l) vw dk rf hd rm tr ->
  let src := u32 (lg_start l + tail + 1) in
  let dst := u32 bno in
  src <> dst -> hd src = None -> hd dst = None -> rf src = 0 -> rf dst = 1 -> 1 <= rm ->
  runs (let! start := gets lg_start in
    let! to := log_bread (start + tail + 1) in
    let! bno := lh_block tail in
    let! from := log_bread bno in
    copy_data to from ;;
    on_bc (bc_write to) ;;
    on_bc (bc_relse from) ;;
    on_bc (bc_relse to) ;;
    ret None) l
    (fun (r : option unit) l' => r = None /\ exists s', l' = set_bc s' l /\
      cache_step s0 s' (upd_at vw src (vw dst)) (upd_at dk src (vw dst)) rf hd rm (tr ++ [(src, vw dst)])).
Proof.
  intros Hdv Hbno C src dst Hne Hs Hd Rs Rd Hrm.
  eapply run_pair; try done; fold src dst; rewrite ?Rd; try (rewrite decide_False by lia); try lia.
  intros to from s1 C1. apply runs_bind.
  eapply (run_copy s0 _ _ _ _ _ _ _ src dst); [exact C1|upd_solve|upd_solve|].
  intros s2 C2. eapply (run_write s0 _ _ _ _ _ _ _ src); [exact C2|upd_solve|].
  intros s3 C3. eapply (run_relse s0 _ _ _ _ _ _ _ dst); [exact C3|upd_solve|upd_solve|].
  intros s4 C4. eapply (run_relse s0 _ _ _ _ _ _ _ src); [exact C4|upd_solve|upd_solve|].
  intros s5 C5. mstep. split; [done|]. exists s5. split; [done|].
  assert (Hv : upd_at vw src (vw dst) src = vw dst) by upd_solve. rewrite Hv in C5.
  eapply cs_weaken; [exact C5|..]; try done; intros; upd_solve.
Qed.
Lemma log_blkno l k :
  log_wf dv l -> 0 <= k < lg_n l -> u32 (lg_start l + k + 1) = lg_start l + k + 1.
Proof. intros [_ Hs Hn _ _] Hk. apply u32_small. lia. Qed.

Lemma lg_block_lookup l k :
  log_wf dv l -> (k < Z.to_nat (lg_n l))%nat ->
  exists b, lg_block l !! Z.to_nat (0 + 1 * Z.of_nat k) = Some b /\ logged l !! k = Some (u32 b).
Proof.
  intros W Hk. pose proof W as [_ _ Hn Hl _].
  destruct (lookup_lt_is_Some_2 (lg_block l) k) as [b Hb]; [rewrite Hl; unfold LOGSIZEn; lia|].
  exists b. replace (Z.to_nat (0 + 1 * Z.of_nat k)) with k by lia. split; [done|by apply logged_lookup].
Qed.

Lemma apply_writes_snoc d tr b c e :
  apply_writes d (tr ++ [(b, c)]) e = upd_at (apply_writes d tr) b c e.
Proof. by rewrite apply_writes_app. Qed.

Lemma take_install start d bl k b :
  bl !! k = Some b ->
  take (Datatypes.S k) (install_writes start d bl) = take k (install_writes start d bl) ++ [(b, d (start + Z.of_nat k + 1))].
Proof.
  intros H. apply take_S_r. unfold install_writes. by rewrite list_lookup_imap, H.
Qed.

Lemma take_log_writes start d bl k b :
  bl !! k = Some b ->
  take (Datatypes.S k) (log_writes start d bl) = take k (log_writes start d bl) ++ [(start + Z.of_nat k + 1, d b)].
Proof.
  intros H. apply take_S_r. unfold log_writes. by rewrite list_lookup_imap, H.
Qed.

Lemma length_install start d bl : length (install_writes start d bl) = length bl.
Proof. apply length_imap. Qed.
Lemma length_log_writes start d bl : length (log_writes start d bl) = length bl.
Proof. apply length_imap. Qed.

Lemma take_elem_lookup {A} (bl : list A) k b c :
  bl !! k = Some b -> c ∈ take (Datatypes.S k) bl <-> c ∈ take k bl \/ c = b.
Proof. intros H. rewrite (take_S_r _ _ _ H), elem_of_app, list_elem_of_singleton. done. Qed.

Lemma install_trans_run s0 l vw dk rf hd rm tr (recovering : bool) (pin := if recovering then 0 else 1) :
  log_wf dv l -> cache_step s0 (lg_bc l) vw dk rf hd rm tr -> (forall b, hd b = None) ->
  (forall b, in_log (lg_start l) (lg_size l) b -> rf b = 0 /\ vw b = dk b) ->
  (forall b, b ∈ logged l -> rf b = pin) -> (recovering = true \/ NoDup (logged l)) -> 2 - pin <= rm ->
  let W := install_writes (lg_start l) vw (logged l) in
  runs (install_trans recovering) l (fun _ l' => exists s', l' = set_bc s' l /\
    cache_step s0 s' (apply_writes vw W) (apply_writes dk W)
      (fun b => if decide (b ∈ logged l) then 0 else rf b) hd (rm + pin * lg_n l) (tr ++ W)).
Proof.
  intros HW C Hh Hlog Hpin Hnd Hrm W. unfold install_trans. mstep.
  pose proof (length_logged dv l HW) as HL. pose proof HW as [Hdv Hst Hn Hlen Hhome].
  assert (HWl : length W = Z.to_nat (lg_n l)) by (unfold W; by rewrite length_install).
  apply runs_bind.
  apply (runs_forn _ 0 1 _ (fun k l' => exists s', l' = set_bc s' l /\
    cache_step s0 s' (apply_writes vw (take k W)) (apply_writes dk (take k W))
      (fun b => if decide (b ∈ take k (logged l)) then 0 else rf b) hd (rm + pin * Z.of_nat k) (tr ++ take k W))).
  - exists (lg_bc l). split; [by destruct l|]. cbn [take apply_writes fold_left]. rewrite app_nil_r.
    eapply cs_weaken; [exact C|..]; try done; intros; lia.
  - intros k t Hk (s1 & -> & C1). destruct (lg_block_lookup l k HW Hk) as (bno & Hb1 & Hb2).
    assert (HU : u32 (lg_start l + (0 + 1 * Z.of_nat k) + 1) = lg_start l + Z.of_nat k + 1).
    { rewrite log_blkno by (done || lia). lia. }
    assert (Hin : in_log (lg_start l) (lg_size l) (lg_start l + Z.of_nat k + 1)) by (unfold in_log; lia).
    assert (Hdst : u32 bno ∈ logged l) by (by eapply list_elem_of_lookup_2).
    assert (Hnl : forall c, c ∈ take k (logged l) -> ~ in_log (lg_start l) (lg_size l) c).
    { intros c Hc. apply Hhome. by apply elem_of_take in Hc as (? & ?%list_elem_of_lookup_2 & _). }
    assert (Hold : forall f, apply_writes f (take k W) (lg_start l + Z.of_nat k + 1) = f (lg_start l + Z.of_nat k + 1)).
    { intros f. apply apply_writes_notin. unfold W. rewrite fmap_take, fst_install.
      intros Hc. by apply (Hnl _ Hc). }
    eapply runs_mono; [eapply (install_round s0 (set_bc s1 l) _ _ _ _ _ _ recovering _ bno); try done; cbn -[u32 decide]; rewrite ?HU|].
    + intros Heq. apply (Hhome (u32 bno)); [done|]. by rewrite <- Heq.
    + rewrite decide_False by (intros Hc; by apply (Hnl _ Hc)). by apply Hlog.
    + rewrite !Hold. by apply Hlog.
    + case_decide as Hc; [|by apply Hpin]. destruct Hnd as [->|Hnd]; [done|]. exfalso.
      apply elem_of_take in Hc as (i & Hi & Hik). pose proof (NoDup_lookup _ _ _ _ Hnd Hi Hb2). lia.
    + subst pin. destruct recovering; lia.
    + cbn -[u32 decide]. rewrite HU, Hold. intros r t (-> & s2 & -> & C2). exists s2. split; [done|].
      unfold W. rewrite (take_install _ _ _ _ _ Hb2), app_assoc. fold W.
      eapply cs_weaken; [exact C2|..]; intros; rewrite ?apply_writes_snoc; try done; [|lia].
      pose proof (take_elem_lookup _ _ _ b Hb2). upd_solve; tauto.
  - intros t (s1 & -> & C1). mstep. exists s1. split; [done|].
    rewrite !take_ge in C1 by lia. by rewrite Z2Nat.id in C1 by lia.
Qed.

Lemma write_log_run s0 l vw dk rf hd rm tr :
  log_wf dv l -> cache_step s0 (lg_bc l) vw dk rf hd rm tr -> (forall b, hd b = None) ->
  (forall b, in_log (lg_start l) (lg_size l) b -> rf b = 0) ->
  (forall b, b ∈ logged l -> rf b = 1) -> 1 <= rm ->
  let W := log_writes (lg_start l) vw (logged l) in
  runs write_log l (fun _ l' => exists s', l' = set_bc s' l /\
    cache_step s0 s' (apply_writes vw W) (apply_writes dk W) rf hd rm (tr ++ W)).
Proof.
  intros HW C Hh Hlog Hpin Hrm W. unfold write_log. mstep.
  pose proof (length_logged dv l HW) as HL. pose proof HW as [Hdv Hst Hn Hlen Hhome].
  assert (HWl : length W = Z.to_nat (lg_n l)) by (unfold W; by rewrite length_log_writes).
  apply runs_bind.
  apply (runs_forn _ 0 1 _ (fun k l' => exists s', l' = set_bc s' l /\
    cache_step s0 s' (apply_writes vw (take k W)) (apply_writes dk (take k W)) rf hd rm (tr ++ take k W))).
  - exists (lg_bc l). split; [by destruct l|]. cbn [take apply_writes fold_left]. by rewrite app_nil_r.
  - intros k t Hk (s1 & -> & C1). destruct (lg_block_lookup l k HW Hk) as (bno & Hb1 & Hb2).
    assert (HU : u32 (lg_start l + (0 + 1 * Z.of_nat k) + 1) = lg_start l + Z.of_nat k + 1).
    { rewrite log_blkno by (done || lia). lia. }
    assert (Hin : in_log (lg_start l) (lg_size l) (lg_start l + Z.of_nat k + 1)) by (unfold in_log; lia).
    assert (Hdst : u32 bno ∈ logged l) by (by eapply list_elem_of_lookup_2).
    assert (Hold : forall f, apply_writes f (take k W) (u32 bno) = f (u32 bno)).
    { intros f. apply apply_writes_notin. intros Hc. apply (Hhome (u32 bno)); [done|].
      assert (u32 bno ∈ W.*1) as H%fst_log_writes; [|unfold in_log; lia].
      rewrite fmap_take in Hc. by apply elem_of_take in Hc as (? & ?%list_elem_of_lookup_2 & _). }
    eapply runs_mono; [eapply (write_round s0 (set_bc s1 l) _ _ _ _ _ _ _ bno); try done; cbn -[u32]; rewrite ?HU|].
    + intros Heq. apply (Hhome (u32 bno)); [done|]. by rewrite <- Heq.
    + by apply Hlog.
    + by apply Hpin.
    + cbn -[u32]. rewrite HU, Hold. intros r t (-> & s2 & -> & C2). exists s2. split; [done|].
      unfold W. rewrite (take_log_writes _ _ _ _ _ Hb2), app_assoc. fold W.
      eapply cs_weaken; [exact C2|..]; intros; rewrite ?apply_writes_snoc; done.
  - intros t (s1 & -> & C1). mstep. exists s1. split; [done|].
    by rewrite !take_ge in C1 by lia.
Qed.
Lemma write_head_run s0 l vw dk rf hd rm tr :
  lg_dev l = dv -> 0 <= lg_start l < 2 ^ 32 -> lg_n l <= LOGSIZE ->
  cache_step s0 (lg_bc l) vw dk rf hd rm tr -> hd (lg_start l) = None -> rf (lg_start l) = 0 -> 1 <= rm ->
  let h := head_block (lg_n l) (lg_block l) (vw (lg_start l)) in
  runs write_head l (fun _ l' => exists s', l' = set_bc s' l /\
    cache_step s0 s' (upd_at vw (lg_start l) h) (upd_at dk (lg_start l) h) rf hd rm (tr ++ [(lg_start l, h)])).
Proof.
  intros Hdv Hst Hn C Hh Hr Hrm h. unfold write_head. mstep.
  apply runs_bind, run_lbread; [done|]. rewrite u32_small by done.
  eapply runs_mono; [eapply (st_read s0); [exact C|done|lia|lia]|].
  intros buf s1 C1. cbn beta in C1. do 2 mstep. cbn [set_bc lg_n lg_block].
  rewrite (proj2 (Z.ltb_ge _ _)) by done.
  apply runs_bind, run_bc. mstep. cbn [set_bc lg_bc].
  rewrite (st_data s0 _ _ _ _ _ _ _ (lg_start l) buf C1) by upd_solve. fold (head_block (lg_n l) (lg_block l) (vw (lg_start l))). fold h.
  eapply (run_write s0 _ _ _ _ _ _ _ (lg_start l)); [eapply (st_set s0 _ _ _ _ _ _ _ (lg_start l)); [exact C1|upd_solve|]|upd_solve|].
  { apply length_head_block; [done|]. eapply st_len. exact C. }
  intros s2 C2. apply run_bc.
  eapply runs_mono; [eapply (st_relse s0 _ _ _ _ _ _ _ (lg_start l)); [exact C2|upd_solve|upd_solve]|].
  intros ? s3 C3. exists s3. split; [done|].
  assert (Hv : upd_at vw (lg_start l) h (lg_start l) = h) by upd_solve. rewrite Hv in C3.
  eapply cs_weaken; [exact C3|..]; try done; intros; upd_solve.
Qed.

Lemma length_load_blocks k i d bl : length (load_blocks k i d bl) = length bl.
Proof. revert i bl. induction k as [|k IH]; intros i bl; [done|]. cbn. by rewrite IH, length_insert. Qed.

Lemma load_blocks_lookup k i d bl j :
  (i + k <= length bl)%nat ->
  load_blocks k i d bl !! j =
    if decide (i <= j < i + k)%nat then Some (s32 (get_le d (hb_off j) 4)) else bl !! j.
Proof.
  revert i bl. induction k as [|k IH]; intros i bl Hl; cbn [load_blocks].
  - rewrite decide_False by lia. done.
  - rewrite IH by (rewrite length_insert; lia).
    destruct (decide (j = i)) as [->|Hne].
    + rewrite decide_False, decide_True by lia. rewrite list_lookup_insert_eq by lia. done.
    + rewrite list_lookup_insert_ne by done. repeat case_decide; done || lia.
Qed.

Lemma logged_load d bl n :
  n = hdr_n d -> 0 <= n <= LOGSIZE -> length bl = LOGSIZEn ->
  map u32 (take (Z.to_nat n) (load_blocks (Z.to_nat n) 0 d bl)) = hdr_list d.
Proof.
  intros -> Hn Hl. pose proof (n_nat _ (proj2 Hn)). unfold hdr_list. apply list_eq. intros i.
  rewrite !list_lookup_fmap. destruct (decide (i < Z.to_nat (hdr_n d))%nat).
  - rewrite lookup_take_lt, lookup_seq_lt by done. rewrite load_blocks_lookup by lia.
    rewrite decide_True by lia. done.
  - rewrite lookup_take_ge, lookup_seq_ge by lia. done.
Qed.

Lemma read_head_run s0 l vw dk rf hd rm tr :
  lg_dev l = dv -> 0 <= lg_start l < 2 ^ 32 ->
  cache_step s0 (lg_bc l) vw dk rf hd rm tr -> hd (lg_start l) = None -> rf (lg_start l) = 0 -> 1 <= rm ->
  vw (lg_start l) = dk (lg_start l) ->
  let h := vw (lg_start l) in
  hdr_n h <= LOGSIZE ->
  runs read_head l (fun _ l' => exists s',
    l' = set_block (load_blocks (Z.to_nat (hdr_n h)) 0 h (lg_block l)) (set_n (hdr_n h) (set_bc s' l)) /\
    cache_step s0 s' vw dk rf hd rm tr).
Proof.
  intros Hdv Hst C Hh Hr Hrm Hv h Hn. unfold read_head. mstep.
  apply runs_bind, run_lbread; [done|]. rewrite u32_small by done.
  eapply runs_mono; [eapply (st_read s0); [exact C|done|lia|lia]|].
  intros buf s1 C1. cbn beta in C1. do 3 mstep. cbn [set_bc lg_n lg_block lg_bc set_n].
  rewrite (st_data s0 _ _ _ _ _ _ _ (lg_start l) buf C1) by upd_solve.
  fold h. fold (hdr_n h). rewrite (proj2 (Z.ltb_ge _ _)) by done. mstep.
  apply run_bc. cbn [set_bc lg_bc set_n set_block].
  eapply runs_mono; [eapply (st_relse s0 _ _ _ _ _ _ _ (lg_start l)); [exact C1|upd_solve|upd_solve]|].
  intros ? s3 C3. exists s3. split; [done|].
  eapply cs_weaken; [exact C3|..]; try done; intros; upd_solve.
Qed.

(** The cache as a boot or a finished commit leaves it: nothing referenced. *)
Record idle_cache (s : S) : Prop := {
  ic_inv : v_inv s;
  ic_refs : forall b, v_refs s b = 0;
  ic_held : forall b, v_held s b = None;
}.

Lemma idle_clean s b : idle_cache s -> v_view s b = v_disk s b.
Proof. intros [I R _]. by apply bl_clean. Qed.

Lemma recover_run l :
  lg_dev l = dv -> 0 <= lg_start l -> lg_start l + lg_size l < 2 ^ 31 -> length (lg_block l) = LOGSIZEn ->
  idle_cache (lg_bc l) -> 2 <= v_room (lg_bc l) ->
  head_ok (lg_start l) (lg_size l) (v_disk (lg_bc l) (lg_start l)) ->
  runs recover_from_log l (fun _ l' =>
    idle_cache (lg_bc l') /\ lg_n l' = 0 /\ v_room (lg_bc l') = v_room (lg_bc l) /\
    v_trace (lg_bc l') = v_trace (lg_bc l) ++ recover_writes (lg_start l) (v_disk (lg_bc l)) /\
    (forall b, v_disk (lg_bc l') b = recovered (lg_start l) (v_disk (lg_bc l)) b) /\
    exists bl s', length bl = LOGSIZEn /\ l' = set_n 0 (set_block bl (set_bc s' l))).
Proof.
  intros Hdv Hs1 Hs2 Hbl IC Hrm [Hl [Hn Hn'] Hho]. set (d := v_disk (lg_bc l)) in *.
  set (h := d (lg_start l)) in *. pose proof IC as [I R HH].
  assert (EV : forall b, v_view (lg_bc l) b = d b) by (intros; by apply idle_clean).
  assert (C0 : cache_step (lg_bc l) (lg_bc l) d d (fun _ => 0) (fun _ => None) (v_room (lg_bc l)) []).
  { eapply cs_weaken; [by apply cs_refl|..]; done. }
  unfold recover_from_log. eapply runs_seq.
  { eapply (read_head_run (lg_bc l) l); [done|lia|exact C0|done|done|lia|done|apply Hn]. }
  intros ? l1 (s1 & -> & C1). fold h in C1 |- *.
  set (bl := load_blocks (Z.to_nat (hdr_n h)) 0 h (lg_block l)).
  set (l1 := set_block bl (set_n (hdr_n h) (set_bc s1 l))).
  assert (EL : logged l1 = hdr_list h) by (by apply logged_load).
  assert (W1 : log_wf dv l1).
  { split; cbn; try done; [by unfold bl; rewrite length_load_blocks|]. rewrite EL. exact Hho. }
  eapply runs_seq.
  { eapply (install_trans_run (lg_bc l) l1 d d _ _ _ [] true W1); [exact C1|done|done|done|by left|lia]. }
  intros ? l2 (s2 & -> & C2). cbn beta in C2. rewrite EL in C2. cbn [lg_start l1 set_block set_n set_bc] in C2.
  mstep. eapply runs_mono.
  { eapply (write_head_run (lg_bc l)); [done|cbn; lia|cbn; unfold LOGSIZE, MAXOPBLOCKS; lia|exact C2|done|cbn|cbn; lia].
    by case_decide. }
  cbn [lg_start l1 set_block set_n set_bc lg_n lg_block]. intros ? l3 (s3 & -> & C3). cbn [lg_bc set_bc lg_n].
  assert (Hst : apply_writes d (install_writes (lg_start l) d (hdr_list h)) (lg_start l) = h).
  { apply apply_writes_notin. rewrite fst_install. intros Hc%Hho. apply Hc. unfold in_log. lia. }
  rewrite Hst in C3. unfold head_block in C3. cbn [Z.to_nat store_blocks] in C3.
  destruct C3 as [I3 V3 D3 R3 H3 M3 T3]. split_and!; try done.
  - split; [done|intros b; rewrite R3; by case_decide|done].
  - rewrite M3. lia.
  - intros b. rewrite D3. unfold recovered, recover_writes. fold h. rewrite apply_writes_app. done.
  - exists bl, s3. split; [|done]. unfold bl. by rewrite length_load_blocks.
Qed.
(** The machine as a boot finds it: disk [d], an idle buffer cache, and the
    log in its zeroed memory. *)
Record booted (d : Z -> block) l : Prop := {
  bd_disk : forall b, v_disk (lg_bc l) b = d b;
  bd_len : length (lg_block l) = LOGSIZEn;
  bd_idle : idle_cache (lg_bc l);
  bd_room : 2 <= v_room (lg_bc l);
}.

(** Boots that are cut short: each runs [initlog] and stops after some prefix
    [p] of the disk writes [W] that the call issues. *)
Inductive boots (sb : superblock) : (Z -> block) -> (Z -> block) -> Prop :=
| boots_none d : boots sb d d
| boots_again d l l' W p d' :
    booted d l -> initlog dv sb l = (Ret tt, l') ->
    v_trace (lg_bc l') = v_trace (lg_bc l) ++ W -> p `prefix_of` W ->
    boots sb (apply_writes d p) d' -> boots sb d d'.

(** A complete [initlog]: its disk writes, and the state it leaves. *)
Lemma initlog_run d l sb (start := sb_logstart sb) (size := sb_nlog sb) :
  0 <= start -> start + size < 2 ^ 31 -> booted d l -> head_ok start size (d start) ->
  runs (initlog dv sb) l (fun _ l' =>
    lk_free (lg_lock l') /\ log_wf dv l' /\ lg_n l' = 0 /\ idle_cache (lg_bc l') /\
    v_trace (lg_bc l') = v_trace (lg_bc l) ++ recover_writes start d /\
    forall b, v_disk (lg_bc l') b = recovered start d b).
Proof.
  intros Hs1 Hs2 [HD Hbl IC Hrm] Hok.
  unfold initlog. change (BSIZE <=? 4 + 4 * LOGSIZE) with false. cbv iota. do 3 mstep.
  rewrite !s32_small by (fold start size; destruct Hok; lia). fold start size.
  eapply runs_mono; [apply recover_run; try done; cbn; fold start; by rewrite ?HD|].
  intros ? l' (IC' & N & _ & T & D & bl & s' & Hbl' & ->).
  cbn [lg_bc set_n set_block set_bc set_geom set_lg_lock lg_start] in T, D, IC' |- *.
  rewrite (recover_writes_ext _ _ d HD) in T. split_and!; try done.
  - split; cbn; try done; [destruct Hok; unfold LOGSIZE, MAXOPBLOCKS; lia|]. intros b Hb. set_solver.
  - intros b. rewrite D. by apply recovered_ext.
Qed.

(** Boots cut short are interrupted recoveries. *)
Lemma boots_crashes sb d d' (start := sb_logstart sb) (size := sb_nlog sb) :
  0 <= start -> start + size < 2 ^ 31 -> head_ok start size (d start) -> boots sb d d' ->
  crashes start d d'.
Proof.
  intros Hs1 Hs2 Hok HB. induction HB as [d|d l l' W p d' Hl E T Hp HB IH]; [constructor|].
  destruct (initlog_run d l sb Hs1 Hs2 Hl Hok) as ([] & l1 & E1 & _ & _ & _ & _ & T1 & _).
  rewrite E in E1. injection E1 as <-. rewrite T in T1. apply app_inv_head in T1 as ->.
  apply (crash_again start d p d' Hp). apply IH. by apply (recover_prefix start size d p).
Qed.

(** The boot that completes, after any number that did not. *)
Lemma boots_recover sb d d' l2 (start := sb_logstart sb) (size := sb_nlog sb) :
  0 <= start -> start + size < 2 ^ 31 -> head_ok start size (d start) ->
  boots sb d d' -> booted d' l2 ->
  runs (initlog dv sb) l2 (fun _ l3 =>
    log_wf dv l3 /\ lg_n l3 = 0 /\ hdr_n (v_disk (lg_bc l3) start) = 0 /\
    same_data start size (v_disk (lg_bc l3)) (recovered start d)).
Proof.
  intros Hs1 Hs2 Hok HB Hl2. apply boots_crashes in HB; [|done..].
  destruct (recover_crashes start size d d' Hok HB) as [Hsame Hok'].
  eapply runs_mono; [by apply initlog_run|]. intros ? l3 (_ & W3 & N3 & _ & _ & D3). split_and!; try done.
  - rewrite D3. apply hdr_n_recovered, Hok'.
  - intros b Hb. rewrite D3. by apply Hsame.
Qed.

(** The log when the last outstanding operation ends: the logged blocks are
    pinned and nothing else is referenced; the header on disk is clear. *)
Record commit_ready l : Prop := {
  cr_wf : log_wf dv l;
  cr_nodup : NoDup (logged l);
  cr_inv : v_inv (lg_bc l);
  cr_held : forall b, v_held (lg_bc l) b = None;
  cr_refs : forall b, v_refs (lg_bc l) b = if decide (b ∈ logged l) then 1 else 0;
  cr_room : 1 <= v_room (lg_bc l);
  cr_clear : hdr_n (v_disk (lg_bc l) (lg_start l)) = 0;
}.

Lemma commit_ready_clean l b : commit_ready l -> b ∉ logged l -> v_view (lg_bc l) b = v_disk (lg_bc l) b.
Proof. intros CR Hb. apply bl_clean; [apply CR|]. rewrite (cr_refs l CR). by rewrite decide_False. Qed.

Lemma in_log_not_logged l b : log_wf dv l -> in_log (lg_start l) (lg_size l) b -> b ∉ logged l.
Proof. intros W Hb Hl. by apply (lw_home dv l W b Hl). Qed.

(** Once the log blocks hold the logged blocks' contents, installing them
    writes those contents home. *)
Lemma install_home start v f lb :
  (forall i b, lb !! i = Some b -> f (start + Z.of_nat i + 1) = v b) ->
  install_writes start f lb = home_writes v lb.
Proof.
  intros H. apply list_eq. intros i. unfold install_writes, home_writes.
  rewrite list_lookup_fmap, list_lookup_imap. destruct (lb !! i) as [b|] eqn:E; [|done].
  cbn. by rewrite (H i b E).
Qed.

(** Writing the log and the header: the first half of [commit]. *)
Lemma commit_first_half l (v := v_view (lg_bc l)) (d := v_disk (lg_bc l)) (start := lg_start l)
    (h := head_block (lg_n l) (lg_block l) (d start))
    (W := log_writes start v (logged l) ++ [(start, h)]) :
  commit_ready l ->
  runs (write_log ;; write_head) l (fun _ l' => exists s', l' = set_bc s' l /\
    cache_step (lg_bc l) s' (apply_writes v W) (apply_writes d W) (v_refs (lg_bc l))
      (v_held (lg_bc l)) (v_room (lg_bc l)) W).
Proof.
  intros CR. pose proof CR as [HW Hnd I HH HR Hrm Hcl]. pose proof HW as [Hdv Hst Hn Hlen Hhome].
  assert (Hrlog : forall b, in_log start (lg_size l) b -> v_refs (lg_bc l) b = 0).
  { intros b Hb. rewrite HR, decide_False by (by eapply in_log_not_logged). done. }
  assert (Hstart : in_log start (lg_size l) start) by (unfold in_log; lia).
  eapply runs_seq.
  { eapply (write_log_run (lg_bc l) l _ _ _ _ _ [] HW); [by apply cs_refl|done|done| |done].
    intros b Hb. by rewrite HR, decide_True. }
  intros ? l1 (s1 & -> & C1). cbn [app] in C1. fold start v d in C1.
  eapply runs_mono.
  { eapply (write_head_run (lg_bc l)); [done|cbn; lia|cbn; lia|exact C1|done|by apply Hrlog|done]. }
  cbn [lg_start set_bc lg_n lg_block]. intros ? l2 (s2 & -> & C2). exists s2. split; [done|].
  fold start in C2.
  assert (E : apply_writes v (log_writes start v (logged l)) start = d start).
  { rewrite apply_writes_notin; [|intros Hc%fst_log_writes; lia].
    apply commit_ready_clean; [done|by eapply in_log_not_logged]. }
  rewrite E in C2. fold h in C2.
  eapply cs_weaken; [exact C2|..]; try done; intros b; unfold W; by rewrite apply_writes_snoc.
Qed.

Lemma commit_run l (v := v_view (lg_bc l)) (d := v_disk (lg_bc l))
    (W := commit_writes (lg_start l) v d (lg_n l) (lg_block l)) :
  commit_ready l -> 0 < lg_n l ->
  runs commit l (fun _ l' =>
    idle_cache (lg_bc l') /\ (exists s', l' = set_n 0 (set_bc s' l)) /\
    v_room (lg_bc l') = v_room (lg_bc l) + lg_n l /\
    v_trace (lg_bc l') = v_trace (lg_bc l) ++ W /\
    (forall b, v_disk (lg_bc l') b = apply_writes d W b)).
Proof.
  intros CR Hpos. pose proof CR as [HW Hnd I HH HR Hrm Hcl]. pose proof HW as [Hdv Hst Hn Hlen Hhome].
  unfold commit. mstep. rewrite (proj2 (Z.ltb_lt _ _)) by done.
  set (start := lg_start l) in *. set (h := head_block (lg_n l) (lg_block l) (d start)).
  set (W1 := log_writes start v (logged l) ++ [(start, h)]).
  apply (runs_assoc write_log (fun _ => write_head)). eapply runs_seq; [by apply commit_first_half|]. fold start v d h W1.
  intros ? l1 (s1 & -> & C1).
  assert (HW1 : forall b, in_log start (lg_size l) b -> apply_writes v W1 b = apply_writes d W1 b).
  { intros b Hb. apply apply_writes_agree. apply commit_ready_clean; [done|by eapply in_log_not_logged]. }
  eapply runs_seq.
  { eapply (install_trans_run (lg_bc l) (set_bc s1 l) _ _ _ _ _ _ false); [|exact C1|done| | |by right|done].
    - by destruct HW.
    - intros b Hb. split; [|by apply HW1]. rewrite HR, decide_False by (by eapply in_log_not_logged). done.
    - intros b Hb. rewrite HR, decide_True by done. done. }
  cbn [lg_start set_bc lg_n lg_block]. intros ? l2 (s2 & -> & C2). fold start in C2.
  change (logged (set_bc s1 l)) with (logged l) in C2.
  rewrite (install_home start v) in C2.
  2:{ intros i b Hi. unfold W1. rewrite apply_writes_snoc. unfold upd_at. rewrite decide_False by lia.
      by apply log_writes_lookup. }
  assert (Hs : start ∉ logged l) by (eapply in_log_not_logged; [done|unfold in_log; lia]).
  mstep. eapply runs_mono.
  { eapply (write_head_run (lg_bc l)); [done|cbn; lia|cbn; unfold LOGSIZE, MAXOPBLOCKS; lia|exact C2|done| |cbn; lia].
    cbn -[decide]. rewrite decide_False by done. rewrite HR. by rewrite decide_False. }
  cbn [lg_start set_n set_bc lg_n lg_block]. intros ? l3 (s3 & -> & C3). fold start in C3. cbn [lg_bc set_bc].
  assert (E : apply_writes (apply_writes v W1) (home_writes v (logged l)) start = h).
  { rewrite apply_writes_notin by (by rewrite fst_home). unfold W1. rewrite apply_writes_snoc. unfold upd_at. by rewrite decide_True. }
  rewrite E in C3. unfold head_block in C3 at 1 2 3. cbn [Z.to_nat store_blocks] in C3.
  assert (EW : W = (W1 ++ home_writes v (logged l)) ++ [(start, put_le h 0 4 0)]).
  { unfold W, commit_writes, W1. by rewrite <- !app_assoc. }
  destruct C3 as [I3 V3 D3 R3 H3 M3 T3]. split_and!; try done.
  - split; [done| |by intros; rewrite H3]. intros b. rewrite R3. case_decide; [done|]. rewrite HR. by rewrite decide_False.
  - by exists s3.
  - rewrite M3. lia.
  - by rewrite T3, EW.
  - intros b. rewrite D3, EW, apply_writes_snoc, apply_writes_app. done.
Qed.
Lemma commit_ready_pre l :
  commit_ready l -> commit_pre (lg_start l) (lg_size l) (v_disk (lg_bc l)) (lg_n l) (lg_block l).
Proof.
  intros CR. pose proof (cr_wf l CR) as HW. pose proof HW as [_ _ Hn Hlen Hhome].
  split; try done; [apply CR|]. rewrite <- (commit_ready_clean l) by
    (done || by (eapply in_log_not_logged; [done|unfold in_log; lia])).
  apply bl_len, CR.
Qed.
(** The writes of a commit, and the disk after a prefix of them: a header
    recovery can act on, for the old contents or for the new ones. *)
Lemma commit_writes_run l (start := lg_start l) (size := lg_size l)
    (d := v_disk (lg_bc l)) (v := v_view (lg_bc l)) :
  commit_ready l ->
  exists W,
    runs commit l (fun _ l' =>
      v_trace (lg_bc l') = v_trace (lg_bc l) ++ W /\ lg_n l' = 0 /\ idle_cache (lg_bc l') /\
      same_data start size (v_disk (lg_bc l')) v /\ hdr_n (v_disk (lg_bc l') start) = 0) /\
    forall p, p `prefix_of` W ->
      (same_data start size (recovered start (apply_writes d p)) d \/
       same_data start size (recovered start (apply_writes d p)) v) /\
      head_ok start size (apply_writes d p start).
Proof.
  intros CR. pose proof CR as [HW Hnd I HH HR Hrm Hcl]. pose proof HW as [Hdv Hst Hn Hlen Hhome].
  assert (HP : commit_pre start size d (lg_n l) (lg_block l)) by (by apply commit_ready_pre).
  assert (Hnew : forall b, (if decide (b ∈ logged l) then v b else d b) = v b).
  { intros b. case_decide; [done|]. symmetry. by apply commit_ready_clean. }
  destruct (decide (lg_n l = 0)) as [E0|E0].
  - exists []. assert (L0 : logged l = []) by (unfold logged; by rewrite E0). split.
    + unfold commit. mstep. rewrite E0. cbn [Z.ltb Z.compare]. mstep. rewrite app_nil_r. split_and!; try done.
      * split; try done. intros b. rewrite HR, L0. by rewrite decide_False by set_solver.
      * intros b _. symmetry. apply commit_ready_clean; [done|]. rewrite L0. set_solver.
    + intros p ->%prefix_nil_inv.
      destruct (commit_before start size v d _ _ [] HP (prefix_nil _)) as [H1 H2]. split; [by left|done].
  - exists (commit_writes start v d (lg_n l) (lg_block l)). split.
    + eapply runs_mono; [apply commit_run; [done|lia]|]. intros ? l' (IC & (s' & ->) & _ & T & D).
      fold start v d in T, D. destruct (commit_final start size v d _ _ HP) as [F1 F2].
      split_and!; try done; [|by rewrite D]. intros b Hb. rewrite D, F1 by done. apply Hnew.
    + intros p Hp. destruct (commit_prefix start size v d _ _ p HP Hp) as [HX Hok]. split; [|done].
      destruct HX as [HX|HX]; [left|right]; intros b Hb; rewrite HX by done; [done|apply Hnew].
Qed.
End log_run.

(** ** Lemmas: control state *)
Section control.
Context {S : Type} {B : BufCache S} (x : ctx).
Implicit Types l : logst S.

(** A computation that, when it returns, has left the log's control fields alone. *)
Definition same_ctl l l' : Prop :=
  lg_lock l' = lg_lock l /\ lg_size l' = lg_size l /\ lg_outstanding l' = lg_outstanding l /\
  lg_committing l' = lg_committing l.
Definition keeps {A} (m : M (logst S) A) : Prop :=
  forall l a l', m l = (Ret a, l') -> same_ctl l l'.

Lemma keeps_bind {A C} (m : M (logst S) A) (k : A -> M (logst S) C) :
  keeps m -> (forall a, keeps (k a)) -> keeps (bind m k).
Proof.
  intros Hm Hk l a l' E. unfold bind in E. destruct (m l) as [[b| | |] l1] eqn:E1; try done.
  apply Hm in E1. apply Hk in E. unfold same_ctl in *. destruct_and!. split_and!; congruence.
Qed.
Lemma keeps_ret {A} (a : A) : keeps (ret a).
Proof. intros l b l' E. by inversion E; subst. Qed.
Lemma keeps_gets {A} (f : logst S -> A) : keeps (gets f).
Proof. intros l b l' E. by inversion E; subst. Qed.
Lemma keeps_undef {A} w : keeps (undef (A := A) w).
Proof. intros l b l' E. inversion E. Qed.
Lemma keeps_bc {A} (m : M S A) : keeps (on_bc m).
Proof. intros l a l' E. unfold on_bc, zoom in E. destruct (m (lg_bc l)). by inversion E; subst. Qed.
Lemma keeps_modify f : (forall l, same_ctl l (f l)) -> keeps (modify f).
Proof. intros H l a l' E. inversion E; subst. apply H. Qed.
Lemma keeps_forn {A} n i d (body : Z -> M (logst S) (option A)) :
  (forall j, keeps (body j)) -> keeps (forn n i d body).
Proof.
  intros H. revert i. induction n as [|n IH]; intros i; cbn; [apply keeps_ret|].
  apply keeps_bind; [done|]. intros []; [apply keeps_ret|apply IH].
Qed.
Lemma keeps_lbread b : keeps (log_bread b).
Proof. apply keeps_bind; [apply keeps_gets|]. intros. apply keeps_bc. Qed.
Lemma keeps_lh_block i : keeps (lh_block (S := S) i).
Proof. apply keeps_bind; [apply keeps_gets|]. intros bl. destruct (bl !! _); [apply keeps_ret|apply keeps_undef]. Qed.

Ltac keeps_solve :=
  repeat match goal with
  | |- keeps (bind _ _) => apply keeps_bind; [|intros]
  | |- keeps (ret _) => apply keeps_ret
  | |- keeps (gets _) => apply keeps_gets
  | |- keeps (undef _) => apply keeps_undef
  | |- keeps (on_bc _) => apply keeps_bc
  | |- keeps (copy_data _ _) => apply keeps_bc
  | |- keeps (log_bread _) => apply keeps_lbread
  | |- keeps (lh_block _) => apply keeps_lh_block
  | |- keeps (forn _ _ _ _) => apply keeps_forn; intros
  | |- keeps (modify _) => apply keeps_modify; intros; split_and!; reflexivity
  | |- keeps (if ?b then _ else _) => destruct b
  end.

Lemma keeps_write_log : keeps write_log.
Proof. unfold write_log. keeps_solve. Qed.
Lemma keeps_install r : keeps (install_trans r).
Proof. unfold install_trans. keeps_solve. Qed.
Lemma keeps_write_head : keeps write_head.
Proof. unfold write_head. keeps_solve. Qed.

(** Computations that leave [lh.n] alone. *)
Lemma write_head_n l a l' : write_head l = (Ret a, l') -> lg_n l' = lg_n l.
Proof.
  intros E. unfold write_head, log_bread, on_bc, bind, gets, zoom, modify, undef in E.
  repeat match type of E with
  | context [bc_read ?a ?b ?c] => destruct (bc_read a b c) as [[] ?]; try discriminate; cbn in E
  | context [bc_write ?a ?b] => destruct (bc_write a b) as [[] ?]; try discriminate; cbn in E
  | context [bc_relse ?a ?b] => destruct (bc_relse a b) as [[] ?]; try discriminate; cbn in E
  | context [if ?b then _ else _] => destruct b; try discriminate; cbn in E
  end; inversion E; subst; done.
Qed.

Lemma commit_ctl l a l' :
  commit l = (Ret a, l') -> same_ctl l l' /\ (0 <= lg_n l -> lg_n l' = 0).
Proof.
  intros E. split.
  - revert E. assert (K : keeps commit); [|apply K]. unfold commit.
    apply keeps_bind; [apply keeps_gets|]. intros n. destruct (0 <? n); [|apply keeps_ret].
    keeps_solve; auto using keeps_write_log, keeps_write_head, keeps_install.
  - intros Hn. unfold commit, bind, gets in E. destruct (Z.ltb_spec 0 (lg_n l)).
    + destruct (write_log l) as [[] l1]; try done. destruct (write_head l1) as [[] l2]; try done.
      destruct (install_trans false l2) as [[] l3]; try done.
      by apply (write_head_n (set_n 0 l3)) in E.
    + inversion E; subst. lia.
Qed.
Lemma lg_acquire l :
  lk_free (lg_lock l) ->
  lg_spin (acquire_word (c_hart x)) l = (Ret tt, set_lg_lock (Spinlock 1 (lk_name (lg_lock l)) (Some (c_hart x))) l).
Proof. intros H. unfold lg_spin, zoom. by rewrite acquire_word_free. Qed.

Lemma lg_release l name :
  lg_lock l = Spinlock 1 name (Some (c_hart x)) ->
  lg_spin (release_word (c_hart x)) l = (Ret tt, set_lg_lock (Spinlock 0 name None) l).
Proof. intros H. unfold lg_spin, zoom. by rewrite H, release_word_held. Qed.

Lemma relock_free l : lk_free (lg_lock l) -> set_lg_lock (Spinlock 0 (lk_name (lg_lock l)) None) l = l.
Proof. intros H. destruct l. cbn in *. by rewrite <- lk_free_eq. Qed.

Lemma begin_op_eq l :
  lk_free (lg_lock l) ->
  begin_op x l =
    if negb (lg_committing l =? 0) || (LOGSIZE <? lg_n l + (lg_outstanding l + 1) * MAXOPBLOCKS)
    then (Block log_chan, l)
    else (Ret tt, set_outstanding (lg_outstanding l + 1) l).
Proof.
  intros H. unfold begin_op, bind at 1. rewrite lg_acquire by done. cbn [bind get set_lg_lock lg_committing lg_n lg_outstanding].
  destruct (negb _); cbn [orb].
  - unfold bind. rewrite (lg_release _ (lk_name (lg_lock l))) by done. unfold stall. f_equal. exact (relock_free l H).
  - destruct (LOGSIZE <? _); unfold bind, modify; rewrite (lg_release _ (lk_name (lg_lock l))) by done; unfold stall; f_equal.
    + exact (relock_free l H).
    + destruct l; cbn in *. by rewrite <- lk_free_eq.
Qed.

Lemma end_op_enter_eq l :
  lk_free (lg_lock l) -> lg_committing l = 0 ->
  end_op_enter x l =
    if lg_outstanding l =? 1 then (Ret true, set_committing 1 (set_outstanding 0 l))
    else (Ret false, add_woken log_chan (set_outstanding (lg_outstanding l - 1) l)).
Proof.
  intros H Hc. unfold end_op_enter, bind at 1. rewrite lg_acquire by done.
  cbn [bind get modify set_lg_lock set_outstanding lg_committing lg_outstanding]. rewrite Hc. cbn [Z.eqb negb].
  replace (lg_outstanding l - 1 =? 0) with (lg_outstanding l =? 1) by (destruct (Z.eqb_spec (lg_outstanding l) 1), (Z.eqb_spec (lg_outstanding l - 1) 0); lia).
  destruct (Z.eqb_spec (lg_outstanding l) 1) as [E|E]; unfold bind, ret, modify;
    rewrite (lg_release _ (lk_name (lg_lock l))) by done; f_equal; destruct l; cbn in *; rewrite <- lk_free_eq by done.
  - by rewrite E.
  - done.
Qed.

Lemma end_op_leave_eq l :
  lk_free (lg_lock l) -> end_op_leave x l = (Ret tt, add_woken log_chan (set_committing 0 l)).
Proof.
  intros H. unfold end_op_leave, bind at 1. rewrite lg_acquire by done.
  unfold bind, modify. rewrite (lg_release _ (lk_name (lg_lock l))) by done.
  f_equal. destruct l; cbn in *. by rewrite <- lk_free_eq.
Qed.

(** [log_write] with its guards passed. *)
Lemma log_write_eq l h :
  lk_free (lg_lock l) ->
  log_write x h l =
    let l1 := set_lg_lock (Spinlock 1 (lk_name (lg_lock l)) (Some (c_hart x))) l in
    if (LOGSIZE <=? lg_n l) || (lg_size l - 1 <=? lg_n l) then (Panic "too big a transaction", l1)
    else if lg_outstanding l <? 1 then (Panic "log_write outside of trans", l1)
    else
      let bno := bc_get_no h (lg_bc l) in
      let i := find_slot (Z.to_nat (lg_n l)) 0 (lg_block l) bno in
      let bl := <[i := s32 bno]> (lg_block l) in
      if Z.of_nat i =? lg_n l then
        match bc_pin h (lg_bc l) with
        | (Ret _, s') => (Ret tt, set_n (lg_n l + 1) (set_bc s' (set_block bl l)))
        | (Panic m, s') => (Panic m, set_bc s' (set_block bl l1))
        | (Block c, s') => (Block c, set_bc s' (set_block bl l1))
        | (Undef w, s') => (Undef w, set_bc s' (set_block bl l1))
        end
      else (Ret tt, set_block bl l).
Proof.
  intros H. unfold log_write, bind at 1. rewrite lg_acquire by done.
  cbn -[lg_spin find_slot]. unfold bind, get, panic, ret, modify. cbn -[lg_spin find_slot on_bc].
  destruct (_ || _); [done|]. destruct (_ <? 1); [done|].
  destruct (_ =? lg_n l).
  - unfold on_bc, zoom. cbn -[lg_spin find_slot]. destruct (bc_pin h (lg_bc l)) as [[] s']; cbn -[lg_spin find_slot]; try done.
    rewrite (lg_release _ (lk_name (lg_lock l))) by done. f_equal. destruct l; cbn in *. by rewrite <- lk_free_eq.
  - rewrite (lg_release _ (lk_name (lg_lock l))) by done. f_equal. destruct l; cbn in *. by rewrite <- lk_free_eq.
Qed.
End control.

(** ** Lemmas: absorption *)
Lemma find_slot_spec k i bl bno (j := find_slot k i bl bno) :
  (i <= j <= i + k)%nat /\ ((j < i + k)%nat -> u32 (bl !!! j) = bno) /\
  (forall m, (i <= m < j)%nat -> u32 (bl !!! m) <> bno).
Proof.
  subst j. revert i. induction k as [|k IH]; intros i; cbn [find_slot]; [split_and!; lia|].
  destruct (Z.eqb_spec (u32 (bl !!! i)) bno) as [E|E]; [split_and!; try lia; done|].
  destruct (IH (S i)) as (H1 & H2 & H3). split_and!; [lia|lia|intros; apply H2; lia|].
  intros m Hm. destruct (decide (m = i)) as [->|]; [done|]. apply H3. lia.
Qed.

Section absorb.
Context {S : Type} {B : BufCache S} {V : BufCacheView S} {dv : Z} {L : BufCacheLaws S dv} (x : ctx).
Implicit Types l : logst S.

(** The slot found is the block's place in [logged], or the end. *)
Lemma find_slot_logged l b (j := find_slot (Z.to_nat (lg_n l)) 0 (lg_block l) b) :
  log_wf dv l ->
  if decide (b ∈ logged l) then (j < Z.to_nat (lg_n l))%nat /\ logged l !! j = Some b
  else j = Z.to_nat (lg_n l).
Proof.
  intros W. pose proof W as [_ _ Hn Hl _]. destruct (find_slot_spec (Z.to_nat (lg_n l)) 0 (lg_block l) b) as (H1 & H2 & H3).
  fold j in H1, H2, H3. pose proof (length_logged dv l W) as HL.
  assert (HK : forall m, (m < Z.to_nat (lg_n l))%nat -> logged l !! m = Some (u32 (lg_block l !!! m))).
  { intros m Hm. destruct (lg_block_lookup l m W Hm) as (c & E1 & E2).
    replace (Z.to_nat (0 + 1 * Z.of_nat m)) with m in E1 by lia. by rewrite E2, (list_lookup_total_correct _ _ _ E1). }
  case_decide as Hb.
  - apply list_elem_of_lookup in Hb as [m Hm]. assert (Hm' : (m < Z.to_nat (lg_n l))%nat) by (rewrite <- HL; by eapply lookup_lt_Some).
    rewrite HK in Hm by done. injection Hm as Hm.
    destruct (decide (j < Z.to_nat (lg_n l))%nat) as [Hj|Hj].
    + split; [done|]. rewrite HK by done. f_equal. by apply H2.
    + exfalso. apply (H3 m); [lia|done].
  - destruct (decide (j < Z.to_nat (lg_n l))%nat) as [Hj|Hj]; [|lia]. exfalso. apply Hb.
    rewrite <- (H2 Hj). eapply list_elem_of_lookup_2, HK, Hj.
Qed.

Lemma insert_logged bl n j b :
  (Z.to_nat n <= length bl)%nat -> map u32 (take (Z.to_nat n) bl) !! j = Some b ->
  0 <= b < 2 ^ 32 -> map u32 (take (Z.to_nat n) (<[j := s32 b]> bl)) = map u32 (take (Z.to_nat n) bl).
Proof.
  intros Hn Hj Hb. apply list_eq. intros i. rewrite !list_lookup_fmap.
  destruct (decide (i < Z.to_nat n)%nat); [|by rewrite !lookup_take_ge by lia].
  rewrite !lookup_take_lt by done. destruct (decide (i = j)) as [->|Hne].
  - rewrite list_lookup_insert_eq by lia. rewrite list_lookup_fmap, lookup_take_lt in Hj by done.
    rewrite Hj. cbn. by rewrite u32_s32, u32_small.
  - by rewrite list_lookup_insert_ne.
Qed.

Lemma snoc_logged bl n b :
  0 <= n -> (Z.to_nat n < length bl)%nat -> 0 <= b < 2 ^ 32 ->
  map u32 (take (Z.to_nat (n + 1)) (<[Z.to_nat n := s32 b]> bl)) = map u32 (take (Z.to_nat n) bl) ++ [b].
Proof.
  intros Hn Hl Hb. replace (Z.to_nat (n + 1)) with (Datatypes.S (Z.to_nat n)) by lia.
  rewrite (take_S_r _ _ (s32 b)) by (by rewrite list_lookup_insert_eq).
  rewrite map_app. cbn [map]. rewrite u32_s32, u32_small by done. f_equal.
  rewrite take_insert_ge by lia. done.
Qed.
Lemma log_write_run l b h :
  log_wf dv l -> lk_free (lg_lock l) -> v_inv (lg_bc l) -> v_held (lg_bc l) b = Some h ->
  0 <= b < 2 ^ 32 -> ~ in_log (lg_start l) (lg_size l) b -> v_refs (lg_bc l) b < 2 ^ 31 ->
  lg_n l < LOGSIZE -> lg_n l < lg_size l - 1 -> 1 <= lg_outstanding l ->
  runs (log_write x h) l (fun _ l' =>
    log_wf dv l' /\ same_ctl l l' /\ lg_start l' = lg_start l /\
    logged l' = (if decide (b ∈ logged l) then logged l else logged l ++ [b]) /\
    cache_step (lg_bc l) (lg_bc l') (v_view (lg_bc l)) (v_disk (lg_bc l))
      (if decide (b ∈ logged l) then v_refs (lg_bc l) else upd_at (v_refs (lg_bc l)) b (v_refs (lg_bc l) b + 1))
      (v_held (lg_bc l)) (v_room (lg_bc l)) []).
Proof.
  intros W K I Hh Hb Hnl Hr G1 G2 G3. pose proof W as [Hdv Hst Hn Hlen Hhome].
  pose proof (find_slot_logged l b W) as Hj. set (j := find_slot _ _ _ _) in *.
  pose proof (log_write_eq x l h K) as E. cbv zeta in E.
  rewrite (proj2 (Z.leb_gt _ _)), (proj2 (Z.leb_gt _ _)), (proj2 (Z.ltb_ge _ _)) in E by lia.
  cbn [orb] in E. rewrite (bl_no _ b) in E by done. fold j in E.
  destruct (decide (b ∈ logged l)) as [Hin|Hin].
  - destruct Hj as [Hj1 Hj2]. rewrite (proj2 (Z.eqb_neq _ _)) in E by lia.
    eapply runs_eq; [exact E|]. assert (EL : logged (set_block (<[j:=s32 b]> (lg_block l)) l) = logged l).
    { apply (insert_logged (lg_block l) (lg_n l)); [rewrite Hlen; unfold LOGSIZEn; lia|done|done]. }
    split_and!; try done; [|by apply cs_refl].
    split; cbn; try done; [by rewrite length_insert|]. by rewrite EL.
  - rewrite Hj in E. rewrite Z2Nat.id, Z.eqb_refl in E by lia.
    destruct (bl_pin (lg_bc l) b h I Hh Hr) as ([] & s' & EP & C). rewrite EP in E.
    eapply runs_eq; [exact E|].
    assert (EL : logged (set_n (lg_n l + 1) (set_bc s' (set_block (<[Z.to_nat (lg_n l):=s32 b]> (lg_block l)) l))) = logged l ++ [b]).
    { apply (snoc_logged (lg_block l) (lg_n l)); [lia|rewrite Hlen; unfold LOGSIZEn; lia|done]. }
    split_and!; try done. split; cbn -[LOGSIZE]; try done; [lia|by rewrite length_insert|].
    rewrite EL. intros c [Hc|Hc%list_elem_of_singleton]%elem_of_app; [by apply Hhome|by subst].
Qed.

(** A whole transaction on one block, from a log with nothing in it:
    [b] is read, overwritten with [c], logged and released. *)
Lemma one_block_txn l b c :
  log_wf dv l -> lk_free (lg_lock l) -> lg_n l = 0 -> 1 <= lg_outstanding l -> 2 <= lg_size l ->
  idle_cache (lg_bc l) -> 2 <= v_room (lg_bc l) -> hdr_n (v_disk (lg_bc l) (lg_start l)) = 0 ->
  0 <= b < 2 ^ 32 -> ~ in_log (lg_start l) (lg_size l) b -> length c = BSZ ->
  runs (let! h := log_bread b in
        on_bc (modify (bc_set_data h c)) ;;
        log_write x h ;;
        on_bc (bc_relse h)) l
    (fun _ l' => commit_ready (dv := dv) l' /\ logged l' = [b] /\ v_view (lg_bc l') b = c /\
                 (forall b', v_disk (lg_bc l') b' = v_disk (lg_bc l) b') /\ lg_size l' = lg_size l /\ lg_start l' = lg_start l).
Proof.
  intros W K N0 O1 Hsz [I R HH] Hrm Hc Hb Hnl Hlc.
  assert (L0 : logged l = []) by (unfold logged; by rewrite N0).
  assert (C0 : cache_step (lg_bc l) (lg_bc l) (v_view (lg_bc l)) (v_disk (lg_bc l)) (fun _ => 0) (fun _ => None) (v_room (lg_bc l)) []).
  { eapply cs_weaken; [by apply cs_refl|..]; done. }
  apply runs_bind, (run_lbread (dv := dv)); [apply W|]. rewrite u32_small by done.
  eapply runs_mono; [eapply (st_read (lg_bc l)); [exact C0|done|lia|lia]|].
  intros h s1 C1. cbn beta in C1. apply runs_bind, run_bc, runs_modify. cbn [set_bc lg_bc].
  pose proof (st_set (lg_bc l) s1 _ _ _ _ _ _ b h c C1 ltac:(upd_solve) Hlc) as C2.
  set (l2 := set_bc (bc_set_data h c s1) (set_bc s1 l)).
  pose proof C2 as [I2 V2 D2 R2 H2 M2 T2].
  eapply runs_seq.
  { eapply (log_write_run l2 b h); try done; cbn.
    - by destruct W.
    - rewrite H2. upd_solve.
    - rewrite R2. upd_solve.
    - rewrite N0. done.
    - lia. }
  change (logged l2) with (logged l). rewrite L0. intros ? l3 (W3 & (K3 & S3 & O3 & M3') & G3 & E3 & C3).
  rewrite decide_False in E3 by set_solver. rewrite decide_False in C3 by set_solver.
  cbn [app] in E3.
  pose proof (cs_seq _ _ _ _ _ _ _ _ _ _ _ _ _ _ _ _ _ _ _ _ C2 C3 V2 D2 (fun b' => eq_refl) H2 M2) as C4.
  apply run_bc.
  eapply runs_mono; [eapply (st_relse (lg_bc l) _ _ _ _ _ _ _ b); [exact C4|upd_solve|]|].
  { unfold l2; cbn [lg_bc set_bc]. rewrite R2. upd_solve. }
  intros ? s5 [I5 V5 D5 R5 H5 M5 T5]. unfold l2 in *; cbn [lg_bc set_bc] in *.
  assert (ER : v_refs (bc_set_data h c s1) b = 1) by (rewrite R2; upd_solve).
  split_and!; try done.
  - split; cbn [lg_bc set_bc]; try done.
    + by destruct W3.
    + change (logged (set_bc s5 l3)) with (logged l3). rewrite E3. apply NoDup_singleton.
    + intros b'. rewrite H5. upd_solve.
    + intros b'. change (logged (set_bc s5 l3)) with (logged l3). rewrite R5, E3.
      unfold upd_at. rewrite ER. destruct (decide (b' = b)) as [->|Hne].
      * rewrite !decide_True by set_solver. lia.
      * rewrite (decide_False (P := b' ∈ [b])) by set_solver. rewrite R2. upd_solve.
    + rewrite M5. upd_solve.
    + cbn. rewrite G3. cbn. by rewrite D5.
  - rewrite V5. upd_solve.
Qed.
End absorb.

(** ** Lemmas: reserved space *)
Section reserve.
Context {S : Type} {B : BufCache S} (x : ctx).

(** What the active operations may still log. *)
Definition reserved (used : gmap Z Z) : Z := map_fold (fun _ u a => a + (MAXOPBLOCKS - u)) 0 used.

Lemma reserved_insert p u used :
  used !! p = None -> reserved (<[p := u]> used) = reserved used + (MAXOPBLOCKS - u).
Proof. intros H. unfold reserved. rewrite map_fold_insert_L; [done| |done]. intros; lia. Qed.

Lemma reserved_delete p u used :
  used !! p = Some u -> reserved used = reserved (delete p used) + (MAXOPBLOCKS - u).
Proof. intros H. rewrite <- (insert_delete_id used p u H) at 1. apply reserved_insert, lookup_delete_eq. Qed.

Lemma reserved_nonneg used : map_Forall (fun _ u => 0 <= u <= MAXOPBLOCKS) used ->
  0 <= reserved used <= MAXOPBLOCKS * Z.of_nat (size used).
Proof.
  induction used as [|p u used Hp IH] using map_ind; [done|]. intros [Hu HF]%map_Forall_insert; [|done].
  rewrite reserved_insert, map_size_insert_None by done. specialize (IH HF). lia.
Qed.

Record ginv (g : gst (S := S)) : Prop := {
  gi_lock : lk_free (lg_lock (g_log g));
  gi_n : 0 <= lg_n (g_log g);
  gi_out : lg_outstanding (g_log g) = Z.of_nat (size (g_used g));
  gi_com : lg_committing (g_log g) = match g_committer g with Some _ => 1 | None => 0 end;
  gi_excl : is_Some (g_committer g) -> g_used g = ∅;
  gi_used : map_Forall (fun _ u => 0 <= u <= MAXOPBLOCKS) (g_used g);
  gi_res : lg_n (g_log g) + reserved (g_used g) <= LOGSIZE;
}.

Lemma ginv_step g g' : ginv g -> gstep x g g' -> ginv g'.
Proof.
  intros [K N O C X U R] Hs. pose proof (reserved_nonneg _ U) as HRU.
  destruct Hs as [g p l' Hp Hc E|g c l' E|g p u h l' Hp Hu E|g p u c l' Hp E|g p l' Hp E|g s'].
  - rewrite begin_op_eq in E by done. destruct (_ || _) eqn:G; [done|]. injection E as <-.
    apply orb_false_iff in G as [G1 G2]. apply negb_false_iff, Z.eqb_eq in G1. apply Z.ltb_ge in G2.
    assert (g_committer g = None) as Hn. { rewrite C in G1. by destruct (g_committer g). }
    split; cbn -[reserved]; try done.
    + rewrite map_size_insert_None by done. lia.
    + intros [? H]. congruence.
    + apply map_Forall_insert_2; [unfold MAXOPBLOCKS; lia|done].
    + rewrite reserved_insert by done. lia.
  - rewrite begin_op_eq in E by done. destruct (_ || _); [|done]. injection E as <- <-. by split.
  - assert (HR' : reserved (<[p := u + 1]> (g_used g)) = reserved (g_used g) - 1).
    { rewrite (reserved_delete p u (g_used g)) by done. rewrite <- insert_delete_eq, reserved_insert by apply lookup_delete_eq. lia. }
    assert (HU' : map_Forall (fun _ v => 0 <= v <= MAXOPBLOCKS) (<[p := u + 1]> (g_used g))).
    { apply map_Forall_insert_2; [|done]. specialize (U p u Hp). cbn in U. lia. }
    assert (HS' : size (<[p := u + 1]> (g_used g)) = size (g_used g)).
    { apply map_size_insert_Some. done. }
    assert (HX : is_Some (g_committer g) -> <[p := u + 1]> (g_used g) = ∅) by (intros H%X; rewrite H in Hp; done).
    rewrite log_write_eq in E by done. cbv zeta in E.
    destruct (_ || _); [done|]. destruct (_ <? 1); [done|]. destruct (_ =? _).
    + destruct (bc_pin h _) as [[] s']; try done. injection E as <-. split; cbn -[reserved]; try done; rewrite ?HR', ?HS'; try done; lia.
    + injection E as <-. split; cbn -[reserved]; try done; rewrite ?HR', ?HS'; try done; lia.
  - assert (Hnone : g_committer g = None). { destruct (g_committer g) eqn:EC; [|done]. rewrite X in Hp by done. done. }
    rewrite Hnone in C. rewrite end_op_enter_eq in E by done.
    pose proof (map_size_delete_Some p (g_used g) ltac:(by exists u)) as HS.
    assert (Hsz : size (g_used g) <> 0%nat) by (intros He%map_size_empty_inv; by rewrite He in Hp).
    pose proof (reserved_delete p u _ Hp). specialize (U p u Hp) as Hu. cbn in Hu.
    assert (HU : map_Forall (fun _ v => 0 <= v <= MAXOPBLOCKS) (delete p (g_used g))) by (by apply map_Forall_delete).
    destruct (Z.eqb_spec (lg_outstanding (g_log g)) 1); injection E as <- <-; split; cbn -[reserved]; try done; try lia.
    + intros _. apply map_size_empty_inv. lia.
    + by rewrite Hnone.
    + rewrite Hnone. intros [? [=]].
  - unfold bind in E. destruct (commit (g_log g)) as [[] l1] eqn:E1; try done.
    apply commit_ctl in E1 as [(K1 & S1 & O1 & C1) N1]. rewrite end_op_leave_eq in E by (by rewrite K1).
    injection E as <-. rewrite (X ltac:(by rewrite Hp)) in *. split; cbn -[reserved]; try done; rewrite ?K1, ?N1, ?O1; try done; lia.
  - by split.
Qed.

Lemma greach_inv g : greach x g -> ginv g.
Proof.
  induction 1 as [l H1 H2 H3 H4|g g' _ IH Hs]; [|by eapply ginv_step].
  split; cbn -[reserved]; try done; try lia. by rewrite H2.
Qed.

Lemma ginv_idle g p u : ginv g -> g_used g !! p = Some u -> g_committer g = None.
Proof. intros I Hp. destruct (g_committer g) eqn:EC; [|done]. rewrite (gi_excl g I) in Hp by done. done. Qed.

Lemma ginv_outstanding g p u : ginv g -> g_used g !! p = Some u -> 1 <= lg_outstanding (g_log g).
Proof.
  intros I Hp. rewrite (gi_out g I). enough (size (g_used g) <> 0%nat) by lia.
  intros He%map_size_empty_inv. by rewrite He in Hp.
Qed.

(** The last active operation, and only it, is told to commit. *)
Lemma ginv_end_op g p u : ginv g -> g_used g !! p = Some u ->
  exists c l', end_op_enter x (g_log g) = (Ret c, l') /\
    (c = true <-> g_used g = {[p := u]}) /\ lg_n l' = lg_n (g_log g).
Proof.
  intros I Hp. pose proof I as [K N O C X U R]. rewrite (ginv_idle g p u I Hp) in C.
  pose proof (map_size_delete_Some p (g_used g) ltac:(by exists u)) as HS.
  pose proof (ginv_outstanding g p u I Hp). rewrite end_op_enter_eq by done.
  destruct (Z.eqb_spec (lg_outstanding (g_log g)) 1); eexists _, _; (split; [done|]); split; try done; split; try done.
  - intros _. rewrite <- (insert_delete_id _ _ _ Hp). rewrite (map_size_empty_inv (delete p (g_used g))) by lia. done.
  - intros E. rewrite E, map_size_singleton in O. done.
Qed.

(** The budget left to each operation is reserved beside the others'. *)
Lemma ginv_reserved g p u : ginv g -> g_used g !! p = Some u ->
  lg_n (g_log g) + (MAXOPBLOCKS - u) <= LOGSIZE /\
  forall q w, g_used g !! q = Some w -> q <> p ->
    lg_n (g_log g) + (MAXOPBLOCKS - u) + (MAXOPBLOCKS - w) <= LOGSIZE.
Proof.
  intros [K N O C X U R] Hp. pose proof (reserved_delete p u _ Hp) as HP.
  pose proof (map_Forall_delete _ _ p U) as UP. pose proof (reserved_nonneg _ UP). split; [lia|].
  intros q w Hq Hne. assert (Hq' : delete p (g_used g) !! q = Some w) by (by rewrite lookup_delete_ne).
  pose proof (reserved_delete q w _ Hq'). pose proof (reserved_nonneg _ (map_Forall_delete _ _ q UP)). lia.
Qed.
End reserve.

(** ** A freshly booted system, for the concrete instances below *)
Definition x0 : ctx := Ctx 0 1.
#[local] Instance cache0 : BufCache bst := bio_cache x0.
#[local] Instance view0 : BufCacheView bst := bio_view x0 1.
#[local] Instance laws0 : BufCacheLaws bst 1 := bio_laws x0 1 ltac:(done).

Lemma boot_cache (d : gmap Z block) :
  (forall b, length (disk_get d b) = BSZ) ->
  exists s : bst, idle_cache s /\ v_room s = 30 /\
    forall b, v_disk s b = disk_get d b.
Proof.
  intros Hd. destruct (binit_run d) as ([] & s & _ & I). exists s.
  assert (HT : forall j, (j < NBUFn)%nat -> table s j = core buf_init).
  { intros j Hj. rewrite (bt_core d _ s I j Hj). by rewrite decide_True. }
  assert (HF : forall b, find_buf 1 (table s) b = None).
  { intros b. unfold find_buf. rewrite (proj2 (list_find_None _ _)); [done|].
    apply Forall_forall. intros j Hj%elem_of_seq. unfold match_buf. rewrite HT by lia. done. }
  split_and!.
  - split.
    + apply (binit_binv x0 1 d); [done|done|done].
    + intros b. cbn. unfold t_refs. by rewrite HF.
    + intros b. cbn. unfold t_held. by rewrite HF.
  - cbn. unfold t_room. rewrite filter_all; [by rewrite length_seq|].
    intros j Hj%elem_of_seq. rewrite HT by lia. done.
  - intros b. cbn. by rewrite (bt_disk d _ s I).
Qed.

(** A log at block 2 of 30 blocks on a blank disk, in an operation. *)
Definition log0 (s : bst) : logst bst :=
  LogSt (initlock "log") 2 30 1 0 1 0 (replicate LOGSIZEn 0) s [].

Lemma log0_wf s : log_wf (S := bst) 1 (log0 s).
Proof. split; cbn; try done. intros b Hb. set_solver. Qed.

(** ** Properties *)

(** C1. Commits are atomic.  Let the last operation of a transaction be over.
    Then [commit] returns, leaves the header clear and the logged blocks at
    home; and if the machine stops after any prefix of the disk writes it
    makes, and then boots, whose [initlog] is itself cut short any number of
    times after some of its own disk writes, the [initlog] that completes
    returns and leaves on disk either all of the transaction's blocks or none
    of them.  The same is said of the recovery function [recovered] that
    describes [recover_from_log]. *)
Theorem commit_crash_atomic {S} {B : BufCache S} {V : BufCacheView S} {dv} {L : BufCacheLaws S dv}
    (l : logst S) :
  commit_ready (dv := dv) l ->
  exists W,
    runs commit l (fun _ l' =>
      v_trace (lg_bc l') = v_trace (lg_bc l) ++ W /\ lg_n l' = 0 /\ idle_cache (lg_bc l') /\
      same_data (lg_start l) (lg_size l) (v_disk (lg_bc l')) (v_view (lg_bc l)) /\
      hdr_n (v_disk (lg_bc l') (lg_start l)) = 0) /\
    (forall p d', p `prefix_of` W -> crashes (lg_start l) (apply_writes (v_disk (lg_bc l)) p) d' ->
      same_data (lg_start l) (lg_size l) (recovered (lg_start l) d') (v_disk (lg_bc l)) \/
      same_data (lg_start l) (lg_size l) (recovered (lg_start l) d') (v_view (lg_bc l))) /\
    forall sb p d' l2, sb_logstart sb = lg_start l -> sb_nlog sb = lg_size l ->
      p `prefix_of` W -> boots (dv := dv) sb (apply_writes (v_disk (lg_bc l)) p) d' -> booted d' l2 ->
      runs (initlog dv sb) l2 (fun _ l3 =>
        log_wf dv l3 /\ lg_n l3 = 0 /\
        (same_data (lg_start l) (lg_size l) (v_disk (lg_bc l3)) (v_disk (lg_bc l)) \/
         same_data (lg_start l) (lg_size l) (v_disk (lg_bc l3)) (v_view (lg_bc l)))).
Proof.
  intros CR. pose proof CR as [HW Hnd I HH HR Hrm Hcl]. pose proof HW as [Hdv Hst Hn Hlen Hhome].
  destruct (commit_writes_run l CR) as (W & HRun & HPre). exists W. split; [exact HRun|]. split.
  - intros p d' Hp HC. destruct (HPre p Hp) as [HX Hok].
    destruct (recover_crashes _ _ _ d' Hok HC) as [H3 _].
    destruct HX as [HX|HX]; [left|right]; intros b Hb; rewrite H3 by done; by apply HX.
  - intros sb p d' l2 E1 E2 Hp HB Hl2. destruct (HPre p Hp) as [HX Hok]. rewrite <- E1, <- E2 in *.
    eapply runs_mono; [eapply boots_recover; [lia|lia|exact Hok|exact HB|exact Hl2]|]. intros ? l3 (W3 & N3 & _ & H3). split_and!; try done.
    destruct HX as [HX|HX]; [left|right]; intros b Hb; rewrite H3 by done; by apply HX.
Qed.

Lemma commit_crash_atomic_witness :
  exists l : logst bst, commit_ready (dv := 1) l /\ logged l = [50] /\
    exists W, runs commit l (fun _ l' => lg_n l' = 0) /\
    forall p, p `prefix_of` W ->
      same_data 2 30 (recovered 2 (apply_writes (v_disk (lg_bc l)) p)) (fun _ => replicate BSZ 0) \/
      same_data 2 30 (recovered 2 (apply_writes (v_disk (lg_bc l)) p)) (v_view (lg_bc l)).
Proof.
  destruct (boot_cache ∅) as (s & IC & Hr & Hd); [done|].
  destruct (one_block_txn (dv := 1) x0 (log0 s) 50 (replicate BSZ 7)) as (? & l & _ & CR & Hl & _ & Hdk & Hs1 & Hs2);
    try done; [apply log0_wf|cbn [log0 lg_bc]; rewrite Hr; done|cbn [log0 lg_bc]; rewrite Hd; done|unfold in_log; cbn; lia|].
  exists l. split; [done|]. split; [done|].
  destruct (commit_crash_atomic (dv := 1) l CR) as (W & HR & HC & _). exists W. split.
  - eapply runs_mono; [exact HR|]. intros ? l' H. apply H.
  - intros p Hp. rewrite Hs1, Hs2 in HC. cbn [log0 lg_start lg_size] in HC.
    destruct (HC p _ Hp (crash_none _ _)) as [H|H]; [left|right; exact H].
    intros b Hb. rewrite H by done. rewrite Hdk. cbn [log0 lg_bc]. rewrite Hd. done.
Defined.

(** C2. Recovery.  On a disk whose log header is well formed, [initlog]
    returns with an empty log, the disk is the one the header describes
    (every logged block at home, the header clear), and its disk writes are the
    installs of the logged blocks in order, then the cleared header.  When boots
    before it were cut short, each after any prefix of the disk writes its own
    [initlog] issues, the [initlog] that completes leaves the same data. *)
Theorem initlog_recovers {S} {B : BufCache S} {V : BufCacheView S} {dv} {L : BufCacheLaws S dv}
    (l : logst S) (sb : superblock) (start := sb_logstart sb) (size := sb_nlog sb) (d := v_disk (lg_bc l)) :
  0 <= start -> start + size < 2 ^ 31 -> length (lg_block l) = LOGSIZEn ->
  idle_cache (lg_bc l) -> 2 <= v_room (lg_bc l) -> head_ok start size (d start) ->
  runs (initlog dv sb) l (fun _ l' =>
    lk_free (lg_lock l') /\ log_wf dv l' /\ lg_n l' = 0 /\ idle_cache (lg_bc l') /\
    hdr_n (v_disk (lg_bc l') start) = 0 /\
    v_trace (lg_bc l') = v_trace (lg_bc l) ++ recover_writes start d /\
    (forall b, v_disk (lg_bc l') b = recovered start d b) /\
    (forall i b, hdr_list (d start) !! i = Some b -> NoDup (hdr_list (d start)) ->
       v_disk (lg_bc l') b = d (start + Z.of_nat i + 1)) /\
    (forall b, ~ in_log start size b -> b ∉ hdr_list (d start) -> v_disk (lg_bc l') b = d b)) /\
  (forall d' l2, boots (dv := dv) sb d d' -> booted d' l2 ->
     runs (initlog dv sb) l2 (fun _ l3 =>
       log_wf dv l3 /\ lg_n l3 = 0 /\ hdr_n (v_disk (lg_bc l3) start) = 0 /\
       same_data start size (v_disk (lg_bc l3)) (recovered start d))).
Proof.
  intros Hs1 Hs2 Hbl IC Hrm Hok. split; [|by intros d' l2; apply boots_recover].
  pose proof Hok as [Hl Hn Hho]. eapply runs_mono; [by apply (initlog_run d)|].
  intros ? l' (K & W & N & IC' & T & D). fold start in T, D. split_and!; try done.
  - rewrite D. by apply hdr_n_recovered.
  - intros i b Hi Hnd. rewrite D, (recovered_install start size) by (lia || by apply Hho, (list_elem_of_lookup_2 _ i)).
    by apply install_lookup.
  - intros b Hb Hnin. rewrite D, (recovered_install start size) by (done || lia). apply apply_writes_notin. by rewrite fst_install.
Qed.

(** A disk on which a commit of block 50 was interrupted. *)
Definition crashed_disk : gmap Z block :=
  <[2 := head_block 1 (50 :: replicate 29 0) (replicate BSZ 0)]> (<[3 := replicate BSZ 7]> ∅).

(** The superblock of the log at block 2 of 30 blocks. *)
Definition sb0 : superblock := Superblock FSMAGIC 2000 0 0 30 2 0 0.

Lemma crashed_head :
  hdr_list (disk_get crashed_disk 2) = [50] /\ head_ok 2 30 (disk_get crashed_disk 2).
Proof.
  assert (E : hdr_list (disk_get crashed_disk 2) = [50]) by (vm_compute; reflexivity).
  split; [done|]. split; [reflexivity|split; [split|]; vm_compute; done|].
  rewrite E. intros b ->%list_elem_of_singleton. unfold in_log. lia.
Qed.

(** A boot that stops after its first disk write, and one that completes: the
    interrupted commit of block 50 is there. *)
Lemma initlog_recovers_witness :
  exists (s s2 : bst), (forall b, v_disk s b = disk_get crashed_disk b) /\
    boots (dv := 1) sb0 (v_disk s) (apply_writes (v_disk s) [(50, replicate BSZ 7)]) /\
    runs (initlog 1 sb0) (log0 s2) (fun _ l3 =>
      v_disk (lg_bc l3) 50 = replicate BSZ 7 /\ hdr_n (v_disk (lg_bc l3) 2) = 0).
Proof.
  assert (HL : forall b, length (disk_get crashed_disk b) = BSZ).
  { intros b. unfold disk_get, crashed_disk. rewrite !lookup_insert. by repeat case_decide. }
  destruct (boot_cache crashed_disk HL) as (s & IC & Hr & Hd). destruct crashed_head as [E50 Hok].
  pose proof (Hd 2) as Hd2. pose proof (Hd 3) as Hd3.
  destruct (initlog_recovers (dv := 1) (log0 s) sb0) as [H1 H2]; try done; cbn [log0 lg_bc sb0 sb_logstart sb_nlog];
    [by rewrite Hr|by rewrite Hd2|].
  destruct H1 as ([] & l1 & E1 & _ & _ & _ & _ & _ & T1 & _). cbn [log0 lg_bc sb0 sb_logstart] in T1, H2.
  set (d1 := <[50 := replicate BSZ 7]> crashed_disk).
  destruct (boot_cache d1) as (s2 & IC2 & Hr2 & Hd2').
  { intros b. unfold d1. destruct (decide (b = 50)) as [->|Hb]; [reflexivity|].
    unfold disk_get. rewrite lookup_insert_ne by done. apply HL. }
  assert (B1 : boots (dv := 1) sb0 (v_disk s) (apply_writes (v_disk s) [(50, replicate BSZ 7)])).
  { eapply (boots_again sb0 (v_disk s) (log0 s)); [|exact E1|exact T1| |apply boots_none].
    - split; try done. cbn [log0 lg_bc]. by rewrite Hr.
    - unfold recover_writes. rewrite Hd2, E50. cbn [install_writes imap]. change (2 + Z.of_nat 0 + 1) with 3.
      rewrite Hd3. by exists [(2, put_le (disk_get crashed_disk 2) 0 4 0)]. }
  exists s, s2. split; [exact Hd|]. split; [exact B1|].
  eapply runs_mono; [eapply (H2 _ (log0 s2)); [exact B1|]|].
  - split; try done; cbn [log0 lg_bc]; [|by rewrite Hr2].
    intros b. rewrite Hd2'. unfold apply_writes. cbn [fold_left fst snd]. unfold upd_at, disk_get, d1.
    rewrite lookup_insert. destruct (decide (b = 50)) as [->|Hb]; [by rewrite decide_True|].
    rewrite decide_False by congruence. symmetry. apply Hd.
  - intros ? l3 (_ & _ & N3 & D3). split; [|exact N3]. rewrite D3 by (unfold in_log; cbn; lia).
    rewrite (recovered_install 2 30) by (unfold in_log; lia). rewrite Hd2, E50.
    cbn [install_writes imap]. change (2 + Z.of_nat 0 + 1) with 3. rewrite Hd3. done.
Defined.

(** [log_write] in a transaction with space left records the block once:
    a block already in the log is absorbed (log and pins unchanged), a new one
    is appended and pinned; the cache's contents and the disk do not change.
    Without space, or outside a transaction, it panics. *)
Theorem log_write_absorbs {S} {B : BufCache S} {V : BufCacheView S} {dv} {L : BufCacheLaws S dv} x
    (l : logst S) b h :
  log_wf dv l -> lk_free (lg_lock l) -> v_inv (lg_bc l) -> v_held (lg_bc l) b = Some h ->
  0 <= b < 2 ^ 32 -> ~ in_log (lg_start l) (lg_size l) b -> v_refs (lg_bc l) b < 2 ^ 31 ->
  (lg_n l < LOGSIZE -> lg_n l < lg_size l - 1 -> 1 <= lg_outstanding l ->
   runs (log_write x h) l (fun _ l' =>
     log_wf dv l' /\ same_ctl l l' /\
     logged l' = (if decide (b ∈ logged l) then logged l else logged l ++ [b]) /\
     (NoDup (logged l) -> NoDup (logged l')) /\
     (forall b', v_refs (lg_bc l') b' =
        v_refs (lg_bc l) b' + if decide (b' = b /\ b ∉ logged l) then 1 else 0) /\
     (forall b', v_view (lg_bc l') b' = v_view (lg_bc l) b') /\ v_trace (lg_bc l') = v_trace (lg_bc l))) /\
  (LOGSIZE <= lg_n l \/ lg_size l - 1 <= lg_n l -> fst (log_write x h l) = Panic "too big a transaction") /\
  (lg_n l < LOGSIZE -> lg_n l < lg_size l - 1 -> lg_outstanding l < 1 ->
   fst (log_write x h l) = Panic "log_write outside of trans").
Proof.
  intros W K I Hh Hb Hnl Hr. split_and!.
  - intros G1 G2 G3. eapply runs_mono; [by apply (log_write_run x l b h)|].
    intros ? l' (W' & C' & _ & E & [I' V' D' R' H' M' T']). split_and!; try done.
    + rewrite E. case_decide; [done|]. intros Hnd. apply NoDup_app. split_and!; [done|set_solver|apply NoDup_singleton].
    + intros b'. rewrite R'. unfold upd_at. destruct (decide (b ∈ logged l)); repeat case_decide; subst; try tauto; lia.
    + by rewrite T', app_nil_r.
  - intros G. rewrite log_write_eq by done. cbv zeta.
    replace ((LOGSIZE <=? lg_n l) || (lg_size l - 1 <=? lg_n l)) with true; [done|].
    symmetry. apply orb_true_iff. rewrite !Z.leb_le. done.
  - intros G1 G2 G3. rewrite log_write_eq by done. cbv zeta.
    rewrite (proj2 (Z.leb_gt _ _)), (proj2 (Z.leb_gt _ _)), (proj2 (Z.ltb_lt _ _)) by lia. done.
Qed.

Lemma log_write_absorbs_witness :
  exists (l : logst bst) h, v_held (lg_bc l) 50 = Some h /\
    runs (log_write x0 h) l (fun _ l' => logged l' = [50]).
Proof.
  destruct (boot_cache ∅) as (s & IC & Hr & Hd); [done|]. pose proof IC as [I R HH].
  destruct (bl_read s 50 I (HH 50)) as (h & s' & _ & [I' V' D' R' H' M' T']); [rewrite Hr; lia|rewrite R; lia|].
  exists (log0 s'), h. assert (HE : v_held s' 50 = Some h) by (by rewrite H'). split; [exact HE|].
  destruct (log_write_absorbs (dv := 1) x0 (log0 s') 50 h) as [H _]; try done; [apply log0_wf|unfold in_log; cbn; lia| |].
  - cbn [log0 lg_bc]. rewrite R'. unfold upd_at. rewrite decide_True, R by done. done.
  - eapply runs_mono; [by apply H|]. intros ? l' (_ & _ & E & _). rewrite E. by rewrite decide_False by set_solver.
Defined.

(** C3. Group commit.  However the operations of any number of processes
    interleave, a commit runs only when no operation is active (so it never
    writes half of one) and [end_op] never panics.  Every active operation has
    the rest of its [MAXOPBLOCKS] writes reserved within the [LOGSIZE] entries
    of the header, and so within its budget its next [log_write] returns unless
    the on-disk log area is full ([lg_size - 1] blocks), where it panics.  With
    the layout mkfs writes ([lg_size = LOGSIZE]) that panic is left for one
    write only: the last one of the last operation of a group in which every
    other active operation used all of its budget. *)
Theorem group_commit {S} {B : BufCache S} x (g : gst (S := S)) (n := lg_n (g_log g)) (size := lg_size (g_log g)) :
  greach x g ->
  (is_Some (g_committer g) -> g_used g = ∅) /\
  forall p u, g_used g !! p = Some u ->
    (exists c l', end_op_enter x (g_log g) = (Ret c, l') /\
                  (c = true <-> g_used g = {[p := u]}) /\ lg_n l' = n) /\
    n + (MAXOPBLOCKS - u) <= LOGSIZE /\
    (u < MAXOPBLOCKS ->
     (forall h s', bc_pin h (lg_bc (g_log g)) = (Ret tt, s') ->
        if n <? size - 1 then exists l', log_write x h (g_log g) = (Ret tt, l')
        else fst (log_write x h (g_log g)) = Panic "too big a transaction") /\
     (size = LOGSIZE -> size - 1 <= n ->
        n = LOGSIZE - 1 /\ u = MAXOPBLOCKS - 1 /\
        forall q w, g_used g !! q = Some w -> q <> p -> w = MAXOPBLOCKS)).
Proof.
  intros HG. pose proof (greach_inv x g HG) as I. split; [apply I|]. intros p u Hp.
  pose proof (ginv_reserved g p u I Hp) as [HR HQ].
  split_and!; [by apply ginv_end_op|subst n; lia|].
  intros Hlt. split.
  - intros h s' Hpin. rewrite log_write_eq by apply I. cbv zeta. fold n size.
    rewrite (proj2 (Z.leb_gt LOGSIZE n)) by (subst n; lia). cbn [orb].
    pose proof (ginv_outstanding g p u I Hp) as Hout.
    rewrite (proj2 (Z.ltb_ge _ 1)) by lia.
    destruct (Z.ltb_spec n (size - 1)); [rewrite (proj2 (Z.leb_gt _ _)) by lia|by rewrite (proj2 (Z.leb_le _ _)) by lia].
    destruct (_ =? _); [rewrite Hpin|]; by eexists.
  - intros Hsize Hfull. subst n size. split_and!; [lia|lia|].
    intros q w Hq Hne. specialize (HQ q w Hq Hne). pose proof (gi_used _ I q w Hq) as Hw. cbn in Hw. lia.
Qed.

(** A cache that only counts, to run the log's bookkeeping by itself. *)
#[local] Instance null_cache : BufCache unit := {|
  bc_read := fun _ b => ret (Z.to_nat b); bc_write := fun _ => ret tt; bc_relse := fun _ => ret tt;
  bc_pin := fun _ => ret tt; bc_unpin := fun _ => ret tt; bc_get_data := fun _ _ => [];
  bc_set_data := fun _ _ s => s; bc_get_no := fun h _ => Z.of_nat h |}.

(** The steps "process [p] enters an operation" and "[p] logs block [h]". *)
Definition g_try (x : ctx) (e : Z * option nat) (g : gst (S := unit)) : option (gst (S := unit)) :=
  match e with
  | (p, None) =>
      match g_used g !! p, g_committer g, begin_op x (g_log g) with
      | None, None, (Ret tt, l') => Some (Gst l' (<[p := 0]> (g_used g)) None)
      | _, _, _ => None
      end
  | (p, Some h) =>
      match g_used g !! p, log_write x h (g_log g) with
      | Some u, (Ret tt, l') =>
          if u <? MAXOPBLOCKS then Some (Gst l' (<[p := u + 1]> (g_used g)) (g_committer g)) else None
      | _, _ => None
      end
  end.

Lemma g_try_reach x es g g' :
  greach x g -> foldl (fun o e => o ≫= g_try x e) (Some g) es = Some g' -> greach x g'.
Proof.
  revert g. induction es as [|[p o] es IH]; intros g R E; [by injection E as <-|].
  cbn [foldl] in E. change (Some g ≫= g_try x (p, o)) with (g_try x (p, o) g) in E.
  destruct (g_try x (p, o) g) as [g1|] eqn:E1.
  - apply (IH g1); [|done]. eapply gr_step; [exact R|]. clear IH E. destruct o as [h|]; cbn in E1.
    + destruct (g_used g !! p) as [u|] eqn:Hu; [|done].
      destruct (log_write x h (g_log g)) as [[[]| | |] l'] eqn:Hw; try done.
      destruct (Z.ltb_spec u MAXOPBLOCKS); [|done]. injection E1 as <-. by eapply g_write.
    + destruct (g_used g !! p) as [u|] eqn:Hu; [done|]. destruct (g_committer g) eqn:Hc; [done|].
      destruct (begin_op x (g_log g)) as [[[]| | |] l'] eqn:Hw; try done.
      injection E1 as <-. rewrite <- Hc. apply g_begin; [done|by rewrite Hc|done].
  - exfalso. clear -E. induction es; [done|]. cbn in E. auto.
Qed.

(** Three processes in one group, logging 29 different blocks between them. *)
Definition three_ops : list (Z * option nat) :=
  [(1, None); (2, None); (3, None)] ++ map (fun i => (1, Some i)) (seq 100 10) ++
  map (fun i => (2, Some i)) (seq 110 10) ++ map (fun i => (3, Some i)) (seq 120 9).

Definition small_log : gst (S := unit) :=
  Gst (LogSt (initlock "log") 2 LOGSIZE 0 0 1 0 (replicate LOGSIZEn 0) tt []) ∅ None.

Lemma small_log_reach : greach x0 small_log.
Proof. exact (gr_init x0 (g_log small_log) (conj eq_refl eq_refl) eq_refl eq_refl eq_refl). Qed.

(** The same three processes one block earlier: process 3 has a [log_write]
    that returns, on the layout mkfs writes. *)
Lemma group_commit_witness :
  exists g : gst (S := unit), greach x0 g /\ lg_size (g_log g) = LOGSIZE /\ g_used g !! 3 = Some 8 /\
    (exists l', log_write x0 128 (g_log g) = (Ret tt, l')) /\
    (exists c l', end_op_enter x0 (g_log g) = (Ret c, l') /\ (c = true <-> g_used g = {[3 := 8]})).
Proof.
  destruct (foldl (fun o e => o ≫= g_try x0 e) (Some small_log) (removelast three_ops)) as [g|] eqn:E; [|vm_compute in E; done].
  pose proof (g_try_reach x0 _ small_log g small_log_reach E) as R. exists g.
  vm_compute in E. injection E as E. split; [exact R|]. split; [by rewrite <- E|]. split; [by rewrite <- E|].
  destruct (group_commit x0 g R) as [_ H]. destruct (H 3 8) as (H1 & _ & H2); [by rewrite <- E|].
  split.
  - destruct (H2 ltac:(done)) as [H3 _]. specialize (H3 128%nat tt ltac:(by rewrite <- E)).
    replace (lg_n (g_log g) <? lg_size (g_log g) - 1) with true in H3 by (by rewrite <- E). exact H3.
  - destruct H1 as (c & l' & H1 & H3 & _). by exists c, l'.
Defined.

(** C33. A log area of [LOGSIZE] blocks, header included, as mkfs lays it out, is
    one block too small: operations that [begin_op] admitted and that stay
    within [MAXOPBLOCKS] writes each can drive [log_write] into its panic. *)
Theorem log_area_too_small :
  exists g : gst (S := unit), greach x0 g /\ lg_size (g_log g) = LOGSIZE /\ lg_n (g_log g) < LOGSIZE /\
    (exists u, g_used g !! 3 = Some u /\ u < MAXOPBLOCKS) /\
    fst (log_write x0 129 (g_log g)) = Panic "too big a transaction".
Proof.
  destruct (foldl (fun o e => o ≫= g_try x0 e) (Some small_log) three_ops) as [g|] eqn:E; [|vm_compute in E; done].
  exists g. split; [exact (g_try_reach x0 three_ops small_log g small_log_reach E)|].
  vm_compute in E. injection E as <-. vm_compute. split_and!; try done. by exists 9.
Qed.
