(* ===== verification/Txn.v ===== *)
(** * Blocks inside a transaction

    The interface between the file system and the layers below it: reading,
    modifying, logging and releasing blocks between [begin_op] and [end_op].
    [BlockTxnLaws] states what fs.c relies on; the second half shows that
    log.c over bio.c provides it. *)
From S2P Require Import Prelude Riscv Spinlock Bio Layout Log.
Local Open Scope Z_scope.

Class BlockTxn (T : Type) : Type := {
  tx_read : Z -> Z -> M T nat;            (* bread *)
  tx_relse : nat -> M T unit;             (* brelse *)
  tx_log : nat -> M T unit;               (* log_write *)
  tx_data : nat -> T -> block;            (* b->data *)
  tx_set : nat -> block -> T -> T;
  tx_init : Z -> superblock -> M T unit;  (* initlog *)
}.

(** The logical state: the blocks' current contents, which of them the caller
    holds, which were logged by this transaction, whether a held block's
    modification has been logged ([t_clean]), and how many more buffers and
    log entries may be used. *)
Class BlockTxnView (T : Type) : Type := {
  t_inv : T -> Prop;
  t_view : T -> Z -> block;
  t_held : T -> Z -> option nat;
  t_clean : T -> Z -> Prop;
  t_logged : T -> list Z;
  t_room : T -> Z;
  t_space : T -> Z;
  t_can_log : Z -> Prop;
}.

Record txd {T} {V : BlockTxnView T} (s : T) (vw : Z -> block) (hd : Z -> option nat) (cl : Z -> Prop)
    (lg : list Z) (rm sp : Z) : Prop := {
  d_inv : t_inv s;
  d_view : forall b, t_view s b = vw b;
  d_held : forall b, t_held s b = hd b;
  d_clean : forall b, cl b -> t_clean s b;
  d_logged : forall b, b ∈ t_logged s <-> b ∈ lg;
  d_room : rm <= t_room s;
  d_space : sp <= t_space s;
}.

Class BlockTxnLaws (T : Type) {B : BlockTxn T} {V : BlockTxnView T} (dv : Z) : Prop := {
  tl_read : forall s vw hd cl lg rm sp b,
    txd s vw hd cl lg rm sp -> 0 <= b < 2 ^ 32 -> hd b = None -> b ∈ lg \/ 0 < rm ->
    runs (tx_read dv b) s (fun h s' =>
      txd s' vw (upd_at hd b (Some h)) (fun b' => cl b' \/ b' = b) lg
        (if decide (b ∈ lg) then rm else rm - 1) sp);
  tl_relse : forall s vw hd cl lg rm sp b h,
    txd s vw hd cl lg rm sp -> hd b = Some h -> cl b ->
    runs (tx_relse h) s (fun _ s' =>
      txd s' vw (upd_at hd b None) cl lg (if decide (b ∈ lg) then rm else rm + 1) sp);
  tl_log : forall s vw hd cl lg rm sp b h,
    txd s vw hd cl lg rm sp -> hd b = Some h -> t_can_log b -> 0 < sp ->
    runs (tx_log h) s (fun _ s' =>
      txd s' vw hd (fun b' => cl b' \/ b' = b) (b :: lg) rm (if decide (b ∈ lg) then sp else sp - 1));
  tl_set : forall s vw hd cl lg rm sp b h d,
    txd s vw hd cl lg rm sp -> hd b = Some h -> length d = BSZ ->
    txd (tx_set h d s) (upd_at vw b d) hd (fun b' => cl b' /\ b' <> b) lg rm sp;
  tl_set_same : forall s vw hd cl lg rm sp b h,
    txd s vw hd cl lg rm sp -> hd b = Some h -> txd (tx_set h (vw b) s) vw hd cl lg rm sp;
  tl_data : forall s vw hd cl lg rm sp b h,
    txd s vw hd cl lg rm sp -> hd b = Some h -> tx_data h s = vw b;
  tl_len : forall s b, t_inv s -> length (t_view s b) = BSZ;
  tl_idle : forall s b, t_inv s -> t_held s b = None -> t_clean s b;
}.

(** ** The log implements the interface *)
Section impl.
Context {S : Type} {B : BufCache S} {V : BufCacheView S} {dv : Z} {L : BufCacheLaws S dv} (x : ctx).
Context (start size : Z).

#[local] Instance log_txn : BlockTxn (logst S) := {|
  tx_read := fun dev b => on_bc (bc_read dev b);
  tx_relse := fun h => on_bc (bc_relse h);
  tx_log := log_write x;
  tx_data := fun h l => bc_get_data h (lg_bc l);
  tx_set := fun h d l => set_bc (bc_set_data h d (lg_bc l)) l;
  tx_init := initlog;
|}.

(** The log inside an operation of the one running process. *)
Record txn_inv (l : logst S) : Prop := {
  ti_wf : log_wf dv l;
  ti_nodup : NoDup (logged l);
  ti_lock : lk_free (lg_lock l);
  ti_geom : lg_start l = start /\ lg_size l = size;
  ti_out : 1 <= lg_outstanding l;
  ti_cache : v_inv (lg_bc l);
  ti_clear : hdr_n (v_disk (lg_bc l) start) = 0;
  ti_refs : forall b, v_refs (lg_bc l) b =
    (if decide (b ∈ logged l) then 1 else 0) + (if decide (v_held (lg_bc l) b = None) then 0 else 1);
}.

#[local] Instance log_txn_view : BlockTxnView (logst S) := {|
  t_inv := txn_inv;
  t_view := fun l => v_view (lg_bc l);
  t_held := fun l => v_held (lg_bc l);
  t_clean := fun l b => b ∈ logged l \/ v_view (lg_bc l) b = v_disk (lg_bc l) b;
  t_logged := logged;
  t_room := fun l => v_room (lg_bc l);
  t_space := fun l => (LOGSIZE `min` (lg_size l - 1)) - lg_n l;
  t_can_log := fun b => 0 <= b < 2 ^ 32 /\ ~ in_log start size b;
|}.
Implicit Types l : logst S.

Lemma idle_clean_txn l b : txn_inv l -> v_held (lg_bc l) b = None -> b ∈ logged l \/ v_view (lg_bc l) b = v_disk (lg_bc l) b.
Proof.
  intros I Hh. destruct (decide (b ∈ logged l)); [by left|right].
  apply bl_clean; [apply I|]. rewrite (ti_refs l I), decide_False, decide_True by done. done.
Qed.

(** A cache operation that keeps the disk and the log's own fields. *)
Lemma txn_inv_cache l s' rf hd :
  txn_inv l -> v_inv s' -> (forall b, v_disk s' b = v_disk (lg_bc l) b) ->
  (forall b, v_refs s' b = rf b) -> (forall b, v_held s' b = hd b) ->
  (forall b, rf b = (if decide (b ∈ logged l) then 1 else 0) + (if decide (hd b = None) then 0 else 1)) ->
  txn_inv (set_bc s' l).
Proof.
  intros I I' D R H E. destruct I as [W N K G O C Cl Rf]. split; try done; cbn [set_bc lg_bc lg_start lg_size].
  - by destruct W.
  - by rewrite D.
  - intros b. rewrite R, E, H. done.
Qed.

Lemma txn_read_law : forall s vw hd cl lg rm sp b,
    txd s vw hd cl lg rm sp -> 0 <= b < 2 ^ 32 -> hd b = None -> b ∈ lg \/ 0 < rm ->
    runs (tx_read dv b) s (fun h s' =>
      txd s' vw (upd_at hd b (Some h)) (fun b' => cl b' \/ b' = b) lg
        (if decide (b ∈ lg) then rm else rm - 1) sp).
Proof.
  intros l vw hd cl lg rm sp b [I Dv Dh Dc Dl Dr Ds] Hb Hh Hr. cbn in Dv, Dh, Dc, Dl, Dr, Ds |- *.
  pose proof I as [W N K G O C Cl Rf]. rewrite <- Dh in Hh.
  apply run_bc. eapply runs_mono; [apply bl_read; [done|done| |]|].
  { rewrite Rf, <- Dl in *. rewrite (decide_True (P := v_held _ _ = None)) by done. case_decide; [lia|]. destruct Hr; [done|lia]. }
  { rewrite Rf. repeat case_decide; lia. }
  intros h s' [I' V' D' R' H' M' _].
  assert (I2 : txn_inv (set_bc s' l)).
  { eapply txn_inv_cache; try done. intros b'. unfold upd_at. destruct (decide (b' = b)) as [->|]; rewrite Rf; upd_solve. }
  split; cbn; try done.
  + intros b'. by rewrite V'.
  + intros b'. rewrite H'. by apply upd_at_ext.
  + intros b' [Hc| ->].
    * rewrite V', D'. by apply Dc.
    * rewrite V', D'. exact (idle_clean_txn l b I Hh).
  + rewrite M', Rf, (decide_True (P := v_held _ _ = None)) by done. pose proof (Dl b).
    destruct (decide (b ∈ logged l)), (decide (b ∈ lg)); try tauto; repeat case_decide; lia.
Qed.

Lemma txn_relse_law : forall s vw hd cl lg rm sp b h,
    txd s vw hd cl lg rm sp -> hd b = Some h -> cl b ->
    runs (tx_relse h) s (fun _ s' =>
      txd s' vw (upd_at hd b None) cl lg (if decide (b ∈ lg) then rm else rm + 1) sp).
Proof.
  intros l vw hd cl lg rm sp b h [I Dv Dh Dc Dl Dr Ds] Hh Hc. cbn in Dv, Dh, Dc, Dl, Dr, Ds |- *.
  pose proof I as [W N K G O C Cl Rf]. rewrite <- Dh in Hh.
  assert (ER : v_refs (lg_bc l) b = if decide (b ∈ logged l) then 2 else 1).
  { rewrite Rf. rewrite Hh. rewrite (decide_False (P := Some h = None)) by done. case_decide; lia. }
  apply run_bc. eapply runs_mono; [apply (bl_relse _ b); [done|done|]|].
  { intros E1. destruct (Dc b Hc); [|done]. rewrite ER, decide_True in E1 by done. lia. }
  intros ? s' [I' V' D' R' H' M' _].
  assert (I2 : txn_inv (set_bc s' l)).
  { eapply txn_inv_cache; try done. intros b'. unfold upd_at. destruct (decide (b' = b)) as [->|]; [rewrite ER; upd_solve|apply Rf]. }
  split; cbn; try done.
  + intros b'. by rewrite V'.
  + intros b'. rewrite H'. by apply upd_at_ext.
  + intros b' Hc'. rewrite V', D'. by apply Dc.
  + rewrite M', ER. pose proof (Dl b).
    destruct (decide (b ∈ logged l)), (decide (b ∈ lg)); try tauto; repeat case_decide; lia.
Qed.

Lemma txn_log_law : forall s vw hd cl lg rm sp b h,
    txd s vw hd cl lg rm sp -> hd b = Some h -> t_can_log b -> 0 < sp ->
    runs (tx_log h) s (fun _ s' =>
      txd s' vw hd (fun b' => cl b' \/ b' = b) (b :: lg) rm (if decide (b ∈ lg) then sp else sp - 1)).
Proof.
  intros l vw hd cl lg rm sp b h [I Dv Dh Dc Dl Dr Ds] Hh [Hb Hnl] Hsp. cbn in Dv, Dh, Dc, Dl, Dr, Ds |- *.
  pose proof I as [W N K [G1 G2] O C Cl Rf]. rewrite <- Dh in Hh. pose proof (length_logged dv l W) as HL.
  eapply runs_mono; [apply (log_write_run (dv := dv) x l b h); try done; [by rewrite G1, G2| |lia|lia]|].
  { rewrite Rf. repeat case_decide; lia. }
  intros ? l' (W' & (K' & S' & O' & C') & G' & E' & [I' V' D' R' H' M' _]). pose proof (length_logged dv l' W') as HL'.
  pose proof (Dl b) as Hbl.
  assert (HE : forall b', b' ∈ logged l' <-> b' ∈ logged l \/ b' = b).
  { intros b'. rewrite E'. case_decide; [|rewrite elem_of_app, list_elem_of_singleton; done]. split; [by left|]. by intros [?| ->]. }
  split; cbn; try done.
  + split; try done; [| by rewrite K'|by rewrite G', S'|by rewrite O'|by rewrite D'|].
    * rewrite E'. case_decide; [done|]. apply NoDup_app. split_and!; [done|set_solver|apply NoDup_singleton].
    * intros b'. rewrite R', H'. pose proof (HE b'). destruct (decide (b ∈ logged l)).
      -- rewrite Rf. destruct (decide (b' ∈ logged l)), (decide (b' ∈ logged l')); try tauto; try done; exfalso; naive_solver.
      -- unfold upd_at. rewrite !Rf. destruct (decide (b' = b)) as [->|];
           destruct (decide (b ∈ logged l)); try tauto;
           repeat (destruct (decide (_ ∈ _))); try tauto; lia.
  + intros b'. by rewrite V'.
  + intros b'. by rewrite H'.
  + intros b' [Hc| ->]; [|left; apply HE; by right]. rewrite V', D', HE. destruct (Dc b' Hc); auto.
  + intros b'. rewrite HE, elem_of_cons, <- Dl. tauto.
  + by rewrite M'.
  + rewrite S'. assert (lg_n l' = lg_n l + if decide (b ∈ logged l) then 0 else 1) as ->; [|repeat case_decide; try tauto; lia].
    destruct (lw_n dv l W) as [[Hn _] _]. destruct (lw_n dv l' W') as [[Hn' _] _].
    rewrite E' in HL'. case_decide; [lia|]. rewrite length_app in HL'. cbn in HL'. lia.
Qed.

Lemma txn_set_law : forall s vw hd cl lg rm sp b h d,
    txd s vw hd cl lg rm sp -> hd b = Some h -> length d = BSZ ->
    txd (tx_set h d s) (upd_at vw b d) hd (fun b' => cl b' /\ b' <> b) lg rm sp.
Proof.
  intros l vw hd cl lg rm sp b h d [I Dv Dh Dc Dl Dr Ds] Hh Hd. cbn in Dv, Dh, Dc, Dl, Dr, Ds |- *.
  pose proof I as [W N K G O C Cl Rf]. rewrite <- Dh in Hh.
  destruct (bl_set (lg_bc l) b h d C Hh Hd) as [I' V' D' R' H' M' _].
  split; cbn; try done.
  + eapply txn_inv_cache; try done.
  + intros b'. rewrite V'. by apply upd_at_ext.
  + intros b'. by rewrite H'.
  + intros b' [Hc Hne]. rewrite V', D'. unfold upd_at. rewrite decide_False by done. by apply Dc.
  + by rewrite M'.
Qed.

(** Storing the bytes a block already has changes nothing. *)
Lemma txn_set_same_law : forall s vw hd cl lg rm sp b h,
    txd s vw hd cl lg rm sp -> hd b = Some h -> txd (tx_set h (vw b) s) vw hd cl lg rm sp.
Proof.
  intros l vw hd cl lg rm sp b h [I Dv Dh Dc Dl Dr Ds] Hh. cbn in Dv, Dh, Dc, Dl, Dr, Ds |- *.
  pose proof I as [W N K G O C Cl Rf]. rewrite <- Dh in Hh. rewrite <- Dv.
  destruct (bl_set (lg_bc l) b h (v_view (lg_bc l) b) C Hh (bl_len _ b C)) as [I' V' D' R' H' M' _].
  assert (EV : forall b', v_view (bc_set_data h (v_view (lg_bc l) b) (lg_bc l)) b' = v_view (lg_bc l) b').
  { intros b'. rewrite V'. unfold upd_at. case_decide as E; [by rewrite E|done]. }
  split; cbn; try done.
  + eapply txn_inv_cache; try done.
  + intros b'. by rewrite EV.
  + intros b'. by rewrite H'.
  + intros b' Hc. rewrite EV, D'. by apply Dc.
  + by rewrite M'.
Qed.

Lemma log_txn_laws : BlockTxnLaws (logst S) dv.
Proof.
  split.
  - exact txn_read_law.
  - exact txn_relse_law.
  - exact txn_log_law.
  - exact txn_set_law.
  - exact txn_set_same_law.
  - intros l vw hd cl lg rm sp b h [I Dv Dh _ _ _ _] Hh. cbn in *. rewrite <- Dv. apply bl_data; [apply I|by rewrite Dh].
  - intros l b I. cbn. apply bl_len, I.
  - intros l b I Hh. by apply idle_clean_txn.
Qed.
End impl.

(** ** A concrete transaction

    The log at block 2 of 30 blocks on a booted system, in an operation. *)
#[local] Existing Instances cache0 view0 laws0.
Definition txn0 : BlockTxn (logst bst) := log_txn x0.
Definition txn_view0 : BlockTxnView (logst bst) := log_txn_view (dv := 1) 2 30.
Definition txn_laws0 : @BlockTxnLaws (logst bst) txn0 txn_view0 1 := log_txn_laws x0 2 30.

Lemma boot_txd (d : gmap Z block) :
  (forall b, length (disk_get d b) = BSZ) -> hdr_n (disk_get d 2) = 0 ->
  exists l : logst bst, @txd _ txn_view0 l (disk_get d) (fun _ => None) (fun _ => True) [] 30 29.
Proof.
  intros Hd H0. destruct (boot_cache d Hd) as (s & IC & Hr & Hdk). exists (log0 s). pose proof IC as [I R HH].
  assert (TI : txn_inv (dv := 1) 2 30 (log0 s)).
  { split; cbn [log0 lg_bc lg_start lg_size lg_outstanding lg_lock]; try done.
    - apply log0_wf.
    - constructor.
    - by rewrite Hdk.
    - intros b. change (logged (log0 s)) with (@nil Z). rewrite R, HH, decide_False, decide_True by (done || set_solver). done. }
  split; cbn -[logged log0]; try done.
  - intros b. rewrite <- Hdk. exact (idle_clean (dv := 1) s b IC).
  - intros b _. right. exact (idle_clean (dv := 1) s b IC).
  - change (30 <= v_room s). by rewrite Hr.
Qed.
