(* ===== verification/Fs.v ===== *)
(** * File system: kernel/fs.c (blocks, inodes, file contents)

    The state of fs.c: the super block, the inode table, the blocks of the
    current transaction, kernel memory and user memory.  This file has the
    block allocator, the inode table and the reading and writing of file
    contents; Dir.v has directories and path names.  An inode pointer is an
    index into the table, the null pointer is [None]. *)
From S2P Require Import Prelude CString Riscv Spinlock Bio Layout Log Txn.
Local Open Scope Z_scope.

Record inode := Inode {
  i_dev : Z;
  i_inum : Z;
  i_ref : Z;
  i_lock : sleeplock;
  i_valid : Z;
  i_type : Z;
  i_major : Z;
  i_minor : Z;
  i_nlink : Z;
  i_size : Z;
  i_addrs : list Z;
}.

Definition inode0 : inode :=
  Inode 0 0 0 (Sleeplock 0 (Spinlock 0 "" None) "" 0) 0 0 0 0 0 0 (replicate NADDRS 0).
#[export] Instance inode_inhabited : Inhabited inode := populate inode0.

Definition NINODEn : nat := Z.to_nat NINODE.

(** The process's memory as [either_copyout]/[either_copyin] use it, and the
    kernel's own memory. [um_copyin] takes the old contents of the destination
    buffer and returns the new ones with the status. *)
Class UserMem (U : Type) : Type := {
  um_copyout : Z -> list Z -> M U Z;
  um_copyin : Z -> list Z -> M U (list Z * Z);
  um_mem : U -> mem;
  um_set_mem : mem -> U -> U;
}.

Record fsst (T U : Type) := FsSt {
  fs_sb : superblock;
  fs_ilock : spinlock;
  fs_inode : list inode;
  fs_t : T;
  fs_u : U;
  fs_woken : list chan;
  fs_console : list string;
}.
Arguments FsSt {T U}. Arguments fs_sb {T U}. Arguments fs_ilock {T U}. Arguments fs_inode {T U}.
Arguments fs_t {T U}. Arguments fs_u {T U}. Arguments fs_woken {T U}.
Arguments fs_console {T U}.

Section setters.
Context {T U : Type}.
Definition set_sb (v : superblock) (s : fsst T U) : fsst T U := FsSt v (fs_ilock s) (fs_inode s) (fs_t s) (fs_u s) (fs_woken s) (fs_console s).
Definition set_ilock (v : spinlock) (s : fsst T U) : fsst T U := FsSt (fs_sb s) v (fs_inode s) (fs_t s) (fs_u s) (fs_woken s) (fs_console s).
Definition set_inode (v : list inode) (s : fsst T U) : fsst T U := FsSt (fs_sb s) (fs_ilock s) v (fs_t s) (fs_u s) (fs_woken s) (fs_console s).
Definition set_t (v : T) (s : fsst T U) : fsst T U := FsSt (fs_sb s) (fs_ilock s) (fs_inode s) v (fs_u s) (fs_woken s) (fs_console s).
Definition set_u (v : U) (s : fsst T U) : fsst T U := FsSt (fs_sb s) (fs_ilock s) (fs_inode s) (fs_t s) v (fs_woken s) (fs_console s).
Definition set_fwoken (v : list chan) (s : fsst T U) : fsst T U := FsSt (fs_sb s) (fs_ilock s) (fs_inode s) (fs_t s) (fs_u s) v (fs_console s).
Definition add_console (v : string) (s : fsst T U) : fsst T U := FsSt (fs_sb s) (fs_ilock s) (fs_inode s) (fs_t s) (fs_u s) (fs_woken s) (fs_console s ++ [v]).
Definition geti (i : nat) (s : fsst T U) : inode := fs_inode s !!! i.
Definition updi (i : nat) (f : inode -> inode) (s : fsst T U) : fsst T U := set_inode (<[i := f (geti i s)]> (fs_inode s)) s.
(** Kernel memory. *)
Context {UM : UserMem U}.
Definition fs_mem (s : fsst T U) : mem := um_mem (fs_u s).
Definition set_fmem (m : mem) (s : fsst T U) : fsst T U := set_u (um_set_mem m (fs_u s)) s.
End setters.

Definition with_iref (v : Z) (i : inode) := Inode (i_dev i) (i_inum i) v (i_lock i) (i_valid i) (i_type i) (i_major i) (i_minor i) (i_nlink i) (i_size i) (i_addrs i).
Definition with_ident (d n : Z) (i : inode) := Inode d n (i_ref i) (i_lock i) (i_valid i) (i_type i) (i_major i) (i_minor i) (i_nlink i) (i_size i) (i_addrs i).
Definition with_ilock (v : sleeplock) (i : inode) := Inode (i_dev i) (i_inum i) (i_ref i) v (i_valid i) (i_type i) (i_major i) (i_minor i) (i_nlink i) (i_size i) (i_addrs i).
Definition with_ivalid (v : Z) (i : inode) := Inode (i_dev i) (i_inum i) (i_ref i) (i_lock i) v (i_type i) (i_major i) (i_minor i) (i_nlink i) (i_size i) (i_addrs i).
Definition with_type (v : Z) (i : inode) := Inode (i_dev i) (i_inum i) (i_ref i) (i_lock i) (i_valid i) v (i_major i) (i_minor i) (i_nlink i) (i_size i) (i_addrs i).
Definition with_devno (ma mi : Z) (i : inode) := Inode (i_dev i) (i_inum i) (i_ref i) (i_lock i) (i_valid i) (i_type i) ma mi (i_nlink i) (i_size i) (i_addrs i).
Definition with_nlink (v : Z) (i : inode) := Inode (i_dev i) (i_inum i) (i_ref i) (i_lock i) (i_valid i) (i_type i) (i_major i) (i_minor i) v (i_size i) (i_addrs i).
Definition with_size (v : Z) (i : inode) := Inode (i_dev i) (i_inum i) (i_ref i) (i_lock i) (i_valid i) (i_type i) (i_major i) (i_minor i) (i_nlink i) v (i_addrs i).
Definition with_addrs (v : list Z) (i : inode) := Inode (i_dev i) (i_inum i) (i_ref i) (i_lock i) (i_valid i) (i_type i) (i_major i) (i_minor i) (i_nlink i) (i_size i) v.

(** The fields an in-memory inode shares with its disk inode. *)
Definition dinode_of (i : inode) : dinode :=
  Dinode (i_type i) (i_major i) (i_minor i) (i_nlink i) (i_size i) (i_addrs i).
Definition load_dinode (d : dinode) (i : inode) : inode :=
  Inode (i_dev i) (i_inum i) (i_ref i) (i_lock i) (i_valid i) (di_type d) (di_major d) (di_minor d)
        (di_nlink d) (di_size d) (di_addrs d).

(** [bp->data[bi/8]] and the mask [1 << (bi % 8)]. *)
Definition bit_used (d : block) (bi : Z) : bool :=
  negb (Z.land (d !!! Z.to_nat (bi / 8)) (Z.shiftl 1 (bi mod 8)) =? 0).
Definition set_bit (d : block) (bi : Z) : block :=
  <[Z.to_nat (bi / 8) := Z.lor (d !!! Z.to_nat (bi / 8)) (Z.shiftl 1 (bi mod 8))]> d.
Definition clear_bit (d : block) (bi : Z) : block :=
  <[Z.to_nat (bi / 8) := Z.land (d !!! Z.to_nat (bi / 8)) (Z.lnot (Z.shiftl 1 (bi mod 8)))]> d.

(** [for(bi = ..; bi < BPB && b + bi < sb.size; bi++)]: the first clear bit. *)
Fixpoint scan_bits (k : nat) (d : block) (b bi size : Z) : option Z :=
  match k with
  | O => None
  | S k' =>
      if b + bi <? size then
        if bit_used d bi then scan_bits k' d b (bi + 1) size else Some bi
      else None
  end.

(** Offset of inode [inum] within its block. *)
Definition di_off (inum : Z) : nat := Z.to_nat (inum mod IPB * DISIZE).

Section ops.
Context {T U : Type} {B : BlockTxn T} {UM : UserMem U} (x : ctx).
Local Abbreviation FM := (M (fsst T U)).

Definition on_t {A} (m : M T A) : FM A := zoom fs_t set_t m.
Definition on_u {A} (m : M U A) : FM A := zoom fs_u set_u m.
Definition it_spin {A} (m : M spinlock A) : FM A := zoom fs_ilock set_ilock m.
Definition i_chan (i : nat) : chan := Chan "inode.lock" (Z.of_nat i).
Definition i_sleep {A} (i : nat) (m : M sl_state A) : FM A :=
  zoom (fun s => SlState (i_lock (geti i s)) (fs_woken s))
       (fun l s => set_fwoken (woken l) (updi i (with_ilock (sl l)) s)) m.

Definition fs_bread (dev b : Z) : FM nat := on_t (tx_read (u32 dev) (u32 b)).
Definition fs_brelse (h : nat) : FM unit := on_t (tx_relse h).
Definition fs_log_write (h : nat) : FM unit := on_t (tx_log h).
Definition fs_data (h : nat) : FM block := gets (fun s => tx_data h (fs_t s)).
Definition fs_set_data (h : nat) (d : block) : FM unit := on_t (modify (tx_set h d)).

Definition readsb (dev : Z) : FM unit :=
  let! bp := fs_bread dev 1 in
  let! d := fs_data bp in
  modify (set_sb (sb_dec d)) ;;
  fs_brelse bp.

Definition fsinit (dev : Z) : FM unit :=
  readsb dev ;;
  let! sb := gets fs_sb in
  (if negb (sb_magic sb =? FSMAGIC) then panic "invalid file system" else ret tt) ;;
  on_t (tx_init dev sb).

Definition bzero (dev bno : Z) : FM unit :=
  let! bp := fs_bread dev bno in
  fs_set_data bp (replicate BSZ 0) ;;
  fs_log_write bp ;;
  fs_brelse bp.

Definition balloc (dev : Z) : FM Z :=
  let! sb := gets fs_sb in
  let! r := for_loop 0 (sb_size sb) BPB (fun b =>
    let! bp := fs_bread dev (BBLOCK b sb) in
    let! d := fs_data bp in
    match scan_bits (Z.to_nat BPB) d b 0 (sb_size sb) with
    | Some bi =>
        fs_set_data bp (set_bit d bi) ;;
        fs_log_write bp ;;
        fs_brelse bp ;;
        bzero dev (b + bi) ;;
        ret (Some (b + bi))
    | None => fs_brelse bp ;; ret None
    end) in
  match r with
  | Some b => ret b
  | None => modify (add_console "balloc: out of blocks") ;; ret 0
  end.

Definition bfree (dev b : Z) : FM unit :=
  let! sb := gets fs_sb in
  let! bp := fs_bread dev (BBLOCK b sb) in
  let bi := b mod BPB in
  let! d := fs_data bp in
  (if bit_used d bi then ret tt else panic "freeing free block") ;;
  fs_set_data bp (clear_bit d bi) ;;
  fs_log_write bp ;;
  fs_brelse bp.

Definition iinit : FM unit :=
  modify (set_ilock (initlock "itable")) ;;
  forn (A := unit) NINODEn 0 1 (fun i =>
    modify (updi (Z.to_nat i) (with_ilock (initsleeplock "inode"))) ;; ret None) ;;
  ret tt.

(** The scan of the table: an entry in use for (dev, inum), else the first
    free entry. *)
Fixpoint iget_scan (k i : nat) (l : list inode) (dev inum : Z) (empty : option nat) : option nat + option nat :=
  match k with
  | O => inr empty
  | S k' =>
      let ip := l !!! i in
      if (0 <? i_ref ip) && (i_dev ip =? dev) && (i_inum ip =? inum) then inl (Some i)
      else iget_scan k' (S i) l dev inum
             (match empty with None => if i_ref ip =? 0 then Some i else None | Some _ => empty end)
  end.

Definition iget (dev inum : Z) : FM nat :=
  it_spin (acquire_word (c_hart x)) ;;
  let! tab := gets fs_inode in
  match iget_scan NINODEn 0 tab dev inum None with
  | inl (Some ip) =>
      modify (updi ip (fun i => with_iref (i_ref i + 1) i)) ;;
      it_spin (release_word (c_hart x)) ;;
      ret ip
  | inr (Some ip) =>
      modify (updi ip (with_ident dev inum)) ;;
      modify (updi ip (with_iref 1)) ;;
      modify (updi ip (with_ivalid 0)) ;;
      it_spin (release_word (c_hart x)) ;;
      ret ip
  | _ => panic "iget: no inodes"
  end.

Definition ialloc (dev type : Z) : FM (option nat) :=
  let! sb := gets fs_sb in
  let! r := for_loop 1 (sb_ninodes sb) 1 (fun inum =>
    let! bp := fs_bread dev (IBLOCK inum sb) in
    let! d := fs_data bp in
    if di_type (dinode_dec d (di_off inum)) =? 0 then
      fs_set_data bp (put_bytes d (di_off inum)
        (dinode_enc (Dinode type 0 0 0 0 (replicate NADDRS 0)))) ;;
      fs_log_write bp ;;
      fs_brelse bp ;;
      let! ip := iget dev inum in ret (Some ip)
    else fs_brelse bp ;; ret None) in
  match r with
  | Some ip => ret (Some ip)
  | None => modify (add_console "ialloc: no inodes") ;; ret None
  end.

Definition iupdate (ip : nat) : FM unit :=
  let! i := gets (geti ip) in
  let! sb := gets fs_sb in
  let! bp := fs_bread (i_dev i) (IBLOCK (i_inum i) sb) in
  let! d := fs_data bp in
  fs_set_data bp (put_bytes d (di_off (i_inum i)) (dinode_enc (dinode_of i))) ;;
  fs_log_write bp ;;
  fs_brelse bp.

Definition idup (ip : nat) : FM nat :=
  it_spin (acquire_word (c_hart x)) ;;
  modify (updi ip (fun i => with_iref (i_ref i + 1) i)) ;;
  it_spin (release_word (c_hart x)) ;;
  ret ip.

Definition ilock (p : option nat) : FM unit :=
  match p with
  | None => panic "ilock"
  | Some ip =>
      let! i := gets (geti ip) in
      if i_ref i <? 1 then panic "ilock"
      else
        i_sleep ip (acquiresleep x (i_chan ip)) ;;
        let! i := gets (geti ip) in
        if i_valid i =? 0 then
          let! sb := gets fs_sb in
          let! bp := fs_bread (i_dev i) (IBLOCK (i_inum i) sb) in
          let! d := fs_data bp in
          modify (updi ip (load_dinode (dinode_dec d (di_off (i_inum i))))) ;;
          fs_brelse bp ;;
          modify (updi ip (with_ivalid 1)) ;;
          let! i := gets (geti ip) in
          if i_type i =? 0 then panic "ilock: no type" else ret tt
        else ret tt
  end.

Definition iunlock (p : option nat) : FM unit :=
  match p with
  | None => panic "iunlock"
  | Some ip =>
      let! h := i_sleep ip (holdingsleep x) in
      let! i := gets (geti ip) in
      if negb h || (i_ref i <? 1) then panic "iunlock"
      else i_sleep ip (releasesleep x (i_chan ip))
  end.

(** The block address in slot [n] of [ip->addrs]. *)
Definition iaddr (ip n : nat) : FM Z := gets (fun s => i_addrs (geti ip s) !!! n).
Definition set_iaddr (ip n : nat) (a : Z) : FM unit :=
  modify (updi ip (fun i => with_addrs (<[n := a]> (i_addrs i)) i)).
Definition NDIRECTn : nat := 12.
Definition NINDIRECTn : nat := 256.

Definition bmap (ip : nat) (bn : Z) : FM Z :=
  let! dev := gets (fun s => i_dev (geti ip s)) in
  if bn <? NDIRECT then
    let n := Z.to_nat bn in
    let! addr := iaddr ip n in
    if addr =? 0 then
      let! addr := balloc dev in
      if addr =? 0 then ret 0
      else set_iaddr ip n addr ;; ret addr
    else ret addr
  else
    let bn := bn - NDIRECT in
    if bn <? NINDIRECT then
      let! addr := iaddr ip NDIRECTn in
      let! addr :=
        (if addr =? 0 then
           let! addr := balloc dev in
           (if addr =? 0 then ret 0 else set_iaddr ip NDIRECTn addr ;; ret addr)
         else ret addr) in
      if addr =? 0 then ret 0
      else
        let! bp := fs_bread dev addr in
        let! d := fs_data bp in
        let off := (4 * Z.to_nat bn)%nat in
        let addr := get_le d off 4 in
        let! addr :=
          (if addr =? 0 then
             let! addr := balloc dev in
             (if negb (addr =? 0) then
                let! d := fs_data bp in
                fs_set_data bp (put_le d off 4 addr) ;;
                fs_log_write bp
              else ret tt) ;;
             ret addr
           else ret addr) in
        fs_brelse bp ;;
        ret addr
    else panic "bmap: out of range".

Definition itrunc (ip : nat) : FM unit :=
  let! dev := gets (fun s => i_dev (geti ip s)) in
  forn (A := unit) NDIRECTn 0 1 (fun i =>
    let! a := iaddr ip (Z.to_nat i) in
    (if negb (a =? 0) then bfree dev a ;; set_iaddr ip (Z.to_nat i) 0 else ret tt) ;;
    ret None) ;;
  let! a := iaddr ip NDIRECTn in
  (if negb (a =? 0) then
     let! bp := fs_bread dev a in
     forn (A := unit) NINDIRECTn 0 1 (fun j =>
       let! d := fs_data bp in
       let aj := get_le d (4 * Z.to_nat j) 4 in
       (if negb (aj =? 0) then bfree dev aj else ret tt) ;;
       ret None) ;;
     fs_brelse bp ;;
     bfree dev a ;;
     set_iaddr ip NDIRECTn 0
   else ret tt) ;;
  modify (updi ip (with_size 0)) ;;
  iupdate ip.

Definition iput (ip : nat) : FM unit :=
  it_spin (acquire_word (c_hart x)) ;;
  let! i := gets (geti ip) in
  (if (i_ref i =? 1) && negb (i_valid i =? 0) && (i_nlink i =? 0) then
     i_sleep ip (acquiresleep x (i_chan ip)) ;;
     it_spin (release_word (c_hart x)) ;;
     itrunc ip ;;
     modify (updi ip (with_type 0)) ;;
     iupdate ip ;;
     modify (updi ip (with_ivalid 0)) ;;
     i_sleep ip (releasesleep x (i_chan ip)) ;;
     it_spin (acquire_word (c_hart x))
   else ret tt) ;;
  modify (updi ip (fun i => with_iref (i_ref i - 1) i)) ;;
  it_spin (release_word (c_hart x)).

Definition iunlockput (ip : nat) : FM unit :=
  iunlock (Some ip) ;;
  iput ip.

(** [struct stat] *)
Record stat := Stat { st_dev : Z; st_ino : Z; st_type : Z; st_nlink : Z; st_size : Z }.

Definition stati (ip : nat) : FM stat :=
  let! i := gets (geti ip) in
  ret (Stat (s32 (i_dev i)) (i_inum i) (i_type i) (i_nlink i) (i_size i)).

(** Copies between a buffer's bytes and user or kernel memory (proc.c). *)
Definition either_copyout (user_dst : bool) (dst : Z) (src : list Z) : FM Z :=
  if user_dst then on_u (um_copyout dst src)
  else modify (fun s => set_fmem (store_bytes (fs_mem s) dst src) s) ;; ret 0.
Definition either_copyin (user_src : bool) (src : Z) (old : list Z) : FM (list Z * Z) :=
  if user_src then on_u (um_copyin src old)
  else let! m := gets fs_mem in ret (load_bytes (length old) m src, 0).

(** The loops of [readi] and [writei]; every round but the first starts at a
    block boundary, so [n / BSIZE + 2] rounds and the last test are enough.
    The result is [tot], and for [writei] also [off]. *)
Fixpoint readi_loop (fuel : nat) (ip : nat) (user_dst : bool) (dst off n tot : Z) : FM Z :=
  match fuel with
  | O => stall (Chan "readi" 0)
  | S f =>
      if tot <? n then
        let! addr := bmap ip (off / BSIZE) in
        if addr =? 0 then ret tot
        else
          let! dev := gets (fun s => i_dev (geti ip s)) in
          let! bp := fs_bread dev addr in
          let m := (n - tot) `min` (BSIZE - off mod BSIZE) in
          let! d := fs_data bp in
          let! r := either_copyout user_dst dst (get_bytes d (Z.to_nat (off mod BSIZE)) (Z.to_nat m)) in
          if r =? -1 then fs_brelse bp ;; ret (-1)
          else fs_brelse bp ;; readi_loop f ip user_dst (u64 (dst + m)) (u32 (off + m)) n (tot + m)
      else ret tot
  end.

Definition readi (ip : nat) (user_dst : bool) (dst off n : Z) : FM Z :=
  let! sz := gets (fun s => i_size (geti ip s)) in
  if (sz <? off) || (u32 (off + n) <? off) then ret 0
  else
    let n := if sz <? u32 (off + n) then sz - off else n in
    let! tot := readi_loop (Z.to_nat (n / BSIZE) + 3) ip user_dst dst off n 0 in
    ret (s32 tot).

Fixpoint writei_loop (fuel : nat) (ip : nat) (user_src : bool) (src off n tot : Z) : FM (Z * Z) :=
  match fuel with
  | O => stall (Chan "writei" 0)
  | S f =>
      if tot <? n then
        let! addr := bmap ip (off / BSIZE) in
        if addr =? 0 then ret (tot, off)
        else
          let! dev := gets (fun s => i_dev (geti ip s)) in
          let! bp := fs_bread dev addr in
          let m := (n - tot) `min` (BSIZE - off mod BSIZE) in
          let! d := fs_data bp in
          let! (bs, r) := either_copyin user_src src (get_bytes d (Z.to_nat (off mod BSIZE)) (Z.to_nat m)) in
          fs_set_data bp (put_bytes d (Z.to_nat (off mod BSIZE)) bs) ;;
          if r =? -1 then fs_brelse bp ;; ret (tot, off)
          else
            fs_log_write bp ;;
            fs_brelse bp ;;
            writei_loop f ip user_src (u64 (src + m)) (u32 (off + m)) n (tot + m)
      else ret (tot, off)
  end.

Definition writei (ip : nat) (user_src : bool) (src off n : Z) : FM Z :=
  let! sz := gets (fun s => i_size (geti ip s)) in
  if (sz <? off) || (u32 (off + n) <? off) then ret (-1)
  else if MAXFILE * BSIZE <? u32 (off + n) then ret (-1)
  else
    let! (tot, off) := writei_loop (Z.to_nat (n / BSIZE) + 3) ip user_src src off n 0 in
    let! sz := gets (fun s => i_size (geti ip s)) in
    (if sz <? off then modify (updi ip (with_size off)) else ret tt) ;;
    iupdate ip ;;
    ret (s32 tot).
End ops.

(** ** Lemmas: bitmap bits *)
Lemma land_bit_testbit a k : 0 <= k -> (Z.land a (Z.shiftl 1 k) =? 0) = negb (Z.testbit a k).
Proof.
  intros Hk. rewrite Z.shiftl_1_l. destruct (Z.testbit a k) eqn:E; cbn [negb].
  - apply Z.eqb_neq. intros H. apply (f_equal (fun z => Z.testbit z k)) in H.
    rewrite Z.land_spec, E, Z.pow2_bits_true, Z.bits_0 in H by done. done.
  - apply Z.eqb_eq. apply Z.bits_inj'. intros j Hj. rewrite Z.land_spec, Z.bits_0.
    destruct (decide (j = k)) as [->|Hne]; [by rewrite E|].
    rewrite Z.pow2_bits_false by lia. apply andb_false_r.
Qed.

Lemma bit_used_testbit d bi : bit_used d bi = Z.testbit (d !!! Z.to_nat (bi / 8)) (bi mod 8).
Proof. unfold bit_used. rewrite land_bit_testbit by (apply Z.mod_pos_bound; lia). apply negb_involutive. Qed.

Lemma bit_pos_inj i j : 0 <= i -> 0 <= j -> Z.to_nat (i / 8) = Z.to_nat (j / 8) -> i mod 8 = j mod 8 -> i = j.
Proof. intros Hi Hj H1 H2. dlia. Qed.

Lemma bit_used_upd d i j f v :
  length d = BSZ -> 0 <= i < BPB -> 0 <= j < BPB ->
  (forall a k, 0 <= k -> Z.testbit (f a (Z.shiftl 1 (i mod 8))) k = if decide (k = i mod 8) then v else Z.testbit a k) ->
  bit_used (<[Z.to_nat (i / 8) := f (d !!! Z.to_nat (i / 8)) (Z.shiftl 1 (i mod 8))]> d) j =
    if decide (j = i) then v else bit_used d j.
Proof.
  intros Hd Hi Hj Hf. rewrite !bit_used_testbit.
  assert (Hi8 : (Z.to_nat (i / 8) < length d)%nat) by (rewrite Hd; unfold BPB, BSIZE, BSZ in *; dlia).
  destruct (decide (Z.to_nat (j / 8) = Z.to_nat (i / 8))) as [E|E].
  - rewrite E, list_lookup_total_insert_eq by done. rewrite Hf by dlia.
    destruct (decide (j = i)) as [->|Hne]; [by rewrite decide_True|].
    rewrite decide_False; [done|]. intros ?. apply Hne. apply bit_pos_inj; done || lia.
  - rewrite list_lookup_total_insert_ne by done. rewrite decide_False by congruence. done.
Qed.

Lemma bit_used_set d i j :
  length d = BSZ -> 0 <= i < BPB -> 0 <= j < BPB ->
  bit_used (set_bit d i) j = if decide (j = i) then true else bit_used d j.
Proof.
  intros. apply (bit_used_upd d i j Z.lor); try done. intros a k Hk.
  rewrite Z.lor_spec, Z.shiftl_1_l. case_decide as E.
  - subst k. rewrite Z.pow2_bits_true by dlia. apply orb_true_r.
  - rewrite Z.pow2_bits_false by dlia. apply orb_false_r.
Qed.

Lemma bit_used_clear d i j :
  length d = BSZ -> 0 <= i < BPB -> 0 <= j < BPB ->
  bit_used (clear_bit d i) j = if decide (j = i) then false else bit_used d j.
Proof.
  intros. apply (bit_used_upd d i j (fun a m => Z.land a (Z.lnot m))); try done. intros a k Hk.
  rewrite Z.land_spec, Z.lnot_spec, Z.shiftl_1_l by done. case_decide as E.
  - subst k. rewrite Z.pow2_bits_true by dlia. apply andb_false_r.
  - rewrite Z.pow2_bits_false by dlia. apply andb_true_r.
Qed.

Lemma scan_bits_spec k d b bi size :
  match scan_bits k d b bi size with
  | Some r => bi <= r < bi + Z.of_nat k /\ b + r < size /\ bit_used d r = false /\
              forall j, bi <= j < r -> bit_used d j = true
  | None => forall j, bi <= j < bi + Z.of_nat k -> b + j < size -> bit_used d j = true
  end.
Proof.
  revert bi. induction k as [|k IH]; intros bi; cbn [scan_bits]; [lia|].
  destruct (Z.ltb_spec (b + bi) size) as [Hlt|Hge]; [|intros; lia].
  destruct (bit_used d bi) eqn:E.
  - specialize (IH (bi + 1)). destruct (scan_bits k d b (bi + 1) size) as [r|].
    + destruct IH as (H1 & H2 & H3 & H4). split_and!; try lia; [done|]. intros j Hj.
      destruct (decide (j = bi)) as [->|]; [done|]. apply H4. lia.
    + intros j Hj Hs. destruct (decide (j = bi)) as [->|]; [done|]. apply IH; lia.
  - split_and!; try lia. done.
Qed.

(** ** Lemmas: running block operations *)
Section block_rules.
Context {T U : Type} {B : BlockTxn T} {V : BlockTxnView T} {UM : UserMem U} {dv : Z} {L : BlockTxnLaws T dv}.
Implicit Types s : fsst T U.
Local Abbreviation FM := (M (fsst T U)).

Lemma txd_weaken (t : T) vw hd cl lg rm sp vw' hd' (cl' : Z -> Prop) lg' rm' sp' :
  txd t vw hd cl lg rm sp -> (forall b, vw b = vw' b) -> (forall b, hd b = hd' b) ->
  (forall b, cl' b -> cl b) -> (forall b, b ∈ lg <-> b ∈ lg') -> rm' <= rm -> sp' <= sp ->
  txd t vw' hd' cl' lg' rm' sp'.
Proof.
  intros [I E1 E2 E3 E4 E5 E6] F1 F2 F3 F4 F5 F6. split; try done; try lia.
  - intros. by rewrite E1.
  - intros. by rewrite E2.
  - auto.
  - intros. by rewrite E4.
Qed.

Lemma r_bread {A} s vw hd cl lg rm sp dev b (k : nat -> FM A) Q :
  txd (fs_t s) vw hd cl lg rm sp -> u32 dev = dv -> 0 <= b < 2 ^ 32 -> hd b = None -> b ∈ lg \/ 0 < rm ->
  (forall h t', txd t' vw (upd_at hd b (Some h)) (fun b' => cl b' \/ b' = b) lg
     (if decide (b ∈ lg) then rm else rm - 1) sp -> runs (k h) (set_t t' s) Q) ->
  runs (bind (fs_bread dev b) k) s Q.
Proof.
  intros D Hdev Hb Hh Hr HK. apply runs_bind, runs_zoom. rewrite Hdev, u32_small by done.
  eapply runs_mono; [by eapply tl_read|]. auto.
Qed.

Lemma r_data {A} s vw hd cl lg rm sp b h (k : block -> FM A) Q :
  txd (fs_t s) vw hd cl lg rm sp -> hd b = Some h -> runs (k (vw b)) s Q ->
  runs (bind (fs_data h) k) s Q.
Proof. intros D Hh HK. apply runs_bind, runs_gets. by rewrite (tl_data _ _ _ _ _ _ _ b h D Hh). Qed.

Lemma r_set {A} s vw hd cl lg rm sp b h d (k : FM A) Q :
  txd (fs_t s) vw hd cl lg rm sp -> hd b = Some h -> length d = BSZ ->
  (forall t', txd t' (upd_at vw b d) hd (fun b' => cl b' /\ b' <> b) lg rm sp -> runs k (set_t t' s) Q) ->
  runs (fs_set_data h d ;; k) s Q.
Proof. intros D Hh Hd HK. apply runs_bind, runs_zoom, runs_modify. apply HK. by eapply tl_set. Qed.

Lemma r_set_same {A} s vw hd cl lg rm sp b h (k : FM A) Q :
  txd (fs_t s) vw hd cl lg rm sp -> hd b = Some h ->
  (forall t', txd t' vw hd cl lg rm sp -> runs k (set_t t' s) Q) ->
  runs (fs_set_data h (vw b) ;; k) s Q.
Proof. intros D Hh HK. apply runs_bind, runs_zoom, runs_modify. apply HK. by eapply tl_set_same. Qed.

Lemma r_log {A} s vw hd cl lg rm sp b h (k : FM A) Q :
  txd (fs_t s) vw hd cl lg rm sp -> hd b = Some h -> t_can_log b -> 0 < sp ->
  (forall t', txd t' vw hd (fun b' => cl b' \/ b' = b) (b :: lg) rm (if decide (b ∈ lg) then sp else sp - 1) ->
     runs k (set_t t' s) Q) ->
  runs (fs_log_write h ;; k) s Q.
Proof. intros D Hh Hc Hs HK. apply runs_bind, runs_zoom. eapply runs_mono; [by eapply tl_log|]. auto. Qed.

Lemma r_relse s vw hd cl lg rm sp b h Q :
  txd (fs_t s) vw hd cl lg rm sp -> hd b = Some h -> cl b ->
  (forall t', txd t' vw (upd_at hd b None) cl lg (if decide (b ∈ lg) then rm else rm + 1) sp -> Q tt (set_t t' s)) ->
  runs (fs_brelse h) s Q.
Proof.
  intros D Hh Hc HK. apply runs_zoom. eapply runs_mono; [by eapply tl_relse|]. intros [] t' Ht. auto.
Qed.

Lemma txd_len (t : T) vw hd cl lg rm sp b : txd t vw hd cl lg rm sp -> length (vw b) = BSZ.
Proof. intros [I E _ _ _ _ _]. rewrite <- E. by apply tl_len. Qed.

(** What logging [b] costs: nothing when it is in the log already. *)
Definition fresh (lg : list Z) (b : Z) : Z := if decide (b ∈ lg) then 0 else 1.

Lemma fresh_range lg b : 0 <= fresh lg b <= 1.
Proof. unfold fresh. case_decide; lia. Qed.

(** A block read, replaced by [f] of its contents, logged and released. *)
Lemma r_update s vw hd cl lg rm sp dev b (f : block -> block) :
  txd (fs_t s) vw hd cl lg rm sp -> u32 dev = dv -> 0 <= b < 2 ^ 32 -> hd b = None -> t_can_log b ->
  1 <= rm -> 1 <= sp -> length (f (vw b)) = BSZ ->
  runs (let! bp := fs_bread dev b in
        let! d := fs_data bp in
        fs_set_data bp (f d) ;; fs_log_write bp ;; fs_brelse bp) s
    (fun _ s' => exists t', s' = set_t t' s /\
       txd t' (upd_at vw b (f (vw b))) hd cl (b :: lg) (rm - fresh lg b) (sp - fresh lg b)).
Proof.
  intros D Hdev Hb Hh Hc Hr Hs Hf. unfold fresh. eapply r_bread; try done; [lia|]. intros h t1 D1.
  eapply (r_data _ _ _ _ _ _ _ b); [exact D1|upd_solve|].
  eapply (r_set _ _ _ _ _ _ _ b); [exact D1|upd_solve|done|]. intros t2 D2.
  eapply (r_log _ _ _ _ _ _ _ b); [exact D2|upd_solve|done|lia|]. intros t3 D3.
  eapply (r_relse _ _ _ _ _ _ _ b); [exact D3|upd_solve|by right|]. intros t4 D4.
  exists t4. split; [done|]. eapply txd_weaken; [exact D4|..]; try done.
  - intros b'. upd_solve.
  - intros b' Hb'. destruct (decide (b' = b)); [by right|left]. split; [by left|done].
  - destruct (decide (b ∈ b :: lg)) as [_|[]]; [|by left]. destruct (decide (b ∈ lg)); lia.
  - destruct (decide (b ∈ lg)); lia.
Qed.
End block_rules.

(** ** The block allocator *)

(** The bitmap bit of block [n]. *)
Definition bit_of (sb : superblock) (vw : Z -> block) (n : Z) : bool :=
  bit_used (vw (BBLOCK n sb)) (n mod BPB).

(** What the layout promises the allocator: the bitmap's blocks can be logged
    and are not held, and a block that is marked free is an unheld data block. *)
Record alloc_ok {T} {V : BlockTxnView T} (sb : superblock) (vw : Z -> block) (hd : Z -> option nat) : Prop := {
  ao_size : 0 <= sb_size sb < 2 ^ 31;
  ao_bmap : forall n, 0 <= n < sb_size sb -> 0 <= BBLOCK n sb < 2 ^ 32 /\ t_can_log (BBLOCK n sb) /\ hd (BBLOCK n sb) = None;
  ao_free : forall n, 0 <= n < sb_size sb -> bit_of sb vw n = false ->
    t_can_log n /\ hd n = None /\ forall m, 0 <= m < sb_size sb -> BBLOCK m sb <> n;
}.

Lemma BBLOCK_same n m sb : n / BPB = m / BPB <-> BBLOCK n sb = BBLOCK m sb.
Proof. unfold BBLOCK. lia. Qed.

Lemma bit_pos n m : 0 <= n -> 0 <= m -> n / BPB = m / BPB -> n mod BPB = m mod BPB -> n = m.
Proof. unfold BPB, BSIZE. intros. dlia. Qed.

Lemma bit_of_upd sb vw n m f v :
  0 <= n -> 0 <= m -> (forall j, 0 <= j < BPB -> bit_used f j = if decide (j = n mod BPB) then v else bit_used (vw (BBLOCK n sb)) j) ->
  bit_of sb (upd_at vw (BBLOCK n sb) f) m = if decide (m = n) then v else bit_of sb vw m.
Proof.
  intros Hn Hm Hf. unfold bit_of. unfold upd_at at 1. destruct (decide (BBLOCK m sb = BBLOCK n sb)) as [E|E].
  - rewrite Hf by (unfold BPB, BSIZE; dlia). rewrite E. apply BBLOCK_same in E.
    destruct (decide (m mod BPB = n mod BPB)) as [E'|E'].
    + rewrite decide_True; [done|]. by apply bit_pos.
    + rewrite decide_False by congruence. done.
  - rewrite decide_False by congruence. done.
Qed.

Section alloc.
Context {T U : Type} {B : BlockTxn T} {V : BlockTxnView T} {UM : UserMem U} {dv : Z} {L : BlockTxnLaws T dv}.
Implicit Types s : fsst T U.
Context (sb : superblock).

Lemma bzero_run s vw hd cl lg rm sp dev b :
  txd (fs_t s) vw hd cl lg rm sp -> u32 dev = dv -> 0 <= b < 2 ^ 32 -> hd b = None -> t_can_log b ->
  1 <= rm -> 1 <= sp ->
  runs (bzero dev b) s (fun _ s' => exists t', s' = set_t t' s /\
    txd t' (upd_at vw b (replicate BSZ 0)) hd cl (b :: lg) (rm - fresh lg b) (sp - fresh lg b)).
Proof.
  intros. destruct (r_update s vw hd cl lg rm sp dev b (fun _ => replicate BSZ 0)) as ([] & s' & E & HQ); try done.
  exists tt, s'. split; [|done]. rewrite <- E. unfold bzero, bind. by destruct (fs_bread dev b s) as [[] ?].
Qed.

(** What [balloc] does: the first free block, marked and zeroed, or 0. *)
Definition balloc_got (vw : Z -> block) (r : Z) (vw' : Z -> block) : Prop :=
  0 <= r < sb_size sb /\ bit_of sb vw r = false /\ (forall m, 0 <= m < r -> bit_of sb vw m = true) /\
  vw' = upd_at (upd_at vw (BBLOCK r sb) (set_bit (vw (BBLOCK r sb)) (r mod BPB))) r (replicate BSZ 0).
Definition balloc_post (vw : Z -> block) (r : Z) (vw' : Z -> block) : Prop :=
  (r = 0 /\ vw' = vw /\ forall m, 0 <= m < sb_size sb -> bit_of sb vw m = true) \/ balloc_got vw r vw'.

(** Everything but the blocks and the console output is the same. *)
Definition only_t s s' : Prop :=
  fs_sb s' = fs_sb s /\ fs_ilock s' = fs_ilock s /\ fs_inode s' = fs_inode s /\
  fs_u s' = fs_u s /\ fs_woken s' = fs_woken s.

(** [balloc] marking and zeroing block [n], whose bitmap block [h] holds. *)
Lemma balloc_take s vw hd cl lg rm sp dev n h :
  txd (fs_t s) vw hd cl lg rm sp -> u32 dev = dv -> hd (BBLOCK n sb) = Some h -> cl (BBLOCK n sb) ->
  t_can_log (BBLOCK n sb) -> 0 <= n < 2 ^ 32 -> t_can_log n -> hd n = None -> BBLOCK n sb <> n ->
  1 <= rm -> 2 <= sp ->
  runs (fs_set_data h (set_bit (vw (BBLOCK n sb)) (n mod BPB)) ;; fs_log_write h ;; fs_brelse h ;;
        bzero dev n ;; ret (Some n)) s
    (fun r s' => r = Some n /\ exists t', s' = set_t t' s /\
      txd t' (upd_at (upd_at vw (BBLOCK n sb) (set_bit (vw (BBLOCK n sb)) (n mod BPB))) n (replicate BSZ 0))
        (upd_at hd (BBLOCK n sb) None) cl (n :: BBLOCK n sb :: lg) (rm - fresh (BBLOCK n sb :: lg) n)
        (sp - fresh lg (BBLOCK n sb) - fresh (BBLOCK n sb :: lg) n)).
Proof.
  intros D Hdev Hh Hcl Hc1 Hn Hc2 Hhn Hne Hrm Hsp. set (bb := BBLOCK n sb) in *.
  eapply (r_set _ _ _ _ _ _ _ bb); [exact D|done| |].
  { unfold set_bit. rewrite length_insert. by eapply txd_len. }
  intros t2 D2. eapply (r_log _ _ _ _ _ _ _ bb); [exact D2|done|done|lia|]. intros t3 D3.
  apply runs_bind. eapply (r_relse _ _ _ _ _ _ _ bb); [exact D3|done|by right|]. intros t4 D4.
  eapply runs_seq; [eapply bzero_run; [exact D4|done|lia|upd_solve|done| |]|].
  { destruct (decide (bb ∈ bb :: lg)), (decide (bb ∈ lg)); lia. }
  { destruct (decide (bb ∈ lg)); lia. }
  intros ? s' (t5 & -> & D5). mstep. split; [done|]. exists t5. split; [done|].
  eapply txd_weaken; [exact D5|..]; try done.
  - intros c Hc. destruct (decide (c = bb)); [by right|by left].
  - destruct (decide (bb ∈ bb :: lg)) as [_|[]]; [lia|by left].
  - change (fresh lg bb) with (if decide (bb ∈ lg) then 0 else 1). destruct (decide (bb ∈ lg)); lia.
Qed.

(** What a successful [balloc] of [n] leaves of room and log space. *)
Definition alloc_cost (lg : list Z) (n : Z) : Z := fresh lg (BBLOCK n sb) + fresh (BBLOCK n sb :: lg) n.

(** One round of [balloc]'s outer loop, on the bitmap block for [b .. b+BPB). *)
Lemma balloc_round s vw hd cl lg rm sp dev b :
  txd (fs_t s) vw hd cl lg rm sp -> u32 dev = dv -> alloc_ok sb vw hd -> 2 <= rm -> 2 <= sp ->
  0 <= b < sb_size sb -> b mod BPB = 0 -> (forall m, 0 <= m < b -> bit_of sb vw m = true) ->
  runs (let! bp := fs_bread dev (BBLOCK b sb) in
    let! d := fs_data bp in
    match scan_bits (Z.to_nat BPB) d b 0 (sb_size sb) with
    | Some bi =>
        fs_set_data bp (set_bit d bi) ;; fs_log_write bp ;; fs_brelse bp ;; bzero dev (b + bi) ;; ret (Some (b + bi))
    | None => fs_brelse bp ;; ret None
    end) s
    (fun r s' => exists t', s' = set_t t' s /\
       match r with
       | Some n => exists vw', balloc_got vw n vw' /\
           txd t' vw' hd cl (n :: BBLOCK n sb :: lg) (rm - alloc_cost lg n) (sp - alloc_cost lg n)
       | None => txd t' vw hd cl lg rm sp /\
           forall m, 0 <= m < sb_size sb -> m < b + BPB -> bit_of sb vw m = true
       end).
Proof.
  intros D Hdev [Hsz Hbm Hfr] Hrm Hsp Hb Hb0 Hused. destruct (Hbm b Hb) as (Hb1 & Hb2 & Hb3).
  eapply r_bread; [exact D|done|done|done|lia|]. intros h t1 D1.
  eapply (r_data _ _ _ _ _ _ _ (BBLOCK b sb)); [exact D1|upd_solve|].
  pose proof (scan_bits_spec (Z.to_nat BPB) (vw (BBLOCK b sb)) b 0 (sb_size sb)) as HS.
  assert (Hpos : forall j, 0 <= j < BPB -> BBLOCK (b + j) sb = BBLOCK b sb /\ (b + j) mod BPB = j).
  { intros j Hj. unfold BBLOCK in *. unfold BPB, BSIZE in *. split; dlia. }
  assert (Hlast : forall m, b <= m < b + BPB -> bit_of sb vw m = bit_used (vw (BBLOCK b sb)) (m - b)).
  { intros m Hm. destruct (Hpos (m - b) ltac:(lia)) as [Q1 Q2]. unfold bit_of.
    replace (b + (m - b)) with m in * by lia. by rewrite Q1, Q2. }
  destruct (scan_bits _ _ _ _ _) as [bi|].
  - destruct HS as (S1 & S2 & S3 & S4). assert (Hbi : 0 <= bi < BPB) by (unfold BPB, BSIZE in *; lia).
    destruct (Hpos bi Hbi) as [P1 P2].
    assert (Hfree : bit_of sb vw (b + bi) = false) by (rewrite Hlast by lia; by replace (b + bi - b) with bi by lia).
    destruct (Hfr (b + bi) ltac:(lia) Hfree) as (F1 & F2 & F3). specialize (F3 b Hb).
    pose proof (balloc_take (set_t t1 s) _ _ _ _ _ _ dev (b + bi) h D1 Hdev) as HT. rewrite P1, P2 in HT.
    eapply runs_mono; [apply HT; try done; try lia|].
    + upd_solve.
    + upd_solve.
    + destruct (decide (BBLOCK b sb ∈ lg)); lia.
    + intros r s' (-> & t' & -> & D'). exists t'. split; [done|].
      eexists _. split; [split_and!; [lia|lia|done| |reflexivity]|].
      { intros m Hm. destruct (decide (m < b)); [apply Hused; lia|]. rewrite Hlast by lia. apply S4. lia. }
      unfold alloc_cost. rewrite P1, P2. eapply txd_weaken; [exact D'|..]; try done.
      * intros c. upd_solve.
      * intros c Hc. by left.
      * change (fresh lg (BBLOCK b sb)) with (if decide (BBLOCK b sb ∈ lg) then 0 else 1).
        destruct (decide (BBLOCK b sb ∈ lg)); lia.
      * change (fresh lg (BBLOCK b sb)) with (if decide (BBLOCK b sb ∈ lg) then 0 else 1).
        destruct (decide (BBLOCK b sb ∈ lg)); lia.
  - apply runs_bind. eapply (r_relse _ _ _ _ _ _ _ (BBLOCK b sb)); [exact D1|upd_solve|by right|]. intros t2 D2.
    mstep. exists t2. split; [done|]. split.
    + eapply txd_weaken; [exact D2|..]; try done; [intros c; upd_solve|intros c Hc; by left|].
      destruct (decide (BBLOCK b sb ∈ lg)); lia.
    + intros m Hm Hlt. destruct (decide (m < b)); [apply Hused; lia|]. rewrite Hlast by lia.
      apply HS; unfold BPB, BSIZE in *; lia.
Qed.

Lemma balloc_exact s vw hd cl lg rm sp dev :
  fs_sb s = sb -> txd (fs_t s) vw hd cl lg rm sp -> u32 dev = dv -> alloc_ok sb vw hd ->
  2 <= rm -> 2 <= sp ->
  runs (balloc dev) s (fun r s' => only_t s s' /\
    ((r = 0 /\ (forall m, 0 <= m < sb_size sb -> bit_of sb vw m = true) /\ txd (fs_t s') vw hd cl lg rm sp) \/
     exists vw', balloc_got vw r vw' /\
       txd (fs_t s') vw' hd cl (r :: BBLOCK r sb :: lg) (rm - alloc_cost lg r) (sp - alloc_cost lg r))).
Proof.
  intros Hsb D Hdev AO Hrm Hsp. unfold balloc. mstep. rewrite Hsb.
  set (n := Z.to_nat ((sb_size sb - 0 + BPB - 1) / BPB)).
  eapply (runs_seq _ _ s (fun r s' => exists t', s' = set_t t' s /\ match r with
    | Some b => exists vw', balloc_got vw b vw' /\
        txd t' vw' hd cl (b :: BBLOCK b sb :: lg) (rm - alloc_cost lg b) (sp - alloc_cost lg b)
    | None => txd t' vw hd cl lg rm sp /\ forall m, 0 <= m < sb_size sb -> bit_of sb vw m = true end)).
  - unfold for_loop. fold n.
    apply (runs_forn _ _ _ _ (fun k s' => exists t', s' = set_t t' s /\ txd t' vw hd cl lg rm sp /\
      forall m, 0 <= m < sb_size sb -> m < BPB * Z.of_nat k -> bit_of sb vw m = true)).
    + exists (fs_t s). split_and!; [by destruct s|done|]. intros m Hm Hm0. lia.
    + intros k s' Hk (t0 & -> & D0 & Hused). set (b := 0 + BPB * Z.of_nat k).
      assert (Hb : 0 <= b < sb_size sb) by (unfold n, b, BPB, BSIZE in *; dlia).
      eapply runs_mono; [eapply (balloc_round (set_t t0 s)); [exact D0|done|done|done|done|done|unfold b, BPB, BSIZE; dlia|]|].
      { intros m Hm. apply Hused; unfold b in *; lia. }
      intros [r|] s' (t' & -> & H); exists t'; (split; [done|]); [done|]. destruct H as [D' Hu].
      split; [done|]. intros m Hm Hlt. apply Hu; unfold b; lia.
    + intros s' (t' & -> & D' & Hused). exists t'. split_and!; try done.
      intros m Hm. apply Hused; [done|]. unfold n, BPB, BSIZE in *. dlia.
  - intros [b|] s' (t' & -> & H).
    + mstep. split; [by split_and!|by right].
    + destruct H as [D' Hused]. mstep. mstep. split; [by split_and!|]. left. by split_and!.
Qed.

Lemma balloc_run s vw hd cl lg rm sp dev :
  fs_sb s = sb -> txd (fs_t s) vw hd cl lg rm sp -> u32 dev = dv -> alloc_ok sb vw hd ->
  2 <= rm -> 2 <= sp ->
  runs (balloc dev) s (fun r s' => only_t s s' /\ exists vw' lg', balloc_post vw r vw' /\
    (forall b, b ∈ lg -> b ∈ lg') /\ txd (fs_t s') vw' hd cl lg' (rm - 2) (sp - 2)).
Proof.
  intros Hsb D Hdev AO Hrm Hsp. eapply runs_mono; [by eapply balloc_exact|].
  intros r s' [O [(-> & Hu & D')|(vw' & HG & D')]]; (split; [done|]).
  - exists vw, lg. split_and!; [by left|done|]. eapply txd_weaken; [exact D'|..]; done || lia.
  - exists vw', (r :: BBLOCK r sb :: lg). split_and!; [by right|set_solver|].
    pose proof (fresh_range lg (BBLOCK r sb)). pose proof (fresh_range (BBLOCK r sb :: lg) r).
    eapply txd_weaken; [exact D'|..]; unfold alloc_cost; done || lia.
Qed.

Lemma bfree_run s vw hd cl lg rm sp dev b :
  fs_sb s = sb -> txd (fs_t s) vw hd cl lg rm sp -> u32 dev = dv -> 0 <= BBLOCK b sb < 2 ^ 32 ->
  hd (BBLOCK b sb) = None -> t_can_log (BBLOCK b sb) -> 1 <= rm -> 1 <= sp -> bit_of sb vw b = true ->
  runs (bfree dev b) s (fun _ s' => exists t', s' = set_t t' s /\
    txd t' (upd_at vw (BBLOCK b sb) (clear_bit (vw (BBLOCK b sb)) (b mod BPB))) hd cl (BBLOCK b sb :: lg) (rm - 1) (sp - 1)).
Proof.
  intros Hsb D Hdev Hb Hh Hc Hr Hs Hu. unfold bfree. mstep. rewrite Hsb.
  eapply r_bread; [exact D|done|done|done|lia|]. intros h t1 D1.
  eapply (r_data _ _ _ _ _ _ _ (BBLOCK b sb)); [exact D1|upd_solve|].
  unfold bit_of in Hu. rewrite Hu. mstep.
  eapply (r_set _ _ _ _ _ _ _ (BBLOCK b sb)); [exact D1|upd_solve| |].
  { unfold clear_bit. rewrite length_insert. by eapply txd_len. }
  intros t2 D2. eapply (r_log _ _ _ _ _ _ _ (BBLOCK b sb)); [exact D2|upd_solve|done|lia|]. intros t3 D3.
  eapply (r_relse _ _ _ _ _ _ _ (BBLOCK b sb)); [exact D3|upd_solve|by right|]. intros t4 D4.
  exists t4. split; [done|]. eapply txd_weaken; [exact D4|..]; try done.
  - intros b'. upd_solve.
  - intros b' Hb'. destruct (decide (b' = BBLOCK b sb)); [by right|left]. split; [by left|done].
  - destruct (decide (BBLOCK b sb ∈ BBLOCK b sb :: lg)) as [_|[]]; [|by left]. destruct (decide (BBLOCK b sb ∈ lg)); lia.
  - destruct (decide (BBLOCK b sb ∈ lg)); lia.
Qed.

Lemma bfree_panics s vw hd cl lg rm sp dev b :
  fs_sb s = sb -> txd (fs_t s) vw hd cl lg rm sp -> u32 dev = dv -> 0 <= BBLOCK b sb < 2 ^ 32 ->
  hd (BBLOCK b sb) = None -> 1 <= rm -> bit_of sb vw b = false ->
  fst (bfree dev b s) = Panic "freeing free block".
Proof.
  intros Hsb D Hdev Hb Hh Hr Hu.
  destruct (tl_read (fs_t s) vw hd cl lg rm sp (BBLOCK b sb) D Hb Hh ltac:(lia)) as (h & t1 & E & D1).
  unfold bfree, bind at 1, gets at 1. rewrite Hsb. unfold bind at 1, fs_bread, on_t, zoom.
  rewrite Hdev, u32_small, E by done. unfold bind, fs_data, gets. cbn [fs_t set_t].
  rewrite (tl_data t1 _ _ _ _ _ _ (BBLOCK b sb) h D1) by upd_solve. unfold bit_of in Hu. by rewrite Hu.
Qed.
End alloc.

(** ** The inode table *)

(** An entry is in use when it is referenced; no two entries in use are for
    the same inode. *)
Record it_ok (l : list inode) : Prop := {
  io_len : length l = NINODEn;
  io_ref : forall i, (i < NINODEn)%nat -> 0 <= i_ref (l !!! i);
  io_uniq : forall i j, (i < NINODEn)%nat -> (j < NINODEn)%nat ->
    0 < i_ref (l !!! i) -> 0 < i_ref (l !!! j) ->
    i_dev (l !!! i) = i_dev (l !!! j) -> i_inum (l !!! i) = i_inum (l !!! j) -> i = j;
}.

Definition in_use (ip : inode) (dev inum : Z) : Prop :=
  0 < i_ref ip /\ i_dev ip = dev /\ i_inum ip = inum.

Lemma iget_scan_spec k i l dev inum empty :
  match iget_scan k i l dev inum empty with
  | inl (Some j) => (i <= j < i + k)%nat /\ in_use (l !!! j) dev inum
  | inl None => False
  | inr e => (forall j, (i <= j < i + k)%nat -> ~ in_use (l !!! j) dev inum) /\
      match e, empty with
      | _, Some e0 => e = Some e0
      | Some j, None => (i <= j < i + k)%nat /\ i_ref (l !!! j) = 0 /\
          forall m, (i <= m < j)%nat -> i_ref (l !!! m) <> 0
      | None, None => forall j, (i <= j < i + k)%nat -> i_ref (l !!! j) <> 0
      end
  end.
Proof.
  revert i empty. induction k as [|k IH]; intros i empty; cbn [iget_scan].
  - destruct empty; split_and!; try done; intros; lia.
  - destruct ((0 <? i_ref (l !!! i)) && (i_dev (l !!! i) =? dev) && (i_inum (l !!! i) =? inum)) eqn:E.
    + rewrite !andb_true_iff, Z.ltb_lt, !Z.eqb_eq in E. destruct E as [[? ?] ?]. split; [lia|done].
    + assert (Hi : ~ in_use (l !!! i) dev inum).
      { intros (H1 & H2 & H3). apply Z.ltb_lt in H1. apply Z.eqb_eq in H2, H3. by rewrite H1, H2, H3 in E. }
      specialize (IH (S i) (match empty with None => if i_ref (l !!! i) =? 0 then Some i else None | Some _ => empty end)).
      destruct (iget_scan k (S i) l dev inum _) as [[j|]|e]; [destruct IH; split; [lia|done]|done|].
      destruct IH as [H1 H2]. split.
      * intros j Hj. destruct (decide (j = i)) as [->|]; [done|]. apply H1. lia.
      * destruct empty as [e0|]; [done|]. destruct (Z.eqb_spec (i_ref (l !!! i)) 0) as [E0|E0].
        -- destruct e as [j|]; [|done]. injection H2 as ->. split_and!; try lia.
        -- destruct e as [j|].
           ++ destruct H2 as (H2 & H3 & H4). split_and!; [lia|lia|done|]. intros m Hm.
              destruct (decide (m = i)) as [->|]; [done|]. apply H4. lia.
           ++ intros j Hj. destruct (decide (j = i)) as [->|]; [done|]. apply H2. lia.
Qed.

Section itable.
Context {T U : Type} (x : ctx).
Implicit Types s : fsst T U.

Lemma it_acquire s :
  lk_free (fs_ilock s) ->
  it_spin (acquire_word (c_hart x)) s = (Ret tt, set_ilock (Spinlock 1 (lk_name (fs_ilock s)) (Some (c_hart x))) s).
Proof. intros H. unfold it_spin, zoom. by rewrite acquire_word_free. Qed.

Lemma it_release s name :
  fs_ilock s = Spinlock 1 name (Some (c_hart x)) ->
  it_spin (release_word (c_hart x)) s = (Ret tt, set_ilock (Spinlock 0 name None) s).
Proof. intros H. unfold it_spin, zoom. by rewrite H, release_word_held. Qed.

Lemma it_relock s tab :
  lk_free (fs_ilock s) -> set_ilock (Spinlock 0 (lk_name (fs_ilock s)) None) (set_inode tab s) = set_inode tab s.
Proof. intros H. destruct s. cbn in *. by rewrite <- lk_free_eq. Qed.

(** [iget] in one equation. *)
Lemma iget_eq s dev inum :
  lk_free (fs_ilock s) -> length (fs_inode s) = NINODEn ->
  iget x dev inum s =
    match iget_scan NINODEn 0 (fs_inode s) dev inum None with
    | inl (Some ip) => (Ret ip, updi ip (fun i => with_iref (i_ref i + 1) i) s)
    | inr (Some ip) => (Ret ip, updi ip (fun i => with_ivalid 0 (with_iref 1 (with_ident dev inum i))) s)
    | _ => (Panic "iget: no inodes", set_ilock (Spinlock 1 (lk_name (fs_ilock s)) (Some (c_hart x))) s)
    end.
Proof.
  intros K HL. unfold iget, bind at 1. rewrite it_acquire by done. unfold bind at 1, gets. cbn [fs_inode set_ilock].
  pose proof (iget_scan_spec NINODEn 0 (fs_inode s) dev inum None) as HS.
  destruct (iget_scan _ _ _ _ _ _) as [[ip|]|[ip|]]; try done.
  - unfold bind, modify, ret. rewrite (it_release _ (lk_name (fs_ilock s))) by done. f_equal.
    exact (it_relock s _ K).
  - destruct HS as (_ & Hip & _). unfold bind, modify, ret. rewrite (it_release _ (lk_name (fs_ilock s))) by done. f_equal.
    transitivity (set_ilock (Spinlock 0 (lk_name (fs_ilock s)) None)
      (updi ip (fun i => with_ivalid 0 (with_iref 1 (with_ident dev inum i))) s)); [|exact (it_relock s _ K)].
    unfold updi, geti, set_ilock, set_inode. cbn. f_equal.
    rewrite !list_lookup_total_insert_eq by (rewrite ?length_insert; lia). by rewrite !list_insert_insert_eq.
Qed.
Lemma geti_updi i f j s :
  (i < length (fs_inode s))%nat ->
  geti j (updi i f s) = if decide (i = j) then f (geti i s) else geti j s.
Proof.
  intros Hi. unfold geti, updi; cbn. case_decide as E.
  - subst j. by apply list_lookup_total_insert_eq.
  - by apply list_lookup_total_insert_ne.
Qed.

Lemma it_ok_upd s i f :
  it_ok (fs_inode s) -> (i < NINODEn)%nat -> 0 <= i_ref (f (geti i s)) ->
  (0 < i_ref (f (geti i s)) -> forall j, (j < NINODEn)%nat -> j <> i ->
     ~ in_use (geti j s) (i_dev (f (geti i s))) (i_inum (f (geti i s)))) ->
  it_ok (fs_inode (updi i f s)).
Proof.
  intros [L R U'] Hi H0 HU.
  assert (E : forall j, fs_inode (updi i f s) !!! j = if decide (i = j) then f (geti i s) else fs_inode s !!! j).
  { intros j. apply geti_updi. lia. }
  split.
  - unfold updi; cbn. by rewrite length_insert.
  - intros j Hj. rewrite E. case_decide; [done|by apply R].
  - intros j k Hj Hk. rewrite !E. intros Rj Rk Ed Ei.
    destruct (decide (i = j)) as [<-|Hij], (decide (i = k)) as [<-|Hik]; try done.
    + exfalso. apply (HU Rj k); [done|done|]. unfold geti. split_and!; done.
    + exfalso. apply (HU Rk j); [done|done|]. unfold geti. split_and!; done.
    + by apply U'.
Qed.

Lemma iput_simple {B : BlockTxn T} s ip :
  lk_free (fs_ilock s) ->
  i_ref (geti ip s) <> 1 \/ i_valid (geti ip s) = 0 \/ i_nlink (geti ip s) <> 0 ->
  iput x ip s = (Ret tt, updi ip (fun i => with_iref (i_ref i - 1) i) s).
Proof.
  intros K Hc. unfold iput, bind at 1. rewrite it_acquire by done. unfold bind at 1, gets.
  change (geti ip (set_ilock _ s)) with (geti ip s).
  replace ((i_ref (geti ip s) =? 1) && negb (i_valid (geti ip s) =? 0) && (i_nlink (geti ip s) =? 0)) with false.
  - unfold bind, ret, modify. rewrite (it_release _ (lk_name (fs_ilock s))) by done. f_equal. exact (it_relock s _ K).
  - symmetry. destruct Hc as [H%Z.eqb_neq|[H%Z.eqb_eq|H%Z.eqb_neq]]; rewrite H, ?andb_false_r; done.
Qed.

Lemma idup_eq s ip :
  lk_free (fs_ilock s) -> idup x ip s = (Ret ip, updi ip (fun i => with_iref (i_ref i + 1) i) s).
Proof.
  intros K. unfold idup, bind at 1. rewrite it_acquire by done. unfold bind, ret, modify.
  rewrite (it_release _ (lk_name (fs_ilock s))) by done. f_equal. exact (it_relock s _ K).
Qed.
(** What follows from an [iget] that returned entry [ip] after updating it by [f]. *)
Lemma iget_post {B : BlockTxn T} s dev inum ip f (Q : Prop) :
  lk_free (fs_ilock s) -> it_ok (fs_inode s) -> (ip < NINODEn)%nat ->
  in_use (f (geti ip s)) dev inum ->
  (forall j, (j < NINODEn)%nat -> j <> ip -> ~ in_use (geti j s) dev inum) -> Q ->
  let s' := updi ip f s in
  (ip < NINODEn)%nat /\ it_ok (fs_inode s') /\ in_use (geti ip s') dev inum /\
  (forall j, j <> ip -> geti j s' = geti j s) /\ Q /\
  fst (iget x dev inum s') = Ret ip /\
  (forall s2, idup x ip s' = (Ret ip, s2) -> iput x ip s2 = (Ret tt, s')).
Proof.
  intros K I Hip Hf Huniq HQ s'. pose proof (io_len _ I) as HL. pose proof Hf as (Rf & Df & If).
  assert (Hg : forall j, geti j s' = if decide (ip = j) then f (geti ip s) else geti j s) by (intros j; apply geti_updi; lia).
  assert (I' : it_ok (fs_inode s')).
  { apply it_ok_upd; try done; [lia|]. intros _ j Hj Hne. rewrite Df, If. by apply Huniq. }
  split_and!; try done.
  - rewrite Hg, decide_True by done. done.
  - intros j Hj. rewrite Hg, decide_False by congruence. done.
  - rewrite iget_eq by (done || apply I').
    pose proof (iget_scan_spec NINODEn 0 (fs_inode s') dev inum None) as HS.
    assert (Hin : in_use (fs_inode s' !!! ip) dev inum) by (fold (geti ip s'); by rewrite Hg, decide_True).
    destruct (iget_scan _ _ _ _ _ _) as [[j|]|e]; [|done|destruct HS as [HS _]; exfalso; apply (HS ip); [lia|done]].
    destruct HS as [Hj (Rj & Dj & Ij)]. destruct Hin as (Ri & Di & Ii). cbn. f_equal.
    apply (io_uniq _ I'); try done; try lia; congruence.
  - intros s2 E. rewrite idup_eq in E by done. injection E as <-.
    assert (Hl' : (ip < length (fs_inode s'))%nat) by (rewrite (io_len _ I'); lia).
    rewrite iput_simple; [|done|].
    + f_equal. unfold updi, geti, set_inode. destruct s'; cbn in *. f_equal.
      rewrite list_lookup_total_insert_eq, list_insert_insert_eq by done.
      apply list_insert_id. rewrite list_lookup_lookup_total_lt by done. f_equal.
      unfold with_iref; cbn. destruct (fs_inode0 !!! ip); cbn. f_equal. lia.
    + left. rewrite geti_updi, decide_True by done. rewrite Hg, decide_True by done. cbn. lia.
Qed.
End itable.

(** ** Inodes on disk *)
Definition disk_inode (sb : superblock) (vw : Z -> block) (inum : Z) : dinode :=
  dinode_dec (vw (IBLOCK inum sb)) (di_off inum).

Lemma di_off_bound inum : 0 <= inum -> (di_off inum + 64 <= BSZ)%nat.
Proof. intros. unfold di_off, IPB, DISIZE, BSIZE, BSZ. dlia. Qed.

Lemma di_off_sep i j sb :
  0 <= i -> 0 <= j -> i <> j -> IBLOCK i sb = IBLOCK j sb ->
  (di_off j + 64 <= di_off i \/ di_off i + 64 <= di_off j)%nat.
Proof. unfold IBLOCK, di_off, IPB, DISIZE, BSIZE. intros. dlia. Qed.

Lemma disk_inode_put sb vw inum n di :
  0 <= inum -> 0 <= n -> dinode_ok di -> length (vw (IBLOCK inum sb)) = BSZ ->
  disk_inode sb (upd_at vw (IBLOCK inum sb) (put_bytes (vw (IBLOCK inum sb)) (di_off inum) (dinode_enc di))) n =
    if decide (n = inum) then di else disk_inode sb vw n.
Proof.
  intros Hi Hn Hd HL. unfold disk_inode. unfold upd_at. pose proof (di_off_bound inum Hi).
  destruct (decide (IBLOCK n sb = IBLOCK inum sb)) as [E|E].
  - destruct (decide (n = inum)) as [->|Hne]; [apply dinode_dec_put; [done|lia]|].
    rewrite E. apply dinode_dec_put_other; [apply Hd|lia|]. destruct (di_off_sep n inum sb); auto.
  - rewrite decide_False by congruence. done.
Qed.

Section inodes.
Context {T U : Type} {B : BlockTxn T} {V : BlockTxnView T} {UM : UserMem U} {dv : Z} {L : BlockTxnLaws T dv} (x : ctx).
Implicit Types s : fsst T U.
Context (sb : superblock).

Lemma iupdate_run s vw hd cl lg rm sp ip (i := geti ip s) :
  fs_sb s = sb -> txd (fs_t s) vw hd cl lg rm sp -> u32 (i_dev i) = dv -> 0 <= i_inum i ->
  0 <= IBLOCK (i_inum i) sb < 2 ^ 32 -> hd (IBLOCK (i_inum i) sb) = None -> t_can_log (IBLOCK (i_inum i) sb) ->
  length (i_addrs i) = NADDRS -> 1 <= rm -> 1 <= sp ->
  runs (iupdate ip) s (fun _ s' => exists t', s' = set_t t' s /\
    txd t' (upd_at vw (IBLOCK (i_inum i) sb)
              (put_bytes (vw (IBLOCK (i_inum i) sb)) (di_off (i_inum i)) (dinode_enc (dinode_of i))))
      hd cl (IBLOCK (i_inum i) sb :: lg) (rm - fresh lg (IBLOCK (i_inum i) sb)) (sp - fresh lg (IBLOCK (i_inum i) sb))).
Proof.
  intros Hsb D Hdev H0 Hb Hh Hc Ha Hr Hs. unfold iupdate. do 2 mstep. fold i. rewrite Hsb.
  apply (r_update s vw hd cl lg rm sp (i_dev i) (IBLOCK (i_inum i) sb)
    (fun d => put_bytes d (di_off (i_inum i)) (dinode_enc (dinode_of i)))); try done.
  rewrite length_put_bytes; [by eapply txd_len|].
  rewrite length_dinode_enc by done. erewrite txd_len by exact D. by apply di_off_bound.
Qed.

Lemma i_sleep_acquire s ip :
  sl_ok (i_lock (geti ip s)) -> sl_locked (i_lock (geti ip s)) = 0 ->
  i_sleep ip (acquiresleep x (i_chan ip)) s =
    (Ret tt, updi ip (with_ilock (Sleeplock 1 (sl_lk (i_lock (geti ip s))) (sl_name (i_lock (geti ip s))) (c_pid x))) s).
Proof.
  intros H1 H2. unfold i_sleep, zoom. rewrite acquiresleep_free by done. cbn. by destruct s.
Qed.

(** [ilock] of an entry whose inode has not been read. *)
Lemma ilock_run s vw hd cl lg rm sp ip (i := geti ip s) (di := disk_inode sb vw (i_inum i)) :
  fs_sb s = sb -> txd (fs_t s) vw hd cl lg rm sp -> (ip < length (fs_inode s))%nat ->
  1 <= i_ref i -> sl_ok (i_lock i) -> sl_locked (i_lock i) = 0 -> i_valid i = 0 ->
  u32 (i_dev i) = dv -> 0 <= IBLOCK (i_inum i) sb < 2 ^ 32 -> hd (IBLOCK (i_inum i) sb) = None -> 1 <= rm ->
  di_type di <> 0 ->
  runs (ilock x (Some ip)) s (fun _ s' => exists t',
    s' = set_t t' (updi ip (fun i => with_ivalid 1 (load_dinode di
           (with_ilock (Sleeplock 1 (sl_lk (i_lock i)) (sl_name (i_lock i)) (c_pid x)) i))) s) /\
    txd t' vw hd cl lg rm sp).
Proof.
  intros Hsb D Hip Hr Hk Hl Hv Hdev Hb Hh Hrm Ht. unfold ilock. mstep. fold i.
  rewrite (proj2 (Z.ltb_ge _ _)) by done.
  apply runs_bind. eapply runs_eq; [by apply i_sleep_acquire|].
  set (lk := Sleeplock 1 _ _ _). set (s1 := updi ip (with_ilock lk) s).
  assert (E1 : geti ip s1 = with_ilock lk i) by (unfold s1; by rewrite geti_updi, decide_True).
  mstep. rewrite E1. cbn [i_valid with_ilock i_dev i_inum]. rewrite Hv. cbn [Z.eqb]. mstep.
  change (fs_sb s1) with (fs_sb s). rewrite Hsb.
  eapply (r_bread s1); [exact D|done|done|done|lia|]. intros h t1 D1.
  eapply (r_data _ _ _ _ _ _ _ (IBLOCK (i_inum i) sb)); [exact D1|upd_solve|]. mstep.
  apply runs_bind. eapply (r_relse _ _ _ _ _ _ _ (IBLOCK (i_inum i) sb)); [exact D1|upd_solve|by right|]. intros t2 D2.
  mstep. mstep.
  assert (E2 : set_t t2 (updi ip (load_dinode di) (set_t t1 s1)) = set_t t2 (updi ip (fun i => load_dinode di (with_ilock lk i)) s)).
  { unfold updi, set_t, set_inode; cbn. f_equal. unfold s1, updi, geti, set_inode; cbn.
    rewrite list_lookup_total_insert_eq by done. by rewrite list_insert_insert_eq. }
  fold (disk_inode sb vw (i_inum i)). fold di. rewrite E2.
  assert (E3 : updi ip (with_ivalid 1) (set_t t2 (updi ip (fun i => load_dinode di (with_ilock lk i)) s)) =
    set_t t2 (updi ip (fun i => with_ivalid 1 (load_dinode di (with_ilock lk i))) s)).
  { unfold updi, set_t, set_inode; cbn. f_equal. unfold geti; cbn.
    rewrite list_lookup_total_insert_eq by done. by rewrite list_insert_insert_eq. }
  rewrite E3. replace (i_type (geti ip _)) with (di_type di).
  2:{ change (geti ip (set_t t2 ?s)) with (geti ip s). unfold geti, updi; cbn. by rewrite list_lookup_total_insert_eq. }
  rewrite (proj2 (Z.eqb_neq _ _)) by done. mstep. exists t2. split; [done|].
  eapply txd_weaken; [exact D2|..]; try done; [intros c; upd_solve|intros c Hc; by left|].
  destruct (decide (IBLOCK (i_inum i) sb ∈ lg)); lia.
Qed.
End inodes.

(** ** Properties *)

(** C5. [balloc] is first-fit allocation: with every block in use it returns 0
    and changes no block; otherwise it returns the lowest free block, which is
    then marked in use and zeroed, and no other block's mark and no block
    outside the bitmap changes. *)
Theorem balloc_correct {T U} {B : BlockTxn T} {V : BlockTxnView T} {UM : UserMem U} {dv} {L : BlockTxnLaws T dv}
    (s : fsst T U) (sb := fs_sb s) vw hd cl lg rm sp dev :
  txd (fs_t s) vw hd cl lg rm sp -> u32 dev = dv -> alloc_ok sb vw hd -> 2 <= rm -> 2 <= sp ->
  runs (balloc dev) s (fun r s' => only_t s s' /\ exists vw' lg',
    txd (fs_t s') vw' hd cl lg' (rm - 2) (sp - 2) /\
    ((forall m, 0 <= m < sb_size sb -> bit_of sb vw m = true) /\ r = 0 /\ vw' = vw \/
     0 <= r < sb_size sb /\ bit_of sb vw r = false /\ (forall m, 0 <= m < r -> bit_of sb vw m = true) /\
      vw' r = replicate BSZ 0 /\
      (forall m, 0 <= m < sb_size sb -> bit_of sb vw' m = if decide (m = r) then true else bit_of sb vw m) /\
      (forall b, b <> r -> b <> BBLOCK r sb -> vw' b = vw b))).
Proof.
  intros D Hdev AO Hrm Hsp. eapply runs_mono; [by apply balloc_run|].
  intros r s' (HO & vw' & lg' & HP & _ & D'). split; [done|]. exists vw', lg'. split; [done|].
  destruct HP as [(-> & -> & HP)|(H1 & H2 & H3 & ->)].
  - by left.
  - right. destruct (ao_free _ _ _ AO r H1 H2) as (F1 & F2 & F3).
    split_and!; try done; try apply H1; [upd_solve| |intros b Hb1 Hb2; fold sb; upd_solve].
    intros m Hm. fold sb. transitivity (bit_of sb (upd_at vw (BBLOCK r sb) (set_bit (vw (BBLOCK r sb)) (r mod BPB))) m).
    { unfold bit_of. f_equal. unfold upd_at. rewrite decide_False; [done|]. by apply F3. }
    apply bit_of_upd; [lia|lia|]. intros j Hj. apply bit_used_set; [by eapply txd_len|unfold BPB, BSIZE; dlia|done].
Qed.

(** [bfree] of a block in use clears exactly its mark, so that [balloc]'s
    marking is undone; of a free block it panics. *)
Theorem bfree_correct {T U} {B : BlockTxn T} {V : BlockTxnView T} {UM : UserMem U} {dv} {L : BlockTxnLaws T dv}
    (s : fsst T U) (sb := fs_sb s) vw hd cl lg rm sp dev b :
  txd (fs_t s) vw hd cl lg rm sp -> u32 dev = dv -> alloc_ok sb vw hd -> 1 <= rm -> 1 <= sp ->
  0 <= b < sb_size sb ->
  if bit_of sb vw b then
    runs (bfree dev b) s (fun _ s' => only_t s s' /\ exists vw' lg', txd (fs_t s') vw' hd cl lg' (rm - 1) (sp - 1) /\
      (forall m, 0 <= m < sb_size sb -> bit_of sb vw' m = if decide (m = b) then false else bit_of sb vw m) /\
      (forall c, c <> BBLOCK b sb -> vw' c = vw c))
  else fst (bfree dev b s) = Panic "freeing free block".
Proof.
  intros D Hdev AO Hrm Hsp Hb. destruct (ao_bmap _ _ _ AO b Hb) as (B1 & B2 & B3).
  destruct (bit_of sb vw b) eqn:E; [|by eapply bfree_panics].
  eapply runs_mono; [by eapply (bfree_run sb)|]. intros ? s' (t' & -> & D').
  split; [by split_and!|]. eexists _, _. split; [exact D'|]. split.
  - intros m Hm. apply bit_of_upd; [lia|lia|]. intros j Hj.
    apply bit_used_clear; [by eapply txd_len|unfold BPB, BSIZE; dlia|done].
  - intros c Hc. upd_solve.
Qed.

(** C11. The inode table: [iget] returns the entry in use for the inode when
    there is one, and only counts the new reference; otherwise it takes the
    first free entry, marked not read from disk, and panics when there is
    none.  Either way no two entries in use are for the same inode, so a
    second [iget] yields the same entry, and dropping a reference undoes
    [idup]. *)
Theorem iget_unique {T U} {B : BlockTxn T} x (s : fsst T U) dev inum :
  lk_free (fs_ilock s) -> it_ok (fs_inode s) ->
  match iget x dev inum s with
  | (Ret ip, s') =>
      (ip < NINODEn)%nat /\ it_ok (fs_inode s') /\ in_use (geti ip s') dev inum /\
      (forall j, j <> ip -> geti j s' = geti j s) /\
      (in_use (geti ip s) dev inum /\ geti ip s' = with_iref (i_ref (geti ip s) + 1) (geti ip s) \/
       (forall j, (j < NINODEn)%nat -> ~ in_use (geti j s) dev inum) /\
            i_ref (geti ip s) = 0 /\ (forall m, (m < ip)%nat -> i_ref (geti m s) <> 0) /\
            i_ref (geti ip s') = 1 /\ i_valid (geti ip s') = 0) /\
      fst (iget x dev inum s') = Ret ip /\
      (forall s2, idup x ip s' = (Ret ip, s2) -> iput x ip s2 = (Ret tt, s'))
  | (Panic _, _) => forall j, (j < NINODEn)%nat -> i_ref (geti j s) <> 0 /\ ~ in_use (geti j s) dev inum
  | _ => False
  end.
Proof.
  intros K I. pose proof I as [HL HR HU]. rewrite iget_eq by done.
  pose proof (iget_scan_spec NINODEn 0 (fs_inode s) dev inum None) as HS.
  destruct (iget_scan _ _ _ _ _ _) as [[ip|]|[ip|]] eqn:ES; [|done| |].
  - destruct HS as [Hip Hin]. assert (Hlt : (ip < length (fs_inode s))%nat) by lia.
    apply iget_post; try done; try lia.
    + destruct Hin as (Hr0 & Hd0 & Hi0). fold (geti ip s) in Hr0, Hd0, Hi0. split_and!; cbn [with_iref i_ref i_dev i_inum]; [lia|done|done].
    + cbn. intros j Hj Hne (Rj & Dj & Ij). destruct Hin as (R0 & D0 & I0). apply Hne. apply HU; try done; unfold geti in *; congruence.
    + left. split; [done|]. rewrite geti_updi, decide_True by done. done.
  - destruct HS as (Hno & Hip & R0 & Hfirst). assert (Hlt : (ip < length (fs_inode s))%nat) by lia.
    apply iget_post; try done; try lia.
    + cbn. intros j Hj Hne Hju. apply (Hno j); [lia|done].
    + right. rewrite geti_updi, decide_True by done. split_and!; try done.
      * intros j Hj. apply Hno. lia.
      * intros m Hm. apply Hfirst. lia.
  - destruct HS as [H1 H2]. intros j Hj. split; [apply H2|apply H1]; lia.
Qed.

(** C12. Inodes round-trip through the disk.  After [iupdate] the inode's slot
    on disk holds its fields, the other inodes and the other blocks are as
    before; and whatever table entry is used for the inode afterwards,
    [ilock] reads back exactly those fields. *)
Theorem iupdate_ilock_roundtrip {T U} {B : BlockTxn T} {V : BlockTxnView T} {UM : UserMem U} {dv} {L : BlockTxnLaws T dv}
    x (s : fsst T U) (sb := fs_sb s) vw hd cl lg rm sp ip (i := geti ip s) :
  txd (fs_t s) vw hd cl lg rm sp -> dinode_ok (dinode_of i) -> i_type i <> 0 -> i_dev i = dv -> 0 <= dv < 2 ^ 32 ->
  0 <= i_inum i -> 0 <= IBLOCK (i_inum i) sb < 2 ^ 32 -> hd (IBLOCK (i_inum i) sb) = None ->
  t_can_log (IBLOCK (i_inum i) sb) -> 2 <= rm -> 1 <= sp ->
  runs (iupdate ip) s (fun _ s' => only_t s s' /\ exists vw' lg', txd (fs_t s') vw' hd cl lg' (rm - 1) (sp - 1) /\
    (forall n, 0 <= n -> disk_inode sb vw' n = if decide (n = i_inum i) then dinode_of i else disk_inode sb vw n) /\
    (forall b, b <> IBLOCK (i_inum i) sb -> vw' b = vw b) /\
    forall (s1 : fsst T U) (jp : nat), fs_t s1 = fs_t s' -> fs_sb s1 = sb -> (jp < length (fs_inode s1))%nat ->
      in_use (geti jp s1) dv (i_inum i) -> i_valid (geti jp s1) = 0 ->
      sl_ok (i_lock (geti jp s1)) -> sl_locked (i_lock (geti jp s1)) = 0 ->
      runs (ilock x (Some jp)) s1 (fun _ s2 =>
        dinode_of (geti jp s2) = dinode_of i /\ i_valid (geti jp s2) = 1 /\ i_inum (geti jp s2) = i_inum i)).
Proof.
  intros D Hok Ht Hdev Hdv H0 Hb Hh Hc Hr Hs.
  eapply runs_mono; [eapply (iupdate_run sb); try done; [by fold i; rewrite Hdev, u32_small|apply Hok|lia]|].
  fold i. intros ? s' (t' & -> & D'). set (vw' := upd_at _ _ _) in D'. split; [by split_and!|].
  pose proof (fresh_range lg (IBLOCK (i_inum i) sb)) as HF.
  assert (D2 : txd t' vw' hd cl (IBLOCK (i_inum i) sb :: lg) (rm - 1) (sp - 1)) by (eapply txd_weaken; [exact D'|..]; done || lia).
  clear D'. rename D2 into D'. exists vw', (IBLOCK (i_inum i) sb :: lg). split; [done|].
  assert (HDI : forall n, 0 <= n -> disk_inode sb vw' n = if decide (n = i_inum i) then dinode_of i else disk_inode sb vw n).
  { intros n Hn. apply disk_inode_put; try done. by eapply txd_len. }
  split_and!; [done|intros b Hb'; unfold vw'; upd_solve|].
  intros s1 jp Et Esb Hjp (Ru & Du & Iu) Hv Hk Hl.
  assert (ED : disk_inode sb vw' (i_inum (geti jp s1)) = dinode_of i) by (rewrite Iu, HDI, decide_True by done; done).
  eapply runs_mono; [eapply (ilock_run (dv := dv) x sb s1 vw' hd cl _ (rm - 1) (sp - 1) jp); rewrite ?Iu, ?Du; try done; try lia|].
  - rewrite Et. exact D'.
  - by apply u32_small.
  - by rewrite <- Iu, ED.
  - intros ? s2 (t2 & -> & _). change (geti jp (set_t t2 ?q)) with (geti jp q).
    rewrite geti_updi, decide_True by done. rewrite ED. cbn. split_and!; try done.
Qed.

(** ** Concrete instances *)

(** User memory is not used by the instances below. *)
#[local] Instance no_user : UserMem unit := {| um_copyout := fun _ _ => ret 0; um_copyin := fun _ _ => ret ([], 0);
  um_mem := fun _ => ∅; um_set_mem := fun _ u => u |}.
#[local] Existing Instances txn0 txn_view0 txn_laws0.

(** A disk of 64 blocks: the log at 2, inodes from 32, the bitmap at 45, with
    the first 46 blocks in use. *)
Definition sb64 : superblock := Superblock FSMAGIC 64 18 200 30 2 32 45.
Definition disk64 : gmap Z block :=
  {[45 := [255; 255; 255; 255; 255; 63] ++ replicate 1018 0]}.
Definition fs64 (t : logst bst) : fsst (logst bst) unit :=
  FsSt sb64 (initlock "itable") (replicate NINODEn (with_ilock (initsleeplock "inode") inode0)) t tt [] [].

Lemma disk64_len b : length (disk_get disk64 b) = BSZ.
Proof. unfold disk_get, disk64. destruct (decide (b = 45)) as [->|]; [done|]. rewrite lookup_singleton_ne by done. done. Qed.

Lemma disk64_used : forall n, 0 <= n < 46 -> bit_of sb64 (disk_get disk64) n = true.
Proof.
  intros n Hn.
  assert (H : forallb (fun n => bit_of sb64 (disk_get disk64) (Z.of_nat n)) (seq 0 46) = true) by (vm_compute; reflexivity).
  rewrite forallb_forall in H. specialize (H (Z.to_nat n)). rewrite Z2Nat.id in H by lia. apply H, in_seq. lia.
Qed.

Lemma disk64_bblock n : 0 <= n < 64 -> BBLOCK n sb64 = 45.
Proof. intros. unfold BBLOCK. rewrite Z.div_small by (unfold BPB, BSIZE; lia). done. Qed.

Lemma disk64_alloc : alloc_ok sb64 (disk_get disk64) (fun _ => None).
Proof.
  split; [done|..].
  - intros n Hn. rewrite disk64_bblock by done. split_and!; try done. cbn. unfold in_log. lia.
  - intros n Hn Hf. change (sb_size sb64) with 64 in *.
    destruct (decide (n < 46)); [rewrite disk64_used in Hf by lia; done|].
    split_and!; try done; [cbn; unfold in_log; lia|]. intros m Hm. rewrite disk64_bblock by done. lia.
Qed.

Lemma balloc_correct_witness :
  exists t, runs (balloc 1) (fs64 t) (fun r s' => r = 46 /\ t_view (fs_t s') 46 = replicate BSZ 0).
Proof.
  destruct (boot_txd disk64 disk64_len eq_refl) as (t & D). exists t.
  eapply runs_mono; [apply (balloc_correct (dv := 1) (fs64 t) _ _ _ _ _ _ 1 D eq_refl disk64_alloc); lia|].
  intros r s' (_ & vw' & lg' & D' & [(H & _)|(H1 & H2 & H3 & H4 & _)]).
  - specialize (H 46). cbn [fs64 fs_sb sb64 sb_size] in H. by specialize (H ltac:(lia)).
  - cbn [fs64 fs_sb] in *. assert (r = 46) as ->.
    { destruct (decide (r < 46)); [rewrite disk64_used in H2 by lia; done|].
      destruct (decide (46 < r)); [|lia]. assert (bit_of sb64 (disk_get disk64) 46 = true) by (apply H3; lia). done. }
    split; [done|]. by rewrite (d_view _ _ _ _ _ _ _ D').
Defined.

Lemma bfree_correct_witness :
  exists t, runs (bfree 1 40) (fs64 t) (fun _ s' => bit_of sb64 (t_view (fs_t s')) 40 = false) /\
    fst (bfree 1 50 (fs64 t)) = Panic "freeing free block".
Proof.
  destruct (boot_txd disk64 disk64_len eq_refl) as (t & D). exists t. split.
  - eapply runs_mono; [apply (bfree_correct (dv := 1) (fs64 t) _ _ _ _ _ _ 1 40 D eq_refl disk64_alloc); cbn; lia|].
    intros ? s' (_ & vw' & lg' & D' & H & _). specialize (H 40 ltac:(cbn; lia)). cbn [fs64 fs_sb] in H.
    unfold bit_of in *. by rewrite (d_view _ _ _ _ _ _ _ D').
  - apply (bfree_correct (dv := 1) (fs64 t) _ _ _ _ _ _ 1 50 D eq_refl disk64_alloc); cbn; lia.
Defined.

Lemma fs64_it_ok t : it_ok (fs_inode (fs64 t)).
Proof.
  assert (E : forall i, (i < NINODEn)%nat -> i_ref (fs_inode (fs64 t) !!! i) = 0).
  { intros i Hi. cbn. by rewrite lookup_total_replicate_2. }
  split; [by cbn; rewrite length_replicate|intros i Hi; by rewrite E|].
  intros i j Hi Hj Ri. rewrite E in Ri by done. lia.
Qed.

Lemma iget_unique_witness :
  fst (iget x0 1 5 (fs64 (log0 (bcache_boot ∅)))) = Ret 0%nat /\
  match iget x0 1 5 (fs64 (log0 (bcache_boot ∅))) with
  | (Ret ip, s') => in_use (geti ip s') 1 5 /\ fst (iget x0 1 5 s') = Ret ip
  | _ => False
  end.
Proof.
  split; [reflexivity|].
  pose proof (iget_unique x0 (fs64 (log0 (bcache_boot ∅))) 1 5 ltac:(split; reflexivity) (fs64_it_ok _)) as H.
  change (iget x0 1 5 (fs64 (log0 (bcache_boot ∅)))) with
    (Ret 0%nat, snd (iget x0 1 5 (fs64 (log0 (bcache_boot ∅))))) in *.
  destruct H as (_ & _ & H1 & _ & _ & H2 & _). split; assumption.
Defined.

(** Entry 0 of the table holds inode 7, an empty file. *)
Definition inode7 : inode :=
  Inode 1 7 1 (Sleeplock 1 (initlock "sleep lock") "inode" 1) 1 T_FILE 0 0 1 0 (replicate NADDRS 0).

Lemma iupdate_ilock_roundtrip_witness :
  exists t, runs (iupdate 0) (updi 0 (fun _ => inode7) (fs64 t)) (fun _ s' =>
    disk_inode sb64 (t_view (fs_t s')) 7 = Dinode T_FILE 0 0 1 0 (replicate NADDRS 0)).
Proof.
  destruct (boot_txd disk64 disk64_len eq_refl) as (t & D). exists t.
  eapply runs_mono;
    [apply (iupdate_ilock_roundtrip (dv := 1) x0 (updi 0 (fun _ => inode7) (fs64 t)) _ _ _ _ _ _ 0 D); try done; try (cbn; lia)|].
  - split; cbn; try lia; try done. repeat constructor; lia.
  - change (0 <= 32 < 2 ^ 32 /\ ~ in_log 2 30 32). unfold in_log. lia.
  - intros ? s' (_ & vw' & lg' & D' & H & _). specialize (H 7 ltac:(lia)).
    change (geti 0 (updi 0 (fun _ => inode7) (fs64 t))) with inode7 in H. cbn [i_inum inode7] in H.
    rewrite decide_True in H by done. unfold disk_inode in *. by rewrite (d_view _ _ _ _ _ _ _ D').
Defined.
