(* ===== verification/Dir.v ===== *)
(** * File system: kernel/fs.c (directories and path names)

    Names and paths are strings in kernel memory; [de_look] and [de_link] are
    the addresses of the local directory entries of [dirlookup] and
    [dirlink], [cwd] is the calling process's current directory. *)
From S2P Require Import Prelude CString Riscv Spinlock Bio Layout Txn Fs.
Local Open Scope Z_scope.

Definition SLASH : Z := 47.

(** [while ( *path == '/') path++;] *)
Fixpoint skip_slashes (fuel : nat) (m : mem) (path : Z) : option Z :=
  match fuel with
  | O => None
  | S f => if rd m path =? SLASH then skip_slashes f m (path + 1) else Some path
  end.

(** [while ( *path != '/' && *path != 0) path++;] *)
Fixpoint skip_name (fuel : nat) (m : mem) (path : Z) : option Z :=
  match fuel with
  | O => None
  | S f =>
      if negb (rd m path =? SLASH) && negb (rd m path =? 0) then skip_name f m (path + 1)
      else Some path
  end.

(** The outer [None] is a path that is not terminated within [fuel] bytes;
    the inner one is the null pointer. *)
Definition skipelem (fuel : nat) (m : mem) (path name : Z) : option (option Z * mem) :=
  match skip_slashes fuel m path with
  | None => None
  | Some path =>
      if rd m path =? 0 then Some (None, m)
      else
        let s := path in
        match skip_name fuel m path with
        | None => None
        | Some path =>
            let len := path - s in
            let m' :=
              if DIRSIZ <=? len then memmove m name s DIRSIZ
              else wr (memmove m name s len) (name + len) 0 in
            match skip_slashes fuel m' path with
            | None => None
            | Some path => Some (Some path, m')
            end
        end
  end.

Section ops.
Context {T U : Type} {B : BlockTxn T} {UM : UserMem U} (x : ctx).
Context (de_look de_link : Z).
Local Abbreviation FM := (M (fsst T U)).

Definition namecmp (s t : Z) : FM Z := gets (fun st => strncmp (fs_mem st) s t DIRSIZ).

(** [de.inum] of the directory entry at address [a]. *)
Definition de_inum_at (a : Z) : FM Z := gets (fun s => le_dec (load_bytes 2 (fs_mem s) a)).

(** The result is the inode and the offset stored through [poff]. *)
Definition dirlookup (dp : nat) (name : Z) : FM (option (nat * Z)) :=
  let! d := gets (geti dp) in
  (if negb (i_type d =? T_DIR) then panic "dirlookup not DIR" else ret tt) ;;
  for_loop 0 (i_size d) DESIZE (fun off =>
    let! n := readi dp false de_look off DESIZE in
    (if negb (n =? DESIZE) then panic "dirlookup read" else ret tt) ;;
    let! inum := de_inum_at de_look in
    if inum =? 0 then ret None
    else
      let! c := namecmp name (de_look + 2) in
      if c =? 0 then
        let! ip := iget x (i_dev d) inum in ret (Some (ip, off))
      else ret None).

Definition dirlink (dp : nat) (name inum : Z) : FM Z :=
  let! r := dirlookup dp name in
  match r with
  | Some (ip, _) => iput x ip ;; ret (-1)
  | None =>
      let! sz := gets (fun s => i_size (geti dp s)) in
      let! r := for_loop 0 sz DESIZE (fun off =>
        let! n := readi dp false de_link off DESIZE in
        (if negb (n =? DESIZE) then panic "dirlink read" else ret tt) ;;
        let! i := de_inum_at de_link in
        if i =? 0 then ret (Some off) else ret None) in
      let off := match r with Some off => off | None => (sz + DESIZE - 1) / DESIZE * DESIZE end in
      modify (fun s => set_fmem (strncpy (fs_mem s) (de_link + 2) name DIRSIZ) s) ;;
      modify (fun s => set_fmem (store_bytes (fs_mem s) de_link (le_enc 2 inum)) s) ;;
      let! n := writei dp false de_link off DESIZE in
      if negb (n =? DESIZE) then ret (-1) else ret 0
  end.

(** [pfuel] bounds the length of the path. *)
Context (pfuel : nat) (cwd : nat).

Fixpoint namex_loop (fuel : nat) (ip : nat) (path : Z) (parent : bool) (name : Z) : FM (option nat) :=
  match fuel with
  | O => undef "namex: path not terminated"
  | S f =>
      let! m := gets fs_mem in
      match skipelem pfuel m path name with
      | None => undef "namex: path not terminated"
      | Some (None, _) =>
          if parent then iput x ip ;; ret None else ret (Some ip)
      | Some (Some path, m') =>
          modify (set_fmem m') ;;
          ilock x (Some ip) ;;
          let! i := gets (geti ip) in
          if negb (i_type i =? T_DIR) then iunlockput x ip ;; ret None
          else
            let! c := gets (fun s => rd (fs_mem s) path) in
            if parent && (c =? 0) then iunlock x (Some ip) ;; ret (Some ip)
            else
              let! r := dirlookup ip name in
              match r with
              | None => iunlockput x ip ;; ret None
              | Some (next, _) => iunlockput x ip ;; namex_loop f next path parent name
              end
      end
  end.

Definition namex (path : Z) (parent : bool) (name : Z) : FM (option nat) :=
  let! c := gets (fun s => rd (fs_mem s) path) in
  let! ip := (if c =? SLASH then iget x ROOTDEV ROOTINO else idup x cwd) in
  namex_loop pfuel ip path parent name.

(** [name_buf] is the address of [namei]'s local array. *)
Definition namei (name_buf path : Z) : FM (option nat) := namex path false name_buf.
Definition nameiparent (path name : Z) : FM (option nat) := namex path true name.
End ops.

(** ** Paths as lists of components *)

(** The components of a path: what lies between slashes, empty ones dropped. *)
Fixpoint split_slash (l : list Z) : list (list Z) :=
  match l with
  | [] => [[]]
  | c :: t =>
      if c =? SLASH then [] :: split_slash t
      else match split_slash t with
           | h :: r => (c :: h) :: r
           | [] => [[c]]
           end
  end.
Definition components (l : list Z) : list (list Z) := filter (fun e => e <> []) (split_slash l).

(** The names [skipelem] delivers, called until it returns 0. *)
Fixpoint path_names (k fuel : nat) (m : mem) (path name : Z) : option (list (list Z)) :=
  match k with
  | O => None
  | S k' =>
      match skipelem fuel m path name with
      | Some (None, _) => Some []
      | Some (Some path', m') =>
          match path_names k' fuel m' path' name with
          | Some l => Some (field_name 14 m' name :: l)
          | None => None
          end
      | None => None
      end
  end.

Fixpoint drop_slashes (l : list Z) : list Z :=
  match l with
  | c :: t => if c =? SLASH then drop_slashes t else l
  | [] => []
  end.
Fixpoint take_elem (l : list Z) : list Z :=
  match l with
  | c :: t => if c =? SLASH then [] else c :: take_elem t
  | [] => []
  end.
Fixpoint drop_elem (l : list Z) : list Z :=
  match l with
  | c :: t => if c =? SLASH then l else drop_elem t
  | [] => []
  end.

(** ** Lemmas *)
Lemma split_slash_elem l :
  exists r, split_slash l = take_elem l :: r /\
    components l = (if decide (take_elem l = []) then [] else [take_elem l]) ++ components (drop_elem l).
Proof.
  induction l as [|c t (r & E & IH)]; [by exists []|]. cbn [split_slash take_elem drop_elem].
  destruct (Z.eqb_spec c SLASH) as [->|Hc].
  - exists (split_slash t). split; [done|]. cbn. done.
  - rewrite E. exists r. split; [done|]. unfold components in *. cbn [split_slash].
    rewrite (proj2 (Z.eqb_neq _ _) Hc), E. rewrite filter_cons, decide_True by done.
    rewrite E, filter_cons in IH. rewrite decide_False by done. cbn [app]. f_equal.
    destruct (decide (take_elem t = [])) as [E0|E0]; [by rewrite decide_False in IH by tauto|].
    rewrite decide_True in IH by done. cbn [app] in IH. by injection IH.
Qed.

Lemma components_drop_slashes l : components (drop_slashes l) = components l.
Proof.
  induction l as [|c t IH]; [done|]. cbn [drop_slashes]. destruct (Z.eqb_spec c SLASH) as [->|]; [|done].
  rewrite IH. unfold components. cbn. done.
Qed.

Lemma drop_slashes_head l c t : drop_slashes l = c :: t -> c <> SLASH.
Proof.
  induction l as [|d l IH]; cbn; [done|]. destruct (Z.eqb_spec d SLASH); [done|]. by intros [= -> ->].
Qed.

(** One call of [skipelem] takes the first component off. *)
Lemma components_step l :
  components l = match drop_slashes l with
                 | [] => []
                 | c :: t => take_elem (c :: t) :: components (drop_slashes (drop_elem (c :: t)))
                 end.
Proof.
  rewrite <- components_drop_slashes. destruct (drop_slashes l) as [|c t] eqn:E; [done|].
  rewrite (components_drop_slashes (drop_elem (c :: t))). destruct (split_slash_elem (c :: t)) as (r & _ & ->).
  cbn [take_elem]. rewrite (proj2 (Z.eqb_neq _ _)) by (by eapply drop_slashes_head). by rewrite decide_False.
Qed.

Lemma length_drop_slashes l : (length (drop_slashes l) <= length l)%nat.
Proof. induction l as [|c t IH]; cbn; [lia|]. destruct (c =? SLASH); cbn in *; lia. Qed.
Lemma length_elem l : (length (take_elem l) + length (drop_elem l) = length l)%nat.
Proof. induction l as [|c t IH]; cbn; [lia|]. destruct (c =? SLASH); cbn in *; lia. Qed.

Lemma skip_slashes_run fuel m p l :
  cstr m p l -> (length l < fuel)%nat ->
  let q := p + Z.of_nat (length l - length (drop_slashes l)) in
  skip_slashes fuel m p = Some q /\ cstr m q (drop_slashes l).
Proof.
  revert p fuel. induction l as [|c t IH]; intros p fuel HC Hf; (destruct fuel as [|fuel]; [cbn in Hf; lia|]); cbn [skip_slashes].
  - cbn in *. rewrite HC. cbn. split; [f_equal; lia|]. by rewrite Z.add_0_r.
  - destruct HC as (Hc & Hz & HC). cbn [drop_slashes]. rewrite Hc. destruct (Z.eqb_spec c SLASH) as [E|E].
    + destruct (IH (p + 1) fuel HC ltac:(cbn in Hf; lia)) as [-> H2]. pose proof (length_drop_slashes t).
      cbn [length]. replace (p + Z.of_nat (S (length t) - length (drop_slashes t))) with
        (p + 1 + Z.of_nat (length t - length (drop_slashes t))) by lia. done.
    + replace (length (c :: t) - length (c :: t))%nat with 0%nat by lia. rewrite Z.add_0_r. split; [done|]. cbn. done.
Qed.

Lemma skip_name_run fuel m p l :
  cstr m p l -> (length l < fuel)%nat ->
  let q := p + Z.of_nat (length (take_elem l)) in
  skip_name fuel m p = Some q /\ cstr m q (drop_elem l) /\
  forall i c, take_elem l !! i = Some c -> rd m (p + Z.of_nat i) = c /\ c <> 0.
Proof.
  revert p fuel. induction l as [|c t IH]; intros p fuel HC Hf; (destruct fuel as [|fuel]; [cbn in Hf; lia|]); cbn [skip_name].
  - cbn in *. rewrite HC. cbn. split_and!; [f_equal; lia|by rewrite Z.add_0_r|done].
  - destruct HC as (Hc & Hz & HC). cbn [take_elem drop_elem]. rewrite Hc.
    rewrite (proj2 (Z.eqb_neq _ _) Hz). destruct (Z.eqb_spec c SLASH) as [E|E]; cbn [negb andb].
    + cbn [length]. rewrite Z.add_0_r. split_and!; try done.
    + destruct (IH (p + 1) fuel HC ltac:(cbn in Hf; lia)) as (-> & H2 & H3). cbn [length].
      replace (p + Z.of_nat (S (length (take_elem t)))) with (p + 1 + Z.of_nat (length (take_elem t))) by lia.
      split_and!; try done. intros [|i] d Hd; cbn in Hd.
      * injection Hd as <-. by rewrite Z.add_0_r.
      * replace (p + Z.of_nat (S i)) with (p + 1 + Z.of_nat i) by lia. by apply H3.
Qed.

Lemma field_name_list n m p l :
  (forall i c, l !! i = Some c -> rd m (p + Z.of_nat i) = c /\ c <> 0) ->
  ((length l < n)%nat -> rd m (p + Z.of_nat (length l)) = 0) ->
  field_name n m p = take n l.
Proof.
  revert p l. induction n as [|n IH]; intros p l Hl Hz; [done|]. cbn [field_name].
  destruct l as [|c t].
  - cbn in Hz. rewrite Z.add_0_r in Hz. rewrite Hz by lia. done.
  - destruct (Hl 0%nat c eq_refl) as [H0 H1]. rewrite Z.add_0_r in H0. rewrite H0, (proj2 (Z.eqb_neq _ _) H1).
    cbn [take]. f_equal. apply IH.
    + intros i d Hd. replace (p + 1 + Z.of_nat i) with (p + Z.of_nat (S i)) by lia. by apply Hl.
    + intros Hn. cbn [length] in Hz. replace (p + 1 + Z.of_nat (length t)) with (p + Z.of_nat (S (length t))) by lia.
      apply Hz. lia.
Qed.

(** The name [skipelem] stores, cut to [DIRSIZ] bytes. *)
Lemma stored_name m s name e (len := Z.of_nat (length e))
    (m' := if DIRSIZ <=? len then memmove m name s DIRSIZ else wr (memmove m name s len) (name + len) 0) :
  (forall i c, e !! i = Some c -> rd m (s + Z.of_nat i) = c /\ c <> 0) ->
  field_name 14 m' name = take 14 e /\ only_changes name DIRSIZ m m'.
Proof.
  intros He. unfold m', DIRSIZ. destruct (Z.leb_spec 14 len) as [Hl|Hl]; split.
  - transitivity (take 14 (take 14 e)); [|by rewrite take_take]. apply field_name_list.
    + intros i c Hi. apply lookup_lt_Some in Hi as Hlt. rewrite length_take in Hlt.
      rewrite lookup_take_lt in Hi by lia. rewrite rd_memmove, decide_True by lia.
      replace (s + (name + Z.of_nat i - name)) with (s + Z.of_nat i) by lia. by apply He.
    + rewrite length_take. lia.
  - intros a Ha. rewrite rd_memmove, decide_False by lia. done.
  - apply field_name_list.
    + intros i c Hi. apply lookup_lt_Some in Hi as Hlt.
      rewrite rd_wr_ne, rd_memmove, decide_True by lia.
      replace (s + (name + Z.of_nat i - name)) with (s + Z.of_nat i) by lia. by apply He.
    + intros _. apply rd_wr_eq.
  - intros a Ha. rewrite rd_wr_ne, rd_memmove, decide_False by lia. done.
Qed.

Lemma skipelem_run fuel m path name l :
  cstr m path l -> (length l < fuel)%nat ->
  path + Z.of_nat (length l) < name \/ name + DIRSIZ <= path ->
  match drop_slashes l with
  | [] => skipelem fuel m path name = Some (None, m)
  | c :: t => let r := c :: t in exists p' m', skipelem fuel m path name = Some (Some p', m') /\
      cstr m' p' (drop_slashes (drop_elem r)) /\ path <= p' /\
      p' + Z.of_nat (length (drop_slashes (drop_elem r))) = path + Z.of_nat (length l) /\
      field_name 14 m' name = take 14 (take_elem r) /\ only_changes name DIRSIZ m m'
  end.
Proof.
  intros HC Hf Hd. unfold skipelem. destruct (skip_slashes_run fuel m path l HC Hf) as [E1 C1]. rewrite E1.
  pose proof (length_drop_slashes l) as HL. destruct (drop_slashes l) as [|c t] eqn:ED.
  - cbn [cstr] in C1. by rewrite C1.
  - remember (c :: t) as r eqn:Er. assert (Hr : rd m (path + Z.of_nat (length l - length r)) <> 0).
    { subst r. cbn [cstr] in C1. destruct C1 as (-> & ? & _). done. }
    rewrite (proj2 (Z.eqb_neq _ _) Hr). set (s := path + Z.of_nat (length l - length r)) in *.
    destruct (skip_name_run fuel m s r C1 ltac:(lia)) as (-> & C2 & Hbytes).
    pose proof (length_elem r) as HE. pose proof (length_drop_slashes (drop_elem r)) as HL2.
    replace (s + Z.of_nat (length (take_elem r)) - s) with (Z.of_nat (length (take_elem r))) by lia.
    set (len := Z.of_nat (length (take_elem r))).
    set (m' := if DIRSIZ <=? len then memmove m name s DIRSIZ else wr (memmove m name s len) (name + len) 0).
    destruct (stored_name m s name (take_elem r) Hbytes) as [HN HO]. fold len m' in HN, HO.
    assert (C3 : cstr m' (s + len) (drop_elem r)) by (eapply cstr_ext; [exact HO|lia|done]).
    destruct (skip_slashes_run fuel m' _ _ C3 ltac:(lia)) as [-> C4].
    eexists _, m'. split_and!; [done|done|lia|lia|done|done].
Qed.

(** ** Properties *)

(** Path names are parsed as intended: for every path in memory, calling
    [skipelem] until it returns 0 delivers exactly the path's components, in
    order, repeated, leading and trailing slashes ignored, each cut to
    [DIRSIZ] bytes. *)
Theorem skipelem_components k fuel m path name l :
  cstr m path l -> (length l < fuel)%nat -> (length l < k)%nat ->
  path + Z.of_nat (length l) < name \/ name + DIRSIZ <= path ->
  path_names k fuel m path name = Some (map (take 14) (components l)).
Proof.
  revert m path l. induction k as [|k IH]; intros m path l HC Hf Hk Hd; [lia|]. cbn [path_names].
  pose proof (skipelem_run fuel m path name l HC Hf Hd) as HS. rewrite components_step.
  pose proof (length_drop_slashes l) as HL. destruct (drop_slashes l) as [|c t] eqn:E; [by rewrite HS|].
  destruct HS as (p' & m' & -> & C' & Hp & Hq & HN & _).
  pose proof (length_drop_slashes (drop_elem (c :: t))). pose proof (length_elem (c :: t)) as HE.
  assert (take_elem (c :: t) <> []) as Hne.
  { cbn. by rewrite (proj2 (Z.eqb_neq _ _)) by (by eapply drop_slashes_head). }
  assert (length (take_elem (c :: t)) <> 0%nat) by (by destruct (take_elem (c :: t))).
  rewrite (IH m' p' _ C'); [|lia|lia|lia]. cbn [map]. by rewrite HN.
Qed.

(** "//usr//a_file_name_of_20/x" *)
Definition path_ex : list Z :=
  [47; 47; 117; 115; 114; 47; 47; 97; 95; 102; 105; 108; 101; 95; 110; 97; 109; 101; 95; 111; 102; 95; 50; 48; 47; 120].

Lemma skipelem_components_witness :
  path_names 30 30 (store_bytes ∅ 1000 path_ex) 1000 2000 =
    Some [[117; 115; 114]; [97; 95; 102; 105; 108; 101; 95; 110; 97; 109; 101; 95; 111; 102]; [120]].
Proof.
  rewrite (skipelem_components 30 30 (store_bytes ∅ 1000 path_ex) 1000 2000 path_ex).
  - reflexivity.
  - vm_compute. repeat split; discriminate.
  - vm_compute. lia.
  - vm_compute. lia.
  - left. vm_compute. done.
Defined.
