(* ===== verification/Vm.v ===== *)
(** * Virtual memory: kernel/vm.c

    Page tables live in the byte memory of a page allocator: a table is a
    page of 512 little-endian 64-bit entries.  The functions of vm.c are
    definitions over the allocator interface of Kalloc.v; the kernel reads
    and writes physical memory through its direct map, so a kernel pointer is
    a physical address. *)
From S2P Require Import Prelude CString Riscv Spinlock Kalloc.
Local Open Scope Z_scope.

Definition has (pte flag : Z) : bool := negb (Z.land pte flag =? 0).

Section ops.
Context {S : Type} {P : PageAlloc S}.
Local Abbreviation VM := (M S).

Definition ld64 (a : Z) : VM Z := gets (fun s => load64 (pa_mem s) a).
Definition st64 (a v : Z) : VM unit := modify (fun s => pa_set_mem (store64 (pa_mem s) a v) s).
Definition vm_memset (dst c n : Z) : VM unit := modify (fun s => pa_set_mem (memset (pa_mem s) dst c n) s).
Definition vm_memmove (dst src n : Z) : VM unit := modify (fun s => pa_set_mem (memmove (pa_mem s) dst src n) s).

(** One level of [walk]: the table below [pagetable] for [va], unless it is
    missing and must not or cannot be allocated. *)
Definition walk_level (pagetable level va : Z) (alloc : bool) : VM (option Z) :=
  let pte_a := pagetable + 8 * PX level va in
  let! pte := ld64 pte_a in
  if has pte PTE_V then ret (Some (PTE2PA pte))
  else if negb alloc then ret None
  else
    let! p := pa_alloc in
    if p =? 0 then ret None
    else
      vm_memset p 0 PGSIZE ;;
      st64 pte_a (Z.lor (PA2PTE p) PTE_V) ;;
      ret (Some p).

(** The address of the entry for [va], or 0. *)
Definition walk (pagetable va : Z) (alloc : bool) : VM Z :=
  if MAXVA <=? va then panic "walk"
  else
    let! r := walk_level pagetable 2 va alloc in
    match r with
    | None => ret 0
    | Some p1 =>
        let! r := walk_level p1 1 va alloc in
        match r with
        | None => ret 0
        | Some p0 => ret (p0 + 8 * PX 0 va)
        end
    end.

Definition walkaddr (pagetable va : Z) : VM Z :=
  if MAXVA <=? va then ret 0
  else
    let! pte_a := walk pagetable va false in
    if pte_a =? 0 then ret 0
    else
      let! pte := ld64 pte_a in
      if negb (has pte PTE_V) then ret 0
      else if negb (has pte PTE_U) then ret 0
      else ret (PTE2PA pte).

Definition mappages (pagetable va size pa perm : Z) : VM Z :=
  if negb (va mod PGSIZE =? 0) then panic "mappages: va not aligned"
  else if negb (size mod PGSIZE =? 0) then panic "mappages: size not aligned"
  else if size =? 0 then panic "mappages: size"
  else
    let! r := forn (A := Z) (Z.to_nat (size / PGSIZE)) 0 PGSIZE (fun o =>
      let! pte_a := walk pagetable (u64 (va + o)) true in
      if pte_a =? 0 then ret (Some (-1))
      else
        let! pte := ld64 pte_a in
        if has pte PTE_V then panic "mappages: remap"
        else
          st64 pte_a (Z.lor (Z.lor (PA2PTE (u64 (pa + o))) perm) PTE_V) ;;
          ret None) in
    ret (match r with Some e => e | None => 0 end).

Definition kvmmap (kpgtbl va pa sz perm : Z) : VM unit :=
  let! r := mappages kpgtbl va sz pa perm in
  if negb (r =? 0) then panic "kvmmap" else ret tt.

Definition uvmunmap (pagetable va npages : Z) (do_free : bool) : VM unit :=
  if negb (va mod PGSIZE =? 0) then panic "uvmunmap: not aligned"
  else
    for_loop (A := unit) va (u64 (va + npages * PGSIZE)) PGSIZE (fun a =>
      let! pte_a := walk pagetable a false in
      if pte_a =? 0 then panic "uvmunmap: walk"
      else
        let! pte := ld64 pte_a in
        if negb (has pte PTE_V) then panic "uvmunmap: not mapped"
        else if PTE_FLAGS pte =? PTE_V then panic "uvmunmap: not a leaf"
        else
          (if do_free then pa_release (PTE2PA pte) else ret tt) ;;
          st64 pte_a 0 ;;
          ret None) ;;
    ret tt.

Definition uvmcreate : VM Z :=
  let! pagetable := pa_alloc in
  if pagetable =? 0 then ret 0
  else vm_memset pagetable 0 PGSIZE ;; ret pagetable.

(** The allocations of the boot path are not checked for failure. *)
Definition uvmfirst (pagetable src sz : Z) : VM unit :=
  if PGSIZE <=? sz then panic "uvmfirst: more than a page"
  else
    let! mem := pa_alloc in
    if mem =? 0 then undef "uvmfirst: null page"
    else
      vm_memset mem 0 PGSIZE ;;
      mappages pagetable 0 PGSIZE mem (Z.lor (Z.lor (Z.lor PTE_W PTE_R) PTE_X) PTE_U) ;;
      vm_memmove mem src sz.

Definition uvmdealloc (pagetable oldsz newsz : Z) : VM Z :=
  if oldsz <=? newsz then ret oldsz
  else
    (if PGROUNDUP newsz <? PGROUNDUP oldsz then
       let npages := s32 ((PGROUNDUP oldsz - PGROUNDUP newsz) / PGSIZE) in
       uvmunmap pagetable (PGROUNDUP newsz) npages true
     else ret tt) ;;
    ret newsz.

Definition uvmalloc (pagetable oldsz newsz xperm : Z) : VM Z :=
  if newsz <? oldsz then ret oldsz
  else
    let oldsz := PGROUNDUP oldsz in
    let! r := for_loop (A := Z) oldsz newsz PGSIZE (fun a =>
      let! mem := pa_alloc in
      if mem =? 0 then uvmdealloc pagetable a oldsz ;; ret (Some 0)
      else
        vm_memset mem 0 PGSIZE ;;
        let! r := mappages pagetable a PGSIZE mem (Z.lor (Z.lor PTE_R PTE_U) xperm) in
        if negb (r =? 0) then
          pa_release mem ;;
          uvmdealloc pagetable a oldsz ;;
          ret (Some 0)
        else ret None) in
    ret (match r with Some e => e | None => newsz end).

(** [levels] bounds the depth of the recursion; a page table has three. *)
Fixpoint freewalk (levels : nat) (pagetable : Z) : VM unit :=
  match levels with
  | O => stall (Chan "freewalk" 0)
  | Datatypes.S n =>
      forn (A := unit) 512 0 1 (fun i =>
        let! pte := ld64 (pagetable + 8 * i) in
        if has pte PTE_V && negb (has pte (Z.lor (Z.lor PTE_R PTE_W) PTE_X)) then
          freewalk n (PTE2PA pte) ;;
          st64 (pagetable + 8 * i) 0 ;;
          ret None
        else if has pte PTE_V then panic "freewalk: leaf"
        else ret None) ;;
      pa_release pagetable
  end.

Definition uvmfree (pagetable sz : Z) : VM unit :=
  (if 0 <? sz then uvmunmap pagetable 0 (PGROUNDUP sz / PGSIZE) true else ret tt) ;;
  freewalk 3 pagetable.

Definition uvmcopy (old new sz : Z) : VM Z :=
  let! r := for_loop (A := Z) 0 sz PGSIZE (fun i =>
    let! pte_a := walk old i false in
    if pte_a =? 0 then panic "uvmcopy: pte should exist"
    else
      let! pte := ld64 pte_a in
      if negb (has pte PTE_V) then panic "uvmcopy: page not present"
      else
        let pa := PTE2PA pte in
        let flags := PTE_FLAGS pte in
        let! mem := pa_alloc in
        if mem =? 0 then uvmunmap new 0 (i / PGSIZE) true ;; ret (Some (-1))
        else
          vm_memmove mem pa PGSIZE ;;
          let! r := mappages new i PGSIZE mem flags in
          if negb (r =? 0) then
            pa_release mem ;;
            uvmunmap new 0 (i / PGSIZE) true ;;
            ret (Some (-1))
          else ret None) in
  ret (match r with Some e => e | None => 0 end).

Definition uvmclear (pagetable va : Z) : VM unit :=
  let! pte_a := walk pagetable va false in
  if pte_a =? 0 then panic "uvmclear"
  else
    let! pte := ld64 pte_a in
    st64 pte_a (Z.land pte (Z.lnot PTE_U)).

(** The copy loops go page by page; [len / PGSIZE + 2] rounds and the last test
    are enough. *)
Definition copy_fuel (len : Z) : nat := Z.to_nat (len / PGSIZE) + 3.

Fixpoint copyout_loop (fuel : nat) (pagetable dstva src len : Z) : VM Z :=
  match fuel with
  | O => stall (Chan "copyout" 0)
  | Datatypes.S f =>
      if 0 <? len then
        let va0 := PGROUNDDOWN dstva in
        if MAXVA <=? va0 then ret (-1)
        else
          let! pte_a := walk pagetable va0 false in
          if pte_a =? 0 then ret (-1)
          else
            let! pte := ld64 pte_a in
            if negb (has pte PTE_V) || negb (has pte PTE_U) || negb (has pte PTE_W) then ret (-1)
            else
              let pa0 := PTE2PA pte in
              let n := (PGSIZE - (dstva - va0)) `min` len in
              vm_memmove (pa0 + (dstva - va0)) src n ;;
              copyout_loop f pagetable (u64 (va0 + PGSIZE)) (src + n) (len - n)
      else ret 0
  end.
Definition copyout (pagetable dstva src len : Z) : VM Z :=
  copyout_loop (copy_fuel len) pagetable dstva src len.

Fixpoint copyin_loop (fuel : nat) (pagetable dst srcva len : Z) : VM Z :=
  match fuel with
  | O => stall (Chan "copyin" 0)
  | Datatypes.S f =>
      if 0 <? len then
        let va0 := PGROUNDDOWN srcva in
        let! pa0 := walkaddr pagetable va0 in
        if pa0 =? 0 then ret (-1)
        else
          let n := (PGSIZE - (srcva - va0)) `min` len in
          vm_memmove dst (pa0 + (srcva - va0)) n ;;
          copyin_loop f pagetable (dst + n) (u64 (va0 + PGSIZE)) (len - n)
      else ret 0
  end.
Definition copyin (pagetable dst srcva len : Z) : VM Z :=
  copyin_loop (copy_fuel len) pagetable dst srcva len.

(** The inner loop of [copyinstr] over [n] bytes of one page: whether the NUL
    was found. *)
Fixpoint copystr (n : nat) (p dst : Z) (m : mem) : bool * mem :=
  match n with
  | O => (false, m)
  | Datatypes.S n' =>
      if rd m p =? 0 then (true, wr m dst 0)
      else copystr n' (p + 1) (dst + 1) (wr m dst (rd m p))
  end.

Fixpoint copyinstr_loop (fuel : nat) (pagetable dst srcva max : Z) : VM Z :=
  match fuel with
  | O => stall (Chan "copyinstr" 0)
  | Datatypes.S f =>
      if 0 <? max then
        let va0 := PGROUNDDOWN srcva in
        let! pa0 := walkaddr pagetable va0 in
        if pa0 =? 0 then ret (-1)
        else
          let n := (PGSIZE - (srcva - va0)) `min` max in
          let! m := gets pa_mem in
          let '(got_null, m') := copystr (Z.to_nat n) (pa0 + (srcva - va0)) dst m in
          modify (pa_set_mem m') ;;
          if got_null then ret 0
          else copyinstr_loop f pagetable (dst + n) (u64 (va0 + PGSIZE)) (max - n)
      else ret (-1)
  end.
Definition copyinstr (pagetable dst srcva max : Z) : VM Z :=
  copyinstr_loop (copy_fuel max) pagetable dst srcva max.

(** proc.c: a kernel stack for every process, with a guard page below it. *)
Definition proc_mapstacks (kpgtbl : Z) : VM unit :=
  forn (A := unit) (Z.to_nat NPROC) 0 1 (fun p =>
    let! pa := pa_alloc in
    if pa =? 0 then panic "kalloc"
    else kvmmap kpgtbl (KSTACK p) pa PGSIZE (Z.lor PTE_R PTE_W) ;; ret None) ;;
  ret tt.

(** [etext] and [trampoline] are addresses the linker fixes. *)
Definition kvmmake (etext trampoline : Z) : VM Z :=
  let! kpgtbl := pa_alloc in
  if kpgtbl =? 0 then undef "kvmmake: null page"
  else
    vm_memset kpgtbl 0 PGSIZE ;;
    kvmmap kpgtbl UART0 UART0 PGSIZE (Z.lor PTE_R PTE_W) ;;
    kvmmap kpgtbl VIRTIO0 VIRTIO0 PGSIZE (Z.lor PTE_R PTE_W) ;;
    kvmmap kpgtbl PLIC PLIC 67108864 (Z.lor PTE_R PTE_W) ;;
    kvmmap kpgtbl KERNBASE KERNBASE (etext - KERNBASE) (Z.lor PTE_R PTE_X) ;;
    kvmmap kpgtbl etext etext (PHYSTOP - etext) (Z.lor PTE_R PTE_W) ;;
    kvmmap kpgtbl TRAMPOLINE trampoline PGSIZE (Z.lor PTE_R PTE_X) ;;
    proc_mapstacks kpgtbl ;;
    ret kpgtbl.

(** kvminit stores the table in the global [kernel_pagetable]. *)
Definition kvminit (etext trampoline : Z) : VM Z := kvmmake etext trampoline.
End ops.

(** ** Page tables as trees

    A ghost map [g] names the table pages: [g L k] is the table of level [L]
    that serves the addresses [va] with [va / 2^(21+9L) = k]. *)
Definition table_key (L va : Z) : Z := va / 2 ^ (21 + 9 * L).

Section tree.
Context {S : Type} {P : PageAlloc S}.

Record pt_wf (m : mem) (root : Z) (g : Z -> Z -> option Z) : Prop := {
  pw_root : g 2 0 = Some root;
  pw_level : forall L k t, g L k = Some t -> 0 <= L <= 2 /\ 0 <= k;
  pw_child : forall L k t i, 1 <= L -> g L k = Some t -> 0 <= i < 512 ->
    let e := load64 m (t + 8 * i) in
    g (L - 1) (512 * k + i) = if has e PTE_V then Some (PTE2PA e) else None;
  pw_parent : forall L k t, L < 2 -> g L k = Some t -> exists t', g (L + 1) (k / 512) = Some t';
  pw_inj : forall L k L' k' t, g L k = Some t -> g L' k' = Some t -> L = L' /\ k = k';
  pw_page : forall L k t, g L k = Some t -> pa_page t;
}.

(** The leaf entry for [va]: 0 when there is no table for it. *)
Definition pte_of (m : mem) (g : Z -> Z -> option Z) (va : Z) : Z :=
  match g 0 (table_key 0 va) with
  | Some t => load64 m (t + 8 * PX 0 va)
  | None => 0
  end.

Definition is_table (g : Z -> Z -> option Z) (p : Z) : Prop := exists L k, g L k = Some p.

Definition in_page (p a : Z) : Prop := p <= a < p + PGSIZE.

(** The page table at [root] in a system whose allocator has [fl] left. *)
Record vm_wf (s : S) (root : Z) (g : Z -> Z -> option Z) (fl : list Z) : Prop := {
  vw_tree : pt_wf (pa_mem s) root g;
  vw_free : pa_free s fl;
  vw_disj : forall p, p ∈ fl -> ~ is_table g p;
}.
End tree.

(** ** Lemmas: entries *)
Lemma has_V_lor x : has (Z.lor x PTE_V) PTE_V = true.
Proof.
  unfold has. apply negb_true_iff, Z.eqb_neq. intros H. apply (f_equal (fun z => Z.testbit z 0)) in H.
  rewrite Z.land_spec, Z.lor_spec, Z.bits_0 in H. change (Z.testbit PTE_V 0) with true in H.
  rewrite orb_true_r in H. done.
Qed.

Lemma has_0 f : has 0 f = false.
Proof. unfold has. by rewrite Z.land_0_l. Qed.

(** An entry is the page number in the high bits plus ten flag bits. *)
Lemma lor_low x f : 0 <= f < 1024 -> Z.lor (x * 1024) f = x * 1024 + f.
Proof.
  intros Hf. rewrite <- Z.add_lor_land. replace (Z.land (x * 1024) f) with 0; [lia|]. symmetry.
  apply Z.bits_inj'. intros i Hi. rewrite Z.land_spec, Z.bits_0. change 1024 with (2 ^ 10).
  destruct (decide (i < 10)).
  - rewrite Z.mul_pow2_bits_low by lia. done.
  - replace f with (f mod 2 ^ 10) by (apply Z.mod_small; lia).
    rewrite Z.mod_pow2_bits_high by lia. apply andb_false_r.
Qed.

Lemma PA2PTE_eq p : 0 <= p < 2 ^ 56 -> PA2PTE p = p / 4096 * 1024.
Proof.
  intros Hp. unfold PA2PTE. rewrite Z.shiftr_div_pow2, Z.shiftl_mul_pow2 by lia.
  apply u64_small. change (2 ^ 12) with 4096. change (2 ^ 10) with 1024. dlia.
Qed.

Lemma mk_pte p f : 0 <= p < 2 ^ 56 -> 0 <= f < 1024 -> Z.lor (PA2PTE p) f = p / 4096 * 1024 + f.
Proof. intros. rewrite PA2PTE_eq by done. by apply lor_low. Qed.

(** A page address survives the trip through an entry, whatever the flags. *)
Lemma PTE2PA_mk p f :
  0 <= p < 2 ^ 56 -> p mod PGSIZE = 0 -> 0 <= f < 1024 -> PTE2PA (Z.lor (PA2PTE p) f) = p.
Proof.
  intros Hp Ha Hf. rewrite mk_pte by done. unfold PTE2PA. rewrite Z.shiftr_div_pow2, Z.shiftl_mul_pow2 by lia.
  unfold PGSIZE in Ha. change (2 ^ 10) with 1024. change (2 ^ 12) with 4096. rewrite u64_small by dlia. dlia.
Qed.

Lemma pte_range p f : 0 <= p < 2 ^ 56 -> 0 <= f < 1024 -> 0 <= Z.lor (PA2PTE p) f < 2 ^ 64.
Proof. intros. rewrite mk_pte by done. dlia. Qed.

(** ** Lemmas: table keys *)
Lemma key_child L va : 0 <= va -> 1 <= L -> table_key (L - 1) va = 512 * table_key L va + PX L va.
Proof.
  intros Hv HL. rewrite PX_eq by lia. unfold table_key.
  replace (21 + 9 * (L - 1)) with (12 + 9 * L) by lia.
  replace (21 + 9 * L) with ((12 + 9 * L) + 9) by lia.
  rewrite (Z.pow_add_r 2 (12 + 9 * L) 9), <- Z.div_div by lia. change (2 ^ 9) with 512.
  pose proof (Z.div_mod (va / 2 ^ (12 + 9 * L)) 512 ltac:(lia)). lia.
Qed.

Lemma key_top va : 0 <= va < MAXVA -> table_key 2 va = 0.
Proof. intros Hv. apply Z.div_small. change MAXVA with (2 ^ 38) in Hv. change (2 ^ (21 + 9 * 2)) with (2 ^ 39). lia. Qed.

Lemma key_nonneg L va : 0 <= va -> 0 <= L -> 0 <= table_key L va.
Proof. intros. apply Z.div_pos; [done|lia]. Qed.

(** The entry of a page is identified by its leaf table and index. *)
Lemma leaf_index_inj va va' :
  0 <= va -> 0 <= va' -> table_key 0 va = table_key 0 va' -> PX 0 va = PX 0 va' -> va / PGSIZE = va' / PGSIZE.
Proof.
  intros H1 H2 HK HP. rewrite !PX_eq in HP by lia. unfold table_key in HK. unfold PGSIZE.
  change (2 ^ (21 + 9 * 0)) with 2097152 in HK. change (2 ^ (12 + 9 * 0)) with 4096 in HP. dlia.
Qed.

Lemma leaf_index_page va va' : va / PGSIZE = va' / PGSIZE -> table_key 0 va = table_key 0 va' /\ PX 0 va = PX 0 va'.
Proof.
  intros H. rewrite !PX_eq by lia. unfold table_key, PGSIZE in *.
  change (2 ^ (21 + 9 * 0)) with (4096 * 512). change (2 ^ (12 + 9 * 0)) with 4096.
  rewrite <- !Z.div_div by lia. by rewrite H.
Qed.

(** ** Lemmas: memory *)
Lemma rd_store64_ext m a v i : ~ (a <= i < a + 8) -> rd (store64 m a v) i = rd m i.
Proof. apply rd_store64_out. Qed.

Lemma load64_store64 m a v b :
  0 <= v < 2 ^ 64 -> a = b \/ a + 8 <= b \/ b + 8 <= a ->
  load64 (store64 m a v) b = if decide (a = b) then v else load64 m b.
Proof.
  intros Hv Hd. case_decide as E; [subst; by apply load_store64|].
  apply load64_ext. intros i Hi. apply rd_store64_out. lia.
Qed.

Lemma load64_zero_page m p a :
  p <= a -> a + 8 <= p + PGSIZE -> load64 (memset m p 0 PGSIZE) a = 0.
Proof.
  intros H1 H2. unfold load64.
  assert (E : forall n b, p <= b -> b + Z.of_nat n <= p + PGSIZE -> load_bytes n (memset m p 0 PGSIZE) b = replicate n 0).
  { induction n as [|n IH]; intros b Hb1 Hb2; [done|]. cbn [load_bytes replicate]. rewrite IH by lia.
    rewrite rd_memset by (unfold PGSIZE; lia). rewrite decide_True by lia. done. }
  rewrite E by lia. done.
Qed.

(** ** Lemmas: walking *)
Section walk_lemmas.
Context {St : Type} {P : PageAlloc St} {L : PageAllocLaws St}.
Implicit Types (s : St) (g : Z -> Z -> option Z) (fl : list Z).

Lemma page_apart p q : pa_page p -> pa_page q -> p <> q -> p + PGSIZE <= q \/ q + PGSIZE <= p.
Proof.
  intros (_ & Hp & _)%pa_page_bounds (_ & Hq & _)%pa_page_bounds Hne. unfold PGSIZE in *. dlia.
Qed.

Lemma entry_in_page t i : 0 <= i < 512 -> t <= t + 8 * i /\ t + 8 * i + 8 <= t + PGSIZE.
Proof. unfold PGSIZE. lia. Qed.

(** What an operation that may add table pages does to the rest: mappings
    stay, the pages it took came off the free list, and memory outside the
    tables and the free pages is untouched. *)
Record vm_ext s s' g g' fl fl' : Prop := {
  ve_sub : forall lv k t, g lv k = Some t -> g' lv k = Some t;
  ve_pte : forall va, 0 <= va < MAXVA -> pte_of (pa_mem s') g' va = pte_of (pa_mem s) g va;
  ve_new : exists nt, fl = nt ++ fl' /\ forall p, is_table g' p <-> is_table g p \/ p ∈ nt;
  ve_mem : forall a, (forall p, is_table g p -> ~ in_page p a) -> (forall p, p ∈ fl -> ~ in_page p a) ->
    rd (pa_mem s') a = rd (pa_mem s) a;
}.

Lemma vm_ext_refl s g fl : vm_ext s s g g fl fl.
Proof. split; try done. exists []. split; [done|]. set_solver. Qed.

Lemma vm_ext_trans s1 s2 s3 g1 g2 g3 f1 f2 f3 :
  vm_ext s1 s2 g1 g2 f1 f2 -> vm_ext s2 s3 g2 g3 f2 f3 -> vm_ext s1 s3 g1 g3 f1 f3.
Proof.
  intros [A1 A2 (n1 & A3 & A4) A5] [B1 B2 (n2 & B3 & B4) B5]. split.
  - auto.
  - intros va Hv. by rewrite B2, A2.
  - exists (n1 ++ n2). subst. split; [by rewrite app_assoc|]. intros p. rewrite B4, A4. set_solver.
  - intros a H1 H2. rewrite B5, A5; try done.
    + intros p [?|?]%A4; [by apply H1|apply H2; set_solver].
    + intros p Hp. apply H2. set_solver.
Qed.

Lemma level_false s root g fl lv va t :
  vm_wf s root g fl -> 1 <= lv -> 0 <= va -> g lv (table_key lv va) = Some t ->
  walk_level t lv va false s = (Ret (g (lv - 1) (table_key (lv - 1) va)), s).
Proof.
  intros [W _ _] Hl Hv Ht. unfold walk_level, bind, ld64, gets.
  rewrite key_child by lia. rewrite (pw_child _ _ _ W lv _ t (PX lv va)) by (done || apply PX_range; lia).
  destruct (has _ PTE_V); done.
Qed.

(** The table a missing entry gets. *)
Definition add_table g lv k p : Z -> Z -> option Z :=
  fun lv' k' => if decide (lv' = lv /\ k' = k) then Some p else g lv' k'.

Lemma add_table_tables g lv k p q : g lv k = None -> is_table (add_table g lv k p) q <-> is_table g q \/ q ∈ [p].
Proof.
  intros Hn. unfold add_table. rewrite list_elem_of_singleton. split.
  - intros (lv' & k' & Hq). case_decide; [injection Hq as <-; by right|]. left. by exists lv', k'.
  - intros [(lv' & k' & Hq)| ->].
    + exists lv', k'. rewrite decide_False; [done|]. intros [-> ->]. congruence.
    + exists lv, k. by rewrite decide_True.
Qed.

Lemma pte_of_frame m m' g g' va :
  (forall t, g 0 (table_key 0 va) = Some t -> g' 0 (table_key 0 va) = Some t /\
     load64 m' (t + 8 * PX 0 va) = load64 m (t + 8 * PX 0 va)) ->
  (g 0 (table_key 0 va) = None -> forall t, g' 0 (table_key 0 va) = Some t -> load64 m' (t + 8 * PX 0 va) = 0) ->
  pte_of m' g' va = pte_of m g va.
Proof.
  intros H1 H2. unfold pte_of. destruct (g 0 (table_key 0 va)) as [t|].
  - destruct (H1 t eq_refl) as [-> ->]. done.
  - destruct (g' 0 (table_key 0 va)) as [t|]; [by apply H2|done].
Qed.

(** Memory after the new table [p] was zeroed and linked at index [i] of [t]. *)
Lemma new_table_load m m1 p t i v :
  pa_page p -> pa_page t -> p <> t -> 0 <= i < 512 -> 0 <= v < 2 ^ 64 -> only_changes p PGSIZE m m1 ->
  let m' := store64 (memset m1 p 0 PGSIZE) (t + 8 * i) v in
  (forall j, 0 <= j < 512 -> load64 m' (p + 8 * j) = 0) /\
  (forall j, 0 <= j < 512 -> load64 m' (t + 8 * j) = if decide (j = i) then v else load64 m (t + 8 * j)) /\
  (forall q j, pa_page q -> q <> p -> q <> t -> 0 <= j < 512 -> load64 m' (q + 8 * j) = load64 m (q + 8 * j)) /\
  (forall a, ~ in_page p a -> ~ in_page t a -> rd m' a = rd m a).
Proof.
  intros Hp Ht Hne Hi Hv HO m'. pose proof (entry_in_page t i Hi) as HE.
  assert (HO' : only_changes p PGSIZE m (memset m1 p 0 PGSIZE)).
  { eapply only_changes_trans; [exact HO|]. apply memset_only. unfold PGSIZE; lia. }
  pose proof (page_apart p t Hp Ht Hne) as Hpt. split_and!.
  - intros j Hj. pose proof (entry_in_page p j Hj). unfold m'. rewrite load64_store64 by (done || lia).
    rewrite decide_False by lia. apply load64_zero_page; lia.
  - intros j Hj. pose proof (entry_in_page t j Hj). unfold m'. rewrite load64_store64 by (done || lia).
    destruct (decide (j = i)) as [->|]; [by rewrite decide_True|]. rewrite decide_False by lia.
    eapply load64_only; [exact HO'|lia].
  - intros q j Hq H1 H2 Hj. pose proof (entry_in_page q j Hj).
    pose proof (page_apart q t Hq Ht H2). pose proof (page_apart q p Hq Hp H1).
    unfold m'. rewrite load64_store64 by (done || lia). rewrite decide_False by lia.
    eapply load64_only; [exact HO'|lia].
  - intros a H1 H2. unfold in_page in *. unfold m'. rewrite rd_store64_out by lia. apply HO'. lia.
Qed.

Lemma add_table_wf m m1 root g p lv k t i (m' := store64 (memset m1 p 0 PGSIZE) (t + 8 * i) (Z.lor (PA2PTE p) PTE_V)) :
  pt_wf m root g -> pa_page p -> ~ is_table g p -> 1 <= lv -> g lv k = Some t -> 0 <= i < 512 ->
  only_changes p PGSIZE m m1 -> has (load64 m (t + 8 * i)) PTE_V = false ->
  pt_wf m' root (add_table g (lv - 1) (512 * k + i) p).
Proof.
  intros W Hp Hnt Hlv Ht Hi HO Hinv. pose proof W as [W1 W2 W3 W4 W5 W6].
  assert (Hpt : p <> t) by (intros ->; apply Hnt; by exists lv, k).
  pose proof (W6 _ _ _ Ht) as Htp. destruct (pa_page_bounds p Hp) as (B1 & B2 & B3).
  pose proof (pte_range p PTE_V ltac:(unfold PGSIZE in *; lia) ltac:(done)) as HV.
  destruct (new_table_load m m1 p t i _ Hp Htp Hpt Hi HV HO) as (M1 & M2 & M3 & M4). fold m' in M1, M2, M3, M4.
  assert (Hold : g (lv - 1) (512 * k + i) = None) by (by rewrite (W3 lv k t i Hlv Ht Hi), Hinv).
  assert (Hext : forall lv' k' q, g lv' k' = Some q -> add_table g (lv - 1) (512 * k + i) p lv' k' = Some q).
  { intros lv' k' q Hq. unfold add_table. rewrite decide_False; [done|]. intros [-> ->]. congruence. }
  destruct (W2 _ _ _ Ht) as [Hl0 Hk0]. split.
  - by apply Hext.
  - intros lv' k' q. unfold add_table. case_decide as E; [|apply W2]. destruct E as [-> ->]. intros _. lia.
  - intros lv' k' q j Hl' Hq Hj e. unfold add_table in Hq. case_decide as E.
    + destruct E as [-> ->]. injection Hq as <-. unfold e. rewrite M1 by done. rewrite has_0.
      unfold add_table. rewrite decide_False by lia.
      destruct (g (lv - 1 - 1) (512 * (512 * k + i) + j)) as [q|] eqn:EG; [|done]. exfalso.
      destruct (W4 (lv - 1 - 1) _ _ ltac:(lia) EG) as [t' Ht'].
      replace (lv - 1 - 1 + 1) with (lv - 1) in Ht' by lia.
      replace ((512 * (512 * k + i) + j) / 512) with (512 * k + i) in Ht' by dlia. congruence.
    + pose proof (W3 lv' k' q j Hl' Hq Hj) as H3. cbv zeta in H3.
      assert (Hqp : q <> p) by (intros ->; apply Hnt; by exists lv', k').
      destruct (decide (q = t)) as [->|Hqt].
      * destruct (W5 _ _ _ _ _ Ht Hq) as [<- <-]. unfold e. rewrite M2 by done.
        unfold add_table. destruct (decide (j = i)) as [->|Hji].
        -- rewrite decide_True by done. rewrite has_V_lor, PTE2PA_mk by (done || unfold PGSIZE in *; lia). done.
        -- rewrite decide_False by lia. exact H3.
      * unfold e. rewrite (M3 q j) by (done || by eapply W6). unfold add_table. rewrite decide_False; [exact H3|].
        intros [E1 E2]. assert (lv' = lv) as -> by lia. assert (k' = k) as -> by lia. congruence.
  - intros lv' k' q Hl' Hq. unfold add_table in Hq. case_decide as E.
    + destruct E as [-> ->]. exists t. replace (lv - 1 + 1) with lv by lia.
      replace ((512 * k + i) / 512) with k by dlia. by apply Hext.
    + destruct (W4 lv' k' q Hl' Hq) as [t' Ht']. exists t'. by apply Hext.
  - intros l1 k1 l2 k2 q H1 H2. unfold add_table in H1, H2.
    destruct (decide (l1 = lv - 1 /\ k1 = 512 * k + i)) as [[-> ->]|N1],
      (decide (l2 = lv - 1 /\ k2 = 512 * k + i)) as [[-> ->]|N2]; try done.
    + injection H1 as <-. exfalso. apply Hnt. by exists l2, k2.
    + injection H2 as <-. exfalso. apply Hnt. by exists l1, k1.
    + by eapply W5.
  - intros lv' k' q. unfold add_table. case_decide; [by intros [= <-]|apply W6].
Qed.
Lemma st64_eq a v s : st64 a v s = (Ret tt, pa_set_mem (store64 (pa_mem s) a v) s).
Proof. done. Qed.

(** Writing inside table pages keeps the allocator's pages intact. *)
Lemma free_write_frame s fl m' (T : Z -> Prop) :
  pa_free s fl -> (forall p, T p -> pa_page p) -> (forall p, p ∈ fl -> ~ T p) ->
  (forall a, (forall p, T p -> ~ in_page p a) -> rd m' a = rd (pa_mem s) a) ->
  pa_free (pa_set_mem m' s) fl.
Proof.
  intros HF HT HD HM. apply pa_write_frame; [done|]. intros p a Hp Ha. apply HM. intros q Hq Hqa.
  destruct (pa_free_pages s fl HF) as [_ HFp]. rewrite Forall_forall in HFp.
  destruct (decide (p = q)) as [->|Hne]; [by apply (HD q)|].
  pose proof (page_apart p q (HFp p Hp) (HT q Hq) Hne). unfold in_page in *. lia.
Qed.

Lemma level_alloc s root g fl lv va t :
  vm_wf s root g fl -> 1 <= lv -> 0 <= va -> g lv (table_key lv va) = Some t ->
  runs (walk_level t lv va true) s (fun r s' => exists g' fl',
    vm_wf s' root g' fl' /\ vm_ext s s' g g' fl fl' /\
    match r with
    | Some p => g' (lv - 1) (table_key (lv - 1) va) = Some p
    | None => fl' = []
    end).
Proof.
  intros VW Hl Hv Ht. pose proof VW as [W HF HD]. pose proof (PX_range lv va ltac:(lia)) as HX.
  pose proof (pw_child _ _ _ W lv _ t (PX lv va) Hl Ht HX) as HC. cbv zeta in HC. rewrite <- key_child in HC by lia.
  unfold walk_level. unfold ld64. mstep. destruct (has _ PTE_V) eqn:EV.
  { mstep. exists g, fl. split_and!; [done|apply vm_ext_refl|done]. }
  cbn [negb]. destruct fl as [|p fl].
  - eapply runs_seq; [by apply pa_alloc_none|]. intros r s' (-> & HF' & Hm). cbn [Z.eqb]. mstep.
    exists g, []. split_and!; try done.
    + split; [by rewrite Hm|done|done].
    + split; try done; rewrite ?Hm; try done. exists []. split; [done|]. set_solver.
  - destruct (pa_free_pages s _ HF) as [Hnd Hpg]. apply Forall_cons in Hpg as [Hpp Hpg].
    apply NoDup_cons in Hnd as [Hpfl Hnd]. destruct (pa_page_bounds p Hpp) as (B1 & B2 & B3).
    eapply runs_seq; [by apply pa_alloc_some|]. intros r s1 (-> & HF1 & HO1).
    rewrite (proj2 (Z.eqb_neq _ _)) by lia. unfold vm_memset. mstep. unfold st64. mstep. mstep. rewrite !pa_mem_set.
    set (m' := store64 _ _ _). set (g' := add_table g (lv - 1) (table_key (lv - 1) va) p).
    assert (Hnt : ~ is_table g p) by (apply HD; by left).
    assert (Htp : pa_page t) by (by eapply pw_page).
    assert (Hpt : p <> t) by (intros ->; apply Hnt; by eexists _, _).
    pose proof (pte_range p PTE_V ltac:(unfold PGSIZE in *; lia) ltac:(done)) as HV.
    destruct (new_table_load (pa_mem s) (pa_mem s1) p t (PX lv va) _ Hpp Htp Hpt HX HV HO1) as (M1 & M2 & M3 & M4).
    fold m' in M1, M2, M3, M4.
    assert (HW' : pt_wf m' root g').
    { unfold g'. rewrite key_child by lia. by apply (add_table_wf (pa_mem s)). }
    assert (Htab : forall q, is_table g' q <-> is_table g q \/ q ∈ [p]).
    { intros q. apply add_table_tables. congruence. }
    assert (Hfree : pa_free (pa_set_mem m' (pa_set_mem (memset (pa_mem s1) p 0 PGSIZE) s1)) fl).
    { apply pa_write_frame.
      - apply (free_write_frame s1 fl _ (fun q => q = p)); [done|by intros ? ->|by intros ? ? ->|].
        intros a Ha. rewrite rd_memset by (unfold PGSIZE; lia). rewrite decide_False; [done|]. by apply (Ha p).
      - intros q a Hq Ha. rewrite pa_mem_set. unfold m'. apply rd_store64_out. rewrite Forall_forall in Hpg.
        assert (q <> t) by (intros ->; apply (HD t); [by right|by eexists _, _]).
        pose proof (page_apart q t (Hpg q Hq) Htp ltac:(done)). pose proof (entry_in_page t (PX lv va) HX). lia. }
    exists g', fl. split_and!.
    + split; [by rewrite pa_mem_set|done|]. intros q Hq Hqt. destruct (proj1 (Htab q) Hqt) as [H|H%list_elem_of_singleton].
      * apply (HD q); [by right|done].
      * subst q. done.
    + split; rewrite ?pa_mem_set.
      * intros lv' k' q Hq. unfold g', add_table. rewrite decide_False; [done|]. intros [-> ->]. congruence.
      * intros va' Hva'. pose proof (PX_range 0 va' ltac:(lia)) as HX'. apply pte_of_frame.
        -- intros q Hq. split.
           ++ unfold g', add_table. rewrite decide_False; [done|]. intros [E1 E2]. assert (lv = 1) as -> by lia. change (1 - 1) with 0 in *. congruence.
           ++ assert (q <> p) by (intros ->; apply Hnt; by eexists _, _).
              destruct (decide (q = t)) as [->|Hqt]; [|apply (M3 q); [exact (pw_page _ _ _ W _ _ _ Hq)|done|done|lia]].
              destruct (pw_inj _ _ _ W _ _ _ _ _ Ht Hq). lia.
        -- intros Hn q Hq. unfold g', add_table in Hq. case_decide; [|congruence]. injection Hq as <-. by apply M1.
      * exists [p]. split; [done|]. exact Htab.
      * intros a H1 H2. apply M4; [apply H2; by left|apply H1; by eexists _, _].
    + unfold g', add_table. by rewrite decide_True.
Qed.

(** [walk] without allocation reads the tree. *)
Lemma walk_false s root g fl va :
  vm_wf s root g fl -> 0 <= va < MAXVA ->
  walk root va false s =
    (Ret (match g 0 (table_key 0 va) with Some t => t + 8 * PX 0 va | None => 0 end), s).
Proof.
  intros VW Hv. pose proof VW as [W _ _]. unfold walk. rewrite (proj2 (Z.leb_gt _ _)) by lia. unfold bind at 1.
  pose proof (key_top va Hv) as K2.
  rewrite (level_false s root g fl 2 va root VW) by (lia || rewrite K2; apply W). change (2 - 1) with 1.
  destruct (g 1 (table_key 1 va)) as [p1|] eqn:E1.
  - unfold bind. rewrite (level_false s root g fl 1 va p1 VW) by (lia || done). change (1 - 1) with 0.
    by destruct (g 0 (table_key 0 va)).
  - destruct (g 0 (table_key 0 va)) as [t|] eqn:E0; [|done]. exfalso.
    destruct (pw_parent _ _ _ W 0 _ t ltac:(lia) E0) as [t' Ht']. change (0 + 1) with 1 in Ht'.
    replace (table_key 0 va / 512) with (table_key 1 va) in Ht'; [congruence|].
    unfold table_key. rewrite Z.div_div by lia. done.
Qed.

(** [walk] with allocation: mappings are kept, and a non-null result is the
    address of the entry for [va]. *)
Lemma walk_true s root g fl va :
  vm_wf s root g fl -> 0 <= va < MAXVA ->
  runs (walk root va true) s (fun r s' => exists g' fl',
    vm_wf s' root g' fl' /\ vm_ext s s' g g' fl fl' /\
    (r = 0 /\ fl' = [] \/ r <> 0 /\ exists t, g' 0 (table_key 0 va) = Some t /\ r = t + 8 * PX 0 va)).
Proof.
  intros VW Hv. pose proof VW as [W _ _]. unfold walk. rewrite (proj2 (Z.leb_gt _ _)) by lia.
  pose proof (key_top va Hv) as K2. eapply runs_seq.
  { apply (level_alloc s root g fl 2 va root VW); [lia|lia|]. rewrite K2. apply W. }
  intros [p1|] s1 (g1 & fl1 & VW1 & VE1 & H1); [|mstep; exists g1, fl1; split_and!; try done; by left].
  change (2 - 1) with 1 in H1. eapply runs_seq; [apply (level_alloc s1 root g1 fl1 1 va p1 VW1); [lia|lia|done]|].
  intros [p0|] s2 (g2 & fl2 & VW2 & VE2 & H2); mstep; exists g2, fl2.
  - split_and!; [done|by eapply vm_ext_trans|]. right. pose proof (PX_range 0 va ltac:(lia)).
    destruct (pa_page_bounds p0 ltac:(eapply pw_page; [apply VW2|exact H2])) as (B1 & _ & _). split; [lia|by exists p0].
  - split_and!; [done|by eapply vm_ext_trans|by left].
Qed.
(** Writing the leaf entry of one page. *)
Lemma set_leaf s root g fl va t v (s' := pa_set_mem (store64 (pa_mem s) (t + 8 * PX 0 va) v) s) :
  vm_wf s root g fl -> 0 <= va < MAXVA -> g 0 (table_key 0 va) = Some t -> 0 <= v < 2 ^ 64 ->
  vm_wf s' root g fl /\
  (forall va', 0 <= va' < MAXVA ->
     pte_of (pa_mem s') g va' = if decide (va' / PGSIZE = va / PGSIZE) then v else pte_of (pa_mem s) g va') /\
  (forall a, ~ in_page t a -> rd (pa_mem s') a = rd (pa_mem s) a).
Proof.
  intros [W HF HD] Hva Ht Hv. pose proof (PX_range 0 va ltac:(lia)) as HX.
  pose proof (entry_in_page t (PX 0 va) HX) as HE. pose proof (pw_page _ _ _ W _ _ _ Ht) as Htp.
  unfold s'. rewrite pa_mem_set. set (m' := store64 _ _ _).
  assert (HL : forall lv k q j, g lv k = Some q -> 0 <= j < 512 ->
    load64 m' (q + 8 * j) = if decide (q = t /\ j = PX 0 va) then v else load64 (pa_mem s) (q + 8 * j)).
  { intros lv k q j Hq Hj. pose proof (entry_in_page q j Hj) as HEj. pose proof (pw_page _ _ _ W _ _ _ Hq) as Hqp.
    unfold m'. destruct (decide (q = t)) as [->|Hne].
    - rewrite load64_store64 by (done || lia). repeat case_decide; try done; lia.
    - pose proof (page_apart q t Hqp Htp Hne). rewrite load64_store64 by (done || lia).
      rewrite !decide_False by (lia || tauto). done. }
  split_and!.
  - split; rewrite ?pa_mem_set; [|  |done].
    + destruct W as [W1 W2 W3 W4 W5 W6]. split; try done. intros lv k q j Hl Hq Hj e. unfold e.
      rewrite (HL lv k q j Hq Hj), decide_False; [by apply W3|]. intros [-> _].
      destruct (W5 _ _ _ _ _ Ht Hq). lia.
    + apply (free_write_frame s fl _ (fun q => q = t)); [done|by intros ? ->|intros q Hq ->; apply (HD t Hq); by eexists _, _|].
      intros a Ha. unfold m'. apply rd_store64_out. specialize (Ha t eq_refl). unfold in_page in Ha. lia.
  - intros va' Hva'. unfold pte_of. pose proof (PX_range 0 va' ltac:(lia)) as HX'.
    destruct (decide (va' / PGSIZE = va / PGSIZE)) as [E|E].
    + destruct (leaf_index_page va' va E) as [-> ->]. rewrite Ht. rewrite (HL _ _ _ _ Ht) by done. by rewrite decide_True.
    + destruct (g 0 (table_key 0 va')) as [q|] eqn:Hq; [|done]. rewrite (HL _ _ _ _ Hq) by done.
      rewrite decide_False; [done|]. intros [-> EX]. apply E.
      destruct (pw_inj _ _ _ W _ _ _ _ _ Ht Hq). apply leaf_index_inj; done || lia.
  - intros a Ha. unfold m'. apply rd_store64_out. unfold in_page in Ha. lia.
Qed.

Lemma lor_flags a b : 0 <= a < 1024 -> 0 <= b < 1024 -> 0 <= Z.lor a b < 1024.
Proof.
  intros Ha Hb. assert (H0 : 0 <= Z.lor a b) by (apply Z.lor_nonneg; lia). split; [done|]. destruct (decide (Z.lor a b = 0)); [lia|].
  change 1024 with (2 ^ 10). apply Z.log2_lt_pow2; [lia|].
  rewrite Z.log2_lor by lia. apply Z.max_lub_lt.
  - destruct (decide (a = 0)) as [->|]; [done|]. apply Z.log2_lt_pow2; lia.
  - destruct (decide (b = 0)) as [->|]; [done|]. apply Z.log2_lt_pow2; lia.
Qed.

(** The entry [mappages] writes. *)
Definition leaf_pte (pa perm : Z) : Z := Z.lor (Z.lor (PA2PTE pa) perm) PTE_V.

Lemma leaf_pte_range pa perm : 0 <= pa < 2 ^ 56 -> 0 <= perm < 1024 -> 0 <= leaf_pte pa perm < 2 ^ 64.
Proof. intros. unfold leaf_pte. rewrite <- Z.lor_assoc. apply pte_range; [done|]. by apply lor_flags. Qed.

Lemma leaf_pte_pa pa perm :
  0 <= pa < 2 ^ 56 -> pa mod PGSIZE = 0 -> 0 <= perm < 1024 -> PTE2PA (leaf_pte pa perm) = pa.
Proof. intros. unfold leaf_pte. rewrite <- Z.lor_assoc. apply PTE2PA_mk; try done. by apply lor_flags. Qed.

(** The mapping of [n] pages at [va] to [pa] on top of the mapping [f]. *)
Definition map_range (f : Z -> Z) (va pa perm n : Z) (va' : Z) : Z :=
  if decide (va <= va' < va + n * PGSIZE) then leaf_pte (pa + (va' - va) / PGSIZE * PGSIZE) perm else f va'.

(** A step that may write page tables and take pages for them. *)
Record vm_step s s' g g' fl fl' : Prop := {
  vs_sub : forall lv k t, g lv k = Some t -> g' lv k = Some t;
  vs_new : exists nt, fl = nt ++ fl' /\ forall p, is_table g' p <-> is_table g p \/ p ∈ nt;
  vs_mem : forall a, (forall p, is_table g p -> ~ in_page p a) -> (forall p, p ∈ fl -> ~ in_page p a) ->
    rd (pa_mem s') a = rd (pa_mem s) a;
}.

Lemma vm_step_refl s g fl : vm_step s s g g fl fl.
Proof. split; try done. exists []. split; [done|]. set_solver. Qed.

Lemma vm_step_trans s1 s2 s3 g1 g2 g3 f1 f2 f3 :
  vm_step s1 s2 g1 g2 f1 f2 -> vm_step s2 s3 g2 g3 f2 f3 -> vm_step s1 s3 g1 g3 f1 f3.
Proof.
  intros [A1 (n1 & A3 & A4) A5] [B1 (n2 & B3 & B4) B5]. split.
  - auto.
  - exists (n1 ++ n2). subst. split; [by rewrite app_assoc|]. intros p. rewrite B4, A4. set_solver.
  - intros a H1 H2. rewrite B5, A5; try done.
    + intros p [?|?]%A4; [by apply H1|apply H2; set_solver].
    + intros p Hp. apply H2. set_solver.
Qed.

Lemma vm_ext_step s s' g g' fl fl' : vm_ext s s' g g' fl fl' -> vm_step s s' g g' fl fl'.
Proof. intros []. by split. Qed.

Lemma set_leaf_step s root g fl va t v :
  vm_wf s root g fl -> g 0 (table_key 0 va) = Some t ->
  (forall a, ~ in_page t a -> rd (pa_mem (pa_set_mem (store64 (pa_mem s) (t + 8 * PX 0 va) v) s)) a = rd (pa_mem s) a) ->
  vm_step s (pa_set_mem (store64 (pa_mem s) (t + 8 * PX 0 va) v) s) g g fl fl.
Proof.
  intros VW Ht HM. split; try done; [exists []; split; [done|set_solver]|].
  intros a H1 _. apply HM. apply H1. by eexists _, _.
Qed.

(** One round of [mappages]: the page at [va] gets an entry, or memory is out. *)
Lemma map_one s root g fl va pa perm :
  vm_wf s root g fl -> 0 <= va < MAXVA -> va mod PGSIZE = 0 -> 0 <= pa < 2 ^ 56 -> 0 <= perm < 1024 ->
  has (pte_of (pa_mem s) g va) PTE_V = false ->
  runs (let! pte_a := walk root va true in
        if pte_a =? 0 then ret (Some (-1))
        else let! pte := ld64 pte_a in
             if has pte PTE_V then panic "mappages: remap"
             else st64 pte_a (leaf_pte pa perm) ;; ret None) s
    (fun r s' => exists g' fl', vm_wf s' root g' fl' /\ vm_step s s' g g' fl fl' /\
       match r with
       | Some e => e = -1 /\ fl' = [] /\
           forall va', 0 <= va' < MAXVA -> pte_of (pa_mem s') g' va' = pte_of (pa_mem s) g va'
       | None => forall va', 0 <= va' < MAXVA ->
           pte_of (pa_mem s') g' va' = map_range (pte_of (pa_mem s) g) va pa perm 1 va'
       end).
Proof.
  intros VW Hva Hal Hpa Hperm Hinv. eapply runs_seq; [by apply (walk_true s root g fl va)|].
  intros r s1 (g1 & fl1 & VW1 & VE & [[-> ->]|(Hr & t & Ht & ->)]).
  - cbn [Z.eqb]. mstep. exists g1, []. split_and!; try done; [by apply vm_ext_step|]. apply VE.
  - rewrite (proj2 (Z.eqb_neq _ _)) by done. unfold ld64. mstep.
    assert (E : load64 (pa_mem s1) (t + 8 * PX 0 va) = pte_of (pa_mem s1) g1 va) by (unfold pte_of; by rewrite Ht).
    rewrite E, (ve_pte _ _ _ _ _ _ VE), Hinv by done. unfold st64. mstep. mstep.
    destruct (set_leaf s1 root g1 fl1 va t (leaf_pte pa perm) VW1 Hva Ht) as (VW2 & HP & HM); [by apply leaf_pte_range|].
    exists g1, fl1. split_and!; try done.
    + eapply vm_step_trans; [by apply vm_ext_step|]. by eapply set_leaf_step.
    + intros va' Hva'. rewrite HP, (ve_pte _ _ _ _ _ _ VE) by done. unfold map_range.
      assert (Hiff : va' / PGSIZE = va / PGSIZE <-> va <= va' < va + 1 * PGSIZE) by (unfold PGSIZE in *; dlia).
      destruct (decide (va' / PGSIZE = va / PGSIZE)) as [H|H]; [rewrite decide_True by tauto|by rewrite decide_False by tauto].
      do 2 f_equal. assert ((va' - va) / PGSIZE = 0) as ->; [|lia]. unfold PGSIZE in *. dlia.
Qed.

Lemma mappages_run s root g fl va size pa perm (n := size / PGSIZE) :
  vm_wf s root g fl -> va mod PGSIZE = 0 -> size mod PGSIZE = 0 -> 0 < size ->
  0 <= va -> va + size <= MAXVA -> pa mod PGSIZE = 0 -> 0 <= pa -> pa + size <= 2 ^ 56 -> 0 <= perm < 1024 ->
  (forall va', va <= va' < va + size -> has (pte_of (pa_mem s) g va') PTE_V = false) ->
  runs (mappages root va size pa perm) s (fun r s' => exists g' fl' k,
    vm_wf s' root g' fl' /\ vm_step s s' g g' fl fl' /\
    (r = 0 /\ k = n \/ r = -1 /\ 0 <= k < n /\ fl' = []) /\
    forall va', 0 <= va' < MAXVA -> pte_of (pa_mem s') g' va' = map_range (pte_of (pa_mem s) g) va pa perm k va').
Proof.
  intros VW Hva Hsz Hpos H0 Hmax Hpa Hpa0 Hpam Hperm Hinv. unfold mappages.
  rewrite (proj2 (Z.eqb_eq _ _) Hva), (proj2 (Z.eqb_eq _ _) Hsz), (proj2 (Z.eqb_neq size 0)) by lia. cbn [negb].
  assert (Hsn : size = n * PGSIZE) by (unfold n, PGSIZE in *; dlia).
  assert (HMX : MAXVA = 2 ^ 38) by done.
  eapply (runs_seq _ _ s (fun r s' => exists g' fl' k, vm_wf s' root g' fl' /\ vm_step s s' g g' fl fl' /\
    (r = None /\ k = n \/ r = Some (-1) /\ 0 <= k < n /\ fl' = []) /\
    forall va', 0 <= va' < MAXVA -> pte_of (pa_mem s') g' va' = map_range (pte_of (pa_mem s) g) va pa perm k va')).
  2:{ intros r s' (g' & fl' & k & A1 & A2 & A3 & A4). mstep. exists g', fl', k. split_and!; try done.
      destruct A3 as [[-> ->]|(-> & ?)]; [by left|by right]. }
  apply (runs_forn _ _ _ _ (fun k s' => exists g' fl', vm_wf s' root g' fl' /\ vm_step s s' g g' fl fl' /\
    forall va', 0 <= va' < MAXVA -> pte_of (pa_mem s') g' va' = map_range (pte_of (pa_mem s) g) va pa perm (Z.of_nat k) va')).
  - exists g, fl. split_and!; [done|apply vm_step_refl|]. intros va' Hv'. unfold map_range. by rewrite decide_False by lia.
  - intros k s1 Hk (g1 & fl1 & VW1 & VS1 & HP1). set (o := 0 + PGSIZE * Z.of_nat k).
    assert (Ho : 0 <= o /\ o + PGSIZE <= size) by (unfold o, n, PGSIZE in *; dlia).
    rewrite !u64_small by (unfold PGSIZE in *; lia).
    eapply runs_mono; [apply (map_one s1 root g1 fl1 (va + o) (pa + o) perm VW1)|].
    + unfold PGSIZE in *; lia.
    + unfold o, PGSIZE in *; dlia.
    + unfold PGSIZE in *; lia.
    + done.
    + rewrite HP1 by (unfold PGSIZE in *; lia). unfold map_range. rewrite decide_False by (unfold o, PGSIZE in *; lia).
      apply Hinv. unfold PGSIZE in *; lia.
    + intros [e|] s2 (g2 & fl2 & VW2 & VS2 & HR).
      * destruct HR as (-> & -> & HP2). exists g2, [], (Z.of_nat k). split_and!; [done|by eapply vm_step_trans|right; split_and!; try done; lia|].
        intros va' Hv'. rewrite HP2, HP1 by done. done.
      * exists g2, fl2. split_and!; [done|by eapply vm_step_trans|]. intros va' Hv'. rewrite HR by done.
        unfold map_range at 1. destruct (decide (va + o <= va' < va + o + 1 * PGSIZE)) as [Hin|Hout].
        -- unfold map_range. rewrite decide_True by (unfold o, PGSIZE in *; lia). f_equal. unfold o, PGSIZE in *. dlia.
        -- rewrite HP1 by done. unfold map_range, o, PGSIZE in *. repeat case_decide; done || lia.
  - intros s1 (g1 & fl1 & VW1 & VS1 & HP1). exists g1, fl1, n. split_and!; [done|done|by left|].
    intros va' Hv'. rewrite HP1 by done. rewrite Z2Nat.id by (apply Z.div_pos; unfold PGSIZE in *; lia). done.
Qed.
(** ** Lemmas: user memory *)
Definition user_pte (e : Z) : bool := has e PTE_V && has e PTE_U.

(** The physical address a user virtual address denotes. *)
Definition phys (m : mem) g va : Z := PTE2PA (pte_of m g va) + va mod PGSIZE.

(** User pages are pages of their own: not tables, not free, not shared. *)
Record user_ok s g fl : Prop := {
  uo_page : forall va, 0 <= va < MAXVA -> user_pte (pte_of (pa_mem s) g va) = true ->
    let p := PTE2PA (pte_of (pa_mem s) g va) in pa_page p /\ ~ is_table g p /\ p ∉ fl;
  uo_inj : forall va va', 0 <= va < MAXVA -> 0 <= va' < MAXVA ->
    user_pte (pte_of (pa_mem s) g va) = true -> user_pte (pte_of (pa_mem s) g va') = true ->
    PTE2PA (pte_of (pa_mem s) g va) = PTE2PA (pte_of (pa_mem s) g va') -> va / PGSIZE = va' / PGSIZE;
}.

Lemma pte_of_page m g va va' : va / PGSIZE = va' / PGSIZE -> pte_of m g va = pte_of m g va'.
Proof. intros H. unfold pte_of. by destruct (leaf_index_page va va' H) as [-> ->]. Qed.

Lemma walkaddr_eq s root g fl va :
  vm_wf s root g fl -> 0 <= va < MAXVA ->
  walkaddr root va s = (Ret (if user_pte (pte_of (pa_mem s) g va) then PTE2PA (pte_of (pa_mem s) g va) else 0), s).
Proof.
  intros VW Hva. unfold walkaddr. rewrite (proj2 (Z.leb_gt _ _)) by lia. unfold bind at 1.
  rewrite (walk_false s root g fl va VW Hva). unfold user_pte, pte_of.
  destruct (g 0 (table_key 0 va)) as [t|] eqn:Ht; [|by rewrite has_0].
  pose proof (PX_range 0 va ltac:(lia)). pose proof (vw_tree _ _ _ _ VW) as W.
  destruct (pa_page_bounds t (pw_page _ _ _ W _ _ _ Ht)) as (B1 & _ & _).
  rewrite (proj2 (Z.eqb_neq _ _)) by lia. unfold bind, ld64, gets.
  destruct (has _ PTE_V); [|done]. cbn [andb negb]. by destruct (has _ PTE_U).
Qed.

(** A write outside the tables and the free pages keeps everything. *)
Lemma vm_data_write s root g fl m' :
  vm_wf s root g fl ->
  (forall p a, is_table g p \/ p ∈ fl -> in_page p a -> rd m' a = rd (pa_mem s) a) ->
  vm_wf (pa_set_mem m' s) root g fl /\ forall va, pte_of m' g va = pte_of (pa_mem s) g va.
Proof.
  intros [W HF HD] HM.
  assert (HL : forall lv k q j, g lv k = Some q -> 0 <= j < 512 -> load64 m' (q + 8 * j) = load64 (pa_mem s) (q + 8 * j)).
  { intros lv k q j Hq Hj. apply load64_ext. intros i Hi. apply (HM q i); [left; by exists lv, k|].
    pose proof (entry_in_page q j Hj). unfold in_page. lia. }
  split.
  - split; [|apply pa_write_frame; [done|]|done].
    + rewrite pa_mem_set. destruct W as [W1 W2 W3 W4 W5 W6]. split; try done.
      intros lv k q j Hl Hq Hj e. unfold e. rewrite (HL lv k q j Hq Hj). by apply W3.
    + intros p a Hp Ha. apply (HM p a); [by right|done].
  - intros va. unfold pte_of. destruct (g 0 (table_key 0 va)) as [t|] eqn:Ht; [|done].
    apply (HL _ _ _ _ Ht). apply PX_range. lia.
Qed.

Lemma user_ok_write s g fl m' :
  user_ok s g fl -> (forall va, pte_of m' g va = pte_of (pa_mem s) g va) -> user_ok (pa_set_mem m' s) g fl.
Proof. intros [U1 U2] HP. split; rewrite pa_mem_set; intros *; rewrite !HP; [apply U1|apply U2]. Qed.

(** A user page is disjoint from every table and every free page. *)
Lemma user_page_disj s root g fl va p :
  vm_wf s root g fl -> user_ok s g fl -> 0 <= va < MAXVA -> user_pte (pte_of (pa_mem s) g va) = true ->
  is_table g p \/ p ∈ fl -> let q := PTE2PA (pte_of (pa_mem s) g va) in p + PGSIZE <= q \/ q + PGSIZE <= p.
Proof.
  intros [W HF _] [U1 _] Hva Hu Hp q. destruct (U1 va Hva Hu) as (Hq & Hnt & Hnf). fold q in Hq, Hnt, Hnf.
  destruct (pa_free_pages s fl HF) as [_ HFp]. rewrite Forall_forall in HFp. destruct Hp as [Hp|Hp].
  - apply page_apart; [destruct Hp as (lv & k & Hp); by eapply pw_page|done|]. by intros ->.
  - apply page_apart; [by apply HFp|done|]. by intros ->.
Qed.
(** The user may write at [va] (for [copyout]), or read there (for [copyin]). *)
Definition can_write (m : mem) g va : bool := (va <? MAXVA) && user_pte (pte_of m g va) && has (pte_of m g va) PTE_W.
Definition can_read (m : mem) g va : bool := (va <? MAXVA) && user_pte (pte_of m g va).

Lemma phys_inj s g fl va va' :
  user_ok s g fl -> 0 <= va < MAXVA -> 0 <= va' < MAXVA ->
  user_pte (pte_of (pa_mem s) g va) = true -> user_pte (pte_of (pa_mem s) g va') = true ->
  phys (pa_mem s) g va = phys (pa_mem s) g va' -> va = va'.
Proof.
  intros [U1 U2] Hv Hv' Hu Hu' E. unfold phys in E.
  destruct (U1 va Hv Hu) as ((_ & A1 & _)%pa_page_bounds & _). destruct (U1 va' Hv' Hu') as ((_ & A2 & _)%pa_page_bounds & _).
  assert (EP : PTE2PA (pte_of (pa_mem s) g va) = PTE2PA (pte_of (pa_mem s) g va')) by (unfold PGSIZE in *; dlia).
  specialize (U2 va va' Hv Hv' Hu Hu' EP). unfold PGSIZE in *. dlia.
Qed.

Lemma PGROUNDDOWN_spec a : 0 <= a < 2 ^ 64 -> PGROUNDDOWN a = a - a mod PGSIZE.
Proof. apply PGROUNDDOWN_eq. Qed.

Lemma same_page_phys m g va i :
  0 <= va -> 0 <= i -> va mod PGSIZE + i < PGSIZE ->
  pte_of m g (va + i) = pte_of m g va /\ phys m g (va + i) = PTE2PA (pte_of m g va) + va mod PGSIZE + i.
Proof.
  intros Hv Hi Hp. assert (E : pte_of m g (va + i) = pte_of m g va) by (apply pte_of_page; unfold PGSIZE in *; dlia).
  split; [done|]. unfold phys. rewrite E. unfold PGSIZE in *. dlia.
Qed.

(** What [copyout] has done after [k] bytes. *)
Record copied s s' root g fl dstva src k : Prop := {
  cd_wf : vm_wf s' root g fl;
  cd_user : user_ok s' g fl;
  cd_pte : forall va, pte_of (pa_mem s') g va = pte_of (pa_mem s) g va;
  cd_ok : forall i, 0 <= i < k -> can_write (pa_mem s) g (dstva + i) = true;
  cd_bytes : forall i, 0 <= i < k -> rd (pa_mem s') (phys (pa_mem s) g (dstva + i)) = rd (pa_mem s) (src + i);
  cd_frame : forall a, (forall i, 0 <= i < k -> a <> phys (pa_mem s) g (dstva + i)) -> rd (pa_mem s') a = rd (pa_mem s) a;
}.

Lemma copied_ext s s1 s2 root g fl dstva src n k :
  copied s s1 root g fl dstva src n -> copied s1 s2 root g fl (dstva + n) (src + n) k ->
  user_ok s g fl -> 0 <= dstva -> 0 <= n -> 0 <= k ->
  (forall i, n <= i < n + k -> rd (pa_mem s1) (src + i) = rd (pa_mem s) (src + i)) ->
  copied s s2 root g fl dstva src (n + k).
Proof.
  intros [A1 A2 A3 A4 A5 A6] [B1 B2 B3 B4 B5 B6] HU Hd Hn Hk HS.
  assert (HP : forall va, phys (pa_mem s1) g va = phys (pa_mem s) g va) by (intros va; unfold phys; by rewrite A3).
  assert (HW : forall va, can_write (pa_mem s1) g va = can_write (pa_mem s) g va) by (intros va; unfold can_write; by rewrite A3).
  assert (Hok : forall i, 0 <= i < n + k -> can_write (pa_mem s) g (dstva + i) = true).
  { intros i Hi. destruct (decide (i < n)); [apply A4; lia|]. rewrite <- HW.
    replace (dstva + i) with (dstva + n + (i - n)) by lia. apply B4. lia. }
  assert (Hcw : forall i, 0 <= i < n + k -> 0 <= dstva + i < MAXVA /\ user_pte (pte_of (pa_mem s) g (dstva + i)) = true).
  { intros i Hi. specialize (Hok i Hi). unfold can_write in Hok. rewrite !andb_true_iff, Z.ltb_lt in Hok. split; [lia|tauto]. }
  split; try done.
  - intros va. by rewrite B3, A3.
  - intros i Hi. destruct (decide (i < n)).
    + rewrite B6; [apply A5; lia|]. intros j Hj E. rewrite HP in E. destruct (Hcw i Hi), (Hcw (n + j) ltac:(lia)) as [? ?].
      apply (phys_inj s g fl) in E; try done; try lia; replace (dstva + n + j) with (dstva + (n + j)) by lia; done.
    + rewrite <- HS by lia. rewrite <- HP. replace (dstva + i) with (dstva + n + (i - n)) by lia.
      rewrite B5 by lia. f_equal. lia.
  - intros a Ha. rewrite B6, A6; [done| |].
    + intros i Hi. apply Ha. lia.
    + intros i Hi. rewrite HP. replace (dstva + n + i) with (dstva + (n + i)) by lia. apply Ha. lia.
Qed.

(** One round of [copyout]: [n] bytes within one page. *)
Lemma copied_chunk s root g fl dstva src n (e := pte_of (pa_mem s) g dstva) :
  vm_wf s root g fl -> user_ok s g fl -> 0 <= dstva -> can_write (pa_mem s) g dstva = true ->
  0 <= n -> dstva mod PGSIZE + n <= PGSIZE -> 
  copied s (pa_set_mem (memmove (pa_mem s) (PTE2PA e + dstva mod PGSIZE) src n) s) root g fl dstva src n.
Proof.
  intros VW HU Hd HC Hn Hpg. pose proof HC as HC'. unfold can_write in HC'. rewrite !andb_true_iff, Z.ltb_lt in HC'.
  destruct HC' as [[Hlt Hu] Hw]. fold e in Hu, Hw.
  assert (Hmod : 0 <= dstva mod PGSIZE < PGSIZE) by (apply Z.mod_pos_bound; unfold PGSIZE; lia).
  set (m' := memmove _ _ _ _).
  destruct (vm_data_write s root g fl m' VW) as [VW' HP].
  { intros p a Hp Ha. unfold m'. rewrite rd_memmove, decide_False; [done| |done].
    pose proof (user_page_disj s root g fl dstva p VW HU ltac:(lia) Hu Hp) as HD. cbv zeta in HD. fold e in HD.
    unfold in_page in Ha. lia. }
  assert (HH : forall i, 0 <= i < n -> pte_of (pa_mem s) g (dstva + i) = e /\ phys (pa_mem s) g (dstva + i) = PTE2PA e + dstva mod PGSIZE + i).
  { intros i Hi. apply same_page_phys; lia. }
  split.
  - done.
  - by apply user_ok_write.
  - intros va. by rewrite pa_mem_set, HP.
  - intros i Hi. unfold can_write. destruct (HH i Hi) as [-> _]. rewrite Hu, Hw, !andb_true_r. apply Z.ltb_lt.
    change MAXVA with (2 ^ 38) in *. unfold PGSIZE in *. dlia.
  - intros i Hi. rewrite pa_mem_set. destruct (HH i Hi) as [_ ->]. unfold m'. rewrite rd_memmove, decide_True by lia.
    f_equal. lia.
  - intros a Ha. rewrite pa_mem_set. unfold m'. rewrite rd_memmove, decide_False; [done| |done]. intros Hin.
    apply (Ha (a - (PTE2PA e + dstva mod PGSIZE))); [lia|]. destruct (HH (a - (PTE2PA e + dstva mod PGSIZE)) ltac:(lia)) as [_ ->]. lia.
Qed.

Lemma copyout_loop_run fuel s root g fl dstva src len :
  vm_wf s root g fl -> user_ok s g fl -> 0 <= dstva < 2 ^ 64 -> 0 <= len ->
  (dstva mod PGSIZE + len + PGSIZE - 1) / PGSIZE < Z.of_nat fuel ->
  (forall i va, 0 <= i < len -> 0 <= va < MAXVA -> user_pte (pte_of (pa_mem s) g va) = true ->
     ~ in_page (PTE2PA (pte_of (pa_mem s) g va)) (src + i)) ->
  runs (copyout_loop fuel root dstva src len) s (fun r s' => exists k, 0 <= k <= len /\
    copied s s' root g fl dstva src k /\
    (r = 0 /\ k = len \/ r = -1 /\ k < len /\ can_write (pa_mem s) g (dstva + k) = false)).
Proof.
  revert s dstva src len. induction fuel as [|fuel IH]; intros s dstva src len VW HU Hd Hlen Hf Hsrc.
  { exfalso. assert (0 <= (dstva mod PGSIZE + len + PGSIZE - 1) / PGSIZE); [|lia].
    apply Z.div_pos; [|unfold PGSIZE; lia]. pose proof (Z.mod_pos_bound dstva PGSIZE ltac:(done)). unfold PGSIZE in *. lia. }
  assert (Hzero : copied s s root g fl dstva src 0) by (split; try done; intros; lia).
  cbn [copyout_loop]. destruct (Z.ltb_spec 0 len) as [Hl|Hl].
  2:{ mstep. exists 0. split_and!; [lia|lia|done|lia]. }
  rewrite PGROUNDDOWN_spec by done. set (off := dstva mod PGSIZE).
  assert (Hoff : 0 <= off < PGSIZE) by (apply Z.mod_pos_bound; unfold PGSIZE; lia).
  destruct (Z.leb_spec MAXVA (dstva - off)) as [Hm|Hm].
  { mstep. exists 0. split_and!; try lia; [done|]. right. split_and!; [done|lia|]. rewrite Z.add_0_r.
    unfold can_write. rewrite (proj2 (Z.ltb_ge _ _)) by lia. done. }
  assert (Hlt : dstva < MAXVA) by (unfold off in *; change MAXVA with (2 ^ 38) in *; unfold PGSIZE in *; dlia).
  assert (Hpg : pte_of (pa_mem s) g (dstva - off) = pte_of (pa_mem s) g dstva) by (apply pte_of_page; unfold off, PGSIZE; dlia).
  assert (Hva0 : 0 <= dstva - off < MAXVA) by (unfold off, PGSIZE in *; dlia).
  apply runs_bind. eapply runs_eq; [by apply (walk_false s root g fl)|].
  unfold pte_of in Hpg at 1.
  destruct (g 0 (table_key 0 (dstva - off))) as [t|] eqn:Ht.
  2:{ cbn [Z.eqb]. mstep. exists 0. split_and!; try lia; [done|]. right. split_and!; [done|lia|]. rewrite Z.add_0_r.
      unfold can_write, user_pte. rewrite <- Hpg, has_0. by rewrite andb_false_r. }
  destruct (pa_page_bounds t (pw_page _ _ _ (vw_tree _ _ _ _ VW) _ _ _ Ht)) as (B1 & _ & _).
  pose proof (PX_range 0 (dstva - off) ltac:(lia)). rewrite (proj2 (Z.eqb_neq _ _)) by lia.
  unfold ld64. mstep. rewrite Hpg. set (e := pte_of (pa_mem s) g dstva).
  destruct (can_write (pa_mem s) g dstva) eqn:HC.
  - pose proof HC as HC'. unfold can_write, user_pte in HC'. fold e in HC'. rewrite !andb_true_iff in HC'.
    destruct HC' as [[_ [-> ->]] ->]. cbn [negb orb]. unfold vm_memmove. mstep.
    replace (dstva - (dstva - off)) with off by lia. set (n := (PGSIZE - off) `min` len).
    pose proof (copied_chunk s root g fl dstva src n VW HU ltac:(lia) HC ltac:(lia) ltac:(unfold off in *; lia)) as HK.
    fold e off in HK. set (s1 := pa_set_mem _ s) in *. pose proof HK as [K1 K2 K3 K4 K5 K6].
    rewrite u64_small by (change MAXVA with (2 ^ 38) in *; unfold PGSIZE in *; lia).
    assert (HS1 : forall i, 0 <= i < len -> rd (pa_mem s1) (src + i) = rd (pa_mem s) (src + i)).
    { intros i Hi. apply K6. intros j Hj E. apply (Hsrc i dstva Hi ltac:(lia)).
      - unfold can_write in HC. rewrite !andb_true_iff in HC. tauto.
      - rewrite E. destruct (same_page_phys (pa_mem s) g dstva j ltac:(lia) ltac:(lia) ltac:(unfold off in *; lia)) as [_ ->].
        unfold in_page. fold off. lia. }
    destruct (decide (len <= PGSIZE - off)) as [Hlast|Hmore].
    + assert (n = len) by lia. replace (len - n) with 0 by lia. destruct fuel as [|fuel].
      { exfalso. assert (1 <= (off + len + PGSIZE - 1) / PGSIZE); [|unfold off in *; lia].
        apply Z.div_le_lower_bound; unfold PGSIZE in *; lia. }
      cbn [copyout_loop]. cbn [Z.ltb Z.compare]. mstep. exists n. split_and!; [lia|lia|done|lia].
    + assert (Hn : n = PGSIZE - off) by lia.
      eapply runs_mono; [apply (IH s1 (dstva - off + PGSIZE) (src + n) (len - n) K1 K2)|].
      * change MAXVA with (2 ^ 38) in *. unfold PGSIZE in *. lia.
      * lia.
      * replace ((dstva - off + PGSIZE) mod PGSIZE) with 0 by (unfold off, PGSIZE; dlia).
        assert (off + len + PGSIZE - 1 = (0 + (len - n) + PGSIZE - 1) + 1 * PGSIZE) as E by lia.
        unfold off in E at 1. rewrite E, Z.div_add in Hf by (unfold PGSIZE; lia). lia.
      * intros i va Hi Hva Hu. rewrite !K3 in *. replace (src + n + i) with (src + (n + i)) by lia. apply Hsrc; [lia|done|done].
      * intros r s2 (k & Hk & HK2 & HR). replace (dstva - off + PGSIZE) with (dstva + n) in * by lia.
        exists (n + k). split_and!; try lia.
        -- eapply copied_ext; try done; try lia. intros i Hi. apply HS1. lia.
        -- destruct HR as [[-> ->]|(-> & H1 & H2)]; [left; lia|right]. split_and!; [done|lia|].
           replace (dstva + (n + k)) with (dstva + n + k) by lia. rewrite <- H2. unfold can_write. by rewrite K3.
  - unfold can_write, user_pte in HC. fold e in HC. rewrite (proj2 (Z.ltb_lt _ _)) in HC by done. cbn [andb] in HC.
    assert (negb (has e PTE_V) || negb (has e PTE_U) || negb (has e PTE_W) = true) as ->.
    { by destruct (has e PTE_V), (has e PTE_U), (has e PTE_W). }
    mstep. exists 0. split_and!; try lia; [done|]. right. split_and!; [done|lia|]. rewrite Z.add_0_r.
    unfold can_write, user_pte. fold e. rewrite (proj2 (Z.ltb_lt _ _)) by done. exact HC.
Qed.
(** Kernel memory that is no page table, no free page and no user page. *)
Definition kernel_range s g fl lo n : Prop :=
  forall a, lo <= a < lo + n ->
    (forall p, is_table g p \/ p ∈ fl -> ~ in_page p a) /\
    (forall va, 0 <= va < MAXVA -> user_pte (pte_of (pa_mem s) g va) = true ->
       ~ in_page (PTE2PA (pte_of (pa_mem s) g va)) a).

(** What [copyin] has done after [k] bytes. *)
Record fetched s s' root g fl dst srcva k : Prop := {
  fd_wf : vm_wf s' root g fl;
  fd_user : user_ok s' g fl;
  fd_pte : forall va, pte_of (pa_mem s') g va = pte_of (pa_mem s) g va;
  fd_ok : forall i, 0 <= i < k -> can_read (pa_mem s) g (srcva + i) = true;
  fd_bytes : forall i, 0 <= i < k -> rd (pa_mem s') (dst + i) = rd (pa_mem s) (phys (pa_mem s) g (srcva + i));
  fd_frame : only_changes dst k (pa_mem s) (pa_mem s');
}.

Lemma fetched_chunk s root g fl dst srcva n (e := pte_of (pa_mem s) g srcva) :
  vm_wf s root g fl -> user_ok s g fl -> 0 <= srcva -> can_read (pa_mem s) g srcva = true ->
  0 <= n -> srcva mod PGSIZE + n <= PGSIZE -> kernel_range s g fl dst n ->
  fetched s (pa_set_mem (memmove (pa_mem s) dst (PTE2PA e + srcva mod PGSIZE) n) s) root g fl dst srcva n.
Proof.
  intros VW HU Hd HC Hn Hpg HK. unfold can_read in HC. rewrite !andb_true_iff, Z.ltb_lt in HC. destruct HC as [Hlt Hu].
  assert (Hmod : 0 <= srcva mod PGSIZE < PGSIZE) by (apply Z.mod_pos_bound; unfold PGSIZE; lia).
  set (m' := memmove _ _ _ _).
  destruct (vm_data_write s root g fl m' VW) as [VW' HP].
  { intros p a Hp Ha. unfold m'. rewrite rd_memmove, decide_False; [done| |done]. intros Hin.
    destruct (HK a Hin) as [H1 _]. by apply (H1 p). }
  assert (HH : forall i, 0 <= i < n -> pte_of (pa_mem s) g (srcva + i) = e /\ phys (pa_mem s) g (srcva + i) = PTE2PA e + srcva mod PGSIZE + i).
  { intros i Hi. apply same_page_phys; lia. }
  split; rewrite ?pa_mem_set; try done.
  - by apply user_ok_write.
  - intros i Hi. unfold can_read. destruct (HH i Hi) as [-> _]. fold e in Hu. rewrite Hu, andb_true_r. apply Z.ltb_lt.
    change MAXVA with (2 ^ 38) in *. unfold PGSIZE in *. dlia.
  - intros i Hi. destruct (HH i Hi) as [_ ->]. unfold m'. rewrite rd_memmove, decide_True by lia. f_equal. lia.
  - intros a Ha. unfold m'. by rewrite rd_memmove, decide_False.
Qed.

Lemma fetched_ext s s1 s2 root g fl dst srcva n k :
  fetched s s1 root g fl dst srcva n -> fetched s1 s2 root g fl (dst + n) (srcva + n) k ->
  0 <= srcva -> 0 <= n -> 0 <= k -> kernel_range s g fl dst n ->
  fetched s s2 root g fl dst srcva (n + k).
Proof.
  intros [A1 A2 A3 A4 A5 A6] [B1 B2 B3 B4 B5 B6] Hd Hn Hk HR.
  assert (HP : forall va, phys (pa_mem s1) g va = phys (pa_mem s) g va) by (intros va; unfold phys; by rewrite A3).
  assert (HW : forall va, can_read (pa_mem s1) g va = can_read (pa_mem s) g va) by (intros va; unfold can_read; by rewrite A3).
  assert (Hok : forall i, 0 <= i < n + k -> can_read (pa_mem s) g (srcva + i) = true).
  { intros i Hi. destruct (decide (i < n)); [apply A4; lia|]. rewrite <- HW.
    replace (srcva + i) with (srcva + n + (i - n)) by lia. apply B4. lia. }
  split; try done.
  - intros va. by rewrite B3, A3.
  - intros i Hi. destruct (decide (i < n)).
    + rewrite B6 by lia. apply A5. lia.
    + replace (dst + i) with (dst + n + (i - n)) by lia. rewrite B5 by lia. rewrite HP.
      replace (srcva + n + (i - n)) with (srcva + i) by lia. apply A6.
      specialize (Hok i Hi). unfold can_read in Hok. rewrite andb_true_iff, Z.ltb_lt in Hok. destruct Hok as [Hlt Hu].
      intros Hin. destruct (HR _ Hin) as [_ H2]. apply (H2 (srcva + i) ltac:(lia) Hu).
      unfold in_page, phys. pose proof (Z.mod_pos_bound (srcva + i) PGSIZE ltac:(done)). lia.
  - intros a Ha. rewrite B6 by lia. apply A6. lia.
Qed.

Lemma copyin_loop_run fuel s root g fl dst srcva len :
  vm_wf s root g fl -> user_ok s g fl -> 0 <= srcva < 2 ^ 64 -> 0 <= len ->
  (srcva mod PGSIZE + len + PGSIZE - 1) / PGSIZE < Z.of_nat fuel -> kernel_range s g fl dst len ->
  runs (copyin_loop fuel root dst srcva len) s (fun r s' => exists k, 0 <= k <= len /\
    fetched s s' root g fl dst srcva k /\
    (r = 0 /\ k = len \/ r = -1 /\ k < len /\ can_read (pa_mem s) g (srcva + k) = false)).
Proof.
  revert s dst srcva len. induction fuel as [|fuel IH]; intros s dst srcva len VW HU Hd Hlen Hf HKR.
  { exfalso. assert (0 <= (srcva mod PGSIZE + len + PGSIZE - 1) / PGSIZE); [|lia].
    apply Z.div_pos; [|unfold PGSIZE; lia]. pose proof (Z.mod_pos_bound srcva PGSIZE ltac:(done)). unfold PGSIZE in *. lia. }
  assert (Hzero : fetched s s root g fl dst srcva 0) by (split; try done; intros; lia).
  cbn [copyin_loop]. destruct (Z.ltb_spec 0 len) as [Hl|Hl].
  2:{ mstep. exists 0. split_and!; [lia|lia|done|lia]. }
  rewrite PGROUNDDOWN_spec by done. set (off := srcva mod PGSIZE).
  assert (Hoff : 0 <= off < PGSIZE) by (apply Z.mod_pos_bound; unfold PGSIZE; lia).
  assert (Hwa : walkaddr root (srcva - off) s =
    (Ret (if can_read (pa_mem s) g srcva then PTE2PA (pte_of (pa_mem s) g srcva) else 0), s)).
  { destruct (Z.leb_spec MAXVA (srcva - off)) as [Hm|Hm].
    - unfold walkaddr. rewrite (proj2 (Z.leb_le _ _)) by done. unfold can_read. by rewrite (proj2 (Z.ltb_ge _ _)) by lia.
    - assert (srcva < MAXVA) by (unfold off in *; change MAXVA with (2 ^ 38) in *; unfold PGSIZE in *; dlia).
      rewrite (walkaddr_eq s root g fl) by (done || unfold off, PGSIZE in *; dlia).
      rewrite (pte_of_page _ _ (srcva - off) srcva) by (unfold off, PGSIZE; dlia).
      unfold can_read. by rewrite (proj2 (Z.ltb_lt _ _)). }
  apply runs_bind. eapply runs_eq; [exact Hwa|]. destruct (can_read (pa_mem s) g srcva) eqn:HC.
  2:{ cbn [Z.eqb]. mstep. exists 0. split_and!; [lia|lia|done|right]. rewrite Z.add_0_r. split_and!; [done|lia|done]. }
  pose proof HC as HC'. unfold can_read in HC'. rewrite !andb_true_iff, Z.ltb_lt in HC'. destruct HC' as [Hlt Hu].
  destruct (uo_page _ _ _ HU srcva ltac:(lia) Hu) as ((B1 & _ & _)%pa_page_bounds & _).
  rewrite (proj2 (Z.eqb_neq _ _)) by lia. unfold vm_memmove. mstep.
  replace (srcva - (srcva - off)) with off by lia. set (n := (PGSIZE - off) `min` len).
  assert (HKn : kernel_range s g fl dst n) by (intros a Ha; apply HKR; lia).
  pose proof (fetched_chunk s root g fl dst srcva n VW HU ltac:(lia) HC ltac:(lia) ltac:(unfold off in *; lia) HKn) as HK.
  fold off in HK. set (s1 := pa_set_mem _ s) in *. pose proof HK as [K1 K2 K3 K4 K5 K6].
  rewrite u64_small by (change MAXVA with (2 ^ 38) in *; unfold PGSIZE in *; lia).
  destruct (decide (len <= PGSIZE - off)) as [Hlast|Hmore].
  - replace (len - n) with 0 by lia. destruct fuel as [|fuel].
    { exfalso. assert (1 <= (off + len + PGSIZE - 1) / PGSIZE); [|unfold off in *; lia].
      apply Z.div_le_lower_bound; unfold PGSIZE in *; lia. }
    cbn [copyin_loop]. cbn [Z.ltb Z.compare]. mstep. exists n. split_and!; [lia|lia|done|lia].
  - eapply runs_mono; [apply (IH s1 (dst + n) (srcva - off + PGSIZE) (len - n) K1 K2)|].
    + change MAXVA with (2 ^ 38) in *. unfold PGSIZE in *. lia.
    + lia.
    + replace ((srcva - off + PGSIZE) mod PGSIZE) with 0 by (unfold off, PGSIZE; dlia).
      assert (off + len + PGSIZE - 1 = (0 + (len - n) + PGSIZE - 1) + 1 * PGSIZE) as E by lia.
      unfold off in E at 1. rewrite E, Z.div_add in Hf by (unfold PGSIZE; lia). lia.
    + intros a Ha. rewrite <- (Z.add_0_r 0). destruct (HKR a ltac:(lia)) as [H1 H2]. split; [done|].
      intros va. rewrite K3. by apply H2.
    + intros r s2 (k & Hk & HK2 & HR). replace (srcva - off + PGSIZE) with (srcva + n) in * by lia.
      exists (n + k). split_and!; [lia|lia|by eapply fetched_ext; try done; lia|].
      destruct HR as [[-> ->]|(-> & H1 & H2)]; [left; lia|right]. split_and!; [done|lia|].
      replace (srcva + (n + k)) with (srcva + n + k) by lia. rewrite <- H2. unfold can_read. by rewrite K3.
Qed.
(** ** Lemmas: unmapping *)
Lemma pt_wf_frame m m' root g :
  pt_wf m root g -> (forall p a, is_table g p -> in_page p a -> rd m' a = rd m a) ->
  pt_wf m' root g /\ forall va, pte_of m' g va = pte_of m g va.
Proof.
  intros W HM.
  assert (HL : forall lv k q j, g lv k = Some q -> 0 <= j < 512 -> load64 m' (q + 8 * j) = load64 m (q + 8 * j)).
  { intros lv k q j Hq Hj. apply load64_ext. intros i Hi. apply (HM q i); [by exists lv, k|].
    pose proof (entry_in_page q j Hj). unfold in_page. lia. }
  split.
  - destruct W as [W1 W2 W3 W4 W5 W6]. split; try done.
    intros lv k q j Hl Hq Hj e. unfold e. rewrite (HL lv k q j Hq Hj). by apply W3.
  - intros va. unfold pte_of. destruct (g 0 (table_key 0 va)) as [t|] eqn:Ht; [|done].
    apply (HL _ _ _ _ Ht). apply PX_range. lia.
Qed.

(** Giving a page that is no table back to the allocator. *)
Lemma release_wf s root g fl p :
  vm_wf s root g fl -> pa_page p -> p ∉ fl -> ~ is_table g p ->
  runs (pa_release p) s (fun _ s' => vm_wf s' root g (p :: fl) /\
    (forall va, pte_of (pa_mem s') g va = pte_of (pa_mem s) g va) /\
    only_changes p PGSIZE (pa_mem s) (pa_mem s')).
Proof.
  intros [W HF HD] Hp Hnf Hnt. eapply runs_mono; [by apply pa_release_ok|]. intros u s' [HF' HO]. cbn beta.
  destruct (pt_wf_frame (pa_mem s) (pa_mem s') root g W) as [W' HP].
  { intros q a Hq Ha. apply HO. assert (q <> p) by (by intros ->). destruct Hq as (lv & k & Hq).
    pose proof (page_apart q p (pw_page _ _ _ W _ _ _ Hq) Hp ltac:(done)). unfold in_page in Ha. lia. }
  split_and!; [|done|done]. split; [done|done|]. intros q [->|Hq]%elem_of_cons; [done|by apply HD].
Qed.

(** The pages mapped by the [n] entries from [va] on. *)
Definition frames (m : mem) g va (n : nat) : list Z :=
  map (fun k => PTE2PA (pte_of m g (va + PGSIZE * Z.of_nat k))) (seq 0 n).

Lemma frames_snoc m g va n : frames m g va (S n) = frames m g va n ++ [PTE2PA (pte_of m g (va + PGSIZE * Z.of_nat n))].
Proof. unfold frames. by rewrite seq_S, map_app. Qed.

Lemma frames_take m g va n k : (k <= n)%nat -> take k (frames m g va n) = frames m g va k.
Proof.
  intros H. unfold frames. rewrite <- fmap_take. f_equal. replace n with (k + (n - k))%nat by lia.
  rewrite seq_app. rewrite take_app_length'; [done|]. by rewrite length_seq.
Qed.
(** One round of [uvmunmap] with [do_free]. *)
Lemma unmap_one s root g fl va (e := pte_of (pa_mem s) g va) (p := PTE2PA e) :
  vm_wf s root g fl -> 0 <= va < MAXVA -> va mod PGSIZE = 0 -> has e PTE_V = true -> PTE_FLAGS e <> PTE_V ->
  pa_page p -> p ∉ fl -> ~ is_table g p ->
  runs (let! pte_a := walk root va false in
        if pte_a =? 0 then panic "uvmunmap: walk"
        else
          let! pte := ld64 pte_a in
          if negb (has pte PTE_V) then panic "uvmunmap: not mapped"
          else if PTE_FLAGS pte =? PTE_V then panic "uvmunmap: not a leaf"
          else pa_release (PTE2PA pte) ;; st64 pte_a 0 ;; ret None) s
    (fun (r : option unit) s' => r = None /\ vm_wf s' root g (p :: fl) /\
       (forall va', 0 <= va' < MAXVA -> pte_of (pa_mem s') g va' =
          (if decide (va' / PGSIZE = va / PGSIZE) then 0 else pte_of (pa_mem s) g va')) /\
       (forall a, (forall q, is_table g q -> ~ in_page q a) -> ~ in_page p a -> rd (pa_mem s') a = rd (pa_mem s) a)).
Proof.
  intros VW Hva Hal Hv Hfl Hp Hnf Hnt. apply runs_bind. eapply runs_eq; [by apply (walk_false s root g fl)|].
  destruct (g 0 (table_key 0 va)) as [t|] eqn:Ht.
  2:{ exfalso. unfold e, pte_of in Hv. by rewrite Ht, has_0 in Hv. }
  assert (Ee : load64 (pa_mem s) (t + 8 * PX 0 va) = e) by (unfold e, pte_of; by rewrite Ht).
  destruct (pa_page_bounds t (pw_page _ _ _ (vw_tree _ _ _ _ VW) _ _ _ Ht)) as (B1 & _ & _).
  pose proof (PX_range 0 va ltac:(lia)). rewrite (proj2 (Z.eqb_neq _ _)) by lia.
  unfold ld64. mstep. rewrite Ee, Hv. cbn [negb]. rewrite (proj2 (Z.eqb_neq _ _)) by done.
  eapply runs_seq; [by apply (release_wf s root g fl p)|]. intros u s1 (VW1 & HP1 & HO). unfold st64. mstep. mstep.
  split; [done|]. destruct (set_leaf s1 root g (p :: fl) va t 0 VW1 Hva Ht ltac:(lia)) as (VW2 & HP2 & HM).
  split_and!; [done| |].
  - intros va' Hva'. rewrite HP2 by done. by rewrite HP1.
  - intros a Ha Hpa. rewrite HM; [apply HO; exact Hpa|]. apply Ha. by eexists _, _.
Qed.

Lemma uvmunmap_run s root g fl va n (ps := frames (pa_mem s) g va n) :
  vm_wf s root g fl -> va mod PGSIZE = 0 -> 0 <= va -> va + Z.of_nat n * PGSIZE <= MAXVA ->
  (forall k e, (k < n)%nat -> e = pte_of (pa_mem s) g (va + PGSIZE * Z.of_nat k) ->
     has e PTE_V = true /\ PTE_FLAGS e <> PTE_V) ->
  NoDup ps -> (forall p, p ∈ ps -> pa_page p /\ (p ∉ fl) /\ ~ is_table g p) ->
  runs (uvmunmap root va (Z.of_nat n) true) s (fun _ s' =>
    vm_wf s' root g (reverse ps ++ fl) /\
    (forall va', 0 <= va' < MAXVA -> pte_of (pa_mem s') g va' =
       (if decide (va <= va' < va + Z.of_nat n * PGSIZE) then 0 else pte_of (pa_mem s) g va')) /\
    (forall a, (forall q, is_table g q -> ~ in_page q a) -> (forall p, p ∈ ps -> ~ in_page p a) ->
       rd (pa_mem s') a = rd (pa_mem s) a)).
Proof.
  intros VW Hal H0 Hmax Hmap Hnd Hps. unfold uvmunmap. rewrite (proj2 (Z.eqb_eq _ _) Hal). cbn [negb].
  rewrite u64_small by (change MAXVA with (2 ^ 38) in *; unfold PGSIZE in *; lia).
  apply runs_bind. unfold for_loop.
  replace (Z.to_nat ((va + Z.of_nat n * PGSIZE - va + PGSIZE - 1) / PGSIZE)) with n by (unfold PGSIZE; dlia).
  apply (runs_forn _ _ _ _ (fun k s' =>
    vm_wf s' root g (reverse (frames (pa_mem s) g va k) ++ fl) /\
    (forall va', 0 <= va' < MAXVA -> pte_of (pa_mem s') g va' =
       (if decide (va <= va' < va + Z.of_nat k * PGSIZE) then 0 else pte_of (pa_mem s) g va')) /\
    (forall a, (forall q, is_table g q -> ~ in_page q a) -> (forall p, p ∈ ps -> ~ in_page p a) ->
       rd (pa_mem s') a = rd (pa_mem s) a))).
  - split_and!; try done. intros va' Hv. by rewrite decide_False by lia.
  - intros k s1 Hk (VW1 & HP1 & HM1). replace (va + PGSIZE * Z.of_nat k) with (va + Z.of_nat k * PGSIZE) by lia.
    set (vk := va + Z.of_nat k * PGSIZE).
    assert (Ek : pte_of (pa_mem s1) g vk = pte_of (pa_mem s) g (va + PGSIZE * Z.of_nat k)).
    { rewrite HP1 by (unfold vk, PGSIZE in *; lia). rewrite decide_False by (unfold vk; lia). f_equal. unfold vk. lia. }
    destruct (Hmap k _ Hk eq_refl) as [M1 M2]. set (pk := PTE2PA (pte_of (pa_mem s) g (va + PGSIZE * Z.of_nat k))).
    assert (Hsn : frames (pa_mem s) g va (S k) = frames (pa_mem s) g va k ++ [pk]) by apply frames_snoc.
    assert (Hin : pk ∈ ps).
    { assert (Hs : pk ∈ take (S k) ps) by (unfold ps; rewrite frames_take by lia; rewrite Hsn; set_solver).
      apply elem_of_take in Hs as (i & Hi & _). by eapply list_elem_of_lookup_2. }
    assert (Hnk : pk ∉ frames (pa_mem s) g va k).
    { assert (NoDup (frames (pa_mem s) g va (S k))) as HN.
      { rewrite <- (frames_take _ _ _ n) by lia. eapply sublist_NoDup; [exact Hnd|apply sublist_take]. }
      rewrite Hsn in HN. apply NoDup_app in HN as (_ & HN & _). intros Hc. apply (HN pk Hc). set_solver. }
    destruct (Hps pk Hin) as (P1 & P2 & P3).
    pose proof (unmap_one s1 root g (reverse (frames (pa_mem s) g va k) ++ fl) vk VW1) as HU. rewrite Ek in HU. fold pk in HU.
    eapply runs_mono; [apply HU; try done|].
    + unfold vk, PGSIZE in *. lia.
    + unfold vk, PGSIZE in *. dlia.
    + rewrite elem_of_app, elem_of_reverse. tauto.
    + intros r s2 (-> & VW2 & HP2 & HM2). rewrite Hsn, reverse_app. split_and!; [done| |].
      * intros va' Hv'. rewrite HP2, HP1 by done.
        assert (Hiff : va' / PGSIZE = vk / PGSIZE <-> vk <= va' < vk + PGSIZE) by (unfold vk, PGSIZE in *; dlia).
        clearbody ps. repeat case_decide; try done; exfalso; unfold vk, PGSIZE in *; lia.
      * intros a Ha1 Ha2. rewrite HM2; [by apply HM1|done|by apply Ha2].
  - intros s1 H. mstep. exact H.
Qed.
(** ** Lemmas: growing an address space *)

(** What an operation that moves pages between the free list, the tables and
    the user pages [up] does: no other page is involved, and memory outside
    the tables and the pages that were free is untouched. *)
Record vm_moves s s' g g' fl fl' (up : Z -> Prop) : Prop := {
  mv_sub : forall lv k t, g lv k = Some t -> g' lv k = Some t;
  mv_pages : forall p, is_table g' p \/ p ∈ fl' \/ up p <-> is_table g p \/ p ∈ fl;
  mv_mem : forall a, (forall p, is_table g p \/ p ∈ fl -> ~ in_page p a) -> rd (pa_mem s') a = rd (pa_mem s) a;
}.

Lemma vm_moves_refl s g fl : vm_moves s s g g fl fl (fun _ => False).
Proof. split; try done. intros p. tauto. Qed.

Lemma vm_moves_trans s1 s2 s3 g1 g2 g3 f1 f2 f3 u1 u2 u3 :
  vm_moves s1 s2 g1 g2 f1 f2 u1 -> vm_moves s2 s3 g2 g3 f2 f3 u2 -> (forall p, u3 p <-> u1 p \/ u2 p) ->
  vm_moves s1 s3 g1 g3 f1 f3 u3.
Proof.
  intros [A1 A2 A3] [B1 B2 B3] HU. split; [by auto| |].
  - intros p. rewrite HU, <- A2. split.
    + intros [H|[H|[H|H]]]; [|  |tauto|]; destruct (proj1 (B2 p)); tauto.
    + intros [H|[H|H]]; [| |tauto]; destruct (proj2 (B2 p)) as [?|[?|?]]; tauto.
  - intros a Ha. rewrite B3, A3; try done. intros p Hp. apply Ha. apply A2. tauto.
Qed.

Lemma vm_step_moves s s' g g' fl fl' : vm_step s s' g g' fl fl' -> vm_moves s s' g g' fl fl' (fun _ => False).
Proof.
  intros [A1 (nt & -> & A2) A3]. split; [done| |].
  - intros p. rewrite A2. set_solver.
  - intros a Ha. apply A3; intros p Hp; apply Ha; tauto.
Qed.

Lemma user_ok_step s s' g g' fl fl' u :
  user_ok s g fl -> vm_moves s s' g g' fl fl' u ->
  (forall va, 0 <= va < MAXVA -> pte_of (pa_mem s') g' va = pte_of (pa_mem s) g va) -> user_ok s' g' fl'.
Proof.
  intros [U1 U2] [_ HP _] HE. split.
  - intros va Hva. rewrite HE by done. intros Hu. destruct (U1 va Hva Hu) as (P1 & P2 & P3).
    specialize (HP (PTE2PA (pte_of (pa_mem s) g va))). split_and!; [done|tauto|tauto].
  - intros va va' Hv Hv'. rewrite !HE by done. by apply U2.
Qed.

(** [kalloc] and the zeroing of the page it returns. *)
Lemma take_page s root g p fl :
  vm_wf s root g (p :: fl) ->
  runs pa_alloc s (fun r s1 => r = p /\ p <> 0 /\ pa_page p /\ (p ∉ fl) /\ (~ is_table g p) /\
    (forall m', only_changes p PGSIZE (pa_mem s1) m' ->
      vm_wf (pa_set_mem m' s1) root g fl /\ (forall va, pte_of m' g va = pte_of (pa_mem s) g va) /\
      only_changes p PGSIZE (pa_mem s) m')).
Proof.
  intros [W HF HD]. destruct (pa_free_pages s _ HF) as [[Hni Hnd]%NoDup_cons [Hp Hpg]%Forall_cons].
  assert (Hnt : ~ is_table g p) by (apply HD; by left).
  eapply runs_mono; [by apply pa_alloc_some|]. intros r s1 (-> & HF1 & HO1). cbn beta.
  destruct (pa_page_bounds p Hp) as (B1 & _ & _). split_and!; try done; [lia|]. intros m' HO.
  assert (HOm : only_changes p PGSIZE (pa_mem s) m') by (by eapply only_changes_trans).
  destruct (pt_wf_frame (pa_mem s) m' root g W) as [W' HP'].
  { intros q a Hq Ha. apply HOm. assert (q <> p) by (by intros ->). destruct Hq as (lv & k & Hq).
    pose proof (page_apart q p (pw_page _ _ _ W _ _ _ Hq) Hp ltac:(done)). unfold in_page in Ha. lia. }
  split_and!; [|done|done]. split; [by rewrite pa_mem_set| |intros q Hq; apply HD; by right].
  apply pa_write_frame; [done|]. intros q a Hq Ha. apply HO. rewrite Forall_forall in Hpg.
  assert (q <> p) by (by intros ->). pose proof (page_apart q p (Hpg q Hq) Hp ltac:(done)). lia.
Qed.

Lemma no_page s root g : vm_wf s root g [] ->
  runs pa_alloc s (fun r s1 => r = 0 /\ vm_wf s1 root g [] /\ pa_mem s1 = pa_mem s).
Proof.
  intros [W HF HD]. eapply runs_mono; [by apply pa_alloc_none|]. intros r s1 (-> & HF1 & Hm). cbn beta.
  split_and!; try done. split; [by rewrite Hm|done|done].
Qed.

(** Flags of the entries made by [uvmalloc] and [uvmcopy]. *)
Lemma leaf_pte_flag pa perm f :
  0 <= pa < 2 ^ 56 -> 0 <= perm < 1024 -> 0 <= f < 1024 -> has (leaf_pte pa perm) f = has (Z.lor perm PTE_V) f.
Proof.
  intros Hpa Hp Hf. unfold leaf_pte, has. do 2 f_equal. rewrite <- Z.lor_assoc, Z.land_lor_distr_l.
  rewrite PA2PTE_eq by done. assert (Z.land (pa / 4096 * 1024) f = 0) as ->; [|done].
  apply Z.bits_inj'. intros i Hi. rewrite Z.land_spec, Z.bits_0.
  change 1024 with (2 ^ 10). destruct (Z.lt_ge_cases i 10).
  - by rewrite Z.mul_pow2_bits_low by lia.
  - rewrite (Z.bits_above_log2 f); [apply andb_false_r|lia|]. destruct (decide (f = 0)) as [->|]; [cbn; lia|].
    apply Z.log2_lt_pow2; [lia|]. assert (2 ^ 10 <= 2 ^ i) by (apply Z.pow_le_mono_r; lia). lia.
Qed.

(** A fresh page [p] mapped at [a] is one more page of the user's own. *)
Lemma user_ok_add s s' g g' fl fl' a p perm :
  user_ok s g fl -> vm_moves s s' g g' fl fl' (fun q => q = p) ->
  a mod PGSIZE = 0 -> pa_page p -> p ∈ fl -> (~ is_table g' p) -> (p ∉ fl') -> 0 <= perm < 1024 ->
  (forall va, 0 <= va < MAXVA -> pte_of (pa_mem s') g' va = map_range (pte_of (pa_mem s) g) a p perm 1 va) ->
  user_ok s' g' fl'.
Proof.
  intros [U1 U2] [_ HP _] Ha Hp Hpf Hpt Hpf' Hperm HE. destruct (pa_page_bounds p Hp) as (B1 & B2 & B3).
  assert (HD : forall va, 0 <= va < MAXVA -> (va / PGSIZE = a / PGSIZE /\ PTE2PA (pte_of (pa_mem s') g' va) = p) \/
    (va / PGSIZE <> a / PGSIZE /\ pte_of (pa_mem s') g' va = pte_of (pa_mem s) g va)).
  { intros va Hva. rewrite HE by done. unfold map_range. rewrite Z.mul_1_l.
    assert (Hiff : va / PGSIZE = a / PGSIZE <-> a <= va < a + PGSIZE) by (unfold PGSIZE in *; dlia).
    case_decide as Hd; [left|right]; (split; [tauto|]); [|done].
    assert ((va - a) / PGSIZE = 0) as -> by (unfold PGSIZE in *; dlia). rewrite Z.mul_0_l, Z.add_0_r.
    apply leaf_pte_pa; [unfold PGSIZE in *; lia|done|done]. }
  split.
  - intros va Hva Hu. destruct (HD va Hva) as [[_ ->]|[_ E]]; [done|]. rewrite E in *.
    destruct (U1 va Hva Hu) as (P1 & P2 & P3). pose proof (proj1 (HP (PTE2PA (pte_of (pa_mem s) g va)))).
    split_and!; [done|tauto|tauto].
  - intros va va' Hv Hv' Hu Hu' EE. destruct (HD va Hv) as [[E1 E2]|[E1 E2]], (HD va' Hv') as [[F1 F2]|[F1 F2]].
    + congruence.
    + exfalso. rewrite F2 in Hu', EE. destruct (U1 va' Hv' Hu') as (_ & _ & P3). congruence.
    + exfalso. rewrite E2 in Hu, EE. destruct (U1 va Hv Hu) as (_ & _ & P3). congruence.
    + rewrite E2, F2 in *. by apply U2.
Qed.

(** A fresh page, filled by [F], is mapped at [a]; [K] is the clean-up when
    memory is out. *)
Lemma page_round s root g fl a perm (F : Z -> mem -> mem) (K : M St (option Z)) Q :
  vm_wf s root g fl -> 0 <= a -> a + PGSIZE <= MAXVA -> a mod PGSIZE = 0 ->
  has (pte_of (pa_mem s) g a) PTE_V = false -> 0 <= perm < 1024 ->
  (forall p m, only_changes p PGSIZE m (F p m)) ->
  (forall s1 g1 fl1, vm_wf s1 root g1 fl1 -> vm_moves s s1 g g1 fl fl1 (fun _ => False) ->
     (forall va, 0 <= va < MAXVA -> pte_of (pa_mem s1) g1 va = pte_of (pa_mem s) g va) -> runs K s1 Q) ->
  (forall s1 g1 fl1 p m1, vm_wf s1 root g1 fl1 -> vm_moves s s1 g g1 fl fl1 (fun q => q = p) ->
     pa_page p -> p ∈ fl -> ~ is_table g1 p -> p ∉ fl1 ->
     (forall va, 0 <= va < MAXVA -> pte_of (pa_mem s1) g1 va = map_range (pte_of (pa_mem s) g) a p perm 1 va) ->
     only_changes p PGSIZE (pa_mem s) m1 -> (forall i, 0 <= i < PGSIZE -> rd (pa_mem s1) (p + i) = rd (F p m1) (p + i)) -> Q None s1) ->
  runs (let! mem := pa_alloc in
        if mem =? 0 then K
        else
          modify (fun s => pa_set_mem (F mem (pa_mem s)) s) ;;
          let! r := mappages root a PGSIZE mem perm in
          if negb (r =? 0) then pa_release mem ;; K else ret None) s Q.
Proof.
  intros VW Ha0 Ha1 Hal Hinv Hperm HF HK HQ. destruct fl as [|p fl].
  { eapply runs_seq; [by apply (no_page s root g)|]. intros r s1 (-> & VW1 & Hm). cbn [Z.eqb].
    apply (HK s1 g []); [done|split; [done|tauto|by rewrite Hm]|by rewrite Hm]. }
  eapply runs_seq; [by apply (take_page s root g p fl)|]. intros r s1 (-> & Hp0 & Hp & Hpf & Hpt & HW).
  rewrite (proj2 (Z.eqb_neq _ _)) by done. mstep.
  destruct (HW (pa_mem s1)) as (_ & _ & HO1); [done|]. set (m1 := pa_mem s1) in *.
  destruct (HW (F p m1)) as (VW1 & HP1 & HO); [apply HF|].
  set (s2 := pa_set_mem (F p m1) s1) in *. assert (Hm2 : pa_mem s2 = F p m1) by (by apply pa_mem_set).
  rewrite <- Hm2 in HP1, HO. destruct (pa_page_bounds p Hp) as (B1 & B2 & B3).
  assert (HMV2 : vm_moves s s2 g g (p :: fl) fl (fun q => q = p)).
  { split; [done|intros q; rewrite elem_of_cons; tauto|]. intros b Hb. apply HO. apply (Hb p). right. by left. }
  eapply runs_seq.
  { apply (mappages_run s2 root g fl a PGSIZE p perm VW1 Hal); [done|done|done|done|done|lia|lia|done|].
    intros va' Hva'. rewrite HP1, (pte_of_page _ _ va' a); [done|unfold PGSIZE in *; dlia]. }
  intros r s3 (g3 & fl3 & k & VW3 & ST & Hr & HP3). change (PGSIZE / PGSIZE) with 1 in Hr.
  pose proof (vm_step_moves _ _ _ _ _ _ ST) as MV3.
  assert (Hp3 : (~ is_table g3 p) /\ p ∉ fl3).
  { destruct ST as [_ (nt & E & HT) _]. assert (Hn : (p ∉ nt) /\ p ∉ fl3) by (by rewrite E, not_elem_of_app in Hpf).
    destruct Hn as [Hn Hn']. split; [|exact Hn']. intros [H|H]%HT; [exact (Hpt H)|exact (Hn H)]. }
  assert (HMV3 : vm_moves s s3 g g3 (p :: fl) fl3 (fun q => q = p)) by (eapply vm_moves_trans; [exact HMV2|exact MV3|tauto]).
  destruct Hr as [[-> ->]|(-> & Hk & ->)]; cbn [Z.eqb negb].
  - mstep. destruct Hp3 as [Hp3 Hp3']. apply (HQ s3 g3 fl3 p m1); try done; [by left| |].
    + intros va Hva. rewrite HP3 by done. unfold map_range. by rewrite HP1.
    + intros i Hi. rewrite (vs_mem _ _ _ _ _ _ ST).
      * by rewrite Hm2.
      * intros q (lv & j & Hq) Hin. assert (q <> p) by (intros ->; apply Hpt; by exists lv, j).
        pose proof (page_apart q p (pw_page _ _ _ (vw_tree _ _ _ _ VW1) _ _ _ Hq) Hp ltac:(done)). unfold in_page in Hin. lia.
      * destruct (pa_free_pages s2 fl (vw_free _ _ _ _ VW1)) as [_ HFp]. rewrite Forall_forall in HFp.
        intros q Hq Hin. assert (q <> p) by (by intros ->).
        pose proof (page_apart q p (HFp q Hq) Hp ltac:(done)). unfold in_page in Hin. lia.
  - eapply runs_seq; [apply (release_wf s3 root g3 [] p VW3 Hp); tauto|]. intros u s4 (VW4 & HP4 & HO4).
    assert (k = 0) as -> by lia. apply (HK s4 g3 [p] VW4).
    + destruct HMV3 as [V1 V2 V3]. split; [done| |].
      * intros q. rewrite <- V2, list_elem_of_singleton, elem_of_nil. tauto.
      * intros b Hb. rewrite HO4; [by apply V3|]. apply (Hb p). right. by left.
    + intros va Hva. rewrite HP4, HP3 by done. unfold map_range. by rewrite decide_False, HP1 by lia.
Qed.

(** One round of the loop of [uvmalloc]. *)
Lemma grow_round s root g fl a perm (K : M St (option Z)) Q :
  vm_wf s root g fl -> user_ok s g fl -> 0 <= a -> a + PGSIZE <= MAXVA -> a mod PGSIZE = 0 ->
  has (pte_of (pa_mem s) g a) PTE_V = false -> 0 <= perm < 1024 ->
  (forall s1 g1 fl1, vm_wf s1 root g1 fl1 -> user_ok s1 g1 fl1 -> vm_moves s s1 g g1 fl fl1 (fun _ => False) ->
     (forall va, 0 <= va < MAXVA -> pte_of (pa_mem s1) g1 va = pte_of (pa_mem s) g va) -> runs K s1 Q) ->
  (forall s1 g1 fl1 p, vm_wf s1 root g1 fl1 -> user_ok s1 g1 fl1 -> vm_moves s s1 g g1 fl fl1 (fun q => q = p) ->
     pa_page p -> p ∈ fl ->
     (forall va, 0 <= va < MAXVA -> pte_of (pa_mem s1) g1 va = map_range (pte_of (pa_mem s) g) a p perm 1 va) ->
     (forall i, 0 <= i < PGSIZE -> rd (pa_mem s1) (p + i) = 0) -> Q None s1) ->
  runs (let! mem := pa_alloc in
        if mem =? 0 then K
        else
          vm_memset mem 0 PGSIZE ;;
          let! r := mappages root a PGSIZE mem perm in
          if negb (r =? 0) then pa_release mem ;; K else ret None) s Q.
Proof.
  intros VW HU Ha0 Ha1 Hal Hinv Hperm HK HQ.
  apply (page_round s root g fl a perm (fun p m => memset m p 0 PGSIZE)); try done.
  - intros p m. by apply memset_only.
  - intros s1 g1 fl1 W1 M1 E1. apply (HK s1 g1 fl1); try done. by eapply user_ok_step.
  - intros s1 g1 fl1 p m1 W1 M1 Hp Hpf Hpt Hpn E1 _ HZ. apply (HQ s1 g1 fl1 p); try done.
    + eapply (user_ok_add s s1 g g1 fl fl1 a p perm); done.
    + intros i Hi. rewrite HZ, rd_memset by (done || unfold PGSIZE; lia). by rewrite decide_True by lia.
Qed.

Lemma user_not_bare e : has e PTE_U = true -> PTE_FLAGS e <> PTE_V.
Proof.
  unfold has, PTE_FLAGS. intros Hu E. apply negb_true_iff, Z.eqb_neq in Hu. apply Hu.
  change PTE_U with (Z.land 1023 PTE_U). rewrite Z.land_assoc. change 1023 with 0x3FF. by rewrite E.
Qed.

Lemma user_pte_flags e : user_pte e = true -> has e PTE_V = true /\ PTE_FLAGS e <> PTE_V.
Proof. intros [H1 H2]%andb_true_iff. split; [done|by apply user_not_bare]. Qed.

Lemma elem_of_frames m g va n q :
  q ∈ frames m g va n <-> exists k, (k < n)%nat /\ q = PTE2PA (pte_of m g (va + PGSIZE * Z.of_nat k)).
Proof.
  unfold frames. rewrite list_elem_of_fmap. split.
  - intros (k & -> & Hk%elem_of_seq). exists k. split; [lia|done].
  - intros (k & Hk & ->). exists k. split; [done|]. apply elem_of_seq. lia.
Qed.

Lemma frames_NoDup s g fl va n :
  user_ok s g fl -> 0 <= va -> va + Z.of_nat n * PGSIZE <= MAXVA -> va mod PGSIZE = 0 ->
  (forall va', va <= va' < va + Z.of_nat n * PGSIZE -> user_pte (pte_of (pa_mem s) g va') = true) ->
  NoDup (frames (pa_mem s) g va n).
Proof.
  intros [_ U2] H0 H1 Hal HM. apply NoDup_fmap_2_strong; [|apply NoDup_seq].
  intros i j Hi%elem_of_seq Hj%elem_of_seq E. apply U2 in E; [unfold PGSIZE in *; dlia| | | |];
    try apply HM; unfold PGSIZE in *; lia.
Qed.

Lemma u_frames m g o n q : o mod PGSIZE = 0 ->
  q ∈ frames m g o n <-> exists va, o <= va < o + Z.of_nat n * PGSIZE /\ q = PTE2PA (pte_of m g va).
Proof.
  intros Ho. rewrite elem_of_frames. split.
  - intros (k & Hk & ->). exists (o + PGSIZE * Z.of_nat k). split; [unfold PGSIZE; lia|done].
  - intros (va & Hva & ->). exists (Z.to_nat ((va - o) / PGSIZE)). unfold PGSIZE in *. split; [dlia|].
    f_equal. apply pte_of_page. unfold PGSIZE. rewrite Z2Nat.id by dlia. dlia.
Qed.

(** Shrinking: the pages of [o, a) go back to the free list. *)
Lemma uvmdealloc_run s root g fl o n (a := o + Z.of_nat n * PGSIZE) :
  vm_wf s root g fl -> user_ok s g fl -> o mod PGSIZE = 0 -> 0 <= o -> a <= MAXVA ->
  (forall va, o <= va < a -> user_pte (pte_of (pa_mem s) g va) = true) ->
  runs (uvmdealloc root a o) s (fun r s' => r = o /\
    vm_wf s' root g (reverse (frames (pa_mem s) g o n) ++ fl) /\
    user_ok s' g (reverse (frames (pa_mem s) g o n) ++ fl) /\
    (forall va, 0 <= va < MAXVA -> pte_of (pa_mem s') g va =
       (if decide (o <= va < a) then 0 else pte_of (pa_mem s) g va)) /\
    (forall b, (forall q, is_table g q \/ q ∈ frames (pa_mem s) g o n -> ~ in_page q b) ->
       rd (pa_mem s') b = rd (pa_mem s) b)).
Proof.
  intros VW HU Hal Ho Hmax HM. unfold uvmdealloc. change MAXVA with (2 ^ 38) in Hmax.
  destruct (Z.leb_spec a o) as [Hle|Hlt].
  { assert (n = 0%nat) as -> by (unfold a, PGSIZE in *; lia). mstep. split_and!; [unfold a; lia|done|done| |done].
    intros va Hva. by rewrite decide_False by (unfold a in *; lia). }
  assert (Ea : PGROUNDUP a = a) by (apply PGROUNDUP_id; unfold a, PGSIZE in *; [lia|dlia]).
  assert (Eo : PGROUNDUP o = o) by (apply PGROUNDUP_id; unfold a, PGSIZE in *; [lia|dlia]).
  rewrite Ea, Eo, (proj2 (Z.ltb_lt _ _)) by done.
  assert (En : s32 ((a - o) / PGSIZE) = Z.of_nat n).
  { assert ((a - o) / PGSIZE = Z.of_nat n) as -> by (unfold a, PGSIZE; dlia). apply s32_small.
    unfold a, PGSIZE in *; lia. }
  rewrite En. pose proof HU as [U1 U2]. eapply runs_seq.
  { apply (uvmunmap_run s root g fl o n VW Hal Ho Hmax).
    - intros k e Hk ->. apply user_pte_flags, HM. unfold a, PGSIZE in *. lia.
    - by eapply frames_NoDup.
    - intros q (va & Hva & ->)%u_frames; [|done]. destruct (U1 va) as (P1 & P2 & P3); [change MAXVA with (2 ^ 38); unfold a in *; lia|by apply HM|done]. }
  intros u s' (VW' & HP' & HM'). mstep. fold a in HP'. split_and!; [done|done| |done|].
  - split.
    + intros va Hva. rewrite HP' by done. case_decide as Hd; [by unfold user_pte; rewrite has_0|]. intros Hu.
      destruct (U1 va Hva Hu) as (P1 & P2 & P3). split_and!; [done|done|]. rewrite elem_of_app, elem_of_reverse.
      intros [(va' & Hv' & E)%u_frames|?]; [|done|done].
      apply U2 in E; [unfold a, PGSIZE in *; dlia|done|change MAXVA with (2 ^ 38); unfold a in *; lia|done|by apply HM].
    + intros va va' Hv Hv'. rewrite !HP' by done. repeat case_decide; try (by unfold user_pte; rewrite has_0); by apply U2.
  - intros b Hb. apply HM'; intros q Hq; apply Hb; tauto.
Qed.

(** The address space after [n] fresh pages were mapped from [o] on. *)
Record grown s s' root g g' fl fl' o n perm : Prop := {
  gr_wf : vm_wf s' root g' fl';
  gr_user : user_ok s' g' fl';
  gr_moves : vm_moves s s' g g' fl fl' (fun q => q ∈ frames (pa_mem s') g' o n);
  gr_new : forall va, o <= va < o + Z.of_nat n * PGSIZE ->
    pa_page (PTE2PA (pte_of (pa_mem s') g' va)) /\
    pte_of (pa_mem s') g' va = leaf_pte (PTE2PA (pte_of (pa_mem s') g' va)) perm /\
    rd (pa_mem s') (phys (pa_mem s') g' va) = 0;
  gr_old : forall va, 0 <= va < MAXVA -> ~ (o <= va < o + Z.of_nat n * PGSIZE) ->
    pte_of (pa_mem s') g' va = pte_of (pa_mem s) g va;
}.

(** The entries [uvmalloc] makes are user pages. *)
Definition user_perm (perm : Z) : Prop := 0 <= perm < 1024 /\ has perm PTE_U = true.

Lemma has_lor_l x y f : has x f = true -> has (Z.lor x y) f = true.
Proof.
  unfold has. rewrite !negb_true_iff, !Z.eqb_neq. intros H E. apply H.
  rewrite Z.land_lor_distr_l in E. by apply Z.lor_eq_0_iff in E as [-> _].
Qed.

Lemma user_perm_pte pa perm : user_perm perm -> 0 <= pa < 2 ^ 56 -> user_pte (leaf_pte pa perm) = true.
Proof.
  intros [Hp Hu] Hpa. unfold user_pte. rewrite !leaf_pte_flag by (done || (unfold PTE_U, PTE_V; lia)).
  apply andb_true_iff. split; [apply has_V_lor|by apply has_lor_l].
Qed.

Lemma grown_user s s' root g g' fl fl' o n perm va :
  grown s s' root g g' fl fl' o n perm -> user_perm perm ->
  o <= va < o + Z.of_nat n * PGSIZE -> user_pte (pte_of (pa_mem s') g' va) = true.
Proof.
  intros G Hp Hva. destruct (gr_new _ _ _ _ _ _ _ _ _ _ G va Hva) as (Hpg & E & _). rewrite E. apply user_perm_pte; [done|].
  destruct (pa_page_bounds _ Hpg) as (? & _ & ?). unfold PGSIZE in *. lia.
Qed.

Lemma frames_ext m m' g g' o n :
  (forall va, o <= va < o + Z.of_nat n * PGSIZE -> pte_of m' g' va = pte_of m g va) -> frames m' g' o n = frames m g o n.
Proof.
  intros H. unfold frames. apply map_ext_in. intros k Hk%in_seq. f_equal. apply H. unfold PGSIZE. lia.
Qed.

Lemma grown_step s t t' root g gk g' fl flk fl' o k perm p (a := o + Z.of_nat k * PGSIZE) :
  grown s t root g gk fl flk o k perm -> user_perm perm -> 0 <= o -> o mod PGSIZE = 0 -> a + PGSIZE <= MAXVA ->
  vm_wf t' root g' fl' -> user_ok t' g' fl' -> vm_moves t t' gk g' flk fl' (fun q => q = p) -> pa_page p ->
  (forall va, 0 <= va < MAXVA -> pte_of (pa_mem t') g' va = map_range (pte_of (pa_mem t) gk) a p perm 1 va) ->
  (forall i, 0 <= i < PGSIZE -> rd (pa_mem t') (p + i) = 0) ->
  grown s t' root g g' fl fl' o (S k) perm.
Proof.
  intros G Hperm Ho Hal Hmax VW HU HMV Hp HP Hz. pose proof G as [GW GUs GM GN GO]. destruct (pa_page_bounds p Hp) as (B1 & B2 & B3).
  assert (Hold : forall va, 0 <= va < MAXVA -> ~ (a <= va < a + PGSIZE) -> pte_of (pa_mem t') g' va = pte_of (pa_mem t) gk va).
  { intros va Hva Hn. rewrite HP by done. unfold map_range. by rewrite decide_False by lia. }
  assert (Hnew : forall va, a <= va < a + PGSIZE -> pte_of (pa_mem t') g' va = leaf_pte p perm).
  { intros va Hva. rewrite HP by (unfold a, PGSIZE in *; lia). unfold map_range. rewrite decide_True by lia.
    assert ((va - a) / PGSIZE = 0) as -> by (unfold PGSIZE in *; dlia). f_equal. lia. }
  assert (Hpp : PTE2PA (leaf_pte p perm) = p) by (apply leaf_pte_pa; [unfold PGSIZE in *; lia|done|apply Hperm]).
  assert (HF : frames (pa_mem t') g' o (S k) = frames (pa_mem t) gk o k ++ [p]).
  { rewrite frames_snoc, Hnew, Hpp by (unfold a, PGSIZE; lia). f_equal. apply frames_ext. intros va Hva. apply Hold; unfold a, PGSIZE in *; lia. }
  split; [exact VW|exact HU| | |].
  - eapply vm_moves_trans; [exact GM|exact HMV|]. intros q. cbn beta. rewrite HF, elem_of_app, list_elem_of_singleton. done.
  - intros va Hva. destruct (decide (a <= va < a + PGSIZE)) as [Hd|Hd].
    + unfold phys. rewrite Hnew, Hpp by done. split_and!; [done|done|]. apply Hz. apply Z.mod_pos_bound. unfold PGSIZE; lia.
    + assert (Hva' : o <= va < o + Z.of_nat k * PGSIZE) by (unfold a, PGSIZE in *; lia).
      unfold phys. rewrite Hold by (unfold a, PGSIZE in *; lia). destruct (GN va Hva') as (N1 & N2 & N3). split_and!; [done|done|].
      rewrite (mv_mem _ _ _ _ _ _ _ HMV); [exact N3|]. intros q Hq Hin.
      assert (Hr : 0 <= va < MAXVA) by (unfold a, PGSIZE in *; lia).
      pose proof (user_page_disj t root gk flk va q GW GUs Hr (grown_user _ _ _ _ _ _ _ _ _ _ _ G Hperm Hva') Hq) as HD.
      pose proof (Z.mod_pos_bound va PGSIZE ltac:(done)). unfold in_page in Hin. cbv zeta in HD. lia.
  - intros va Hva Hn. rewrite Hold, GO; try done; unfold a, PGSIZE in *; lia.
Qed.

(** The address space after a failed operation: as before, up to table pages
    that were added on the way; no page is lost. *)
Record unchanged s s' root g g' fl fl' : Prop := {
  un_wf : vm_wf s' root g' fl';
  un_user : user_ok s' g' fl';
  un_moves : vm_moves s s' g g' fl fl' (fun _ => False);
  un_pte : forall va, 0 <= va < MAXVA -> pte_of (pa_mem s') g' va = pte_of (pa_mem s) g va;
}.

Lemma grown_0 s root g fl o perm : vm_wf s root g fl -> user_ok s g fl -> grown s s root g g fl fl o 0 perm.
Proof.
  intros VW HU. split; [done|done| |intros va Hva; lia|done].
  split; [done| |done]. intros p. unfold frames. cbn [seq map]. rewrite elem_of_nil. tauto.
Qed.

(** Taking back the pages of a partly grown address space. *)
Lemma ungrow s t s1 root g gk g1 fl flk fl1 o k perm :
  grown s t root g gk fl flk o k perm -> user_perm perm -> 0 <= o -> o mod PGSIZE = 0 ->
  o + Z.of_nat k * PGSIZE <= MAXVA ->
  (forall va, o <= va < o + Z.of_nat k * PGSIZE -> pte_of (pa_mem s) g va = 0) ->
  unchanged t s1 root gk g1 flk fl1 ->
  runs (uvmdealloc root (o + Z.of_nat k * PGSIZE) o) s1 (fun _ s' => exists fl', unchanged s s' root g g1 fl fl').
Proof.
  intros G Hperm Ho Hal Hmax Hz [VW1 HU1 MV1 HP1].
  assert (HF : frames (pa_mem s1) g1 o k = frames (pa_mem t) gk o k).
  { apply frames_ext. intros va Hva. apply HP1. unfold PGSIZE in *. lia. }
  eapply runs_mono.
  { apply (uvmdealloc_run s1 root g1 fl1 o k VW1 HU1 Hal Ho Hmax). intros va Hva.
    rewrite HP1 by (unfold PGSIZE in *; lia). by eapply grown_user. }
  intros r s' (_ & VW' & HU' & HP' & HM'). rewrite HF in VW', HU', HM'.
  pose proof (vm_moves_trans _ _ _ _ _ _ _ _ _ _ _ _ (gr_moves _ _ _ _ _ _ _ _ _ _ G) MV1
    (fun q => iff_sym (or_False (q ∈ frames (pa_mem t) gk o k)))) as MV.
  eexists. split; [exact VW'|exact HU'| |].
  - destruct MV as [V1 V2 V3]. split; [done| |].
    + intros q. rewrite <- V2, elem_of_app, elem_of_reverse. tauto.
    + intros b Hb. rewrite HM'; [by apply V3|]. intros q Hq. apply Hb, V2. tauto.
  - intros va Hva. rewrite HP' by done. case_decide as Hd; [by rewrite Hz|]. rewrite HP1 by done.
    by apply (gr_old _ _ _ _ _ _ _ _ _ _ G).
Qed.

Lemma uvmalloc_run s root g fl oldsz newsz xperm
    (o := PGROUNDUP oldsz) (n := Z.to_nat ((newsz - o + PGSIZE - 1) / PGSIZE)) (perm := Z.lor (Z.lor PTE_R PTE_U) xperm) :
  vm_wf s root g fl -> user_ok s g fl -> 0 <= oldsz <= newsz -> newsz <= MAXVA -> user_perm perm ->
  (forall va, o <= va < o + Z.of_nat n * PGSIZE -> pte_of (pa_mem s) g va = 0) ->
  runs (uvmalloc root oldsz newsz xperm) s (fun r s' => exists g' fl',
    r = newsz /\ grown s s' root g g' fl fl' o n perm \/ r = 0 /\ unchanged s s' root g g' fl fl').
Proof.
  intros VW HU Hsz Hmax Hperm Hz. unfold uvmalloc. rewrite (proj2 (Z.ltb_ge _ _)) by lia. fold o perm.
  change MAXVA with (2 ^ 38) in Hmax. destruct (PGROUNDUP_bounds oldsz) as [Hal Hob]; [lia|unfold PGSIZE; lia|]. fold o in Hal, Hob.
  assert (Hend : o + Z.of_nat n * PGSIZE <= MAXVA) by (change MAXVA with (2 ^ 38); unfold n, PGSIZE in *; dlia).
  eapply (runs_seq _ _ s (fun r s' => exists g' fl', r = None /\ grown s s' root g g' fl fl' o n perm \/
    r = Some 0 /\ unchanged s s' root g g' fl fl')).
  2:{ intros r s' (g' & fl' & [(-> & H)|(-> & H)]); mstep; exists g', fl'; [by left|by right]. }
  unfold for_loop. fold n. apply (runs_forn _ _ _ _ (fun k t => exists g' fl', grown s t root g g' fl fl' o k perm)).
  - exists g, fl. by apply grown_0.
  - intros k t Hk (gk & flk & G). replace (o + PGSIZE * Z.of_nat k) with (o + Z.of_nat k * PGSIZE) by lia.
    set (a := o + Z.of_nat k * PGSIZE). assert (Ha : 0 <= a /\ a + PGSIZE <= MAXVA) by (unfold a, PGSIZE in *; lia).
    apply (grow_round t root gk flk a perm); [apply G|apply G|lia|lia|unfold a, PGSIZE in *; dlia| |apply Hperm| |].
    + rewrite (gr_old _ _ _ _ _ _ _ _ _ _ G), Hz by (unfold a, PGSIZE in *; lia). apply has_0.
    + intros s1 g1 fl1 A1 A2 A3 A4. eapply runs_seq.
      * eapply (ungrow s t s1); [exact G|done|lia|done|lia| |by split]. intros va Hva. apply Hz. unfold PGSIZE in *; lia.
      * intros u s' (fl' & HUn). mstep. exists g1, fl'. by right.
    + intros s1 g1 fl1 p A1 A2 A3 A4 A5 A6 A7. exists g1, fl1. eapply grown_step; try eassumption; lia.
  - intros t (g' & fl' & G). exists g', fl'. by left.
Qed.

(** The tree of a page table that maps nothing. *)
Definition bare_tree (root : Z) : Z -> Z -> option Z :=
  fun lv k => if decide (lv = 2 /\ k = 0) then Some root else None.

Lemma bare_tree_pte m root va : pte_of m (bare_tree root) va = 0.
Proof. unfold pte_of, bare_tree. by rewrite decide_False by (intros [? _]; lia). Qed.

Lemma bare_tree_wf m root :
  pa_page root -> (forall i, 0 <= i < 512 -> load64 m (root + 8 * i) = 0) -> pt_wf m root (bare_tree root).
Proof.
  intros Hp Hz. unfold bare_tree. split.
  - done.
  - intros lv k t H. case_decide as Hd; [|done]. lia.
  - intros lv k t i Hl Ht Hi. case_decide as Hd; [|done]. injection Ht as <-. cbv zeta. rewrite Hz, has_0 by done.
    by rewrite decide_False by lia.
  - intros lv k t Hl Ht. case_decide as Hd; [lia|done].
  - intros lv k lv' k' t H H'. repeat case_decide; try done. lia.
  - intros lv k t H. case_decide; [|done]. by injection H as <-.
Qed.

Lemma bare_user_ok s root fl : user_ok s (bare_tree root) fl.
Proof. split; intros *; rewrite bare_tree_pte; unfold user_pte; by rewrite has_0. Qed.

Lemma uvmcreate_run s p fl :
  pa_free s (p :: fl) ->
  runs uvmcreate s (fun r s' => r = p /\ vm_wf s' p (bare_tree p) fl /\ only_changes p PGSIZE (pa_mem s) (pa_mem s')).
Proof.
  intros HF. destruct (pa_free_pages s _ HF) as [[Hni Hnd]%NoDup_cons [Hp Hpg]%Forall_cons].
  destruct (pa_page_bounds p Hp) as (B1 & _ & _). unfold uvmcreate. eapply runs_seq; [by apply pa_alloc_some|].
  intros r s1 (-> & HF1 & HO1). rewrite (proj2 (Z.eqb_neq _ _)) by lia. unfold vm_memset. mstep. mstep.
  assert (HO2 : only_changes p PGSIZE (pa_mem s1) (memset (pa_mem s1) p 0 PGSIZE)) by (by apply memset_only).
  split_and!; [done| |rewrite pa_mem_set; by eapply only_changes_trans]. split.
  - rewrite pa_mem_set. apply bare_tree_wf; [done|]. intros i Hi. pose proof (entry_in_page p i Hi).
    apply (load64_zero_page _ p); lia.
  - apply pa_write_frame; [done|]. intros q a Hq Ha. apply HO2. rewrite Forall_forall in Hpg.
    assert (q <> p) by (intros ->; exact (Hni Hq)). pose proof (page_apart q p (Hpg q Hq) Hp ltac:(assumption)). lia.
  - intros q Hq (lv & k & H). unfold bare_tree in H. case_decide; [|congruence]. injection H as <-. exact (Hni Hq).
Qed.
End walk_lemmas.

(** ** A small machine for the witnesses: eight free pages *)
Definition kend0 : Z := PHYSTOP - 8 * PGSIZE.
#[local] Instance alloc0 : PageAlloc kst := kalloc_PageAlloc kend0 (Ctx 0 1).
#[local] Instance alloc_laws0 : PageAllocLaws kst := kalloc_PageAllocLaws kend0 (Ctx 0 1) ltac:(split; vm_compute; discriminate).

(** A page table with one user page at address 0. *)
Definition boot_user : M kst Z :=
  forn (A := unit) 8 kend0 PGSIZE (fun p => kfree kend0 (Ctx 0 1) p ;; ret None) ;;
  let! root := uvmcreate in
  let! r := uvmalloc root 0 PGSIZE PTE_W in
  ret (if r =? PGSIZE then root else 0).

Definition boot_pages : list Z := pages_down 8 kend0.

Lemma boot_user_returns : fst (boot_user k_boot) = Ret (kend0 + 7 * PGSIZE).
Proof. vm_compute. reflexivity. Qed.

Lemma boot_user_ok : exists s root g fl,
  vm_wf s root g fl /\ user_ok s g fl /\ (forall va, 0 <= va < PGSIZE -> can_write (pa_mem s) g va = true) /\
  (forall va, PGSIZE <= va < MAXVA -> pte_of (pa_mem s) g va = 0).
Proof.
  assert (HR : runs boot_user k_boot (fun r s => r <> 0 -> exists root g fl,
    vm_wf s root g fl /\ user_ok s g fl /\ (forall va, 0 <= va < PGSIZE -> can_write (pa_mem s) g va = true) /\
    (forall va, PGSIZE <= va < MAXVA -> pte_of (pa_mem s) g va = 0))).
  { unfold boot_user. eapply runs_seq.
    { apply (freerange_run kend0 (Ctx 0 1)); [split; vm_compute; discriminate|done|done|done|by repeat constructor]. }
    intros u s1 HF. cbn beta in HF. eapply runs_seq; [by apply (uvmcreate_run s1)|]. intros root s2 (-> & VW & _).
    eapply runs_seq.
    { apply (uvmalloc_run s2 _ _ _ 0 PGSIZE PTE_W VW (bare_user_ok _ _ _)); [done|done|done|]. intros va _. apply bare_tree_pte. }
    intros r s3 (g' & fl' & [(-> & G)|(-> & _)]); mstep; [|done]. intros _. exists (kend0 + PGSIZE * 7), g', fl'.
    split_and!; [apply G|apply G| |].
    - intros va Hva. unfold can_write. rewrite (grown_user _ _ _ _ _ _ _ _ _ _ _ G) by done.
      destruct (gr_new _ _ _ _ _ _ _ _ _ _ G va Hva) as (Hp & -> & _).
      destruct (pa_page_bounds _ Hp) as (? & _ & ?). rewrite leaf_pte_flag by (done || (unfold PGSIZE in *; lia)).
      rewrite (proj2 (Z.ltb_lt _ _)); [done|]. change MAXVA with (2 ^ 38). unfold PGSIZE in *. lia.
    - intros va Hva. rewrite (gr_old _ _ _ _ _ _ _ _ _ _ G); [apply bare_tree_pte|unfold PGSIZE in *; lia|].
      intros [_ Hc]. change (va < PGSIZE) in Hc. lia. }
  destruct HR as (r & s & E & H). exists s. apply H. pose proof boot_user_returns as B. rewrite E in B. cbn [fst] in B.
  injection B as ->. done.
Qed.

(** ** Properties *)
Section properties.
Context {St : Type} {P : PageAlloc St} {L : PageAllocLaws St}.

(** [mappages] maps exactly the pages asked for: on success every page of
    the range gets the entry for its physical page and no other entry
    changes; when memory runs out the result is -1 and a proper prefix of the
    range is mapped. Page tables stay a tree, their new pages come off the free
    list, and memory outside tables and free pages is untouched. *)
Theorem mappages_maps (s : St) root g fl va size pa perm :
  vm_wf s root g fl -> va mod PGSIZE = 0 -> size mod PGSIZE = 0 -> 0 < size ->
  0 <= va -> va + size <= MAXVA -> pa mod PGSIZE = 0 -> 0 <= pa -> pa + size <= 2 ^ 56 -> 0 <= perm < 1024 ->
  (forall va', va <= va' < va + size -> has (pte_of (pa_mem s) g va') PTE_V = false) ->
  runs (mappages root va size pa perm) s (fun r s' => exists g' fl' k,
    vm_wf s' root g' fl' /\ vm_step s s' g g' fl fl' /\
    (r = 0 /\ k = size / PGSIZE \/ r = -1 /\ 0 <= k < size / PGSIZE /\ fl' = []) /\
    forall va', 0 <= va' < MAXVA ->
      pte_of (pa_mem s') g' va' = map_range (pte_of (pa_mem s) g) va pa perm k va').
Proof. apply mappages_run. Qed.

(** C23. [uvmalloc] is all or nothing. Either it returns the new size and every
    page between the sizes is mapped to a page of its own off the free list,
    zeroed and accessible to the user, all other entries as before; or it
    returns 0, every entry is as before, and each page it took is back on the
    free list or serves as a table: no page is lost. *)
Theorem uvmalloc_atomic (s : St) root g fl oldsz newsz xperm
    (o := PGROUNDUP oldsz) (n := Z.to_nat ((newsz - o + PGSIZE - 1) / PGSIZE)) (perm := Z.lor (Z.lor PTE_R PTE_U) xperm) :
  vm_wf s root g fl -> user_ok s g fl -> 0 <= oldsz <= newsz -> newsz <= MAXVA -> user_perm perm ->
  (forall va, o <= va < o + Z.of_nat n * PGSIZE -> pte_of (pa_mem s) g va = 0) ->
  runs (uvmalloc root oldsz newsz xperm) s (fun r s' => exists g' fl',
    r = newsz /\ grown s s' root g g' fl fl' o n perm \/ r = 0 /\ unchanged s s' root g g' fl fl').
Proof. apply uvmalloc_run. Qed.

(** [uvmdealloc] of a page-aligned range of user pages clears exactly the
    entries of the range and gives exactly its pages back to the allocator,
    each once; the remaining user pages stay disjoint from free pages. *)
Theorem uvmdealloc_frees (s : St) root g fl o n (a := o + Z.of_nat n * PGSIZE) :
  vm_wf s root g fl -> user_ok s g fl -> o mod PGSIZE = 0 -> 0 <= o -> a <= MAXVA ->
  (forall va, o <= va < a -> user_pte (pte_of (pa_mem s) g va) = true) ->
  runs (uvmdealloc root a o) s (fun r s' => r = o /\
    vm_wf s' root g (reverse (frames (pa_mem s) g o n) ++ fl) /\
    user_ok s' g (reverse (frames (pa_mem s) g o n) ++ fl) /\
    (forall va, 0 <= va < MAXVA -> pte_of (pa_mem s') g va =
       (if decide (o <= va < a) then 0 else pte_of (pa_mem s) g va)) /\
    (forall b, (forall q, is_table g q \/ q ∈ frames (pa_mem s) g o n -> ~ in_page q b) ->
       rd (pa_mem s') b = rd (pa_mem s) b)).
Proof. apply uvmdealloc_run. Qed.

(** C25. [copyout] never writes outside the pages the user may write: it copies a
    prefix of the source to the user's addresses, all of it when it returns 0,
    and otherwise stops at the first address that is out of range, unmapped or
    not writable for the user; no other byte of memory changes. *)
Theorem copyout_isolated (s : St) root g fl dstva src len :
  vm_wf s root g fl -> user_ok s g fl -> 0 <= dstva < 2 ^ 64 -> 0 <= len ->
  (forall i va, 0 <= i < len -> 0 <= va < MAXVA -> user_pte (pte_of (pa_mem s) g va) = true ->
     ~ in_page (PTE2PA (pte_of (pa_mem s) g va)) (src + i)) ->
  runs (copyout root dstva src len) s (fun r s' => exists k, 0 <= k <= len /\
    copied s s' root g fl dstva src k /\
    (r = 0 /\ k = len \/ r = -1 /\ k < len /\ can_write (pa_mem s) g (dstva + k) = false)).
Proof. intros. apply copyout_loop_run; try done. unfold copy_fuel, PGSIZE. dlia. Qed.

(** C26. [copyin] reads only what the user may read and writes only the kernel
    buffer: a prefix of the user's bytes arrives, all of it when the result is
    0, and otherwise it stops at the first address the user may not read. *)
Theorem copyin_isolated (s : St) root g fl dst srcva len :
  vm_wf s root g fl -> user_ok s g fl -> 0 <= srcva < 2 ^ 64 -> 0 <= len -> kernel_range s g fl dst len ->
  runs (copyin root dst srcva len) s (fun r s' => exists k, 0 <= k <= len /\
    fetched s s' root g fl dst srcva k /\
    (r = 0 /\ k = len \/ r = -1 /\ k < len /\ can_read (pa_mem s) g (srcva + k) = false)).
Proof. intros. apply copyin_loop_run; try done. unfold copy_fuel, PGSIZE. dlia. Qed.
End properties.

(** Addresses below the allocator's pages are the kernel's own. *)
Lemma low_kernel (s : kst) root g fl lo n :
  vm_wf s root g fl -> user_ok s g fl -> lo + n <= kend0 -> kernel_range s g fl lo n.
Proof.
  intros [W HF _] [U _] Hlo a Ha.
  assert (HP : forall p, page_ok kend0 p -> ~ in_page p a) by (intros p (_ & Hp & _) Hin; unfold in_page in Hin; lia).
  split.
  - intros p [(lv & k & Hp)|Hp]; apply HP; [exact (pw_page _ _ _ W _ _ _ Hp)|].
    destruct (pa_free_pages s fl HF) as [_ HFp]. rewrite Forall_forall in HFp. exact (HFp p Hp).
  - intros va Hva Hu. apply HP. exact (proj1 (U va Hva Hu)).
Qed.

Lemma mappages_maps_witness : exists s root g fl,
  runs (mappages root PGSIZE (2 * PGSIZE) KERNBASE (Z.lor PTE_R PTE_X)) s (fun r s' => exists g' fl' k,
    vm_wf s' root g' fl' /\ vm_step s s' g g' fl fl' /\
    (r = 0 /\ k = 2 \/ r = -1 /\ 0 <= k < 2 /\ fl' = []) /\
    forall va', 0 <= va' < MAXVA ->
      pte_of (pa_mem s') g' va' = map_range (pte_of (pa_mem s) g) PGSIZE KERNBASE (Z.lor PTE_R PTE_X) k va').
Proof.
  destruct boot_user_ok as (s & root & g & fl & VW & HU & _ & HZ). exists s, root, g, fl.
  apply (mappages_maps s root g fl PGSIZE (2 * PGSIZE)); try done.
  intros va' Hva'. rewrite HZ; [apply has_0|]. change MAXVA with (2 ^ 38). unfold PGSIZE in *. lia.
Defined.

Lemma uvmalloc_atomic_witness : exists s root g fl,
  runs (uvmalloc root PGSIZE (3 * PGSIZE) PTE_W) s (fun r s' => exists g' fl',
    r = 3 * PGSIZE /\ grown s s' root g g' fl fl' PGSIZE 2 (Z.lor (Z.lor PTE_R PTE_U) PTE_W) \/
    r = 0 /\ unchanged s s' root g g' fl fl').
Proof.
  destruct boot_user_ok as (s & root & g & fl & VW & HU & _ & HZ). exists s, root, g, fl.
  apply (uvmalloc_atomic s root g fl PGSIZE (3 * PGSIZE) PTE_W VW HU); [done|done|done|].
  intros va Hva. change (PGSIZE <= va < PGSIZE + 2 * PGSIZE) in Hva. apply HZ. change MAXVA with (2 ^ 38). unfold PGSIZE in *. lia.
Defined.

Lemma uvmdealloc_frees_witness : exists s root g fl,
  runs (uvmdealloc root PGSIZE 0) s (fun r s' => r = 0 /\
    vm_wf s' root g (reverse (frames (pa_mem s) g 0 1) ++ fl) /\
    user_ok s' g (reverse (frames (pa_mem s) g 0 1) ++ fl) /\
    (forall va, 0 <= va < MAXVA -> pte_of (pa_mem s') g va =
       (if decide (0 <= va < PGSIZE) then 0 else pte_of (pa_mem s) g va)) /\
    (forall b, (forall q, is_table g q \/ q ∈ frames (pa_mem s) g 0 1 -> ~ in_page q b) ->
       rd (pa_mem s') b = rd (pa_mem s) b)).
Proof.
  destruct boot_user_ok as (s & root & g & fl & VW & HU & HC & _). exists s, root, g, fl.
  apply (uvmdealloc_frees s root g fl 0 1 VW HU); [done|done|by vm_compute|].
  intros va Hva. specialize (HC va Hva). unfold can_write in HC.
  apply andb_true_iff in HC as [HC _]. by apply andb_true_iff in HC as [_ HC].
Defined.

Lemma copyout_isolated_witness : exists s root g fl,
  runs (copyout root 4000 KERNBASE 200) s (fun r s' => exists k, 0 <= k <= 200 /\
    copied s s' root g fl 4000 KERNBASE k /\
    (r = 0 /\ k = 200 \/ r = -1 /\ k < 200 /\ can_write (pa_mem s) g (4000 + k) = false)).
Proof.
  destruct boot_user_ok as (s & root & g & fl & VW & HU & _ & _). exists s, root, g, fl.
  apply (copyout_isolated s root g fl 4000 KERNBASE 200); [done|done|done|done|].
  intros i va Hi Hva Hu. apply (low_kernel s root g fl KERNBASE 200); [done|done|by vm_compute|lia|done|done].
Defined.

Lemma copyin_isolated_witness : exists s root g fl,
  runs (copyin root KERNBASE 4000 200) s (fun r s' => exists k, 0 <= k <= 200 /\
    fetched s s' root g fl KERNBASE 4000 k /\
    (r = 0 /\ k = 200 \/ r = -1 /\ k < 200 /\ can_read (pa_mem s) g (4000 + k) = false)).
Proof.
  destruct boot_user_ok as (s & root & g & fl & VW & HU & _ & _). exists s, root, g, fl.
  apply (copyin_isolated s root g fl KERNBASE 4000 200); [done|done|done|done|].
  apply (low_kernel s root g fl); [done|done|by vm_compute].
Defined.
