(* ===== verification/VmCopy.v ===== *)
(** * Copying an address space: [uvmcopy] of kernel/vm.c

    [fork] gives the child a copy of the parent's memory.  The two page tables
    and their pages lie in one memory, next to the free pages; the theorem
    says that the child gets pages of its own with the contents and the
    permissions of the parent's, that the parent's are untouched, and that a
    failed copy gives every page back. *)
From S2P Require Import Prelude CString Riscv Spinlock Kalloc Vm.
Local Open Scope Z_scope.

(** ** Lemmas: entries *)
Lemma PTE_FLAGS_mod e : PTE_FLAGS e = e mod 1024.
Proof. unfold PTE_FLAGS. change 1023 with (Z.ones 10). by rewrite Z.land_ones. Qed.

Lemma PTE_FLAGS_range e : 0 <= PTE_FLAGS e < 1024.
Proof. rewrite PTE_FLAGS_mod. by apply Z.mod_pos_bound. Qed.

Lemma lor_V_id f : has f PTE_V = true -> Z.lor f PTE_V = f.
Proof.
  unfold has, PTE_V. change (1 ≪ 0) with 1. rewrite negb_true_iff, Z.eqb_neq. intros H. apply Z.bits_inj'. intros i Hi. rewrite Z.lor_spec.
  destruct (decide (i = 0)) as [->|Hne].
  - rewrite orb_true_r. symmetry. destruct (Z.testbit f 0) eqn:E; [done|]. exfalso. apply H.
    apply Z.bits_inj'. intros i Hi'. rewrite Z.land_spec, Z.bits_0. destruct (decide (i = 0)) as [->|Hn]; [by rewrite E|].
    rewrite (Z.bits_above_log2 1 i) by (cbn; lia). apply andb_false_r.
  - rewrite (Z.bits_above_log2 1 i) by (cbn; lia). apply orb_false_r.
Qed.

Lemma has_flags e f : 0 <= f < 1024 -> has (PTE_FLAGS e) f = has e f.
Proof.
  intros Hf. unfold has, PTE_FLAGS. do 2 f_equal. rewrite <- Z.land_assoc. f_equal.
  rewrite Z.land_comm. change 1023 with (Z.ones 10). rewrite Z.land_ones by lia. by apply Z.mod_small.
Qed.

(** The entry of a copied page has the flags of the original. *)
Lemma leaf_pte_flags p e : 0 <= p < 2 ^ 56 -> has e PTE_V = true -> PTE_FLAGS (leaf_pte p (PTE_FLAGS e)) = PTE_FLAGS e.
Proof.
  intros Hp Hv. unfold leaf_pte. rewrite <- Z.lor_assoc, lor_V_id by (by rewrite has_flags).
  rewrite mk_pte by (done || apply PTE_FLAGS_range). rewrite (PTE_FLAGS_mod (_ + _)).
  rewrite Z.add_comm, Z.mod_add by lia. apply Z.mod_small, PTE_FLAGS_range.
Qed.

Section copy.
Context {St : Type} {P : PageAlloc St} {L : PageAllocLaws St}.
Implicit Types s t : St.

(** The parent's address space of [n] pages: leaf entries, whose pages and
    tables are neither the child's nor free. *)
Record parent_ok (m : mem) root0 g0 g (fl : list Z) (n : nat) : Prop := {
  po_tree : pt_wf m root0 g0;
  po_tables : forall p, is_table g0 p -> ~ is_table g p /\ p ∉ fl;
  po_leaf : forall va, 0 <= va < Z.of_nat n * PGSIZE -> has (pte_of m g0 va) PTE_V = true /\ PTE_FLAGS (pte_of m g0 va) <> PTE_V;
  po_page : forall va, 0 <= va < Z.of_nat n * PGSIZE ->
    let p := PTE2PA (pte_of m g0 va) in pa_page p /\ (~ is_table g p) /\ p ∉ fl;
}.

(** Memory that belongs to neither the child's tables nor the free pages. *)
Lemma page_kept s root g g' fl fl' up s' p i :
  vm_wf s root g fl -> vm_moves s s' g g' fl fl' up -> pa_page p -> ~ is_table g p -> p ∉ fl -> 0 <= i < PGSIZE ->
  rd (pa_mem s') (p + i) = rd (pa_mem s) (p + i).
Proof.
  intros VW MV Hp Ht Hf Hi. apply (mv_mem _ _ _ _ _ _ _ MV). intros q Hq Hin.
  assert (Hqp : pa_page q /\ q <> p).
  { destruct Hq as [(lv & k & Hq)|Hq].
    - split; [exact (pw_page _ _ _ (vw_tree _ _ _ _ VW) _ _ _ Hq)|]. intros ->. apply Ht. by exists lv, k.
    - destruct (pa_free_pages s fl (vw_free _ _ _ _ VW)) as [_ HF]. rewrite Forall_forall in HF. split; [by apply HF|]. by intros ->. }
  destruct Hqp as [Hqp Hne]. pose proof (page_apart q p Hqp Hp Hne). unfold in_page in Hin. lia.
Qed.

(** The parent is untouched by what happens to the child. *)
Lemma parent_kept s t root root0 g0 g gk fl flk up n :
  vm_wf s root g fl -> parent_ok (pa_mem s) root0 g0 g fl n -> vm_moves s t g gk fl flk up ->
  parent_ok (pa_mem t) root0 g0 gk flk n /\ (forall va, pte_of (pa_mem t) g0 va = pte_of (pa_mem s) g0 va) /\
  (forall va, 0 <= va < Z.of_nat n * PGSIZE -> rd (pa_mem t) (phys (pa_mem s) g0 va) = rd (pa_mem s) (phys (pa_mem s) g0 va)).
Proof.
  intros VW [W HT HL HP] MV.
  destruct (pt_wf_frame (pa_mem s) (pa_mem t) root0 g0 W) as [W' HE].
  { intros p a Hp Ha. replace a with (p + (a - p)) by lia. destruct (HT p Hp) as [H1 H2]. destruct Hp as (lv & k & Hp).
    eapply page_kept; try done; [exact (pw_page _ _ _ W _ _ _ Hp)|unfold in_page in Ha; lia]. }
  assert (Hout : forall p, ~ is_table g p -> p ∉ fl -> ~ is_table gk p /\ p ∉ flk).
  { intros p H1 H2. pose proof (proj1 (mv_pages _ _ _ _ _ _ _ MV p)). tauto. }
  split_and!; [split; try done| |].
  - intros p Hp. destruct (HT p Hp). auto.
  - intros va Hva. rewrite HE. by apply HL.
  - intros va Hva. rewrite HE. destruct (HP va Hva) as (? & ? & ?). cbv zeta. split; [done|]. auto.
  - exact HE.
  - intros va Hva. unfold phys. destruct (HP va Hva) as (? & ? & ?). eapply page_kept; try done. by apply Z.mod_pos_bound.
Qed.

(** The child's address space after [k] pages were copied. *)
Record forked s t root g0 g gk (fl flk : list Z) (k : nat) : Prop := {
  fk_wf : vm_wf t root gk flk;
  fk_moves : vm_moves s t g gk fl flk (fun q => q ∈ frames (pa_mem t) gk 0 k);
  fk_own : NoDup (frames (pa_mem t) gk 0 k) /\
    forall q, q ∈ frames (pa_mem t) gk 0 k -> pa_page q /\ (~ is_table gk q) /\ q ∉ flk;
  fk_copy : forall va, 0 <= va < Z.of_nat k * PGSIZE ->
    has (pte_of (pa_mem t) gk va) PTE_V = true /\
    PTE_FLAGS (pte_of (pa_mem t) gk va) = PTE_FLAGS (pte_of (pa_mem s) g0 va) /\
    rd (pa_mem t) (phys (pa_mem t) gk va) = rd (pa_mem s) (phys (pa_mem s) g0 va);
  fk_old : forall va, 0 <= va < MAXVA -> ~ (va < Z.of_nat k * PGSIZE) -> pte_of (pa_mem t) gk va = pte_of (pa_mem s) g va;
}.

Lemma forked_0 s root g0 g fl : vm_wf s root g fl -> forked s s root g0 g g fl fl 0.
Proof.
  intros VW. split; [done| | | |done].
  - split; [done| |done]. intros p. unfold frames. cbn [seq map]. rewrite elem_of_nil. tauto.
  - unfold frames. cbn [seq map]. split; [constructor|]. by intros q ?%elem_of_nil.
  - intros va Hva. lia.
Qed.

(** One more page. *)
Lemma forked_step s t t' root root0 g0 g gk g' fl flk fl' k n p m1 (a := Z.of_nat k * PGSIZE) (e := pte_of (pa_mem s) g0 a) :
  vm_wf s root g fl -> parent_ok (pa_mem s) root0 g0 g fl n -> (k < n)%nat -> Z.of_nat n * PGSIZE <= MAXVA ->
  forked s t root g0 g gk fl flk k -> vm_wf t' root g' fl' -> vm_moves t t' gk g' flk fl' (fun q => q = p) ->
  pa_page p -> p ∈ flk -> ~ is_table g' p -> p ∉ fl' ->
  (forall va, 0 <= va < MAXVA -> pte_of (pa_mem t') g' va = map_range (pte_of (pa_mem t) gk) a p (PTE_FLAGS e) 1 va) ->
  only_changes p PGSIZE (pa_mem t) m1 ->
  (forall i, 0 <= i < PGSIZE -> rd (pa_mem t') (p + i) = rd (memmove m1 p (PTE2PA e) PGSIZE) (p + i)) ->
  forked s t' root g0 g g' fl fl' (S k).
Proof.
  intros VWs PO Hk Hmax [VW MV [ND OW] CP OLD] VW' MV' Hp Hpf Hpt Hpn HP HO1 HC. destruct (pa_page_bounds p Hp) as (B1 & B2 & B3).
  destruct (parent_kept _ _ _ _ _ _ _ _ _ _ n VWs PO MV) as (POt & HEt & HRt).
  assert (Ha : 0 <= a < Z.of_nat n * PGSIZE) by (unfold a, PGSIZE; lia).
  destruct (po_leaf _ _ _ _ _ _ PO a Ha) as [Hv _]. fold e in Hv.
  destruct (po_page _ _ _ _ _ _ POt a Ha) as (Q1 & Q2 & Q3). rewrite HEt in Q1, Q2, Q3. fold e in Q1, Q2, Q3.
  assert (Hold : forall va, 0 <= va < MAXVA -> ~ (a <= va < a + PGSIZE) -> pte_of (pa_mem t') g' va = pte_of (pa_mem t) gk va).
  { intros va Hva Hn. rewrite HP by done. unfold map_range. by rewrite decide_False by lia. }
  assert (Hnew : forall va, a <= va < a + PGSIZE -> pte_of (pa_mem t') g' va = leaf_pte p (PTE_FLAGS e)).
  { intros va Hva. rewrite HP by (unfold a, PGSIZE in *; lia). unfold map_range. rewrite decide_True by lia.
    assert ((va - a) / PGSIZE = 0) as -> by (unfold PGSIZE in *; dlia). f_equal. lia. }
  assert (Hpp : PTE2PA (leaf_pte p (PTE_FLAGS e)) = p) by (apply leaf_pte_pa; [unfold PGSIZE in *; lia|done|apply PTE_FLAGS_range]).
  assert (HF : frames (pa_mem t') g' 0 (S k) = frames (pa_mem t) gk 0 k ++ [p]).
  { rewrite frames_snoc, Hnew, Hpp by (unfold a, PGSIZE; lia). f_equal. apply frames_ext. intros va Hva. apply Hold; unfold a, PGSIZE in *; lia. }
  assert (Hpk : p ∉ frames (pa_mem t) gk 0 k) by (intros Hin; by destruct (OW p Hin) as (_ & _ & ?)).
  split; [done| | | |].
  - eapply vm_moves_trans; [exact MV|exact MV'|]. intros q. cbn beta. rewrite HF, elem_of_app, list_elem_of_singleton. done.
  - rewrite HF. split.
    + apply NoDup_app. split_and!; [done|intros q Hq ->%list_elem_of_singleton; done|apply NoDup_singleton].
    + intros q [Hq| ->%list_elem_of_singleton]%elem_of_app; [|done]. destruct (OW q Hq) as (O1 & O2 & O3).
      pose proof (proj1 (mv_pages _ _ _ _ _ _ _ MV' q)). split_and!; [done|tauto|tauto].
  - intros va Hva. destruct (decide (a <= va < a + PGSIZE)) as [Hd|Hd].
    + unfold phys. rewrite Hnew, Hpp by done. pose proof (Z.mod_pos_bound va PGSIZE ltac:(done)) as Hm.
      assert (Ee : pte_of (pa_mem s) g0 va = e) by (apply pte_of_page; unfold a, PGSIZE in *; dlia). rewrite Ee. split_and!.
      * rewrite leaf_pte_flag by (done || apply PTE_FLAGS_range || (unfold PGSIZE in *; lia)). apply has_V_lor.
      * apply leaf_pte_flags; [unfold PGSIZE in *; lia|done].
      * rewrite HC by done. rewrite rd_memmove by (unfold PGSIZE; lia). rewrite decide_True by lia.
        replace (PTE2PA e + (p + va mod PGSIZE - p)) with (PTE2PA e + va mod PGSIZE) by lia.
        assert (Hne : PTE2PA e <> p) by (intros E; by rewrite E in Q3). pose proof (page_apart _ _ Q1 Hp Hne).
        rewrite HO1 by lia. pose proof (HRt va ltac:(unfold a, PGSIZE in *; lia)) as HR. unfold phys in HR. by rewrite Ee in HR.
    + assert (Hva' : 0 <= va < Z.of_nat k * PGSIZE) by (unfold a, PGSIZE in *; lia). destruct (CP va Hva') as (C1 & C2 & C3).
      assert (Hr : 0 <= va < MAXVA) by (unfold a, PGSIZE in *; lia). unfold phys. rewrite Hold by done. split_and!; [done|done|].
      unfold phys in C3. rewrite <- C3. destruct (OW (PTE2PA (pte_of (pa_mem t) gk va))) as (O1 & O2 & O3); [apply u_frames; [done|]; exists va; split; [lia|done]|].
      eapply page_kept; try done. by apply Z.mod_pos_bound.
  - intros va Hva Hn. rewrite Hold, OLD; try done; unfold a, PGSIZE in *; lia.
Qed.

(** The child's address space after a failed copy: as before, up to tables;
    no page is lost. *)
Record restored s s' root g g' (fl fl' : list Z) : Prop := {
  rs_wf : vm_wf s' root g' fl';
  rs_moves : vm_moves s s' g g' fl fl' (fun _ => False);
  rs_pte : forall va, 0 <= va < MAXVA -> pte_of (pa_mem s') g' va = pte_of (pa_mem s) g va;
}.

(** The clean-up of [uvmcopy]. *)
Lemma unfork s t s1 root root0 g0 g gk g1 fl flk fl1 (k n : nat) :
  parent_ok (pa_mem s) root0 g0 g fl n -> (k <= n)%nat -> Z.of_nat n * PGSIZE <= MAXVA ->
  (forall va, 0 <= va < Z.of_nat n * PGSIZE -> pte_of (pa_mem s) g va = 0) ->
  forked s t root g0 g gk fl flk k -> vm_wf s1 root g1 fl1 -> vm_moves t s1 gk g1 flk fl1 (fun _ => False) ->
  (forall va, 0 <= va < MAXVA -> pte_of (pa_mem s1) g1 va = pte_of (pa_mem t) gk va) ->
  runs (uvmunmap root 0 (Z.of_nat k) true) s1 (fun _ s' => exists fl', restored s s' root g g1 fl fl').
Proof.
  intros PO Hk Hmax Hz [VW MV [ND OW] CP OLD] VW1 MV1 HP1. assert (Hkn : Z.of_nat k * PGSIZE <= Z.of_nat n * PGSIZE) by (unfold PGSIZE; lia).
  assert (HF : frames (pa_mem s1) g1 0 k = frames (pa_mem t) gk 0 k).
  { apply frames_ext. intros va Hva. apply HP1. lia. }
  eapply runs_mono.
  { apply (uvmunmap_run s1 root g1 fl1 0 k VW1); [done|done|lia| |by rewrite HF|].
    - intros j e Hj ->. assert (Hva : 0 <= 0 + PGSIZE * Z.of_nat j < Z.of_nat k * PGSIZE) by (unfold PGSIZE; lia).
      rewrite HP1 by lia. destruct (CP _ Hva) as (C1 & C2 & _). split; [done|]. rewrite C2. apply (po_leaf _ _ _ _ _ _ PO). lia.
    - rewrite HF. intros q Hq. destruct (OW q Hq) as (O1 & O2 & O3). pose proof (proj1 (mv_pages _ _ _ _ _ _ _ MV1 q)). split_and!; [done|tauto|tauto]. }
  intros r s' (VW' & HP' & HM'). rewrite HF in VW', HM'.
  pose proof (vm_moves_trans _ _ _ _ _ _ _ _ _ _ _ _ MV MV1 (fun q => iff_sym (or_False (q ∈ frames (pa_mem t) gk 0 k)))) as MV2.
  eexists. split; [exact VW'| |].
  - destruct MV2 as [V1 V2 V3]. split; [done| |].
    + intros q. rewrite <- V2, elem_of_app, elem_of_reverse. tauto.
    + intros b Hb. rewrite HM'; [by apply V3|..]; intros q Hq; apply Hb, V2; tauto.
  - intros va Hva. rewrite HP' by done. case_decide as Hd; [by rewrite Hz by lia|]. rewrite HP1 by done. apply OLD; [done|lia].
Qed.

Lemma memmove_only m d src n : 0 <= n -> only_changes d n m (memmove m d src n).
Proof. intros Hn a Ha. rewrite rd_memmove by done. by rewrite decide_False by lia. Qed.

Lemma uvmcopy_run s root root0 g0 g fl sz (n := Z.to_nat ((sz + PGSIZE - 1) / PGSIZE)) :
  vm_wf s root g fl -> parent_ok (pa_mem s) root0 g0 g fl n -> 0 <= sz <= MAXVA ->
  (forall va, 0 <= va < Z.of_nat n * PGSIZE -> pte_of (pa_mem s) g va = 0) ->
  runs (uvmcopy root0 root sz) s (fun r s' => exists g' fl',
    r = 0 /\ forked s s' root g0 g g' fl fl' n \/ r = -1 /\ restored s s' root g g' fl fl').
Proof.
  intros VW PO Hsz Hz. unfold uvmcopy. change MAXVA with (2 ^ 38) in Hsz.
  assert (Hend : Z.of_nat n * PGSIZE <= MAXVA) by (change MAXVA with (2 ^ 38); unfold n, PGSIZE in *; dlia).
  eapply (runs_seq _ _ s (fun r s' => exists g' fl', r = None /\ forked s s' root g0 g g' fl fl' n \/
    r = Some (-1) /\ restored s s' root g g' fl fl')).
  2:{ intros r s' (g' & fl' & [(-> & H)|(-> & H)]); mstep; exists g', fl'; [by left|by right]. }
  unfold for_loop. rewrite Z.sub_0_r. fold n.
  apply (runs_forn _ _ _ _ (fun k t => exists g' fl', forked s t root g0 g g' fl fl' k)).
  - exists g, fl. by apply forked_0.
  - intros k t Hk (gk & flk & FK). replace (0 + PGSIZE * Z.of_nat k) with (Z.of_nat k * PGSIZE) by lia.
    set (a := Z.of_nat k * PGSIZE). assert (Ha : 0 <= a /\ a + PGSIZE <= Z.of_nat n * PGSIZE) by (unfold a, PGSIZE; lia).
    pose proof FK as [VWk MV _ _ OLD]. destruct (parent_kept _ _ _ _ _ _ _ _ _ _ n VW PO MV) as (POt & HEt & HRt).
    assert (VW0 : vm_wf t root0 g0 flk).
    { split; [apply POt|apply VWk|]. intros p Hp Ht. by destruct (po_tables _ _ _ _ _ _ POt p Ht). }
    destruct (po_leaf _ _ _ _ _ _ PO a ltac:(unfold PGSIZE in *; lia)) as [Hv _]. set (e := pte_of (pa_mem s) g0 a) in *.
    apply runs_bind. eapply runs_eq; [apply (walk_false t root0 g0 flk a VW0); unfold PGSIZE in *; lia|].
    destruct (g0 0 (table_key 0 a)) as [tb|] eqn:Et.
    2:{ exfalso. unfold e, pte_of in Hv. by rewrite Et, has_0 in Hv. }
    assert (Ee : load64 (pa_mem t) (tb + 8 * PX 0 a) = e).
    { pose proof (HEt a) as H. unfold pte_of in H at 1. rewrite Et in H. done. }
    destruct (pa_page_bounds tb (pw_page _ _ _ (vw_tree _ _ _ _ VW0) _ _ _ Et)) as (B1 & _ & _).
    pose proof (PX_range 0 a ltac:(lia)). rewrite (proj2 (Z.eqb_neq _ _)) by lia.
    unfold ld64. mstep. rewrite Ee, Hv. cbn [negb].
    apply (page_round t root gk flk a (PTE_FLAGS e) (fun p m => memmove m p (PTE2PA e) PGSIZE)
      (uvmunmap root 0 (a / PGSIZE) true ;; ret (Some (-1)))); try done; try (unfold PGSIZE in *; lia).
    + unfold a, PGSIZE. dlia.
    + rewrite OLD by (unfold a, PGSIZE in *; lia). rewrite Hz by (unfold PGSIZE in *; lia). apply has_0.
    + apply PTE_FLAGS_range.
    + intros p m. by apply memmove_only.
    + intros s1 g1 fl1 VW1 MV1 HP1. replace (a / PGSIZE) with (Z.of_nat k) by (unfold a, PGSIZE; dlia).
      eapply runs_seq; [eapply (unfork s t s1 root root0 g0 g gk g1 fl flk fl1 k n); try done; lia|].
      intros u s' (fl' & HR). mstep. exists g1, fl'. by right.
    + intros s1 g1 fl1 p m1 W1 M1 Hp Hpf Hpt Hpn HP HO HC. exists g1, fl1.
      eapply (forked_step s t s1 root root0 g0 g gk g1 fl flk fl1 k n p m1); done.
  - intros t (g' & fl' & FK). exists g', fl'. by left.
Qed.
End copy.

(** ** Properties *)

(** C24. [uvmcopy] copies an address space, all of it or nothing. For a parent
    whose [sz] bytes are mapped and a child that has nothing mapped there it
    either returns 0, and then every page of the child is a page of its own
    off the free list with the parent's permissions, and every address reads
    the same in both; or it returns -1 because memory is out, the child's
    entries are as before and every page it took is back on the free list or
    serves as a table of the child. The parent's entries and bytes are
    unchanged in both cases, and it never panics. *)
Theorem uvmcopy_copies {St : Type} {P : PageAlloc St} {L : PageAllocLaws St} (s : St) root root0 g0 g fl sz
    (n := Z.to_nat ((sz + PGSIZE - 1) / PGSIZE)) :
  vm_wf s root g fl -> parent_ok (pa_mem s) root0 g0 g fl n -> 0 <= sz <= MAXVA ->
  (forall va, 0 <= va < Z.of_nat n * PGSIZE -> pte_of (pa_mem s) g va = 0) ->
  runs (uvmcopy root0 root sz) s (fun r s' => exists g' fl',
    (r = 0 /\ forked s s' root g0 g g' fl fl' n \/ r = -1 /\ restored s s' root g g' fl fl') /\
    (forall va, pte_of (pa_mem s') g0 va = pte_of (pa_mem s) g0 va) /\
    (forall va, 0 <= va < Z.of_nat n * PGSIZE -> rd (pa_mem s') (phys (pa_mem s) g0 va) = rd (pa_mem s) (phys (pa_mem s) g0 va))).
Proof.
  intros VW PO Hsz Hz. eapply runs_mono; [by apply uvmcopy_run|]. intros r s' (g' & fl' & H). exists g', fl'. split; [exact H|].
  destruct H as [(_ & FK)|(_ & RS)].
  - eapply (parent_kept s s' root root0 g0 g g' fl fl'); [done|done|apply FK].
  - eapply (parent_kept s s' root root0 g0 g g' fl fl'); [done|done|apply RS].
Qed.

(** A machine with an empty child and a parent of one page. *)
#[local] Existing Instances alloc0 alloc_laws0.

Definition boot_fork : M kst Z :=
  forn (A := unit) 8 kend0 PGSIZE (fun p => kfree kend0 (Ctx 0 1) p ;; ret None) ;;
  uvmcreate ;;
  let! parent := uvmcreate in
  let! r := uvmalloc parent 0 PGSIZE PTE_W in
  ret (if r =? PGSIZE then parent else 0).

Lemma boot_fork_returns : fst (boot_fork k_boot) = Ret (kend0 + 6 * PGSIZE).
Proof. vm_compute. reflexivity. Qed.

Lemma boot_fork_ok : exists s root root0 g0 g fl,
  vm_wf s root g fl /\ parent_ok (pa_mem s) root0 g0 g fl 1 /\ (forall va, pte_of (pa_mem s) g va = 0).
Proof.
  assert (HR : runs boot_fork k_boot (fun r s => r <> 0 -> exists root root0 g0 g fl,
    vm_wf s root g fl /\ parent_ok (pa_mem s) root0 g0 g fl 1 /\ (forall va, pte_of (pa_mem s) g va = 0))).
  { unfold boot_fork. eapply runs_seq.
    { apply (freerange_run kend0 (Ctx 0 1)); [split; vm_compute; discriminate|done|done|done|by repeat constructor]. }
    intros u s1 HF. cbn beta in HF. eapply runs_seq; [by apply (uvmcreate_run s1)|]. intros child s2 (-> & VWc & _). change (Z.of_nat 7) with 7 in VWc.
    eapply runs_seq; [apply (uvmcreate_run s2); apply VWc|]. intros root s3 (-> & VW & HO). change (Z.of_nat 6) with 6 in VW, HO |- *. set (c := kend0 + PGSIZE * 7) in *.
    eapply runs_seq.
    { apply (uvmalloc_run s3 _ _ _ 0 PGSIZE PTE_W VW (bare_user_ok _ _ _)); [done|done|done|]. intros va _. apply bare_tree_pte. }
    intros r s4 (g' & fl' & [(-> & G)|(-> & _)]); mstep; [|done]. intros _. set (p := kend0 + PGSIZE * 6) in *.
    exists c, p, g', (bare_tree c), fl'.
    assert (Hc : forall q, is_table (bare_tree c) q -> q = c).
    { intros q (lv & k & H). unfold bare_tree in H. case_decide; [|done]. by injection H as <-. }
    assert (Hcp : pa_page c) by (eapply (pw_page _ _ _ (vw_tree _ _ _ _ VWc) 2 0); apply (vw_tree _ _ _ _ VWc)).
    assert (Hct : ~ is_table (bare_tree p) c).
    { intros (lv & k & H). unfold bare_tree in H. case_decide; [|done]. injection H as H. unfold p, c, PGSIZE in H. lia. }
    match goal with _ : vm_wf s3 p _ ?f |- _ => set (fl0 := f) in * end.
    assert (Hcf : c ∉ fl0) by (apply (bool_decide_unpack _); by vm_compute).
    assert (Hkeep : forall a, in_page c a -> rd (pa_mem s4) a = rd (pa_mem s2) a).
    { intros a Ha. rewrite <- HO by (unfold in_page, p, c, PGSIZE in *; lia). replace a with (c + (a - c)) by lia.
      eapply page_kept; [exact VW|apply G|done|done|done|unfold in_page in Ha; lia]. }
    assert (Hout : ~ is_table g' c /\ c ∉ fl') by (pose proof (proj1 (mv_pages _ _ _ _ _ _ _ (gr_moves _ _ _ _ _ _ _ _ _ _ G) c)); tauto).
    destruct (pt_wf_frame (pa_mem s2) (pa_mem s4) c (bare_tree c) (vw_tree _ _ _ _ VWc)) as [W' HE].
    { intros q a Hq%Hc Ha. subst q. by apply Hkeep. }
    split_and!.
    - split; [done|apply G|]. intros q Hq Ht%Hc. subst q. tauto.
    - split.
      + apply G.
      + intros q Hq. split; [intros Ht%Hc; subst q; tauto|]. intros Hf. by apply (vw_disj _ _ _ _ (gr_wf _ _ _ _ _ _ _ _ _ _ G) q Hf).
      + intros va Hva. apply user_pte_flags, (grown_user _ _ _ _ _ _ _ _ _ _ _ G); done.
      + intros va Hva. assert (Hr : 0 <= va < MAXVA) by (change MAXVA with (2 ^ 38); unfold PGSIZE in *; lia).
        destruct (uo_page _ _ _ (gr_user _ _ _ _ _ _ _ _ _ _ G) va Hr (grown_user _ _ _ _ _ _ _ _ _ _ _ G ltac:(done) Hva)) as (P1 & P2 & P3).
        cbv zeta. split_and!; [done| |done]. intros Ht%Hc.
        pose proof (proj1 (mv_pages _ _ _ _ _ _ _ (gr_moves _ _ _ _ _ _ _ _ _ _ G) c)) as HM. destruct HM; [|tauto|tauto].
        right. right. rewrite <- Ht. apply u_frames; [done|]. exists va. done.
    - intros va. apply bare_tree_pte. }
  destruct HR as (r & s & E & H). exists s. apply H. pose proof boot_fork_returns as B. rewrite E in B. cbn [fst] in B.
  injection B as ->. done.
Qed.

Lemma uvmcopy_copies_witness : exists s root root0 g0 g fl,
  runs (uvmcopy root0 root PGSIZE) s (fun r s' => exists g' fl',
    (r = 0 /\ forked s s' root g0 g g' fl fl' 1 \/ r = -1 /\ restored s s' root g g' fl fl') /\
    (forall va, pte_of (pa_mem s') g0 va = pte_of (pa_mem s) g0 va) /\
    (forall va, 0 <= va < PGSIZE -> rd (pa_mem s') (phys (pa_mem s) g0 va) = rd (pa_mem s) (phys (pa_mem s) g0 va))).
Proof.
  destruct boot_fork_ok as (s & root & root0 & g0 & g & fl & VW & PO & HZ). exists s, root, root0, g0, g, fl.
  apply (uvmcopy_copies s root root0 g0 g fl PGSIZE VW PO); [done|]. intros va _. apply HZ.
Defined.
