(* ===== verification/Pipe.v ===== *)
(** * Pipes: kernel/pipe.c

    A pipe is an object in a page of the allocator; pipes are kept in a map by
    the address of their page, so that using a pipe after it was freed shows as
    undefined behaviour. What pipe.c calls elsewhere is an interface: the page
    allocator ([PageAlloc]), [copyin]/[copyout] ([UserMem]) and the process
    services [killed] and [wakeup] ([ProcServices]). The code between two
    calls of [sleep] runs under the pipe's lock; [pipewrite] and [piperead] are
    written in those pieces, so that several processes can be interleaved. *)
From S2P Require Import Prelude CString Riscv Spinlock Kalloc Fs.
Local Open Scope Z_scope.

Definition PIPESIZE : Z := 512.

(** [killed(myproc())] and [wakeup] as their callers see them. *)
Class ProcServices (E : Type) : Type := {
  svc_killed : M E bool;
  svc_wakeup : chan -> M E unit;
}.

Record pipe := Pipe {
  pi_lock : spinlock; pi_data : list Z; nread : Z; nwrite : Z; readopen : Z; writeopen : Z;
}.

Definition set_pilock (l : spinlock) (p : pipe) : pipe := Pipe l (pi_data p) (nread p) (nwrite p) (readopen p) (writeopen p).
Definition set_nread (n : Z) (p : pipe) : pipe := Pipe (pi_lock p) (pi_data p) n (nwrite p) (readopen p) (writeopen p).
Definition set_nwrite (n : Z) (p : pipe) : pipe := Pipe (pi_lock p) (pi_data p) (nread p) n (readopen p) (writeopen p).
Definition set_readopen (n : Z) (p : pipe) : pipe := Pipe (pi_lock p) (pi_data p) (nread p) (nwrite p) n (writeopen p).
Definition set_writeopen (n : Z) (p : pipe) : pipe := Pipe (pi_lock p) (pi_data p) (nread p) (nwrite p) (readopen p) n.
Definition set_data (i : nat) (b : Z) (p : pipe) : pipe :=
  Pipe (pi_lock p) (<[i := b]> (pi_data p)) (nread p) (nwrite p) (readopen p) (writeopen p).

Record pst (E : Type) := PSt { ps_pipe : gmap Z pipe; ps_env : E }.
Arguments PSt {E}. Arguments ps_pipe {E}. Arguments ps_env {E}.

Section ops.
Context {E : Type} {PA : PageAlloc E} {PS : ProcServices E} {UM : UserMem E} (x : ctx).
Local Abbreviation PM := (M (pst E)).

Definition on_env {A} (m : M E A) : PM A := zoom ps_env (fun e s => PSt (ps_pipe s) e) m.

(** [pi->...] for the pipe in the page [pi]. *)
Definition on_pipe {A} (pi : Z) (m : M pipe A) : PM A := fun s =>
  match ps_pipe s !! pi with
  | Some p => let '(r, p') := m p in (r, PSt (<[pi := p']> (ps_pipe s)) (ps_env s))
  | None => (Undef "no pipe in this page", s)
  end.

Definition lock_pipe (pi : Z) : PM unit := on_pipe pi (zoom pi_lock set_pilock (acquire_word (c_hart x))).
Definition unlock_pipe (pi : Z) : PM unit := on_pipe pi (zoom pi_lock set_pilock (release_word (c_hart x))).
Definition nread_chan (pi : Z) : chan := Chan "pipe.nread" pi.
Definition nwrite_chan (pi : Z) : chan := Chan "pipe.nwrite" pi.

(** The part of [pipealloc] that makes the pipe (the file structures are the
    caller's): 0 when no page is free. *)
Definition pipealloc_pipe : PM Z :=
  let! pi := on_env pa_alloc in
  if pi =? 0 then ret 0
  else
    let! data := on_env (gets (fun e => map (fun k => rd (pa_mem e) (pi + 24 + Z.of_nat k)) (seq 0 512))) in
    modify (fun s => PSt (<[pi := Pipe (initlock "pipe") data 0 0 1 1]> (ps_pipe s)) (ps_env s)) ;;
    ret pi.

Definition pipeclose (pi : Z) (writable : bool) : PM unit :=
  lock_pipe pi ;;
  (if writable then
     on_pipe pi (modify (set_writeopen 0)) ;;
     on_env (svc_wakeup (nread_chan pi))
   else
     on_pipe pi (modify (set_readopen 0)) ;;
     on_env (svc_wakeup (nwrite_chan pi))) ;;
  let! p := on_pipe pi get in
  if (readopen p =? 0) && (writeopen p =? 0) then
    unlock_pipe pi ;;
    on_env (pa_release pi) ;;
    modify (fun s => PSt (delete pi (ps_pipe s)) (ps_env s))
  else unlock_pipe pi.

(** How a piece of [pipewrite] or [piperead] ends: it returned, or it is in
    [sleep] with the lock released, having moved [i] bytes. *)
Inductive progress := Returned (r : Z) | Asleep (i : Z).

(** [pipewrite] from the test of its loop on, with the lock held and [i] bytes
    written. Every round returns, sleeps or writes a byte: [n - i + 1] rounds
    are enough. *)
Fixpoint pipewrite_loop (fuel : nat) (pi addr n i : Z) : PM progress :=
  match fuel with
  | O => stall (Chan "pipewrite" 0)
  | S f =>
      if negb (i <? n) then
        on_env (svc_wakeup (nread_chan pi)) ;; unlock_pipe pi ;; ret (Returned i)
      else
        let! p := on_pipe pi get in
        let! k := (if readopen p =? 0 then ret true else on_env svc_killed) in
        if (k : bool) then unlock_pipe pi ;; ret (Returned (-1))
        else if nwrite p =? u32 (nread p + PIPESIZE) then
          on_env (svc_wakeup (nread_chan pi)) ;;
          unlock_pipe pi ;;
          ret (Asleep i)
        else
          let! (bs, st) := on_env (um_copyin (u64 (addr + i)) [0]) in
          if st =? -1 then
            on_env (svc_wakeup (nread_chan pi)) ;; unlock_pipe pi ;; ret (Returned i)
          else
            on_pipe pi (modify (set_data (Z.to_nat (nwrite p mod PIPESIZE)) (nth 0 bs 0))) ;;
            on_pipe pi (modify (set_nwrite (u32 (nwrite p + 1)))) ;;
            pipewrite_loop f pi addr n (i + 1)
  end.

Definition pipewrite_from (pi addr n i : Z) : PM progress :=
  lock_pipe pi ;;
  pipewrite_loop (S (Z.to_nat (n - i))) pi addr n i.

Definition pipewrite (pi addr n : Z) : PM Z :=
  let! r := pipewrite_from pi addr n 0 in
  match r with
  | Returned v => ret v
  | Asleep _ => stall (nwrite_chan pi)
  end.

Definition piperead_copy (pi addr n : Z) : PM Z :=
  let! r := forn (A := Z) (Z.to_nat n) 0 1 (fun i =>
    let! p := on_pipe pi get in
    if nread p =? nwrite p then ret (Some i)
    else
      let ch := nth (Z.to_nat (nread p mod PIPESIZE)) (pi_data p) 0 in
      on_pipe pi (modify (set_nread (u32 (nread p + 1)))) ;;
      let! st := on_env (um_copyout (u64 (addr + i)) [ch]) in
      ret (if st =? -1 then Some i else None)) in
  let i := match r with Some i => i | None => Z.max 0 n end in
  on_env (svc_wakeup (nwrite_chan pi)) ;;
  unlock_pipe pi ;;
  ret i.

(** [piperead] from the test of its first loop on. *)
Definition piperead_from (pi addr n : Z) : PM progress :=
  lock_pipe pi ;;
  let! p := on_pipe pi get in
  if (nread p =? nwrite p) && negb (writeopen p =? 0) then
    let! k := on_env svc_killed in
    if (k : bool) then unlock_pipe pi ;; ret (Returned (-1))
    else unlock_pipe pi ;; ret (Asleep 0)
  else
    let! i := piperead_copy pi addr n in
    ret (Returned i).

Definition piperead (pi addr n : Z) : PM Z :=
  let! r := piperead_from pi addr n in
  match r with
  | Returned v => ret v
  | Asleep _ => stall (nread_chan pi)
  end.
End ops.

(** ** The abstract pipe: a bounded queue of bytes *)
Definition queue (p : pipe) : list Z :=
  map (fun k => nth (Z.to_nat ((nread p + Z.of_nat k) mod PIPESIZE)) (pi_data p) 0)
    (seq 0 (Z.to_nat (u32 (nwrite p - nread p)))).

Record pipe_wf (p : pipe) : Prop := {
  pp_len : length (pi_data p) = 512%nat;
  pp_read : 0 <= nread p < 2 ^ 32;
  pp_write : 0 <= nwrite p < 2 ^ 32;
  pp_size : u32 (nwrite p - nread p) <= PIPESIZE;
}.

(** What the pipe code relies on: the services return, a user byte is copied
    in as it is ([uview]: readable bytes of the process), copied out to where
    it belongs, or refused with -1. *)
Class PipeEnv (E : Type) {PS : ProcServices E} {UM : UserMem E} : Type := {
  uview : E -> Z -> option Z;
  pe_killed : forall e, exists b e', svc_killed e = (Ret b, e') /\ uview e' = uview e;
  pe_wakeup : forall c e, exists e', svc_wakeup c e = (Ret tt, e') /\ uview e' = uview e;
  pe_copyin : forall a e, exists bs st e', um_copyin a [0] e = (Ret (bs, st), e') /\ uview e' = uview e /\
    match uview e a with Some b => bs = [b] /\ st = 0 | None => st = -1 end;
  pe_copyout : forall a b e, exists st e', um_copyout a [b] e = (Ret st, e') /\
    (st = -1 /\ uview e' = uview e \/
     st = 0 /\ forall a', uview e' a' = (if decide (a' = a) then Some b else uview e a'));
}.

(** ** Lemmas: the ring *)
Lemma queue_length p : length (queue p) = Z.to_nat (u32 (nwrite p - nread p)).
Proof. unfold queue. by rewrite length_map, length_seq. Qed.

Lemma queue_bound p : pipe_wf p -> (length (queue p) <= 512)%nat.
Proof. intros [_ _ _ H]. rewrite queue_length. unfold PIPESIZE in H. lia. Qed.

Lemma queue_empty p : pipe_wf p -> (nread p =? nwrite p) = true <-> queue p = [].
Proof.
  intros W. rewrite Z.eqb_eq, <- length_zero_iff_nil, queue_length. pose proof W as [_ H1 H2 _]. unfold u32. split.
  - intros ->. by rewrite Z.sub_diag.
  - intros H. dlia.
Qed.

Lemma queue_full p : pipe_wf p -> (nwrite p =? u32 (nread p + PIPESIZE)) = true <-> length (queue p) = 512%nat.
Proof.
  intros W. rewrite Z.eqb_eq, queue_length. pose proof W as [_ H1 H2 H3]. unfold u32, PIPESIZE in *. split; intros; dlia.
Qed.

(** A slot of the ring other than the one being written. *)
Lemma ring_slot n k j : 0 <= k -> k < j -> j < 512 -> (n + k) mod 512 <> (n + j) mod 512.
Proof. intros. dlia. Qed.

Lemma queue_push p b (p' := set_nwrite (u32 (nwrite p + 1)) (set_data (Z.to_nat (nwrite p mod PIPESIZE)) b p)) :
  pipe_wf p -> (nwrite p =? u32 (nread p + PIPESIZE)) = false -> pipe_wf p' /\ queue p' = queue p ++ [b].
Proof.
  intros W Hn. pose proof W as [HL H1 H2 H3]. apply Z.eqb_neq in Hn.
  assert (HS : u32 (nwrite p - nread p) < PIPESIZE) by (unfold u32, PIPESIZE in *; dlia).
  assert (HN : u32 (u32 (nwrite p + 1) - nread p) = u32 (nwrite p - nread p) + 1) by (unfold u32, PIPESIZE in *; dlia).
  split.
  - split; cbn [nread nwrite pi_data set_nwrite set_data p']; [by rewrite length_insert|done|apply u32_range|unfold PIPESIZE in *; lia].
  - unfold queue. cbn [nread nwrite pi_data set_nwrite set_data p']. rewrite HN.
    set (L := Z.to_nat (u32 (nwrite p - nread p))).
    replace (Z.to_nat (u32 (nwrite p - nread p) + 1)) with (S L) by (pose proof (u32_range (nwrite p - nread p)); lia).
    rewrite seq_S, map_app. cbn [map]. assert (HLz : Z.of_nat L = u32 (nwrite p - nread p)) by (pose proof (u32_range (nwrite p - nread p)); lia).
    assert (HW : (nread p + Z.of_nat L) mod PIPESIZE = nwrite p mod PIPESIZE) by (rewrite HLz; unfold u32, PIPESIZE in *; dlia).
    f_equal.
    + apply map_ext_in. intros k Hk%in_seq. rewrite !nth_lookup, list_lookup_insert_ne; [done|]. rewrite <- HW.
      pose proof (ring_slot (nread p) (Z.of_nat k) (Z.of_nat L)) as HR. unfold PIPESIZE in *.
      intros Hc. apply HR; [lia|lia|lia|]. apply Z2Nat.inj in Hc; [done| |]; apply Z.mod_pos_bound; lia.
    + rewrite Nat.add_0_l, HW, nth_lookup, list_lookup_insert_eq; [done|]. unfold PIPESIZE. rewrite HL.
      pose proof (Z.mod_pos_bound (nwrite p) 512 ltac:(lia)). lia.
Qed.

Lemma queue_pop p (p' := set_nread (u32 (nread p + 1)) p) :
  pipe_wf p -> (nread p =? nwrite p) = false ->
  pipe_wf p' /\ queue p = nth (Z.to_nat (nread p mod PIPESIZE)) (pi_data p) 0 :: queue p'.
Proof.
  intros W Hn. pose proof W as [HL H1 H2 H3]. apply Z.eqb_neq in Hn.
  assert (HN : u32 (nwrite p - u32 (nread p + 1)) = u32 (nwrite p - nread p) - 1) by (unfold u32, PIPESIZE in *; dlia).
  assert (HP : 1 <= u32 (nwrite p - nread p)) by (unfold u32, PIPESIZE in *; dlia).
  split.
  - split; cbn [nread nwrite pi_data set_nread p']; [done|apply u32_range|done|unfold PIPESIZE in *; lia].
  - unfold queue. cbn [nread nwrite pi_data set_nread p']. rewrite HN.
    replace (Z.to_nat (u32 (nwrite p - nread p))) with (S (Z.to_nat (u32 (nwrite p - nread p) - 1))) by lia.
    cbn [seq map]. rewrite Z.add_0_r. f_equal. rewrite <- seq_shift, map_map. apply map_ext. intros k.
    do 2 f_equal. unfold u32, PIPESIZE. dlia.
Qed.

(** ** Lemmas: the pieces of [pipewrite] and [piperead] *)
Section pieces.
Context {E : Type} {PA : PageAlloc E} {PS : ProcServices E} {UM : UserMem E} {PE : PipeEnv E} (x : ctx).
Implicit Types s : pst E.

Definition held (p : pipe) : Prop := pi_lock p = Spinlock 1 (lk_name (pi_lock p)) (Some (c_hart x)).
Definition unlocked (p : pipe) : Prop := lk_free (pi_lock p).
Definition put (pi : Z) (p : pipe) s : pst E := PSt (<[pi := p]> (ps_pipe s)) (ps_env s).

Lemma runs_on_pipe {A} pi p (m : M pipe A) s Q :
  ps_pipe s !! pi = Some p -> runs m p (fun a p' => Q a (put pi p' s)) -> runs (on_pipe pi m) s Q.
Proof. intros Hp (a & p' & Em & HQ). exists a, (put pi p' s). split; [|done]. unfold on_pipe. by rewrite Hp, Em. Qed.

Lemma runs_pipe_get pi p s Q : ps_pipe s !! pi = Some p -> Q p s -> runs (on_pipe pi get) s Q.
Proof.
  intros Hp HQ. eapply runs_on_pipe; [exact Hp|]. apply runs_get. unfold put. rewrite insert_id by done. by destruct s.
Qed.

Lemma lock_pipe_run pi p s Q :
  ps_pipe s !! pi = Some p -> unlocked p ->
  (forall p', p' = set_pilock (Spinlock 1 (lk_name (pi_lock p)) (Some (c_hart x))) p -> held p' -> Q tt (put pi p' s)) ->
  runs (lock_pipe x pi) s Q.
Proof.
  intros Hp Hu HQ. unfold lock_pipe. eapply runs_on_pipe; [exact Hp|]. apply runs_zoom.
  eapply runs_eq; [by apply acquire_word_free|]. by apply HQ.
Qed.

Lemma unlock_pipe_run pi p s Q :
  ps_pipe s !! pi = Some p -> held p ->
  (forall p', p' = set_pilock (Spinlock 0 (lk_name (pi_lock p)) None) p -> unlocked p' -> Q tt (put pi p' s)) ->
  runs (unlock_pipe x pi) s Q.
Proof.
  intros Hp Hh HQ. unfold unlock_pipe. eapply runs_on_pipe; [exact Hp|]. apply runs_zoom. rewrite Hh.
  eapply runs_eq; [apply release_word_held|]. apply HQ; [|done]. by rewrite Hh.
Qed.

(** A service call changes the environment only. *)
Lemma env_wakeup c s Q :
  (forall e', uview e' = uview (ps_env s) -> Q tt (PSt (ps_pipe s) e')) -> runs (on_env (svc_wakeup c)) s Q.
Proof.
  intros HQ. apply runs_zoom. destruct (pe_wakeup c (ps_env s)) as (e' & Ee & Hv). eapply runs_eq; [exact Ee|]. by apply HQ.
Qed.

Lemma env_killed s Q :
  (forall b e', svc_killed (ps_env s) = (Ret b, e') -> uview e' = uview (ps_env s) -> Q b (PSt (ps_pipe s) e')) ->
  runs (on_env svc_killed) s Q.
Proof.
  intros HQ. apply runs_zoom. destruct (pe_killed (ps_env s)) as (b & e' & Ee & Hv). eapply runs_eq; [exact Ee|]. by apply HQ.
Qed.

(** The end of both functions: [wakeup] and [release]. *)
Lemma finish_run {A} pi p c (r : A) s Q :
  ps_pipe s !! pi = Some p -> held p ->
  (forall p' e', p' = set_pilock (Spinlock 0 (lk_name (pi_lock p)) None) p -> unlocked p' -> uview e' = uview (ps_env s) ->
     Q r (PSt (<[pi := p']> (ps_pipe s)) e')) ->
  runs (on_env (svc_wakeup c) ;; unlock_pipe x pi ;; ret r) s Q.
Proof.
  intros Hp Hh HQ. apply runs_bind, env_wakeup. intros e' Hv. apply runs_bind. eapply unlock_pipe_run; [exact Hp|exact Hh|].
  intros p' Ep Hu. apply runs_ret. by apply HQ.
Qed.

(** The bytes [ws] are the process's bytes from [addr + i] on. *)
Definition user_bytes (e : E) (addr i : Z) (ws : list Z) : Prop :=
  forall k b, ws !! k = Some b -> uview e (u64 (addr + i + Z.of_nat k)) = Some b.

(** A piece of [pipewrite] that found [p] and [i] bytes written and left [p']
    and [j] bytes written. *)
Record wrote (e : E) (addr i j : Z) (p p' : pipe) : Prop := {
  wr_wf : pipe_wf p';
  wr_unlocked : unlocked p';
  wr_same : nread p' = nread p /\ readopen p' = readopen p /\ writeopen p' = writeopen p;
  wr_queue : exists ws, queue p' = queue p ++ ws /\ Z.of_nat (length ws) = j - i /\ user_bytes e addr i ws;
}.

Definition write_ends (e : E) (addr n j : Z) (p p' : pipe) (r : progress) : Prop :=
  match r with
  | Returned v => v = j /\ (n <= j \/ uview e (u64 (addr + j)) = None) \/
                  v = -1 /\ (readopen p = 0 \/ exists e1 e2, svc_killed e1 = (Ret true, e2))
  | Asleep k => k = j /\ j < n /\ length (queue p') = 512%nat /\ readopen p <> 0
  end.

Lemma wrote_here e addr i p p' :
  pipe_wf p -> p' = set_pilock (Spinlock 0 (lk_name (pi_lock p)) None) p -> unlocked p' -> wrote e addr i i p p'.
Proof.
  intros [W1 W2 W3 W4] -> Hu. split; [done|done|done|]. exists []. split_and!; [by rewrite app_nil_r|cbn; lia|]. intros k b H. done.
Qed.

Lemma wrote_cons e addr i j p p1 p' b :
  wrote e addr (i + 1) j p1 p' -> queue p1 = queue p ++ [b] -> uview e (u64 (addr + i)) = Some b ->
  nread p1 = nread p /\ readopen p1 = readopen p /\ writeopen p1 = writeopen p -> wrote e addr i j p p'.
Proof.
  intros [A1 A2 (A3 & A4 & A5) (ws & A6 & A7 & A8)] HQ Hb (B1 & B2 & B3). split; [done|done|by rewrite A3, A4, A5|].
  exists (b :: ws). split_and!.
  - by rewrite A6, HQ, <- app_assoc.
  - cbn [length]. lia.
  - intros [|k] c Hk; cbn in Hk.
    + injection Hk as <-. rewrite <- Hb. do 2 f_equal. lia.
    + rewrite <- (A8 k c Hk). do 2 f_equal. lia.
Qed.

Lemma pipewrite_loop_run fuel pi addr n i p s :
  ps_pipe s !! pi = Some p -> pipe_wf p -> held p -> (Z.to_nat (n - i) < fuel)%nat ->
  runs (pipewrite_loop x fuel pi addr n i) s (fun r s' => exists p' j,
    ps_pipe s' = <[pi := p']> (ps_pipe s) /\ uview (ps_env s') = uview (ps_env s) /\ i <= j /\
    wrote (ps_env s) addr i j p p' /\ write_ends (ps_env s) addr n j p p' r).
Proof.
  revert s i p. induction fuel as [|fuel IH]; intros s i p Hp W Hh Hf; [lia|]. cbn [pipewrite_loop].
  destruct (Z.ltb_spec i n) as [Hi|Hi]; cbn [negb].
  2:{ eapply finish_run; [exact Hp|exact Hh|]. intros p' e' Ep Hu Hv. exists p', i. cbn [ps_pipe ps_env].
      split_and!; [done|done|lia|by apply wrote_here|]. left. split; [done|by left]. }
  apply runs_bind. eapply runs_pipe_get; [exact Hp|]. cbn beta.
  (* the readopen/killed test *)
  eapply (runs_seq _ _ _ (fun (k : bool) s1 => ps_pipe s1 = ps_pipe s /\ uview (ps_env s1) = uview (ps_env s) /\
    if k then readopen p = 0 \/ exists e1 e2, svc_killed e1 = (Ret true, e2) else readopen p <> 0)).
  { destruct (Z.eqb_spec (readopen p) 0) as [Hr|Hr]; [apply runs_ret; split_and!; [done|done|by left]|].
    apply env_killed. intros [] e' Ee Hv; (split_and!; [done|exact Hv|]); [right; by eauto|exact Hr]. }
  intros k s1 (Hp1 & Hv1 & Hk). rewrite <- Hp1 in Hp. destruct k.
  { apply runs_bind. eapply unlock_pipe_run; [exact Hp|exact Hh|]. intros p' Ep Hu. apply runs_ret. exists p', i.
    cbn [ps_pipe ps_env put]. rewrite Hp1. split_and!; [done|done|lia|by apply wrote_here|]. by right. }
  destruct (nwrite p =? u32 (nread p + PIPESIZE)) eqn:HF.
  { eapply finish_run; [exact Hp|exact Hh|]. intros p' e' Ep Hu Hv. exists p', i. cbn [ps_pipe ps_env].
    rewrite Hp1, Hv, Hv1. split_and!; [done|done|lia|by apply wrote_here|]. cbn. split_and!; [done|done| |done].
    subst p'. exact (proj1 (queue_full p W) HF). }
  apply runs_bind, runs_zoom. destruct (pe_copyin (u64 (addr + i)) (ps_env s1)) as (bs & st & e2 & Ee & Hv2 & Hbs).
  eapply runs_eq; [exact Ee|]. rewrite Hv1 in Hv2, Hbs. destruct (uview (ps_env s) (u64 (addr + i))) as [b|] eqn:Hb; [destruct Hbs as [-> ->]|subst st]; cbn [fst snd].
  2:{ cbn [Z.eqb]. eapply finish_run; [exact Hp|exact Hh|]. intros p' e' Ep Hu Hv. exists p', i. cbn [ps_pipe ps_env] in *.
      rewrite Hp1, Hv, Hv2. split_and!; [done|done|lia|by apply wrote_here|]. left. split; [done|by right]. }
  cbn [Z.eqb nth]. destruct (queue_push p b W HF) as [W' HQ].
  apply runs_bind. eapply runs_on_pipe; [exact Hp|]. apply runs_modify.
  apply runs_bind. eapply runs_on_pipe; [apply lookup_insert_eq|]. apply runs_modify.
  set (p2 := set_nwrite _ _) in *. eapply runs_mono.
  { apply (IH _ (i + 1) p2); [apply lookup_insert_eq|exact W'|exact Hh|lia]. }
  intros r s' (p' & j & C1 & C2 & C3 & C4 & C5). exists p', j. cbn [ps_pipe ps_env put] in *.
  rewrite C1, C2, !insert_insert_eq, Hp1. split_and!; [done|done|lia| |].
  - eapply wrote_cons; [|exact HQ|exact Hb|done]. destruct C4 as [D1 D2 D3 (ws & D4 & D5 & D6)]. split; [done|done|done|].
    exists ws. split_and!; [done|done|]. intros k c Hc. rewrite <- Hv2. by apply D6.
  - destruct r as [v|k]; cbn in *; [|tauto]. rewrite Hv2 in C5. tauto.
Qed.

(** The copying loop of [piperead] after [k] bytes: they were at the front of
    the queue and are now in the process's memory. *)
Record reading (e e' : E) (addr : Z) (k : nat) (p p' : pipe) (got : list Z) : Prop := {
  rg_wf : pipe_wf p';
  rg_held : held p';
  rg_same : nwrite p' = nwrite p /\ readopen p' = readopen p /\ writeopen p' = writeopen p /\ pi_lock p' = pi_lock p;
  rg_queue : queue p = got ++ queue p';
  rg_len : length got = k;
  rg_bytes : forall j b, got !! j = Some b -> uview e' (addr + Z.of_nat j) = Some b;
  rg_other : forall a, ~ (addr <= a < addr + Z.of_nat k) -> uview e' a = uview e a;
}.

(** [piperead] returned [k]: the bytes [got] were delivered in order; at most
    one more byte was taken off the queue, when the process's memory refused it. *)
Record was_read (e e' : E) (addr n k : Z) (p p' : pipe) : Prop := {
  rd_wf : pipe_wf p';
  rd_unlocked : unlocked p';
  rd_same : nwrite p' = nwrite p /\ readopen p' = readopen p /\ writeopen p' = writeopen p;
  rd_queue : exists got lost, queue p = got ++ lost ++ queue p' /\ Z.of_nat (length got) = k /\
    (forall j b, got !! j = Some b -> uview e' (addr + Z.of_nat j) = Some b) /\
    (lost = [] /\ (k = n \/ queue p' = []) \/ length lost = 1%nat /\ k < n);
  rd_other : forall a, ~ (addr <= a < addr + k) -> uview e' a = uview e a;
}.

Lemma reading_next e e1 e2 addr k p p1 got :
  reading e e1 addr k p p1 got -> (nread p1 =? nwrite p1) = false ->
  let b := nth (Z.to_nat (nread p1 mod PIPESIZE)) (pi_data p1) 0 in
  (forall a, uview e2 a = (if decide (a = addr + Z.of_nat k) then Some b else uview e1 a)) ->
  reading e e2 addr (S k) p (set_nread (u32 (nread p1 + 1)) p1) (got ++ [b]).
Proof.
  intros [A1 A2 A3 A4 A5 A6 A7] Hne b He. destruct (queue_pop p1 A1 Hne) as [W HQ]. split; try done.
  - rewrite A4, HQ. fold b. by rewrite <- app_assoc.
  - rewrite length_app. cbn. lia.
  - intros j c Hj. rewrite He. destruct (decide (j = k)) as [->|Hjk].
    + rewrite decide_True by done. rewrite lookup_app_r in Hj by lia. rewrite A5, Nat.sub_diag in Hj. cbn in Hj. congruence.
    + rewrite decide_False by lia. apply A6. assert (Hl : (j < length (got ++ [b]))%nat) by (by eapply lookup_lt_Some).
      rewrite length_app in Hl. cbn in Hl. rewrite lookup_app_l in Hj by lia. done.
  - intros a Ha. rewrite He, decide_False by lia. apply A7. lia.
Qed.

Lemma piperead_copy_run pi addr n p s :
  ps_pipe s !! pi = Some p -> pipe_wf p -> held p -> 0 <= n -> 0 <= addr -> addr + n <= 2 ^ 64 ->
  runs (piperead_copy x pi addr n) s (fun v s' => exists p',
    ps_pipe s' = <[pi := p']> (ps_pipe s) /\ was_read (ps_env s) (ps_env s') addr n v p p').
Proof.
  intros Hp W Hh Hn Ha Hmax. unfold piperead_copy.
  set (I := fun (k : nat) (s1 : pst E) => exists p1 got, ps_pipe s1 = <[pi := p1]> (ps_pipe s) /\
    reading (ps_env s) (ps_env s1) addr k p p1 got).
  eapply (runs_seq _ _ _ (fun r s1 => exists p1 got lost k, ps_pipe s1 = <[pi := p1]> (ps_pipe s) /\
    r = (if decide (k = n) then None else Some k) /\ 0 <= k <= n /\ pipe_wf p1 /\ held p1 /\
    nwrite p1 = nwrite p /\ readopen p1 = readopen p /\ writeopen p1 = writeopen p /\
    queue p = got ++ lost ++ queue p1 /\ Z.of_nat (length got) = k /\
    (forall j b, got !! j = Some b -> uview (ps_env s1) (addr + Z.of_nat j) = Some b) /\
    (lost = [] /\ (k = n \/ queue p1 = []) \/ length lost = 1%nat /\ k < n) /\
    (forall a, ~ (addr <= a < addr + k) -> uview (ps_env s1) a = uview (ps_env s) a))).
  { apply (runs_forn _ _ _ _ I).
    - exists p, []. split; [by rewrite insert_id|]. split; done.
    - intros k s1 Hk (p1 & got & Hs1 & R). pose proof R as [A1 A2 (A3a & A3b & A3c & A3d) A4 A5 A6 A7].
      assert (Hp1 : ps_pipe s1 !! pi = Some p1) by (rewrite Hs1; apply lookup_insert_eq).
      apply runs_bind. eapply runs_pipe_get; [exact Hp1|]. cbn beta. destruct (nread p1 =? nwrite p1) eqn:He.
      { apply runs_ret. exists p1, got, [], (Z.of_nat k). rewrite decide_False by lia.
        split_and!; try done; try lia; [f_equal; lia|]. left. split; [done|right]. by apply queue_empty. }
      set (b := nth _ _ 0). apply runs_bind. eapply runs_on_pipe; [exact Hp1|]. apply runs_modify.
      apply runs_bind, runs_zoom. rewrite u64_small by lia. rewrite Z.mul_1_l, Z.add_0_l.
      destruct (pe_copyout (addr + Z.of_nat k) b (ps_env s1)) as (st & e2 & Ee & HC). cbn [ps_env put].
      eapply runs_eq; [exact Ee|]. cbn [ps_pipe put]. destruct (queue_pop p1 A1 He) as [W2 HQ]. fold b in HQ.
      destruct HC as [[-> Hv]|[-> Hv]]; cbn [Z.eqb]; apply runs_ret.
      + exists (set_nread (u32 (nread p1 + 1)) p1), got, [b], (Z.of_nat k). cbn [ps_pipe ps_env].
        rewrite decide_False by lia. rewrite Hs1, insert_insert_eq, Hv. split_and!; try done; try lia.
        * by rewrite A4, HQ.
        * right. split; [done|lia].
      + exists (set_nread (u32 (nread p1 + 1)) p1), (got ++ [b]). cbn [ps_pipe ps_env].
        rewrite Hs1, insert_insert_eq. split; [done|]. by eapply reading_next.
    - intros s1 (p1 & got & Hs1 & [A1 A2 (A3a & A3b & A3c & A3d) A4 A5 A6 A7]). exists p1, got, [], n.
      rewrite decide_True by done. split_and!; try done; try lia; [left; split; [done|by left]|]. intros a Hx. apply A7. lia. }
  intros r s1 (p1 & got & lost & k & Hs1 & -> & Hk & W1 & H1 & S1 & S2 & S3 & HQ & HL & HB & HO & HV).
  assert (Ei : match (if decide (k = n) then None else Some k) with Some i => i | None => Z.max 0 n end = k).
  { case_decide; lia. }
  rewrite Ei. eapply finish_run; [by rewrite Hs1, lookup_insert_eq|exact H1|]. intros p' e' Ep Hu Hv. exists p'.
  cbn [ps_pipe ps_env]. rewrite Hs1, insert_insert_eq. split; [done|]. subst p'. destruct W1 as [W1a W1b W1c W1d].
  split; [by split|done|done| |by rewrite Hv]. exists got, lost. rewrite Hv. by split_and!.
Qed.

Definition read_ends (e e' : E) (addr n : Z) (p p' : pipe) (r : progress) : Prop :=
  match r with
  | Returned v => was_read e e' addr n v p p' \/
      v = -1 /\ queue p = [] /\ queue p' = [] /\ exists e1 e2, svc_killed e1 = (Ret true, e2)
  | Asleep _ => queue p = [] /\ queue p' = [] /\ writeopen p <> 0
  end.

Lemma piperead_from_run pi addr n p s :
  ps_pipe s !! pi = Some p -> pipe_wf p -> unlocked p -> 0 <= n -> 0 <= addr -> addr + n <= 2 ^ 64 ->
  runs (piperead_from x pi addr n) s (fun r s' => exists p',
    ps_pipe s' = <[pi := p']> (ps_pipe s) /\ pipe_wf p' /\ unlocked p' /\ read_ends (ps_env s) (ps_env s') addr n p p' r).
Proof.
  intros Hp W Hu Hn Ha Hmax. unfold piperead_from. apply runs_bind. eapply lock_pipe_run; [exact Hp|exact Hu|].
  intros p1 Ep1 Hh. apply runs_bind. eapply runs_pipe_get; [apply lookup_insert_eq|]. cbn beta.
  assert (W1 : pipe_wf p1) by (rewrite Ep1; by destruct W). assert (Q1 : queue p1 = queue p) by (by rewrite Ep1).
  assert (O1 : writeopen p1 = writeopen p) by (by rewrite Ep1).
  destruct (nread p1 =? nwrite p1) eqn:He.
  - assert (HQe : queue p1 = []) by (by apply queue_empty).
    destruct (Z.eqb_spec (writeopen p1) 0) as [Hw|Hw]; cbn [andb negb].
    + eapply runs_seq; [apply (piperead_copy_run pi addr n p1); try done; apply lookup_insert_eq|].
      intros v s' (p' & Hs' & R). mstep. exists p'. cbn [ps_pipe ps_env put] in *. rewrite Hs', insert_insert_eq.
      split_and!; [done|apply R|apply R|]. left. destruct R. subst p1. by split.
    + apply runs_bind, env_killed. intros k e' Ek Hv. cbn [ps_pipe put]. destruct k; apply runs_bind;
        (eapply unlock_pipe_run; [apply lookup_insert_eq|exact Hh|]); intros p' Ep Hu'; apply runs_ret; exists p';
        cbn [ps_pipe ps_env put]; rewrite insert_insert_eq;
        (split_and!; [done|rewrite Ep; by destruct W1|done|]); cbn; rewrite <- Q1, Ep.
      * right. split_and!; [done|done|exact HQe|by eauto].
      * split_and!; [done|exact HQe|congruence].
  - cbn [andb]. eapply runs_seq; [apply (piperead_copy_run pi addr n p1); try done; apply lookup_insert_eq|].
    intros v s' (p' & Hs' & R). mstep. exists p'. cbn [ps_pipe ps_env put] in *. rewrite Hs', insert_insert_eq.
    split_and!; [done|apply R|apply R|]. left. destruct R. subst p1. by split.
Qed.
End pieces.

(** ** A process with a few mapped bytes, for the witnesses *)
Definition um0_copyin (a : Z) (old : list Z) : M (gmap Z Z) (list Z * Z) := fun m =>
  (Ret (match mapM (fun k => m !! (a + Z.of_nat k)) (seq 0 (length old)) with Some l => (l, 0) | None => (old, -1) end), m).
Definition um0_copyout (a : Z) (bs : list Z) : M (gmap Z Z) Z := fun m =>
  if forallb (fun k => bool_decide (is_Some (m !! (a + Z.of_nat k)))) (seq 0 (length bs))
  then (Ret 0, foldr (fun kb m => <[a + Z.of_nat (fst kb) := snd kb]> m) m (zip (seq 0 (length bs)) bs))
  else (Ret (-1), m).
#[local] Instance um0 : UserMem (gmap Z Z) := {| um_copyout := um0_copyout; um_copyin := um0_copyin;
  um_mem := fun m => m; um_set_mem := fun m _ => m |}.
#[local] Instance svc0 : ProcServices (gmap Z Z) := {| svc_killed := ret false; svc_wakeup := fun _ => ret tt |}.

Lemma um0_copyin_ok a (e : gmap Z Z) :
  um0_copyin a [0] e = (Ret (match e !! a with Some b => ([b], 0) | None => ([0], -1) end), e).
Proof. unfold um0_copyin. cbn [length seq mapM]. rewrite Z.add_0_r. by destruct (e !! a). Qed.

#[local] Instance penv0 : PipeEnv (gmap Z Z).
Proof.
  refine {| uview := fun (e : gmap Z Z) a => e !! a |}.
  - intros e. by exists false, e.
  - intros c e. by exists e.
  - intros a e. cbn [um_copyin um0]. rewrite um0_copyin_ok. destruct (e !! a) as [b|]; by eexists _, _, e.
  - intros a b e. cbn [um_copyout um0]. unfold um0_copyout. cbn [length seq forallb zip zip_with foldr fst snd]. rewrite Z.add_0_r.
    destruct (bool_decide (is_Some (e !! a))) eqn:Hb; cbn [andb].
    + exists 0, (<[a := b]> e). split; [done|right]. split; [done|]. intros a'. case_decide; [subst; by rewrite lookup_insert_eq|].
      by rewrite lookup_insert_ne.
    + exists (-1), e. split; [done|by left].
Defined.

(** An empty pipe in the page at 4096 and a process with the bytes 104, 105. *)
Definition pipe0 : pst (gmap Z Z) :=
  PSt {[ 4096 := Pipe (initlock "pipe") (replicate 512 0) 0 0 1 1 ]} {[ 100 := 104; 101 := 105 ]}.

(** ** Properties *)

(** C21. A pipe is a bounded FIFO. A piece of [pipewrite] (from its start or
    from waking up, to its return or next [sleep]) appends to the queue the
    bytes of the caller's buffer that follow those already written, and ends:
    with all [n] written, at a byte it cannot read, with -1 when the reader is
    gone or the caller is killed, or asleep with the queue full at 512 bytes. A
    piece of [piperead] takes bytes off the front in order into the caller's
    buffer, and sleeps only on an empty pipe with a writer. The counters are
    32-bit and may wrap. *)
Theorem pipe_refines_fifo {E : Type} {PS : ProcServices E} {UM : UserMem E} {PE : PipeEnv E} (x : ctx) pi p (s : pst E) :
  ps_pipe s !! pi = Some p -> pipe_wf p -> unlocked p ->
  (forall addr n i, 0 <= i -> runs (pipewrite_from x pi addr n i) s (fun r s' => exists p' j,
     ps_pipe s' = <[pi := p']> (ps_pipe s) /\ uview (ps_env s') = uview (ps_env s) /\ i <= j /\
     wrote (ps_env s) addr i j p p' /\ write_ends (ps_env s) addr n j p p' r)) /\
  (forall addr n, 0 <= n -> 0 <= addr -> addr + n <= 2 ^ 64 ->
     runs (piperead_from x pi addr n) s (fun r s' => exists p',
       ps_pipe s' = <[pi := p']> (ps_pipe s) /\ pipe_wf p' /\ unlocked p' /\
       read_ends (ps_env s) (ps_env s') addr n p p' r)).
Proof.
  intros Hp W Hu. split; [|intros; by apply piperead_from_run]. intros addr n i Hi. unfold pipewrite_from.
  apply runs_bind. eapply lock_pipe_run; [exact Hp|exact Hu|]. intros p1 Ep1 Hh.
  assert (W1 : pipe_wf p1) by (rewrite Ep1; by destruct W).
  eapply runs_mono; [apply (pipewrite_loop_run x _ pi addr n i p1); [apply lookup_insert_eq|exact W1|exact Hh|lia]|].
  intros r s' (p' & j & C1 & C2 & C3 & C4 & C5). exists p', j. cbn [ps_pipe ps_env put] in *. rewrite C1, insert_insert_eq.
  split_and!; [done|done|done| |by rewrite Ep1 in C5]. rewrite Ep1 in C4. by destruct C4.
Qed.

Lemma pipe_refines_fifo_witness :
  runs (pipewrite_from (Ctx 0 1) 4096 100 2 0) pipe0 (fun r s' => exists p' j,
     ps_pipe s' = <[4096 := p']> (ps_pipe pipe0) /\ uview (ps_env s') = uview (ps_env pipe0) /\ 0 <= j /\
     wrote (ps_env pipe0) 100 0 j (Pipe (initlock "pipe") (replicate 512 0) 0 0 1 1) p' /\
     write_ends (ps_env pipe0) 100 2 j (Pipe (initlock "pipe") (replicate 512 0) 0 0 1 1) p' r).
Proof.
  refine (proj1 (pipe_refines_fifo (Ctx 0 1) 4096 (Pipe (initlock "pipe") (replicate 512 0) 0 0 1 1) pipe0 _ _ _) 100 2 0 _).
  - apply lookup_insert_eq.
  - split; [apply length_replicate|split; vm_compute; congruence|split; vm_compute; congruence|vm_compute; congruence].
  - split; reflexivity.
  - lia.
Defined.
