(* ===== verification/Proc.v ===== *)
(** * Processes: kernel/proc.c

    The process table, process creation and death, [sleep] and [wakeup], and
    the scheduler. The state is the table, the per-CPU structures, the two
    global locks, the memory of the page allocator ([V]) and the file layer
    ([F], an interface). Locks are the whole [acquire]/[release] of spinlock.c
    with the interrupt nesting, since [sched] inspects it.

    [swtch] hands the CPU over: a function that calls [sched] is written in
    the part before the switch and the part after it ([sleep_enter] and
    [sleep_leave], [yield_enter] and [yield_leave]); the value passed between
    them is the local [intena] of [sched]. *)
From S2P Require Import Prelude CString Riscv Spinlock Kalloc Vm Pipe.
Local Open Scope Z_scope.

Definition NCPU : Z := 8.

Inductive procstate := UNUSED | USED | SLEEPING | RUNNABLE | RUNNING | ZOMBIE.

#[export] Instance procstate_eq_dec : EqDecision procstate.
Proof. solve_decision. Defined.

(** struct proc; processes are named by their index in [proc[NPROC]]. *)
Record proc := Proc {
  p_lock : spinlock; p_state : procstate; p_chan : option chan; p_killed : Z; p_xstate : Z; p_pid : Z;
  p_parent : option nat;
  p_kstack : Z; p_sz : Z; p_pagetable : Z; p_trapframe : Z; p_context : Z * Z;  (* ra, sp *)
  p_ofile : list (option nat); p_cwd : option nat; p_name : list Z;
}.

Definition proc0 : proc :=
  Proc (initlock "proc") UNUSED None 0 0 0 None 0 0 0 0 (0, 0) (replicate 16 None) None (replicate 16 0).
#[export] Instance proc_inhabited : Inhabited proc := populate proc0.

Definition set_plock v p := Proc v (p_state p) (p_chan p) (p_killed p) (p_xstate p) (p_pid p) (p_parent p) (p_kstack p) (p_sz p) (p_pagetable p) (p_trapframe p) (p_context p) (p_ofile p) (p_cwd p) (p_name p).
Definition set_state v p := Proc (p_lock p) v (p_chan p) (p_killed p) (p_xstate p) (p_pid p) (p_parent p) (p_kstack p) (p_sz p) (p_pagetable p) (p_trapframe p) (p_context p) (p_ofile p) (p_cwd p) (p_name p).
Definition set_chan v p := Proc (p_lock p) (p_state p) v (p_killed p) (p_xstate p) (p_pid p) (p_parent p) (p_kstack p) (p_sz p) (p_pagetable p) (p_trapframe p) (p_context p) (p_ofile p) (p_cwd p) (p_name p).
Definition set_pkilled v p := Proc (p_lock p) (p_state p) (p_chan p) v (p_xstate p) (p_pid p) (p_parent p) (p_kstack p) (p_sz p) (p_pagetable p) (p_trapframe p) (p_context p) (p_ofile p) (p_cwd p) (p_name p).
Definition set_xstate v p := Proc (p_lock p) (p_state p) (p_chan p) (p_killed p) v (p_pid p) (p_parent p) (p_kstack p) (p_sz p) (p_pagetable p) (p_trapframe p) (p_context p) (p_ofile p) (p_cwd p) (p_name p).
Definition set_pid v p := Proc (p_lock p) (p_state p) (p_chan p) (p_killed p) (p_xstate p) v (p_parent p) (p_kstack p) (p_sz p) (p_pagetable p) (p_trapframe p) (p_context p) (p_ofile p) (p_cwd p) (p_name p).
Definition set_parent v p := Proc (p_lock p) (p_state p) (p_chan p) (p_killed p) (p_xstate p) (p_pid p) v (p_kstack p) (p_sz p) (p_pagetable p) (p_trapframe p) (p_context p) (p_ofile p) (p_cwd p) (p_name p).
Definition set_kstack v p := Proc (p_lock p) (p_state p) (p_chan p) (p_killed p) (p_xstate p) (p_pid p) (p_parent p) v (p_sz p) (p_pagetable p) (p_trapframe p) (p_context p) (p_ofile p) (p_cwd p) (p_name p).
Definition set_sz v p := Proc (p_lock p) (p_state p) (p_chan p) (p_killed p) (p_xstate p) (p_pid p) (p_parent p) (p_kstack p) v (p_pagetable p) (p_trapframe p) (p_context p) (p_ofile p) (p_cwd p) (p_name p).
Definition set_pagetable v p := Proc (p_lock p) (p_state p) (p_chan p) (p_killed p) (p_xstate p) (p_pid p) (p_parent p) (p_kstack p) (p_sz p) v (p_trapframe p) (p_context p) (p_ofile p) (p_cwd p) (p_name p).
Definition set_trapframe v p := Proc (p_lock p) (p_state p) (p_chan p) (p_killed p) (p_xstate p) (p_pid p) (p_parent p) (p_kstack p) (p_sz p) (p_pagetable p) v (p_context p) (p_ofile p) (p_cwd p) (p_name p).
Definition set_context v p := Proc (p_lock p) (p_state p) (p_chan p) (p_killed p) (p_xstate p) (p_pid p) (p_parent p) (p_kstack p) (p_sz p) (p_pagetable p) (p_trapframe p) v (p_ofile p) (p_cwd p) (p_name p).
Definition set_ofile v p := Proc (p_lock p) (p_state p) (p_chan p) (p_killed p) (p_xstate p) (p_pid p) (p_parent p) (p_kstack p) (p_sz p) (p_pagetable p) (p_trapframe p) (p_context p) v (p_cwd p) (p_name p).
Definition set_cwd v p := Proc (p_lock p) (p_state p) (p_chan p) (p_killed p) (p_xstate p) (p_pid p) (p_parent p) (p_kstack p) (p_sz p) (p_pagetable p) (p_trapframe p) (p_context p) (p_ofile p) v (p_name p).
Definition set_name v p := Proc (p_lock p) (p_state p) (p_chan p) (p_killed p) (p_xstate p) (p_pid p) (p_parent p) (p_kstack p) (p_sz p) (p_pagetable p) (p_trapframe p) (p_context p) (p_ofile p) (p_cwd p) v.

(** struct cpu: the process it runs and the fields of spinlock.c. *)
Record pcpu := PCpu { pc_proc : option nat; pc_cpu : cpu }.
#[export] Instance pcpu_inhabited : Inhabited pcpu := populate (PCpu None (Cpu 0 false false)).

Record sysst (V F : Type) := SysSt {
  s_proc : list proc; s_init : option nat; s_nextpid : Z; s_pidlk : spinlock; s_waitlk : spinlock;
  s_cpu : list pcpu; s_first : bool; s_vm : V; s_fl : F;
}.
Arguments SysSt {V F}. Arguments s_proc {V F}. Arguments s_init {V F}. Arguments s_nextpid {V F}.
Arguments s_pidlk {V F}. Arguments s_waitlk {V F}. Arguments s_cpu {V F}. Arguments s_first {V F}.
Arguments s_vm {V F}. Arguments s_fl {V F}.

(** What proc.c uses of the file system. *)
Class FileLayer (F : Type) : Type := {
  fl_filedup : nat -> M F unit;
  fl_fileclose : nat -> M F unit;
  fl_idup : nat -> M F unit;
  fl_iput : nat -> M F unit;
  fl_begin_op : M F unit;
  fl_end_op : M F unit;
  fl_root : M F nat;       (* namei("/") *)
  fl_fsinit : M F unit;    (* fsinit(ROOTDEV) *)
}.

(** [safestrcpy(dst, src, sizeof(p->name))] on the 16-byte names. *)
Definition name_copy (dst src : list Z) : list Z :=
  load_bytes 16 (safestrcpy (store_bytes (store_bytes ∅ 16 dst) 32 src) 16 32 16) 16.

(** The bytes of a C string literal with its NUL. *)
Definition c_literal (s : string) : list Z := map (fun c => Z.of_nat (Ascii.nat_of_ascii c)) (String.list_ascii_of_string s) ++ [0].

(** user/initcode.S as assembled into proc.c. *)
Definition initcode : list Z :=
  [0x17; 0x05; 0x00; 0x00; 0x13; 0x05; 0x45; 0x02;
   0x97; 0x05; 0x00; 0x00; 0x93; 0x85; 0x35; 0x02;
   0x93; 0x08; 0x70; 0x00; 0x73; 0x00; 0x00; 0x00;
   0x93; 0x08; 0x20; 0x00; 0x73; 0x00; 0x00; 0x00;
   0xef; 0xf0; 0x9f; 0xff; 0x2f; 0x69; 0x6e; 0x69;
   0x74; 0x00; 0x00; 0x24; 0x00; 0x00; 0x00; 0x00;
   0x00; 0x00; 0x00; 0x00].

(** struct trapframe: the offsets of the fields proc.c writes, and its size. *)
Definition TF_epc : Z := 24.
Definition TF_sp : Z := 48.
Definition TF_a0 : Z := 112.
Definition TF_size : Z := 288.

Section ops.
Context {V F : Type} {PA : PageAlloc V} {FL : FileLayer F}.
Local Abbreviation SM := (M (sysst V F)).

Definition set_procs l (s : sysst V F) := SysSt l (s_init s) (s_nextpid s) (s_pidlk s) (s_waitlk s) (s_cpu s) (s_first s) (s_vm s) (s_fl s).
Definition set_init i (s : sysst V F) := SysSt (s_proc s) i (s_nextpid s) (s_pidlk s) (s_waitlk s) (s_cpu s) (s_first s) (s_vm s) (s_fl s).
Definition set_nextpid n (s : sysst V F) := SysSt (s_proc s) (s_init s) n (s_pidlk s) (s_waitlk s) (s_cpu s) (s_first s) (s_vm s) (s_fl s).
Definition set_pidlk l (s : sysst V F) := SysSt (s_proc s) (s_init s) (s_nextpid s) l (s_waitlk s) (s_cpu s) (s_first s) (s_vm s) (s_fl s).
Definition set_waitlk l (s : sysst V F) := SysSt (s_proc s) (s_init s) (s_nextpid s) (s_pidlk s) l (s_cpu s) (s_first s) (s_vm s) (s_fl s).
Definition set_cpus c (s : sysst V F) := SysSt (s_proc s) (s_init s) (s_nextpid s) (s_pidlk s) (s_waitlk s) c (s_first s) (s_vm s) (s_fl s).
Definition set_first b (s : sysst V F) := SysSt (s_proc s) (s_init s) (s_nextpid s) (s_pidlk s) (s_waitlk s) (s_cpu s) b (s_vm s) (s_fl s).
Definition set_vm (v : V) (s : sysst V F) := SysSt (s_proc s) (s_init s) (s_nextpid s) (s_pidlk s) (s_waitlk s) (s_cpu s) (s_first s) v (s_fl s).
Definition set_fl (f : F) (s : sysst V F) := SysSt (s_proc s) (s_init s) (s_nextpid s) (s_pidlk s) (s_waitlk s) (s_cpu s) (s_first s) (s_vm s) f.

Definition getp (i : nat) (s : sysst V F) : proc := s_proc s !!! i.
Definition updp (i : nat) (f : proc -> proc) (s : sysst V F) : sysst V F := set_procs (alter f i (s_proc s)) s.
Definition on_vm {A} (m : M V A) : SM A := zoom s_vm set_vm m.
Definition on_fl {A} (m : M F A) : SM A := zoom s_fl set_fl m.
Definition pget {A} (i : nat) (f : proc -> A) : SM A := gets (fun s => f (getp i s)).
Definition pset (i : nat) (f : proc -> proc) : SM unit := modify (updp i f).
Definition proc_chan (i : nat) : chan := Chan "proc" (Z.of_nat i).

(** The hart the code runs on. *)
Context (h : nat).
Definition getc (s : sysst V F) : pcpu := s_cpu s !!! h.
Definition updc (f : pcpu -> pcpu) (s : sysst V F) : sysst V F := set_cpus (alter f h (s_cpu s)) s.
Definition set_ccpu (c : cpu) : sysst V F -> sysst V F := updc (fun pc => PCpu (pc_proc pc) c).
Definition set_cproc (i : option nat) : sysst V F -> sysst V F := updc (fun pc => PCpu i (pc_cpu pc)).
Definition on_ccpu {A} (m : M cpu A) : SM A := zoom (fun s => pc_cpu (getc s)) set_ccpu m.

(** [acquire]/[release] of [p->lock], [pid_lock] and [wait_lock]. *)
Definition plock {A} (i : nat) (m : M (cpu * spinlock) A) : SM A :=
  zoom (fun s => (pc_cpu (getc s), p_lock (getp i s))) (fun cl s => updp i (set_plock (snd cl)) (set_ccpu (fst cl) s)) m.
Definition pidlock {A} (m : M (cpu * spinlock) A) : SM A :=
  zoom (fun s => (pc_cpu (getc s), s_pidlk s)) (fun cl s => set_pidlk (snd cl) (set_ccpu (fst cl) s)) m.
Definition waitlock {A} (m : M (cpu * spinlock) A) : SM A :=
  zoom (fun s => (pc_cpu (getc s), s_waitlk s)) (fun cl s => set_waitlk (snd cl) (set_ccpu (fst cl) s)) m.
Definition hart : Z := Z.of_nat h.
Definition p_acquire (i : nat) : SM unit := plock i (acquire hart).
Definition p_release (i : nat) : SM unit := plock i (release hart).

Definition procinit : SM unit :=
  modify (set_pidlk (initlock "nextpid")) ;;
  modify (set_waitlk (initlock "wait_lock")) ;;
  forn (A := unit) (Z.to_nat NPROC) 0 1 (fun i =>
    pset (Z.to_nat i) (set_plock (initlock "proc")) ;;
    pset (Z.to_nat i) (set_state UNUSED) ;;
    pset (Z.to_nat i) (set_kstack (KSTACK i)) ;;
    ret None) ;;
  ret tt.

Definition myproc : SM (option nat) :=
  on_ccpu push_off ;;
  let! p := gets (fun s => pc_proc (getc s)) in
  on_ccpu pop_off ;;
  ret p.

(** [myproc()] where the code dereferences the result. *)
Definition curproc : SM nat :=
  let! p := myproc in
  match p with Some i => ret i | None => undef "no current process" end.

Definition allocpid : SM Z :=
  pidlock (acquire hart) ;;
  let! pid := gets s_nextpid in
  modify (set_nextpid (s32 (pid + 1))) ;;
  pidlock (release hart) ;;
  ret pid.

(** [trampoline] and [forkret] are addresses the linker fixes. *)
Context (trampoline forkret_a : Z).

Definition proc_pagetable (i : nat) : SM Z :=
  let! pagetable := on_vm uvmcreate in
  if pagetable =? 0 then ret 0
  else
    let! r := on_vm (mappages pagetable TRAMPOLINE PGSIZE trampoline (Z.lor PTE_R PTE_X)) in
    if r <? 0 then on_vm (uvmfree pagetable 0) ;; ret 0
    else
      let! tf := pget i p_trapframe in
      let! r := on_vm (mappages pagetable TRAPFRAME PGSIZE tf (Z.lor PTE_R PTE_W)) in
      if r <? 0 then
        on_vm (uvmunmap pagetable TRAMPOLINE 1 false) ;;
        on_vm (uvmfree pagetable 0) ;;
        ret 0
      else ret pagetable.

Definition proc_freepagetable (pagetable sz : Z) : SM unit :=
  on_vm (uvmunmap pagetable TRAMPOLINE 1 false) ;;
  on_vm (uvmunmap pagetable TRAPFRAME 1 false) ;;
  on_vm (uvmfree pagetable sz).

Definition freeproc (i : nat) : SM unit :=
  let! tf := pget i p_trapframe in
  (if negb (tf =? 0) then on_vm (pa_release tf) else ret tt) ;;
  pset i (set_trapframe 0) ;;
  let! pt := pget i p_pagetable in
  let! sz := pget i p_sz in
  (if negb (pt =? 0) then proc_freepagetable pt sz else ret tt) ;;
  pset i (set_pagetable 0) ;;
  pset i (set_sz 0) ;;
  pset i (set_pid 0) ;;
  pset i (set_parent None) ;;
  pset i (fun p => set_name (<[0%nat := 0]> (p_name p)) p) ;;
  pset i (set_chan None) ;;
  pset i (set_pkilled 0) ;;
  pset i (set_xstate 0) ;;
  pset i (set_state UNUSED).

(** The first UNUSED entry, its lock held. *)
Definition find_unused : SM (option Z) :=
  forn (A := Z) (Z.to_nat NPROC) 0 1 (fun i =>
    p_acquire (Z.to_nat i) ;;
    let! st := pget (Z.to_nat i) p_state in
    if decide (st = UNUSED) then ret (Some i)
    else p_release (Z.to_nat i) ;; ret None).

Definition allocproc : SM (option nat) :=
  let! f := find_unused in
  match f with
  | None => ret None
  | Some fi =>
      let i := Z.to_nat fi in
      let! pid := allocpid in
      pset i (set_pid pid) ;;
      pset i (set_state USED) ;;
      let! tf := on_vm pa_alloc in
      pset i (set_trapframe tf) ;;
      if tf =? 0 then freeproc i ;; p_release i ;; ret None
      else
        let! pt := proc_pagetable i in
        pset i (set_pagetable pt) ;;
        if pt =? 0 then freeproc i ;; p_release i ;; ret None
        else
          let! ks := pget i p_kstack in
          pset i (set_context (0, 0)) ;;
          pset i (set_context (forkret_a, ks + PGSIZE)) ;;
          ret (Some i)
  end.

(** [initcode_a] is the address of the array [initcode]. *)
Definition userinit (initcode_a : Z) : SM unit :=
  let! p := allocproc in
  modify (set_init p) ;;
  match p with
  | None => undef "userinit: null process"
  | Some i =>
      let! pt := pget i p_pagetable in
      on_vm (uvmfirst pt initcode_a (Z.of_nat (length initcode))) ;;
      pset i (set_sz PGSIZE) ;;
      let! tf := pget i p_trapframe in
      on_vm (st64 (tf + TF_epc) 0) ;;
      on_vm (st64 (tf + TF_sp) PGSIZE) ;;
      pset i (fun p => set_name (name_copy (p_name p) (c_literal "initcode")) p) ;;
      let! root := on_fl fl_root in
      pset i (set_cwd (Some root)) ;;
      pset i (set_state RUNNABLE) ;;
      p_release i
  end.

Definition growproc (n : Z) : SM Z :=
  let! i := curproc in
  let! sz := pget i p_sz in
  let! pt := pget i p_pagetable in
  if 0 <? n then
    let! sz' := on_vm (uvmalloc pt sz (u64 (sz + n)) PTE_W) in
    if sz' =? 0 then ret (-1)
    else pset i (set_sz sz') ;; ret 0
  else if n <? 0 then
    let! sz' := on_vm (uvmdealloc pt sz (u64 (sz + n))) in
    pset i (set_sz sz') ;;
    ret 0
  else pset i (set_sz sz) ;; ret 0.

(** The loop of [fork] over the open files. *)
Definition dup_files (i np : nat) : SM unit :=
  forn (A := unit) (Z.to_nat NOFILE) 0 1 (fun k =>
    let! f := pget i (fun p => p_ofile p !!! Z.to_nat k) in
    match f with
    | Some fi =>
        on_fl (fl_filedup fi) ;;
        pset np (fun p => set_ofile (<[Z.to_nat k := Some fi]> (p_ofile p)) p) ;;
        ret None
    | None => ret None
    end) ;;
  ret tt.

Definition fork : SM Z :=
  let! i := curproc in
  let! a := allocproc in
  match a with
  | None => ret (-1)
  | Some np =>
      let! pt := pget i p_pagetable in
      let! npt := pget np p_pagetable in
      let! sz := pget i p_sz in
      let! r := on_vm (uvmcopy pt npt sz) in
      if r <? 0 then freeproc np ;; p_release np ;; ret (-1)
      else
        pset np (set_sz sz) ;;
        let! tf := pget i p_trapframe in
        let! ntf := pget np p_trapframe in
        on_vm (vm_memmove ntf tf TF_size) ;;
        on_vm (st64 (ntf + TF_a0) 0) ;;
        dup_files i np ;;
        let! cwd := pget i p_cwd in
        match cwd with
        | None => undef "fork: no current directory"
        | Some d =>
            on_fl (fl_idup d) ;;
            pset np (set_cwd (Some d)) ;;
            let! name := pget i p_name in
            pset np (fun p => set_name (name_copy (p_name p) name) p) ;;
            let! pid := pget np p_pid in
            p_release np ;;
            waitlock (acquire hart) ;;
            pset np (set_parent (Some i)) ;;
            waitlock (release hart) ;;
            p_acquire np ;;
            pset np (set_state RUNNABLE) ;;
            p_release np ;;
            ret pid
        end
  end.

Definition wakeup (c : option chan) : SM unit :=
  forn (A := unit) (Z.to_nat NPROC) 0 1 (fun k =>
    let i := Z.to_nat k in
    let! me := myproc in
    if decide (me = Some i) then ret None
    else
      p_acquire i ;;
      let! p := pget i id in
      when bool_decide (p_state p = SLEEPING) && bool_decide (p_chan p = c) do pset i (set_state RUNNABLE) ;;
      p_release i ;;
      ret None) ;;
  ret tt.

Definition init_chan (i : option nat) : option chan := option_map proc_chan i.

Definition reparent (p : nat) : SM unit :=
  forn (A := unit) (Z.to_nat NPROC) 0 1 (fun k =>
    let i := Z.to_nat k in
    let! pp := pget i p_parent in
    if decide (pp = Some p) then
      let! init := gets s_init in
      pset i (set_parent init) ;;
      wakeup (init_chan init) ;;
      ret None
    else ret None) ;;
  ret tt.

(** [sched] up to [swtch], and from its return on. *)
Definition sched_enter : SM bool :=
  let! i := curproc in
  let! p := pget i id in
  let! c := gets (fun s => pc_cpu (getc s)) in
  if negb (holding hart (p_lock p)) then panic "sched p->lock"
  else if negb (noff c =? 1) then panic "sched locks"
  else if decide (p_state p = RUNNING) then panic "sched running"
  else if intr_get c then panic "sched interruptible"
  else ret (intena c).

Definition sched_leave (ie : bool) : SM unit :=
  on_ccpu (modify (fun c => Cpu (noff c) ie (sie c))).

Definition close_files (i : nat) : SM unit :=
  forn (A := unit) (Z.to_nat NOFILE) 0 1 (fun fd =>
    let! f := pget i (fun p => p_ofile p !!! Z.to_nat fd) in
    match f with
    | Some fi =>
        on_fl (fl_fileclose fi) ;;
        pset i (fun p => set_ofile (<[Z.to_nat fd := None]> (p_ofile p)) p) ;;
        ret None
    | None => ret None
    end) ;;
  ret tt.

(** [exit] up to the switch it does not return from. *)
Definition exit (status : Z) : SM bool :=
  let! i := curproc in
  let! init := gets s_init in
  if decide (Some i = init) then panic "init exiting"
  else
    close_files i ;;
    on_fl fl_begin_op ;;
    let! cwd := pget i p_cwd in
    (match cwd with Some d => on_fl (fl_iput d) | None => undef "exit: no current directory" end) ;;
    on_fl fl_end_op ;;
    pset i (set_cwd None) ;;
    waitlock (acquire hart) ;;
    reparent i ;;
    let! par := pget i p_parent in
    wakeup (init_chan par) ;;
    p_acquire i ;;
    pset i (set_xstate status) ;;
    pset i (set_state ZOMBIE) ;;
    waitlock (release hart) ;;
    sched_enter.

Definition setkilled (i : nat) : SM unit :=
  p_acquire i ;; pset i (set_pkilled 1) ;; p_release i.

Definition killed (i : nat) : SM Z :=
  p_acquire i ;;
  let! k := pget i p_killed in
  p_release i ;;
  ret k.

(** [sleep(chan, lk)] up to the switch and from its return on; [rel] and
    [acq] release and acquire [lk]. *)
Definition sleep_enter (c : chan) (rel : SM unit) : SM bool :=
  let! i := curproc in
  p_acquire i ;;
  rel ;;
  pset i (set_chan (Some c)) ;;
  pset i (set_state SLEEPING) ;;
  sched_enter.

Definition sleep_leave (ie : bool) (i : nat) (acq : SM unit) : SM unit :=
  sched_leave ie ;;
  pset i (set_chan None) ;;
  p_release i ;;
  acq.

(** A zombie child found by [wait], its lock held. [xstate_a i] is the address
    of the field [proc[i].xstate]. *)
Definition wait_reap (xstate_a : nat -> Z) (p i : nat) (addr : Z) : SM Z :=
  let! c := pget i id in
  let pid := p_pid c in
  let! pt := pget p p_pagetable in
  let! st := (if negb (addr =? 0) then
                on_vm (modify (fun v => pa_set_mem (store_bytes (pa_mem v) (xstate_a i) (le_enc 4 (p_xstate c))) v)) ;;
                on_vm (copyout pt addr (xstate_a i) 4)
              else ret 0) in
  if st <? 0 then p_release i ;; waitlock (release hart) ;; ret (-1)
  else freeproc i ;; p_release i ;; waitlock (release hart) ;; ret pid.

(** The scan of [wait] over the last [n] entries of the table: [inl r] returns
    [r]; [inr havekids] found no zombie. *)
Fixpoint wait_scan (xstate_a : nat -> Z) (p : nat) (addr : Z) (n : nat) (havekids : bool) : SM (Z + bool) :=
  match n with
  | O => ret (inr havekids)
  | S n' =>
      let i := (Z.to_nat NPROC - n)%nat in
      let! pp := pget i p_parent in
      if decide (pp = Some p) then
        p_acquire i ;;
        let! st := pget i p_state in
        if decide (st = ZOMBIE) then
          let! r := wait_reap xstate_a p i addr in
          ret (inl r)
        else p_release i ;; wait_scan xstate_a p addr n' true
      else wait_scan xstate_a p addr n' havekids
  end.

(** The loop of [wait] with [wait_lock] held: it returns, or it is in [sleep]
    on the process itself. *)
Definition wait_loop (xstate_a : nat -> Z) (p : nat) (addr : Z) : SM (Z + bool) :=
  let! r := wait_scan xstate_a p addr (Z.to_nat NPROC) false in
  match r with
  | inl v => ret (inl v)
  | inr havekids =>
      let! k := (if (havekids : bool) then killed p else ret 0) in
      if negb havekids || negb (k =? 0) then waitlock (release hart) ;; ret (inl (-1))
      else
        let! ie := sleep_enter (proc_chan p) (waitlock (release hart)) in
        ret (inr ie)
  end.

Definition wait (xstate_a : nat -> Z) (addr : Z) : SM (Z + bool) :=
  let! p := curproc in
  waitlock (acquire hart) ;;
  wait_loop xstate_a p addr.

Definition wait_resume (xstate_a : nat -> Z) (ie : bool) (addr : Z) (p : nat) : SM (Z + bool) :=
  sleep_leave ie p (waitlock (acquire hart)) ;;
  wait_loop xstate_a p addr.

Definition yield_enter : SM bool :=
  let! i := curproc in
  p_acquire i ;;
  pset i (set_state RUNNABLE) ;;
  sched_enter.

Definition yield_leave (ie : bool) (i : nat) : SM unit := sched_leave ie ;; p_release i.

(** One entry of the scheduler's pass over the table; [run i] is what happens
    from the switch to process [i] to the switch back. *)
Definition sched_entry (run : nat -> SM unit) (i : nat) : SM bool :=
  p_acquire i ;;
  let! st := pget i p_state in
  let! found := (if decide (st = RUNNABLE) then
                   pset i (set_state RUNNING) ;;
                   modify (set_cproc (Some i)) ;;
                   run i ;;
                   modify (set_cproc None) ;;
                   ret true
                 else ret false) in
  p_release i ;;
  ret found.

(** The pass over the table; [found] says whether some process ran. *)
Fixpoint sched_scan (run : nat -> SM unit) (n : nat) (found : bool) : SM bool :=
  match n with
  | O => ret found
  | S n' =>
      let! f := sched_entry run (Z.to_nat NPROC - n)%nat in
      sched_scan run n' (f || found)
  end.

(** One round of the endless loop of [scheduler]; [wfi] is the hart's wait for
    an interrupt, with what the interrupt does. *)
Definition scheduler_round (run : nat -> SM unit) (wfi : SM unit) : SM unit :=
  on_ccpu (modify intr_on) ;;
  let! found := sched_scan run (Z.to_nat NPROC) false in
  if found then ret tt else on_ccpu (modify intr_on) ;; wfi.

Definition scheduler_start : SM unit := modify (set_cproc None).

(** [usertrapret] is the last call; what it does to the hart is in Trap. *)
Definition forkret {A} (usertrapret : SM A) : SM A :=
  let! i := curproc in
  p_release i ;;
  let! first := gets s_first in
  (if first then on_fl fl_fsinit ;; modify (set_first false) else ret tt) ;;
  usertrapret.

Definition kill (pid : Z) : SM Z :=
  let! r := forn (A := Z) (Z.to_nat NPROC) 0 1 (fun k =>
    let i := Z.to_nat k in
    p_acquire i ;;
    let! p := pget i id in
    if p_pid p =? pid then
      pset i (set_pkilled 1) ;;
      when bool_decide (p_state p = SLEEPING) do pset i (set_state RUNNABLE) ;;
      p_release i ;;
      ret (Some 0)
    else p_release i ;; ret None) in
  ret (match r with Some v => v | None => -1 end).

Definition state_name (st : procstate) : string :=
  match st with
  | UNUSED => "unused" | USED => "used" | SLEEPING => "sleep " | RUNNABLE => "runble" | RUNNING => "run   " | ZOMBIE => "zombie"
  end.

(** The lines [procdump] prints: pid, state and name. *)
Definition procdump : SM (list (Z * string * list Z)) :=
  gets (fun s => map (fun p => (p_pid p, state_name (p_state p), p_name p))
                   (filter (fun p => p_state p <> UNUSED) (take (Z.to_nat NPROC) (s_proc s)))).
End ops.

(** ** Lemmas: locks and the interrupt nesting *)
Definition pushed (c : cpu) : cpu := Cpu (noff c + 1) (if noff c =? 0 then sie c else intena c) false.

(** The interrupt state outside and inside critical sections: nested sections
    have interrupts off, and the saved flag is the one to restore. *)
Definition cpu_ok (c : cpu) : Prop :=
  0 <= noff c /\ (if noff c =? 0 then intena c = sie c else sie c = false).

Lemma push_off_pushed c : push_off c = (Ret tt, pushed c).
Proof. unfold push_off, bind, gets, modify, get, intr_get, intr_off, pushed. cbn. by destruct (noff c =? 0). Qed.

Lemma pop_off_pushed c : cpu_ok c -> pop_off (pushed c) = (Ret tt, c).
Proof.
  intros [H0 H]. unfold pop_off, bind, get, modify, intr_get, pushed. cbn. destruct (Z.ltb_spec (noff c + 1) 1); [lia|].
  cbn. replace (noff c + 1 - 1) with (noff c) by lia. destruct c as [n ie si]; cbn in *.
  destruct (n =? 0); cbn; subst; [by destruct si|by destruct ie].
Qed.

Lemma pushed_ok c : cpu_ok c -> cpu_ok (pushed c).
Proof. intros [H0 _]. unfold cpu_ok, pushed. cbn. rewrite (proj2 (Z.eqb_neq _ _)) by lia. split; [lia|done]. Qed.

Lemma acquire_eq hart c l : lk_free l -> acquire hart (c, l) = (Ret tt, (pushed c, Spinlock 1 (lk_name l) (Some hart))).
Proof.
  intros Hl. unfold acquire, on_cpu, on_lock, bind, zoom. cbn [fst snd]. rewrite push_off_pushed. cbn [fst snd].
  by rewrite acquire_word_free.
Qed.

Lemma release_eq hart c nm : cpu_ok c -> release hart (pushed c, Spinlock 1 nm (Some hart)) = (Ret tt, (c, Spinlock 0 nm None)).
Proof.
  intros Hc. unfold release, on_cpu, on_lock, bind, zoom. cbn [fst snd]. rewrite release_word_held. cbn [fst snd].
  by rewrite pop_off_pushed.
Qed.

Lemma list_alter_same {A} (f : A -> A) (l : list A) (i : nat) : (forall x, l !! i = Some x -> f x = x) -> alter f i l = l.
Proof. intros H. rewrite (list_alter_ext f id l l i); [by apply list_alter_id|done|done]. Qed.

(** ** Lemmas: the process table *)
Section table.
Context {V F : Type} {PA : PageAlloc V} {FL : FileLayer F} (h : nat).
Implicit Types s : sysst V F.
Implicit Types p : proc.

Definition in_table (i : nat) s : Prop := (i < length (s_proc s))%nat.
Definition on_hart s : Prop := (h < length (s_cpu s))%nat.
Abbreviation ccpu s := (pc_cpu (getc h s)).

Lemma getp_updp i j f s : in_table i s -> getp j (updp i f s) = if decide (j = i) then f (getp i s) else getp j s.
Proof.
  intros Hi. unfold getp, updp. cbn. case_decide as Hd; [subst; by apply list_lookup_total_alter_eq|].
  by rewrite list_lookup_total_alter_ne.
Qed.

Lemma in_table_updp i j f s : in_table i (updp j f s) <-> in_table i s.
Proof. unfold in_table, updp. cbn. by rewrite length_alter. Qed.

Lemma getc_set_ccpu c s : on_hart s -> getc h (set_ccpu h c s) = PCpu (pc_proc (getc h s)) c.
Proof. intros Hh. unfold getc, set_ccpu, updc. cbn. by rewrite list_lookup_total_alter_eq. Qed.

Lemma getc_updp i f s : getc h (updp i f s) = getc h s.
Proof. done. Qed.
Lemma getp_set_ccpu i c s : getp i (set_ccpu h c s) = getp i s.
Proof. done. Qed.
Lemma updp_set_ccpu i f c s : updp i f (set_ccpu h c s) = set_ccpu h c (updp i f s).
Proof. done. Qed.

Lemma set_ccpu_twice c c' s : set_ccpu h c (set_ccpu h c' s) = set_ccpu h c s.
Proof.
  unfold set_ccpu, updc, set_cpus. cbn. f_equal. by rewrite list_alter_alter_eq.
Qed.

Lemma set_ccpu_id s : on_hart s -> set_ccpu h (ccpu s) s = s.
Proof.
  intros Hh. unfold set_ccpu, updc, set_cpus, getc. destruct s as [? ? ? ? ? cs ? ? ?]. cbn in *. f_equal.
  apply list_alter_same. intros y Hy. apply list_lookup_total_correct in Hy as ->. by destruct y.
Qed.

Lemma updp_twice i f g s : updp i f (updp i g s) = updp i (f ∘ g) s.
Proof. unfold updp, set_procs. cbn. f_equal. apply list_alter_alter_eq. Qed.

Lemma updp_ext i f g s : (forall p, s_proc s !! i = Some p -> f p = g p) -> updp i f s = updp i g s.
Proof. intros H. unfold updp, set_procs. f_equal. apply list_alter_ext; [done|]. done. Qed.

Lemma updp_id i f s : (forall p, s_proc s !! i = Some p -> f p = p) -> updp i f s = s.
Proof. intros H. unfold updp, set_procs. destruct s; cbn in *. f_equal. by apply list_alter_same. Qed.

(** This CPU holds [p->lock] of process [i] and nothing else has changed. *)
Definition in_crit (i : nat) s : sysst V F :=
  set_ccpu h (pushed (ccpu s)) (updp i (set_plock (Spinlock 1 (lk_name (p_lock (getp i s))) (Some (hart h)))) s).

(** Updates of a process that leave its lock alone. *)
Definition lock_blind (f : proc -> proc) : Prop := forall l p, f (set_plock l p) = set_plock l (f p).

Record calm s : Prop := {
  cm_hart : on_hart s;
  cm_cpu : cpu_ok (ccpu s);
  cm_len : length (s_proc s) = Z.to_nat NPROC;
  cm_locks : forall i, in_table i s -> lk_free (p_lock (getp i s));
}.

Lemma calm_updp i f s : calm s -> lock_blind f -> calm (updp i f s).
Proof.
  intros [A1 A2 A3 A4] Hf. split; [done|done|cbn; by rewrite length_alter|].
  intros j Hj%in_table_updp. destruct (decide (i < length (s_proc s))%nat) as [Hi|Hi].
  - rewrite getp_updp by done. case_decide; [subst j|by apply A4].
    assert (E : p_lock (f (getp i s)) = p_lock (getp i s)); [|by rewrite E; apply A4].
    transitivity (p_lock (f (set_plock (p_lock (getp i s)) (getp i s)))); [by destruct (getp i s)|by rewrite Hf].
  - replace (updp i f s) with s; [by apply A4|]. symmetry. apply updp_id. intros p Hp.
    apply lookup_lt_Some in Hp. lia.
Qed.

Lemma myproc_eq s : on_hart s -> cpu_ok (ccpu s) -> myproc h s = (Ret (pc_proc (getc h s)), s).
Proof.
  intros Hh Hc. unfold myproc, on_ccpu, bind, zoom, gets, ret. rewrite push_off_pushed. rewrite getc_set_ccpu by done. cbn [pc_proc pc_cpu].
  rewrite pop_off_pushed by done. by rewrite set_ccpu_twice, set_ccpu_id.
Qed.

Lemma curproc_eq s i : on_hart s -> cpu_ok (ccpu s) -> pc_proc (getc h s) = Some i -> curproc h s = (Ret i, s).
Proof. intros Hh Hc Hi. unfold curproc, bind. rewrite myproc_eq by done. by rewrite Hi. Qed.

Lemma p_acquire_eq i s : lk_free (p_lock (getp i s)) -> p_acquire h i s = (Ret tt, in_crit i s).
Proof. intros Hl. unfold p_acquire, plock, zoom. by rewrite acquire_eq. Qed.

Lemma getp_crit i f s : in_table i s ->
  getp i (updp i f (in_crit i s)) = f (set_plock (Spinlock 1 (lk_name (p_lock (getp i s))) (Some (hart h))) (getp i s)).
Proof.
  intros Hi. rewrite getp_updp; [|unfold in_crit; by apply (in_table_updp i i)]. rewrite decide_True by done.
  f_equal. unfold in_crit. rewrite getp_set_ccpu, getp_updp by done. by rewrite decide_True.
Qed.

Lemma p_release_crit i f s :
  in_table i s -> on_hart s -> cpu_ok (ccpu s) -> lk_free (p_lock (getp i s)) -> lock_blind f ->
  p_release h i (updp i f (in_crit i s)) = (Ret tt, updp i f s).
Proof.
  intros Hi Hh Hc Hl Hf. unfold p_release, plock, zoom. rewrite getp_crit by done. rewrite Hf. cbn [p_lock set_plock].
  assert (Ec : pc_cpu (getc h (updp i f (in_crit i s))) = pushed (ccpu s)).
  { rewrite getc_updp. unfold in_crit. by rewrite getc_set_ccpu. }
  rewrite Ec, release_eq by done. cbn [fst snd]. f_equal. unfold in_crit.
  rewrite !updp_set_ccpu, !set_ccpu_twice, !updp_twice.
  assert (EU : updp i (set_plock (Spinlock 0 (lk_name (p_lock (getp i s))) None) ∘ f ∘ set_plock (Spinlock 1 (lk_name (p_lock (getp i s))) (Some (hart h)))) s = updp i f s).
  { apply updp_ext. intros p Hp. cbn. rewrite Hf. cbn. assert (Ep : getp i s = p) by (by apply list_lookup_total_correct).
    rewrite Ep. rewrite Ep in Hl. rewrite <- (lk_free_eq _ Hl). change (set_plock (p_lock p) (set_plock (Spinlock 1 (lk_name (p_lock p)) (Some (hart h))) (f p)))
      with (set_plock (p_lock p) (f p)). rewrite <- Hf. by destruct p. }
  rewrite EU. exact (set_ccpu_id (updp i f s) Hh).
Qed.

Lemma updp_id_crit i s : updp i id (in_crit i s) = in_crit i s.
Proof. by apply updp_id. Qed.

Lemma p_release_plain i s :
  in_table i s -> on_hart s -> cpu_ok (ccpu s) -> lk_free (p_lock (getp i s)) -> p_release h i (in_crit i s) = (Ret tt, s).
Proof.
  intros. rewrite <- (updp_id_crit i s). rewrite p_release_crit by done. by rewrite (updp_id i id s) by done.
Qed.

(** A critical section that tests the process and maybe updates it. *)
Lemma crit_when {A} i (b : proc -> bool) f (K : M (sysst V F) A) s Q :
  calm s -> in_table i s -> lock_blind f -> (forall l p, b (set_plock l p) = b p) ->
  runs K (updp i (fun p => if b p then f p else p) s) Q ->
  runs (p_acquire h i ;;
        let! p := pget i id in
        when b p do pset i f ;;
        p_release h i ;; K) s Q.
Proof.
  intros C Hi Hf Hb HK. pose proof C as [C1 C2 C3 C4]. apply runs_bind. eapply runs_eq; [by apply p_acquire_eq, C4|].
  unfold pget. mstep. pose proof (getp_crit i id s Hi) as G. rewrite updp_id_crit in G. rewrite G. unfold id at 1 2. rewrite Hb.
  assert (HP : forall p, s_proc s !! i = Some p -> getp i s = p) by (intros p Hp; by apply list_lookup_total_correct).
  destruct (b (getp i s)) eqn:E; apply runs_bind.
  - unfold pset. mstep. apply runs_bind. eapply runs_eq; [apply p_release_crit; auto|].
    rewrite (updp_ext i f (fun p => if b p then f p else p)); [done|]. intros p Hp. by rewrite <- (HP p Hp), E.
  - mstep. apply runs_bind. eapply runs_eq; [apply p_release_plain; auto|].
    rewrite (updp_id i (fun p => if b p then f p else p) s) in HK; [done|]. intros p Hp. by rewrite <- (HP p Hp), E.
Qed.

Definition wake1 (c : option chan) (p : proc) : proc :=
  if bool_decide (p_state p = SLEEPING) && bool_decide (p_chan p = c) then set_state RUNNABLE p else p.

(** The first [k] processes but the current one woken on [c]. *)
Definition woken_upto (k : nat) (c : option chan) s : sysst V F :=
  set_procs (imap (fun i p => if decide (i < k /\ pc_proc (getc h s) <> Some i)%nat then wake1 c p else p) (s_proc s)) s.

Lemma woken_0 c s : woken_upto 0 c s = s.
Proof.
  unfold woken_upto, set_procs. destruct s; cbn. f_equal. apply list_eq. intros i. rewrite list_lookup_imap.
  destruct (s_proc0 !! i); cbn; [|done]. by rewrite decide_False by lia.
Qed.

Lemma woken_S k c s : in_table k s ->
  woken_upto (S k) c s =
    (if decide (pc_proc (getc h s) = Some k) then woken_upto k c s else updp k (wake1 c) (woken_upto k c s)).
Proof.
  intros Hk. unfold woken_upto, updp, set_procs. case_decide as Hd; cbn; f_equal; apply list_eq; intros i.
  - rewrite !list_lookup_imap. destruct (s_proc s !! i); cbn; [|done]. f_equal.
    apply decide_ext. split; intros [H1 H2]; (split; [|done]); [|lia].
    assert (i <> k) by (intros ->; by apply H2). lia.
  - destruct (decide (i = k)) as [->|Hi].
    + rewrite list_lookup_alter_eq, !list_lookup_imap. destruct (s_proc s !! k); cbn; [|done]. f_equal.
      rewrite decide_True by (split; [lia|done]). by rewrite decide_False by lia.
    + rewrite list_lookup_alter_ne, !list_lookup_imap by done. destruct (s_proc s !! i); cbn; [|done]. f_equal.
      apply decide_ext. split; intros [H1 H2]; (split; [lia|done]).
Qed.

Lemma wake1_blind c : lock_blind (wake1 c).
Proof. intros l p. unfold wake1. cbn. by destruct (_ && _). Qed.

Lemma calm_woken k c s : calm s -> (k <= Z.to_nat NPROC)%nat -> calm (woken_upto k c s).
Proof.
  intros C. induction k as [|k IH]; intros Hk; [by rewrite woken_0|]. rewrite woken_S.
  - case_decide; [apply IH; lia|]. apply calm_updp; [apply IH; lia|apply wake1_blind].
  - unfold in_table. rewrite (cm_len _ C). lia.
Qed.

Definition woken c s : sysst V F := woken_upto (Z.to_nat NPROC) c s.

Lemma wakeup_run c s : calm s -> runs (wakeup h c) s (fun _ s' => s' = woken c s).
Proof.
  intros C. unfold wakeup. eapply runs_seq.
  - apply (runs_forn _ _ _ _ (fun k t => t = woken_upto k c s) (fun _ t => t = woken c s)); [by rewrite woken_0| |done].
    intros k t Hk ->. rewrite Z.mul_1_l, Z.add_0_l, Nat2Z.id.
    pose proof (calm_woken k c s C ltac:(lia)) as Ck. pose proof Ck as [K1 K2 K3 K4].
    assert (HkT : in_table k (woken_upto k c s)) by (unfold in_table; rewrite K3; lia).
    assert (HkS : in_table k s) by (unfold in_table; rewrite (cm_len _ C); lia).
    apply runs_bind. eapply runs_eq; [by apply myproc_eq|]. change (getc h (woken_upto k c s)) with (getc h s).
    rewrite woken_S by done. case_decide as Hd; [by apply runs_ret|].
    apply (crit_when k (fun p => bool_decide (p_state p = SLEEPING) && bool_decide (p_chan p = c)) (set_state RUNNABLE)); try done.
    by apply runs_ret.
  - intros r t ->. by apply runs_ret.
Qed.

(** [kill] on the first process with the pid. *)
Definition kill1 (p : proc) : proc :=
  let p' := set_pkilled 1 p in if bool_decide (p_state p = SLEEPING) then set_state RUNNABLE p' else p'.

Lemma kill_run pid s :
  calm s ->
  runs (kill h pid) s (fun r s' =>
    match list_find (fun p => p_pid p = pid) (s_proc s) with
    | Some (i, _) => r = 0 /\ s' = updp i kill1 s
    | None => r = -1 /\ s' = s
    end).
Proof.
  intros C. pose proof C as [C1 C2 C3 C4]. unfold kill.
  eapply (runs_seq _ _ _ (fun r s' => match list_find (fun p => p_pid p = pid) (s_proc s) with
    | Some (i, _) => r = Some 0 /\ s' = updp i kill1 s
    | None => r = None /\ s' = s end)).
  2:{ intros r s' H. apply runs_ret. destruct (list_find _ _) as [[i p]|]; destruct H as [-> ->]; done. }
  apply (runs_forn _ _ _ _ (fun k t => t = s /\ forall j, (j < k)%nat -> p_pid (getp j s) <> pid)).
  - split; [done|lia].
  - intros k t Hk [-> Hj]. rewrite Z.mul_1_l, Z.add_0_l, Nat2Z.id.
    assert (HkT : in_table k s) by (unfold in_table; rewrite C3; lia).
    apply runs_bind. eapply runs_eq; [by apply p_acquire_eq, C4|]. unfold pget. mstep.
    pose proof (getp_crit k id s HkT) as G. rewrite updp_id_crit in G. rewrite G. unfold id at 1 2. cbn [p_pid set_plock p_state].
    destruct (lookup_lt_is_Some_2 (s_proc s) k HkT) as [pk Hpk].
    assert (Ek : getp k s = pk) by (by apply list_lookup_total_correct).
    destruct (Z.eqb_spec (p_pid (getp k s)) pid) as [E|E].
    + assert (EF : list_find (fun p => p_pid p = pid) (s_proc s) = Some (k, pk)).
      { apply list_find_Some. split_and!; [done|by rewrite <- Ek|]. intros j y Hy Hjk Hp.
        apply (Hj j Hjk). unfold getp. by rewrite (list_lookup_total_correct _ _ _ Hy). }
      rewrite EF. unfold pset. mstep. apply runs_bind. unfold id. cbn [p_state set_plock].
      destruct (bool_decide (p_state (getp k s) = SLEEPING)) eqn:ES; mstep;
        rewrite ?updp_twice; (apply runs_bind; eapply runs_eq; [apply p_release_crit; auto; done|]); apply runs_ret; (split; [done|]);
        apply updp_ext; intros q Hq; rewrite Hpk in Hq; injection Hq as <-; unfold kill1; rewrite <- Ek, ES; done.
    + apply runs_bind. eapply runs_eq; [apply p_release_plain; auto|]. apply runs_ret. split; [done|].
      intros j Hjk. destruct (decide (j = k)) as [->|]; [done|apply Hj; lia].
  - intros t [-> Hj]. assert (EF : list_find (fun p => p_pid p = pid) (s_proc s) = None); [|by rewrite EF].
    apply list_find_None, Forall_lookup. intros j y Hy Hp. assert (Hl : (j < length (s_proc s))%nat) by (by eapply lookup_lt_Some).
    rewrite C3 in Hl. apply (Hj j Hl). unfold getp. by rewrite (list_lookup_total_correct _ _ _ Hy).
Qed.

Lemma wake1_idem c p : wake1 c (wake1 c p) = wake1 c p.
Proof. unfold wake1. destruct (bool_decide (p_state p = SLEEPING)) eqn:E1, (bool_decide (p_chan p = c)) eqn:E2; cbn; by rewrite ?E1, ?E2. Qed.

Lemma wake1_parent c v p : wake1 c (set_parent v p) = set_parent v (wake1 c p).
Proof. unfold wake1. cbn. by destruct (_ && _). Qed.

(** [reparent(me)] after [k] entries: the children among them belong to
    init, which was woken if there were any. *)
Definition has_child (me k : nat) s : bool := existsb (fun p => bool_decide (p_parent p = Some me)) (take k (s_proc s)).
Definition reparent1 (me k : nat) s (i : nat) (p : proc) : proc :=
  let p' := if decide (i < k /\ p_parent p = Some me)%nat then set_parent (s_init s) p else p in
  if decide (has_child me k s = true /\ pc_proc (getc h s) <> Some i) then wake1 (init_chan (s_init s)) p' else p'.
Definition reparented (me k : nat) s : sysst V F := set_procs (imap (reparent1 me k s) (s_proc s)) s.

Lemma has_child_S me k s p : s_proc s !! k = Some p ->
  has_child me (S k) s = has_child me k s || bool_decide (p_parent p = Some me).
Proof. intros Hp. unfold has_child. rewrite (take_S_r _ _ p) by done. rewrite existsb_app. cbn. by rewrite orb_false_r. Qed.

Lemma reparented_S me k s p :
  length (s_proc s) = Z.to_nat NPROC -> s_proc s !! k = Some p ->
  reparented me (S k) s =
    (if decide (p_parent p = Some me)
     then woken (init_chan (s_init s)) (updp k (set_parent (s_init s)) (reparented me k s)) else reparented me k s).
Proof.
  intros HL Hp. pose proof (has_child_S me k s p Hp) as HC. unfold reparented, woken, woken_upto, updp, set_procs.
  case_decide as Hd; cbn; f_equal; apply list_eq; intros i; rewrite !list_lookup_imap.
  - rewrite bool_decide_eq_true_2, orb_true_r in HC by done.
    assert (HE : forall (f g : nat -> proc -> proc) l, alter (f k) k (imap g l) !! i = (fun q => if decide (i = k) then f k (g i q) else g i q) <$> l !! i).
    { intros f g l. destruct (decide (i = k)) as [->|Hn]; [rewrite list_lookup_alter_eq|rewrite list_lookup_alter_ne by done];
        rewrite list_lookup_imap; by destruct (l !! _). }
    rewrite (HE (fun _ => set_parent (s_init s))). destruct (s_proc s !! i) as [q|] eqn:Hq; [|done]. cbn. f_equal.
    assert (Hi : (i < Z.to_nat NPROC)%nat) by (rewrite <- HL; by eapply lookup_lt_Some).
    unfold reparent1. rewrite HC. destruct (decide (i = k)) as [->|Hn].
    + rewrite Hp in Hq. injection Hq as <-. rewrite (decide_True (P := (k < S k)%nat /\ _)) by (split; [lia|done]).
      rewrite (decide_False (P := (k < k)%nat /\ _)) by lia.
      destruct (decide (pc_proc (getc h s) = Some k)) as [Hm|Hm].
      * rewrite !decide_False by tauto. done.
      * rewrite (decide_True (P := _ = true /\ _)) by tauto. rewrite (decide_True (P := (k < _)%nat /\ _)) by tauto.
        destruct (decide (has_child me k s = true /\ _)); [by rewrite !wake1_parent, wake1_idem|done].
    + assert (E1 : (if decide (i < S k /\ p_parent q = Some me)%nat then set_parent (s_init s) q else q) =
                   (if decide (i < k /\ p_parent q = Some me)%nat then set_parent (s_init s) q else q)).
      { apply decide_ext. split; intros [? ?]; (split; [lia|done]). }
      rewrite E1. destruct (decide (pc_proc (getc h s) = Some i)) as [Hm|Hm].
      * rewrite !(decide_False (P := _ /\ pc_proc _ <> Some i)) by tauto. done.
      * rewrite (decide_True (P := true = true /\ _)) by tauto. rewrite (decide_True (P := (i < Z.to_nat NPROC)%nat /\ _)) by tauto.
        destruct (decide (has_child me k s = true /\ _)); [by rewrite wake1_idem|done].
  - rewrite bool_decide_eq_false_2, orb_false_r in HC by done. destruct (s_proc s !! i) as [q|] eqn:Hq; [|done]. cbn. f_equal.
    unfold reparent1. rewrite HC.
    assert (E1 : (if decide (i < S k /\ p_parent q = Some me)%nat then set_parent (s_init s) q else q) =
                 (if decide (i < k /\ p_parent q = Some me)%nat then set_parent (s_init s) q else q)).
    { apply decide_ext. split; intros [H1 ?]; (split; [|done]); [|lia]. assert (i <> k) by congruence. lia. }
    by rewrite E1.
Qed.

Lemma reparented_0 me s : reparented me 0 s = s.
Proof.
  unfold reparented, set_procs. destruct s; cbn. f_equal. apply list_eq. intros i. rewrite list_lookup_imap.
  destruct (s_proc0 !! i); cbn; [|done]. unfold reparent1.
  rewrite (decide_False (P := (i < 0)%nat /\ _)) by lia. by rewrite decide_False by (intros [? _]; done).
Qed.

Lemma woken_calm c s : calm s -> calm (woken c s).
Proof. intros C. by apply calm_woken. Qed.

Lemma reparented_calm me k s : calm s -> (k <= Z.to_nat NPROC)%nat -> calm (reparented me k s).
Proof.
  intros C. induction k as [|k IH]; intros Hk; [by rewrite reparented_0|].
  destruct (lookup_lt_is_Some_2 (s_proc s) k) as [p Hp]; [rewrite (cm_len _ C); lia|].
  rewrite (reparented_S me k s p (cm_len _ C) Hp). case_decide; [|apply IH; lia].
  apply woken_calm, calm_updp; [apply IH; lia|done].
Qed.

Lemma reparented_parent me k s i p : s_proc s !! i = Some p -> p_parent (getp i (reparented me k s)) =
  if decide (i < k /\ p_parent p = Some me)%nat then s_init s else p_parent p.
Proof.
  intros Hp. unfold getp, reparented. cbn. rewrite (list_lookup_total_correct _ i (reparent1 me k s i p)).
  - unfold reparent1. repeat case_decide; try done; unfold wake1; cbn; by destruct (_ && _).
  - by rewrite list_lookup_imap, Hp.
Qed.

Lemma reparent_run me s : calm s -> runs (reparent h me) s (fun _ s' => s' = reparented me (Z.to_nat NPROC) s).
Proof.
  intros C. unfold reparent. eapply runs_seq.
  - apply (runs_forn _ _ _ _ (fun k t => t = reparented me k s) (fun _ t => t = reparented me (Z.to_nat NPROC) s));
      [by rewrite reparented_0| |done].
    intros k t Hk ->. rewrite Z.mul_1_l, Z.add_0_l, Nat2Z.id.
    destruct (lookup_lt_is_Some_2 (s_proc s) k) as [p Hp]; [rewrite (cm_len _ C); lia|].
    unfold pget. mstep. rewrite (reparented_parent me k s k p Hp). rewrite (decide_False (P := (k < k)%nat /\ _)) by lia.
    rewrite (reparented_S me k s p (cm_len _ C) Hp). case_decide as Hd; [|by apply runs_ret].
    mstep. unfold pset. mstep. eapply runs_seq.
    + apply wakeup_run. apply calm_updp; [apply reparented_calm; [done|lia]|done].
    + intros u t ->. by apply runs_ret.
  - intros r t ->. by apply runs_ret.
Qed.

(** [wait_lock] taken by this CPU, and given back. *)
Definition with_wait s : sysst V F :=
  set_waitlk (Spinlock 1 (lk_name (s_waitlk s)) (Some (hart h))) (set_ccpu h (pushed (ccpu s)) s).

Lemma wait_acquire s : lk_free (s_waitlk s) -> waitlock h (acquire (hart h)) s = (Ret tt, with_wait s).
Proof. intros Hl. unfold waitlock, zoom. by rewrite acquire_eq. Qed.

Lemma wait_release s c nm :
  cpu_ok c -> ccpu s = pushed c -> s_waitlk s = Spinlock 1 nm (Some (hart h)) ->
  waitlock h (release (hart h)) s = (Ret tt, set_waitlk (Spinlock 0 nm None) (set_ccpu h c s)).
Proof. intros Hc E1 E2. unfold waitlock, zoom. by rewrite E1, E2, release_eq. Qed.

Lemma calm_with_wait s : calm s -> calm (with_wait s).
Proof.
  intros [A1 A2 A3 A4]. split; [|unfold with_wait; change (getc h (set_waitlk _ ?t)) with (getc h t); rewrite getc_set_ccpu by done; by apply pushed_ok|done|done].
  unfold on_hart, with_wait. cbn. by rewrite length_alter.
Qed.

(** The check of [sched] passes with exactly [p->lock] held and interrupts off. *)
Lemma sched_enter_run s i c nm :
  on_hart s -> pc_proc (getc h s) = Some i -> ccpu s = pushed c -> cpu_ok c -> noff c = 0 ->
  p_lock (getp i s) = Spinlock 1 nm (Some (hart h)) -> p_state (getp i s) <> RUNNING ->
  sched_enter h s = (Ret (sie c), s).
Proof.
  intros Hh Hi Hc Hok Hn Hl Hs. unfold sched_enter. unfold bind at 1.
  rewrite (curproc_eq s i Hh) by (rewrite ?Hc; (by apply pushed_ok) || done).
  unfold pget, gets, bind. unfold id. rewrite Hl, Hc. unfold holding. cbn [locked lk_cpu]. rewrite bool_decide_eq_true_2 by done.
  unfold pushed. cbn [noff intena sie negb andb Z.eqb]. rewrite Hn. cbn. by rewrite decide_False.
Qed.
End table.

(** The file layer's calls return. *)
Class FileLayerOk (F : Type) {FL : FileLayer F} : Prop := {
  fo_dup : forall i f, exists f', fl_filedup i f = (Ret tt, f');
  fo_close : forall i f, exists f', fl_fileclose i f = (Ret tt, f');
  fo_idup : forall i f, exists f', fl_idup i f = (Ret tt, f');
  fo_iput : forall i f, exists f', fl_iput i f = (Ret tt, f');
  fo_begin : forall f, exists f', fl_begin_op f = (Ret tt, f');
  fo_end : forall f, exists f', fl_end_op f = (Ret tt, f');
}.

Section exiting.
Context {V F : Type} {PA : PageAlloc V} {FL : FileLayer F} {FO : FileLayerOk F} (h : nat).
Implicit Types s : sysst V F.
Abbreviation ccpu s := (pc_cpu (getc h s)).

Lemma on_fl_run (m : M F unit) s Q :
  (forall f, exists f', m f = (Ret tt, f')) -> (forall f', Q tt (set_fl f' s)) -> runs (on_fl m) s Q.
Proof. intros Hm HQ. apply runs_zoom. destruct (Hm (s_fl s)) as (f' & E). eapply runs_eq; [exact E|]. apply HQ. Qed.

Definition closed_upto (k : nat) (p : proc) : proc := set_ofile (replicate k None ++ drop k (p_ofile p)) p.

Lemma closed_upto_S k p f :
  length (p_ofile p) = 16%nat -> (k < 16)%nat ->
  f p = set_ofile (<[k := None]> (p_ofile (closed_upto k p))) (closed_upto k p) \/ p_ofile p !!! k = None /\ f p = closed_upto k p ->
  f p = closed_upto (S k) p.
Proof.
  intros HL Hk H. destruct (lookup_lt_is_Some_2 (p_ofile p) k ltac:(lia)) as [o Ho].
  unfold closed_upto in *. rewrite (drop_S _ o) in H by done.
  assert (E : replicate (S k) None ++ drop (S k) (p_ofile p) = replicate k None ++ None :: drop (S k) (p_ofile p)).
  { replace (S k) with (k + 1)%nat at 1 by lia. by rewrite replicate_add, <- app_assoc. }
  rewrite E. destruct H as [->|[Hn ->]].
  - cbn. rewrite insert_app_r_alt by (rewrite length_replicate; lia). rewrite length_replicate, Nat.sub_diag. done.
  - rewrite (list_lookup_total_correct _ _ _ Ho) in Hn. by subst o.
Qed.

Lemma close_files_run i s :
  in_table i s -> length (p_ofile (getp i s)) = 16%nat ->
  runs (close_files i) s (fun _ s' => exists f', s' = set_fl f' (updp i (set_ofile (replicate 16 None)) s)).
Proof.
  intros Hi HL. unfold close_files. eapply runs_seq.
  - apply (runs_forn _ _ _ _ (fun k t => exists f', t = set_fl f' (updp i (closed_upto k) s))
      (fun _ t => exists f', t = set_fl f' (updp i (set_ofile (replicate 16 None)) s))).
    + exists (s_fl s). rewrite updp_id; [by destruct s|]. intros p Hp. unfold closed_upto. cbn. by destruct p.
    + intros k t Hk (f & ->). change (Z.to_nat NOFILE) with 16%nat in Hk. rewrite Z.mul_1_l, Z.add_0_l, Nat2Z.id.
      unfold pget. mstep. change (getp i (set_fl f ?t)) with (getp i t). rewrite getp_updp by done. rewrite decide_True by done.
      assert (EO : p_ofile (closed_upto k (getp i s)) !!! k = p_ofile (getp i s) !!! k).
      { unfold closed_upto. cbn. rewrite !list_lookup_total_alt. f_equal. rewrite lookup_app_r by (rewrite length_replicate; lia).
        rewrite length_replicate, Nat.sub_diag, lookup_drop. by rewrite Nat.add_0_r. }
      assert (HP : forall p, s_proc s !! i = Some p -> getp i s = p) by (intros p Hp; by apply list_lookup_total_correct).
      rewrite EO. destruct (p_ofile (getp i s) !!! k) as [fi|] eqn:Ho.
      * apply runs_bind, on_fl_run; [apply fo_close|]. intros f'. unfold pset. mstep. apply runs_ret. exists f'.
        change (updp i ?g (set_fl f' (set_fl f ?t))) with (set_fl f' (updp i g t)). f_equal. rewrite updp_twice.
        apply updp_ext. intros p Hp. apply HP in Hp. subst p. apply closed_upto_S; [done|done|]. by left.
      * apply runs_ret. exists f. f_equal. apply updp_ext. intros p Hp. apply HP in Hp. subst p.
        apply (closed_upto_S k _ (closed_upto k)); [done|done|]. by right.
    + intros t (f & ->). exists f. f_equal. apply updp_ext. intros p Hp.
      assert (Ep : getp i s = p) by (by apply list_lookup_total_correct). unfold closed_upto. rewrite drop_ge, app_nil_r; [done|].
      rewrite Ep in HL. change (Z.to_nat NOFILE) with 16%nat. lia.
  - intros r t H. by apply runs_ret.
Qed.

Lemma getp_imap s g i : in_table i s -> getp i (set_procs (imap g (s_proc s)) s) = g i (getp i s).
Proof.
  intros Hi. destruct (lookup_lt_is_Some_2 _ _ Hi) as [p Hp]. unfold getp. cbn.
  rewrite (list_lookup_total_correct _ i (g i p)) by (by rewrite list_lookup_imap, Hp).
  by rewrite (list_lookup_total_correct _ _ _ Hp).
Qed.

Lemma getp_woken c s i : calm h s -> in_table i s ->
  getp i (woken h c s) = if decide (pc_proc (getc h s) = Some i) then getp i s else wake1 c (getp i s).
Proof.
  intros C Hi. unfold woken, woken_upto. rewrite getp_imap by done. unfold in_table in Hi. rewrite (cm_len _ _ C) in Hi.
  repeat case_decide; try done; exfalso; tauto.
Qed.

(** What [exit] does to another process: a child goes to init, and init and
    the parent are woken. *)
Definition after_exit (me : nat) s (i : nat) (p : proc) : proc :=
  wake1 (init_chan (p_parent (getp me s))) (reparent1 h me (Z.to_nat NPROC) s i p).

Lemma reparent1_parent me k s i p :
  p_parent (reparent1 h me k s i p) = if decide (i < k /\ p_parent p = Some me)%nat then s_init s else p_parent p.
Proof. unfold reparent1. repeat case_decide; try done; unfold wake1; cbn; by destruct (_ && _). Qed.

Lemma reparent1_lock me k s i p : p_lock (reparent1 h me k s i p) = p_lock p.
Proof. unfold reparent1. repeat case_decide; try done; unfold wake1; cbn; by destruct (_ && _). Qed.

Lemma has_child_ext me k s (t : sysst V F) : map p_parent (s_proc t) = map p_parent (s_proc s) -> has_child me k t = has_child me k s.
Proof.
  intros E. unfold has_child. assert (H : forall l, existsb (fun p => bool_decide (p_parent p = Some me)) (take k l) =
    existsb (fun q => bool_decide (q = Some me)) (take k (map p_parent l))); [|by rewrite !H, E].
  intros l. rewrite <- (fmap_take p_parent). induction (take k l) as [|p l' IH]; cbn; [done|by rewrite IH].
Qed.

Lemma reparent1_ext me k s (t : sysst V F) i p :
  map p_parent (s_proc t) = map p_parent (s_proc s) -> s_init t = s_init s -> pc_proc (getc h t) = pc_proc (getc h s) ->
  reparent1 h me k t i p = reparent1 h me k s i p.
Proof. intros E1 E2 E3. unfold reparent1. by rewrite (has_child_ext me k s t E1), E2, E3. Qed.

Lemma parents_alter (l : list proc) i g : (forall p, p_parent (g p) = p_parent p) -> map p_parent (alter g i l) = map p_parent l.
Proof.
  intros Hg. apply list_eq. intros j. rewrite !(list_lookup_fmap p_parent).
  destruct (decide (i = j)) as [->|]; [rewrite list_lookup_alter_eq|by rewrite list_lookup_alter_ne].
  destruct (l !! j); cbn; by rewrite ?Hg.
Qed.

(** The state in which a process that held [wait_lock] and then only its own
    lock hands the CPU to the scheduler. *)
Definition parked (c : cpu) (nm : string) s : sysst V F := set_waitlk (Spinlock 0 nm None) (set_ccpu h (pushed c) s).

Lemma park_run i t c nm z (t6 := updp i z (in_crit h i t)) :
  calm h t -> in_table i t -> pc_proc (getc h t) = Some i -> ccpu t = pushed c -> cpu_ok c -> noff c = 0 ->
  s_waitlk t = Spinlock 1 nm (Some (hart h)) -> lock_blind z -> (forall p, p_state (z p) <> RUNNING) ->
  waitlock h (release (hart h)) t6 = (Ret tt, parked c nm t6) /\
  sched_enter h (parked c nm t6) = (Ret (sie c), parked c nm t6) /\
  getc h (parked c nm t6) = PCpu (Some i) (pushed c) /\
  getp i (parked c nm t6) = z (set_plock (Spinlock 1 (lk_name (p_lock (getp i t))) (Some (hart h))) (getp i t)).
Proof.
  intros Ct Hi Hme Hc Hok Hn Hw Hz Hs. pose proof Ct as [K1 K2 K3 K4].
  assert (Hc6 : getc h t6 = PCpu (Some i) (pushed (pushed c))).
  { unfold t6, in_crit. rewrite getc_updp, getc_set_ccpu by done. rewrite getc_updp. by rewrite Hc, Hme. }
  assert (Hh6 : on_hart h t6) by (unfold t6, in_crit, on_hart, updp, set_ccpu, updc; cbn; by rewrite length_alter).
  assert (Ec7 : getc h (parked c nm t6) = PCpu (Some i) (pushed c)).
  { unfold parked. change (getc h (set_waitlk _ ?t)) with (getc h t). rewrite getc_set_ccpu by done. by rewrite Hc6. }
  assert (Gz : getp i (parked c nm t6) = z (set_plock (Spinlock 1 (lk_name (p_lock (getp i t))) (Some (hart h))) (getp i t))).
  { change (getp i (parked c nm t6)) with (getp i t6). unfold t6. by rewrite getp_crit. }
  split_and!; [|eapply (sched_enter_run h _ i c)|done|done]; try done.
  - apply (wait_release h t6 (pushed c)); [by apply pushed_ok|by rewrite Hc6|done].
  - unfold on_hart, parked, set_ccpu, updc. cbn. by rewrite !length_alter.
  - by rewrite Ec7.
  - by rewrite Ec7.
  - rewrite Gz, Hz. done.
  - by rewrite Gz.
Qed.

(** [exit] in full: the final table, the locks and the CPU. *)
Lemma exit_run s me status d :
  calm h s -> pc_proc (getc h s) = Some me -> in_table me s -> noff (ccpu s) = 0 -> lk_free (s_waitlk s) ->
  s_init s <> Some me -> length (p_ofile (getp me s)) = 16%nat -> p_cwd (getp me s) = Some d -> p_parent (getp me s) <> Some me ->
  runs (exit h status) s (fun ie s' => ie = sie (ccpu s) /\
    ccpu s' = pushed (ccpu s) /\ pc_proc (getc h s') = Some me /\ lk_free (s_waitlk s') /\ s_init s' = s_init s /\
    length (s_proc s') = length (s_proc s) /\
    getp me s' = set_state ZOMBIE (set_xstate status (set_plock (Spinlock 1 (lk_name (p_lock (getp me s))) (Some (hart h)))
                   (set_cwd None (set_ofile (replicate 16 None) (getp me s))))) /\
    forall i, in_table i s -> i <> me -> getp i s' = after_exit me s i (getp i s)).
Proof.
  intros C Hme Hi Hn Hw Hinit HL Hd Hpar. pose proof C as [C1 C2 C3 C4]. unfold exit.
  apply runs_bind. eapply runs_eq; [by apply curproc_eq|]. mstep. rewrite decide_False by congruence.
  eapply runs_seq; [by apply close_files_run|]. intros u t1 (f1 & ->).
  apply runs_bind, on_fl_run; [apply fo_begin|]. intros f2. unfold pget at 1. mstep.
  change (getp me (set_fl f2 (set_fl f1 ?t))) with (getp me t). rewrite getp_updp by done. rewrite decide_True by done.
  cbn [p_cwd set_ofile]. rewrite Hd. apply runs_bind, on_fl_run; [apply fo_iput|]. intros f3.
  apply runs_bind, on_fl_run; [apply fo_end|]. intros f4. unfold pset at 1. mstep.
  set (g := set_cwd None ∘ set_ofile (replicate 16 None)).
  assert (E2 : updp me (set_cwd None) (set_fl f4 (set_fl f3 (set_fl f2 (set_fl f1 (updp me (set_ofile (replicate 16 None)) s))))) =
               set_fl f4 (updp me g s)).
  { change (updp me (set_cwd None) (set_fl f4 (set_fl f3 (set_fl f2 (set_fl f1 ?t))))) with (set_fl f4 (updp me (set_cwd None) t)).
    by rewrite updp_twice. }
  rewrite E2. set (t2 := set_fl f4 (updp me g s)).
  assert (Ct2 : calm h t2).
  { pose proof (calm_updp h me g s C ltac:(done)) as [D1 D2 D3 D4]. by split. }
  assert (Gt2 : forall i, getp i t2 = if decide (i = me) then g (getp me s) else getp i s) by (intros i; by apply getp_updp).
  assert (G2me : getp me t2 = g (getp me s)) by (rewrite Gt2; by rewrite decide_True).
  apply runs_bind. eapply runs_eq; [by apply wait_acquire|]. set (t3 := with_wait h t2).
  assert (Ct3 : calm h t3) by (by apply calm_with_wait).
  assert (Et3 : getc h t3 = PCpu (Some me) (pushed (ccpu s))).
  { unfold t3, with_wait. change (getc h (set_waitlk _ ?t)) with (getc h t). rewrite getc_set_ccpu by done.
    change (getc h t2) with (getc h s). by rewrite Hme. }
  eapply runs_seq; [by apply reparent_run|]. intros u4 t4 ->. set (t4 := reparented h me (Z.to_nat NPROC) t3).
  assert (Ct4 : calm h t4) by (by apply reparented_calm).
  assert (Gt4 : forall i, in_table i s -> getp i t4 = reparent1 h me (Z.to_nat NPROC) t3 i (getp i t2)).
  { intros i Hit. unfold t4, reparented. rewrite getp_imap; [done|]. unfold in_table. rewrite (cm_len _ _ Ct3). by rewrite <- C3. }
  unfold pget at 1. mstep.
  assert (Ep : p_parent (getp me t4) = p_parent (getp me s)).
  { rewrite Gt4 by done. rewrite reparent1_parent, G2me. change (p_parent (g ?p)) with (p_parent p).
    by rewrite decide_False by (intros [_ ?]; done). }
  rewrite Ep. eapply runs_seq; [by apply wakeup_run|]. intros u5 t5 ->. set (t5 := woken h _ t4).
  assert (Ct5 : calm h t5) by (by apply woken_calm). pose proof Ct5 as [K1 K2 K3 K4].
  assert (Hi5 : forall i, in_table i s -> in_table i t5) by (intros i Hit; unfold in_table; rewrite K3; by rewrite <- C3).
  assert (Hc5 : getc h t5 = PCpu (Some me) (pushed (ccpu s))) by exact Et3.
  apply runs_bind. eapply runs_eq; [apply p_acquire_eq, K4, Hi5, Hi|]. unfold pset. mstep. mstep. rewrite updp_twice.
  set (z := set_state ZOMBIE ∘ set_xstate status). set (t6 := updp me z (in_crit h me t5)).
  assert (Gme : getp me t5 = reparent1 h me (Z.to_nat NPROC) t3 me (g (getp me s))).
  { unfold t5. rewrite getp_woken; [|done|unfold in_table; rewrite (cm_len _ _ Ct4); by rewrite <- C3].
    change (getc h t4) with (getc h t3). rewrite Et3. cbn [pc_proc]. rewrite decide_True by done.
    by rewrite Gt4, G2me. }
  assert (Rme : reparent1 h me (Z.to_nat NPROC) t3 me (g (getp me s)) = g (getp me s)).
  { unfold reparent1. rewrite Et3. cbn [pc_proc]. rewrite (decide_False (P := _ /\ Some me <> Some me)) by tauto.
    by rewrite decide_False by (intros [_ ?]; done). }
  destruct (park_run me t5 (ccpu s) (lk_name (s_waitlk s)) z) as (PR & PS & PC & PG);
    [exact Ct5|by apply Hi5|by rewrite Hc5|by rewrite Hc5|done|done|done|done|done|].
  apply runs_bind. eapply runs_eq; [exact PR|]. eapply runs_eq; [exact PS|]. fold t6 in PG, PC |- *. set (t7 := parked _ _ t6) in *.
  rewrite Gme, Rme in PG.
  split_and!; [done|by rewrite PC|by rewrite PC|done|done| |exact PG|].
  - change (length (s_proc t7)) with (length (s_proc t6)). unfold t6, in_crit. cbn. rewrite !length_alter, !length_imap, length_alter. done.
  - intros i Hit Him. change (getp i t7) with (getp i t6). unfold t6. rewrite getp_updp by (unfold in_crit; by apply (in_table_updp me me), Hi5).
    rewrite decide_False by done. unfold in_crit. rewrite getp_set_ccpu, getp_updp by auto. rewrite decide_False by done.
    unfold t5. rewrite getp_woken; [|done|unfold in_table; rewrite (cm_len _ _ Ct4); by rewrite <- C3].
    change (getc h t4) with (getc h t3). rewrite Et3. cbn [pc_proc]. rewrite decide_False by congruence.
    rewrite Gt4, Gt2 by done. rewrite decide_False by done. unfold after_exit. f_equal.
    apply reparent1_ext; [|done|by rewrite Et3, Hme]. apply parents_alter. done.
Qed.
End exiting.

(** ** Lemmas: [wait] *)
Section waiting.
Context {V F : Type} {PA : PageAlloc V} {FL : FileLayer F} (h : nat).
Implicit Types s : sysst V F.
Abbreviation ccpu s := (pc_cpu (getc h s)).

(** What [freeproc] does to the memory of the machine, and to the entry. *)
Definition free_image (tf pt sz : Z) : M V unit :=
  (if negb (tf =? 0) then pa_release tf else ret tt) ;;
  if negb (pt =? 0) then
    uvmunmap pt TRAMPOLINE 1 false ;; uvmunmap pt TRAPFRAME 1 false ;; uvmfree pt sz
  else ret tt.

Definition freed (p : proc) : proc :=
  Proc (p_lock p) UNUSED None 0 0 0 None (p_kstack p) 0 0 0 (p_context p) (p_ofile p) (p_cwd p) (<[0%nat := 0]> (p_name p)).

Lemma on_vm_run {A} (m : M V A) s a v' Q : m (s_vm s) = (Ret a, v') -> Q a (set_vm v' s) -> runs (on_vm m) s Q.
Proof. intros E HQ. apply runs_zoom. eapply runs_eq; [exact E|done]. Qed.

Lemma freeproc_run i s v' :
  in_table i s -> free_image (p_trapframe (getp i s)) (p_pagetable (getp i s)) (p_sz (getp i s)) (s_vm s) = (Ret tt, v') ->
  runs (freeproc i) s (fun _ s' => s' = set_vm v' (updp i freed s)).
Proof.
  intros Hi HE. unfold free_image in HE. unfold bind at 1 in HE.
  destruct ((if negb (p_trapframe (getp i s) =? 0) then pa_release (p_trapframe (getp i s)) else ret tt) (s_vm s)) as [[u|? | ? | ?] v1] eqn:E1; try done.
  unfold freeproc. unfold pget at 1. mstep.
  apply runs_bind. assert (S1 : runs (if negb (p_trapframe (getp i s) =? 0) then on_vm (pa_release (p_trapframe (getp i s))) else ret tt) s
    (fun _ s1 => s1 = set_vm v1 s)).
  { destruct (negb _).
    - eapply on_vm_run; [exact E1|done].
    - apply runs_ret. injection E1 as _ <-. by destruct s. }
  eapply runs_mono; [exact S1|]. intros u1 s1 ->. unfold pset, pget. do 3 mstep.
  assert (G : getp i (updp i (set_trapframe 0) (set_vm v1 s)) = set_trapframe 0 (getp i s)).
  { rewrite getp_updp by done. by rewrite decide_True. }
  rewrite G. cbn [p_pagetable p_sz set_trapframe]. apply runs_bind.
  assert (S2 : runs (if negb (p_pagetable (getp i s) =? 0) then proc_freepagetable (p_pagetable (getp i s)) (p_sz (getp i s)) else ret tt)
    (updp i (set_trapframe 0) (set_vm v1 s)) (fun _ s2 => s2 = set_vm v' (updp i (set_trapframe 0) s))).
  { destruct (negb (p_pagetable (getp i s) =? 0)); [|apply runs_ret; by injection HE as ->].
    unfold proc_freepagetable. unfold bind in HE. destruct (uvmunmap _ TRAMPOLINE 1 false v1) as [[?|?|?|?] v2] eqn:U1; try done.
    destruct (uvmunmap _ TRAPFRAME 1 false v2) as [[?|?|?|?] v3] eqn:U2; try done.
    apply runs_bind. eapply on_vm_run; [exact U1|]. apply runs_bind. eapply on_vm_run; [exact U2|].
    eapply on_vm_run; [exact HE|]. done. }
  eapply runs_mono; [exact S2|]. intros u2 s2 ->. do 9 mstep. rewrite !updp_twice.
  change (updp i ?f (set_vm v' (updp i (set_trapframe 0) s))) with (set_vm v' (updp i f (updp i (set_trapframe 0) s))).
  by rewrite updp_twice.
Qed.

Lemma killed_run i s : calm h s -> in_table i s -> killed h i s = (Ret (p_killed (getp i s)), s).
Proof.
  intros [C1 C2 C3 C4] Hi. unfold killed, bind. rewrite p_acquire_eq by auto. unfold pget, gets.
  pose proof (getp_crit h i id s Hi) as G. rewrite updp_id_crit in G. rewrite p_release_plain by auto. unfold ret. by rewrite G.
Qed.

Definition zombie_child (p : nat) (q : proc) : Prop := p_parent q = Some p /\ p_state q = ZOMBIE.
#[local] Instance zombie_child_dec p q : Decision (zombie_child p q).
Proof. unfold zombie_child. apply _. Defined.

Definition is_child (p : nat) (q : proc) : bool := bool_decide (p_parent q = Some p).

(** The scan finds the first zombie child, or tells whether there are children. *)
Lemma wait_scan_eq xa p addr n hk s (i := (Z.to_nat NPROC - n)%nat) :
  calm h s -> (n <= Z.to_nat NPROC)%nat ->
  wait_scan h xa p addr n hk s =
    match list_find (zombie_child p) (drop i (s_proc s)) with
    | Some (k, _) => (let! r := wait_reap h xa p (i + k) addr in ret (inl r)) (in_crit h (i + k) s)
    | None => (Ret (inr (hk || existsb (is_child p) (drop i (s_proc s)))), s)
    end.
Proof.
  intros C. pose proof C as [C1 C2 C3 C4]. revert i hk. induction n as [|n IH]; intros i hk Hn.
  { unfold i. rewrite drop_ge by (rewrite C3; lia). cbn. by rewrite orb_false_r. }
  assert (Hi : in_table i s) by (unfold in_table; rewrite C3; unfold i; lia).
  destruct (lookup_lt_is_Some_2 _ _ Hi) as [q Hq]. assert (Gq : getp i s = q) by (by apply list_lookup_total_correct).
  rewrite (drop_S _ q) by done. cbn [wait_scan]. fold i. unfold bind at 1. unfold pget at 1, gets at 1. rewrite Gq.
  assert (Ei : (Z.to_nat NPROC - n)%nat = S i) by (unfold i; lia).
  assert (Ef : forall l, list_find (zombie_child p) (q :: l) =
    if decide (zombie_child p q) then Some (0%nat, q) else prod_map S id <$> list_find (zombie_child p) l) by done.
  rewrite Ef. cbn [existsb]. destruct (decide (p_parent q = Some p)) as [Hp|Hp].
  - unfold bind at 1. rewrite p_acquire_eq by auto. unfold bind at 1. unfold pget at 1, gets at 1.
    pose proof (getp_crit h i id s Hi) as G. rewrite updp_id_crit in G. rewrite G, Gq. cbn [p_state set_plock id].
    destruct (decide (p_state q = ZOMBIE)) as [Hz|Hz].
    + rewrite (decide_True (P := zombie_child p q)) by done. by rewrite Nat.add_0_r.
    + rewrite (decide_False (P := zombie_child p q)) by (intros [_ ?]; done).
      unfold bind at 1. rewrite p_release_plain by auto. rewrite IH by lia. rewrite Ei.
      destruct (list_find _ _) as [[k r]|]; cbn [fmap option_fmap option_map prod_map id fst snd].
      * by rewrite Nat.add_succ_r.
      * unfold is_child at 2. rewrite bool_decide_eq_true_2 by done. cbn. by rewrite orb_true_r.
  - rewrite (decide_False (P := zombie_child p q)) by (intros [? _]; done). rewrite IH by lia. rewrite Ei.
    destruct (list_find _ _) as [[k r]|]; cbn [fmap option_fmap option_map prod_map id fst snd].
    + by rewrite Nat.add_succ_r.
    + unfold is_child at 2. by rewrite bool_decide_eq_false_2.
Qed.

(** Storing the exit status for the parent. *)
Definition report (xa : nat -> Z) (i : nat) (pt addr xs : Z) : M V Z :=
  if negb (addr =? 0) then
    modify (fun v => pa_set_mem (store_bytes (pa_mem v) (xa i) (le_enc 4 xs)) v) ;; copyout pt addr (xa i) 4
  else ret 0.

Lemma with_wait_cpu s : on_hart h s -> getc h (with_wait h s) = PCpu (pc_proc (getc h s)) (pushed (ccpu s)).
Proof. intros Hh. unfold with_wait. change (getc h (set_waitlk _ ?t)) with (getc h t). by rewrite getc_set_ccpu. Qed.

Lemma unwait s :
  on_hart h s -> lk_free (s_waitlk s) ->
  set_waitlk (Spinlock 0 (lk_name (s_waitlk s)) None) (set_ccpu h (ccpu s) (with_wait h s)) = s.
Proof.
  intros Hh Hl. unfold with_wait. change (set_ccpu h ?c (set_waitlk ?l ?t)) with (set_waitlk l (set_ccpu h c t)).
  rewrite set_ccpu_twice, set_ccpu_id by done. rewrite <- (lk_free_eq _ Hl). by destruct s.
Qed.

(** Giving [wait_lock] back after a change [m] of an entry and the memory. *)
Lemma unwait_after s j f v :
  on_hart h s -> cpu_ok (ccpu s) -> lk_free (s_waitlk s) ->
  waitlock h (release (hart h)) (set_vm v (updp j f (with_wait h s))) = (Ret tt, set_vm v (updp j f s)).
Proof.
  intros Hh Hc Hl. rewrite (wait_release h _ (ccpu s) (lk_name (s_waitlk s))); [|done| |done].
  - change (set_waitlk ?l (set_ccpu h ?c (set_vm v (updp j f ?t)))) with (set_vm v (updp j f (set_waitlk l (set_ccpu h c t)))).
    by rewrite unwait.
  - change (getc h (set_vm v (updp j f ?t))) with (getc h t). by rewrite with_wait_cpu.
Qed.

Lemma wait_reap_run xa p addr j s st v1 v2 (q := getp j s) :
  calm h s -> lk_free (s_waitlk s) -> in_table j s -> in_table p s ->
  report xa j (p_pagetable (getp p s)) addr (p_xstate q) (s_vm s) = (Ret st, v1) ->
  (0 <= st -> free_image (p_trapframe q) (p_pagetable q) (p_sz q) v1 = (Ret tt, v2)) ->
  runs (wait_reap h xa p j addr) (in_crit h j (with_wait h s)) (fun r s' =>
    if st <? 0 then r = -1 /\ s' = set_vm v1 s else r = p_pid q /\ s' = set_vm v2 (updp j freed s)).
Proof.
  intros C Hw Hj Hp HR HF. pose proof C as [C1 C2 C3 C4]. set (t := with_wait h s).
  pose proof (calm_with_wait h s C) as Ct. fold t in Ct. pose proof Ct as [K1 K2 K3 K4].
  assert (Gj : getp j (in_crit h j t) = set_plock (Spinlock 1 (lk_name (p_lock q)) (Some (hart h))) q).
  { pose proof (getp_crit h j id t Hj) as G. by rewrite updp_id_crit in G. }
  assert (Gp : p_pagetable (getp p (in_crit h j t)) = p_pagetable (getp p s)).
  { unfold in_crit. rewrite getp_set_ccpu, getp_updp by done. case_decide as E; [by subst|done]. }
  unfold wait_reap. unfold pget at 1 2. mstep. mstep. unfold id. rewrite Gj, Gp. cbn [p_pid p_xstate set_plock].
  eapply (runs_seq _ _ _ (fun r s1 => r = st /\ s1 = in_crit h j (set_vm v1 t))).
  { unfold report in HR. destruct (negb (addr =? 0)).
    - apply runs_bind. eapply on_vm_run; [done|]. eapply on_vm_run; [exact HR|]. done.
    - apply runs_ret. injection HR as <- <-. split; [done|]. unfold t. by destruct s. }
  intros r s1 [-> ->].
  assert (Ctv : calm h (set_vm v1 t)) by (by destruct Ct). pose proof Ctv as [T1 T2 T3 T4].
  destruct (Z.ltb_spec st 0) as [Hst|Hst].
  - apply runs_bind. eapply runs_eq; [apply p_release_plain; auto|]. apply runs_bind.
    rewrite <- (updp_id j id (set_vm v1 t)) by done. change (updp j id (set_vm v1 t)) with (set_vm v1 (updp j id t)).
    eapply runs_eq; [by apply unwait_after|]. apply runs_ret. split; [done|]. by rewrite (updp_id j id s).
  - eapply runs_seq.
    { apply (freeproc_run j _ v2); [by apply (in_table_updp j j)|].
      change (getp j (in_crit h j (set_vm v1 t))) with (getp j (in_crit h j t)). rewrite Gj. by apply HF. }
    intros u s2 ->. change (set_vm v2 (updp j freed (in_crit h j (set_vm v1 t)))) with (updp j freed (in_crit h j (set_vm v2 t))).
    assert (Ctw : calm h (set_vm v2 t)) by (by destruct Ct). pose proof Ctw as [W1 W2 W3 W4].
    apply runs_bind. eapply runs_eq; [apply p_release_crit; auto; done|]. apply runs_bind.
    change (updp j freed (set_vm v2 t)) with (set_vm v2 (updp j freed t)).
    eapply runs_eq; [by apply unwait_after|]. by apply runs_ret.
Qed.

(** [sleep] with [wait_lock], from a state where only that lock is held. *)
Lemma sleep_wait_run i t c nm ch :
  calm h t -> in_table i t -> pc_proc (getc h t) = Some i -> ccpu t = pushed c -> cpu_ok c -> noff c = 0 ->
  s_waitlk t = Spinlock 1 nm (Some (hart h)) ->
  runs (sleep_enter h ch (waitlock h (release (hart h)))) t (fun ie s' => ie = sie c /\ lk_free (s_waitlk s') /\
    getc h s' = PCpu (Some i) (pushed c) /\
    getp i s' = set_state SLEEPING (set_chan (Some ch) (set_plock (Spinlock 1 (lk_name (p_lock (getp i t))) (Some (hart h))) (getp i t))) /\
    forall j, in_table j t -> j <> i -> getp j s' = getp j t).
Proof.
  intros Ct Hi Hme Hc Hok Hn Hw. pose proof Ct as [K1 K2 K3 K4]. set (z := set_state SLEEPING ∘ set_chan (Some ch)).
  destruct (park_run h i t c nm z) as (_ & PS & PC & PG); try done.
  unfold sleep_enter. apply runs_bind. eapply runs_eq; [by apply curproc_eq|].
  apply runs_bind. eapply runs_eq; [by apply p_acquire_eq, K4|]. apply runs_bind. eapply runs_eq.
  { apply (wait_release h _ (pushed c) nm); [by apply pushed_ok| |done].
    unfold in_crit. rewrite getc_set_ccpu by done. rewrite getc_updp. by rewrite Hc. }
  unfold pset. mstep. mstep. rewrite updp_twice.
  change (updp i (set_state SLEEPING ∘ set_chan (Some ch)) (set_waitlk (Spinlock 0 nm None) (set_ccpu h (pushed c) (in_crit h i t))))
    with (parked h c nm (updp i z (in_crit h i t))).
  eapply runs_eq; [exact PS|]. split_and!; [done|done|done|exact PG|]. intros j Hj Hji.
  change (getp j (parked h c nm ?x)) with (getp j x). rewrite getp_updp by (unfold in_crit; by apply (in_table_updp i i)).
  rewrite decide_False by done. unfold in_crit. rewrite getp_set_ccpu, getp_updp by done. by rewrite decide_False.
Qed.

(** How [wait] ends. *)
Definition wait_ends (xa : nat -> Z) (me : nat) (addr : Z) s (r : Z + bool) (s' : sysst V F) : Prop :=
  match list_find (zombie_child me) (s_proc s) with
  | Some (j, q) => exists st v1, report xa j (p_pagetable (getp me s)) addr (p_xstate q) (s_vm s) = (Ret st, v1) /\
      if st <? 0 then r = inl (-1) /\ s' = set_vm v1 s
      else exists v2, free_image (p_trapframe q) (p_pagetable q) (p_sz q) v1 = (Ret tt, v2) /\
        r = inl (p_pid q) /\ s' = set_vm v2 (updp j freed s)
  | None =>
      if existsb (is_child me) (s_proc s) && (p_killed (getp me s) =? 0) then
        r = inr (sie (ccpu s)) /\ lk_free (s_waitlk s') /\ getc h s' = PCpu (Some me) (pushed (ccpu s)) /\
        getp me s' = set_state SLEEPING (set_chan (Some (proc_chan me))
          (set_plock (Spinlock 1 (lk_name (p_lock (getp me s))) (Some (hart h))) (getp me s))) /\
        forall i, in_table i s -> i <> me -> getp i s' = getp i s
      else r = inl (-1) /\ s' = s
  end.

Lemma wait_run xa me addr s :
  calm h s -> pc_proc (getc h s) = Some me -> in_table me s -> noff (ccpu s) = 0 -> lk_free (s_waitlk s) ->
  (forall j q, list_find (zombie_child me) (s_proc s) = Some (j, q) ->
     exists st v1 v2, report xa j (p_pagetable (getp me s)) addr (p_xstate q) (s_vm s) = (Ret st, v1) /\
       (0 <= st -> free_image (p_trapframe q) (p_pagetable q) (p_sz q) v1 = (Ret tt, v2))) ->
  runs (wait h xa addr) s (fun r s' => wait_ends xa me addr s r s').
Proof.
  intros C Hme Hi Hn Hw HV. pose proof C as [C1 C2 C3 C4]. unfold wait.
  apply runs_bind. eapply runs_eq; [by apply curproc_eq|]. apply runs_bind. eapply runs_eq; [by apply wait_acquire|].
  pose proof (calm_with_wait h s C) as Ct. set (t := with_wait h s) in *. unfold wait_loop, wait_ends.
  assert (Hct : getc h t = PCpu (Some me) (pushed (ccpu s))) by (unfold t; rewrite with_wait_cpu by done; by rewrite Hme).
  pose proof (wait_scan_eq xa me addr (Z.to_nat NPROC) false t Ct ltac:(lia)) as HE. rewrite Nat.sub_diag, drop_0 in HE.
  change (s_proc t) with (s_proc s) in HE. destruct (list_find (zombie_child me) (s_proc s)) as [[j q]|] eqn:EF.
  - destruct (HV j q eq_refl) as (st & v1 & v2 & HR & HF). apply list_find_Some in EF as (Hq & _ & _).
    assert (Gq : getp j s = q) by (by apply list_lookup_total_correct).
    assert (Hj : in_table j s) by (by eapply lookup_lt_Some). cbn [Nat.add] in HE.
    destruct (wait_reap_run xa me addr j s st v1 v2 C Hw Hj Hi) as (r & s' & ER & HP); [by rewrite Gq|by rewrite Gq|].
    fold t in ER. rewrite Gq in HP. unfold bind at 1 in HE. rewrite ER in HE. apply runs_bind. eapply runs_eq; [exact HE|].
    apply runs_ret. exists st, v1. split; [done|]. destruct (Z.ltb_spec st 0) as [Hst|Hst].
    + destruct HP as [-> ->]. done.
    + destruct HP as [-> ->]. exists v2. split_and!; [by apply HF|done|done].
  - apply runs_bind. eapply runs_eq; [exact HE|]. cbn [orb].
    destruct (existsb (is_child me) (s_proc s)) eqn:EK; cbn [andb negb orb].
    2:{ apply runs_bind, runs_ret. cbn [Z.eqb negb orb]. apply runs_bind.
        rewrite <- (updp_id me id t) by done. change (updp me id t) with (set_vm (s_vm s) (updp me id t)).
        eapply runs_eq; [by apply unwait_after|]. apply runs_ret. split; [done|]. rewrite updp_id by done. by destruct s. }
    apply runs_bind. eapply runs_eq; [by apply killed_run|]. change (getp me t) with (getp me s).
    destruct (Z.eqb_spec (p_killed (getp me s)) 0) as [Hk|Hk]; cbn [negb].
    2:{ apply runs_bind.
        rewrite <- (updp_id me id t) by done. change (updp me id t) with (set_vm (s_vm s) (updp me id t)).
        eapply runs_eq; [by apply unwait_after|]. apply runs_ret. split; [done|]. rewrite updp_id by done. by destruct s. }
    eapply runs_seq.
    { apply (sleep_wait_run me t (ccpu s) (lk_name (s_waitlk s)) (proc_chan me)); try done; by rewrite Hct. }
    intros ie s' (-> & A1 & A2 & A3 & A4). apply runs_ret. split_and!; [done|done|done|exact A3|]. intros i Hit Him. by rewrite A4.
Qed.
End waiting.

(** ** A small system for the witnesses

    init (0), a parent (1) asleep in [wait], its child (2) on CPU 0. *)
#[local] Instance pa_none : PageAlloc unit := {|
  pa_alloc := ret 0; pa_release := fun _ => ret tt; pa_mem := fun _ => ∅; pa_set_mem := fun _ _ => tt;
  pa_page := fun _ => False; pa_free := fun _ _ => True |}.
#[local] Instance fl_none : FileLayer unit := {|
  fl_filedup := fun _ => ret tt; fl_fileclose := fun _ => ret tt; fl_idup := fun _ => ret tt; fl_iput := fun _ => ret tt;
  fl_begin_op := ret tt; fl_end_op := ret tt; fl_root := ret 0%nat; fl_fsinit := ret tt |}.
#[local] Instance fl_none_ok : FileLayerOk unit.
Proof. split; intros; by eexists. Qed.

Definition a_proc (st : procstate) (ch : option chan) (pid : Z) (par : option nat) : proc :=
  Proc (initlock "proc") st ch 0 0 pid par 0 0 0 0 (0, 0) (replicate 16 None) (Some 1%nat) (replicate 16 0).

Definition family (st2 : procstate) (cur : option nat) (p1 : procstate) : sysst unit unit :=
  SysSt ([a_proc SLEEPING (Some (proc_chan 0)) 1 None; a_proc p1 (Some (proc_chan 1)) 2 (Some 0%nat); a_proc st2 None 3 (Some 1%nat)] ++
         replicate 61 proc0)
    (Some 0%nat) 4 (initlock "nextpid") (initlock "wait_lock") (replicate 8 (PCpu cur (Cpu 0 true true))) false tt tt.

Lemma family_calm st2 cur p1 : calm 0 (family st2 cur p1).
Proof.
  split; [vm_compute; lia|by vm_compute|by vm_compute|]. intros i Hi. unfold getp. cbn [family s_proc].
  assert (HF : Forall (fun p => lk_free (p_lock p)) (s_proc (family st2 cur p1))).
  { apply Forall_app. split; [by repeat constructor|]. by apply Forall_replicate. }
  rewrite Forall_lookup in HF. destruct (lookup_lt_is_Some_2 _ _ Hi) as [p Hp]. rewrite (list_lookup_total_correct _ _ _ Hp). by apply (HF i).
Qed.

Section properties.
Context {V F : Type} {PA : PageAlloc V} {FL : FileLayer F} (h : nat).
Implicit Types s : sysst V F.

Lemma wake1_facts c p : p_parent (wake1 c p) = p_parent p /\ p_pid (wake1 c p) = p_pid p /\ p_xstate (wake1 c p) = p_xstate p /\
  p_chan (wake1 c p) = p_chan p /\ (p_state (wake1 c p) = p_state p \/ p_state p = SLEEPING /\ p_state (wake1 c p) = RUNNABLE).
Proof.
  unfold wake1. destruct (bool_decide (p_state p = SLEEPING)) eqn:E; cbn; [|by auto 10].
  apply bool_decide_eq_true in E. destruct (bool_decide (p_chan p = c)); cbn; auto 10.
Qed.

Lemma after_exit_facts me s i p :
  let p' := after_exit h me s i p in
  p_pid p' = p_pid p /\ p_xstate p' = p_xstate p /\ (p_state p' = p_state p \/ p_state p = SLEEPING /\ p_state p' = RUNNABLE).
Proof.
  intros p'. unfold p', after_exit, reparent1.
  set (q := if decide (i < Z.to_nat NPROC /\ p_parent p = Some me)%nat then set_parent (s_init s) p else p).
  assert (Hq : p_pid q = p_pid p /\ p_xstate q = p_xstate p /\ p_state q = p_state p) by (unfold q; by case_decide).
  destruct Hq as (Q1 & Q2 & Q3). case_decide.
  - destruct (wake1_facts (init_chan (s_init s)) q) as (_ & A1 & A2 & _ & A3).
    destruct (wake1_facts (init_chan (p_parent (getp me s))) (wake1 (init_chan (s_init s)) q)) as (_ & B1 & B2 & _ & B3).
    rewrite B1, B2, A1, A2. split_and!; [done|done|]. rewrite <- Q3. destruct A3 as [A3|[A3 A4]], B3 as [B3|[B3 B4]];
      rewrite ?B3, ?B4, ?A3, ?A4 in *; try (by auto); right; split; congruence.
  - destruct (wake1_facts (init_chan (p_parent (getp me s))) q) as (_ & B1 & B2 & _ & B3).
    rewrite B1, B2, <- Q3. by split_and!.
Qed.

Lemma after_exit_parent me s i p : (i < Z.to_nat NPROC)%nat ->
  p_parent (after_exit h me s i p) = if decide (p_parent p = Some me) then s_init s else p_parent p.
Proof.
  intros Hi. unfold after_exit. destruct (wake1_facts (init_chan (p_parent (getp me s))) (reparent1 h me (Z.to_nat NPROC) s i p)) as [-> _].
  rewrite reparent1_parent. apply decide_ext. tauto.
Qed.

Lemma after_exit_wakes me s q p :
  p_parent (getp me s) = Some q -> p_state p = SLEEPING -> p_chan p = Some (proc_chan q) ->
  p_state (after_exit h me s q p) = RUNNABLE.
Proof.
  intros Hq Hs Hc. unfold after_exit. rewrite Hq. cbn [init_chan option_map]. set (r := reparent1 h me (Z.to_nat NPROC) s q p).
  assert (Hr : (p_state r = SLEEPING \/ p_state r = RUNNABLE) /\ p_chan r = Some (proc_chan q)).
  { unfold r, reparent1. set (p' := if decide _ then set_parent _ p else p).
    assert (E : p_state p' = SLEEPING /\ p_chan p' = Some (proc_chan q)) by (unfold p'; by case_decide). destruct E as [E1 E2].
    case_decide; [|by auto]. unfold wake1. destruct (_ && _); cbn; auto. }
  destruct Hr as [[E|E] Ec]; unfold wake1; rewrite E, Ec; [by rewrite !bool_decide_eq_true_2|].
  by rewrite (bool_decide_eq_false_2 (RUNNABLE = SLEEPING)).
Qed.
End properties.

(** ** Properties *)

(** [wakeup] makes exactly the processes asleep on the channel runnable,
    the caller excepted, and changes nothing else; [kill] marks exactly the
    first process with the pid, makes it runnable if it sleeps, and returns -1
    without any change when there is none. *)
Theorem wakeup_kill_exact {V F : Type} {PA : PageAlloc V} {FL : FileLayer F} h c pid (s : sysst V F) :
  calm h s ->
  runs (wakeup h c) s (fun _ s' => s' = set_procs (s_proc s') s /\ length (s_proc s') = length (s_proc s) /\
    forall i, in_table i s -> getp i s' =
      if decide (pc_proc (getc h s) <> Some i /\ p_state (getp i s) = SLEEPING /\ p_chan (getp i s) = c)
      then set_state RUNNABLE (getp i s) else getp i s) /\
  runs (kill h pid) s (fun r s' =>
    match list_find (fun p => p_pid p = pid) (s_proc s) with
    | Some (i, _) => r = 0 /\ s' = updp i kill1 s
    | None => r = -1 /\ s' = s
    end).
Proof.
  intros C. split; [|by apply kill_run]. eapply runs_mono; [by apply wakeup_run|]. intros u s' ->. split_and!.
  - done.
  - unfold woken, woken_upto. cbn. apply length_imap.
  - intros i Hi. rewrite getp_woken by done. unfold wake1.
    destruct (decide (pc_proc (getc h s) = Some i)) as [E|E]; [by rewrite decide_False by tauto|].
    destruct (decide (p_state (getp i s) = SLEEPING)) as [E1|E1].
    + rewrite (bool_decide_eq_true_2 _ E1). cbn. destruct (decide (p_chan (getp i s) = c)) as [E2|E2].
      * rewrite (bool_decide_eq_true_2 _ E2), decide_True by done. done.
      * rewrite (bool_decide_eq_false_2 _ E2), decide_False by tauto. done.
    + rewrite (bool_decide_eq_false_2 _ E1), decide_False by tauto. done.
Qed.

Lemma wakeup_kill_exact_witness :
  runs (kill 0 2) (family RUNNING (Some 2%nat) SLEEPING) (fun r s' => r = 0 /\
    s' = updp 1 kill1 (family RUNNING (Some 2%nat) SLEEPING)).
Proof. exact (proj2 (wakeup_kill_exact 0 None 2 (family RUNNING (Some 2%nat) SLEEPING) (family_calm _ _ _))). Defined.

(** C14. [exit] never panics (but for init) and hands over to the scheduler
    holding exactly its own lock: the process is a zombie with its status, no
    open file and no directory; every child belongs to init; a parent asleep
    in [wait] is runnable; the other processes keep pid and status and change
    state at most from asleep to runnable. *)
Theorem exit_correct {V F : Type} {PA : PageAlloc V} {FL : FileLayer F} {FO : FileLayerOk F} h (s : sysst V F) me status d :
  calm h s -> pc_proc (getc h s) = Some me -> in_table me s -> noff (pc_cpu (getc h s)) = 0 -> lk_free (s_waitlk s) ->
  s_init s <> Some me -> length (p_ofile (getp me s)) = 16%nat -> p_cwd (getp me s) = Some d -> p_parent (getp me s) <> Some me ->
  runs (exit h status) s (fun _ s' =>
    noff (pc_cpu (getc h s')) = 1 /\ lk_free (s_waitlk s') /\
    (let z := getp me s' in p_state z = ZOMBIE /\ p_xstate z = status /\ p_pid z = p_pid (getp me s) /\
       p_ofile z = replicate 16 None /\ p_cwd z = None /\ p_parent z = p_parent (getp me s) /\ holding (hart h) (p_lock z) = true) /\
    (forall i, in_table i s -> i <> me ->
       p_parent (getp i s') = (if decide (p_parent (getp i s) = Some me) then s_init s else p_parent (getp i s)) /\
       p_pid (getp i s') = p_pid (getp i s) /\ p_xstate (getp i s') = p_xstate (getp i s) /\
       (p_state (getp i s') = p_state (getp i s) \/ p_state (getp i s) = SLEEPING /\ p_state (getp i s') = RUNNABLE)) /\
    (forall q, p_parent (getp me s) = Some q -> in_table q s -> p_state (getp q s) = SLEEPING ->
       p_chan (getp q s) = Some (proc_chan q) -> p_state (getp q s') = RUNNABLE)).
Proof.
  intros C Hme Hi Hn Hw Hinit HL Hd Hpar. eapply runs_mono; [by eapply exit_run|].
  intros ie s' (_ & Hc & _ & Hw' & _ & _ & Hz & Ho). split_and!; [rewrite Hc; cbn; lia|done| | |].
  - rewrite Hz. cbn. unfold holding. cbn. rewrite bool_decide_eq_true_2 by done. done.
  - intros i Hit Him. rewrite Ho by done. split; [|apply after_exit_facts]. apply after_exit_parent.
    unfold in_table in Hit. by rewrite (cm_len _ _ C) in Hit.
  - intros q Hq Hqt Hs Hch. assert (q <> me) by congruence. rewrite Ho by done. by apply after_exit_wakes.
Qed.

Lemma exit_correct_witness :
  runs (exit 0 7) (family RUNNING (Some 2%nat) SLEEPING) (fun _ s' => p_state (getp 1 s') = RUNNABLE).
Proof.
  eapply runs_mono.
  - apply (exit_correct 0 (family RUNNING (Some 2%nat) SLEEPING) 2 7 1); try done; [apply family_calm|by vm_compute; lia].
  - intros ie s' (_ & _ & _ & _ & H). apply (H 1%nat); done || (vm_compute; lia).
Defined.

(** C15. [wait]: with a zombie child it frees the first one in the table (its
    memory and its entry), stores the status when asked to and returns the
    pid, or returns -1 with the child kept when the status cannot be stored;
    without children, or when killed, it returns -1 and changes nothing;
    otherwise it is asleep on itself with [wait_lock] released. *)
Theorem wait_correct {V F : Type} {PA : PageAlloc V} {FL : FileLayer F} h xa me addr (s : sysst V F) :
  calm h s -> pc_proc (getc h s) = Some me -> in_table me s -> noff (pc_cpu (getc h s)) = 0 -> lk_free (s_waitlk s) ->
  (forall j q, list_find (zombie_child me) (s_proc s) = Some (j, q) ->
     exists st v1 v2, report xa j (p_pagetable (getp me s)) addr (p_xstate q) (s_vm s) = (Ret st, v1) /\
       (0 <= st -> free_image (p_trapframe q) (p_pagetable q) (p_sz q) v1 = (Ret tt, v2))) ->
  runs (wait h xa addr) s (fun r s' => wait_ends h xa me addr s r s').
Proof. apply wait_run. Qed.

Lemma wait_correct_witness :
  runs (wait 0 (fun _ => 0) 0) (family ZOMBIE (Some 1%nat) RUNNING) (fun r s' => r = inl 3 /\
    s' = updp 2 freed (family ZOMBIE (Some 1%nat) RUNNING)).
Proof.
  eapply runs_mono.
  - apply (wait_correct 0 (fun _ => 0) 1 0 (family ZOMBIE (Some 1%nat) RUNNING)); try done; [apply family_calm|vm_compute; lia|].
    intros j q Hjq. exists 0, tt, tt. split; [done|]. intros _. vm_compute in Hjq. injection Hjq as <- <-. done.
  - intros r s' H. unfold wait_ends in H. change (list_find (zombie_child 1) (s_proc (family ZOMBIE (Some 1%nat) RUNNING)))
      with (Some (2%nat, a_proc ZOMBIE None 3 (Some 1%nat))) in H.
    destruct H as (st & v1 & E & H). injection E as <- <-. cbn [Z.ltb Z.compare] in H. destruct H as (v2 & _ & -> & ->).
    split; [done|]. by destruct v2.
Defined.
