(* ===== verification/ProcTable.v ===== *)
(** * The process table: typing of kernel/proc.c

    Any function of proc.c may stop in the middle: it waits for a lock, sleeps,
    or the kernel panics.  This file states what the process table satisfies
    after any sequence of calls, each run to its end or to such a point: the
    tables keep their sizes, every process named by a CPU, by a child or by
    [initproc] is an entry of the table, and no two processes have the same
    pid.  [holds] is a Hoare triple whose last condition is about the runs
    that do not return.  Calls that overlap in time are not modelled here;
    AllocPid does it for the counter of pids. *)
From S2P Require Import Prelude CString Riscv Spinlock Kalloc Vm Pipe Proc.
Local Open Scope Z_scope.

(** ** Triples *)
Definition holds {S A} (P : S -> Prop) (m : M S A) (Q : A -> S -> Prop) (E : S -> Prop) : Prop :=
  forall s, P s -> match m s with (Ret a, s') => Q a s' | (_, s') => E s' end.

Section triples.
Context {S : Type}.
Implicit Types P E : S -> Prop.

Lemma holds_bind {A B} P (m : M S A) (k : A -> M S B) R Q E :
  holds P m R E -> (forall a, holds (R a) (k a) Q E) -> holds P (bind m k) Q E.
Proof. intros Hm Hk s HP. specialize (Hm s HP). unfold bind. destruct (m s) as [[a| | |] s']; [by apply Hk|done|done|done]. Qed.

Lemma holds_mono {A} P P' (m : M S A) Q Q' E E' : holds P m Q E -> (forall s, P' s -> P s) -> (forall a s, Q a s -> Q' a s) ->
  (forall s, E s -> E' s) -> holds P' m Q' E'.
Proof. intros Hm HP HQ HE s Hs. specialize (Hm s (HP s Hs)). destruct (m s) as [[] s']; auto. Qed.

Lemma holds_forn {A} P n i d (body : Z -> M S (option A)) Q E :
  (forall k : nat, (k < n)%nat -> holds P (body (i + d * Z.of_nat k)) (fun r s => match r with Some a => Q (Some a) s | None => P s end) E) ->
  (forall s, P s -> Q None s) -> holds P (forn n i d body) Q E.
Proof.
  revert i. induction n as [|n IH]; intros i Hb Hend; cbn [forn]; [intros s HP; by apply Hend|].
  eapply holds_bind; [replace i with (i + d * Z.of_nat 0) at 1 by lia; apply Hb; lia|]. intros [a|]; [by intros s HQ|].
  apply IH; [|done]. intros k Hk. replace (i + d + d * Z.of_nat k) with (i + d * Z.of_nat (Datatypes.S k)) by lia. apply Hb. lia.
Qed.
End triples.

(** ** Typing *)
Definition NP : nat := Z.to_nat NPROC.
Definition entry_of (o : option nat) : Prop := forall i, o = Some i -> (i < NP)%nat.

Record proc_typed (p : proc) : Prop := {
  pt_parent : entry_of (p_parent p);
  pt_ofile : length (p_ofile p) = Z.to_nat NOFILE;
  pt_name : length (p_name p) = 16%nat;
}.

(** The table, when at most [n - 1] pids have been given out. *)
Record table_typed {V F} (n : Z) (s : sysst V F) : Prop := {
  tt_len : length (s_proc s) = NP;
  tt_proc : Forall proc_typed (s_proc s);
  tt_cpu : Forall (fun c => entry_of (pc_proc c)) (s_cpu s);
  tt_init : entry_of (s_init s);
  tt_next : 1 <= s_nextpid s <= n;
  tt_pid : Forall (fun p => 0 <= p_pid p < s_nextpid s) (s_proc s);
  tt_dist : forall i j p q, s_proc s !! i = Some p -> s_proc s !! j = Some q -> p_pid p = p_pid q -> p_pid p <> 0 -> i = j;
}.

Section keep.
Context {V F : Type} {PA : PageAlloc V} {FL : FileLayer F} (n : Z).
Local Abbreviation SM := (M (sysst V F)).
Implicit Types s : sysst V F.

Lemma typed_mono n' s : n <= n' -> table_typed n s -> table_typed n' s.
Proof. intros Hn []. split; try done. lia. Qed.

(** [m] keeps the table typed however it ends, and returns an [a] with [P a]. *)
Definition keeps {A} (P : A -> Prop) (m : SM A) : Prop :=
  holds (table_typed n) m (fun a s => P a /\ table_typed n s) (table_typed n).
Definition anything {A} (_ : A) : Prop := True.

Lemma k_bind {A B} P Q (m : SM A) (k : A -> SM B) : keeps P m -> (forall a, P a -> keeps Q (k a)) -> keeps Q (bind m k).
Proof. intros Hm Hk. eapply holds_bind; [exact Hm|]. intros a s [HP HT]. by apply (Hk a HP). Qed.

Lemma k_seq {A B} Q (m : SM A) (k : A -> SM B) : keeps anything m -> (forall a, keeps Q (k a)) -> keeps Q (bind m k).
Proof. intros Hm Hk. eapply k_bind; [exact Hm|]. auto. Qed.

Lemma k_weak {A} P (m : SM A) : keeps P m -> keeps anything m.
Proof. intros H. eapply holds_mono; [exact H|done| |done]. by intros a s [_ HT]. Qed.

Lemma k_ret {A} (P : A -> Prop) a : P a -> keeps P (ret a).
Proof. by intros HP s HT. Qed.

Lemma k_panic {A} (P : A -> Prop) e : keeps P (panic e).
Proof. by intros s HT. Qed.

Lemma k_undef {A} (P : A -> Prop) e : keeps P (undef e).
Proof. by intros s HT. Qed.

Lemma k_stall {A} (P : A -> Prop) c : keeps P (stall c).
Proof. by intros s HT. Qed.

Lemma k_gets {A} (f : sysst V F -> A) : keeps anything (gets f).
Proof. by intros s HT. Qed.

Lemma k_pget {A} i (f : proc -> A) : keeps anything (pget (V := V) (F := F) i f).
Proof. by intros s HT. Qed.

Lemma k_init : keeps entry_of (gets s_init).
Proof. intros s HT. split; [apply HT|done]. Qed.

Lemma k_forn {A} P k i d (body : Z -> SM (option A)) :
  (forall j : nat, (j < k)%nat -> keeps (fun r => match r with Some a => P (Some a) | None => True end) (body (i + d * Z.of_nat j))) -> P None ->
  keeps P (forn k i d body).
Proof.
  intros Hb HN. apply holds_forn; [|by intros s HT]. intros j Hj. eapply holds_mono; [by apply Hb|done| |done].
  intros [a|] s [HP HT]; done.
Qed.

(** Parts of the state the typing does not mention. *)
Lemma typed_same s s' : s_proc s' = s_proc s -> s_cpu s' = s_cpu s -> s_init s' = s_init s -> s_nextpid s' = s_nextpid s ->
  table_typed n s -> table_typed n s'.
Proof. intros E1 E2 E3 E4 []. split; rewrite ?E1, ?E2, ?E3, ?E4; done. Qed.

Lemma k_zoom {T A} P (g : sysst V F -> T) (p : T -> sysst V F -> sysst V F) (m : M T A) :
  (forall t s, table_typed n s -> table_typed n (p t s)) -> (forall a, P a) -> keeps P (zoom g p m).
Proof.
  intros Hp HP s HT. unfold zoom. destruct (m (g s)) as [[a| | |] t]; [split; [apply HP|]|..]; by apply Hp.
Qed.

Lemma k_vm {A} (m : M V A) : keeps anything (on_vm (F := F) m).
Proof. apply k_zoom; [|done]. intros v s. by apply typed_same. Qed.

Lemma k_fl {A} (m : M F A) : keeps anything (on_fl (V := V) m).
Proof. apply k_zoom; [|done]. intros v s. by apply typed_same. Qed.

(** A CPU's own record, and a process's fields other than its pid. *)
Lemma typed_updc h f s : (forall c, entry_of (pc_proc c) -> entry_of (pc_proc (f c))) -> table_typed n s -> table_typed n (updc h f s).
Proof.
  intros Hf []. split; try done. cbn. apply Forall_alter; [done|]. intros c _ Hc. by apply Hf.
Qed.

Lemma typed_updp i f s : (forall p, proc_typed p -> proc_typed (f p)) -> (forall p, p_pid (f p) = p_pid p) ->
  table_typed n s -> table_typed n (updp i f s).
Proof.
  intros Hf Hpid [T1 T2 T3 T4 T5 T6 T7].
  assert (HL : forall j q, alter f i (s_proc s) !! j = Some q -> exists p, s_proc s !! j = Some p /\ p_pid q = p_pid p /\ (proc_typed p -> proc_typed q)).
  { intros j q. destruct (decide (j = i)) as [->|Hne].
    - rewrite list_lookup_alter_eq. intros (p & Ep & ->)%fmap_Some. exists p. auto.
    - rewrite list_lookup_alter_ne by done. intros E. by exists q. }
  split; try done; cbn.
  - by rewrite length_alter.
  - apply Forall_lookup_2. intros j q (p & Ep & _ & HT)%HL. apply HT. by eapply Forall_lookup_1.
  - apply Forall_lookup_2. intros j q (p & Ep & -> & _)%HL. exact (Forall_lookup_1 _ _ _ _ T6 Ep).
  - intros j k p q (p' & Ep & -> & _)%HL (q' & Eq & -> & _)%HL. by apply (T7 j k p' q').
Qed.

Lemma k_pset i f : (forall p, proc_typed p -> proc_typed (f p)) -> (forall p, p_pid (f p) = p_pid p) -> keeps anything (pset (V := V) (F := F) i f).
Proof. intros Hf Hp s HT. split; [done|]. by apply typed_updp. Qed.

Lemma k_modify f : (forall s, table_typed n s -> table_typed n (f s)) -> keeps anything (modify f).
Proof. intros Hf s HT. split; [done|by apply Hf]. Qed.

(** A pid given up, and a new one. *)
Lemma typed_pid i v s : table_typed n s -> 0 <= v < s_nextpid s -> (v <> 0 -> Forall (fun p => p_pid p <> v) (s_proc s)) -> table_typed n (updp i (set_pid v) s).
Proof.
  intros [T1 T2 T3 T4 T5 T6 T7] Hv Hnew.
  assert (HL : forall j q, alter (set_pid v) i (s_proc s) !! j = Some q -> exists p, s_proc s !! j = Some p /\ (proc_typed p -> proc_typed q) /\ p_pid q = if decide (j = i) then v else p_pid p).
  { intros j q. destruct (decide (j = i)) as [->|Hne].
    - rewrite list_lookup_alter_eq. intros (p & Ep & ->)%fmap_Some. exists p. split_and!; [done|by intros []; split|done].
    - rewrite list_lookup_alter_ne by done. intros E. by exists q. }
  split; try done; cbn.
  - by rewrite length_alter.
  - apply Forall_lookup_2. intros j q (p & Ep & HT & _)%HL. apply HT. by eapply Forall_lookup_1.
  - apply Forall_lookup_2. intros j q (p & Ep & _ & ->)%HL. pose proof (Forall_lookup_1 _ _ _ _ T6 Ep). case_decide; [lia|done].
  - intros j k p q (p' & Ep & _ & ->)%HL (q' & Eq & _ & ->)%HL. rewrite Forall_lookup in Hnew.
    repeat case_decide; subst; try done; intros E E0; [exfalso..|by apply (T7 j k p' q')]; assert (Hv0 : v <> 0) by congruence.
    + by apply (Hnew Hv0 _ _ Eq).
    + by apply (Hnew Hv0 _ _ Ep).
Qed.
End keep.

(** Automation: a function of proc.c is taken apart along its binds. *)
Create HintDb table discriminated.
#[export] Hint Resolve k_gets k_pget k_vm k_fl k_panic k_undef k_stall : table.

Lemma proc_typed_field p q : p_parent q = p_parent p -> p_ofile q = p_ofile p -> p_name q = p_name p -> proc_typed p -> proc_typed q.
Proof. intros E1 E2 E3 []. by split; rewrite ?E1, ?E2, ?E3. Qed.

Ltac keep_field := apply k_pset; [intros p; apply proc_typed_field; reflexivity|intros p; reflexivity].
Ltac keep1 :=
  match goal with
  | |- keeps _ _ (bind _ _) => eapply k_seq; [|intros ?]
  | |- keeps _ _ (ret _) => apply k_ret; try first [done|solve [eauto with table nocore]]
  | |- keeps _ _ (forn _ _ _ _) => apply k_forn; [intros ? ?|done]
  | |- keeps _ _ (pset _ _) => first [keep_field|solve [eauto with table nocore]]
  | |- keeps _ _ (match ?x with _ => _ end) => destruct x
  | |- keeps _ _ _ => solve [eauto with table nocore]
  end.
Ltac keep := repeat (keep1; cbv beta).

Section ops.
Context {V F : Type} {PA : PageAlloc V} {FL : FileLayer F} (n : Z) (h : nat).
Implicit Types s : sysst V F.

Lemma typed_ccpu c s : table_typed n s -> table_typed n (set_ccpu h c s).
Proof. by apply typed_updc. Qed.

Lemma k_ccpu {A} (m : M cpu A) : keeps n anything (on_ccpu (V := V) (F := F) h m).
Proof. apply k_zoom; [|done]. intros c s. apply typed_ccpu. Qed.

Lemma k_plock {A} i (m : M (cpu * spinlock) A) : keeps n anything (plock (V := V) (F := F) h i m).
Proof. apply k_zoom; [|done]. intros cl s HT. apply typed_updp; [intros p; by apply proc_typed_field|done|]. by apply typed_ccpu. Qed.

Lemma k_pidlock {A} (m : M (cpu * spinlock) A) : keeps n anything (pidlock (V := V) (F := F) h m).
Proof. apply k_zoom; [|done]. intros cl s HT. eapply typed_same; [..|apply (typed_ccpu (fst cl) s HT)]; done. Qed.

Lemma k_waitlock {A} (m : M (cpu * spinlock) A) : keeps n anything (waitlock (V := V) (F := F) h m).
Proof. apply k_zoom; [|done]. intros cl s HT. eapply typed_same; [..|apply (typed_ccpu (fst cl) s HT)]; done. Qed.

Lemma k_acquire i : keeps n anything (p_acquire (V := V) (F := F) h i).
Proof. apply k_plock. Qed.

Lemma k_release i : keeps n anything (p_release (V := V) (F := F) h i).
Proof. apply k_plock. Qed.
#[local] Hint Resolve k_ccpu k_plock k_pidlock k_waitlock k_acquire k_release : table.

Lemma k_myproc : keeps n entry_of (myproc (V := V) (F := F) h).
Proof.
  unfold myproc. eapply k_seq; [apply k_ccpu|intros _]. eapply (k_bind _ entry_of).
  - intros s HT. split; [|done]. intros i E. destruct (decide (h < length (s_cpu s))%nat) as [Hh|Hh].
    + destruct (lookup_lt_is_Some_2 _ _ Hh) as [c Ec]. unfold getc in E. rewrite (list_lookup_total_correct _ _ _ Ec) in E. exact (Forall_lookup_1 _ _ _ _ (tt_cpu _ _ HT) Ec i E).
    + unfold getc in E. rewrite list_lookup_total_alt, lookup_ge_None_2 in E by lia. done.
  - intros p Hp. eapply k_seq; [apply k_ccpu|intros _]. by apply k_ret.
Qed.

Lemma k_curproc : keeps n (fun i => (i < NP)%nat) (curproc (V := V) (F := F) h).
Proof. unfold curproc. eapply k_bind; [apply k_myproc|]. intros [i|] Hp; [apply k_ret; by apply Hp|apply k_undef]. Qed.
End ops.
#[export] Hint Resolve k_ccpu k_plock k_pidlock k_waitlock k_acquire k_release : table.

(** ** Allocation and release of an entry *)
Section alloc.
Context {V F : Type} {PA : PageAlloc V} {FL : FileLayer F} (h : nat) (trampoline forkret_a : Z).
Implicit Types s : sysst V F.

Lemma k_pid0 n i : keeps n anything (pset (V := V) (F := F) i (set_pid 0)).
Proof. intros s HT. split; [done|]. apply typed_pid; [done|pose proof (tt_next _ _ HT); lia|done]. Qed.

Lemma k_parent n i o : entry_of o -> keeps n anything (pset (V := V) (F := F) i (set_parent o)).
Proof. intros Ho. apply k_pset; [|done]. by intros p []. Qed.

Lemma k_name n i f : (forall p, length (p_name p) = 16%nat -> length (f p) = 16%nat) -> keeps n anything (pset (V := V) (F := F) i (fun p => set_name (f p) p)).
Proof. intros Hf. apply k_pset; [|done]. intros p []. split; try done. by apply Hf. Qed.

Lemma k_ofile n i k v : keeps n anything (pset (V := V) (F := F) i (fun p => set_ofile (<[k := v]> (p_ofile p)) p)).
Proof. apply k_pset; [|done]. intros p []. split; try done. cbn. by rewrite length_insert. Qed.

Lemma entry_none : entry_of None.
Proof. done. Qed.

Lemma entry_some i : (i < NP)%nat -> entry_of (Some i).
Proof. by intros H j [= ->]. Qed.

Lemma length_name_copy d src : length (name_copy d src) = 16%nat.
Proof. apply length_load_bytes. Qed.

Lemma k_clear_name n i : keeps n anything (pset (V := V) (F := F) i (fun p => set_name (<[0%nat := 0]> (p_name p)) p)).
Proof. apply (k_name n i (fun p => <[0%nat := 0]> (p_name p))). intros p. by rewrite length_insert. Qed.

Lemma k_copy_name n i src : keeps n anything (pset (V := V) (F := F) i (fun p => set_name (name_copy (p_name p) src) p)).
Proof. apply (k_name n i (fun p => name_copy (p_name p) src)). intros p _. apply length_name_copy. Qed.
#[local] Hint Resolve k_pid0 k_parent k_ofile k_clear_name k_copy_name entry_none entry_some : table.

Lemma k_freeproc n i : keeps n anything (freeproc (V := V) (F := F) i).
Proof. unfold freeproc, proc_freepagetable. keep. Qed.

Lemma k_proc_pagetable n i : keeps n anything (proc_pagetable (V := V) (F := F) trampoline i).
Proof. unfold proc_pagetable. keep. Qed.
#[local] Hint Resolve k_freeproc k_proc_pagetable : table.

Lemma k_find_unused n : keeps n (fun r => match r with Some fi => (Z.to_nat fi < NP)%nat | None => True end) (find_unused (V := V) (F := F) h).
Proof.
  unfold find_unused. apply k_forn; [|done]. intros j Hj. eapply k_seq; [apply k_acquire|intros _]. eapply k_seq; [apply k_pget|intros st].
  destruct (decide (st = UNUSED)); [apply k_ret; unfold NP; lia|]. eapply k_seq; [apply k_release|intros _]. by apply k_ret.
Qed.

(** The pid just given out is nobody's yet. *)
Definition fresh_pid (pid : Z) s : Prop := 0 < pid < s_nextpid s /\ Forall (fun p => p_pid p <> pid) (s_proc s).

Lemma allocpid_fresh n : n < 2 ^ 31 - 1 ->
  holds (table_typed n) (allocpid (V := V) (F := F) h) (fun pid s => table_typed (n + 1) s /\ fresh_pid pid s) (table_typed (n + 1)).
Proof.
  intros Hn. assert (HM : forall s, table_typed n s -> table_typed (n + 1) s) by (intros s; apply typed_mono; lia).
  unfold allocpid. eapply (holds_bind _ _ _ (fun _ => table_typed n)); [eapply holds_mono; [apply (k_pidlock n h)|done|intros a s [_ H]; exact H|done]|]. intros _.
  eapply (holds_bind _ _ _ (fun pid s => table_typed n s /\ pid = s_nextpid s)); [by intros s HT|]. intros pid.
  eapply (holds_bind _ _ _ (fun _ s => table_typed (n + 1) s /\ fresh_pid pid s)).
  - intros s [[T1 T2 T3 T4 T5 T6 T7] ->]. cbn. rewrite s32_small by lia. split.
    + split; try done; cbn; [lia|]. eapply Forall_impl; [exact T6|]. intros p Hp. cbv beta in Hp. lia.
    + split; cbn; [lia|]. eapply Forall_impl; [exact T6|]. intros p Hp. cbv beta in Hp. lia.
  - intros _. eapply (holds_bind _ _ _ (fun _ s => table_typed (n + 1) s /\ fresh_pid pid s)); [|by intros ? s HT].
    intros s [HT HF]. pose proof (k_pidlock (V := V) (F := F) (n + 1) h (release (hart h)) s HT) as HK.
    unfold pidlock, zoom in *. destruct (release _ _) as [[] cl]; try done. split; [apply HK|exact HF].
Qed.

Lemma allocproc_typed n : n < 2 ^ 31 - 1 ->
  holds (table_typed n) (allocproc (V := V) (F := F) h trampoline forkret_a) (fun a s => entry_of a /\ table_typed (n + 1) s) (table_typed (n + 1)).
Proof.
  intros Hn. assert (HM : forall s, table_typed n s -> table_typed (n + 1) s) by (intros s; apply typed_mono; lia).
  unfold allocproc. eapply holds_bind; [eapply holds_mono; [apply (k_find_unused n)|done|intros a s H; exact H|done]|].
  intros [fi|]; [|intros s [_ HT]; split; [done|by apply HM]].
  eapply (holds_bind _ _ _ (fun pid s => (Z.to_nat fi < NP)%nat /\ table_typed (n + 1) s /\ fresh_pid pid s)).
  { intros s [Hfi HT]. pose proof (allocpid_fresh n Hn s HT) as HA. by destruct (allocpid h s) as [[] s']. }
  intros pid. eapply (holds_bind _ _ _ (fun _ s => (Z.to_nat fi < NP)%nat /\ table_typed (n + 1) s)).
  { intros s (Hfi & HT & H1 & H2). split; [done|]. apply typed_pid; [done|lia|done]. }
  intros _ s [Hfi HT]. revert s HT. refine (_ : keeps (V := V) (F := F) (n + 1) entry_of _). keep.
Qed.

(** After [allocproc] the rest of a function runs with one more pid given out. *)
Lemma after_alloc {A} n (k : option nat -> M (sysst V F) A) : n < 2 ^ 31 - 1 -> (forall a, entry_of a -> keeps (n + 1) anything (k a)) ->
  holds (table_typed n) (bind (allocproc h trampoline forkret_a) k) (fun _ => table_typed (n + 1)) (table_typed (n + 1)).
Proof.
  intros Hn Hk. eapply holds_bind; [by apply allocproc_typed|]. intros a s [Ha HT]. pose proof (Hk a Ha s HT) as H. destruct (k a s) as [[] s']; [apply H|done..].
Qed.

Lemma userinit_typed n initcode_a : n < 2 ^ 31 - 1 ->
  holds (table_typed n) (userinit (V := V) (F := F) h trampoline forkret_a initcode_a) (fun _ => table_typed (n + 1)) (table_typed (n + 1)).
Proof.
  intros Hn. apply after_alloc; [done|]. intros a Ha. eapply k_seq; [apply k_modify; by intros s []|intros _]. keep.
Qed.

Lemma k_dup_files n i np : keeps n anything (dup_files (V := V) (F := F) i np).
Proof. unfold dup_files. keep. Qed.
#[local] Hint Resolve k_dup_files : table.

Lemma fork_typed n : n < 2 ^ 31 - 1 ->
  holds (table_typed n) (fork (V := V) (F := F) h trampoline forkret_a) (fun _ => table_typed (n + 1)) (table_typed (n + 1)).
Proof.
  intros Hn. unfold fork. eapply holds_bind; [eapply holds_mono; [apply (k_curproc n h)|done|intros a s H; exact H|intros s; apply typed_mono; lia]|].
  intros i s [Hi HT]. revert s HT. refine (_ : holds (table_typed n) _ (fun _ => table_typed (n + 1)) (table_typed (n + 1))).
  apply after_alloc; [done|]. intros a Ha. keep.
Qed.
End alloc.
#[export] Hint Resolve k_pid0 k_parent k_ofile k_clear_name k_copy_name entry_none entry_some k_freeproc k_init : table.

(** ** The other functions *)
Section others.
Context {V F : Type} {PA : PageAlloc V} {FL : FileLayer F} (n : Z) (h : nat).
Implicit Types s : sysst V F.

Lemma k_my {A} (k : option nat -> M (sysst V F) A) P : (forall a, keeps n P (k a)) -> keeps n P (bind (myproc h) k).
Proof. intros Hk. eapply k_bind; [apply k_myproc|]. auto. Qed.

Lemma k_cur {A} (k : nat -> M (sysst V F) A) P : (forall i, (i < NP)%nat -> keeps n P (k i)) -> keeps n P (bind (curproc h) k).
Proof. intros Hk. eapply k_bind; [apply k_curproc|]. auto. Qed.

Lemma k_growproc d : keeps n anything (growproc (V := V) (F := F) h d).
Proof. unfold growproc. apply k_cur. intros i Hi. keep. Qed.

Lemma k_wakeup c : keeps n anything (wakeup (V := V) (F := F) h c).
Proof. unfold wakeup. keep1; [|keep]. keep1. apply k_my. intros me. keep. Qed.
#[local] Hint Resolve k_wakeup : table.

Lemma k_reparent i : keeps n anything (reparent (V := V) (F := F) h i).
Proof.
  unfold reparent. keep1; [|keep]. keep1. keep1; [keep|]. case_decide; [|keep]. eapply k_bind; [apply k_init|]. intros init Hinit. keep.
Qed.

Lemma k_sched_enter : keeps n anything (sched_enter (V := V) (F := F) h).
Proof. unfold sched_enter. apply k_cur. intros i Hi. keep. Qed.

Lemma k_close_files i : keeps n anything (close_files (V := V) (F := F) i).
Proof. unfold close_files. keep. Qed.
#[local] Hint Resolve k_reparent k_sched_enter k_close_files : table.

Lemma k_exit st : keeps n anything (exit (V := V) (F := F) h st).
Proof. unfold exit. apply k_cur. intros i Hi. keep. Qed.

Lemma k_killed i : keeps n anything (killed (V := V) (F := F) h i).
Proof. unfold killed. keep. Qed.

Lemma k_setkilled i : keeps n anything (setkilled (V := V) (F := F) h i).
Proof. unfold setkilled. keep. Qed.

Lemma k_sleep_enter c rel : keeps n anything rel -> keeps n anything (sleep_enter (V := V) (F := F) h c rel).
Proof. intros Hr. unfold sleep_enter. apply k_cur. intros i Hi. keep. Qed.

Lemma k_sleep_leave ie i acq : keeps n anything acq -> keeps n anything (sleep_leave (V := V) (F := F) h ie i acq).
Proof. intros Ha. unfold sleep_leave, sched_leave. keep. Qed.
#[local] Hint Resolve k_killed k_sleep_enter k_sleep_leave : table.

Lemma k_wait_reap xa p i a : keeps n anything (wait_reap (V := V) (F := F) h xa p i a).
Proof. unfold wait_reap. keep. Qed.
#[local] Hint Resolve k_wait_reap : table.

Lemma k_wait_scan xa p a k hk : keeps n anything (wait_scan (V := V) (F := F) h xa p a k hk).
Proof. revert hk. induction k as [|k IH]; intros hk; cbn [wait_scan]; keep. Qed.
#[local] Hint Resolve k_wait_scan : table.

Lemma k_wait_loop xa p a : keeps n anything (wait_loop (V := V) (F := F) h xa p a).
Proof. unfold wait_loop. keep. Qed.
#[local] Hint Resolve k_wait_loop : table.

Lemma k_wait xa a : keeps n anything (wait (V := V) (F := F) h xa a).
Proof. unfold wait. apply k_cur. intros i Hi. keep. Qed.

Lemma k_wait_resume xa ie a p : keeps n anything (wait_resume (V := V) (F := F) h xa ie a p).
Proof. unfold wait_resume. keep. Qed.

Lemma k_yield_enter : keeps n anything (yield_enter (V := V) (F := F) h).
Proof. unfold yield_enter. apply k_cur. intros i Hi. keep. Qed.

Lemma k_yield_leave ie i : keeps n anything (yield_leave (V := V) (F := F) h ie i).
Proof. unfold yield_leave, sched_leave. keep. Qed.

Lemma k_set_cproc o : entry_of o -> keeps n anything (modify (set_cproc (V := V) (F := F) h o)).
Proof. intros Ho. apply k_modify. intros s. apply typed_updc. done. Qed.

Lemma k_sched_entry run i : (i < NP)%nat -> (forall i, keeps n anything (run i)) ->
  keeps n anything (sched_entry (V := V) (F := F) h run i).
Proof. intros Hi Hr. unfold sched_entry. keep; apply k_set_cproc; [|done]. by apply entry_some. Qed.

Lemma k_sched_scan run k found : (k <= NP)%nat -> (forall i, keeps n anything (run i)) ->
  keeps n anything (sched_scan (V := V) (F := F) h run k found).
Proof.
  intros Hk Hr. revert found Hk. induction k as [|k IH]; intros found Hk; [by apply k_ret|].
  cbn [sched_scan]. eapply k_seq; [apply k_sched_entry; [unfold NP in *; lia|done]|].
  intros f. apply IH. lia.
Qed.

Lemma k_scheduler_round run wfi : (forall i, keeps n anything (run i)) -> keeps n anything wfi ->
  keeps n anything (scheduler_round (V := V) (F := F) h run wfi).
Proof.
  intros Hr Hw. unfold scheduler_round. keep1; [keep|]. eapply k_seq; [by apply k_sched_scan|].
  intros [|]; [by apply k_ret|]. keep1; [keep|done].
Qed.

Lemma k_forkret {A} (utr : M (sysst V F) A) : keeps n anything utr -> keeps n anything (forkret (V := V) (F := F) h utr).
Proof. intros Hu. unfold forkret. apply k_cur. intros i Hi. keep. apply k_modify. intros s. by apply typed_same. Qed.

Lemma k_kill pid : keeps n anything (kill (V := V) (F := F) h pid).
Proof. unfold kill. keep. Qed.
End others.

(** ** Everything the harts may do *)
Section system.
Context {V F : Type} {PA : PageAlloc V} {FL : FileLayer F} (trampoline forkret_a : Z).
Implicit Types s : sysst V F.

(** The functions of proc.c as a hart enters them; those that switch away are
    in two parts.  [CSchedule] is the scheduler up to the next [swtch] and
    [CBack i] what it does after process [i] has switched back. *)
Inductive pcall : Type :=
| CProcinit
| CUserinit (initcode_a : Z)
| CFork
| CGrowproc (d : Z)
| CExit (status : Z)
| CWait (xstate_a : nat -> Z) (addr : Z)
| CWaitResume (xstate_a : nat -> Z) (ie : bool) (addr : Z) (p : nat)
| CKill (pid : Z)
| CKilled (i : nat)
| CSetkilled (i : nat)
| CWakeup (c : option chan)
| CSleep (c : chan) (rel : M F unit)
| CSleepLeave (ie : bool) (i : nat) (acq : M F unit)
| CYield
| CYieldLeave (ie : bool) (i : nat)
| CSchedule
| CBack (i : nat)
| CForkret (usertrapret : M V unit).

Definition run_call (h : nat) (c : pcall) : M (sysst V F) unit :=
  match c with
  | CProcinit => procinit
  | CUserinit a => userinit h trampoline forkret_a a
  | CFork => fork h trampoline forkret_a ;; ret tt
  | CGrowproc d => growproc h d ;; ret tt
  | CExit st => exit h st ;; ret tt
  | CWait xa a => wait h xa a ;; ret tt
  | CWaitResume xa ie a p => wait_resume h xa ie a p ;; ret tt
  | CKill pid => kill h pid ;; ret tt
  | CKilled i => killed h i ;; ret tt
  | CSetkilled i => setkilled h i
  | CWakeup c => wakeup h c
  | CSleep c rel => sleep_enter h c (on_fl rel) ;; ret tt
  | CSleepLeave ie i acq => sleep_leave h ie i (on_fl acq)
  | CYield => yield_enter h ;; ret tt
  | CYieldLeave ie i => yield_leave h ie i
  | CSchedule => scheduler_round h (fun _ => stall (Chan "swtch" 0)) (stall (Chan "wfi" 0))
  | CBack i => modify (set_cproc h None) ;; p_release h i
  | CForkret utr => forkret h (on_vm utr)
  end.

(** The pids a call may give out. *)
Definition pids (c : pcall) : Z := match c with CUserinit _ | CFork => 1 | _ => 0 end.

(** The states after a sequence of calls on any harts, each run without
    interruption to its end or to the point where it stops; [k] bounds the pids
    given out.  A call that stopped is not continued; a caller that switched
    away goes on with the second part of its function as a call of its own.
    Calls that overlap on several harts are not sequences of this kind: what
    their locks give is Spinlock's and, for [nextpid], AllocPid's subject. *)
Inductive reached (s0 : sysst V F) : Z -> sysst V F -> Prop :=
| reached_boot : reached s0 0 s0
| reached_call k s h c : reached s0 k s -> reached s0 (k + pids c) (run_call h c s).2.

(** The kernel's data before [main] runs. *)
Definition boot_table (cpus : list cpu) (v : V) (f : F) : sysst V F :=
  SysSt (replicate NP proc0) None 1 (initlock "") (initlock "") (PCpu None <$> cpus) true v f.

Lemma k_procinit n : keeps n anything (procinit (V := V) (F := F)).
Proof. unfold procinit. keep1; [apply k_modify; by intros s []|]. keep1; [apply k_modify; by intros s []|]. keep. Qed.

Lemma holds_after {A} (P E : sysst V F -> Prop) (m : M (sysst V F) A) s : holds P m (fun _ => E) E -> P s -> E (m s).2.
Proof. intros H HP. specialize (H s HP). by destruct (m s) as [[] s']. Qed.

Lemma keeps_after {A} n (m : M (sysst V F) A) s : keeps n anything m -> table_typed n s -> table_typed n (m s).2.
Proof. intros H. apply (holds_after (table_typed n)). eapply holds_mono; [exact H|done| |done]. by intros a t [_ HT]. Qed.

Lemma keeps_then {A} n (m : M (sysst V F) A) : keeps n anything m -> keeps n anything (m ;; ret tt).
Proof. intros H. eapply k_seq; [exact H|]. intros _. by apply k_ret. Qed.

Lemma call_typed n h c s : n < 2 ^ 31 - 1 -> table_typed n s -> table_typed (n + pids c) (run_call h c s).2.
Proof.
  intros Hn HT. destruct c; cbn [run_call pids]; rewrite ?Z.add_0_r.
  2:{ eapply holds_after; [by apply userinit_typed|done]. }
  2:{ eapply holds_after; [|exact HT]. eapply holds_bind; [by apply fork_typed|]. by intros a t. }
  all: apply keeps_after; [|done]; lazymatch goal with |- keeps _ _ (bind _ (fun _ => ret tt)) => apply keeps_then | _ => idtac end.
  all: eauto using k_procinit, k_growproc, k_exit, k_wait, k_wait_resume, k_kill, k_killed, k_setkilled, k_wakeup, k_sleep_enter, k_sleep_leave,
         k_fl, k_yield_enter, k_yield_leave, k_scheduler_round, k_stall, k_forkret, k_vm.
  keep1; [by apply k_set_cproc|apply k_release].
Qed.
End system.

(** C16. The process table stays well typed.  After every sequence of calls of
    proc.c's functions by any harts, each run without interruption to its end
    or to the point where it stops (waiting for a lock, asleep, switched away,
    panicked), and while fewer than 2^31 - 2 pids were given out, the table has
    its NPROC entries with their NOFILE descriptors and 16-byte names; the
    process a CPU runs, the parent of a process and [initproc] are entries of
    the table; and pids are positive or 0, below [nextpid], and no two entries
    share one. *)
Theorem process_table_typed {V F : Type} {PA : PageAlloc V} {FL : FileLayer F} trampoline forkret_a cpus (v : V) (f : F) k s :
  reached trampoline forkret_a (boot_table cpus v f) k s -> k < 2 ^ 31 - 2 -> table_typed (1 + k) s.
Proof.
  intros HR. induction HR as [|k s h c HR IH]; intros Hk.
  - split; cbn [boot_table s_proc s_cpu s_init s_nextpid].
    + apply length_replicate.
    + by apply Forall_replicate.
    + apply Forall_fmap, Forall_forall. by intros c _ i.
    + apply entry_none.
    + lia.
    + apply Forall_replicate. cbn. lia.
    + by intros i j p q [-> _]%lookup_replicate.
  - assert (0 <= pids c) by (destruct c; cbn; lia). rewrite Z.add_assoc. apply call_typed; [lia|]. apply IH. lia.
Qed.

(** Two harts: the first sets the table up, the second asks for the first process. *)
#[local] Existing Instances pa_none fl_none.

Lemma process_table_typed_witness :
  let s := boot_table [Cpu 0 true true; Cpu 0 true true] tt tt in
  let s1 := (run_call (V := unit) (F := unit) 0 0 0 CProcinit s).2 in
  let s2 := (run_call 0 0 1 (CUserinit 0) s1).2 in
  s_nextpid s2 = 2 /\ table_typed 2 s2.
Proof.
  intros s s1 s2. split; [vm_compute; reflexivity|].
  apply (process_table_typed 0 0 [Cpu 0 true true; Cpu 0 true true] tt tt 1 s2); [|lia].
  apply (reached_call 0 0 s 0 s1 1 (CUserinit 0)). apply (reached_call 0 0 s 0 s 0 CProcinit). constructor.
Defined.
