(* ===== verification/AllocPid.v ===== *)
(** * Pids on several harts: allocpid of kernel/proc.c, one memory access at a time

    [allocpid] as the sequence of its accesses to shared memory, run by any
    number of harts at once: the lock is the one of Spinlock, with the
    instructions of [acquire] and [release] as separate steps, and the read and
    the write of [nextpid] are steps of their own, so that two calls can meet
    between them.  [run_alone] runs the same program without interruption: it
    is [allocpid] of Proc. *)
From S2P Require Import Prelude Spinlock Kalloc Bio Layout Log Txn Fs Dir Vm Pipe Proc.
Local Open Scope Z_scope.

(** ** The program *)

(** A thread that works on [pid_lock] and [nextpid], by its next access. *)
Inductive thread : Type :=
| TRet (v : Z)
| TAcquire (k : thread)
| TRead (k : Z -> thread)
| TWrite (v : Z) (k : thread)
| TRelease (k : thread).

Definition allocpid_thread : thread :=
  TAcquire (                       (* acquire(&pid_lock); *)
  TRead (fun pid =>                (* pid = nextpid; *)
  TRead (fun next =>               (* nextpid = nextpid + 1; *)
  TWrite (s32 (next + 1)) (
  TRelease (                       (* release(&pid_lock); *)
  TRet pid))))).                   (* return pid; *)

(** The thread run by itself on the kernel's state. *)
Fixpoint run_alone {V F : Type} (h : nat) (t : thread) : M (sysst V F) Z :=
  match t with
  | TRet v => ret v
  | TAcquire k => pidlock h (acquire (hart h)) ;; run_alone h k
  | TRead k => let! v := gets s_nextpid in run_alone h (k v)
  | TWrite v k => modify (set_nextpid v) ;; run_alone h k
  | TRelease k => pidlock h (release (hart h)) ;; run_alone h k
  end.

(** ** The harts *)

(** What a hart is doing: nothing, about to make its next access, inside
    [acquire], or inside [release]. *)
Inductive place : Type :=
| Idle
| At (t : thread)
| Acquiring (k : thread)
| Releasing (k : thread).

(** [m_out] lists the values the calls returned. *)
Record machine := Machine { m_smp : smp; m_next : Z; m_hart : Z -> place; m_out : list Z }.

Definition goto (h : Z) (c : place) (m : machine) : machine :=
  Machine (m_smp m) (m_next m) (upd (m_hart m) h c) (m_out m).
Definition set_smp (s : smp) (m : machine) : machine := Machine s (m_next m) (m_hart m) (m_out m).
Definition set_next (v : Z) (m : machine) : machine := Machine (m_smp m) v (m_hart m) (m_out m).
Definition add_out (v : Z) (m : machine) : machine := Machine (m_smp m) (m_next m) (m_hart m) (m_out m ++ [v]).

(** One step of one hart.  [m_inside] is a step inside [acquire] (the swap,
    recording the holder) or [release] (the unlocking store), or [push_off] and
    [pop_off] by other code: it starts neither call. *)
Inductive mstep_rel : machine -> machine -> Prop :=
| m_call m h : m_hart m h = Idle -> mstep_rel m (goto h (At allocpid_thread) m)
| m_acquire m h k s :
    m_hart m h = At (TAcquire k) -> smp_step (m_smp m) s ->
    pc_of (m_smp m) h = Outside -> pc_of s h = Spinning ->
    mstep_rel m (goto h (Acquiring k) (set_smp s m))
| m_inside m s :
    smp_step (m_smp m) s ->
    (forall h, pc_of (m_smp m) h = Outside -> pc_of s h = Outside) ->
    (forall h, pc_of (m_smp m) h = Inside -> pc_of s h = Inside) ->
    mstep_rel m (set_smp s m)
| m_acquired m h k :
    m_hart m h = Acquiring k -> pc_of (m_smp m) h = Inside -> mstep_rel m (goto h (At k) m)
| m_read m h k : m_hart m h = At (TRead k) -> mstep_rel m (goto h (At (k (m_next m))) m)
| m_write m h v k : m_hart m h = At (TWrite v k) -> mstep_rel m (goto h (At k) (set_next v m))
| m_release m h k s :
    m_hart m h = At (TRelease k) -> smp_step (m_smp m) s ->
    pc_of (m_smp m) h = Inside -> pc_of s h = Leaving ->
    mstep_rel m (goto h (Releasing k) (set_smp s m))
| m_release_panic m h k :
    m_hart m h = At (TRelease k) -> holding h (smp_lock (m_smp m)) = false ->
    mstep_rel m (set_smp (do_panic (m_smp m)) m)
| m_released m h k :
    m_hart m h = Releasing k -> pc_of (m_smp m) h = Outside -> mstep_rel m (goto h (At k) m)
| m_return m h v : m_hart m h = At (TRet v) -> mstep_rel m (goto h Idle (add_out v m)).

(** The states from a boot on; [nextpid] starts at 1, and [n] counts how often
    it changed. *)
Definition changes (m m' : machine) : Z := if m_next m' =? m_next m then 0 else 1.

Inductive mreach : Z -> machine -> Prop :=
| mr_boot s : smp_init s -> mreach 0 (Machine s 1 (fun _ => Idle) [])
| mr_step n m m' : mreach n m -> mstep_rel m m' -> mreach (n + changes m m') m'.

(** ** Lemmas *)

(** The rest of [allocpid] after the lock is taken, and after the first and the
    second read. *)
Definition after_acquire : thread :=
  TRead (fun pid => TRead (fun next => TWrite (s32 (next + 1)) (TRelease (TRet pid)))).
Definition after_first (pid : Z) : thread := TRead (fun next => TWrite (s32 (next + 1)) (TRelease (TRet pid))).
Definition after_read (pid : Z) : thread := TWrite (s32 (pid + 1)) (TRelease (TRet pid)).

(** Where in the lock a hart at a place of [allocpid] is; the value read is
    still the counter's until it is written back. *)
Inductive placed (next : Z) : lpc -> place -> Prop :=
| pl_idle : placed next Outside Idle
| pl_start : placed next Outside (At allocpid_thread)
| pl_acquiring pc : pc = Spinning \/ pc = Swapped \/ pc = Inside -> placed next pc (Acquiring after_acquire)
| pl_read : placed next Inside (At after_acquire)
| pl_read2 : placed next Inside (At (after_first next))
| pl_write : placed next Inside (At (after_read next))
| pl_release v : placed next Inside (At (TRelease (TRet v)))
| pl_releasing pc v : pc = Leaving \/ pc = Outside -> placed next pc (Releasing (TRet v))
| pl_ret v : placed next Outside (At (TRet v)).

(** The pid a hart has taken and not yet returned. *)
Definition taken (c : place) : option Z :=
  match c with
  | At (TRelease (TRet v)) | Releasing (TRet v) | At (TRet v) => Some v
  | _ => None
  end.

Record pid_inv (n : Z) (m : machine) : Prop := {
  pi_smp : smp_inv (m_smp m);
  pi_next : 0 <= n /\ m_next m = 1 + n;
  pi_at : forall h, placed (m_next m) (pc_of (m_smp m) h) (m_hart m h);
  pi_given : forall v, 1 <= v < m_next m <-> v ∈ m_out m \/ exists h, taken (m_hart m h) = Some v;
  pi_nodup : NoDup (m_out m);
  pi_apart : forall h v, taken (m_hart m h) = Some v -> v ∉ m_out m;
  pi_inj : forall h k v, taken (m_hart m h) = Some v -> taken (m_hart m k) = Some v -> h = k;
}.

(** The next place in [acquire] and [release]. *)
Definition lpc_next (p : lpc) : lpc :=
  match p with
  | Outside => Spinning | Spinning => Swapped | Swapped => Inside | Inside => Leaving | Leaving => Outside
  end.

(** A lock step moves one hart, by at most one place. *)
Lemma smp_step_pc s t : smp_step s t ->
  exists h, (forall k, k <> h -> pc_of t k = pc_of s k) /\
            (pc_of t h = pc_of s h \/ pc_of t h = lpc_next (pc_of s h)).
Proof.
  intros H. destruct H as [s h|s h Hn|s h Hp|s h Hp|s h Hp|s h Hp|s h Hp]; exists h;
    try rewrite Hp; repeat (case_match || case_decide);
    (split; [intros k Hk; unfold set_lock, pc_of; cbn; by rewrite ?upd_ne
            |unfold set_lock, pc_of in *; cbn; rewrite ?upd_eq; auto]).
Qed.

Lemma hart_goto m h c k : m_hart (goto h c m) k = if decide (k = h) then c else m_hart m k.
Proof. done. Qed.

(** A hart that is not the one a step moves is placed as before. *)
Lemma placed_inside next h m :
  pid_inv next m -> forall k, k <> h -> pc_of (m_smp m) h = Inside -> pc_of (m_smp m) k <> Inside.
Proof. intros I k Hk Hh Hi. apply Hk. apply (si_excl _ (pi_smp _ _ I)); by rewrite ?Hh, ?Hi. Qed.

(** Only a hart inside the lock depends on the counter. *)
Lemma placed_next a b pc c : placed a pc c -> pc <> Inside -> placed b pc c.
Proof. intros H Hn. destruct H; try done; by constructor. Qed.

(** A hart whose taken pid does not change moves on. *)
Lemma pid_inv_goto n m h c s :
  pid_inv n m -> smp_inv s -> (forall k, k <> h -> pc_of s k = pc_of (m_smp m) k) ->
  taken c = taken (m_hart m h) -> placed (m_next m) (pc_of s h) c ->
  pid_inv n (goto h c (set_smp s m)).
Proof.
  intros I Hs Hpc Ht Hp.
  assert (HT : forall k, taken (m_hart (goto h c (set_smp s m)) k) = taken (m_hart m k)).
  { intros k. rewrite hart_goto. by destruct (decide (k = h)) as [->|]. }
  split; [exact Hs|exact (pi_next n m I)| | |exact (pi_nodup n m I)| |].
  - intros k. rewrite hart_goto. cbn. destruct (decide (k = h)) as [->|Hk]; [done|].
    rewrite Hpc by done. apply (pi_at n m I).
  - intros v. rewrite (pi_given n m I v). cbn [m_out goto set_smp]. by setoid_rewrite HT.
  - intros k v. rewrite HT. apply (pi_apart n m I).
  - intros k k' v. rewrite !HT. apply (pi_inj n m I).
Qed.

Lemma pid_inv_here n m h c :
  pid_inv n m -> taken c = taken (m_hart m h) -> placed (m_next m) (pc_of (m_smp m) h) c ->
  pid_inv n (goto h c m).
Proof. intros I Ht Hp. by apply (pid_inv_goto n m h c (m_smp m) I (pi_smp n m I)). Qed.

(** A step inside the lock leaves every hart at its place. *)
Lemma placed_lock_step next s t h c :
  smp_step s t -> placed next (pc_of s h) c ->
  (pc_of s h = Outside -> pc_of t h = Outside) -> (pc_of s h = Inside -> pc_of t h = Inside) ->
  placed next (pc_of t h) c.
Proof.
  intros (h' & Hoth & Hmv)%smp_step_pc Hp Ho Hi.
  destruct (decide (h = h')) as [<-|Hne]; [|by rewrite Hoth].
  destruct Hmv as [->| E]; [done|]. destruct (pc_of s h) eqn:Epc; cbn [lpc_next] in E;
    try (rewrite Ho in E by done; done); try (rewrite Hi in E by done; done); rewrite E; inversion Hp; subst; constructor; naive_solver.
Qed.

(** The write: the hart takes the counter's value and moves the counter on. *)
Lemma pid_inv_write n m h :
  pid_inv n m -> n < 2 ^ 31 - 2 -> m_hart m h = At (after_read (m_next m)) ->
  pid_inv (n + 1) (goto h (At (TRelease (TRet (m_next m)))) (set_next (s32 (m_next m + 1)) m)).
Proof.
  intros I Hn E. pose proof (pi_next n m I) as [Hn0 EN].
  rewrite s32_small by lia.
  assert (Hin : pc_of (m_smp m) h = Inside).
  { pose proof (pi_at n m I h) as Hp. rewrite E in Hp. by inversion Hp. }
  assert (HT : forall k, taken (m_hart (goto h (At (TRelease (TRet (m_next m)))) (set_next (m_next m + 1) m)) k) =
                         if decide (k = h) then Some (m_next m) else taken (m_hart m k)).
  { intros k. rewrite hart_goto. by case_decide. }
  assert (Hlt : forall k v, taken (m_hart m k) = Some v -> v < m_next m).
  { intros k v Hv. apply (pi_given n m I v). eauto. }
  assert (Hout : forall v, v ∈ m_out m -> v < m_next m).
  { intros v Hv. apply (pi_given n m I v). eauto. }
  split; cbn [m_smp m_next m_out goto set_next]; [exact (pi_smp n m I)|lia| | |exact (pi_nodup n m I)| |].
  - intros k. rewrite hart_goto. destruct (decide (k = h)) as [->|Hk]; [rewrite Hin; constructor|].
    eapply placed_next; [apply (pi_at n m I)|]. by eapply placed_inside.
  - intros v. setoid_rewrite HT. pose proof (pi_given n m I v) as G. split.
    + intros Hv. destruct (decide (v = m_next m)) as [->|]; [right; exists h; by case_decide|].
      destruct (proj1 G ltac:(lia)) as [Hv'|[k Hk]]; [by left|]. right. exists k.
      destruct (decide (k = h)) as [->|]; [|done]. by rewrite E in Hk.
    + intros [Hv|[k Hk]]; [assert (1 <= v < m_next m) by (apply G; by left); lia|]. case_decide; [injection Hk as <-; lia|].
      assert (1 <= v < m_next m) by (apply G; eauto). lia.
  - intros k v. rewrite HT. case_decide; [intros [= <-] Hv%Hout; lia|apply (pi_apart n m I)].
  - intros k k' v. rewrite !HT. repeat case_decide; subst; try done; try apply (pi_inj n m I);
      [intros [= <-] Hv%Hlt|intros Hv%Hlt [= <-]]; lia.
Qed.

(** The return: the pid taken is now returned. *)
Lemma pid_inv_return n m h v :
  pid_inv n m -> m_hart m h = At (TRet v) -> pid_inv n (goto h Idle (add_out v m)).
Proof.
  intros I E. assert (Ev : taken (m_hart m h) = Some v) by (by rewrite E).
  assert (HT : forall k, taken (m_hart (goto h Idle (add_out v m)) k) =
                         if decide (k = h) then None else taken (m_hart m k)).
  { intros k. rewrite hart_goto. by case_decide. }
  split; cbn [m_smp m_next m_out goto add_out]; [exact (pi_smp n m I)|exact (pi_next n m I)| | | | |].
  - intros k. rewrite hart_goto. destruct (decide (k = h)) as [->|Hk]; [|apply (pi_at n m I)].
    pose proof (pi_at n m I h) as Hp. rewrite E in Hp. inversion Hp. constructor.
  - intros w. setoid_rewrite HT. rewrite (pi_given n m I w), elem_of_app, list_elem_of_singleton. split.
    + intros [Hw|[k Hk]]; [by do 2 left|]. destruct (decide (k = h)) as [->|Hne].
      * left. right. congruence.
      * right. exists k. by case_decide.
    + intros [[Hw| ->]|[k Hk]]; [by left|by right; exists h|]. case_decide; [done|]. right. by exists k.
  - apply NoDup_app. split_and!; [exact (pi_nodup n m I)| |apply NoDup_singleton].
    intros w Hw ->%list_elem_of_singleton. by apply (pi_apart n m I h v).
  - intros k w. rewrite HT. case_decide; [done|]. intros Hw [Hw'| ->%list_elem_of_singleton]%elem_of_app.
    + by apply (pi_apart n m I k w).
    + by destruct (pi_inj n m I k h v Hw Ev).
  - intros k k' w. rewrite !HT. repeat case_decide; try done. apply (pi_inj n m I).
Qed.

Lemma changes_none m m' : m_next m' = m_next m -> changes m m' = 0.
Proof. unfold changes. intros ->. by rewrite Z.eqb_refl. Qed.

(** A lock step of hart [h] from one place to another. *)
Lemma pid_inv_lock n m h c s p q :
  pid_inv n m -> smp_step (m_smp m) s -> pc_of (m_smp m) h = p -> pc_of s h = q -> p <> q ->
  taken c = taken (m_hart m h) -> placed (m_next m) q c -> pid_inv n (goto h c (set_smp s m)).
Proof.
  intros I Hs Ep Eq Hne Ht Hp. pose proof (smp_inv_step _ _ (pi_smp n m I) Hs) as Is.
  apply smp_step_pc in Hs as (h' & Hoth & _).
  destruct (decide (h = h')) as [<-|Hh]; [|by rewrite Hoth, Ep in Eq].
  apply pid_inv_goto; try done. by rewrite Eq.
Qed.

Lemma pid_inv_step n m m' :
  pid_inv n m -> n + changes m m' < 2 ^ 31 - 1 -> mstep_rel m m' -> pid_inv (n + changes m m') m'.
Proof.
  intros I Hn H. pose proof (pi_smp n m I) as Is.
  destruct H as [m h E|m h k s E Hs Hp Hq|m s Hs Ho Hi|m h k E Hp|m h k E|m h v k E|m h k s E Hs Hp Hq|m h k E Hh|m h k E Hp|m h v E].
  all: pose proof (pi_at n m I) as HP; try specialize (HP h); try rewrite E in HP.
  all: try (rewrite changes_none in * by done; rewrite Z.add_0_r in * ).
  - apply pid_inv_here; [done|by rewrite E|]. inversion HP. constructor.
  - inversion HP; subst. eapply pid_inv_lock; try done; [by rewrite E|]. constructor. auto.
  - split; cbn [m_smp m_next m_out m_hart set_smp]; try apply I; [by eapply smp_inv_step|].
    intros k. eapply placed_lock_step; eauto.
  - inversion HP; subst. apply pid_inv_here; [done|by rewrite E|]. rewrite Hp. constructor.
  - inversion HP; subst; (apply pid_inv_here; [done|by rewrite E|]);
      (replace (pc_of (m_smp m) h) with Inside; constructor).
  - inversion HP; subst. pose proof (pi_next n m I) as [Hn0 EN].
    assert (EC : changes m (goto h (At (TRelease (TRet (m_next m)))) (set_next (s32 (m_next m + 1)) m)) = 1).
    { unfold changes in *. cbn [m_next goto set_next] in *.
      destruct (Z.eqb_spec (s32 (m_next m + 1)) (m_next m)) as [X|X]; [|done].
      apply (f_equal u32) in X. rewrite u32_s32 in X. unfold u32 in X. rewrite !Z.mod_small in X by lia. lia. }
    rewrite EC in *. apply pid_inv_write; [done|lia|done].
  - inversion HP; subst. eapply pid_inv_lock; try done; [by rewrite E|]. constructor. auto.
  - inversion HP; subst. rewrite (holding_inside _ h Is), bool_decide_eq_true_2 in Hh by done. done.
  - inversion HP; subst. apply pid_inv_here; [done|by rewrite E|]. rewrite Hp. constructor.
  - by apply pid_inv_return.
Qed.

Lemma mreach_inv n m : mreach n m -> n < 2 ^ 31 - 1 -> pid_inv n m.
Proof.
  induction 1 as [s Hs|n m m' HR IH Hst]; intros Hn.
  - split; cbn; try done; [by apply smp_inv_init| | |constructor].
    + intros h. rewrite (proj1 (proj2 (proj2 (proj2 Hs)) h)). constructor.
    + intros v. split; [lia|]. intros [H|[h H]]; [by apply not_elem_of_nil in H|done].
  - apply pid_inv_step; [apply IH|done|done]. unfold changes in Hn. case_match; lia.
Qed.

(** ** Properties *)

(** C17. Pids are unique under every interleaving.  [allocpid_thread] run alone is
    [allocpid]; and when any number of harts call it any number of times, with
    their reads and writes of [nextpid] and the instructions of [acquire] and
    [release] interleaved in any way, no two calls return the same pid, every
    pid returned is positive and below [nextpid], no pid is skipped (when no
    call is in progress the pids returned are exactly 1, ..., [nextpid] - 1),
    and neither [acquire] nor [release] panics; until [nextpid] overflows its
    32 bits. *)
Theorem allocpid_unique (n : Z) (m : machine) :
  mreach n m -> n < 2 ^ 31 - 1 ->
  (forall (V F : Type) (h : nat) (s : sysst V F), run_alone h allocpid_thread s = allocpid h s) /\
  smp_panic (m_smp m) = false /\
  NoDup (m_out m) /\
  (forall v, v ∈ m_out m -> 1 <= v < m_next m) /\
  ((forall h, m_hart m h = Idle) -> m_next m = 1 + n /\ m_out m ≡ₚ seqZ 1 n).
Proof.
  intros HR Hn. pose proof (mreach_inv n m HR Hn) as I. split_and!.
  - done.
  - apply (pi_smp n m I).
  - apply (pi_nodup n m I).
  - intros v Hv. apply (pi_given n m I v). by left.
  - intros Hid. split; [apply (pi_next n m I)|]. apply NoDup_Permutation; [apply (pi_nodup n m I)|apply NoDup_seqZ|].
    intros v. rewrite elem_of_seqZ, <- (proj2 (pi_next n m I)), (pi_given n m I v).
    split; [by left|]. intros [Hv|[h Hv]]; [done|]. by rewrite Hid in Hv.
Qed.

(** Two harts: hart 1 tries while hart 0 holds the lock, and goes second. *)
Definition two_harts : machine :=
  Machine (Smp (initlock "nextpid") (fun _ => HartSt Outside (Cpu 0 false true)) false) 1 (fun _ => Idle) [].

(** The next step of hart [h], where it has one. *)
Definition hart_step (h : Z) (m : machine) : option machine :=
  let s := m_smp m in
  match m_hart m h, pc_of s h with
  | Idle, _ => Some (goto h (At allocpid_thread) m)
  | At (TAcquire k), Outside =>
      if holding h (smp_lock s) then None
      else Some (goto h (Acquiring k) (set_smp (set_hart s h Spinning (snd (push_off (cpu_of s h)))) m))
  | Acquiring k, Spinning =>
      Some (set_smp (set_lock (if locked (smp_lock s) =? 0 then set_hart s h Swapped (cpu_of s h) else s)
              (Spinlock 1 (lk_name (smp_lock s)) (lk_cpu (smp_lock s)))) m)
  | Acquiring k, Swapped =>
      Some (set_smp (set_lock (set_hart s h Inside (cpu_of s h))
              (Spinlock (locked (smp_lock s)) (lk_name (smp_lock s)) (Some h))) m)
  | Acquiring k, Inside => Some (goto h (At k) m)
  | At (TRead k), _ => Some (goto h (At (k (m_next m))) m)
  | At (TWrite v k), _ => Some (goto h (At k) (set_next v m))
  | At (TRelease k), Inside =>
      if holding h (smp_lock s) then
        Some (goto h (Releasing k) (set_smp (set_lock (set_hart s h Leaving (cpu_of s h))
                (Spinlock (locked (smp_lock s)) (lk_name (smp_lock s)) None)) m))
      else None
  | Releasing k, Leaving =>
      match pop_off (cpu_of s h) with
      | (Ret _, c) => Some (set_smp (set_lock (set_hart s h Outside c)
                        (Spinlock 0 (lk_name (smp_lock s)) (lk_cpu (smp_lock s)))) m)
      | _ => None
      end
  | Releasing k, Outside => Some (goto h (At k) m)
  | At (TRet v), _ => Some (goto h Idle (add_out v m))
  | _, _ => None
  end.

Lemma hart_step_inside m h s :
  smp_step (m_smp m) s -> pc_of (m_smp m) h <> Outside -> pc_of (m_smp m) h <> Inside ->
  (forall k, k <> h -> pc_of s k = pc_of (m_smp m) k) -> mstep_rel m (set_smp s m).
Proof. intros Hs H1 H2 Hk. apply m_inside; [done|..]; intros k; destruct (decide (k = h)) as [->|]; rewrite ?Hk by done; done. Qed.

Lemma pc_others s h pc c l k : k <> h -> pc_of (set_lock (set_hart s h pc c) l) k = pc_of s k.
Proof. intros. unfold set_lock, pc_of. cbn. by rewrite upd_ne. Qed.

Lemma hart_step_sound h m m' : hart_step h m = Some m' -> mstep_rel m m'.
Proof.
  unfold hart_step. destruct (m_hart m h) as [|[v|k|k|v k|k]|k|k] eqn:E; destruct (pc_of (m_smp m) h) eqn:Ep;
    try done; repeat case_match; try done; intros [= <-];
    try (by econstructor).
  - pose proof (step_acquire (m_smp m) h Ep) as Hs. rewrite H in Hs. eapply m_acquire; try done.
    rewrite pc_set_hart. by case_decide.
  - pose proof (step_release (m_smp m) h Ep) as Hs. rewrite H in Hs. cbn [negb] in Hs. eapply m_release; try done.
    unfold set_lock, pc_of. cbn. by rewrite upd_eq.
  - pose proof (step_swap (m_smp m) h Ep) as Hs. rewrite H in Hs. by apply (hart_step_inside m h); rewrite ?Ep; auto using pc_others.
  - pose proof (step_swap (m_smp m) h Ep) as Hs. rewrite H in Hs. by apply (hart_step_inside m h); rewrite ?Ep.
  - pose proof (step_record (m_smp m) h Ep) as Hs. by apply (hart_step_inside m h); rewrite ?Ep; auto using pc_others.
  - pose proof (step_unlock (m_smp m) h Ep) as Hs. rewrite H in Hs. by apply (hart_step_inside m h); rewrite ?Ep; auto using pc_others.
Qed.

Lemma schedule_reach hs n m m' :
  mreach n m -> foldl (fun o h => o ≫= hart_step h) (Some m) hs = Some m' ->
  exists n', mreach n' m' /\ n' <= n + Z.of_nat (length hs).
Proof.
  revert n m. induction hs as [|h hs IH]; intros n m R E; [injection E as <-; exists n; split; [done|lia]|].
  cbn [foldl] in E. change (Some m ≫= hart_step h) with (hart_step h m) in E.
  destruct (hart_step h m) as [m1|] eqn:E1.
  - apply hart_step_sound in E1. destruct (IH _ m1 (mr_step n m m1 R E1) E) as (n' & R' & Hn').
    exists n'. split; [done|]. cbn [length]. unfold changes in Hn'. case_match; lia.
  - exfalso. clear -E. induction hs; [done|]. cbn in E. auto.
Qed.

(** Hart 1 calls and spins while hart 0 is in [allocpid], then goes second. *)
Definition two_calls : list Z :=
  [0; 1; 0; 1; 0; 1; 0; 1; 0; 0; 0; 0; 1; 0; 1; 0; 1; 0; 1; 0; 1; 1; 1; 1; 1; 1; 1; 1].

Lemma allocpid_unique_witness :
  exists n m, mreach n m /\ n < 2 ^ 31 - 1 /\ m_out m = [1; 2] /\ NoDup (m_out m) /\ smp_panic (m_smp m) = false.
Proof.
  assert (EO : m_out <$> foldl (fun o h => o ≫= hart_step h) (Some two_harts) two_calls = Some [1; 2]) by (vm_compute; reflexivity).
  apply fmap_Some in EO as (m & E & Hout).
  assert (R : mreach 0 two_harts) by (apply mr_boot; by repeat split).
  destruct (schedule_reach two_calls 0 two_harts m R E) as (n & R' & Hn). clear E. cbn in Hn.
  assert (Hlt : n < 2 ^ 31 - 1) by lia. destruct (allocpid_unique n m R' Hlt) as (_ & H1 & H2 & _).
  exists n, m. by split_and!.
Defined.
