(* ===== verification/Wakeup.v ===== *)
(** * The sleep/wakeup protocol, instruction by instruction: kernel/proc.c

    Any number of processes wait for a condition with the pattern every caller
    of [sleep] uses,

      acquire(lk); while(!cond) sleep(chan, lk); release(lk)

    while another CPU makes the condition true,

      acquire(lk); cond = 1; wakeup(chan); release(lk).

    The bodies of [sleep], of the scheduler's switch away from and back to the
    process, and of [wakeup] are interleaved at the granularity of their
    lock operations and assignments. *)
From S2P Require Import Prelude Proc.
Local Open Scope nat_scope.

(** Where a waiting process is: about to execute ... *)
Inductive spc :=
| SLock      (* acquire(lk) *)
| STest      (* while(!cond) *)
| SPlock     (* sleep: acquire(&p->lock) *)
| SRel       (* sleep: release(lk) *)
| SChan      (* sleep: p->chan = chan *)
| SState     (* sleep: p->state = SLEEPING *)
| SSwitch    (* sched(): swtch; the scheduler releases p->lock *)
| SOff       (* off the CPU; the scheduler may acquire p->lock and run it *)
| STidy      (* sleep: p->chan = 0 *)
| SPrel      (* sleep: release(&p->lock); the lock lk is next *)
| SDone.     (* past the loop, lk released *)

(** Where the waking CPU is; the index is the loop variable of [wakeup]. *)
Inductive wpc :=
| WLock           (* acquire(lk) *)
| WSet            (* cond = 1 *)
| WAcq (k : nat)  (* wakeup: acquire(&p->lock) *)
| WTest (k : nat) (* wakeup: if(p->state == SLEEPING && p->chan == chan) p->state = RUNNABLE *)
| WRel (k : nat)  (* wakeup: release(&p->lock) *)
| WUnlock         (* release(lk) *)
| WDone.

#[export] Instance spc_eq_dec : EqDecision spc.
Proof. solve_decision. Defined.
#[export] Instance wpc_eq_dec : EqDecision wpc.
Proof. solve_decision. Defined.

(** Who holds a lock. The scheduler holds [p->lock] on the process's behalf. *)
Inductive who := Waker | Sleeper (i : nat).
#[export] Instance who_eq_dec : EqDecision who.
Proof. solve_decision. Defined.

(** A waiting process: position, holder of its [p->lock], [p->state], and
    whether [p->chan] is the channel. *)
Record sthread := STh { t_pc : spc; t_lock : option who; t_state : procstate; t_chan : bool }.

Record swst := SwSt { w_lk : option who; w_cond : bool; w_pc : wpc; w_sl : list sthread }.

Definition put (s : swst) (i : nat) (t : sthread) : swst := SwSt (w_lk s) (w_cond s) (w_pc s) (<[i := t]> (w_sl s)).
Definition set_lk (l : option who) (s : swst) : swst := SwSt l (w_cond s) (w_pc s) (w_sl s).
Definition goto (pc : wpc) (s : swst) : swst := SwSt (w_lk s) (w_cond s) pc (w_sl s).

(** The next round of the loop of [wakeup] over the processes. *)
Definition next (s : swst) (k : nat) : wpc := if k <? length (w_sl s) then WAcq k else WUnlock.

Definition wake (t : sthread) : sthread :=
  if bool_decide (t_state t = SLEEPING) && t_chan t then STh (t_pc t) (t_lock t) RUNNABLE (t_chan t) else t.

Inductive sw_step : swst -> swst -> Prop :=
(* a waiting process *)
| step_lock s i st c pl : w_sl s !! i = Some (STh SLock pl st c) -> w_lk s = None ->
    sw_step s (set_lk (Some (Sleeper i)) (put s i (STh STest pl st c)))
| step_test_done s i st c pl : w_sl s !! i = Some (STh STest pl st c) -> w_cond s = true ->
    sw_step s (set_lk None (put s i (STh SDone pl st c)))
| step_test_sleep s i st c pl : w_sl s !! i = Some (STh STest pl st c) -> w_cond s = false ->
    sw_step s (put s i (STh SPlock pl st c))
| step_plock s i st c : w_sl s !! i = Some (STh SPlock None st c) ->
    sw_step s (put s i (STh SRel (Some (Sleeper i)) st c))
| step_rel s i pl st c : w_sl s !! i = Some (STh SRel pl st c) ->
    sw_step s (set_lk None (put s i (STh SChan pl st c)))
| step_chan s i pl st c : w_sl s !! i = Some (STh SChan pl st c) ->
    sw_step s (put s i (STh SState pl st true))
| step_state s i pl st c : w_sl s !! i = Some (STh SState pl st c) ->
    sw_step s (put s i (STh SSwitch pl SLEEPING c))
| step_switch s i pl st c : w_sl s !! i = Some (STh SSwitch pl st c) ->
    sw_step s (put s i (STh SOff None st c))
| step_run s i c : w_sl s !! i = Some (STh SOff None RUNNABLE c) ->
    sw_step s (put s i (STh STidy (Some (Sleeper i)) RUNNING c))
| step_tidy s i pl st c : w_sl s !! i = Some (STh STidy pl st c) ->
    sw_step s (put s i (STh SPrel pl st false))
| step_prel s i pl st c : w_sl s !! i = Some (STh SPrel pl st c) ->
    sw_step s (put s i (STh SLock None st c))
(* the waking CPU *)
| step_wlock s : w_pc s = WLock -> w_lk s = None -> sw_step s (goto WSet (set_lk (Some Waker) s))
| step_wset s : w_pc s = WSet -> sw_step s (SwSt (w_lk s) true (next s 0) (w_sl s))
| step_wacq s k pc st c : w_pc s = WAcq k -> w_sl s !! k = Some (STh pc None st c) ->
    sw_step s (goto (WTest k) (put s k (STh pc (Some Waker) st c)))
| step_wtest s k t : w_pc s = WTest k -> w_sl s !! k = Some t -> sw_step s (goto (WRel k) (put s k (wake t)))
| step_wrel s k pc pl st c : w_pc s = WRel k -> w_sl s !! k = Some (STh pc pl st c) ->
    sw_step s (goto (next s (S k)) (put s k (STh pc None st c)))
| step_wunlock s : w_pc s = WUnlock -> sw_step s (goto WDone (set_lk None s)).

(** [n] steps from [s] to [t]. *)
Inductive sw_steps : nat -> swst -> swst -> Prop :=
| sw_here s : sw_steps 0 s s
| sw_more n s t u : sw_steps n s t -> sw_step t u -> sw_steps (S n) s u.

(** [n] processes about to test the condition, and the waker not started. *)
Definition sw_init (n : nat) : swst := SwSt None false WLock (replicate n (STh SLock None RUNNING false)).

Definition all_done (s : swst) : Prop := w_pc s = WDone /\ forall t, t ∈ w_sl s -> t_pc t = SDone.

(** ** The invariant *)

(** The waker has dealt with process [i]. *)
Definition passed (w : wpc) (i : nat) : bool :=
  match w with
  | WLock | WSet => false
  | WAcq k | WTest k => i <? k
  | WRel k => i <=? k
  | WUnlock | WDone => true
  end.

Definition waker_in (w : wpc) : bool := match w with WLock | WDone => false | _ => true end.
Definition cond_set (w : wpc) : bool := match w with WLock | WSet => false | _ => true end.
Definition waker_at (w : wpc) (i : nat) : bool := match w with WTest k | WRel k => i =? k | _ => false end.
Definition in_lk (pc : spc) : bool := match pc with STest | SPlock | SRel => true | _ => false end.
Definition in_plk (pc : spc) : bool := match pc with SRel | SChan | SState | SSwitch | STidy | SPrel => true | _ => false end.

(** One process: who holds its lock, and what its state fields are. *)
Record sth_ok (s : swst) (i : nat) (t : sthread) : Prop := {
  so_plk : t_lock t = if waker_at (w_pc s) i then Some Waker else if in_plk (t_pc t) then Some (Sleeper i) else None;
  so_excl : waker_at (w_pc s) i = true -> in_plk (t_pc t) = false;
  so_lk : in_lk (t_pc t) = true <-> w_lk s = Some (Sleeper i);
  so_state : t_state t = match t_pc t with SSwitch => SLEEPING | SOff => t_state t | _ => RUNNING end;
  so_off : t_pc t = SOff -> t_state t = SLEEPING \/ t_state t = RUNNABLE;
  so_chan : t_chan t = match t_pc t with SState | SSwitch | SOff | STidy => true | _ => false end;
  so_cond : w_cond s = true -> t_pc t <> SPlock /\ t_pc t <> SRel;
  so_passed : passed (w_pc s) i = true ->
    t_pc t <> SChan /\ t_pc t <> SState /\ t_pc t <> SSwitch /\ (t_pc t = SOff -> t_state t = RUNNABLE);
  so_woken : passed (w_pc s) i = false -> t_pc t <> STidy /\ t_pc t <> SPrel /\ t_pc t <> SDone /\ t_state t <> RUNNABLE;
}.

Record sw_ok (s : swst) : Prop := {
  sw_threads : forall i t, w_sl s !! i = Some t -> sth_ok s i t;
  sw_waker : w_lk s = Some Waker <-> waker_in (w_pc s) = true;
  sw_holder : forall i, w_lk s = Some (Sleeper i) -> is_Some (w_sl s !! i);
  sw_cond : w_cond s = cond_set (w_pc s);
  sw_index : forall k, w_pc s = WAcq k \/ w_pc s = WTest k \/ w_pc s = WRel k -> k < length (w_sl s);
}.

(** ** Lemmas: preservation *)
#[local] Arguments Nat.ltb : simpl never.
#[local] Arguments Nat.leb : simpl never.
#[local] Arguments Nat.eqb : simpl never.
Lemma next_passed s k i : i < length (w_sl s) -> passed (next s k) i = (i <? k).
Proof. intros Hi. unfold next. destruct (Nat.ltb_spec k (length (w_sl s))); cbn; [done|]. symmetry. apply Nat.ltb_lt. lia. Qed.

Lemma next_facts s k : waker_in (next s k) = true /\ cond_set (next s k) = true /\ (forall i, waker_at (next s k) i = false).
Proof. unfold next. by destruct (_ <? _). Qed.

(** A thread's facts only depend on the shared state through these. *)
Lemma sth_ok_ext s s' i t :
  sth_ok s i t -> waker_at (w_pc s') i = waker_at (w_pc s) i -> passed (w_pc s') i = passed (w_pc s) i ->
  (w_lk s' = Some (Sleeper i) <-> w_lk s = Some (Sleeper i)) ->
  (w_cond s' = true -> w_cond s = true \/ t_pc t <> SPlock /\ t_pc t <> SRel) -> sth_ok s' i t.
Proof.
  intros [A1 A2 A3 A4 A5 A6 A7 A8 A9] E1 E2 E3 E4. split; rewrite ?E1, ?E2; try done.
  - by rewrite E3.
  - intros H. destruct (E4 H); auto.
Qed.

(** A waiting process moves: the others keep their facts. *)
Lemma move_ok s i t t' l' :
  sw_ok s -> w_sl s !! i = Some t -> (l' = w_lk s \/ w_lk s = None /\ l' = Some (Sleeper i) \/ w_lk s = Some (Sleeper i) /\ l' = None) ->
  sth_ok (set_lk l' (put s i t')) i t' -> sw_ok (set_lk l' (put s i t')).
Proof.
  intros [S1 S2 S3 S4 S5] Hi Hl Ht'. pose proof (lookup_lt_Some _ _ _ Hi) as Hlt. split; cbn.
  - intros j u Hj. apply list_lookup_insert_Some in Hj as [(-> & <- & _)|[Hne Hj]]; [done|].
    apply (sth_ok_ext s); [by apply S1|done|done| |by left]. cbn.
    destruct Hl as [->|[[-> ->]|[-> ->]]]; [done| |]; split; intros [=]; congruence.
  - destruct Hl as [->|[[E ->]|[E ->]]]; [done| |]; rewrite E in S2; split; intros H; try done; exfalso; by apply S2 in H.
  - intros j Hj. destruct (decide (j = i)) as [->|Hne]; [by rewrite list_lookup_insert_eq|].
    rewrite list_lookup_insert_ne by done. apply S3. destruct Hl as [->|[[E ->]|[E ->]]]; [done|congruence|done].
  - done.
  - intros k Hk. rewrite length_insert. by apply S5.
Qed.

Lemma move_put_ok s i t t' :
  sw_ok s -> w_sl s !! i = Some t -> sth_ok (put s i t') i t' -> sw_ok (put s i t').
Proof. intros OK Hi Ht. exact (move_ok s i t t' (w_lk s) OK Hi (or_introl eq_refl) Ht). Qed.

(** The facts of a thread after a step, from those before it. *)
Ltac use_bits :=
  repeat match goal with
  | E : w_pc ?s = _ |- context [w_pc ?s] => rewrite E; cbn
  | H : context [waker_at ?w ?i] |- _ => destruct (waker_at w i)
  | H : context [passed ?w ?i] |- _ => destruct (passed w i)
  | H : ?x = ?x -> _ |- _ => specialize (H eq_refl)
  | H : true = false -> _ |- _ => clear H
  | H : false = true -> _ |- _ => clear H
  | H : _ /\ _ |- _ => destruct H
  end; try congruence.

Ltac solve_thread :=
  split; cbn in *; use_bits;
  try done; try (split; intros; congruence); intros; split_and?; try congruence; try tauto.

Lemma sleeper_holds s i t : sw_ok s -> w_sl s !! i = Some t -> in_lk (t_pc t) = true ->
  w_lk s = Some (Sleeper i) /\ waker_in (w_pc s) = false.
Proof.
  intros [S1 S2 S3 S4 S5] Hi Hin. destruct (S1 i t Hi) as [_ _ B3 _ _ _ _ _ _]. apply B3 in Hin. split; [done|].
  apply not_true_is_false. intros H. apply S2 in H. congruence.
Qed.

(** The waker moves to [w'] and changes thread [k]. *)
Lemma waker_ok s k t t' w' :
  sw_ok s -> w_sl s !! k = Some t -> waker_in w' = waker_in (w_pc s) -> cond_set w' = cond_set (w_pc s) ->
  (forall j, j <> k -> j < length (w_sl s) -> waker_at w' j = waker_at (w_pc s) j /\ passed w' j = passed (w_pc s) j) ->
  sth_ok (goto w' (put s k t')) k t' ->
  (forall j, w' = WAcq j \/ w' = WTest j \/ w' = WRel j -> j < length (w_sl s)) ->
  sw_ok (goto w' (put s k t')).
Proof.
  intros [S1 S2 S3 S4 S5] Hk E1 E2 E3 Ht HI. split; cbn.
  - intros j u Hj. apply list_lookup_insert_Some in Hj as [(-> & <- & _)|[Hne Hj]]; [done|].
    destruct (E3 j) as [F1 F2]; [done|by eapply lookup_lt_Some|].
    apply (sth_ok_ext s); cbn; [by apply S1|done|done|done|by left].
  - by rewrite E1.
  - intros j Hj. destruct (decide (j = k)) as [->|]; [rewrite list_lookup_insert_eq; [done|by eapply lookup_lt_Some]|].
    rewrite list_lookup_insert_ne by done. by apply S3.
  - by rewrite E2.
  - intros j Hj. rewrite length_insert. by apply HI.
Qed.

(** The test of [wakeup] in thread [k]. *)
Lemma wake_thread s k t :
  sth_ok s k t -> w_pc s = WTest k -> sth_ok (goto (WRel k) (put s k (wake t))) k (wake t).
Proof.
  intros [T1 T2 T3 T4 T5 T6 T7 T8 T9] Hw. rewrite Hw in *. cbn in *. rewrite ?Nat.eqb_refl, ?Nat.ltb_irrefl in *.
  specialize (T2 eq_refl). destruct (T9 eq_refl) as (P1 & P2 & P3 & P4). destruct t as [pc pl st ch]. cbn in *.
  unfold wake. cbn. destruct pc; try done; cbn in *; subst; cbn; split; cbn; rewrite ?Nat.eqb_refl, ?Nat.leb_refl; try done.
  all: destruct (T5 eq_refl) as [-> | ->]; cbn; try done; auto.
Qed.

Lemma sw_ok_step s s' : sw_ok s -> sw_step s s' -> sw_ok s'.
Proof.
  intros OK Hs. pose proof OK as [S1 S2 S3 S4 S5]. destruct Hs as
    [s i st c pl Hi Hl|s i st c pl Hi Hc|s i st c pl Hi Hc|s i st c Hi|s i pl st c Hi|s i pl st c Hi|s i pl st c Hi|s i pl st c Hi
    |s i c Hi|s i pl st c Hi|s i pl st c Hi|s Hw Hl|s Hw|s k pc st c Hw Hk|s k t Hw Hk|s k pc pl st c Hw Hk|s Hw].
  1-11: pose proof (S1 _ _ Hi) as T; pose proof T as [T1 T2 T3 T4 T5 T6 T7 T8 T9]; cbn in *; clear S1 S3 S5.
  - eapply move_ok; [done|exact Hi|by auto|]. solve_thread.
  - destruct (sleeper_holds _ _ _ OK Hi eq_refl) as [Hl Hw]. rewrite S4 in Hc.
    assert (E : w_pc s = WDone) by (by destruct (w_pc s)). eapply move_ok; [done|exact Hi|by auto|]. rewrite E in *. solve_thread.
  - destruct (sleeper_holds _ _ _ OK Hi eq_refl) as [Hl Hw]. eapply move_put_ok; [done|exact Hi|]. solve_thread.
  - destruct (sleeper_holds _ _ _ OK Hi eq_refl) as [Hl Hw]. eapply move_put_ok; [done|exact Hi|]. solve_thread.
  - destruct (sleeper_holds _ _ _ OK Hi eq_refl) as [Hl Hw].
    assert (E : w_pc s = WLock) by (rewrite S4 in T7; destruct (w_pc s); try done; by destruct (T7 eq_refl)).
    eapply move_ok; [done|exact Hi|by auto|]. rewrite E in *. solve_thread.
  - eapply move_put_ok; [done|exact Hi|]. solve_thread.
  - eapply move_put_ok; [done|exact Hi|]. solve_thread.
  - eapply move_put_ok; [done|exact Hi|]. solve_thread.
  - eapply move_put_ok; [done|exact Hi|]. solve_thread.
  - eapply move_put_ok; [done|exact Hi|]. solve_thread.
  - eapply move_put_ok; [done|exact Hi|]. solve_thread.
  - assert (HS : forall i, w_lk s <> Some (Sleeper i)) by (rewrite Hl; done).
    split; cbn; [|done|done|by rewrite S4, Hw|intros k [?|[?|?]]; done].
    intros i t Hi. apply (sth_ok_ext s); cbn; [by apply S1|by rewrite Hw|by rewrite Hw| |by left]. split; [done|by intros ?%HS].
  - assert (HL : w_lk s = Some Waker) by (by apply S2; rewrite Hw). destruct (next_facts s 0) as (N1 & N2 & N3).
    split; cbn; [|by rewrite N1|done|done|].
    + intros i t Hi. assert (Hlt : i < length (w_sl s)) by (by eapply lookup_lt_Some).
      apply (sth_ok_ext s); cbn; [by apply S1|by rewrite Hw, N3|by rewrite Hw, next_passed|done|]. intros _. right.
      destruct (S1 i t Hi) as [_ _ B3 _ _ _ _ _ _]. rewrite HL in B3.
      split; intros E; rewrite E in B3; cbn in B3; by destruct B3 as [B3 _]; specialize (B3 eq_refl).
    + intros k. unfold next. destruct (Nat.ltb_spec 0 (length (w_sl s))); naive_solver.
  - apply (waker_ok s k _ _ (WTest k) OK Hk); cbn; try done.
    + by rewrite Hw.
    + by rewrite Hw.
    + intros j Hj _. rewrite Hw. cbn. split; [by apply Nat.eqb_neq|done].
    + pose proof (S1 _ _ Hk) as [T1 T2 T3 T4 T5 T6 T7 T8 T9]. rewrite Hw in *. cbn in *.
      assert (HP : in_plk pc = false) by (by destruct (in_plk pc)). split; cbn; rewrite ?Nat.eqb_refl; try done.
    + intros j [?|[?|?]]; simplify_eq. by eapply lookup_lt_Some.
  - apply (waker_ok s k _ _ (WRel k) OK Hk); cbn; try done.
    + by rewrite Hw.
    + by rewrite Hw.
    + intros j Hj _. rewrite Hw. cbn. split; [done|]. destruct (Nat.leb_spec j k), (Nat.ltb_spec j k); try done; lia.
    + apply wake_thread; [by apply S1|done].
    + intros j [?|[?|?]]; simplify_eq. by eapply lookup_lt_Some.
  - destruct (next_facts s (S k)) as (N1 & N2 & N3). assert (Hlt : k < length (w_sl s)) by (by eapply lookup_lt_Some).
    apply (waker_ok s k _ _ (next s (S k)) OK Hk); cbn; try done.
    + by rewrite N1, Hw.
    + by rewrite N2, Hw.
    + intros j Hj Hjl. rewrite Hw, N3, next_passed by done. cbn. split; [symmetry; by apply Nat.eqb_neq|done].
    + pose proof (S1 _ _ Hk) as [T1 T2 T3 T4 T5 T6 T7 T8 T9]. rewrite Hw in *. cbn in *. rewrite Nat.eqb_refl, Nat.leb_refl in *.
      specialize (T2 eq_refl). split; cbn; rewrite ?N3, ?T2, ?next_passed by done; try done.
      * intros _. by apply T8.
      * intros H%Nat.ltb_ge. lia.
    + intros j. unfold next. destruct (Nat.ltb_spec (S k) (length (w_sl s))); naive_solver.
  - assert (HL : w_lk s = Some Waker) by (by apply S2; rewrite Hw).
    split; cbn; [|done|done|by rewrite S4, Hw|intros k [?|[?|?]]; done].
    intros i t Hi. apply (sth_ok_ext s); cbn; [by apply S1|by rewrite Hw|by rewrite Hw| |by left]. rewrite HL. done.
Qed.

Lemma sw_init_ok n : sw_ok (sw_init n).
Proof.
  split; cbn; try done.
  - intros i t [-> _]%lookup_replicate. by split.
  - intros k [?|[?|?]]; done.
Qed.

Lemma sw_steps_ok n s t : sw_steps n s t -> sw_ok s -> sw_ok t.
Proof. intros H OK. induction H as [|n s t u _ IH Hu]; [done|]. exact (sw_ok_step _ _ (IH OK) Hu). Qed.

(** ** Lemmas: every execution is finite *)
Definition rank (ps : bool) (t : sthread) : nat :=
  if ps then match t_pc t with SOff => 6 | STidy => 5 | SPrel => 4 | SLock => 3 | STest => 2 | SDone => 0 | _ => 7 end
  else match t_pc t with
       | SLock => 15 | STest => 14 | SPlock => 13 | SRel => 12 | SChan => 11 | SState => 10 | SSwitch => 9 | SOff => 8 | _ => 0
       end.

Definition wrank (n : nat) (w : wpc) : nat :=
  match w with
  | WLock => 3 * n + 4 | WSet => 3 * n + 3
  | WAcq k => 3 * (n - k) + 2 | WTest k => 3 * (n - k) + 1 | WRel k => 3 * (n - k)
  | WUnlock => 1 | WDone => 0
  end.

Definition ranks (w : wpc) (l : list sthread) : nat := sum_list (imap (fun i t => rank (passed w i) t) l).
Definition measure (s : swst) : nat := wrank (length (w_sl s)) (w_pc s) + ranks (w_pc s) (w_sl s).

Lemma sum_imap_insert (f : nat -> sthread -> nat) l i t t' :
  l !! i = Some t -> sum_list (imap f (<[i := t']> l)) + f i t = sum_list (imap f l) + f i t'.
Proof.
  revert f i. induction l as [|x l IH]; intros f i H; [done|]. destruct i as [|i]; cbn in *.
  - injection H as ->. lia.
  - rewrite <- !Nat.add_assoc. f_equal. exact (IH (f ∘ S) i H).
Qed.

Lemma sum_imap_le (f g : nat -> sthread -> nat) l :
  (forall i t, l !! i = Some t -> f i t <= g i t) -> sum_list (imap f l) <= sum_list (imap g l).
Proof.
  revert f g. induction l as [|x l IH]; intros f g H; [done|]. cbn.
  pose proof (H 0 x eq_refl). specialize (IH (f ∘ S) (g ∘ S) (fun i t Hi => H (S i) t Hi)). lia.
Qed.

Lemma measure_put s i t t' l' :
  w_sl s !! i = Some t -> rank (passed (w_pc s) i) t' < rank (passed (w_pc s) i) t -> measure (set_lk l' (put s i t')) < measure s.
Proof.
  intros Hi Hr. unfold measure, ranks. cbn. rewrite length_insert.
  pose proof (sum_imap_insert (fun i t => rank (passed (w_pc s) i) t) (w_sl s) i t t' Hi). cbn in *. lia.
Qed.

Lemma measure_put' s i t t' :
  w_sl s !! i = Some t -> rank (passed (w_pc s) i) t' < rank (passed (w_pc s) i) t -> measure (put s i t') < measure s.
Proof. apply (measure_put s i t t' (w_lk s)). Qed.

(** The waker's moves: no thread's rank goes up. *)
Lemma measure_waker s k t t' w' c' l' :
  w_sl s !! k = Some t -> wrank (length (w_sl s)) w' < wrank (length (w_sl s)) (w_pc s) ->
  rank (passed w' k) t' <= rank (passed (w_pc s) k) t ->
  (forall j, j <> k -> j < length (w_sl s) -> passed w' j = passed (w_pc s) j) ->
  measure (SwSt l' c' w' (<[k := t']> (w_sl s))) < measure s.
Proof.
  intros Hk Hw Hr HP. unfold measure, ranks. cbn. rewrite length_insert.
  pose proof (sum_imap_insert (fun i t => rank (passed w' i) t) (w_sl s) k t t' Hk) as HS. cbn in HS.
  pose proof (sum_imap_insert (fun i t => rank (if decide (i = k) then passed w' k else passed (w_pc s) i) t) (w_sl s) k t t Hk) as HT.
  assert (HE : sum_list (imap (fun i t => rank (passed w' i) t) (w_sl s)) + rank (passed (w_pc s) k) t <=
               sum_list (imap (fun i t => rank (passed (w_pc s) i) t) (w_sl s)) + rank (passed w' k) t).
  { clear HS HT Hw Hr. assert (HG : forall (f g : nat -> sthread -> nat) l k, l !! k = Some t ->
      (forall j u, j <> k -> l !! j = Some u -> f j u <= g j u) -> sum_list (imap f l) + g k t <= sum_list (imap g l) + f k t).
    { clear. intros f g l. revert f g. induction l as [|x l IH]; intros f g k Hk H; [done|]. destruct k as [|k]; cbn in *.
      - injection Hk as ->. assert (sum_list (imap (f ∘ S) l) <= sum_list (imap (g ∘ S) l)); [|lia].
        apply sum_imap_le. intros i u Hi. apply (H (S i) u); [lia|done].
      - specialize (IH (f ∘ S) (g ∘ S) k Hk (fun j u Hj Hu => H (S j) u ltac:(lia) Hu)). pose proof (H 0 x ltac:(lia) eq_refl).
        unfold compose in *. lia. }
    apply (HG (fun i t => rank (passed w' i) t) (fun i t => rank (passed (w_pc s) i) t) _ k Hk).
    intros j u Hj Hu. rewrite HP; [done|done|by eapply lookup_lt_Some]. }
  cbn in *. lia.
Qed.

Lemma passed_cond w i : passed w i = true -> cond_set w = true.
Proof. by destruct w. Qed.

Lemma measure_step s s' : sw_ok s -> sw_step s s' -> measure s' < measure s.
Proof.
  intros OK Hs. pose proof OK as [S1 S2 S3 S4 S5]. destruct Hs as
    [s i st c pl Hi Hl|s i st c pl Hi Hc|s i st c pl Hi Hc|s i st c Hi|s i pl st c Hi|s i pl st c Hi|s i pl st c Hi|s i pl st c Hi
    |s i c Hi|s i pl st c Hi|s i pl st c Hi|s Hw Hl|s Hw|s k pc st c Hw Hk|s k t Hw Hk|s k pc pl st c Hw Hk|s Hw].
  1-11: pose proof (S1 _ _ Hi) as [T1 T2 T3 T4 T5 T6 T7 T8 T9]; pose proof (passed_cond (w_pc s) i) as PC; rewrite <- S4 in PC; cbn in *;
    first [eapply measure_put|eapply measure_put']; [exact Hi|]; unfold rank; cbn;
    destruct (passed (w_pc s) i) eqn:EP; try lia; exfalso;
    try destruct (T8 eq_refl) as (? & ? & ? & ?); try destruct (T9 eq_refl) as (? & ? & ? & ?);
    try destruct (T7 (PC eq_refl)); try specialize (PC eq_refl); congruence.
  - unfold measure, ranks. cbn. rewrite Hw. cbn. lia.
  - assert (HE : ranks (next s 0) (w_sl s) <= ranks (w_pc s) (w_sl s)).
    { apply sum_imap_le. intros i t Hi. rewrite Hw, next_passed by (by eapply lookup_lt_Some). done. }
    unfold measure. cbn [w_pc w_sl]. rewrite Hw in *.
    assert (wrank (length (w_sl s)) (next s 0) < wrank (length (w_sl s)) WSet); [|lia].
    unfold next. destruct (_ <? _); cbn; lia.
  - apply (measure_waker s k _ _ (WTest k) _ _ Hk); rewrite Hw; cbn; [lia|done|done].
  - apply (measure_waker s k _ _ (WRel k) _ _ Hk); rewrite Hw; cbn.
    + pose proof (S5 k). lia.
    + rewrite Nat.leb_refl, Nat.ltb_irrefl. pose proof (S1 _ _ Hk) as [T1 T2 T3 T4 T5 T6 T7 T8 T9]. rewrite Hw in *. cbn in *.
      rewrite Nat.eqb_refl, ?Nat.ltb_irrefl in *. specialize (T2 eq_refl). specialize (T9 eq_refl). destruct T9 as (_ & _ & T9 & _).
      assert (HL : w_lk s = Some Waker) by (by apply S2). rewrite HL in T3.
      assert (EW : t_pc (wake t) = t_pc t) by (unfold wake; by destruct (_ && _)). unfold rank. rewrite EW.
      destruct (t_pc t); try done; try lia; exfalso; by destruct (proj1 T3 eq_refl).
    + intros j Hj _. destruct (Nat.leb_spec j k), (Nat.ltb_spec j k); try done; lia.
  - assert (Hlt : k < length (w_sl s)) by (by eapply lookup_lt_Some).
    apply (measure_waker s k _ _ (next s (S k)) _ _ Hk); rewrite Hw; cbn.
    + unfold next. destruct (Nat.ltb_spec (S k) (length (w_sl s))); cbn; lia.
    + rewrite next_passed by done. rewrite Nat.leb_refl. rewrite (proj2 (Nat.ltb_lt k (S k))) by lia. done.
    + intros j Hj Hjl. by rewrite next_passed.
  - unfold measure, ranks. cbn. rewrite Hw. cbn. lia.
Qed.

(** ** Lemmas: progress *)

(** A process inside [lk] that the waker is not blocking can move. *)
Lemma in_lk_moves s i t : sw_ok s -> w_sl s !! i = Some t -> in_lk (t_pc t) = true -> exists s', sw_step s s'.
Proof.
  intros OK Hi Hin. destruct (sleeper_holds s i t OK Hi Hin) as [Hl Hw].
  destruct (sw_threads s OK i t Hi) as [T1 _ _ _ _ _ _ _ _]. destruct t as [pc pl st c]; cbn in *.
  destruct pc; try done; eauto using sw_step.
  - destruct (w_cond s) eqn:E; eauto using sw_step.
  - assert (waker_at (w_pc s) i = false) as E by (by destruct (w_pc s)). rewrite E in T1. subst pl. eauto using sw_step.
Qed.

(** A process that holds its own lock can move. *)
Lemma in_plk_moves s i t : w_sl s !! i = Some t -> in_plk (t_pc t) = true -> exists s', sw_step s s'.
Proof. intros Hi Hin. destruct t as [pc pl st c]. destruct pc; try done; eauto using sw_step. Qed.

(** [lk] is free or its holder can move. *)
Lemma lk_moves s : sw_ok s -> waker_in (w_pc s) = false -> w_lk s = None \/ exists s', sw_step s s'.
Proof.
  intros OK Hw. destruct (w_lk s) as [[|i]|] eqn:Hl; [| |by left].
  - apply (sw_waker s OK) in Hl. congruence.
  - right. destruct (sw_holder s OK i Hl) as [t Ht]. apply (in_lk_moves s i t OK Ht). by apply (so_lk s i t (sw_threads s OK i t Ht)).
Qed.

Lemma waker_moves s : sw_ok s -> w_pc s <> WDone -> exists s', sw_step s s'.
Proof.
  intros OK Hw. pose proof OK as [S1 S2 S3 S4 S5].
  destruct (w_pc s) as [| |k|k|k| |] eqn:E; try done; eauto using sw_step.
  - destruct (lk_moves s OK) as [Hl|?]; [by rewrite E| |done]. eauto using sw_step.
  - destruct (lookup_lt_is_Some_2 (w_sl s) k) as [t Ht]; [apply S5; auto|].
    destruct (S1 k t Ht) as [T1 _ _ _ _ _ _ _ _]. rewrite E in T1. cbn in T1.
    destruct (in_plk (t_pc t)) eqn:EP; [by apply (in_plk_moves s k t)|]. destruct t as [pc pl st c]. cbn in T1. subst pl. eauto using sw_step.
  - destruct (lookup_lt_is_Some_2 (w_sl s) k) as [t Ht]; [apply S5; auto|]. eauto using sw_step.
  - destruct (lookup_lt_is_Some_2 (w_sl s) k) as [[pc pl st c] Ht]; [apply S5; auto|]. eauto using sw_step.
Qed.

Lemma stuck_done s : sw_ok s -> (forall s', ~ sw_step s s') -> all_done s.
Proof.
  intros OK Hst. assert (Hn : ~ exists s', sw_step s s') by (intros [s' H]; by apply (Hst s')).
  assert (Hw : w_pc s = WDone) by (destruct (decide (w_pc s = WDone)) as [|H]; [done|destruct Hn; by apply waker_moves]).
  split; [done|]. intros t [i Hi]%list_elem_of_lookup. destruct (sw_threads s OK i t Hi) as [T1 T2 T3 T4 T5 T6 T7 T8 T9].
  rewrite Hw in *. cbn in *. specialize (T8 eq_refl). destruct T8 as (_ & _ & _ & T8).
  destruct (decide (t_pc t = SDone)) as [|Hd]; [done|]. destruct Hn.
  destruct (in_plk (t_pc t)) eqn:EP; [by apply (in_plk_moves s i t)|]. destruct (in_lk (t_pc t)) eqn:EL; [by apply (in_lk_moves s i t)|].
  destruct t as [pc pl st c]. cbn in *. destruct pc; try done.
  - destruct (lk_moves s OK) as [Hl|?]; [by rewrite Hw| |done]. eauto using sw_step.
  - rewrite (T8 eq_refl) in Hi. subst pl. eauto using sw_step.
Qed.

Lemma steps_measure j s t : sw_steps j s t -> sw_ok s -> measure t + j <= measure s.
Proof.
  intros H OK. induction H as [s|j s t u Hj IH Hu]; [lia|]. pose proof (sw_steps_ok _ _ _ Hj OK) as OKt.
  pose proof (measure_step t u OKt Hu). specialize (IH OK). lia.
Qed.

Lemma measure_init n : measure (sw_init n) = 18 * n + 4.
Proof.
  unfold measure, ranks, sw_init. cbn [w_pc w_sl]. rewrite length_replicate.
  assert (HR : forall m, sum_list (imap (fun i t => rank (passed WLock i) t) (replicate m (STh SLock None RUNNING false))) = 15 * m).
  { induction m as [|m IH]; [done|]. cbn [replicate imap sum_list].
    change ((fun i t => rank (passed WLock i) t) ∘ S) with (fun (i : nat) t => rank (passed WLock i) t). rewrite IH. cbn. lia. }
  rewrite HR. cbn. lia.
Qed.

(** ** Properties *)

(** C13. No wakeup is lost. Whatever the interleaving of any number of processes
    executing [while(!cond) sleep(chan, lk)] with the process that sets the
    condition and calls [wakeup(chan)]: no process stays asleep once the waker
    has passed it; no execution is longer than [18 n + 4] steps; and an
    execution that cannot continue has every process past its loop. *)
Theorem no_lost_wakeup n k s :
  sw_steps k (sw_init n) s ->
  k <= 18 * n + 4 /\
  ((forall s', ~ sw_step s s') -> all_done s) /\
  (w_pc s = WDone -> forall t, t ∈ w_sl s -> t_state t <> SLEEPING).
Proof.
  intros H. pose proof (sw_steps_ok _ _ _ H (sw_init_ok n)) as OK. split_and!; [|by apply stuck_done|].
  - pose proof (steps_measure _ _ _ H (sw_init_ok n)). rewrite measure_init in *. lia.
  - intros Hw t [i Hi]%list_elem_of_lookup Hs. destruct (sw_threads s OK i t Hi) as [_ _ _ T4 _ _ _ T8 _].
    rewrite Hw in T8. destruct (T8 eq_refl) as (_ & _ & P3 & P4). rewrite Hs in T4. destruct (t_pc t); try done. by rewrite P4 in Hs.
Qed.

(** One process, which the waker finds asleep: the condition becomes true
    between the process's release of the condition lock and its switch. *)
Definition finished : swst := SwSt None true WDone [STh SDone None RUNNING false].

Lemma finished_reached : sw_steps 18 (sw_init 1) finished.
Proof.
  repeat eapply sw_more; [apply sw_here|..].
  - eapply step_lock with (i := 0); reflexivity.
  - eapply step_test_sleep with (i := 0); reflexivity.
  - eapply step_plock with (i := 0); reflexivity.
  - eapply step_rel with (i := 0); reflexivity.
  - eapply step_wlock; reflexivity.
  - eapply step_wset; reflexivity.
  - eapply step_chan with (i := 0); reflexivity.
  - eapply step_state with (i := 0); reflexivity.
  - eapply step_switch with (i := 0); reflexivity.
  - eapply step_wacq with (k := 0); reflexivity.
  - eapply step_wtest with (k := 0); reflexivity.
  - eapply step_wrel with (k := 0); reflexivity.
  - eapply step_wunlock; reflexivity.
  - eapply step_run with (i := 0); reflexivity.
  - eapply step_tidy with (i := 0); reflexivity.
  - eapply step_prel with (i := 0); reflexivity.
  - eapply step_lock with (i := 0); reflexivity.
  - refine (step_test_done _ 0 RUNNING false None _ _); reflexivity.
Qed.

Lemma no_lost_wakeup_witness :
  sw_steps 18 (sw_init 1) finished /\ 18 <= 18 * 1 + 4 /\ (forall s', ~ sw_step finished s') /\ all_done finished.
Proof.
  assert (HN : forall s', ~ sw_step finished s').
  { intros s' H. inversion H as [? i ? ? ? E|? i ? ? ? E|? i ? ? ? E|? i ? ? E|? i ? ? ? E|? i ? ? ? E|? i ? ? ? E|? i ? ? ? E|? i ? E|? i ? ? ? E|? i ? ? ? E|? E|? E|? ? ? ? ? E|? ? ? E|? ? ? ? ? ? E|? E]; subst;
      first [done | by apply list_lookup_singleton_Some in E as [_ E]]. }
  destruct (no_lost_wakeup 1 18 finished finished_reached) as (H1 & H2 & _).
  split_and!; [exact finished_reached|exact H1|exact HN|exact (H2 HN)].
Defined.
