(* ===== verification/Sh.v ===== *)
(** * The shell's parser: user/sh.c

    The command line is a list of bytes (without the NUL that ends it), the
    pointers into it are indices, and the pointer [*ps] the parser advances is
    the state of the monad; [panic] ends the process. The tree is built with
    constructors that always succeed, as the source does not check [malloc].

    [parseexec] keeps filling the [execcmd] while [parseredirs] wraps it: the
    model collects the redirections and wraps the finished command, which is
    what the shared structure amounts to. *)
From S2P Require Import Prelude Riscv.
Local Open Scope Z_scope.

Definition MAXARGS : Z := 10.

(** struct cmd and its five variants; strings are pairs of a start and an end. *)
Inductive cmd :=
| EXEC (argv : list (nat * nat))
| REDIR (c : cmd) (file efile : nat) (mode fd : Z)
| PIPE (left right : cmd)
| LIST (left right : cmd)
| BACK (c : cmd).

(** Character codes. *)
Definition c_tab : Z := 9.
Definition c_nl : Z := 10.
Definition c_vt : Z := 11.
Definition c_cr : Z := 13.
Definition c_sp : Z := 32.
Definition c_amp : Z := 38.
Definition c_lpar : Z := 40.
Definition c_rpar : Z := 41.
Definition c_plus : Z := 43.
Definition c_semi : Z := 59.
Definition c_lt : Z := 60.
Definition c_gt : Z := 62.
Definition c_a : Z := 97.
Definition c_bar : Z := 124.

Definition whitespace : list Z := [c_sp; c_tab; c_cr; c_nl; c_vt].
Definition symbols : list Z := [c_lt; c_bar; c_gt; c_amp; c_semi; c_lpar; c_rpar].

(** [strchr(s, c) != 0]; the terminating NUL of [s] is not found. *)
Definition strchr (s : list Z) (c : Z) : bool := bool_decide (c ∈ s).

Definition is_ws (c : Z) : bool := strchr whitespace c.
Definition is_word (c : Z) : bool := negb (strchr whitespace c) && negb (strchr symbols c).

Section parser.
Context (buf : list Z).
Local Abbreviation PM := (M nat).

Definition es : nat := length buf.
Definition ch (s : nat) : Z := nth s buf 0.

(** [while(s < es && f( *s )) s++], with [n = es - s] bytes to go. *)
Fixpoint skip (f : Z -> bool) (n s : nat) : nat :=
  match n with
  | O => s
  | S n' => if f (ch s) then skip f n' (S s) else s
  end.
Definition skip_ws (s : nat) : nat := skip is_ws (es - s) s.

(** [gettoken]: the kind of token, its start [q] and its end [eq]. *)
Definition gettoken_at (ps : nat) : Z * nat * nat * nat :=
  let q := skip_ws ps in
  let c := ch q in
  let '(ret, s) :=
    if c =? 0 then (c, q)
    else if strchr [c_bar; c_lpar; c_rpar; c_semi; c_amp; c_lt] c then (c, S q)
    else if c =? c_gt then
      (if ch (S q) =? c_gt then (c_plus, S (S q)) else (c, S q))
    else (c_a, skip is_word (es - q) q) in
  (ret, q, s, skip_ws s).

Definition gettoken : PM (Z * nat * nat) := fun ps =>
  let '(ret, q, eq, s) := gettoken_at ps in (Ret (ret, q, eq), s).

Definition peek (toks : list Z) : PM bool := fun ps =>
  let s := skip_ws ps in (Ret (negb (ch s =? 0) && strchr toks (ch s)), s).

(** The loop of [parseredirs]: file, end of file, mode and descriptor of each
    redirection, in order. Every round consumes a byte. *)
Fixpoint parseredirs_loop (fuel : nat) : PM (list (nat * nat * Z * Z)) :=
  match fuel with
  | O => stall (Chan "parseredirs" 0)
  | S f =>
      let! b := peek [c_lt; c_gt] in
      if negb b then ret []
      else
        let! (tok, _, _) := gettoken in
        let! (t, q, eq) := gettoken in
        if negb (t =? c_a) then panic "missing file for redirection"
        else
          let! rest := parseredirs_loop f in
          if tok =? c_lt then ret ((q, eq, O_RDONLY, 0) :: rest)
          else if tok =? c_gt then ret ((q, eq, Z.lor (Z.lor O_WRONLY O_CREATE) O_TRUNC, 1) :: rest)
          else if tok =? c_plus then ret ((q, eq, Z.lor O_WRONLY O_CREATE, 1) :: rest)
          else ret rest
  end.
Definition loop_fuel : nat := S (length buf).

Definition redirs : PM (list (nat * nat * Z * Z)) := parseredirs_loop loop_fuel.

Definition redircmd (c : cmd) (r : nat * nat * Z * Z) : cmd :=
  let '(file, efile, mode, fd) := r in REDIR c file efile mode fd.

Definition parseredirs (c : cmd) : PM cmd :=
  let! rs := redirs in
  ret (foldl redircmd c rs).

(** The argument loop of [parseexec] with [argc] arguments collected; the rest
    of the arguments and the redirections found among them. *)
Fixpoint parseargs (fuel : nat) (argc : Z) : PM (list (nat * nat) * list (nat * nat * Z * Z)) :=
  match fuel with
  | O => stall (Chan "parseexec" 0)
  | S f =>
      let! b := peek [c_bar; c_rpar; c_amp; c_semi] in
      if (b : bool) then ret ([], [])
      else
        let! (tok, q, eq) := gettoken in
        if tok =? 0 then ret ([], [])
        else if negb (tok =? c_a) then panic "syntax"
        else if MAXARGS <=? argc + 1 then panic "too many args"
        else
          let! rs := redirs in
          let! (args, rs') := parseargs f (argc + 1) in
          ret ((q, eq) :: args, rs ++ rs')
  end.

(** [while(peek(ps, es, "&"))] of [parseline]. *)
Fixpoint back_loop (fuel : nat) (c : cmd) : PM cmd :=
  match fuel with
  | O => stall (Chan "parseline" 0)
  | S f =>
      let! b := peek [c_amp] in
      if (b : bool) then gettoken ;; back_loop f (BACK c)
      else ret c
  end.

(** The mutually recursive parser: of two calls without a byte consumed in
    between at most three follow each other, so [4 * (es + 1)] calls nest. *)
Fixpoint parseline (fuel : nat) : PM cmd :=
  match fuel with
  | O => stall (Chan "parseline" 0)
  | S f =>
      let! c := parsepipe f in
      let! c := back_loop loop_fuel c in
      let! b := peek [c_semi] in
      if (b : bool) then
        gettoken ;;
        let! r := parseline f in
        ret (LIST c r)
      else ret c
  end
with parsepipe (fuel : nat) : PM cmd :=
  match fuel with
  | O => stall (Chan "parsepipe" 0)
  | S f =>
      let! c := parseexec f in
      let! b := peek [c_bar] in
      if (b : bool) then
        gettoken ;;
        let! r := parsepipe f in
        ret (PIPE c r)
      else ret c
  end
with parseexec (fuel : nat) : PM cmd :=
  match fuel with
  | O => stall (Chan "parseexec" 0)
  | S f =>
      let! b := peek [c_lpar] in
      if (b : bool) then parseblock f
      else
        let! rs := redirs in
        let! (args, rs') := parseargs loop_fuel 0 in
        ret (foldl redircmd (EXEC args) (rs ++ rs'))
  end
with parseblock (fuel : nat) : PM cmd :=
  match fuel with
  | O => stall (Chan "parseblock" 0)
  | S f =>
      let! b := peek [c_lpar] in
      if negb b then panic "parseblock"
      else
        gettoken ;;
        let! c := parseline f in
        let! b := peek [c_rpar] in
        if negb b then panic "syntax - missing )"
        else
          gettoken ;;
          parseredirs c
  end.

Definition parse_fuel : nat := 4 * S (length buf).

(** [nulterminate]: the positions it stores a NUL to, in order. *)
Fixpoint nul_ends (c : cmd) : list nat :=
  match c with
  | EXEC argv => map snd argv
  | REDIR c' _ efile _ _ => nul_ends c' ++ [efile]
  | PIPE l r => nul_ends l ++ nul_ends r
  | LIST l r => nul_ends l ++ nul_ends r
  | BACK c' => nul_ends c'
  end.

Definition nulterminate (c : cmd) (m : list Z) : list Z := foldl (fun m p => <[p := 0]> m) m (nul_ends c).

(** [parsecmd]: the tree and the buffer (with its NUL) after [nulterminate]. *)
Definition parsecmd : PM (cmd * list Z) :=
  let! c := parseline parse_fuel in
  peek [] ;;
  let! s := get in
  if negb (s =? es)%nat then panic "syntax"
  else ret (c, nulterminate c (buf ++ [0])).
End parser.

(** [parsecmd(s)] on the bytes of a string. *)
Definition parse (buf : list Z) : outcome (cmd * list Z) := fst (parsecmd buf 0%nat).

(** ** Specifications *)

(** A string of the tree: a non-empty run of word characters that ends at the
    end of the line or at a character that is none. *)
Record token_ok (buf : list Z) (q eq : nat) : Prop := {
  tk_range : (q < eq <= length buf)%nat;
  tk_word : forall k, (q <= k < eq)%nat -> is_word (ch buf k) = true;
  tk_end : eq = length buf \/ is_word (ch buf eq) = false;
}.

Fixpoint tokens (c : cmd) : list (nat * nat) :=
  match c with
  | EXEC argv => argv
  | REDIR c' file efile _ _ => tokens c' ++ [(file, efile)]
  | PIPE l r => tokens l ++ tokens r
  | LIST l r => tokens l ++ tokens r
  | BACK c' => tokens c'
  end.

Definition tokens_ok (buf : list Z) (c : cmd) : Prop := forall q eq, (q, eq) ∈ tokens c -> token_ok buf q eq.

Definition parse_errors : list string :=
  ["missing file for redirection"; "syntax"; "too many args"; "parseblock"; "syntax - missing )"].

(** The parser returns with [Q] or stops with one of its messages. *)
Definition ends {A} (m : M nat A) (s : nat) (Q : A -> nat -> Prop) : Prop :=
  match m s with
  | (Ret a, s') => Q a s'
  | (Panic e, _) => e ∈ parse_errors
  | _ => False
  end.

(** ** Lemmas: characters and tokens *)
Section tokens.
Context (buf : list Z).
Hypothesis no_nul : forall k, (k < length buf)%nat -> ch buf k <> 0.
Abbreviation es := (es buf).
Abbreviation ch := (ch buf).

Lemma ch_end : ch es = 0.
Proof. unfold Sh.ch, Sh.es. apply nth_overflow. lia. Qed.

Lemma ch_nonzero k : ch k <> 0 -> (k < es)%nat.
Proof. intros H. destruct (decide (k < es)%nat); [done|]. destruct H. unfold Sh.ch. apply nth_overflow. unfold Sh.es in *. lia. Qed.

Lemma skip_spec f n s : (s + n = es)%nat -> let s' := skip buf f n s in
  (s <= s' <= es)%nat /\ (forall k, (s <= k < s')%nat -> f (ch k) = true) /\ (s' = es \/ f (ch s') = false).
Proof.
  revert s. induction n as [|n IH]; intros s Hs; cbn [skip].
  - split_and!; [lia|lia|intros; lia|left; lia].
  - destruct (f (ch s)) eqn:E; [|split_and!; [lia|lia|intros; lia|by right]].
    destruct (IH (S s) ltac:(lia)) as ([I1 I2] & I3 & I4). split_and!; [lia|lia| |done].
    intros k Hk. destruct (decide (k = s)) as [->|]; [done|apply I3; lia].
Qed.

Lemma skip_ws_spec s : (s <= es)%nat -> let s' := skip_ws buf s in
  (s <= s' <= es)%nat /\ is_ws (ch s') = false.
Proof.
  intros Hs s'. unfold s', skip_ws. destruct (skip_spec is_ws (es - s) s ltac:(lia)) as (H1 & _ & H2). split; [done|].
  destruct H2 as [->|]; [by rewrite ch_end|done].
Qed.

Lemma skip_ws_id s : is_ws (ch s) = false -> skip_ws buf s = s.
Proof. intros H. unfold skip_ws. destruct (es - s)%nat; [done|]. cbn. by rewrite H. Qed.

Lemma word_ws c : is_word c = true -> is_ws c = false.
Proof. unfold is_word, is_ws. by destruct (strchr whitespace c). Qed.

Lemma word_char c : c <> 0 -> is_ws c = false -> strchr [c_bar; c_lpar; c_rpar; c_semi; c_amp; c_lt] c = false -> (c =? c_gt) = false ->
  is_word c = true.
Proof.
  unfold is_word, is_ws. intros H0 -> HS HG. cbn. unfold strchr in *. apply bool_decide_eq_false in HS. apply Z.eqb_neq in HG.
  rewrite bool_decide_eq_false_2; [done|]. unfold symbols. set_solver.
Qed.

(** What [gettoken] returns: it moves forward, consumes something unless at the
    end, and words are tokens. *)
Lemma gettoken_spec s : (s <= es)%nat ->
  let '(r, q, eq, s') := gettoken_at buf s in
  (s <= s' <= es)%nat /\ q = skip_ws buf s /\ (ch q <> 0 -> r <> 0 /\ (s < s')%nat) /\ (ch q = 0 -> r = 0) /\
  (r = c_a -> token_ok buf q eq).
Proof.
  intros Hs. unfold gettoken_at. destruct (skip_ws_spec s Hs) as [H1 H2]. set (q := skip_ws buf s) in *.
  assert (HN : forall t, ch q <> 0 -> (q < t <= es)%nat -> (s <= skip_ws buf t <= es)%nat /\ (s < skip_ws buf t)%nat).
  { intros t Hq Ht. destruct (skip_ws_spec t ltac:(lia)) as [H3 _]. lia. }
  destruct (Z.eqb_spec (ch q) 0) as [Hz|Hz].
  { destruct (skip_ws_spec q ltac:(lia)) as [H3 _]. split_and!; try lia; try done. rewrite Hz. done. }
  pose proof (ch_nonzero q Hz) as Hq.
  destruct (strchr [c_bar; c_lpar; c_rpar; c_semi; c_amp; c_lt] (ch q)) eqn:ES.
  { destruct (HN (S q) Hz ltac:(lia)). split_and!; try lia; try done. intros E. exfalso. rewrite E in ES. done. }
  destruct (ch q =? c_gt) eqn:EG.
  - apply Z.eqb_eq in EG. destruct (Z.eqb_spec (ch (S q)) c_gt) as [E2|E2].
    + assert (S q < es)%nat by (apply ch_nonzero; rewrite E2; done). destruct (HN (S (S q)) Hz ltac:(lia)). split_and!; try lia; done.
    + destruct (HN (S q) Hz ltac:(lia)). split_and!; try lia; try done. rewrite EG. done.
  - assert (HW : is_word (ch q) = true) by (by apply word_char).
    destruct (skip_spec is_word (es - q) q ltac:(lia)) as (H3 & H4 & H5). set (eq := skip buf is_word (es - q) q) in *.
    assert (q < eq)%nat. { destruct (decide (q = eq)) as [E|]; [|lia]. rewrite <- E in H5. destruct H5 as [H5|H5]; [lia|congruence]. }
    destruct (HN eq Hz ltac:(lia)). split_and!; try lia; try done. intros _. split; [unfold Sh.es in *; lia|done|done].
Qed.

Lemma ends_bind {A B} (m : M nat A) (k : A -> M nat B) s Q :
  ends m s (fun a s' => ends (k a) s' Q) -> ends (bind m k) s Q.
Proof. unfold ends, bind. by destruct (m s) as [[a|?|?|?] s']. Qed.

Lemma ends_mono {A} (m : M nat A) s (P Q : A -> nat -> Prop) :
  ends m s P -> (forall a s', P a s' -> Q a s') -> ends m s Q.
Proof. unfold ends. destruct (m s) as [[a|?|?|?] s']; auto. Qed.

Lemma ends_peek toks s Q : (s <= es)%nat ->
  (forall s', (s <= s' <= es)%nat -> is_ws (ch s') = false ->
     Q (negb (ch s' =? 0) && strchr toks (ch s')) s') -> ends (peek buf toks) s Q.
Proof. intros Hs HQ. unfold ends, peek. destruct (skip_ws_spec s Hs). by apply HQ. Qed.

(** [gettoken] at a character that is no white space. *)
Lemma ends_token s Q : (s <= es)%nat ->
  (forall r q eq s', (s <= s' <= es)%nat -> (is_ws (ch s) = false -> ch s <> 0 -> (s < s')%nat) -> (r <> 0 -> (s < s')%nat) ->
     (r = c_a -> token_ok buf q eq) -> Q (r, q, eq) s') -> ends (gettoken buf) s Q.
Proof.
  intros Hs HQ. unfold ends, gettoken. pose proof (gettoken_spec s Hs) as G. destruct (gettoken_at buf s) as [[[r q] eq] s'].
  destruct G as (G1 & G2 & G3 & G4 & G5). apply HQ; [done| | |done].
  - intros Hw Hc. rewrite skip_ws_id in G2 by done. subst q. by apply G3.
  - intros Hr. apply G3. intros Hc. by apply Hr, G4.
Qed.

Lemma ends_redirs fuel s : (s <= es)%nat -> (es - s < fuel)%nat ->
  ends (parseredirs_loop buf fuel) s (fun rs s' => (s <= s' <= es)%nat /\
    forall q eq mode fd, (q, eq, mode, fd) ∈ rs -> token_ok buf q eq).
Proof.
  revert s. induction fuel as [|fuel IH]; intros s Hs Hf; [lia|]. cbn [parseredirs_loop].
  apply ends_bind, ends_peek; [done|]. intros s1 H1 Hw. destruct (Z.eqb_spec (ch s1) 0) as [Hz|Hz]; cbn [negb andb].
  { split; [lia|]. set_solver. }
  destruct (strchr _ (ch s1)); cbn [negb]; [|split; [lia|set_solver]].
  apply ends_bind, ends_token; [lia|]. intros tok q0 eq0 s2 H2 H2' _ _. specialize (H2' Hw Hz).
  apply ends_bind, ends_token; [lia|]. intros t q eq s3 H3 _ _ HT.
  destruct (Z.eqb_spec t c_a) as [->|]; cbn [negb]; [|cbn; set_solver]. specialize (HT eq_refl).
  apply ends_bind. eapply ends_mono; [apply IH; lia|]. intros rest s4 [H4 HR].
  assert (HC : forall m fd, (s <= s4 <= es)%nat /\ forall q' eq' m' fd', (q', eq', m', fd') ∈ (q, eq, m, fd) :: rest -> token_ok buf q' eq').
  { intros m fd. split; [lia|]. intros q' eq' m' fd' [E|E]%elem_of_cons; [by simplify_eq|by eapply HR]. }
  repeat case_match; cbn; try apply HC. split; [lia|done].
Qed.

Lemma ends_ret {A} (a : A) s Q : Q a s -> ends (ret a) s Q.
Proof. done. Qed.

Lemma ends_args fuel argc s : (s <= es)%nat -> (es - s < fuel)%nat ->
  ends (parseargs buf fuel argc) s (fun ar s' => (s <= s' <= es)%nat /\
    (forall q eq, (q, eq) ∈ fst ar -> token_ok buf q eq) /\
    forall q eq mode fd, (q, eq, mode, fd) ∈ snd ar -> token_ok buf q eq).
Proof.
  revert argc s. induction fuel as [|fuel IH]; intros argc s Hs Hf; [lia|]. cbn [parseargs].
  apply ends_bind, ends_peek; [done|]. intros s1 H1 Hw. destruct (negb _ && _); [cbn; split_and!; [lia|lia|set_solver|set_solver]|].
  apply ends_bind, ends_token; [lia|]. intros tok q eq s2 H2 _ H2' HT.
  destruct (Z.eqb_spec tok 0) as [->|Hz]; [cbn; split_and!; [lia|lia|set_solver|set_solver]|]. specialize (H2' Hz).
  destruct (Z.eqb_spec tok c_a) as [->|]; cbn [negb]; [|cbn; set_solver]. specialize (HT eq_refl).
  destruct (MAXARGS <=? argc + 1); [cbn; set_solver|].
  apply ends_bind. eapply ends_mono; [apply ends_redirs; [lia|unfold loop_fuel, Sh.es in *; lia]|]. intros rs s3 [H3 HR].
  apply ends_bind. eapply ends_mono; [apply IH; lia|]. intros [args rs'] s4 (H4 & HA & HR'). apply ends_ret. cbn [fst snd] in *.
  split_and!; [lia|lia| |].
  - intros q' eq' [E|E]%elem_of_cons; [by simplify_eq|auto].
  - intros q' eq' m fd [E|E]%elem_of_app; eauto.
Qed.

Lemma tokens_redirs c rs :
  tokens_ok buf c -> (forall q eq mode fd, (q, eq, mode, fd) ∈ rs -> token_ok buf q eq) -> tokens_ok buf (foldl redircmd c rs).
Proof.
  revert c. induction rs as [|[[[q eq] m] fd] rs IH]; intros c HC HR; [done|]. cbn [foldl]. apply IH.
  - intros q' eq' H. cbn in H. apply elem_of_app in H as [H|H%list_elem_of_singleton]; [by apply HC|].
    simplify_eq. apply (HR q eq m fd). by left.
  - intros q' eq' m' fd' H. apply (HR q' eq' m' fd'). by right.
Qed.

Lemma ends_back fuel c s : (s <= es)%nat -> (es - s < fuel)%nat -> tokens_ok buf c ->
  ends (back_loop buf fuel c) s (fun c' s' => (s <= s' <= es)%nat /\ tokens_ok buf c').
Proof.
  revert c s. induction fuel as [|fuel IH]; intros c s Hs Hf HC; [lia|]. cbn [back_loop].
  apply ends_bind, ends_peek; [done|]. intros s1 H1 Hw. destruct (Z.eqb_spec (ch s1) 0) as [Hz|Hz]; cbn [negb andb]; [split; [lia|done]|].
  destruct (strchr _ (ch s1)); [|split; [lia|done]].
  apply ends_bind, ends_token; [lia|]. intros r q eq s2 H2 H2' _ _. specialize (H2' Hw Hz).
  eapply ends_mono; [apply IH; [lia|lia|done]|]. intros c' s' [? ?]. split; [lia|done].
Qed.

Lemma tokens_ok_app c l r : tokens c = tokens l ++ tokens r -> tokens_ok buf l -> tokens_ok buf r -> tokens_ok buf c.
Proof. intros E Hl Hr q eq H. rewrite E in H. apply elem_of_app in H as [H|H]; auto. Qed.

(** The four parsing functions, with the fuel their recursion needs. *)
Lemma ends_parser n : forall s, (s <= es)%nat ->
  (4 * (es - s) + 4 <= n -> ends (parseline buf n) s (fun c s' => (s <= s' <= es)%nat /\ tokens_ok buf c))%nat /\
  (4 * (es - s) + 3 <= n -> ends (parsepipe buf n) s (fun c s' => (s <= s' <= es)%nat /\ tokens_ok buf c))%nat /\
  (4 * (es - s) + 2 <= n -> ends (parseexec buf n) s (fun c s' => (s <= s' <= es)%nat /\ tokens_ok buf c))%nat /\
  (4 * (es - s) + 1 <= n -> ends (parseblock buf n) s (fun c s' => (s <= s' <= es)%nat /\ tokens_ok buf c))%nat.
Proof.
  induction n as [|n IH]; intros s Hs; [split_and!; lia|].
  split_and!; intros Hn; cbn [parseline parsepipe parseexec parseblock].
  - apply ends_bind. eapply ends_mono; [apply (IH s Hs); lia|]. intros c1 s1 [H1 T1].
    apply ends_bind. eapply ends_mono; [apply ends_back; [lia|unfold loop_fuel, Sh.es in *; lia|exact T1]|]. intros c2 s2 [H2 T2].
    apply ends_bind, ends_peek; [lia|]. intros s3 H3 Hw. destruct (Z.eqb_spec (ch s3) 0) as [Hz|Hz]; cbn [negb andb]; [split; [lia|done]|].
    destruct (strchr _ (ch s3)); [|split; [lia|done]].
    apply ends_bind, ends_token; [lia|]. intros r q eq s4 H4 H4' _ _. specialize (H4' Hw Hz).
    apply ends_bind. eapply ends_mono; [apply (IH s4 ltac:(lia)); lia|]. intros c5 s5 [H5 T5]. apply ends_ret. split; [lia|]. by eapply tokens_ok_app.
  - apply ends_bind. eapply ends_mono; [apply (IH s Hs); lia|]. intros c1 s1 [H1 T1].
    apply ends_bind, ends_peek; [lia|]. intros s3 H3 Hw. destruct (Z.eqb_spec (ch s3) 0) as [Hz|Hz]; cbn [negb andb]; [split; [lia|done]|].
    destruct (strchr _ (ch s3)); [|split; [lia|done]].
    apply ends_bind, ends_token; [lia|]. intros r q eq s4 H4 H4' _ _. specialize (H4' Hw Hz).
    apply ends_bind. eapply ends_mono; [apply (IH s4 ltac:(lia)); lia|]. intros c5 s5 [H5 T5]. apply ends_ret. split; [lia|]. by eapply tokens_ok_app.
  - apply ends_bind, ends_peek; [lia|]. intros s1 H1 Hw. destruct (negb _ && _).
    { eapply ends_mono; [apply (IH s1 ltac:(lia)); lia|]. intros c s' [? ?]. split; [lia|done]. }
    apply ends_bind. eapply ends_mono; [apply ends_redirs; [lia|unfold loop_fuel, Sh.es in *; lia]|]. intros rs s2 [H2 HR].
    apply ends_bind. eapply ends_mono; [apply ends_args; [lia|unfold loop_fuel, Sh.es in *; lia]|]. intros [args rs'] s3 (H3 & HA & HR').
    apply ends_ret. split; [lia|]. apply tokens_redirs; [exact HA|]. intros q eq m fd [H|H]%elem_of_app; eauto.
  - apply ends_bind, ends_peek; [lia|]. intros s1 H1 Hw. destruct (Z.eqb_spec (ch s1) 0) as [Hz|Hz]; cbn [negb andb]; [cbn; set_solver|].
    destruct (strchr _ (ch s1)); cbn [negb]; [|cbn; set_solver].
    apply ends_bind, ends_token; [lia|]. intros r q eq s2 H2 H2' _ _. specialize (H2' Hw Hz).
    apply ends_bind. eapply ends_mono; [apply (IH s2 ltac:(lia)); lia|]. intros c3 s3 [H3 T3].
    apply ends_bind, ends_peek; [lia|]. intros s4 H4 Hw4. destruct (negb _); [cbn; set_solver|].
    apply ends_bind, ends_token; [lia|]. intros r5 q5 eq5 s5 H5 _ _ _. unfold parseredirs.
    apply ends_bind. eapply ends_mono; [apply ends_redirs; [lia|unfold loop_fuel, Sh.es in *; lia]|]. intros rs s6 [H6 HR].
    apply ends_ret. split; [lia|]. by apply tokens_redirs.
Qed.

(** ** Lemmas: [nulterminate] *)
Lemma nul_ends_tokens c p : p ∈ nul_ends c <-> exists q, (q, p) ∈ tokens c.
Proof.
  induction c; cbn.
  - rewrite list_elem_of_fmap. split; [intros ([q e] & -> & H); by exists q|intros (q & H); by exists (q, p)].
  - rewrite elem_of_app, IHc, list_elem_of_singleton. setoid_rewrite elem_of_app. setoid_rewrite list_elem_of_singleton. naive_solver.
  - rewrite elem_of_app, IHc1, IHc2. setoid_rewrite elem_of_app. naive_solver.
  - rewrite elem_of_app, IHc1, IHc2. setoid_rewrite elem_of_app. naive_solver.
  - done.
Qed.

Lemma store_nuls l (m : list Z) k :
  foldl (fun m p => <[p := 0]> m) m l !! k = if decide (k ∈ l /\ (k < length m)%nat) then Some 0 else m !! k.
Proof.
  revert m. induction l as [|p l IH]; intros m; [by rewrite decide_False by (intros [?%elem_of_nil _]; done)|].
  cbn [foldl]. rewrite IH, length_insert. destruct (decide (k ∈ l /\ (k < length m)%nat)) as [H|H].
  - rewrite decide_True; [done|]. destruct H. split; [by right|done].
  - destruct (decide (k = p)) as [->|Hne].
    + destruct (decide (p < length m)%nat).
      * rewrite list_lookup_insert_eq by done. rewrite decide_True; [done|]. split; [by left|done].
      * rewrite list_insert_ge by lia. by rewrite decide_False by tauto.
    + rewrite list_lookup_insert_ne by done. rewrite decide_False; [done|]. rewrite elem_of_cons. tauto.
Qed.

(** Every string of the tree ends up NUL-terminated and intact. *)
Lemma nulterminate_spec c q eq :
  tokens_ok buf c -> (q, eq) ∈ tokens c -> let m := nulterminate c (buf ++ [0]) in
  m !! eq = Some 0 /\ forall k, (q <= k < eq)%nat -> m !! k = buf !! k /\ ch k <> 0.
Proof.
  intros HC Ht m. pose proof (HC q eq Ht) as [T1 T2 T3]. unfold m, nulterminate. split.
  - rewrite store_nuls, decide_True; [done|]. split; [apply nul_ends_tokens; by exists q|]. rewrite length_app. cbn. lia.
  - intros k Hk. split; [|apply no_nul; lia]. rewrite store_nuls, decide_False, lookup_app_l; [done|lia|].
    intros [(q' & Hq')%nul_ends_tokens _]. destruct (HC q' k Hq') as [_ _ [E|E]]; [lia|]. rewrite T2 in E by done. done.
Qed.
End tokens.

(** ** The grammar

    Command lines as derivations of the grammar the parser is written for, how
    they are spelled, and the tree each stands for. *)
Inductive redir := RIn (f : list Z) | ROut (f : list Z) | RApp (f : list Z).

Inductive gline :=
| GLine (p : gpipe) (amps : nat)
| GSeq (p : gpipe) (amps : nat) (l : gline)
with gpipe :=
| GPipe (a : gatom)
| GBar (a : gatom) (p : gpipe)
with gatom :=
| GSimple (rs : list redir) (args : list (list Z * list redir))
| GParen (l : gline) (rs : list redir).

(** The tree with its strings in place of pointers. *)
Inductive scmd :=
| SExec (argv : list (list Z))
| SRedir (c : scmd) (file : list Z) (mode fd : Z)
| SPipe (left right : scmd)
| SList (left right : scmd)
| SBack (c : scmd).

Definition p_word (w : list Z) : list Z := c_sp :: w.
Definition p_redir (r : redir) : list Z :=
  match r with
  | RIn f => c_sp :: c_lt :: p_word f
  | ROut f => c_sp :: c_gt :: p_word f
  | RApp f => c_sp :: c_gt :: c_gt :: p_word f
  end.
Definition p_redirs (rs : list redir) : list Z := concat (map p_redir rs).
Fixpoint p_args (args : list (list Z * list redir)) : list Z :=
  match args with
  | [] => []
  | (w, rs) :: args' => p_word w ++ p_redirs rs ++ p_args args'
  end.
Fixpoint p_amps (n : nat) : list Z := match n with O => [] | S n' => c_sp :: c_amp :: p_amps n' end.

Fixpoint p_line (l : gline) : list Z :=
  match l with
  | GLine p n => p_pipe p ++ p_amps n
  | GSeq p n l' => p_pipe p ++ p_amps n ++ c_sp :: c_semi :: p_line l'
  end
with p_pipe (p : gpipe) : list Z :=
  match p with
  | GPipe a => p_atom a
  | GBar a p' => p_atom a ++ c_sp :: c_bar :: p_pipe p'
  end
with p_atom (a : gatom) : list Z :=
  match a with
  | GSimple rs args => p_redirs rs ++ p_args args
  | GParen l rs => c_sp :: c_lpar :: p_line l ++ c_sp :: c_rpar :: p_redirs rs
  end.

Definition t_redir (c : scmd) (r : redir) : scmd :=
  match r with
  | RIn f => SRedir c f O_RDONLY 0
  | ROut f => SRedir c f (Z.lor (Z.lor O_WRONLY O_CREATE) O_TRUNC) 1
  | RApp f => SRedir c f (Z.lor O_WRONLY O_CREATE) 1
  end.

Fixpoint t_line (l : gline) : scmd :=
  match l with
  | GLine p n => Nat.iter n SBack (t_pipe p)
  | GSeq p n l' => SList (Nat.iter n SBack (t_pipe p)) (t_line l')
  end
with t_pipe (p : gpipe) : scmd :=
  match p with
  | GPipe a => t_atom a
  | GBar a p' => SPipe (t_atom a) (t_pipe p')
  end
with t_atom (a : gatom) : scmd :=
  match a with
  | GSimple rs args => foldl t_redir (SExec (map fst args)) (rs ++ concat (map snd args))
  | GParen l rs => foldl t_redir (t_line l) rs
  end.

Definition word_okb (w : list Z) : bool := negb (bool_decide (w = [])) && forallb (fun c => is_word c && negb (c =? 0)) w.
Definition redir_okb (r : redir) : bool := match r with RIn f | ROut f | RApp f => word_okb f end.

Fixpoint wf_line (l : gline) : bool :=
  match l with
  | GLine p _ => wf_pipe p
  | GSeq p _ l' => wf_pipe p && wf_line l'
  end
with wf_pipe (p : gpipe) : bool :=
  match p with
  | GPipe a => wf_atom a
  | GBar a p' => wf_atom a && wf_pipe p'
  end
with wf_atom (a : gatom) : bool :=
  match a with
  | GSimple rs args => forallb redir_okb rs && forallb (fun wr => word_okb (fst wr) && forallb redir_okb (snd wr)) args &&
      (length args <=? 9)%nat
  | GParen l rs => wf_line l && forallb redir_okb rs
  end.

(** The strings of a parsed tree. *)
Definition sub (buf : list Z) (q eq : nat) : list Z := take (eq - q) (drop q buf).
Fixpoint denote (buf : list Z) (c : cmd) : scmd :=
  match c with
  | EXEC argv => SExec (map (fun t => sub buf (fst t) (snd t)) argv)
  | REDIR c' f ef m fd => SRedir (denote buf c') (sub buf f ef) m fd
  | PIPE l r => SPipe (denote buf l) (denote buf r)
  | LIST l r => SList (denote buf l) (denote buf r)
  | BACK c' => SBack (denote buf c')
  end.

(** ** Lemmas: reading a spelled line *)
Fixpoint strip (l : list Z) : list Z :=
  match l with
  | [] => []
  | c :: l' => if is_ws c then strip l' else l
  end.

Lemma strip_strip l : strip (strip l) = strip l.
Proof. induction l as [|c l IH]; [done|]. cbn. destruct (is_ws c) eqn:E; [done|]. cbn. by rewrite E. Qed.

Lemma strip_length l : (length (strip l) <= length l)%nat.
Proof. induction l as [|c l IH]; [done|]. cbn. destruct (is_ws c); cbn; lia. Qed.

(** The first character that is no white space, 0 at the end. *)
Definition hd0 (T : list Z) : Z := hd 0 (strip T).

Lemma nth_hd_drop (l : list Z) s : nth s l 0 = hd 0 (drop s l).
Proof. revert s. induction l as [|c l IH]; intros [|s]; [done|done|done|apply IH]. Qed.

Section spelled.
Context (buf : list Z).
Abbreviation es := (es buf).
Abbreviation ch := (ch buf).

(** The parser is at [T], up to white space. *)
Definition at_text (s : nat) (T : list Z) : Prop := (s <= es)%nat /\ strip (drop s buf) = strip T.

Lemma ch_hd s : ch s = hd 0 (drop s buf).
Proof. apply nth_hd_drop. Qed.

Lemma drop_skip n s : (s + n = es)%nat -> drop (skip buf is_ws n s) buf = strip (drop s buf).
Proof.
  revert s. induction n as [|n IH]; intros s Hs; cbn [skip].
  - rewrite drop_ge by (unfold Sh.es in *; lia). done.
  - destruct (lookup_lt_is_Some_2 buf s) as [c Hc]; [unfold Sh.es in *; lia|]. rewrite (drop_S buf c s) by done.
    assert (E : ch s = c) by (rewrite ch_hd, (drop_S buf c s) by done; done). rewrite E. cbn [strip]. destruct (is_ws c).
    + rewrite IH by lia. done.
    + by rewrite (drop_S buf c s).
Qed.

Lemma drop_skip_ws s : (s <= es)%nat -> drop (skip_ws buf s) buf = strip (drop s buf).
Proof. intros Hs. apply drop_skip. lia. Qed.

Lemma at_skip s T : at_text s T -> at_text (skip_ws buf s) T /\ drop (skip_ws buf s) buf = strip T /\ (s <= skip_ws buf s)%nat /\
  ch (skip_ws buf s) = hd0 T.
Proof.
  intros [Hs HT]. pose proof (drop_skip_ws s Hs) as HD. destruct (skip_ws_spec buf s Hs) as [[H1 H2] _].
  split_and!; [split; [done|by rewrite HD, strip_strip]|congruence|done|]. rewrite ch_hd, HD, HT. done.
Qed.

Lemma peek_at toks s T : at_text s T ->
  peek buf toks s = (Ret (negb (hd0 T =? 0) && strchr toks (hd0 T)), skip_ws buf s) /\
  at_text (skip_ws buf s) T /\ (s <= skip_ws buf s)%nat.
Proof. intros H. destruct (at_skip s T H) as (H1 & H2 & H3 & H4). unfold peek. by rewrite H4. Qed.

Lemma skip_word w T n q :
  drop q buf = w ++ T -> forallb is_word w = true -> is_word (hd 0 T) = false \/ T = [] -> n = (es - q)%nat ->
  skip buf is_word n q = (q + length w)%nat.
Proof.
  revert q n. induction w as [|c w IH]; intros q n HD Hw HT ->.
  - cbn in *. rewrite Nat.add_0_r. destruct (es - q)%nat eqn:En; [done|]. cbn. rewrite ch_hd, HD.
    destruct HT as [->| ->]; [done|]. exfalso. assert (length (drop q buf) = 0%nat) by (by rewrite HD). rewrite length_drop in H. unfold Sh.es in *. lia.
  - cbn in Hw. apply andb_true_iff in Hw as [Hc Hw].
    assert (Hq : (q < length buf)%nat). { assert (H : length (drop q buf) = length ((c :: w) ++ T)) by (by rewrite HD). rewrite length_drop in H. cbn in H. lia. }
    destruct (lookup_lt_is_Some_2 buf q Hq) as [c' Hc']. rewrite (drop_S _ c') in HD by done. injection HD as -> HD.
    replace (es - q)%nat with (S (es - S q)) by (unfold Sh.es in *; lia). cbn [skip].
    rewrite ch_hd, (drop_S _ c) by done. cbn [hd]. rewrite Hc, (IH (S q) _ HD Hw HT eq_refl). cbn. lia.
Qed.
(** What follows a token in a spelled line. *)
Definition spaced (T : list Z) : Prop := T = [] \/ exists T', T = c_sp :: T'.

Lemma spaced_sep T : spaced T -> is_word (hd 0 T) = false \/ T = [].
Proof. intros [->|(T' & ->)]; [by right|by left]. Qed.

Lemma word_first w T : word_okb w = true -> exists c w', w = c :: w' /\ is_word c = true /\ c <> 0 /\ strip (p_word w ++ T) = w ++ T /\
  forallb is_word w = true.
Proof.
  unfold word_okb. intros [Hn Hw]%andb_true_iff. destruct w as [|c w]; [done|]. cbn in Hw. apply andb_true_iff in Hw as [Hc Hw].
  apply andb_true_iff in Hc as [Hc Hc0]. exists c, w. apply negb_true_iff, Z.eqb_neq in Hc0. split_and!; [done|done|done| |].
  - cbn. by rewrite (word_ws c Hc).
  - cbn. rewrite Hc. cbn. clear -Hw. induction w as [|d w IH]; [done|]. cbn in *. apply andb_true_iff in Hw as [Hd Hw].
    apply andb_true_iff in Hd as [-> _]. by apply IH.
Qed.

Lemma word_not_sym c : is_word c = true -> strchr symbols c = false.
Proof. unfold is_word. by destruct (strchr symbols c), (strchr whitespace c). Qed.

(** Advancing over [n] characters and the white space after them. *)
Lemma at_advance q n l T : (q <= es)%nat -> drop q buf = l ++ T -> length l = n -> (1 <= n)%nat ->
  at_text (skip_ws buf (q + n)) T /\ (q < skip_ws buf (q + n))%nat.
Proof.
  intros Hq HD HL Hn. assert (HE : (q + n <= es)%nat).
  { assert (H : length (drop q buf) = length (l ++ T)) by (by rewrite HD). rewrite length_drop, length_app in H. unfold Sh.es in *. lia. }
  assert (HD' : drop (q + n) buf = T) by (rewrite <- drop_drop, HD, <- HL; by rewrite drop_app_length).
  destruct (at_skip (q + n) T) as (H1 & _ & H2 & _); [split; [done|by rewrite HD']|]. split; [done|lia].
Qed.

Lemma get_word s w T : at_text s (p_word w ++ T) -> word_okb w = true -> spaced T ->
  exists q eq s', gettoken buf s = (Ret (c_a, q, eq), s') /\ at_text s' T /\ sub buf q eq = w /\ (s < s')%nat.
Proof.
  intros HA Hw HT. destruct (word_first w T Hw) as (c & w' & Ew & Hc & Hc0 & HS & HF).
  destruct (at_skip s _ HA) as ([H1 _] & H2 & H3 & H4). set (q := skip_ws buf s) in *. unfold hd0 in H4. rewrite HS in H2, H4.
  rewrite Ew in H4. cbn in H4. pose proof (skip_word w T (es - q) q H2 HF (spaced_sep T HT) eq_refl) as HK.
  destruct (at_advance q (length w) w T H1 H2 eq_refl) as [H5 H6]; [rewrite Ew; cbn; lia|].
  exists q, (q + length w)%nat, (skip_ws buf (q + length w)). split_and!; [|done| |lia].
  - unfold gettoken, gettoken_at. fold q. rewrite H4, HK. rewrite (proj2 (Z.eqb_neq c 0)) by done.
    pose proof (word_not_sym c Hc) as Hsym. unfold strchr in *. apply bool_decide_eq_false in Hsym. unfold symbols in Hsym.
    rewrite bool_decide_eq_false_2 by set_solver. rewrite (proj2 (Z.eqb_neq c c_gt)) by set_solver. done.
  - unfold sub. replace (q + length w - q)%nat with (length w) by lia. rewrite H2. apply take_app_length.
Qed.

Definition one_char (c : Z) : bool := strchr [c_bar; c_lpar; c_rpar; c_semi; c_amp; c_lt] c.

Lemma one_char_facts c : one_char c = true -> c <> 0 /\ is_ws c = false /\ c <> c_gt.
Proof.
  unfold one_char, strchr. intros H%bool_decide_eq_true.
  repeat (apply elem_of_cons in H as [->|H]; [done|]). by apply elem_of_nil in H.
Qed.

Lemma get_sym s c T : at_text s (c_sp :: c :: T) -> one_char c = true ->
  exists q eq s', gettoken buf s = (Ret (c, q, eq), s') /\ at_text s' T /\ (s < s')%nat.
Proof.
  intros HA Hc. destruct (one_char_facts c Hc) as (Hc0 & Hw & _). destruct (at_skip s _ HA) as ([H1 _] & H2 & H3 & H4).
  set (q := skip_ws buf s) in *. unfold hd0 in H4. change (strip (c_sp :: c :: T)) with (strip (c :: T)) in *. cbn [strip] in H2, H4.
  rewrite Hw in H2, H4. cbn in H4. destruct (at_advance q 1 [c] T H1 H2 eq_refl ltac:(lia)) as [H5 H6]. rewrite Nat.add_1_r in *.
  exists q, (S q), (skip_ws buf (S q)). split_and!; [|done|lia].
  unfold gettoken, gettoken_at. fold q. rewrite H4. rewrite (proj2 (Z.eqb_neq c 0)) by done. fold (one_char c). by rewrite Hc.
Qed.

Lemma get_gt s T : at_text s (c_sp :: c_gt :: T) -> spaced T ->
  exists q eq s', gettoken buf s = (Ret (c_gt, q, eq), s') /\ at_text s' T /\ (s < s')%nat.
Proof.
  intros HA HT. destruct (at_skip s _ HA) as ([H1 _] & H2 & H3 & H4). set (q := skip_ws buf s) in *.
  change (strip (c_sp :: c_gt :: T)) with (c_gt :: T) in H2. change (hd0 (c_sp :: c_gt :: T)) with c_gt in H4.
  destruct (at_advance q 1 [c_gt] T H1 H2 eq_refl ltac:(lia)) as [H5 H6]. rewrite Nat.add_1_r in *.
  exists q, (S q), (skip_ws buf (S q)). split_and!; [|done|lia].
  assert (HN : (ch (S q) =? c_gt) = false).
  { rewrite ch_hd. replace (S q) with (q + 1)%nat by lia. rewrite <- drop_drop, H2. cbn. by destruct HT as [->|(T' & ->)]. }
  unfold gettoken, gettoken_at. fold q. rewrite H4. cbn [Z.eqb c_gt Pos.eqb]. change (ch (S q) =? 62) with (ch (S q) =? c_gt). by rewrite HN.
Qed.

Lemma get_gtgt s T : at_text s (c_sp :: c_gt :: c_gt :: T) ->
  exists q eq s', gettoken buf s = (Ret (c_plus, q, eq), s') /\ at_text s' T /\ (s < s')%nat.
Proof.
  intros HA. destruct (at_skip s _ HA) as ([H1 _] & H2 & H3 & H4). set (q := skip_ws buf s) in *.
  change (strip (c_sp :: c_gt :: c_gt :: T)) with (c_gt :: c_gt :: T) in H2. change (hd0 (c_sp :: c_gt :: c_gt :: T)) with c_gt in H4.
  destruct (at_advance q 2 [c_gt; c_gt] T H1 H2 eq_refl ltac:(lia)) as [H5 H6]. replace (q + 2)%nat with (S (S q)) in * by lia.
  exists q, (S (S q)), (skip_ws buf (S (S q))). split_and!; [|done|lia].
  assert (HN : (ch (S q) =? c_gt) = true).
  { rewrite ch_hd. replace (S q) with (q + 1)%nat by lia. rewrite <- drop_drop, H2. done. }
  unfold gettoken, gettoken_at. fold q. rewrite H4. cbn [Z.eqb c_gt Pos.eqb]. change (ch (S q) =? 62) with (ch (S q) =? c_gt). by rewrite HN.
Qed.

(** Redirections as the parser returns them. *)
Definition redir_is (t : nat * nat * Z * Z) (r : redir) : Prop :=
  forall c, denote buf (redircmd c t) = t_redir (denote buf c) r.

Lemma spaced_redirs rs T : spaced T -> spaced (p_redirs rs ++ T).
Proof. intros HT. destruct rs as [|[f|f|f] rs]; [done| | |]; right; by eexists. Qed.

Lemma parse_redirs rs T s fuel :
  at_text s (p_redirs rs ++ T) -> forallb redir_okb rs = true -> spaced T -> strchr [c_lt; c_gt] (hd0 T) = false -> (es - s < fuel)%nat ->
  exists ts s', parseredirs_loop buf fuel s = (Ret ts, s') /\ at_text s' T /\ Forall2 redir_is ts rs /\ (s <= s')%nat.
Proof.
  revert s fuel. induction rs as [|r rs IH]; intros s fuel HA Hok HT Hh Hf; (destruct fuel as [|fuel]; [lia|]).
  - destruct (peek_at [c_lt; c_gt] s T HA) as (P1 & P2 & P3). exists [], (skip_ws buf s). split_and!; [|done|constructor|done].
    cbn [parseredirs_loop]. unfold bind. rewrite P1, Hh, andb_false_r. done.
  - cbn in Hok. apply andb_true_iff in Hok as [Hr Hok]. change (p_redirs (r :: rs)) with (p_redir r ++ p_redirs rs) in HA.
    rewrite <- app_assoc in HA. pose proof (spaced_redirs rs T HT) as HS. cbn [parseredirs_loop].
    destruct (peek_at [c_lt; c_gt] s _ HA) as (P1 & P2 & P3).
    assert (HP : negb (hd0 (p_redir r ++ p_redirs rs ++ T) =? 0) && strchr [c_lt; c_gt] (hd0 (p_redir r ++ p_redirs rs ++ T)) = true) by (by destruct r).
    rewrite HP in P1. unfold bind at 1. rewrite P1. cbn [negb].
    assert (HG : exists tok q eq s2 f, gettoken buf (skip_ws buf s) = (Ret (tok, q, eq), s2) /\ at_text s2 (p_word f ++ p_redirs rs ++ T) /\
      (skip_ws buf s < s2)%nat /\ word_okb f = true /\
      (tok = c_lt /\ r = RIn f \/ tok = c_gt /\ r = ROut f \/ tok = c_plus /\ r = RApp f)).
    { destruct r as [f|f|f].
      - destruct (get_sym _ c_lt (p_word f ++ p_redirs rs ++ T) P2 eq_refl) as (q & eq & s2 & ? & ? & ?). exists c_lt, q, eq, s2, f. split_and!; auto.
      - destruct (get_gt _ (p_word f ++ p_redirs rs ++ T) P2) as (q & eq & s2 & ? & ? & ?); [right; by eexists|].
        exists c_gt, q, eq, s2, f. split_and!; auto 10.
      - destruct (get_gtgt _ (p_word f ++ p_redirs rs ++ T) P2) as (q & eq & s2 & ? & ? & ?). exists c_plus, q, eq, s2, f. split_and!; auto 10. }
    destruct HG as (tok & q0 & eq0 & s2 & f & G1 & G2 & G3 & G4 & G5). unfold bind at 1. rewrite G1.
    destruct (get_word s2 f _ G2 G4 HS) as (q & eq & s3 & W1 & W2 & W3 & W4). unfold bind at 1. rewrite W1. cbn [Z.eqb Pos.eqb c_a negb].
    pose proof (proj1 W2). destruct (IH s3 fuel W2 Hok HT Hh ltac:(lia)) as (ts & s4 & L1 & L2 & L3 & L4). unfold bind. rewrite L1.
    destruct G5 as [[-> ->]|[[-> ->]|[-> ->]]]; cbn [Z.eqb Pos.eqb c_lt c_gt c_plus]; (eexists _, s4; split_and!; [done|done| |lia]);
      (constructor; [|done]); intros c; cbn; by rewrite W3.
Qed.
(** What ends a simple command. *)
Definition stops (T : list Z) : Prop := strip T = [] \/ strchr [c_bar; c_rpar; c_amp; c_semi] (hd0 T) = true.

Lemma stops_facts T : stops T ->
  (negb (hd0 T =? 0) && strchr [c_bar; c_rpar; c_amp; c_semi] (hd0 T) = true \/ strip T = []) /\
  strchr [c_lt; c_gt] (hd0 T) = false /\ strchr [c_lpar] (hd0 T) = false.
Proof.
  intros [H|H].
  - unfold hd0. rewrite H. split_and!; [by right|done|done].
  - unfold strchr in H. apply bool_decide_eq_true in H. unfold strchr.
    repeat (apply elem_of_cons in H as [->|H]; [split_and!; [by left|done|done]|]). by apply elem_of_nil in H.
Qed.

Lemma get_end s T : at_text s T -> strip T = [] -> exists q eq s', gettoken buf s = (Ret (0, q, eq), s') /\ at_text s' T /\ (s <= s')%nat.
Proof.
  intros HA HT. destruct (at_skip s T HA) as (H1 & H2 & H3 & H4). destruct (at_skip _ T H1) as (H5 & _ & H6 & _).
  unfold hd0 in H4. rewrite HT in H4. cbn in H4. eexists _, _, _. split_and!; [|exact H5|lia].
  unfold gettoken, gettoken_at. by rewrite H4.
Qed.

Lemma hd0_word w T : word_okb w = true -> is_word (hd0 (p_word w ++ T)) = true /\ hd0 (p_word w ++ T) <> 0.
Proof. intros Hw. destruct (word_first w T Hw) as (c & w' & -> & Hc & H0 & HS & _). unfold hd0. by rewrite HS. Qed.

Lemma word_strchr c l : is_word c = true -> (forall d, d ∈ l -> d ∈ symbols) -> strchr l c = false.
Proof.
  intros Hw Hl. pose proof (word_not_sym c Hw) as H. unfold strchr in *. apply bool_decide_eq_false in H.
  apply bool_decide_eq_false. auto.
Qed.

Definition args_ok (args : list (list Z * list redir)) : bool := forallb (fun wr => word_okb (fst wr) && forallb redir_okb (snd wr)) args.

Lemma spaced_args args T : spaced T -> spaced (p_args args ++ T).
Proof. intros HT. destruct args as [|[w rs] args]; [done|]. right. by eexists. Qed.

Lemma args_first args T : args_ok args = true -> stops T ->
  strchr [c_lt; c_gt] (hd0 (p_args args ++ T)) = false /\ strchr [c_lpar] (hd0 (p_args args ++ T)) = false.
Proof.
  intros Ha HT. destruct args as [|[w rs] args]; [cbn [p_args app]; by destruct (stops_facts T HT) as (_ & ? & ?)|].
  cbn in Ha. apply andb_true_iff in Ha as [[Hw _]%andb_true_iff _]. cbn [p_args]. rewrite <- app_assoc.
  destruct (hd0_word w ((p_redirs rs ++ p_args args) ++ T) Hw) as [H _].
  split; apply (word_strchr _ _ H); intros d Hd; unfold symbols; set_solver.
Qed.

Definition arg_is (t : nat * nat) (w : list Z) : Prop := sub buf (fst t) (snd t) = w.

Lemma parse_args args T s fuel argc :
  at_text s (p_args args ++ T) -> args_ok args = true -> spaced T -> stops T -> (es - s < fuel)%nat ->
  argc + Z.of_nat (length args) <= 9 ->
  exists ts rs s', parseargs buf fuel argc s = (Ret (ts, rs), s') /\ at_text s' T /\ (s <= s')%nat /\
    Forall2 arg_is ts (map fst args) /\ Forall2 redir_is rs (concat (map snd args)).
Proof.
  revert s fuel argc. induction args as [|[w rs] args IH]; intros s fuel argc HA Ha HT HS Hf Hn; (destruct fuel as [|fuel]; [lia|]); cbn [parseargs].
  - cbn [p_args app] in HA. destruct (peek_at [c_bar; c_rpar; c_amp; c_semi] s T HA) as (P1 & P2 & P3). unfold bind at 1. rewrite P1.
    destruct (stops_facts T HS) as [[-> |HE] _]; [exists [], [], (skip_ws buf s); split_and!; [done|done|done|constructor|constructor]|].
    destruct (get_end _ T P2 HE) as (q & eq & s' & G1 & G2 & G3).
    assert (E0 : hd0 T = 0) by (unfold hd0; by rewrite HE). rewrite E0. cbn [Z.eqb negb andb]. unfold bind. rewrite G1. cbn.
    exists [], [], s'. split_and!; [done|done|lia|constructor|constructor].
  - pose proof Ha as Ha0. cbn in Ha. apply andb_true_iff in Ha as [[Hw Hr]%andb_true_iff Ha]. cbn [fst snd] in *. cbn [p_args] in HA.
    rewrite <- !app_assoc in HA. destruct (peek_at [c_bar; c_rpar; c_amp; c_semi] s _ HA) as (P1 & P2 & P3). unfold bind at 1. rewrite P1.
    destruct (hd0_word w (p_redirs rs ++ p_args args ++ T) Hw) as [HW HW0].
    rewrite (word_strchr _ [c_bar; c_rpar; c_amp; c_semi] HW) by (intros d Hd; unfold symbols; set_solver). rewrite andb_false_r.
    pose proof (spaced_args args T HT) as HT1. pose proof (spaced_redirs rs _ HT1) as HT2.
    destruct (get_word _ w _ P2 Hw HT2) as (q & eq & s2 & G1 & G2 & G3 & G4). unfold bind at 1. rewrite G1. cbn [Z.eqb Pos.eqb c_a negb].
    rewrite (proj2 (Z.leb_gt MAXARGS (argc + 1))) by (unfold MAXARGS; cbn [length] in Hn; lia).
    pose proof (proj1 G2).
    destruct (parse_redirs rs (p_args args ++ T) s2 (loop_fuel buf) G2 Hr HT1) as (ts & s3 & R1 & R2 & R3 & R4);
      [by apply args_first|unfold loop_fuel, Sh.es; lia|]. unfold bind at 1. unfold redirs. rewrite R1. pose proof (proj1 R2).
    destruct (IH s3 fuel (argc + 1) R2 Ha HT HS ltac:(lia)) as (as' & rs' & s4 & A1 & A2 & A3 & A4 & A5); [cbn [length] in Hn; lia|].
    unfold bind. rewrite A1. eexists _, _, s4. split_and!; [done|done|lia|by constructor|]. cbn. by apply Forall2_app.
Qed.

Lemma hd0_amps n T : hd0 (p_amps n ++ T) = match n with O => hd0 T | S _ => c_amp end.
Proof. by destruct n. Qed.

Lemma spaced_amps n T : spaced T -> spaced (p_amps n ++ T).
Proof. intros HT. destruct n; [done|]. right. by eexists. Qed.

Lemma parse_amps n T s fuel c :
  at_text s (p_amps n ++ T) -> hd0 T <> c_amp -> (es - s < fuel)%nat ->
  exists s', back_loop buf fuel c s = (Ret (Nat.iter n BACK c), s') /\ at_text s' T /\ (s <= s')%nat.
Proof.
  revert s fuel c. induction n as [|n IH]; intros s fuel c HA Hh Hf; (destruct fuel as [|fuel]; [lia|]); cbn [back_loop].
  - destruct (peek_at [c_amp] s T HA) as (P1 & P2 & P3). exists (skip_ws buf s). split_and!; [|done|done]. unfold bind. rewrite P1.
    assert (E : strchr [c_amp] (hd0 T) = false) by (unfold strchr; apply bool_decide_eq_false; set_solver). by rewrite E, andb_false_r.
  - destruct (peek_at [c_amp] s _ HA) as (P1 & P2 & P3). unfold bind at 1. rewrite P1. cbn [p_amps app hd0 strip is_ws strchr] in *.
    change (negb (hd0 (c_sp :: c_amp :: p_amps n ++ T) =? 0) && strchr [c_amp] (hd0 (c_sp :: c_amp :: p_amps n ++ T))) with true.
    destruct (get_sym _ c_amp _ P2 eq_refl) as (q & eq & s2 & G1 & G2 & G3). unfold bind. rewrite G1. pose proof (proj1 G2).
    destruct (IH s2 fuel (BACK c) G2 Hh ltac:(lia)) as (s' & B1 & B2 & B3). exists s'. rewrite B1. split_and!; [|done|lia].
    by rewrite Nat.iter_succ_r.
Qed.

Lemma denote_redirs c ts rs : Forall2 redir_is ts rs -> denote buf (foldl redircmd c ts) = foldl t_redir (denote buf c) rs.
Proof. intros H. revert c. induction H as [|t r ts rs Ht _ IH]; intros c; [done|]. cbn [foldl]. by rewrite IH, Ht. Qed.

Lemma denote_args ts ws : Forall2 arg_is ts ws -> map (fun t => sub buf (fst t) (snd t)) ts = ws.
Proof. induction 1 as [|t w ts ws H _ IH]; [done|]. cbn. by rewrite H, IH. Qed.

Lemma denote_amps n c : denote buf (Nat.iter n BACK c) = Nat.iter n SBack (denote buf c).
Proof. induction n as [|n IH]; [done|]. change (denote buf (Nat.iter (S n) BACK c)) with (SBack (denote buf (Nat.iter n BACK c))). by rewrite IH. Qed.

(** What ends a line and a pipeline. *)
Definition ends_line (T : list Z) : Prop := strip T = [] \/ hd0 T = c_rpar.
Definition ends_pipe (T : list Z) : Prop := stops T /\ hd0 T <> c_bar.

Definition line_reads (l : gline) : Prop := forall T s fuel,
  at_text s (p_line l ++ T) -> wf_line l = true -> spaced T -> ends_line T -> (4 * (es - s) + 4 <= fuel)%nat ->
  exists c s', parseline buf fuel s = (Ret c, s') /\ at_text s' T /\ (s <= s')%nat /\ denote buf c = t_line l.
Definition pipe_reads (p : gpipe) : Prop := forall T s fuel,
  at_text s (p_pipe p ++ T) -> wf_pipe p = true -> spaced T -> ends_pipe T -> (4 * (es - s) + 3 <= fuel)%nat ->
  exists c s', parsepipe buf fuel s = (Ret c, s') /\ at_text s' T /\ (s <= s')%nat /\ denote buf c = t_pipe p.
Definition atom_reads (a : gatom) : Prop := forall T s fuel,
  at_text s (p_atom a ++ T) -> wf_atom a = true -> spaced T -> stops T -> (4 * (es - s) + 2 <= fuel)%nat ->
  exists c s', parseexec buf fuel s = (Ret c, s') /\ at_text s' T /\ (s <= s')%nat /\ denote buf c = t_atom a.

Lemma strchr1 c d : strchr [c] d = (d =? c).
Proof. unfold strchr. destruct (Z.eqb_spec d c) as [-> |H]; [apply bool_decide_eq_true|apply bool_decide_eq_false]; set_solver. Qed.

Lemma peek1_yes c s T : at_text s T -> hd0 T = c -> c <> 0 ->
  peek buf [c] s = (Ret true, skip_ws buf s) /\ at_text (skip_ws buf s) T /\ (s <= skip_ws buf s)%nat.
Proof. intros HA HT Hc. destruct (peek_at [c] s T HA) as (P1 & P2 & P3). rewrite P1, HT, strchr1, Z.eqb_refl. by rewrite (proj2 (Z.eqb_neq c 0)). Qed.

Lemma peek1_no c s T : at_text s T -> hd0 T <> c ->
  peek buf [c] s = (Ret false, skip_ws buf s) /\ at_text (skip_ws buf s) T /\ (s <= skip_ws buf s)%nat.
Proof. intros HA HT. destruct (peek_at [c] s T HA) as (P1 & P2 & P3). rewrite P1, strchr1, (proj2 (Z.eqb_neq _ c)) by done. by rewrite andb_false_r. Qed.

Lemma ends_line_facts T : ends_line T -> stops T /\ hd0 T <> c_bar /\ hd0 T <> c_amp /\ hd0 T <> c_semi.
Proof. intros [H|H]; unfold stops; [unfold hd0; rewrite H; split_and!; auto|rewrite H; split_and!; auto]. Qed.

Lemma amps_end n T : ends_pipe T -> ends_pipe (p_amps n ++ T).
Proof. intros H. destruct n; [done|]. split; [by right|done]. Qed.

(** The part of [parseline] up to the trailing ampersands. *)
Lemma read_pipe_amps p n T s f :
  pipe_reads p -> at_text s (p_pipe p ++ p_amps n ++ T) -> wf_pipe p = true -> spaced T -> ends_pipe T -> hd0 T <> c_amp ->
  (4 * (es - s) + 3 <= f)%nat ->
  exists c s', bind (parsepipe buf f) (fun c => back_loop buf (loop_fuel buf) c) s = (Ret c, s') /\ at_text s' T /\ (s <= s')%nat /\
    denote buf c = Nat.iter n SBack (t_pipe p).
Proof.
  intros HP HA Hw HT HE Ha Hf. destruct (HP _ s f HA Hw (spaced_amps n T HT) (amps_end n T HE) Hf) as (c & s1 & R1 & R2 & R3 & R4).
  pose proof (proj1 R2). destruct (parse_amps n T s1 (loop_fuel buf) c R2 Ha) as (s2 & B1 & B2 & B3); [unfold loop_fuel, Sh.es; lia|].
  exists (Nat.iter n BACK c), s2. split_and!; [unfold bind; by rewrite R1|done|lia|by rewrite denote_amps, R4].
Qed.

Lemma parseline_unfold f s : parseline buf (S f) s =
  bind (bind (parsepipe buf f) (fun c => back_loop buf (loop_fuel buf) c)) (fun c =>
    let! b := peek buf [c_semi] in
    if (b : bool) then gettoken buf ;; let! r := parseline buf f in ret (LIST c r) else ret c) s.
Proof. cbn [parseline]. unfold bind. by destruct (parsepipe buf f s) as [[a|?|?|?] s']. Qed.

Lemma read_gline p n : pipe_reads p -> line_reads (GLine p n).
Proof.
  intros HP T s fuel HA Hw HT HE Hf. destruct fuel as [|f]; [lia|]. cbn [p_line] in HA. rewrite <- app_assoc in HA.
  destruct (ends_line_facts T HE) as (E1 & E2 & E3 & E4).
  destruct (read_pipe_amps p n T s f HP HA Hw HT (conj E1 E2) E3 ltac:(lia)) as (c & s1 & R1 & R2 & R3 & R4).
  destruct (peek1_no c_semi s1 T R2 E4) as (P1 & P2 & P3). exists c, (skip_ws buf s1). split_and!; [|done|lia|done].
  rewrite parseline_unfold. unfold bind at 1. rewrite R1. unfold bind at 1. by rewrite P1.
Qed.

Lemma read_gseq p n l : pipe_reads p -> line_reads l -> line_reads (GSeq p n l).
Proof.
  intros HP HL T s fuel HA Hw HT HE Hf. destruct fuel as [|f]; [lia|]. cbn [p_line wf_line] in HA, Hw. rewrite <- !app_assoc in HA.
  apply andb_true_iff in Hw as [Hw1 Hw2]. set (T1 := (c_sp :: c_semi :: p_line l) ++ T) in *.
  assert (E1 : hd0 T1 = c_semi) by done. assert (HT1 : spaced T1) by (right; by eexists).
  destruct (read_pipe_amps p n T1 s f HP HA Hw1 HT1) as (c & s1 & R1 & R2 & R3 & R4); [split; [by right|done]|done|lia|].
  destruct (peek1_yes c_semi s1 T1 R2 E1 ltac:(done)) as (P1 & P2 & P3).
  destruct (get_sym _ c_semi (p_line l ++ T) P2 eq_refl) as (q & eq & s2 & G1 & G2 & G3). pose proof (proj1 G2).
  destruct (HL T s2 f G2 Hw2 HT HE ltac:(lia)) as (c2 & s3 & L1 & L2 & L3 & L4).
  exists (LIST c c2), s3. split_and!; [|done|lia|cbn; by rewrite R4, L4].
  rewrite parseline_unfold. unfold bind at 1. rewrite R1. unfold bind. by rewrite P1, G1, L1.
Qed.

Lemma read_gpipe a : atom_reads a -> pipe_reads (GPipe a).
Proof.
  intros HP T s fuel HA Hw HT [E1 E2] Hf. destruct fuel as [|f]; [lia|].
  destruct (HP T s f HA Hw HT E1 ltac:(lia)) as (c & s1 & R1 & R2 & R3 & R4).
  destruct (peek1_no c_bar s1 T R2 E2) as (P1 & P2 & P3). exists c, (skip_ws buf s1). split_and!; [|done|lia|done].
  cbn [parsepipe]. unfold bind. by rewrite R1, P1.
Qed.

Lemma read_gbar a p : atom_reads a -> pipe_reads p -> pipe_reads (GBar a p).
Proof.
  intros HP HL T s fuel HA Hw HT HE Hf. destruct fuel as [|f]; [lia|]. cbn [p_pipe wf_pipe] in HA, Hw. rewrite <- app_assoc in HA.
  apply andb_true_iff in Hw as [Hw1 Hw2]. set (T1 := (c_sp :: c_bar :: p_pipe p) ++ T) in *.
  assert (E1 : hd0 T1 = c_bar) by done. assert (HT1 : spaced T1) by (right; by eexists).
  destruct (HP T1 s f HA Hw1 HT1) as (c & s1 & R1 & R2 & R3 & R4); [by right|lia|].
  destruct (peek1_yes c_bar s1 T1 R2 E1 ltac:(done)) as (P1 & P2 & P3).
  destruct (get_sym _ c_bar (p_pipe p ++ T) P2 eq_refl) as (q & eq & s2 & G1 & G2 & G3). pose proof (proj1 G2).
  destruct (HL T s2 f G2 Hw2 HT HE ltac:(lia)) as (c2 & s3 & L1 & L2 & L3 & L4).
  exists (PIPE c c2), s3. split_and!; [|done|lia|cbn; by rewrite R4, L4].
  cbn [parsepipe]. unfold bind. by rewrite R1, P1, G1, L1.
Qed.

Lemma simple_first rs args T : args_ok args = true -> stops T -> hd0 (p_redirs rs ++ p_args args ++ T) <> c_lpar.
Proof.
  intros Ha HT. destruct rs as [|r rs]; [|by destruct r]. cbn [p_redirs map concat app].
  destruct (args_first args T Ha HT) as [_ H]. rewrite strchr1 in H. by apply Z.eqb_neq in H.
Qed.

Lemma read_gsimple rs args : atom_reads (GSimple rs args).
Proof.
  intros T s fuel HA Hw HT HE Hf. destruct fuel as [|f]; [lia|]. cbn [p_atom wf_atom] in HA, Hw. rewrite <- app_assoc in HA.
  apply andb_true_iff in Hw as [[Hr Ha]%andb_true_iff Hn]. apply Nat.leb_le in Hn. fold (args_ok args) in Ha.
  destruct (peek1_no c_lpar s _ HA (simple_first rs args T Ha HE)) as (P1 & P2 & P3). pose proof (proj1 P2).
  destruct (args_first args T Ha HE) as [F1 _].
  destruct (parse_redirs rs _ _ (loop_fuel buf) P2 Hr (spaced_args args T HT) F1) as (ts & s1 & R1 & R2 & R3 & R4); [unfold loop_fuel, Sh.es; lia|].
  pose proof (proj1 R2).
  destruct (parse_args args T s1 (loop_fuel buf) 0 R2 Ha HT HE) as (as' & rs' & s2 & A1 & A2 & A3 & A4 & A5); [unfold loop_fuel, Sh.es; lia|lia|].
  eexists _, s2. split_and!; [|done|lia|].
  - cbn [parseexec]. unfold bind. rewrite P1. unfold redirs. rewrite R1, A1. done.
  - rewrite (denote_redirs _ (ts ++ rs') (rs ++ concat (map snd args))) by (by apply Forall2_app). cbn [denote t_atom].
    by rewrite (denote_args as' (map fst args)).
Qed.

Lemma read_gparen l rs : line_reads l -> atom_reads (GParen l rs).
Proof.
  intros HL T s fuel HA Hw HT HE Hf. do 2 (destruct fuel as [|fuel]; [lia|]). cbn [p_atom wf_atom] in HA, Hw.
  apply andb_true_iff in Hw as [Hl Hr]. cbn [app] in HA. rewrite <- app_assoc in HA. set (T1 := (c_sp :: c_rpar :: p_redirs rs) ++ T) in *.
  destruct (peek1_yes c_lpar s _ HA eq_refl ltac:(done)) as (P1 & P2 & P3). destruct (peek1_yes c_lpar _ _ P2 eq_refl ltac:(done)) as (Q1 & Q2 & Q3).
  destruct (get_sym _ c_lpar _ Q2 eq_refl) as (q & eq & s2 & G1 & G2 & G3). pose proof (proj1 G2).
  destruct (HL T1 s2 fuel G2 Hl) as (c & s3 & L1 & L2 & L3 & L4); [right; by eexists|by right|lia|].
  destruct (peek1_yes c_rpar s3 T1 L2 eq_refl ltac:(done)) as (U1 & U2 & U3).
  destruct (get_sym _ c_rpar _ U2 eq_refl) as (q' & eq' & s4 & V1 & V2 & V3). pose proof (proj1 V2).
  destruct (stops_facts T HE) as (_ & F & _).
  destruct (parse_redirs rs T s4 (loop_fuel buf) V2 Hr HT F) as (ts & s5 & R1 & R2 & R3 & R4); [unfold loop_fuel, Sh.es; lia|].
  exists (foldl redircmd c ts), s5. split_and!; [|done|lia|cbn [t_atom]; by rewrite (denote_redirs c ts rs R3), L4].
  cbn [parseexec parseblock]. unfold bind. rewrite P1, Q1. cbn [negb]. rewrite G1, L1, U1. cbn [negb]. rewrite V1.
  unfold parseredirs, redirs, bind. by rewrite R1.
Qed.
End spelled.

Scheme gline_mut := Induction for gline Sort Prop
with gpipe_mut := Induction for gpipe Sort Prop
with gatom_mut := Induction for gatom Sort Prop.
Combined Scheme grammar_ind from gline_mut, gpipe_mut, gatom_mut.

Lemma grammar_reads buf : (forall l, line_reads buf l) /\ (forall p, pipe_reads buf p) /\ (forall a, atom_reads buf a).
Proof.
  apply grammar_ind; intros; [apply read_gline|apply read_gseq|apply read_gpipe|apply read_gbar|apply read_gsimple|apply read_gparen]; done.
Qed.

(** The parser with its result and its strings. *)
Lemma parse_ends buf :
  (forall k, (k < length buf)%nat -> ch buf k <> 0) ->
  match parse buf with
  | Ret (c, m) => tokens_ok buf c /\ length m = S (length buf) /\
      forall q eq, (q, eq) ∈ tokens c -> m !! eq = Some 0 /\ forall k, (q <= k < eq)%nat -> m !! k = buf !! k /\ ch buf k <> 0
  | Panic e => e ∈ parse_errors
  | _ => False
  end.
Proof.
  intros Hn. unfold parse, parsecmd.
  assert (HE : ends (let! c := parseline buf (parse_fuel buf) in
     peek buf [] ;; let! s := get in if negb (s =? es buf)%nat then panic "syntax" else ret (c, nulterminate c (buf ++ [0]))) 0%nat
    (fun r _ => tokens_ok buf (fst r) /\ snd r = nulterminate (fst r) (buf ++ [0]))).
  { apply ends_bind. eapply ends_mono; [apply (ends_parser buf Hn (parse_fuel buf)); [unfold es; lia|unfold parse_fuel, es; lia]|].
    intros c s [Hs HC]. apply ends_bind, ends_peek; [lia|]. intros s1 _ _. unfold ends, bind, get. destruct (negb _); cbn; [set_solver|done]. }
  unfold ends in HE. destruct (bind _ _ 0%nat) as [[[c m]|e|?|?] s]; cbn [fst snd] in *; try done. destruct HE as [HC ->].
  split_and!; [done| |intros q eq Ht; by apply nulterminate_spec].
  unfold nulterminate. assert (HL : forall l m, length (foldl (fun m p => <[p := 0]> m) m l) = length m).
  { induction l as [|p l IH]; intros m; [done|]. cbn [foldl]. by rewrite IH, length_insert. }
  rewrite HL, length_app. cbn. lia.
Qed.

Lemma parse_spelled l :
  wf_line l = true -> exists c m, parse (p_line l) = Ret (c, m) /\ denote (p_line l) c = t_line l.
Proof.
  intros Hw. set (buf := p_line l).
  assert (HA : at_text buf 0 (p_line l ++ [])) by (split; [lia|by rewrite app_nil_r]).
  destruct (proj1 (grammar_reads buf) l [] 0%nat (parse_fuel buf) HA Hw) as (c & s & L1 & L2 & L3 & L4);
    [by left|by left|unfold parse_fuel, es; lia|].
  destruct (peek_at buf [] s [] L2) as (P1 & P2 & P3). pose proof (proj1 P2) as HS.
  destruct (at_skip buf s [] L2) as (_ & HD & _). apply (f_equal length) in HD. rewrite length_drop in HD. cbn [strip length] in HD.
  exists c, (nulterminate c (buf ++ [0])). split; [|done]. unfold parse, parsecmd, bind, get. rewrite L1, P1.
  replace (skip_ws buf s =? es buf)%nat with true; [done|]. symmetry. apply Nat.eqb_eq. unfold es in *. lia.
Qed.

(** ** Properties *)

(** C30. The parser is total: on every line without NUL bytes it ends, with one
    of its five error messages or with a tree. Every string of the tree is a
    maximal non-empty run of word characters of the line, and after
    [nulterminate] it is NUL-terminated with its characters unchanged. *)
Theorem parse_total buf :
  (forall k, (k < length buf)%nat -> ch buf k <> 0) ->
  match parse buf with
  | Ret (c, m) => tokens_ok buf c /\ length m = S (length buf) /\
      forall q eq, (q, eq) ∈ tokens c -> m !! eq = Some 0 /\ forall k, (q <= k < eq)%nat -> m !! k = buf !! k /\ ch buf k <> 0
  | Panic e => e ∈ parse_errors
  | _ => False
  end.
Proof. apply parse_ends. Qed.

Definition bytes (s : string) : list Z := map (fun c => Z.of_nat (Ascii.nat_of_ascii c)) (String.list_ascii_of_string s).

Lemma parse_total_witness :
  match parse (bytes "ls|wc >out") with
  | Ret (c, m) => tokens_ok (bytes "ls|wc >out") c
  | _ => False
  end.
Proof.
  pose proof (parse_total (bytes "ls|wc >out")) as H.
  assert (HN : forall k, (k < length (bytes "ls|wc >out"))%nat -> ch (bytes "ls|wc >out") k <> 0).
  { intros k Hk. cbn in Hk. do 10 (destruct k as [|k]; [by vm_compute|]). lia. }
  specialize (H HN). destruct (parse (bytes "ls|wc >out")) as [[c m]|e|ch|e] eqn:E; [apply H| | |]; vm_compute in E; discriminate.
Defined.

(** C29. The parser inverts the grammar: the spelling of every well-formed
    derivation (lists, pipelines, background commands, blocks, redirections
    between arguments, at most nine arguments per command) parses, and the
    strings of the tree are the derivation's: nesting, order of arguments and
    redirections, their open modes and descriptors. *)
Theorem parse_grammar l :
  wf_line l = true -> exists c m, parse (p_line l) = Ret (c, m) /\ denote (p_line l) c = t_line l.
Proof. apply parse_spelled. Qed.

(** "( a x < f ; b ) & ; c | d >> g" *)
Definition grammar_sample : gline :=
  GSeq (GPipe (GParen (GSeq (GPipe (GSimple [] [([97], []); ([120], [RIn [102]])])) 0 (GLine (GPipe (GSimple [] [([98], [])])) 0)) [])) 1
    (GLine (GBar (GSimple [] [([99], [])]) (GPipe (GSimple [] [([100], [RApp [103]])]))) 0).

Lemma parse_grammar_witness :
  wf_line grammar_sample = true /\
  exists c m, parse (p_line grammar_sample) = Ret (c, m) /\ denote (p_line grammar_sample) c = t_line grammar_sample.
Proof. split; [by vm_compute|]. apply (parse_grammar grammar_sample). by vm_compute. Defined.
