(* ===== verification/File.v ===== *)
(** * Open files: kernel/file.c, and pipealloc of kernel/pipe.c

    The file table sits on top of the file system ([fsst]) and of the pipes;
    both act on the same environment [E] (page allocator, process services,
    user and kernel memory). A file pointer is an index into the table. *)
From S2P Require Import Prelude CString Riscv Spinlock Kalloc Bio Layout Log Txn Fs Pipe.
Local Open Scope Z_scope.

Inductive ftype := FD_NONE | FD_PIPE | FD_INODE | FD_DEVICE.

#[export] Instance ftype_eq_dec : EqDecision ftype.
Proof. solve_decision. Defined.

Record file := File {
  f_type : ftype; f_ref : Z; f_readable : bool; f_writable : bool; f_pipe : Z; f_ip : option nat; f_off : Z; f_major : Z;
}.
Definition file0 : file := File FD_NONE 0 false false 0 None 0 0.
#[export] Instance file_inhabited : Inhabited file := populate file0.

Definition with_fref v f := File (f_type f) v (f_readable f) (f_writable f) (f_pipe f) (f_ip f) (f_off f) (f_major f).
Definition with_ftype v f := File v (f_ref f) (f_readable f) (f_writable f) (f_pipe f) (f_ip f) (f_off f) (f_major f).
Definition with_fmode r w f := File (f_type f) (f_ref f) r w (f_pipe f) (f_ip f) (f_off f) (f_major f).
Definition with_fpipe v f := File (f_type f) (f_ref f) (f_readable f) (f_writable f) v (f_ip f) (f_off f) (f_major f).
Definition with_fip v f := File (f_type f) (f_ref f) (f_readable f) (f_writable f) (f_pipe f) v (f_off f) (f_major f).
Definition with_foff v f := File (f_type f) (f_ref f) (f_readable f) (f_writable f) (f_pipe f) (f_ip f) v (f_major f).
Definition with_fmajor v f := File (f_type f) (f_ref f) (f_readable f) (f_writable f) (f_pipe f) (f_ip f) (f_off f) v.

(** [begin_op] and [end_op]. *)
Class OpTxn (T : Type) : Type := {
  op_begin : M T unit;
  op_end : M T unit;
}.

(** struct devsw: the functions of a device, when it has them. *)
Record devsw (E : Type) := Devsw {
  dev_read : option (bool -> Z -> Z -> M E Z);
  dev_write : option (bool -> Z -> Z -> M E Z);
}.
Arguments Devsw {E}. Arguments dev_read {E}. Arguments dev_write {E}.

Record filest (T E : Type) := FileSt {
  ft_lock : spinlock; ft_file : list file; ft_devsw : list (devsw E); ft_pipe : gmap Z pipe; ft_fs : fsst T E;
}.
Arguments FileSt {T E}. Arguments ft_lock {T E}. Arguments ft_file {T E}. Arguments ft_devsw {T E}.
Arguments ft_pipe {T E}. Arguments ft_fs {T E}.

(** [struct stat] as it is laid out; bytes 12 to 15 are padding. *)
Definition STATSIZE : nat := 24.
Definition stat_fields (st : stat) (old : list Z) : list Z :=
  put_le (put_le (put_le (put_le (put_le old 0 4 (st_dev st)) 4 4 (st_ino st)) 8 2 (st_type st)) 10 2 (st_nlink st)) 16 8 (st_size st).

(** [int max = ((MAXOPBLOCKS-1-1-2) / 2) * BSIZE] of [filewrite]. *)
Definition write_max : Z := (MAXOPBLOCKS - 1 - 1 - 2) / 2 * BSIZE.

Section ops.
Context {T E : Type} {B : BlockTxn T} {OT : OpTxn T} {UM : UserMem E} {PA : PageAlloc E} {PS : ProcServices E} (x : ctx).
Local Abbreviation FM := (M (filest T E)).

Definition set_flock l (s : filest T E) := FileSt l (ft_file s) (ft_devsw s) (ft_pipe s) (ft_fs s).
Definition set_ffile l (s : filest T E) := FileSt (ft_lock s) l (ft_devsw s) (ft_pipe s) (ft_fs s).
Definition set_ffs (v : fsst T E) (s : filest T E) : filest T E := FileSt (ft_lock s) (ft_file s) (ft_devsw s) (ft_pipe s) v.
Definition getf (i : nat) (s : filest T E) : file := ft_file s !!! i.
Definition updf (i : nat) (g : file -> file) (s : filest T E) : filest T E := set_ffile (<[i := g (getf i s)]> (ft_file s)) s.
Definition on_fs {A} (m : M (fsst T E) A) : FM A := zoom ft_fs set_ffs m.
Definition on_envf {A} (m : M E A) : FM A := on_fs (on_u m).
Definition on_pipes {A} (m : M (pst E) A) : FM A :=
  zoom (fun s => PSt (ft_pipe s) (fs_u (ft_fs s)))
       (fun p s => FileSt (ft_lock s) (ft_file s) (ft_devsw s) (ps_pipe p) (set_u (ps_env p) (ft_fs s))) m.
Definition f_begin_op : FM unit := on_fs (on_t op_begin).
Definition f_end_op : FM unit := on_fs (on_t op_end).
Definition ft_spin {A} (m : M spinlock A) : FM A := zoom ft_lock set_flock m.

Definition fileinit : FM unit := modify (set_flock (initlock "ftable")).

Definition filealloc : FM (option nat) :=
  ft_spin (acquire_word (c_hart x)) ;;
  let! r := forn (A := Z) (Z.to_nat NFILE) 0 1 (fun i =>
    let! f := gets (getf (Z.to_nat i)) in
    if f_ref f =? 0 then
      modify (updf (Z.to_nat i) (with_fref 1)) ;;
      ft_spin (release_word (c_hart x)) ;;
      ret (Some i)
    else ret None) in
  match r with
  | Some i => ret (Some (Z.to_nat i))
  | None => ft_spin (release_word (c_hart x)) ;; ret None
  end.

Definition filedup (i : nat) : FM nat :=
  ft_spin (acquire_word (c_hart x)) ;;
  let! f := gets (getf i) in
  if f_ref f <? 1 then panic "filedup"
  else
    modify (updf i (with_fref (f_ref f + 1))) ;;
    ft_spin (release_word (c_hart x)) ;;
    ret i.

(** The locked part of [fileclose]: the copy [ff] when that was the last
    reference. *)
Definition fileclose_drop (i : nat) : FM (option file) :=
  ft_spin (acquire_word (c_hart x)) ;;
  let! f := gets (getf i) in
  if f_ref f <? 1 then panic "fileclose"
  else
    modify (updf i (with_fref (f_ref f - 1))) ;;
    let! ff := gets (getf i) in
    if 0 <? f_ref ff then
      ft_spin (release_word (c_hart x)) ;;
      ret None
    else
      modify (updf i (with_fref 0)) ;;
      modify (updf i (with_ftype FD_NONE)) ;;
      ft_spin (release_word (c_hart x)) ;;
      ret (Some ff).

Definition deref {A} (p : option A) : FM A :=
  match p with Some a => ret a | None => undef "null pointer" end.

Definition fileclose (i : nat) : FM unit :=
  let! r := fileclose_drop i in
  match r with
  | None => ret tt
  | Some ff =>
      match f_type ff with
      | FD_PIPE => on_pipes (pipeclose x (f_pipe ff) (f_writable ff))
      | FD_INODE | FD_DEVICE =>
          f_begin_op ;;
          let! ip := deref (f_ip ff) in
          on_fs (iput x ip) ;;
          f_end_op
      | FD_NONE => ret tt
      end
  end.

(** [st_a] is the address of the local [struct stat]. *)
Definition filestat (st_a : Z) (i : nat) (addr : Z) : FM Z :=
  let! f := gets (getf i) in
  match f_type f with
  | FD_INODE | FD_DEVICE =>
      on_fs (ilock x (f_ip f)) ;;
      let! ip := deref (f_ip f) in
      let! st := on_fs (stati ip) in
      on_fs (iunlock x (f_ip f)) ;;
      let! m := gets (fun s => fs_mem (ft_fs s)) in
      let bs := stat_fields st (load_bytes STATSIZE m st_a) in
      on_fs (modify (set_fmem (store_bytes m st_a bs))) ;;
      let! r := on_envf (um_copyout addr bs) in
      if r <? 0 then ret (-1) else ret 0
  | _ => ret (-1)
  end.

Definition fileread (i : nat) (addr n : Z) : FM Z :=
  let! f := gets (getf i) in
  if negb (f_readable f) then ret (-1)
  else
    match f_type f with
    | FD_PIPE => on_pipes (piperead x (f_pipe f) addr n)
    | FD_DEVICE =>
        if (f_major f <? 0) || (NDEV <=? f_major f) then ret (-1)
        else
          let! d := gets (fun s => ft_devsw s !! Z.to_nat (f_major f)) in
          match d with
          | Some (Devsw (Some read) _) => on_envf (read true addr n)
          | _ => ret (-1)
          end
    | FD_INODE =>
        on_fs (ilock x (f_ip f)) ;;
        let! ip := deref (f_ip f) in
        let! off := gets (fun s => f_off (getf i s)) in
        let! r := on_fs (readi ip true addr off (u32 n)) in
        (if 0 <? r then modify (updf i (fun f => with_foff (u32 (f_off f + r)) f)) else ret tt) ;;
        on_fs (iunlock x (f_ip f)) ;;
        ret r
    | FD_NONE => panic "fileread"
    end.

(** The loop of [filewrite] on an inode with [w] bytes written: every round
    writes [write_max] bytes, the rest, or is the last. *)
Fixpoint filewrite_loop (fuel : nat) (i : nat) (addr n w : Z) : FM Z :=
  match fuel with
  | O => stall (Chan "filewrite" 0)
  | S k =>
      if negb (w <? n) then ret w
      else
        let n1 := if write_max <? n - w then write_max else n - w in
        f_begin_op ;;
        let! f := gets (getf i) in
        on_fs (ilock x (f_ip f)) ;;
        let! ip := deref (f_ip f) in
        let! off := gets (fun s => f_off (getf i s)) in
        let! r := on_fs (writei ip true (u64 (addr + w)) off (u32 n1)) in
        (if 0 <? r then modify (updf i (fun f => with_foff (u32 (f_off f + r)) f)) else ret tt) ;;
        on_fs (iunlock x (f_ip f)) ;;
        f_end_op ;;
        if negb (r =? n1) then ret w
        else filewrite_loop k i addr n (w + r)
  end.

Definition filewrite (i : nat) (addr n : Z) : FM Z :=
  let! f := gets (getf i) in
  if negb (f_writable f) then ret (-1)
  else
    match f_type f with
    | FD_PIPE => on_pipes (pipewrite x (f_pipe f) addr n)
    | FD_DEVICE =>
        if (f_major f <? 0) || (NDEV <=? f_major f) then ret (-1)
        else
          let! d := gets (fun s => ft_devsw s !! Z.to_nat (f_major f)) in
          match d with
          | Some (Devsw _ (Some write)) => on_envf (write true addr n)
          | _ => ret (-1)
          end
    | FD_INODE =>
        let! w := filewrite_loop (Z.to_nat (n / write_max) + 2) i addr n 0 in
        ret (if w =? n then n else -1)
    | FD_NONE => panic "filewrite"
    end.

(** [pipealloc]: the two files and the pipe; the files it could get are closed
    again when something is missing. *)
Definition pipealloc_bad (f0 f1 : option nat) : FM (option (nat * nat)) :=
  (match f0 with Some i => fileclose i | None => ret tt end) ;;
  (match f1 with Some i => fileclose i | None => ret tt end) ;;
  ret None.

Definition pipealloc : FM (option (nat * nat)) :=
  let! f0 := filealloc in
  match f0 with
  | None => pipealloc_bad None None
  | Some i0 =>
      let! f1 := filealloc in
      match f1 with
      | None => pipealloc_bad f0 None
      | Some i1 =>
          let! pi := on_pipes pipealloc_pipe in
          if pi =? 0 then pipealloc_bad f0 f1
          else
            modify (updf i0 (fun f => with_fpipe pi (with_fmode true false (with_ftype FD_PIPE f)))) ;;
            modify (updf i1 (fun f => with_fpipe pi (with_fmode false true (with_ftype FD_PIPE f)))) ;;
            ret (Some (i0, i1))
      end
  end.
End ops.

(** ** Lemmas: the file table *)
Section table.
Context {T E : Type} (x : ctx).
Implicit Types s : filest T E.
Definition NFILEn : nat := Z.to_nat NFILE.

(** This hart holds [ftable.lock]. *)
Definition locked_ft s : filest T E := set_flock (Spinlock 1 (lk_name (ft_lock s)) (Some (c_hart x))) s.

Lemma ft_acquire {A} s (k : M (filest T E) A) Q : lk_free (ft_lock s) ->
  runs k (locked_ft s) Q -> runs (ft_spin (acquire_word (c_hart x)) ;; k) s Q.
Proof. intros Hl HK. apply runs_bind, runs_zoom. eapply runs_eq; [by apply acquire_word_free|]. done. Qed.

Lemma ft_release {A} s s' (a : A) (Q : A -> filest T E -> Prop) : lk_free (ft_lock s) -> ft_lock s' = ft_lock (locked_ft s) ->
  Q a (set_flock (ft_lock s) s') -> runs (ft_spin (release_word (c_hart x)) ;; ret a) s' Q.
Proof.
  intros Hl HL HQ. apply runs_bind, runs_zoom. rewrite HL. eapply runs_eq; [apply release_word_held|].
  apply runs_ret. by rewrite <- (lk_free_eq _ Hl).
Qed.

Lemma getf_updf i j g s : (i < length (ft_file s))%nat ->
  getf j (updf i g s) = if decide (j = i) then g (getf i s) else getf j s.
Proof.
  intros Hi. unfold getf, updf, set_ffile. cbn. case_decide as Hd; [subst; by rewrite list_lookup_total_insert_eq|].
  by rewrite list_lookup_total_insert_ne.
Qed.

Lemma updf_twice i f g s : (i < length (ft_file s))%nat -> updf i f (updf i g s) = updf i (fun v => f (g v)) s.
Proof.
  intros Hi. unfold updf at 1. rewrite getf_updf, decide_True by done. unfold updf, set_ffile. cbn. by rewrite list_insert_insert_eq.
Qed.

Lemma set_flock_locked l s s' i g : s' = updf i g (locked_ft s) -> set_flock l s' = set_flock l (updf i g s).
Proof. by intros ->. Qed.

Lemma set_flock_id s : set_flock (ft_lock s) s = s.
Proof. by destruct s. Qed.

Lemma filealloc_run s : lk_free (ft_lock s) -> length (ft_file s) = NFILEn ->
  runs (filealloc x) s (fun r s' => match r with
    | Some i => (i < NFILEn)%nat /\ f_ref (getf i s) = 0 /\ (forall j, (j < i)%nat -> f_ref (getf j s) <> 0) /\ s' = updf i (with_fref 1) s
    | None => s' = s /\ forall j, (j < NFILEn)%nat -> f_ref (getf j s) <> 0
    end).
Proof.
  intros Hl HL. unfold filealloc. apply ft_acquire; [done|].
  eapply (runs_seq _ _ _ (fun r s' => match r with
    | Some z => exists i, z = Z.of_nat i /\ (i < NFILEn)%nat /\ f_ref (getf i s) = 0 /\
        (forall j, (j < i)%nat -> f_ref (getf j s) <> 0) /\ s' = updf i (with_fref 1) s
    | None => s' = locked_ft s /\ forall j, (j < NFILEn)%nat -> f_ref (getf j s) <> 0
    end)).
  - apply (runs_forn _ _ _ _ (fun k s' => s' = locked_ft s /\ forall j, (j < k)%nat -> f_ref (getf j s) <> 0)); [split; [done|lia]| |].
    + intros k t Hk [-> Hz]. rewrite Z.mul_1_l, Z.add_0_l, Nat2Z.id. mstep. change (getf k (locked_ft s)) with (getf k s).
      destruct (Z.eqb_spec (f_ref (getf k s)) 0) as [E0|E0].
      * mstep. eapply (ft_release s); [done|done|]. exists k. by split_and!.
      * mstep. split; [done|]. intros j Hj. destruct (decide (j = k)) as [->|]; [done|apply Hz; lia].
    + intros t [-> Hz]. by split.
  - intros [z|] s' H.
    + destruct H as (i & -> & H). mstep. by rewrite Nat2Z.id.
    + destruct H as [-> H]. eapply (ft_release s); [done|done|]. split; [by destruct s|done].
Qed.

Lemma filedup_run i s : lk_free (ft_lock s) -> 1 <= f_ref (getf i s) ->
  runs (filedup x i) s (fun r s' => r = i /\ s' = updf i (with_fref (f_ref (getf i s) + 1)) s).
Proof.
  intros Hl Hr. unfold filedup. apply ft_acquire; [done|]. mstep. change (getf i (locked_ft s)) with (getf i s).
  rewrite (proj2 (Z.ltb_ge _ _)) by lia. mstep. by eapply (ft_release s).
Qed.

Lemma fileclose_drop_run i s : lk_free (ft_lock s) -> (i < length (ft_file s))%nat -> 1 <= f_ref (getf i s) ->
  runs (fileclose_drop x i) s (fun r s' =>
    if decide (f_ref (getf i s) = 1) then r = Some (with_fref 0 (getf i s)) /\ s' = updf i (fun f => with_ftype FD_NONE (with_fref 0 f)) s
    else r = None /\ s' = updf i (with_fref (f_ref (getf i s) - 1)) s).
Proof.
  intros Hl Hi Hr. unfold fileclose_drop. apply ft_acquire; [done|]. mstep. change (getf i (locked_ft s)) with (getf i s).
  rewrite (proj2 (Z.ltb_ge _ _)) by lia. mstep. mstep. rewrite getf_updf, decide_True by done. cbn [f_ref with_fref].
  change (getf i (locked_ft s)) with (getf i s). case_decide as E1.
  - rewrite E1. change (0 <? 1 - 1) with false. cbv iota. mstep. mstep. eapply (ft_release s); [done|done|]. split; [done|].
    rewrite !updf_twice; [done|done|unfold updf, set_ffile; cbn; by rewrite length_insert].
  - rewrite (proj2 (Z.ltb_lt _ _)) by lia. by eapply (ft_release s).
Qed.
End table.

(** ** Reference counting

    The clients of the file table: open descriptors and calls in progress hold
    references ([fy_held]); the locked parts of [filealloc], [filedup] and
    [fileclose] interleave freely, as do changes to other fields. [fy_closed]
    records the files whose last reference was dropped. *)
Section refs.
Context {T E : Type} (x : ctx).
Implicit Types s : filest T E.

Record fsys := FSys { fy_st : filest T E; fy_held : list nat; fy_closed : list nat }.

Inductive fstep : fsys -> fsys -> Prop :=
| fst_alloc s s' hs cl i : filealloc x s = (Ret (Some i), s') -> fstep (FSys s hs cl) (FSys s' (i :: hs) cl)
| fst_full s s' hs cl : filealloc x s = (Ret None, s') -> fstep (FSys s hs cl) (FSys s' hs cl)
| fst_dup s s' hs cl i j : i ∈ hs -> filedup x i s = (Ret j, s') -> fstep (FSys s hs cl) (FSys s' (j :: hs) cl)
| fst_close s s' hs hs' cl i r : hs ≡ₚ i :: hs' -> fileclose_drop x i s = (Ret r, s') ->
    fstep (FSys s hs cl) (FSys s' hs' (match r with Some _ => i :: cl | None => cl end))
| fst_use s s' hs cl : ft_lock s' = ft_lock s -> map f_ref (ft_file s') = map f_ref (ft_file s) ->
    fstep (FSys s hs cl) (FSys s' hs cl).

Definition held_count (hs : list nat) (i : nat) : Z := Z.of_nat (count_occ Nat.eq_dec hs i).

Record fsys_ok (y : fsys) : Prop := {
  fo_lock : lk_free (ft_lock (fy_st y));
  fo_len : length (ft_file (fy_st y)) = NFILEn;
  fo_ref : forall i, (i < NFILEn)%nat -> f_ref (getf i (fy_st y)) = held_count (fy_held y) i;
  fo_held : Forall (fun i => i < NFILEn)%nat (fy_held y);
}.

Lemma held_count_cons i j hs : held_count (i :: hs) j = if decide (j = i) then held_count hs j + 1 else held_count hs j.
Proof. unfold held_count. cbn. destruct (Nat.eq_dec i j), (decide (j = i)); try congruence; lia. Qed.

Lemma held_count_perm hs hs' i : hs ≡ₚ hs' -> held_count hs i = held_count hs' i.
Proof. intros H. unfold held_count. f_equal. by apply (Permutation_count_occ Nat.eq_dec). Qed.

Lemma held_pos hs i : i ∈ hs <-> 1 <= held_count hs i.
Proof. unfold held_count. rewrite list_elem_of_In, (count_occ_In Nat.eq_dec). lia. Qed.

(** A change of one file's count that matches a change of the handles. *)
Lemma fsys_ok_upd s hs hs' cl cl' i g :
  fsys_ok (FSys s hs cl) -> (i < NFILEn)%nat -> f_ref (g (getf i s)) = held_count hs' i ->
  (forall j, j <> i -> held_count hs' j = held_count hs j) -> Forall (fun i => i < NFILEn)%nat hs' ->
  fsys_ok (FSys (updf i g s) hs' cl').
Proof.
  intros [L1 L2 L3 L4] Hi Hg Hj HF. cbn [fy_st fy_held] in *. split; cbn [fy_st fy_held]; [done| | |done].
  - unfold updf, set_ffile. cbn. by rewrite length_insert.
  - intros j Hlt. rewrite getf_updf by lia. case_decide as Hd; [by subst|]. rewrite Hj by done. by apply L3.
Qed.

Lemma fsys_ok_step y y' : fsys_ok y -> fstep y y' -> fsys_ok y'.
Proof.
  intros O St. pose proof O as [L1 L2 L3 L4]. destruct St as [s s' hs cl i HE|s s' hs cl HE|s s' hs cl i j Hin HE|s s' hs hs' cl i r HP HE|s s' hs cl HL HM];
    cbn [fy_st fy_held] in *.
  - destruct (runs_inv _ _ _ _ _ (filealloc_run x s L1 L2) HE) as (Hi & H0 & _ & ->).
    apply (fsys_ok_upd s hs (i :: hs) cl cl); [done|done| | |by constructor].
    + cbn [f_ref with_fref]. rewrite held_count_cons, decide_True, <- L3 by done. lia.
    + intros j Hj. by rewrite held_count_cons, decide_False.
  - destruct (runs_inv _ _ _ _ _ (filealloc_run x s L1 L2) HE) as [-> _]. done.
  - assert (Hi : (i < NFILEn)%nat) by (rewrite Forall_forall in L4; by apply L4).
    assert (Hr : 1 <= f_ref (getf i s)) by (rewrite L3 by done; by apply held_pos).
    destruct (runs_inv _ _ _ _ _ (filedup_run x i s L1 Hr) HE) as [-> ->].
    apply (fsys_ok_upd s hs (i :: hs) cl cl); [done|done| | |by constructor].
    + cbn [f_ref with_fref]. by rewrite held_count_cons, decide_True, L3.
    + intros j Hj. by rewrite held_count_cons, decide_False.
  - assert (Hin : i ∈ hs) by (rewrite HP; by left). assert (Hi : (i < NFILEn)%nat) by (rewrite Forall_forall in L4; by apply L4).
    assert (Hr : 1 <= f_ref (getf i s)) by (rewrite L3 by done; by apply held_pos).
    assert (HF : Forall (fun i => i < NFILEn)%nat hs') by (rewrite HP in L4; by inversion L4).
    assert (HC : held_count hs' i = f_ref (getf i s) - 1).
    { rewrite L3 by done. rewrite (held_count_perm _ _ i HP), held_count_cons, decide_True by done. lia. }
    assert (HO : forall j, j <> i -> held_count hs' j = held_count hs j).
    { intros j Hj. by rewrite (held_count_perm _ _ j HP), held_count_cons, decide_False. }
    pose proof (runs_inv _ _ _ _ _ (fileclose_drop_run x i s L1 ltac:(lia) Hr) HE) as H. cbn beta in H.
    case_decide as E1; destruct H as [-> ->]; eapply fsys_ok_upd; try done; rewrite HC; cbn [f_ref with_fref with_ftype]; lia.
  - split; cbn [fy_st fy_held]; [by rewrite HL|rewrite <- L2; apply (f_equal length) in HM; by rewrite !length_map in HM| |done].
    intros i Hi. rewrite <- L3 by done. unfold getf.
    assert (HE : f_ref <$> (ft_file s' !! i) = f_ref <$> (ft_file s !! i)) by (rewrite <- !list_lookup_fmap; exact (f_equal (fun l => l !! i) HM)).
    rewrite !list_lookup_total_alt. destruct (ft_file s' !! i), (ft_file s !! i); cbn in *; congruence.
Qed.

Definition fsys_start (y : fsys) : Prop :=
  lk_free (ft_lock (fy_st y)) /\ length (ft_file (fy_st y)) = NFILEn /\
  (forall i, (i < NFILEn)%nat -> f_ref (getf i (fy_st y)) = 0) /\ fy_held y = [].

Lemma fsys_reach_ok y y' : fsys_start y -> rtc fstep y y' -> fsys_ok y'.
Proof.
  intros (S1 & S2 & S3 & S4) R. assert (O : fsys_ok y) by (split; [done|done|intros i Hi; rewrite S4; by apply S3|by rewrite S4]).
  clear S1 S2 S3 S4. induction R as [y|y z w St _ IH]; [done|]. apply IH. by eapply fsys_ok_step.
Qed.
End refs.

(** ** Properties *)

(** C10. The file table counts references exactly: from an empty table, after
    any interleaving of allocations, duplications and closes by their holders,
    a file's count is the number of its handles. So no holder's [filedup] or
    [fileclose] panics, [fileclose] hands out the file for tearing down
    exactly when the last handle goes, and [filealloc] never returns a file
    that someone holds and fails only when every file is held. *)
Theorem ftable_refcounts {T E} (x : ctx) (y0 y : fsys (T := T) (E := E)) (s := fy_st y) (hs := fy_held y) :
  fsys_start y0 -> rtc (fstep x) y0 y ->
  (forall i, (i < NFILEn)%nat -> f_ref (getf i s) = held_count hs i) /\
  runs (filealloc x) s (fun r s' => match r with
    | Some i => (i ∉ hs) /\ s' = updf i (with_fref 1) s
    | None => s' = s /\ forall i, (i < NFILEn)%nat -> i ∈ hs end) /\
  (forall i, i ∈ hs ->
    runs (filedup x i) s (fun r s' => r = i /\ s' = updf i (with_fref (held_count hs i + 1)) s) /\
    runs (fileclose_drop x i) s (fun r s' =>
      if decide (held_count hs i = 1) then r = Some (with_fref 0 (getf i s)) /\ f_ref (getf i s') = 0 /\ f_type (getf i s') = FD_NONE
      else r = None /\ s' = updf i (with_fref (held_count hs i - 1)) s)).
Proof.
  intros HS HR. pose proof (fsys_reach_ok x y0 y HS HR) as [L1 L2 L3 L4]. subst s hs. clear HR.
  destruct y as [s hs cl]. cbn [fy_st fy_held] in *. split_and!; [done| |].
  - eapply runs_mono; [by apply filealloc_run|]. intros [i|] s'.
    + intros (Hi & H0 & _ & ->). split; [|done]. rewrite held_pos, <- L3 by done. lia.
    + intros [-> H0]. split; [done|]. intros i Hi. specialize (H0 i Hi). rewrite L3 in H0 by done.
      apply held_pos. unfold held_count in *. lia.
  - intros i Hin. assert (Hi : (i < NFILEn)%nat) by (rewrite Forall_forall in L4; by apply L4).
    assert (Hr : 1 <= f_ref (getf i s)) by (rewrite L3 by done; by apply held_pos). split.
    + eapply runs_mono; [by apply filedup_run|]. intros r s' [-> ->]. by rewrite L3.
    + eapply runs_mono; [apply fileclose_drop_run; [done|lia|done]|]. cbn beta. intros r s'. rewrite L3 by done.
      case_decide; intros [-> ->]; [|done]. split; [done|]. by rewrite getf_updf, decide_True by lia.
Qed.

(** A table with nothing below it. *)
Definition ft_boot : filest unit unit :=
  FileSt (initlock "ftable") (replicate NFILEn file0) [] ∅ (FsSt (Superblock 0 0 0 0 0 0 0 0) (initlock "itable") [] tt tt [] []).

Lemma ftable_refcounts_witness :
  exists s, rtc (fstep (Ctx 0 1)) (FSys ft_boot [] []) (FSys s [0%nat; 0%nat] []) /\ f_ref (getf 0 s) = 2.
Proof.
  assert (HS : fsys_start (FSys ft_boot [] [])).
  { split_and!; [by split|by vm_compute|intros i Hi; unfold getf; cbn [fy_st ft_boot ft_file]; by rewrite lookup_total_replicate_2|done]. }
  destruct (filealloc (Ctx 0 1) ft_boot) as [r s1] eqn:E1. destruct (filedup (Ctx 0 1) 0 s1) as [r2 s2] eqn:E2.
  assert (Hr : r = Ret (Some 0%nat)) by (vm_compute in E1; congruence).
  assert (HR : rtc (fstep (Ctx 0 1)) (FSys ft_boot [] []) (FSys s2 [0%nat; 0%nat] [])).
  { eapply rtc_l; [apply (fst_alloc _ ft_boot s1); by rewrite E1, Hr|]. eapply rtc_l; [|apply rtc_refl].
    eapply (fst_dup _ s1 s2 _ _ 0%nat 0%nat); [by left|]. rewrite E2. f_equal. vm_compute in E1. injection E1 as _ <-. vm_compute in E2. congruence. }
  exists s2. split; [exact HR|].
  destruct (ftable_refcounts (Ctx 0 1) (FSys ft_boot [] []) (FSys s2 [0%nat; 0%nat] []) HS HR) as [H _].
  change (f_ref (getf 0 (fy_st (FSys s2 [0%nat; 0%nat] []))) = 2). rewrite (H 0%nat); [reflexivity|]. apply Nat.ltb_lt. reflexivity.
Defined.
