(* ===== verification/Syscall.v ===== *)
(** * System calls: kernel/syscall.c and kernel/sysproc.c

    Arguments come from the trap frame of the calling process, strings and
    words from its memory. [ticks] and its lock (trap.c) are part of the state
    of the calls that use them. A call that gives up the CPU ends with [inr]:
    the value is the interrupt flag [sched] restores when the process runs
    again. *)
From S2P Require Import Prelude CString Riscv Spinlock Kalloc Vm Fs Pipe Proc.
Local Open Scope Z_scope.

(** Offsets in struct trapframe of the argument registers. *)
Definition TF_a1 : Z := 120.
Definition TF_a2 : Z := 128.
Definition TF_a3 : Z := 136.
Definition TF_a4 : Z := 144.
Definition TF_a5 : Z := 152.
Definition TF_a7 : Z := 168.

Section syscall.
Context {V F : Type} {PA : PageAlloc V} {FL : FileLayer F} (h : nat).
Local Abbreviation SM := (M (sysst V F)).

(** The result is stored at the kernel address [ip]. *)
Definition fetchaddr (addr ip : Z) : SM Z :=
  let! i := curproc h in
  let! sz := pget i p_sz in
  if (sz <=? addr) || (sz <? u64 (addr + 8)) then ret (-1)
  else
    let! pt := pget i p_pagetable in
    let! r := on_vm (copyin pt ip addr 8) in
    if negb (r =? 0) then ret (-1) else ret 0.

Definition fetchstr (addr buf max : Z) : SM Z :=
  let! i := curproc h in
  let! pt := pget i p_pagetable in
  let! r := on_vm (copyinstr pt buf addr max) in
  if r <? 0 then ret (-1)
  else
    let! m := gets (fun s => pa_mem (s_vm s)) in
    match strlen (Z.to_nat max) m buf with
    | Some n => ret n
    | None => undef "fetchstr: string not terminated"
    end.

Definition argraw (n : Z) : SM Z :=
  let! i := curproc h in
  let! tf := pget i p_trapframe in
  if n =? 0 then on_vm (ld64 (tf + TF_a0))
  else if n =? 1 then on_vm (ld64 (tf + TF_a1))
  else if n =? 2 then on_vm (ld64 (tf + TF_a2))
  else if n =? 3 then on_vm (ld64 (tf + TF_a3))
  else if n =? 4 then on_vm (ld64 (tf + TF_a4))
  else if n =? 5 then on_vm (ld64 (tf + TF_a5))
  else panic "argraw".

Definition argint (n : Z) : SM Z :=
  let! v := argraw n in ret (s32 v).

Definition argaddr (n : Z) : SM Z := argraw n.

Definition argstr (n buf max : Z) : SM Z :=
  let! addr := argaddr n in
  fetchstr addr buf max.
End syscall.

(** ** The table of system calls *)
Definition SYS_fork : Z := 1.
Definition SYS_exit : Z := 2.
Definition SYS_wait : Z := 3.
Definition SYS_pipe : Z := 4.
Definition SYS_read : Z := 5.
Definition SYS_kill : Z := 6.
Definition SYS_exec : Z := 7.
Definition SYS_fstat : Z := 8.
Definition SYS_chdir : Z := 9.
Definition SYS_dup : Z := 10.
Definition SYS_getpid : Z := 11.
Definition SYS_sbrk : Z := 12.
Definition SYS_sleep : Z := 13.
Definition SYS_uptime : Z := 14.
Definition SYS_open : Z := 15.
Definition SYS_write : Z := 16.
Definition SYS_mknod : Z := 17.
Definition SYS_unlink : Z := 18.
Definition SYS_link : Z := 19.
Definition SYS_mkdir : Z := 20.
Definition SYS_close : Z := 21.

(** The handlers, over the state [K] of the whole kernel. *)
Record handlers (K : Type) := Handlers {
  h_fork : M K (Z + bool); h_exit : M K (Z + bool); h_wait : M K (Z + bool); h_pipe : M K (Z + bool);
  h_read : M K (Z + bool); h_kill : M K (Z + bool); h_exec : M K (Z + bool); h_fstat : M K (Z + bool);
  h_chdir : M K (Z + bool); h_dup : M K (Z + bool); h_getpid : M K (Z + bool); h_sbrk : M K (Z + bool);
  h_sleep : M K (Z + bool); h_uptime : M K (Z + bool); h_open : M K (Z + bool); h_write : M K (Z + bool);
  h_mknod : M K (Z + bool); h_unlink : M K (Z + bool); h_link : M K (Z + bool); h_mkdir : M K (Z + bool);
  h_close : M K (Z + bool);
}.
Arguments h_fork {K}. Arguments h_exit {K}. Arguments h_wait {K}. Arguments h_pipe {K}. Arguments h_read {K}.
Arguments h_kill {K}. Arguments h_exec {K}. Arguments h_fstat {K}. Arguments h_chdir {K}. Arguments h_dup {K}.
Arguments h_getpid {K}. Arguments h_sbrk {K}. Arguments h_sleep {K}. Arguments h_uptime {K}. Arguments h_open {K}.
Arguments h_write {K}. Arguments h_mknod {K}. Arguments h_unlink {K}. Arguments h_link {K}. Arguments h_mkdir {K}.
Arguments h_close {K}.

(** An array with designated initialisers: entry 0 is null. *)
Definition syscalls {K} (t : handlers K) : list (option (M K (Z + bool))) :=
  let entries :=
    [(SYS_fork, h_fork t); (SYS_exit, h_exit t); (SYS_wait, h_wait t); (SYS_pipe, h_pipe t); (SYS_read, h_read t);
     (SYS_kill, h_kill t); (SYS_exec, h_exec t); (SYS_fstat, h_fstat t); (SYS_chdir, h_chdir t); (SYS_dup, h_dup t);
     (SYS_getpid, h_getpid t); (SYS_sbrk, h_sbrk t); (SYS_sleep, h_sleep t); (SYS_uptime, h_uptime t);
     (SYS_open, h_open t); (SYS_write, h_write t); (SYS_mknod, h_mknod t); (SYS_unlink, h_unlink t);
     (SYS_link, h_link t); (SYS_mkdir, h_mkdir t); (SYS_close, h_close t)] in
  foldl (fun a e => <[Z.to_nat (fst e) := Some (snd e)]> a) (replicate 22 None) entries.

(** [syscall] over a state [K] that holds the processes ([kget]/[kput]); the
    line it prints for an unknown number is returned as (pid, name, num). *)
Section dispatch.
Context {V F K : Type} {PA : PageAlloc V} {FL : FileLayer F} (h : nat).
Context (kget : K -> sysst V F) (kput : sysst V F -> K -> K).
Definition on_sys {A} (m : M (sysst V F) A) : M K A := zoom kget kput m.

Inductive sysdone :=
| SysReturned                                 (* the result is in a0 *)
| SysSwitched (ie : bool)                     (* the process gave up the CPU *)
| SysUnknown (pid : Z) (name : list Z) (num : Z).

Definition syscall (t : handlers K) : M K sysdone :=
  let! i := on_sys (curproc h) in
  let! tf := on_sys (pget i p_trapframe) in
  let! a7 := on_sys (on_vm (ld64 (tf + TF_a7))) in
  let num := s32 a7 in
  match (if (0 <? num) && (num <? Z.of_nat (length (syscalls t))) then syscalls t !!! Z.to_nat num else None) with
  | Some handler =>
      let! r := handler in
      match r with
      | inl v => on_sys (on_vm (st64 (tf + TF_a0) (u64 v))) ;; ret SysReturned
      | inr ie => ret (SysSwitched ie)
      end
  | None =>
      let! p := on_sys (pget i id) in
      on_sys (on_vm (st64 (tf + TF_a0) (u64 (-1)))) ;;
      ret (SysUnknown (p_pid p) (p_name p) num)
  end.
End dispatch.

(** ** sysproc.c *)

(** The processes with [ticks] and [tickslock]. *)
Record tkst (V F : Type) := TkSt { tk_lock : spinlock; ticks : Z; tk_sys : sysst V F }.
Arguments TkSt {V F}. Arguments tk_lock {V F}. Arguments ticks {V F}. Arguments tk_sys {V F}.

Section sysproc.
Context {V F : Type} {PA : PageAlloc V} {FL : FileLayer F} (h : nat).
Context (trampoline forkret_a : Z) (xstate_a : nat -> Z).
Local Abbreviation TM := (M (tkst V F)).

Definition on_tk {A} (m : M (sysst V F) A) : TM A := zoom tk_sys (fun v s => TkSt (tk_lock s) (ticks s) v) m.
Definition tickslock {A} (m : M (cpu * spinlock) A) : TM A :=
  zoom (fun s => (pc_cpu (getc h (tk_sys s)), tk_lock s))
       (fun cl s => TkSt (snd cl) (ticks s) (set_ccpu h (fst cl) (tk_sys s))) m.
Definition ticks_chan : chan := Chan "ticks" 0.

Definition sys_exit : TM (Z + bool) :=
  let! n := on_tk (argint h 0) in
  let! ie := on_tk (exit h n) in
  ret (inr ie).

Definition sys_getpid : TM (Z + bool) :=
  let! i := on_tk (curproc h) in
  let! pid := on_tk (pget i p_pid) in
  ret (inl pid).

Definition sys_fork : TM (Z + bool) :=
  let! r := on_tk (fork h trampoline forkret_a) in ret (inl r).

Definition sys_wait : TM (Z + bool) :=
  let! p := on_tk (argaddr h 0) in
  on_tk (wait h xstate_a p).

Definition sys_sbrk : TM (Z + bool) :=
  let! n := on_tk (argint h 0) in
  let! i := on_tk (curproc h) in
  let! addr := on_tk (pget i p_sz) in
  let! r := on_tk (growproc h n) in
  if r <? 0 then ret (inl (-1)) else ret (inl addr).

(** [sleep(&ticks, &tickslock)] releases the lock with the process's own lock
    held. *)
Definition sleep_ticks : TM bool :=
  let! i := on_tk (curproc h) in
  on_tk (p_acquire h i) ;;
  tickslock (release (hart h)) ;;
  on_tk (pset i (set_chan (Some ticks_chan))) ;;
  on_tk (pset i (set_state SLEEPING)) ;;
  on_tk (sched_enter h).

(** The loop of [sys_sleep] with the lock held; [inr] is inside [sleep]. *)
Definition sys_sleep_loop (ticks0 n : Z) : TM (Z + bool) :=
  let! t := gets ticks in
  if u32 (t - ticks0) <? n then
    let! i := on_tk (curproc h) in
    let! k := on_tk (killed h i) in
    if negb (k =? 0) then tickslock (release (hart h)) ;; ret (inl (-1))
    else let! ie := sleep_ticks in ret (inr ie)
  else tickslock (release (hart h)) ;; ret (inl 0).

(** [n] and [ticks0] are what the sleeping call resumes with. *)
Definition sys_sleep : TM (Z * Z * (Z + bool)) :=
  let! n := on_tk (argint h 0) in
  let n := if n <? 0 then 0 else n in
  tickslock (acquire (hart h)) ;;
  let! ticks0 := gets ticks in
  let! r := sys_sleep_loop ticks0 n in
  ret (n, ticks0, r).

(** From the return of [sched] on. *)
Definition sys_sleep_resume (ie : bool) (i : nat) (ticks0 n : Z) : TM (Z + bool) :=
  on_tk (sched_leave h ie) ;;
  on_tk (pset i (set_chan None)) ;;
  on_tk (p_release h i) ;;
  tickslock (acquire (hart h)) ;;
  sys_sleep_loop ticks0 n.

Definition sys_kill : TM (Z + bool) :=
  let! pid := on_tk (argint h 0) in
  let! r := on_tk (kill h pid) in
  ret (inl r).

Definition sys_uptime : TM (Z + bool) :=
  tickslock (acquire (hart h)) ;;
  let! xticks := gets ticks in
  tickslock (release (hart h)) ;;
  ret (inl xticks).

(** trap.c: the part of [clockintr] that counts. *)
Definition clock_tick : TM unit :=
  tickslock (acquire (hart h)) ;;
  modify (fun s => TkSt (tk_lock s) (u32 (ticks s + 1)) (tk_sys s)) ;;
  on_tk (wakeup h (Some ticks_chan)) ;;
  tickslock (release (hart h)).
End sysproc.
