(* ===== verification/Sysfile.v ===== *)
(** * File system calls: kernel/sysfile.c

    The calls on descriptors and on paths, over the open files of File.v and
    the directories of Dir.v. What they use of the calling process (its
    arguments, descriptors and current directory) is the interface [CurProc];
    syscall.c over proc.c and vm.c provides it at the end of this file. The
    addresses of local arrays and of string literals are a [frame]. *)
From S2P Require Import Prelude CString Riscv Spinlock Kalloc Bio Layout Log Txn Fs Dir Vm Pipe Proc File Syscall.
Local Open Scope Z_scope.

Class CurProc (E : Type) : Type := {
  cp_argint : Z -> M E Z;
  cp_argaddr : Z -> M E Z;
  cp_argstr : Z -> Z -> Z -> M E Z;            (* n, buf, max *)
  cp_fetchaddr : Z -> Z -> M E Z;              (* addr, ip *)
  cp_fetchstr : Z -> Z -> Z -> M E Z;          (* addr, buf, max *)
  cp_ofile : Z -> M E (option nat);            (* myproc()->ofile[fd] *)
  cp_set_ofile : Z -> option nat -> M E unit;
  cp_cwd : M E nat;                            (* myproc()->cwd *)
  cp_set_cwd : nat -> M E unit;
}.

(** Where the locals and literals are. *)
Record frame := Frame {
  a_name : Z; a_path : Z; a_new : Z; a_old : Z; a_de : Z;
  a_look : Z; a_link : Z;          (* de of dirlookup and of dirlink *)
  a_namei : Z;                     (* name of namei *)
  a_stat : Z;                      (* st of filestat *)
  a_dot : Z; a_dotdot : Z;         (* the strings of one and of two dots *)
  a_uarg : Z;                      (* uarg of sys_exec *)
}.

(** A path fits MAXPATH bytes with its NUL. *)
Definition path_fuel : nat := S (Z.to_nat MAXPATH).

Section ops.
Context {T E : Type} {B : BlockTxn T} {OT : OpTxn T} {UM : UserMem E} {PA : PageAlloc E} {PS : ProcServices E}.
Context {CP : CurProc E} (x : ctx) (fr : frame).
Local Abbreviation SM := (M (filest T E)).
Local Abbreviation fs_namei path := (let! cwd := on_envf cp_cwd in on_fs (namei x (a_look fr) path_fuel cwd (a_namei fr) path)).
Local Abbreviation fs_nameiparent path name := (let! cwd := on_envf cp_cwd in on_fs (nameiparent x (a_look fr) path_fuel cwd path name)).

(** The descriptor and its file, [None] for -1. *)
Definition argfd (n : Z) : SM (option (Z * nat)) :=
  let! fd := on_envf (cp_argint n) in
  if (fd <? 0) || (NOFILE <=? fd) then ret None
  else
    let! f := on_envf (cp_ofile fd) in
    match f with
    | None => ret None
    | Some f => ret (Some (fd, f))
    end.

Definition fdalloc (f : nat) : SM Z :=
  let! r := forn (A := Z) (Z.to_nat NOFILE) 0 1 (fun fd =>
    let! o := on_envf (cp_ofile fd) in
    match o with
    | None => on_envf (cp_set_ofile fd (Some f)) ;; ret (Some fd)
    | Some _ => ret None
    end) in
  ret (match r with Some fd => fd | None => -1 end).

Definition sys_dup : SM Z :=
  let! a := argfd 0 in
  match a with
  | None => ret (-1)
  | Some (_, f) =>
      let! fd := fdalloc f in
      if fd <? 0 then ret (-1)
      else filedup x f ;; ret fd
  end.

Definition sys_read : SM Z :=
  let! p := on_envf (cp_argaddr 1) in
  let! n := on_envf (cp_argint 2) in
  let! a := argfd 0 in
  match a with
  | None => ret (-1)
  | Some (_, f) => fileread x f p n
  end.

Definition sys_write : SM Z :=
  let! p := on_envf (cp_argaddr 1) in
  let! n := on_envf (cp_argint 2) in
  let! a := argfd 0 in
  match a with
  | None => ret (-1)
  | Some (_, f) => filewrite x f p n
  end.

Definition sys_close : SM Z :=
  let! a := argfd 0 in
  match a with
  | None => ret (-1)
  | Some (fd, f) =>
      on_envf (cp_set_ofile fd None) ;;
      fileclose x f ;;
      ret 0
  end.

Definition sys_fstat : SM Z :=
  let! st := on_envf (cp_argaddr 1) in
  let! a := argfd 0 in
  match a with
  | None => ret (-1)
  | Some (_, f) => filestat x (a_stat fr) f st
  end.

Definition inode_of (ip : nat) : SM inode := gets (fun s => geti ip (ft_fs s)).
Definition set_inode_of (ip : nat) (g : inode -> inode) : SM unit := on_fs (modify (updi ip g)).

(** The label [bad] of [sys_link]. *)
Definition link_bad (ip : nat) : SM Z :=
  on_fs (ilock x (Some ip)) ;;
  set_inode_of ip (fun i => with_nlink (s16 (i_nlink i - 1)) i) ;;
  on_fs (iupdate ip) ;;
  on_fs (iunlockput x ip) ;;
  f_end_op ;;
  ret (-1).

Definition sys_link : SM Z :=
  let! r := on_envf (cp_argstr 0 (a_old fr) MAXPATH) in
  if r <? 0 then ret (-1)
  else
    let! r := on_envf (cp_argstr 1 (a_new fr) MAXPATH) in
    if r <? 0 then ret (-1)
    else
      f_begin_op ;;
      let! o := fs_namei (a_old fr) in
      match o with
      | None => f_end_op ;; ret (-1)
      | Some ip =>
          on_fs (ilock x (Some ip)) ;;
          let! i := inode_of ip in
          if i_type i =? T_DIR then on_fs (iunlockput x ip) ;; f_end_op ;; ret (-1)
          else
            set_inode_of ip (fun i => with_nlink (s16 (i_nlink i + 1)) i) ;;
            on_fs (iupdate ip) ;;
            on_fs (iunlock x (Some ip)) ;;
            let! d := fs_nameiparent (a_new fr) (a_name fr) in
            match d with
            | None => link_bad ip
            | Some dp =>
                on_fs (ilock x (Some dp)) ;;
                let! di := inode_of dp in
                let! i := inode_of ip in
                let! r := (if negb (i_dev di =? i_dev i) then ret (-1)
                           else on_fs (dirlink x (a_look fr) (a_link fr) dp (a_name fr) (i_inum i))) in
                if r <? 0 then on_fs (iunlockput x dp) ;; link_bad ip
                else
                  on_fs (iunlockput x dp) ;;
                  on_fs (iput x ip) ;;
                  f_end_op ;;
                  ret 0
            end
      end.

Definition isdirempty (dp : nat) : SM bool :=
  let! d := inode_of dp in
  let! r := for_loop (A := unit) (2 * DESIZE) (i_size d) DESIZE (fun off =>
    let! n := on_fs (readi dp false (a_de fr) off DESIZE) in
    (if negb (n =? DESIZE) then panic "isdirempty: readi" else ret tt) ;;
    let! inum := on_fs (de_inum_at (a_de fr)) in
    if negb (inum =? 0) then ret (Some tt) else ret None) in
  ret (match r with Some _ => false | None => true end).

(** The label [bad] of [sys_unlink]. *)
Definition unlink_bad (dp : nat) : SM Z :=
  on_fs (iunlockput x dp) ;;
  f_end_op ;;
  ret (-1).

(** [sys_unlink] from the entry that was found in the locked directory on. *)
Definition unlink_found (dp ip : nat) (off : Z) : SM Z :=
  on_fs (ilock x (Some ip)) ;;
  let! i := inode_of ip in
  (if i_nlink i <? 1 then panic "unlink: nlink < 1" else ret tt) ;;
  let! busy := (if i_type i =? T_DIR then let! e := isdirempty ip in ret (negb e) else ret false) in
  if (busy : bool) then on_fs (iunlockput x ip) ;; unlink_bad dp
  else
    on_fs (modify (fun s => set_fmem (memset (fs_mem s) (a_de fr) 0 DESIZE) s)) ;;
    let! n := on_fs (writei dp false (a_de fr) off DESIZE) in
    (if negb (n =? DESIZE) then panic "unlink: writei" else ret tt) ;;
    (if i_type i =? T_DIR then
       set_inode_of dp (fun d => with_nlink (s16 (i_nlink d - 1)) d) ;;
       on_fs (iupdate dp)
     else ret tt) ;;
    on_fs (iunlockput x dp) ;;
    set_inode_of ip (fun i => with_nlink (s16 (i_nlink i - 1)) i) ;;
    on_fs (iupdate ip) ;;
    on_fs (iunlockput x ip) ;;
    f_end_op ;;
    ret 0.

Definition sys_unlink : SM Z :=
  let! r := on_envf (cp_argstr 0 (a_path fr) MAXPATH) in
  if r <? 0 then ret (-1)
  else
    f_begin_op ;;
    let! d := fs_nameiparent (a_path fr) (a_name fr) in
    match d with
    | None => f_end_op ;; ret (-1)
    | Some dp =>
        on_fs (ilock x (Some dp)) ;;
        let! c1 := on_fs (namecmp (a_name fr) (a_dot fr)) in
        let! c2 := (if c1 =? 0 then ret 0 else on_fs (namecmp (a_name fr) (a_dotdot fr))) in
        if (c1 =? 0) || (c2 =? 0) then unlink_bad dp
        else
          let! e := on_fs (dirlookup x (a_look fr) dp (a_name fr)) in
          match e with
          | None => unlink_bad dp
          | Some (ip, off) => unlink_found dp ip off
          end
    end.

(** The label [fail] of [create]. *)
Definition create_fail (dp ip : nat) : SM (option nat) :=
  set_inode_of ip (with_nlink 0) ;;
  on_fs (iupdate ip) ;;
  on_fs (iunlockput x ip) ;;
  on_fs (iunlockput x dp) ;;
  ret None.

(** [create] of the name [a_name] that the locked directory does not have. *)
Definition create_new (dp : nat) (type major minor : Z) : SM (option nat) :=
  let! d := inode_of dp in
  let! a := on_fs (ialloc x (i_dev d) type) in
  match a with
  | None => on_fs (iunlockput x dp) ;; ret None
  | Some ip =>
      on_fs (ilock x (Some ip)) ;;
      set_inode_of ip (with_devno major minor) ;;
      set_inode_of ip (with_nlink 1) ;;
      on_fs (iupdate ip) ;;
      let! i := inode_of ip in
      let dirlink := dirlink x (a_look fr) (a_link fr) in
      let! r := (if type =? T_DIR then
                   let! r := on_fs (dirlink ip (a_dot fr) (i_inum i)) in
                   if r <? 0 then ret (-1)
                   else on_fs (dirlink ip (a_dotdot fr) (i_inum d))
                 else ret 0) in
      if r <? 0 then create_fail dp ip
      else
        let! r := on_fs (dirlink dp (a_name fr) (i_inum i)) in
        if r <? 0 then create_fail dp ip
        else
          (if type =? T_DIR then
             set_inode_of dp (fun d => with_nlink (s16 (i_nlink d + 1)) d) ;;
             on_fs (iupdate dp)
           else ret tt) ;;
          on_fs (iunlockput x dp) ;;
          ret (Some ip)
  end.

Definition create (path type major minor : Z) : SM (option nat) :=
  let! d := fs_nameiparent path (a_name fr) in
  match d with
  | None => ret None
  | Some dp =>
      on_fs (ilock x (Some dp)) ;;
      let! e := on_fs (dirlookup x (a_look fr) dp (a_name fr)) in
      match e with
      | Some (ip, _) =>
          on_fs (iunlockput x dp) ;;
          on_fs (ilock x (Some ip)) ;;
          let! i := inode_of ip in
          if (type =? T_FILE) && ((i_type i =? T_FILE) || (i_type i =? T_DEVICE)) then ret (Some ip)
          else on_fs (iunlockput x ip) ;; ret None
      | None => create_new dp type major minor
      end
  end.

Definition has_flag (omode f : Z) : bool := negb (Z.land omode f =? 0).

(** [sys_open] with the inode locked. *)
Definition open_inode (ip : nat) (omode : Z) : SM Z :=
  let! i := inode_of ip in
  if (i_type i =? T_DEVICE) && ((i_major i <? 0) || (NDEV <=? i_major i)) then
    on_fs (iunlockput x ip) ;; f_end_op ;; ret (-1)
  else
    let! f := filealloc x in
    let! fd := (match f with Some fi => fdalloc fi | None => ret (-1) end) in
    match f with
    | Some fi =>
        if fd <? 0 then
          fileclose x fi ;; on_fs (iunlockput x ip) ;; f_end_op ;; ret (-1)
        else
          (if i_type i =? T_DEVICE then
             modify (updf fi (fun f => with_fmajor (i_major i) (with_ftype FD_DEVICE f)))
           else modify (updf fi (fun f => with_foff 0 (with_ftype FD_INODE f)))) ;;
          modify (updf fi (with_fip (Some ip))) ;;
          modify (updf fi (with_fmode (negb (has_flag omode O_WRONLY)) (has_flag omode O_WRONLY || has_flag omode O_RDWR))) ;;
          (if has_flag omode O_TRUNC && (i_type i =? T_FILE) then on_fs (itrunc ip) else ret tt) ;;
          on_fs (iunlock x (Some ip)) ;;
          f_end_op ;;
          ret fd
    | None => on_fs (iunlockput x ip) ;; f_end_op ;; ret (-1)
    end.

Definition sys_open : SM Z :=
  let! omode := on_envf (cp_argint 1) in
  let! n := on_envf (cp_argstr 0 (a_path fr) MAXPATH) in
  if n <? 0 then ret (-1)
  else
    f_begin_op ;;
    if has_flag omode O_CREATE then
      let! o := create (a_path fr) T_FILE 0 0 in
      match o with
      | None => f_end_op ;; ret (-1)
      | Some ip => open_inode ip omode
      end
    else
      let! o := fs_namei (a_path fr) in
      match o with
      | None => f_end_op ;; ret (-1)
      | Some ip =>
          on_fs (ilock x (Some ip)) ;;
          let! i := inode_of ip in
          if (i_type i =? T_DIR) && negb (omode =? O_RDONLY) then
            on_fs (iunlockput x ip) ;; f_end_op ;; ret (-1)
          else open_inode ip omode
      end.

Definition sys_mkdir : SM Z :=
  f_begin_op ;;
  let! r := on_envf (cp_argstr 0 (a_path fr) MAXPATH) in
  let! o := (if r <? 0 then ret None else create (a_path fr) T_DIR 0 0) in
  match o with
  | None => f_end_op ;; ret (-1)
  | Some ip => on_fs (iunlockput x ip) ;; f_end_op ;; ret 0
  end.

Definition sys_mknod : SM Z :=
  f_begin_op ;;
  let! major := on_envf (cp_argint 1) in
  let! minor := on_envf (cp_argint 2) in
  let! r := on_envf (cp_argstr 0 (a_path fr) MAXPATH) in
  let! o := (if r <? 0 then ret None else create (a_path fr) T_DEVICE (s16 major) (s16 minor)) in
  match o with
  | None => f_end_op ;; ret (-1)
  | Some ip => on_fs (iunlockput x ip) ;; f_end_op ;; ret 0
  end.

Definition sys_chdir : SM Z :=
  f_begin_op ;;
  let! r := on_envf (cp_argstr 0 (a_path fr) MAXPATH) in
  let! o := (if r <? 0 then ret None else fs_namei (a_path fr)) in
  match o with
  | None => f_end_op ;; ret (-1)
  | Some ip =>
      on_fs (ilock x (Some ip)) ;;
      let! i := inode_of ip in
      if negb (i_type i =? T_DIR) then on_fs (iunlockput x ip) ;; f_end_op ;; ret (-1)
      else
        on_fs (iunlock x (Some ip)) ;;
        let! cwd := on_envf cp_cwd in
        on_fs (iput x cwd) ;;
        f_end_op ;;
        on_envf (cp_set_cwd ip) ;;
        ret 0
  end.

(** The argument strings of [sys_exec], copied into fresh pages: the pages,
    and whether the end of the array was reached. *)
Fixpoint exec_args (n : nat) (uargv : Z) : SM (list Z * bool) :=
  match n with
  | O => ret ([], false)
  | S n' =>
      let i := MAXARG - Z.of_nat n in
      let! r := on_envf (cp_fetchaddr (u64 (uargv + 8 * i)) (a_uarg fr)) in
      if r <? 0 then ret ([], false)
      else
        let! uarg := gets (fun s => load64 (fs_mem (ft_fs s)) (a_uarg fr)) in
        if uarg =? 0 then ret ([], true)
        else
          let! page := on_envf pa_alloc in
          if page =? 0 then ret ([], false)
          else
            let! r := on_envf (cp_fetchstr uarg page PGSIZE) in
            if r <? 0 then ret ([page], false)
            else
              let! (rest, ok) := exec_args n' uargv in
              ret (page :: rest, ok)
  end.

(** [for(i = 0; i < NELEM(argv) && argv[i] != 0; i++) kfree(argv[i])] *)
Fixpoint free_args (pages : list Z) : SM unit :=
  match pages with
  | [] => ret tt
  | p :: rest => on_envf (pa_release p) ;; free_args rest
  end.

(** [exec] is exec.c's. *)
Definition sys_exec (exec : Z -> list Z -> SM Z) : SM Z :=
  let! uargv := on_envf (cp_argaddr 1) in
  let! r := on_envf (cp_argstr 0 (a_path fr) MAXPATH) in
  if r <? 0 then ret (-1)
  else
    let! (pages, ok) := exec_args (Z.to_nat MAXARG) uargv in
    if (ok : bool) then
      let! r := exec (a_path fr) pages in
      free_args pages ;;
      ret r
    else free_args pages ;; ret (-1).

Definition close_both (rf wf : nat) : SM Z :=
  fileclose x rf ;; fileclose x wf ;; ret (-1).

Definition sys_pipe : SM Z :=
  let! fdarray := on_envf (cp_argaddr 0) in
  let! p := pipealloc x in
  match p with
  | None => ret (-1)
  | Some (rf, wf) =>
      let! fd0 := fdalloc rf in
      let! fd1 := (if fd0 <? 0 then ret (-1) else fdalloc wf) in
      if (fd0 <? 0) || (fd1 <? 0) then
        (if 0 <=? fd0 then on_envf (cp_set_ofile fd0 None) else ret tt) ;;
        close_both rf wf
      else
        let! r := on_envf (um_copyout fdarray (le_enc 4 fd0)) in
        let! r := (if r <? 0 then ret r else on_envf (um_copyout (u64 (fdarray + 4)) (le_enc 4 fd1))) in
        if r <? 0 then
          on_envf (cp_set_ofile fd0 None) ;;
          on_envf (cp_set_ofile fd1 None) ;;
          close_both rf wf
        else ret 0
  end.
End ops.

(** ** The interfaces over proc.c, vm.c and syscall.c

    [buf_a] is where the bytes lie in kernel memory that [copyin] and
    [copyout] move between a process and a buffer. *)
Section impl.
Context {V F : Type} {PA : PageAlloc V} {FL : FileLayer F} (h : nat) (buf_a : Z).
Local Abbreviation SM := (M (sysst V F)).

Definition sys_pages : PageAlloc (sysst V F) := {|
  pa_alloc := on_vm pa_alloc;
  pa_release := fun p => on_vm (pa_release p);
  pa_mem := fun s => pa_mem (s_vm s);
  pa_set_mem := fun m s => set_vm (pa_set_mem m (s_vm s)) s;
  pa_page := pa_page (S := V);
  pa_free := fun s fl => pa_free (s_vm s) fl;
|}.

Definition sys_services : ProcServices (sysst V F) := {|
  svc_killed := let! i := curproc h in let! k := killed h i in ret (negb (k =? 0));
  svc_wakeup := fun c => wakeup h (Some c);
|}.

(** [copyout]/[copyin] on the page table of the current process. *)
Definition sys_copyout (dst : Z) (src : list Z) : SM Z :=
  let! i := curproc h in
  let! pt := pget i p_pagetable in
  on_vm (modify (fun v => pa_set_mem (store_bytes (pa_mem v) buf_a src) v)) ;;
  on_vm (copyout pt dst buf_a (Z.of_nat (length src))).

Definition sys_copyin (src : Z) (old : list Z) : SM (list Z * Z) :=
  let! i := curproc h in
  let! pt := pget i p_pagetable in
  on_vm (modify (fun v => pa_set_mem (store_bytes (pa_mem v) buf_a old) v)) ;;
  let! r := on_vm (copyin pt buf_a src (Z.of_nat (length old))) in
  let! m := gets (fun s => pa_mem (s_vm s)) in
  ret (load_bytes (length old) m buf_a, r).

Definition sys_user : UserMem (sysst V F) := {|
  um_copyout := sys_copyout;
  um_copyin := sys_copyin;
  um_mem := fun s => pa_mem (s_vm s);
  um_set_mem := fun m s => set_vm (pa_set_mem m (s_vm s)) s;
|}.

Definition sys_curproc : CurProc (sysst V F) := {|
  cp_argint := argint h;
  cp_argaddr := argaddr h;
  cp_argstr := argstr h;
  cp_fetchaddr := fetchaddr h;
  cp_fetchstr := fetchstr h;
  cp_ofile := fun fd => let! i := curproc h in pget i (fun p => p_ofile p !!! Z.to_nat fd);
  cp_set_ofile := fun fd f => let! i := curproc h in pset i (fun p => set_ofile (<[Z.to_nat fd := f]> (p_ofile p)) p);
  cp_cwd := let! i := curproc h in let! c := pget i p_cwd in match c with Some d => ret d | None => undef "no current directory" end;
  cp_set_cwd := fun d => let! i := curproc h in pset i (set_cwd (Some d));
|}.
End impl.
