(* ===== verification/Exec.v ===== *)
(** * exec: kernel/exec.c

    [exec] over the whole kernel: the inode is read through the file system
    into kernel memory, where the new address space is built, and the process
    is changed only once everything is in place. The ELF header, the program
    header and [ustack] are locals at the addresses [elf_a], [ph_a] and
    [ustack_a]. *)
From S2P Require Import Prelude CString Riscv Spinlock Kalloc Bio Layout Log Txn Fs Dir Vm Pipe Proc File Syscall Sysfile.
Local Open Scope Z_scope.

(** elf.h *)
Definition ELF_MAGIC : Z := 0x464C457F.
Definition ELF_PROG_LOAD : Z := 1.
Definition ELFHDR_SIZE : Z := 64.
Definition PROGHDR_SIZE : Z := 56.

Record elfhdr := Elfhdr { e_magic : Z; e_entry : Z; e_phoff : Z; e_phnum : Z }.
Record proghdr := Proghdr {
  ph_type : Z; ph_flags : Z; ph_off : Z; ph_vaddr : Z; ph_paddr : Z; ph_filesz : Z; ph_memsz : Z; ph_align : Z;
}.

(** The fields of the structures at an address; the header's fields that exec
    does not look at are left out. *)
Definition field (m : mem) (a off : Z) (n : nat) : Z := le_dec (load_bytes n m (a + off)).
Definition elfhdr_at (m : mem) (a : Z) : elfhdr :=
  Elfhdr (field m a 0 4) (field m a 24 8) (field m a 32 8) (field m a 56 2).
Definition proghdr_at (m : mem) (a : Z) : proghdr :=
  Proghdr (field m a 0 4) (field m a 4 4) (field m a 8 8) (field m a 16 8) (field m a 24 8) (field m a 32 8) (field m a 40 8) (field m a 48 8).

Definition flags2perm (flags : Z) : Z :=
  let perm := if negb (Z.land flags 1 =? 0) then PTE_X else 0 in
  if negb (Z.land flags 2 =? 0) then Z.lor perm PTE_W else perm.

Section ops.
Context {T V F : Type} {B : BlockTxn T} {OT : OpTxn T} {PAv : PageAlloc V} {FL : FileLayer F}.
Context (h : nat) (x : ctx) (buf_a : Z) (fr : frame) (trampoline elf_a ph_a ustack_a : Z).
Local Abbreviation E := (sysst V F).
Local Abbreviation KM := (M (filest T E)).
#[local] Instance exec_user : UserMem E := sys_user h buf_a.
#[local] Instance exec_curproc : CurProc E := sys_curproc h.

Definition on_proc {A} (m : M E A) : KM A := on_envf m.
Definition on_mem {A} (m : M V A) : KM A := on_proc (on_vm m).
Definition kmem : KM mem := gets (fun s => fs_mem (ft_fs s)).

(** Every round but the last loads a page, so [sz / PGSIZE + 1] rounds and the
    last test are enough unless [i] wraps around. *)
Fixpoint loadseg_loop (fuel : nat) (pagetable va : Z) (ip : nat) (offset sz i : Z) : KM Z :=
  match fuel with
  | O => stall (Chan "loadseg" 0)
  | S f =>
      if i <? sz then
        let! pa := on_mem (walkaddr pagetable (u64 (va + i))) in
        if pa =? 0 then panic "loadseg: address should exist"
        else
          let n := if u32 (sz - i) <? PGSIZE then u32 (sz - i) else PGSIZE in
          let! r := on_fs (readi ip false pa (u32 (offset + i)) n) in
          if negb (u32 r =? n) then ret (-1)
          else loadseg_loop f pagetable va ip offset sz (u32 (i + PGSIZE))
      else ret 0
  end.
Definition loadseg (pagetable va : Z) (ip : nat) (offset sz : Z) : KM Z :=
  loadseg_loop (Z.to_nat (sz / PGSIZE) + 2) pagetable va ip offset sz 0.

(** The loop over the program headers, [n] of them left: the size of the new
    address space, and whether all went well. *)
Fixpoint load_segs (n : nat) (ip : nat) (pagetable off sz : Z) : KM (Z * bool) :=
  match n with
  | O => ret (sz, true)
  | S n' =>
      let! r := on_fs (readi ip false ph_a (u32 off) PROGHDR_SIZE) in
      if negb (r =? PROGHDR_SIZE) then ret (sz, false)
      else
        let! m := kmem in
        let ph := proghdr_at m ph_a in
        let off' := s32 (off + PROGHDR_SIZE) in
        if negb (ph_type ph =? ELF_PROG_LOAD) then load_segs n' ip pagetable off' sz
        else if ph_memsz ph <? ph_filesz ph then ret (sz, false)
        else if u64 (ph_vaddr ph + ph_memsz ph) <? ph_vaddr ph then ret (sz, false)
        else if negb (ph_vaddr ph mod PGSIZE =? 0) then ret (sz, false)
        else
          let! sz1 := on_mem (uvmalloc pagetable sz (u64 (ph_vaddr ph + ph_memsz ph)) (flags2perm (ph_flags ph))) in
          if sz1 =? 0 then ret (sz, false)
          else
            let! r := loadseg pagetable (ph_vaddr ph) ip (u32 (ph_off ph)) (u32 (ph_filesz ph)) in
            if r <? 0 then ret (sz1, false)
            else load_segs n' ip pagetable off' sz1
  end.

Definition kstrlen (a : Z) : KM Z :=
  let! m := kmem in
  match strlen (Z.to_nat PGSIZE) m a with
  | Some n => ret n
  | None => undef "exec: argument not terminated"
  end.

(** Pushing the argument strings, the first [argc] of them done: [argc] and
    [sp] at the end, [None] for [goto bad]. *)
Fixpoint push_args (argv : list Z) (pagetable stackbase argc sp : Z) : KM (option (Z * Z)) :=
  match argv with
  | [] => ret (Some (argc, sp))
  | a :: rest =>
      if MAXARG <=? argc then ret None
      else
        let! n := kstrlen a in
        let sp := u64 (sp - (n + 1)) in
        let sp := sp - sp mod 16 in
        if sp <? stackbase then ret None
        else
          let! r := on_mem (copyout pagetable sp a (n + 1)) in
          if r <? 0 then ret None
          else
            on_mem (st64 (ustack_a + 8 * argc) sp) ;;
            push_args rest pagetable stackbase (argc + 1) sp
  end.

(** [for(last=s=path; *s; s++) if( *s == '/') last = s+1;] *)
Fixpoint last_elem (fuel : nat) (m : mem) (s last : Z) : Z :=
  match fuel with
  | O => last
  | S f =>
      if rd m s =? 0 then last
      else last_elem f m (s + 1) (if rd m s =? SLASH then s + 1 else last)
  end.

(** The label [bad]. *)
Definition exec_bad (pagetable sz : Z) (ip : option nat) : KM Z :=
  (if negb (pagetable =? 0) then on_proc (proc_freepagetable pagetable sz) else ret tt) ;;
  (match ip with
   | Some i => on_fs (iunlockput x i) ;; f_end_op
   | None => ret tt
   end) ;;
  ret (-1).

(** The stack: two pages above a guard page, the strings and the pointers to
    them; [None] for [goto bad], else [argc], the final [sp] and [sz]. *)
Definition build_stack (argv : list Z) (pagetable sz : Z) : KM (Z * option (Z * Z)) :=
  let sz := PGROUNDUP sz in
  let! sz1 := on_mem (uvmalloc pagetable sz (u64 (sz + (USERSTACK + 1) * PGSIZE)) PTE_W) in
  if sz1 =? 0 then ret (sz, None)
  else
    on_mem (uvmclear pagetable (sz1 - (USERSTACK + 1) * PGSIZE)) ;;
    let stackbase := sz1 - USERSTACK * PGSIZE in
    let! a := push_args argv pagetable stackbase 0 sz1 in
    match a with
    | None => ret (sz1, None)
    | Some (argc, sp) =>
        (if MAXARG <=? argc then undef "exec: ustack overflow" else ret tt) ;;
        on_mem (st64 (ustack_a + 8 * argc) 0) ;;
        let sp := u64 (sp - (argc + 1) * 8) in
        let sp := sp - sp mod 16 in
        if sp <? stackbase then ret (sz1, None)
        else
          let! r := on_mem (copyout pagetable sp ustack_a ((argc + 1) * 8)) in
          if r <? 0 then ret (sz1, None) else ret (sz1, Some (argc, sp))
    end.

(** The point of no return. *)
Definition exec_commit (i : nat) (path pagetable sz oldsz entry argc sp : Z) : KM Z :=
  let! tf := on_proc (pget i p_trapframe) in
  on_mem (st64 (tf + TF_a1) sp) ;;
  let! m := kmem in
  let last := last_elem path_fuel m path path in
  on_proc (pset i (fun p => set_name (name_copy (p_name p) (load_bytes 16 m last)) p)) ;;
  let! oldpagetable := on_proc (pget i p_pagetable) in
  on_proc (pset i (set_pagetable pagetable)) ;;
  on_proc (pset i (set_sz sz)) ;;
  on_mem (st64 (tf + TF_epc) entry) ;;
  on_mem (st64 (tf + TF_sp) sp) ;;
  on_proc (proc_freepagetable oldpagetable oldsz) ;;
  ret argc.

Definition exec (path : Z) (argv : list Z) : KM Z :=
  let! i := on_proc (curproc h) in
  f_begin_op ;;
  let! cwd := on_envf cp_cwd in
  let! o := on_fs (namei x (a_look fr) path_fuel cwd (a_namei fr) path) in
  match o with
  | None => f_end_op ;; ret (-1)
  | Some ip =>
      on_fs (ilock x (Some ip)) ;;
      let! r := on_fs (readi ip false elf_a 0 ELFHDR_SIZE) in
      if negb (r =? ELFHDR_SIZE) then exec_bad 0 0 (Some ip)
      else
        let! m := kmem in
        let elf := elfhdr_at m elf_a in
        if negb (e_magic elf =? ELF_MAGIC) then exec_bad 0 0 (Some ip)
        else
          let! pagetable := on_proc (proc_pagetable trampoline i) in
          if pagetable =? 0 then exec_bad 0 0 (Some ip)
          else
            let! (sz, ok) := load_segs (Z.to_nat (e_phnum elf)) ip pagetable (s32 (e_phoff elf)) 0 in
            if negb ok then exec_bad pagetable sz (Some ip)
            else
              on_fs (iunlockput x ip) ;;
              f_end_op ;;
              let! i := on_proc (curproc h) in
              let! oldsz := on_proc (pget i p_sz) in
              let! (sz, st) := build_stack argv pagetable sz in
              match st with
              | None => exec_bad pagetable sz None
              | Some (argc, sp) => exec_commit i path pagetable sz oldsz (e_entry elf) argc sp
              end
  end.
End ops.
