(* ===== verification/FsData.v ===== *)
(** * File contents: [bmap], [readi] and [writei] of kernel/fs.c

    A file is an array of bytes: [fbyte] reads it off the blocks of its inode.
    This file shows that [bmap], [readi] and [writei] act on that array, and
    that a write of [filewrite]'s size stays within the log space one
    operation may use. *)
From S2P Require Import Prelude CString Riscv Spinlock Bio Layout Log Txn Fs File.
Local Open Scope Z_scope.

#[local] Arguments Nat.div : simpl never.
#[local] Arguments Nat.modulo : simpl never.

(** Block numbers of a file: twelve direct ones and those of one indirect block. *)
Definition FILEBLKS : nat := 268.

(** ** The abstract file *)
Definition ind (i : inode) : Z := i_addrs i !!! 12%nat.
Definition entry (d : block) (k : nat) : Z := get_le d (4 * k) 4.

(** The disk block of the file's block [bn], 0 when it has none. *)
Definition baddr (vw : Z -> block) (i : inode) (bn : nat) : Z :=
  if decide (bn < 12)%nat then i_addrs i !!! bn
  else if decide (ind i = 0) then 0 else entry (vw (ind i)) (bn - 12).

(** The byte at offset [p]. *)
Definition fbyte (vw : Z -> block) (i : inode) (p : Z) : Z :=
  vw (baddr vw i (Z.to_nat (p / BSIZE))) !!! Z.to_nat (p mod BSIZE).

Section wf.
Context {T : Type} {V : BlockTxnView T} (sb : superblock).
Implicit Types vw : Z -> block.
Implicit Types i : inode.

(** A block the allocator has marked in use and that is not part of the bitmap. *)
Definition owned vw (a : Z) : Prop :=
  0 < a < sb_size sb /\ bit_of sb vw a = true /\ t_can_log a /\ forall m, 0 <= m < sb_size sb -> BBLOCK m sb <> a.

(** The blocks of an inode are its own and distinct. *)
Record iwf vw i : Prop := {
  iw_len : length (i_addrs i) = 13%nat;
  iw_own : forall b, (b < FILEBLKS)%nat -> baddr vw i b <> 0 -> owned vw (baddr vw i b);
  iw_ind : ind i <> 0 -> owned vw (ind i);
  iw_inj : forall b c, (b < FILEBLKS)%nat -> (c < FILEBLKS)%nat -> baddr vw i b = baddr vw i c -> baddr vw i b <> 0 -> b = c;
  iw_sep : forall b, (b < FILEBLKS)%nat -> baddr vw i b <> 0 -> baddr vw i b <> ind i;
  iw_blk : owned vw (IBLOCK (i_inum i) sb);
  iw_blk_sep : (forall b, (b < FILEBLKS)%nat -> baddr vw i b <> IBLOCK (i_inum i) sb) /\ ind i <> IBLOCK (i_inum i) sb;
}.

(** The blocks below the size are there. *)
Definition isize_ok vw i : Prop :=
  0 <= i_size i <= MAXFILE * BSIZE /\ forall b, Z.of_nat b * BSIZE < i_size i -> baddr vw i b <> 0.

(** The disk: one bitmap block, and block 0 in use. *)
Record disk_ok vw (hd : Z -> option nat) : Prop := {
  do_alloc : alloc_ok sb vw hd;
  do_zero : bit_of sb vw 0 = true;
  do_size : 0 < sb_size sb <= BPB;
}.

Definition bits_ge vw vw' : Prop := forall m, 0 <= m < sb_size sb -> bit_of sb vw m = true -> bit_of sb vw' m = true.

(** [vw'], [i'] is [vw], [i] with some blocks added to the file. *)
Record ext vw i vw' i' : Prop := {
  ex_addr : forall b, (b < FILEBLKS)%nat -> baddr vw i b <> 0 -> baddr vw' i' b = baddr vw i b;
  ex_data : forall b, (b < FILEBLKS)%nat -> baddr vw' i' b <> 0 ->
    vw' (baddr vw' i' b) = if decide (baddr vw i b = 0) then replicate BSZ 0 else vw (baddr vw i b);
  ex_same : i' = with_addrs (i_addrs i') i;
  ex_ind : ind i' = ind i \/ ~ owned vw (ind i');
  ex_frame : forall a, owned vw a -> a <> ind i -> vw' a = vw a;
  ex_bits : bits_ge vw vw';
  ex_new : forall b, (b < FILEBLKS)%nat -> baddr vw i b = 0 -> ~ owned vw (baddr vw' i' b);
}.

(** Every block is in use. *)
Definition disk_full vw : Prop := forall m, 0 <= m < sb_size sb -> bit_of sb vw m = true.

Lemma owned_mono vw vw' a : bits_ge vw vw' -> owned vw a -> owned vw' a.
Proof. intros HB (H1 & H2 & H3 & H4). split_and!; try done; try lia. apply HB; [lia|done]. Qed.

Lemma ext_refl vw i : ext vw i vw i.
Proof. split; [done|intros b Hb Hn; by rewrite decide_False|by destruct i|by left|done|by intros m|]. intros b Hb -> (? & _). lia. Qed.

Lemma ext_trans vw i vw1 i1 vw2 i2 : ext vw i vw1 i1 -> ext vw1 i1 vw2 i2 -> ext vw i vw2 i2.
Proof.
  intros [A1 A2 A3 A4 A5 A6 A7] [B1 B2 B3 B4 B5 B6 B7]. split.
  - intros b Hb Hn. rewrite B1, A1; [done|done|done|done|]. by rewrite A1.
  - intros b Hb Hn. rewrite B2 by done. destruct (decide (baddr vw i b = 0)) as [E0|E0].
    + destruct (decide (baddr vw1 i1 b = 0)) as [E1|E1]; [done|]. by rewrite A2, decide_True.
    + rewrite decide_False by (by rewrite A1). rewrite A2, decide_False; [done|done|done|by rewrite A1].
  - rewrite B3, A3. by destruct i.
  - destruct B4 as [-> |HO]; [done|]. right. intros H. apply HO. by eapply owned_mono.
  - intros a Ha Hne. rewrite B5; [by apply A5|by eapply owned_mono|]. destruct A4 as [-> |HO]; [done|congruence].
  - intros m Hm Hbit. auto.
  - intros b Hb Hz. destruct (decide (baddr vw1 i1 b = 0)) as [E1|E1]; [|rewrite B1 by done; by apply A7].
    intros HO. apply (B7 b Hb E1). by eapply owned_mono.
Qed.

Lemma baddr_frame vw vw' i b : (ind i <> 0 -> vw' (ind i) = vw (ind i)) -> baddr vw' i b = baddr vw i b.
Proof. intros H. unfold baddr. repeat case_decide; try done. by rewrite H. Qed.

(** Changes outside the inode's own metadata. *)
Lemma iwf_frame vw vw' i : iwf vw i -> bits_ge vw vw' -> (ind i <> 0 -> vw' (ind i) = vw (ind i)) -> iwf vw' i.
Proof.
  intros [W1 W2 W3 W4 W5 W6 W7] HB HI. pose proof (fun b => baddr_frame vw vw' i b HI) as E.
  split; try done; try (intros *; rewrite !E); eauto using owned_mono.
  split; [intros b; rewrite E; apply W7|apply W7].
Qed.

Lemma one_bitmap n : 0 < sb_size sb <= BPB -> 0 <= n < sb_size sb -> BBLOCK n sb = BBLOCK 0 sb.
Proof. intros H1 H2. apply BBLOCK_same. unfold BPB, BSIZE in *. dlia. Qed.

(** A block written that is not part of the bitmap. *)
Lemma bits_upd vw b d : (forall m, 0 <= m < sb_size sb -> BBLOCK m sb <> b) ->
  forall m, 0 <= m < sb_size sb -> bit_of sb (upd_at vw b d) m = bit_of sb vw m.
Proof. intros Hb m Hm. unfold bit_of, upd_at. by rewrite decide_False by auto. Qed.

Lemma disk_ok_bits vw vw' hd : disk_ok vw hd -> bits_ge vw vw' -> disk_ok vw' hd.
Proof.
  intros [[A1 A2 A3] Z S] HB. split; [split; [done|done|]|apply HB; [lia|done]|done].
  intros n Hn Hf. apply A3; [done|]. destruct (bit_of sb vw n) eqn:E; [|done]. by rewrite HB in Hf.
Qed.

Lemma disk_ok_held vw hd hd' : disk_ok vw hd -> (forall b, hd' b = hd b \/ owned vw b) -> disk_ok vw hd'.
Proof.
  intros [[A1 A2 A3] Z S] HH. split; [split; [done| |]|done|done].
  - intros n Hn. destruct (A2 n Hn) as (? & ? & ?). split_and!; try done; try lia.
    destruct (HH (BBLOCK n sb)) as [-> |(_ & _ & _ & HO)]; [done|]. by destruct (HO n Hn).
  - intros n Hn Hf. destruct (A3 n Hn Hf) as (? & ? & ?). split_and!; try done.
    destruct (HH n) as [-> |(_ & HO & _)]; [done|congruence].
Qed.

(** What [balloc] gave: a block nobody had, filled with zeros. *)
Record got vw (r : Z) vw' : Prop := {
  gt_owned : owned vw' r;
  gt_new : ~ owned vw r;
  gt_zero : vw' r = replicate BSZ 0;
  gt_frame : forall a, owned vw a -> vw' a = vw a;
  gt_bits : bits_ge vw vw';
}.

Lemma balloc_got_got vw r vw' hd : (forall b, length (vw b) = BSZ) -> disk_ok vw hd -> balloc_got sb vw r vw' -> got vw r vw'.
Proof.
  intros HL [[A1 A2 A3] HZ HS] (Hr & Hf & _ & ->). destruct (A3 r Hr Hf) as (F1 & F2 & F3).
  set (v1 := upd_at vw (BBLOCK r sb) _).
  assert (HB : forall m, 0 <= m < sb_size sb -> bit_of sb (upd_at v1 r (replicate BSZ 0)) m = if decide (m = r) then true else bit_of sb vw m).
  { intros m Hm. rewrite bits_upd by done. unfold v1. apply bit_of_upd; [lia|lia|]. intros j Hj.
    apply bit_used_set; [done|unfold BPB, BSIZE; dlia|done]. }
  assert (H0 : r <> 0) by (intros ->; congruence).
  split.
  - split_and!; [lia|lia|by rewrite HB, decide_True|done|done].
  - intros (_ & Hu & _). congruence.
  - unfold upd_at. by rewrite decide_True.
  - intros a (Ha & Hu & _ & Hm). unfold upd_at, v1, upd_at. rewrite !decide_False; [done| |congruence]. intros E. by destruct (Hm r Hr).
  - intros m Hm Hu. rewrite HB by done. by case_decide.
Qed.

Lemma iwf_got vw r vw' i : iwf vw i -> got vw r vw' ->
  iwf vw' i /\ (forall b, baddr vw' i b = baddr vw i b) /\
  (forall b, (b < FILEBLKS)%nat -> baddr vw i b <> r) /\ r <> ind i /\ r <> IBLOCK (i_inum i) sb.
Proof.
  intros W [G1 G2 G3 G4 G5]. assert (HI : ind i <> 0 -> vw' (ind i) = vw (ind i)) by (intros H; apply G4; by apply W).
  split_and!; [by eapply iwf_frame|intros b; by apply baddr_frame| | |].
  - intros b Hb E. destruct (decide (baddr vw i b = 0)) as [E0|E0]; [destruct G1; lia|]. apply G2. rewrite <- E. by apply W.
  - intros E. destruct (decide (ind i = 0)) as [E0|E0]; [destruct G1; lia|]. apply G2. rewrite E. by apply W.
  - intros E. apply G2. rewrite E. apply W.
Qed.

(** One address added to an inode: of the file's block [n], or of the indirect
    block (then [n] is no block number). *)
Lemma iwf_add vw i vw2 i2 n r :
  iwf vw i -> owned vw2 r -> bits_ge vw vw2 -> length (i_addrs i2) = 13%nat -> i_inum i2 = i_inum i ->
  (forall b, (b < FILEBLKS)%nat -> baddr vw2 i2 b = if decide (b = n) then r else baddr vw i b) ->
  (ind i2 = ind i \/ ind i2 = r /\ (FILEBLKS <= n)%nat) ->
  (forall b, (b < FILEBLKS)%nat -> baddr vw i b <> r) -> r <> ind i -> r <> IBLOCK (i_inum i) sb -> iwf vw2 i2.
Proof.
  intros [W1 W2 W3 W4 W5 W6 W7] HO HB HL HN E HI R1 R2 R3. pose proof HO as (Hr & _).
  split; [done| | | | |rewrite HN; by eapply owned_mono|].
  - intros b Hb. rewrite E by done. case_decide; [done|]. intros Hz. eapply owned_mono; [done|]. by apply W2.
  - destruct HI as [-> |[-> _]]; [|done]. intros H. eapply owned_mono; [done|]. by apply W3.
  - intros b c Hb Hc. rewrite !E by done. repeat case_decide; subst; try done.
    + intros Hz. by destruct (R1 c Hc).
    + intros Hz. by destruct (R1 b Hb).
    + by apply W4.
  - intros b Hb. rewrite E by done. destruct HI as [-> |[-> Hn]].
    + case_decide; [done|by apply W5].
    + case_decide; [lia|]. intros _. by apply R1.
  - rewrite HN. split.
    + intros b Hb. rewrite E by done. case_decide; [done|by apply W7].
    + destruct HI as [-> |[-> _]]; [apply W7|done].
Qed.

Lemma le_dec_zeros n : le_dec (replicate n 0) = 0.
Proof. induction n as [|n IH]; [done|]. cbn [replicate le_dec]. by rewrite IH. Qed.

Lemma entry_zeros k : entry (replicate BSZ 0) k = 0.
Proof. unfold entry, get_le, get_bytes. rewrite drop_replicate, take_replicate. apply le_dec_zeros. Qed.

Lemma entry_put d k j r : length d = BSZ -> (k < 256)%nat -> (j < 256)%nat -> 0 <= r < 2 ^ 32 ->
  entry (put_le d (4 * k) 4 r) j = if decide (j = k) then r else entry d j.
Proof.
  intros HL Hk Hj Hr. unfold entry, get_le, put_le. pose proof (length_le_enc 4 r) as H4. unfold BSZ in HL. case_decide as E.
  - subst j. rewrite <- H4 at 3. rewrite get_put_same by (rewrite H4; lia). rewrite le_dec_enc. by apply Z.mod_small.
  - rewrite get_put_disjoint; [done|rewrite H4; lia|rewrite H4; lia].
Qed.

(** A direct block or the indirect block allocated. *)
Lemma ext_slot vw i r vw' n (i' := with_addrs (<[n := r]> (i_addrs i)) i) :
  iwf vw i -> got vw r vw' -> (n < 13)%nat -> i_addrs i !!! n = 0 ->
  iwf vw' i' /\ ext vw i vw' i' /\ ((n < 12)%nat -> baddr vw' i' n = r) /\ (n = 12%nat -> ind i' = r).
Proof.
  intros W G Hn H0. pose proof (iw_len _ _ W) as HL. destruct (iwf_got vw r vw' i W G) as (W' & E & R1 & R2 & R3).
  assert (HI : ind i' = if decide (n = 12%nat) then r else ind i).
  { unfold ind, i'. cbn. case_decide; [subst; by rewrite list_lookup_total_insert_eq by lia|by rewrite list_lookup_total_insert_ne]. }
  assert (HA : forall b, baddr vw' i' b = if decide (b = n /\ (n < 12)%nat) then r else baddr vw i b).
  { intros b. rewrite <- E. unfold baddr at 1. destruct (decide (b < 12)%nat) as [Hb|Hb].
    - cbn [i' i_addrs with_addrs]. destruct (decide (b = n)) as [->|Hne].
      + rewrite list_lookup_total_insert_eq by lia. by rewrite decide_True.
      + rewrite list_lookup_total_insert_ne by done. rewrite decide_False by tauto. unfold baddr. by rewrite decide_True.
    - rewrite (decide_False (P := b = n /\ _)) by lia. rewrite HI. unfold baddr. rewrite (decide_False (P := (b < 12)%nat)) by done.
      destruct (decide (n = 12%nat)) as [->|Hne]; [|done]. change (ind i) with (i_addrs i !!! 12%nat). rewrite H0, (decide_True (P := 0 = 0)) by done.
      destruct (decide (r = 0)); [done|]. by rewrite (gt_zero _ _ _ G), entry_zeros. }
  pose proof G as [G1 G2 G3 G4 G5]. split_and!.
  - eapply (iwf_add vw i vw' i' (if decide (n < 12)%nat then n else FILEBLKS) r); try done.
    + cbn. by rewrite length_insert.
    + intros b Hb. rewrite HA. destruct (decide (n < 12)%nat); repeat case_decide; done || lia || tauto.
    + rewrite HI. case_decide; [right|by left]. rewrite decide_False by lia. split; [done|lia].
  - split; [| | | | |done|].
    + intros b Hb Hz. rewrite HA. destruct (decide (b = n /\ (n < 12)%nat)) as [[-> Hlt]|_]; [|done]. destruct Hz. unfold baddr. by rewrite decide_True.
    + intros b Hb. rewrite HA. destruct (decide (b = n /\ (n < 12)%nat)) as [[-> Hlt]|_].
      * intros _. rewrite G3, decide_True; [done|]. unfold baddr. by rewrite decide_True.
      * intros Hz. rewrite decide_False by done. apply G4. by apply W.
    + by destruct i.
    + rewrite HI. case_decide; [by right|by left].
    + intros a Ha _. by apply G4.
    + intros b Hb Hz. rewrite HA. destruct (decide (b = n /\ (n < 12)%nat)); [done|]. rewrite Hz. intros (? & _). lia.
  - intros Hlt. by rewrite HA, decide_True.
  - intros ->. rewrite HI. by rewrite decide_True.
Qed.

(** An entry of the indirect block set. *)
Lemma ext_entry vw i r vw' k (vw2 := upd_at vw' (ind i) (put_le (vw' (ind i)) (4 * k) 4 r)) :
  sb_size sb < 2 ^ 31 -> iwf vw i -> got vw r vw' -> ind i <> 0 -> (k < 256)%nat -> length (vw (ind i)) = BSZ -> entry (vw (ind i)) k = 0 ->
  iwf vw2 i /\ ext vw i vw2 i /\ baddr vw2 i (12 + k) = r.
Proof.
  intros HS W G Hi Hk HL H0. destruct (iwf_got vw r vw' i W G) as (W' & E & R1 & R2 & R3).
  pose proof G as [G1 G2 G3 G4 G5]. pose proof (iw_ind _ _ W Hi) as OI. pose proof (G4 _ OI) as EI. pose proof G1 as (Hr & _).
  assert (E2 : vw2 (ind i) = put_le (vw (ind i)) (4 * k) 4 r) by (unfold vw2, upd_at; rewrite decide_True by done; by rewrite EI).
  assert (HA : forall b, (b < FILEBLKS)%nat -> baddr vw2 i b = if decide (b = (12 + k)%nat) then r else baddr vw i b).
  { intros b Hb. unfold FILEBLKS in Hb. unfold baddr. destruct (decide (b < 12)%nat); [by rewrite decide_False by lia|].
    rewrite !(decide_False (P := ind i = 0)) by done. rewrite E2, entry_put by (done || lia).
    destruct (decide (b - 12 = k)%nat), (decide (b = 12 + k)%nat); try done; lia. }
  assert (HB : bits_ge vw vw2).
  { intros m Hm Hbit. unfold vw2. rewrite bits_upd; [by apply G5|apply OI|done]. }
  split_and!.
  - eapply (iwf_add vw i vw2 i (12 + k) r); try done; [|apply W|by left].
    destruct G1 as (O1 & O2 & O3 & O4). split_and!; try done; try lia. unfold vw2. rewrite bits_upd; [done|apply OI|lia].
  - split; [| |by destruct i|by left| |done|].
    + intros b Hb Hz. rewrite HA by done. case_decide as D; [|done]. destruct Hz. subst b. unfold baddr.
      rewrite !decide_False by (done || lia). by replace (12 + k - 12)%nat with k by lia.
    + intros b Hb. rewrite HA by done. case_decide as D.
      * intros _. rewrite decide_True; [unfold vw2, upd_at; by rewrite decide_False|]. subst b. unfold baddr.
        rewrite !decide_False by (done || lia). by replace (12 + k - 12)%nat with k by lia.
      * intros Hz. rewrite decide_False by done. unfold vw2, upd_at. rewrite decide_False by (by apply W). apply G4. by apply W.
    + intros a Ha Hne. unfold vw2, upd_at. rewrite decide_False by done. by apply G4.
    + intros b Hb Hz. rewrite HA by done. case_decide; [done|]. rewrite Hz. intros (? & _). lia.
  - rewrite HA by (unfold FILEBLKS; lia). by rewrite decide_True.
Qed.
End wf.

(** ** Running [bmap] *)
Section run.
Context {T U : Type} {B : BlockTxn T} {V : BlockTxnView T} {UM : UserMem U} {dv : Z} {L : BlockTxnLaws T dv} (sb : superblock).
Implicit Types s : fsst T U.
Implicit Types vw : Z -> block.
Implicit Types i : inode.

Definition none : Z -> option nat := fun _ => None.
Definition clean : Z -> Prop := fun _ => True.
Abbreviation bb := (BBLOCK 0 sb).

(** Everything but the blocks, the console and inode [ip] is the same. *)
Definition same s s' (ip : nat) i' : Prop :=
  fs_sb s' = fs_sb s /\ fs_ilock s' = fs_ilock s /\ fs_u s' = fs_u s /\ fs_woken s' = fs_woken s /\
  fs_inode s' = <[ip := i']> (fs_inode s).

Lemma same_trans s s1 s2 ip i1 i2 : same s s1 ip i1 -> same s1 s2 ip i2 -> same s s2 ip i2.
Proof. intros (A1 & A2 & A3 & A4 & A5) (B1 & B2 & B3 & B4 & B5). repeat split; try congruence. by rewrite B5, A5, list_insert_insert_eq. Qed.

Lemma same_get s s' ip i' : (ip < length (fs_inode s))%nat -> same s s' ip i' -> geti ip s' = i' /\ (ip < length (fs_inode s'))%nat.
Proof. intros H (_ & _ & _ & _ & E). unfold geti. rewrite E, length_insert. by rewrite list_lookup_total_insert_eq. Qed.

Lemma same_only s s' ip : (ip < length (fs_inode s))%nat -> only_t s s' -> same s s' ip (geti ip s).
Proof.
  intros H (E1 & E2 & E3 & E4 & E5). repeat split; try congruence. rewrite E3. symmetry. apply list_insert_id.
  unfold geti. by apply list_lookup_lookup_total_lt.
Qed.

(** With no block held every block is clean. *)
Lemma txd_idle (t : T) vw hd cl lg rm sp : txd t vw hd cl lg rm sp -> (forall b, hd b = None) -> txd t vw none clean lg rm sp.
Proof.
  intros [I E1 E2 E3 E4 E5 E6] H. split; try done; [intros b; by rewrite E2, H|]. intros b _. apply tl_idle; [done|]. by rewrite E2, H.
Qed.

(** [balloc] on such a disk. *)
Lemma balloc_disk s vw hd cl lg rm sp dev :
  fs_sb s = sb -> txd (fs_t s) vw hd cl lg rm sp -> u32 dev = dv -> disk_ok sb vw hd -> 2 <= rm -> 2 <= sp ->
  runs (balloc dev) s (fun r s' => only_t s s' /\
    (r = 0 /\ disk_full sb vw /\ txd (fs_t s') vw hd cl lg rm sp \/
     r <> 0 /\ exists vw', got sb vw r vw' /\ disk_ok sb vw' hd /\
       txd (fs_t s') vw' hd cl (r :: bb :: lg) (rm - fresh lg bb - fresh (bb :: lg) r) (sp - fresh lg bb - fresh (bb :: lg) r))).
Proof.
  intros Hsb D Hdev DK Hrm Hsp. eapply runs_mono; [eapply (balloc_exact sb); try done; apply DK|].
  intros r s' [O [(-> & HF & D')|(vw' & HG & D')]]; (split; [done|]); [by left|right].
  pose proof HG as (Hr & _). unfold alloc_cost in D'. rewrite (one_bitmap sb r (do_size _ _ _ DK) Hr) in D'.
  assert (G : got sb vw r vw') by (eapply balloc_got_got; [intros b; by eapply txd_len|done|done]).
  split; [destruct G as [[? _] _ _ _ _]; lia|]. exists vw'. split_and!; [done|eapply disk_ok_bits; [done|apply G]|].
  eapply txd_weaken; [exact D'|..]; done || lia.
Qed.

(** The allocation of a direct block ([n < 12]) or of the indirect block. *)
Lemma slot_run s ip vw lg rm sp n (i := geti ip s) :
  fs_sb s = sb -> (ip < length (fs_inode s))%nat -> txd (fs_t s) vw none clean lg rm sp -> u32 (i_dev i) = dv ->
  disk_ok sb vw none -> iwf sb vw i -> 2 <= rm -> 2 <= sp -> (n < 13)%nat -> i_addrs i !!! n = 0 ->
  runs (let! addr := balloc (i_dev i) in if addr =? 0 then ret 0 else set_iaddr ip n addr ;; ret addr) s (fun r s' =>
    r = 0 /\ disk_full sb vw /\ same s s' ip i /\ txd (fs_t s') vw none clean lg rm sp \/
    r <> 0 /\ exists vw' i', same s s' ip i' /\ i' = with_addrs (<[n := r]> (i_addrs i)) i /\ got sb vw r vw' /\ disk_ok sb vw' none /\
      txd (fs_t s') vw' none clean (r :: bb :: lg) (rm - fresh lg bb - fresh (bb :: lg) r) (sp - fresh lg bb - fresh (bb :: lg) r)).
Proof.
  intros Hsb Hip D Hdev DK W Hrm Hsp Hn H0. eapply runs_seq; [by eapply balloc_disk|].
  intros r s1 [O [(-> & HF & D1)|(Hr & vw' & G & DK' & D1)]]; pose proof (same_only s s1 ip Hip O) as Sm.
  - cbn [Z.eqb]. mstep. left. by split_and!.
  - rewrite (proj2 (Z.eqb_neq _ _)) by done. unfold set_iaddr. mstep. mstep. right. split; [done|].
    exists vw', (with_addrs (<[n := r]> (i_addrs i)) i). split_and!; try done.
    destruct (same_get s s1 ip _ Hip Sm) as [Eg Hip1]. eapply same_trans; [exact Sm|]. unfold updi. rewrite Eg. by repeat split.
Qed.

(** What allocating in the file can still cost: the bitmap and the indirect block. *)
Definition need (lg : list Z) i : Z := fresh lg bb + (if decide (ind i = 0) then 1 else fresh lg (ind i)).

Lemma fresh_mono lg lg' b : (forall c, c ∈ lg -> c ∈ lg') -> fresh lg' b <= fresh lg b.
Proof. intros H. unfold fresh. repeat case_decide; try lia. exfalso. auto. Qed.

Lemma fresh_in lg b : b ∈ lg -> fresh lg b = 0.
Proof. intros H. unfold fresh. by rewrite decide_True. Qed.

Record bmap_post s (ip : nat) vw (lg : list Z) (rm sp : Z) (bn : nat) (r : Z) s' vw' i' lg' rm' sp' : Prop := {
  bp_same : same s s' ip i';
  bp_txd : txd (fs_t s') vw' none clean lg' rm' sp';
  bp_disk : disk_ok sb vw' none;
  bp_wf : iwf sb vw' i';
  bp_ext : ext sb vw (geti ip s) vw' i';
  bp_lg : forall b, b ∈ lg -> b ∈ lg';
  bp_addr : r = baddr vw' i' bn;
  bp_full : r = 0 -> disk_full sb vw';
  bp_sp : sp - (need lg (geti ip s) - need lg' i') - 1 + (if decide (r = 0) then 0 else fresh lg' r) <= sp';
  bp_rm : rm - (need lg (geti ip s) - need lg' i') - 1 + (if decide (r = 0) then 0 else fresh lg' r) <= rm';
}.

Lemma bmap_stay s s' ip vw lg rm sp bn r (i := geti ip s) :
  same s s' ip i -> txd (fs_t s') vw none clean lg rm sp -> disk_ok sb vw none -> iwf sb vw i -> r = baddr vw i bn ->
  (r = 0 -> disk_full sb vw) -> exists vw' i' lg' rm' sp', bmap_post s ip vw lg rm sp bn r s' vw' i' lg' rm' sp'.
Proof.
  intros. exists vw, i, lg, rm, sp. split; try done; [apply ext_refl| |]; fold i; pose proof (fresh_range lg r); case_decide; lia.
Qed.

Lemma bmap_direct s ip vw lg rm sp bn (i := geti ip s) :
  fs_sb s = sb -> (ip < length (fs_inode s))%nat -> txd (fs_t s) vw none clean lg rm sp -> u32 (i_dev i) = dv ->
  disk_ok sb vw none -> iwf sb vw i -> (bn < 12)%nat -> need lg i + 2 <= sp -> need lg i + 2 <= rm ->
  runs (bmap ip (Z.of_nat bn)) s (fun r s' => exists vw' i' lg' rm' sp', bmap_post s ip vw lg rm sp bn r s' vw' i' lg' rm' sp').
Proof.
  intros Hsb Hip D Hdev DK W Hbn Hsp Hrm. unfold bmap. mstep. fold i. rewrite (proj2 (Z.ltb_lt _ NDIRECT)) by (unfold NDIRECT; lia).
  rewrite Nat2Z.id. unfold iaddr. mstep. fold i.
  assert (EB : baddr vw i bn = i_addrs i !!! bn) by (unfold baddr; by rewrite decide_True).
  assert (HN : 0 <= need lg i) by (unfold need; pose proof (fresh_range lg bb); pose proof (fresh_range lg (ind i)); case_decide; lia).
  destruct (Z.eqb_spec (i_addrs i !!! bn) 0) as [E0|E0].
  2:{ mstep. apply bmap_stay; [by apply same_only|done|done|done|exact (eq_sym EB)|done]. }
  eapply runs_mono; [eapply (slot_run s ip vw lg rm sp bn); try done; lia|].
  intros r s' [(-> & HF & Sm & D')|(Hr & vw' & i' & Sm & Ei & G & DK' & D')].
  - apply bmap_stay; [done|done|done|done|symmetry; exact (eq_trans EB E0)|done].
  - destruct (ext_slot sb vw i r vw' bn W G ltac:(lia) E0) as (W' & X & HA & _).
    set (j := with_addrs (<[bn := r]> (i_addrs i)) i) in *. change (i' = j) in Ei. subst i'.
    exists vw', j, (r :: bb :: lg), (rm - fresh lg bb - fresh (bb :: lg) r), (sp - fresh lg bb - fresh (bb :: lg) r).
    pose proof (fresh_range (bb :: lg) r) as F1.
    assert (F2 : fresh (r :: bb :: lg) r = 0) by (apply fresh_in; set_solver).
    assert (F3 : need (r :: bb :: lg) j <= need lg i - fresh lg bb).
    { unfold need. rewrite (fresh_in (r :: bb :: lg) bb) by set_solver.
      replace (ind j) with (ind i) by (unfold ind, j; cbn; by rewrite list_lookup_total_insert_ne by lia).
      pose proof (fresh_mono lg (r :: bb :: lg) (ind i) ltac:(set_solver)). case_decide; lia. }
    split; try done; [set_solver|by rewrite HA by lia| |]; fold i; rewrite decide_False, F2 by done; lia.
Qed.

(** An allocation of the entry [k] in the held indirect block. *)
Lemma entry_alloc s ip vw lg rm sp k h (i := geti ip s) :
  fs_sb s = sb -> txd (fs_t s) vw (upd_at none (ind i) (Some h)) clean lg rm sp -> u32 (i_dev i) = dv ->
  disk_ok sb vw none -> iwf sb vw i -> ind i <> 0 -> (k < 256)%nat -> entry (vw (ind i)) k = 0 ->
  fresh lg bb + fresh lg (ind i) + 2 <= sp -> 2 <= rm ->
  runs (let! addr := balloc (i_dev i) in
        (if negb (addr =? 0) then
           let! d := fs_data h in fs_set_data h (put_le d (4 * k) 4 addr) ;; fs_log_write h
         else ret tt) ;;
        ret addr) s (fun r s' => only_t s s' /\
    (r = 0 /\ disk_full sb vw /\ txd (fs_t s') vw (upd_at none (ind i) (Some h)) clean lg rm sp \/
     r <> 0 /\ exists vw1, got sb vw r vw1 /\ disk_ok sb vw1 none /\
       txd (fs_t s') (upd_at vw1 (ind i) (put_le (vw1 (ind i)) (4 * k) 4 r)) (upd_at none (ind i) (Some h)) clean
         (ind i :: r :: bb :: lg) (rm - fresh lg bb - fresh (bb :: lg) r)
         (sp - fresh lg bb - fresh (bb :: lg) r - fresh (r :: bb :: lg) (ind i)))).
Proof.
  intros Hsb D Hdev DK W Hi Hk H0 Hsp Hrm. pose proof (iw_ind _ _ _ W Hi) as OI.
  pose proof (fresh_range lg bb). pose proof (fresh_range lg (ind i)).
  eapply runs_seq; [eapply balloc_disk; [exact Hsb|exact D|exact Hdev| |lia|lia]|].
  { eapply disk_ok_held; [exact DK|]. intros b. unfold upd_at. destruct (decide (b = ind i)) as [-> |]; [by right|by left]. }
  intros r s1 [O [(-> & HF & D1)|(Hr & vw1 & G & DK1 & D1)]].
  { cbn [Z.eqb negb]. mstep. mstep. split; [done|by left]. }
  rewrite (proj2 (Z.eqb_neq _ _)) by done. cbn [negb]. apply runs_bind.
  pose proof (fresh_range (bb :: lg) r). pose proof OI as (_ & _ & CL & _).
  eapply (r_data _ _ _ _ _ _ _ (ind i)); [exact D1|upd_solve|].
  eapply (r_set _ _ _ _ _ _ _ (ind i)); [exact D1|upd_solve| |].
  { rewrite length_put_le; [by eapply txd_len|]. erewrite txd_len by exact D1. unfold BSZ. lia. }
  intros t2 D2. unfold fs_log_write. apply runs_zoom.
  eapply runs_mono; [eapply (tl_log _ _ _ _ _ _ _ (ind i)); [exact D2|upd_solve|exact CL|lia]|].
  intros ? t3 D3. mstep. split; [destruct O as (?&?&?&?&?); by repeat split|]. right. split; [done|]. exists vw1. split_and!; [done| |].
  - eapply disk_ok_bits; [exact DK|apply G].
  - cbn [fs_t set_t]. eapply txd_weaken; [exact D3|..]; try done; try lia.
    + intros b _. unfold clean. destruct (decide (b = ind i)); [by right|left; done].
    + change (fresh (r :: bb :: lg) (ind i)) with (if decide (ind i ∈ r :: bb :: lg) then 0 else 1).
      destruct (decide (ind i ∈ r :: bb :: lg)); lia.
Qed.

(** The part of [bmap] that looks up and fills the indirect block. *)
Definition bmap_entry (dev : Z) (a : Z) (k : nat) : M (fsst T U) Z :=
  let! bp := fs_bread dev a in
  let! d := fs_data bp in
  let! addr :=
    (if get_le d (4 * k) 4 =? 0 then
       let! addr := balloc dev in
       (if negb (addr =? 0) then
          let! d := fs_data bp in
          fs_set_data bp (put_le d (4 * k) 4 addr) ;;
          fs_log_write bp
        else ret tt) ;;
       ret addr
     else ret (get_le d (4 * k) 4)) in
  fs_brelse bp ;;
  ret addr.

Lemma baddr_entry vw i k : ind i <> 0 -> baddr vw i (12 + k) = entry (vw (ind i)) k.
Proof. intros Hi. unfold baddr. rewrite !decide_False by (done || lia). by replace (12 + k - 12)%nat with k by lia. Qed.

Lemma entry_run s ip vw lg rm sp k (i := geti ip s) :
  fs_sb s = sb -> (ip < length (fs_inode s))%nat -> txd (fs_t s) vw none clean lg rm sp -> u32 (i_dev i) = dv ->
  disk_ok sb vw none -> iwf sb vw i -> ind i <> 0 -> (k < 256)%nat ->
  fresh lg bb + fresh lg (ind i) + 2 <= sp -> fresh lg bb + fresh lg (ind i) + 3 <= rm ->
  runs (bmap_entry (i_dev i) (ind i) k) s (fun r s' => exists vw' i' lg' rm' sp', bmap_post s ip vw lg rm sp (12 + k) r s' vw' i' lg' rm' sp').
Proof.
  intros Hsb Hip D Hdev DK W Hi Hk Hsp Hrm. pose proof (iw_ind _ _ _ W Hi) as OI. pose proof OI as (Hr0 & _ & CL & _).
  destruct (do_alloc _ _ _ DK) as [HSZ _ _]. pose proof (fresh_range lg bb). pose proof (fresh_range lg (ind i)).
  assert (FI : (if decide (ind i ∈ lg) then rm else rm - 1) = rm - fresh lg (ind i)) by (unfold fresh; case_decide; lia).
  unfold bmap_entry. eapply r_bread; [exact D|exact Hdev|lia|done|lia|]. intros h t1 D1. rewrite FI in D1.
  eapply (r_data _ _ _ _ _ _ _ (ind i)); [exact D1|upd_solve|]. fold (entry (vw (ind i)) k).
  assert (D1' : txd t1 vw (upd_at none (ind i) (Some h)) clean lg (rm - fresh lg (ind i)) sp)
    by (eapply txd_weaken; [exact D1|..]; try done; intros; by left).
  pose proof (baddr_entry vw i k Hi) as EB. destruct (Z.eqb_spec (entry (vw (ind i)) k) 0) as [E0|E0].
  - eapply runs_seq; [eapply (entry_alloc (set_t t1 s) ip vw lg _ sp k h); try done; lia|].
    intros r s2 [O [(-> & HF & D2)|(Hr & vw1 & G & DK1 & D2)]].
    + apply runs_bind. eapply (r_relse _ _ _ _ _ _ _ (ind i)); [exact D2|upd_solve|done|]. intros t3 D3. mstep.
      apply bmap_stay; [|eapply (txd_idle _ _ _ clean); [eapply txd_weaken; [exact D3|..]; try done|]|done|done| |done].
      * apply same_only; [done|]. destruct O as (?&?&?&?&?). by repeat split.
      * change (geti ip (set_t t1 s)) with i. unfold fresh. destruct (decide (ind i ∈ lg)); lia.
      * intros b. unfold upd_at. by repeat case_decide.
      * symmetry. exact (eq_trans EB E0).
    + apply runs_bind. eapply (r_relse _ _ _ _ _ _ _ (ind i)); [exact D2|upd_solve|done|]. intros t3 D3. mstep.
      change (geti ip (set_t t1 s)) with i in *. rewrite (decide_True (P := ind i ∈ ind i :: r :: bb :: lg)) in D3 by set_solver.
      destruct (ext_entry sb vw i r vw1 k ltac:(lia) W G Hi Hk ltac:(by eapply txd_len) E0) as (W2 & X2 & HA).
      set (vw2 := upd_at vw1 (ind i) _) in *.
      eexists vw2, i, (ind i :: r :: bb :: lg), _, _.
      pose proof (fresh_range (bb :: lg) r). pose proof (fresh_mono lg (r :: bb :: lg) (ind i) ltac:(set_solver)).
      assert (EN : need (ind i :: r :: bb :: lg) i = 0).
      { unfold need. rewrite decide_False by done. rewrite !fresh_in by set_solver. done. }
      assert (EN' : need lg i = fresh lg bb + fresh lg (ind i)) by (unfold need; by rewrite decide_False).
      split; [|eapply txd_idle; [exact D3|]|eapply disk_ok_bits; [exact DK|apply X2]|exact W2|exact X2|set_solver|symmetry; exact HA|done| |].
      * apply same_only; [done|]. destruct O as (?&?&?&?&?). by repeat split.
      * intros b. unfold upd_at. by repeat case_decide.
      * change (geti ip s) with i. rewrite EN, EN', (decide_False (P := r = 0)) by done. rewrite (fresh_in (_ :: r :: _) r) by set_solver. lia.
      * change (geti ip s) with i. rewrite EN, EN', (decide_False (P := r = 0)) by done. rewrite (fresh_in (_ :: r :: _) r) by set_solver. lia.
  - mstep. apply runs_bind. eapply (r_relse _ _ _ _ _ _ _ (ind i)); [exact D1'|upd_solve|done|]. intros t3 D3. mstep.
    apply bmap_stay; [by apply same_only|eapply (txd_idle _ _ _ clean); [eapply txd_weaken; [exact D3|..]; try done|]|done|done|symmetry; exact EB|done].
    + unfold fresh. destruct (decide (ind i ∈ lg)); lia.
    + intros b. unfold upd_at. by repeat case_decide.
Qed.

Lemma need_range lg i : 0 <= need lg i <= 2.
Proof. unfold need. pose proof (fresh_range lg bb). pose proof (fresh_range lg (ind i)). case_decide; lia. Qed.

Lemma bmap_indirect s ip vw lg rm sp k (i := geti ip s) :
  fs_sb s = sb -> (ip < length (fs_inode s))%nat -> txd (fs_t s) vw none clean lg rm sp -> u32 (i_dev i) = dv ->
  disk_ok sb vw none -> iwf sb vw i -> (k < 256)%nat -> need lg i + 2 <= sp -> need lg i + 3 <= rm ->
  runs (bmap ip (Z.of_nat (12 + k))) s (fun r s' =>
    exists vw' i' lg' rm' sp', bmap_post s ip vw lg rm sp (12 + k) r s' vw' i' lg' rm' sp').
Proof.
  intros Hsb Hip D Hdev DK W Hk Hsp Hrm. unfold bmap. mstep. fold i. rewrite (proj2 (Z.ltb_ge _ NDIRECT)) by (unfold NDIRECT; lia).
  replace (Z.of_nat (12 + k) - NDIRECT) with (Z.of_nat k) by (unfold NDIRECT; lia).
  rewrite (proj2 (Z.ltb_lt _ NINDIRECT)) by (change NINDIRECT with 256; lia). rewrite Nat2Z.id. unfold iaddr. mstep. fold i.
  change (i_addrs i !!! NDIRECTn) with (ind i). destruct (Z.eqb_spec (ind i) 0) as [E0|E0].
  - pose proof (need_range lg i). eapply runs_seq; [eapply (slot_run s ip vw lg rm sp 12); try done; lia|].
    intros r s1 [(-> & HF & Sm & D1)|(Hr & vw1 & i1 & Sm & Ei & G & DK1 & D1)].
    { cbn [Z.eqb]. mstep. apply bmap_stay; try done. unfold baddr. rewrite decide_False by lia. by rewrite decide_True. }
    rewrite (proj2 (Z.eqb_neq r 0)) by done. destruct (ext_slot sb vw i r vw1 12 W G ltac:(lia) E0) as (W1 & X1 & _ & HI).
    set (j := with_addrs (<[12%nat := r]> (i_addrs i)) i) in *. change (i1 = j) in Ei. subst i1. specialize (HI eq_refl).
    destruct (same_get s s1 ip j Hip Sm) as [Ej Hip1]. assert (Hsb1 : fs_sb s1 = sb) by (destruct Sm as (-> & _); done).
    assert (Edev : i_dev i = i_dev (geti ip s1)) by (by rewrite Ej). rewrite Edev. rewrite <- HI, <- Ej.
    pose proof (fresh_range lg bb). pose proof (fresh_range (bb :: lg) r).
    assert (EN : need lg i = fresh lg bb + 1) by (unfold need; by rewrite decide_True).
    assert (F0 : fresh (r :: bb :: lg) bb = 0 /\ fresh (r :: bb :: lg) r = 0) by (split; apply fresh_in; set_solver). destruct F0 as [F0 F1].
    eapply runs_mono; [eapply (entry_run s1 ip vw1 (r :: bb :: lg)); rewrite ?Ej, ?HI; try done; rewrite ?F0, ?F1; lia|].
    intros v s2 (vw2 & i2 & lg2 & rm2 & sp2 & [P1 P2 P3 P4 P5 P6 P7 P8 P9 P10]). rewrite Ej in P5, P9, P10.
    assert (EN1 : need (r :: bb :: lg) j = 0) by (unfold need; rewrite HI, decide_False, F0, F1; done).
    exists vw2, i2, lg2, rm2, sp2. split; try done; [by eapply same_trans|by eapply ext_trans|set_solver| |];
      change (geti ip s) with i; rewrite EN; rewrite EN1 in *; lia.
  - mstep. rewrite (proj2 (Z.eqb_neq _ _)) by done.
    assert (EN : need lg i = fresh lg bb + fresh lg (ind i)) by (unfold need; by rewrite decide_False).
    eapply entry_run; try done; fold i; lia.
Qed.

Lemma bmap_run s ip vw lg rm sp bn (i := geti ip s) :
  fs_sb s = sb -> (ip < length (fs_inode s))%nat -> txd (fs_t s) vw none clean lg rm sp -> u32 (i_dev i) = dv ->
  disk_ok sb vw none -> iwf sb vw i -> (bn < FILEBLKS)%nat -> need lg i + 2 <= sp -> need lg i + 3 <= rm ->
  runs (bmap ip (Z.of_nat bn)) s (fun r s' => exists vw' i' lg' rm' sp', bmap_post s ip vw lg rm sp bn r s' vw' i' lg' rm' sp').
Proof.
  intros Hsb Hip D Hdev DK W Hbn Hsp Hrm. destruct (decide (bn < 12)%nat); [eapply bmap_direct; try done; fold i; lia|].
  replace bn with (12 + (bn - 12))%nat by lia. unfold FILEBLKS in Hbn. by eapply bmap_indirect; try done; lia.
Qed.
End run.

(** ** Writing *)
Section writing.
Context {T : Type} {V : BlockTxnView T} (sb : superblock).
Implicit Types vw : Z -> block.
Implicit Types i : inode.

(** The byte [p] of a file, 0 where it has no block. *)
Definition fbyte0 vw i (p : Z) : Z := if decide (baddr vw i (Z.to_nat (p / BSIZE)) = 0) then 0 else fbyte vw i p.

(** The bytes from [lo] up to [hi] were replaced by [data]; blocks may have
    been added, and nothing else of the disk has changed. *)
Record wrote vw i (lo hi : Z) (data : Z -> Z) vw' i' : Prop := {
  wr_addr : forall b, (b < FILEBLKS)%nat -> baddr vw i b <> 0 -> baddr vw' i' b = baddr vw i b;
  wr_have : forall p, lo <= p < hi -> baddr vw' i' (Z.to_nat (p / BSIZE)) <> 0;
  wr_byte : forall p, 0 <= p < MAXFILE * BSIZE ->
    fbyte0 vw' i' p = if decide (lo <= p < hi) then data p else fbyte0 vw i p;
  wr_same : i' = with_addrs (i_addrs i') i;
  wr_ind : ind i' = ind i \/ ~ owned sb vw (ind i');
  wr_frame : forall a, owned sb vw a -> a <> ind i -> (forall b, (b < FILEBLKS)%nat -> a <> baddr vw i b) -> vw' a = vw a;
  wr_bits : bits_ge sb vw vw';
  wr_new : forall b, (b < FILEBLKS)%nat -> baddr vw i b = 0 -> ~ owned sb vw (baddr vw' i' b);
}.

Lemma bn_bound p : 0 <= p < MAXFILE * BSIZE -> (Z.to_nat (p / BSIZE) < FILEBLKS)%nat.
Proof. unfold MAXFILE, NDIRECT, NINDIRECT, BSIZE, FILEBLKS. intros. dlia. Qed.

Lemma fbyte0_ext vw i vw' i' p : 0 <= p < MAXFILE * BSIZE -> ext sb vw i vw' i' -> fbyte0 vw' i' p = fbyte0 vw i p.
Proof.
  intros Hp X. pose proof (bn_bound p Hp) as Hb. unfold fbyte0, fbyte. set (b := Z.to_nat (p / BSIZE)) in *.
  destruct (decide (baddr vw' i' b = 0)) as [E1|E1].
  - rewrite decide_True; [done|]. destruct (decide (baddr vw i b = 0)) as [|E0]; [done|]. by rewrite (ex_addr _ _ _ _ _ X b Hb E0) in E1.
  - rewrite (ex_data _ _ _ _ _ X b Hb E1). destruct (decide (baddr vw i b = 0)); [|done].
    apply lookup_total_replicate_2. unfold BSIZE, BSZ. dlia.
Qed.

Lemma wrote_ext vw i lo data vw' i' : ext sb vw i vw' i' -> wrote vw i lo lo data vw' i'.
Proof.
  intros X. pose proof X as [A1 A2 A3 A4 A5 A6 A7]. split; try done; [lia| |].
  - intros p Hp. rewrite decide_False by lia. by apply fbyte0_ext.
  - intros a Ha Hi _. by apply A5.
Qed.

Lemma wrote_trans vw i lo mid hi data vw1 i1 vw2 i2 : lo <= mid <= hi ->
  wrote vw i lo mid data vw1 i1 -> wrote vw1 i1 mid hi data vw2 i2 -> hi <= MAXFILE * BSIZE -> 0 <= lo -> wrote vw i lo hi data vw2 i2.
Proof.
  intros Hlo [A1 A2 A3 A4 A5 A6 A7 A8] [B1 B2 B3 B4 B5 B6 B7 B8] Hhi H0. split.
  - intros b Hb Hn. rewrite B1, A1; [done|done|done|done|]. by rewrite A1.
  - intros p Hp. destruct (decide (p < mid)) as [Hm|Hm]; [|apply B2; lia].
    rewrite B1; [apply A2; lia|apply bn_bound; lia|apply A2; lia].
  - intros p Hp. rewrite B3, A3 by done. repeat case_decide; done || lia.
  - rewrite B4, A4. by destruct i.
  - destruct B5 as [-> |HO]; [done|]. right. intros H. apply HO. by eapply owned_mono.
  - intros a Ha Hi Hb. rewrite B6; [by apply A6|by eapply owned_mono| |].
    + destruct A5 as [-> |HO]; [done|congruence].
    + intros b Hb'. destruct (decide (baddr vw i b = 0)) as [E0|E0]; [|rewrite A1 by done; by apply Hb].
      intros ->. by apply (A8 b Hb' E0).
  - intros m Hm Hbit. auto.
  - intros b Hb Hz. destruct (decide (baddr vw1 i1 b = 0)) as [E1|E1]; [|rewrite B1 by done; by apply A8].
    intros HO. apply (B8 b Hb E1). by eapply owned_mono.
Qed.

(** Bytes stored in one block of the file. *)
Lemma wrote_block vw i off m data bs bn (r := baddr vw i bn)
    (vw' := upd_at vw r (put_bytes (vw r) (Z.to_nat (off mod BSIZE)) bs)) :
  iwf sb vw i -> length (vw r) = BSZ -> r <> 0 -> 0 <= off -> off < MAXFILE * BSIZE -> bn = Z.to_nat (off / BSIZE) ->
  0 <= m <= BSIZE - off mod BSIZE -> length bs = Z.to_nat m -> (forall j, 0 <= j < m -> bs !!! Z.to_nat j = data (off + j)) ->
  wrote vw i off (off + m) data vw' i.
Proof.
  intros W HL Hr H0 Hoff Ebn Hm Hbs Hd. pose proof (bn_bound off ltac:(lia)) as Hbn. rewrite <- Ebn in Hbn.
  pose proof (iw_own _ _ _ W bn Hbn Hr) as OR. fold r in OR. pose proof (iw_sep _ _ _ W bn Hbn Hr) as SR. fold r in SR.
  assert (HI : ind i <> 0 -> vw' (ind i) = vw (ind i)) by (intros _; unfold vw', upd_at; by rewrite decide_False).
  pose proof (fun b => baddr_frame vw vw' i b HI) as EA.
  assert (Hput : length (put_bytes (vw r) (Z.to_nat (off mod BSIZE)) bs) = BSZ) by
    (rewrite length_put_bytes; [done|rewrite HL, Hbs; unfold BSZ, BSIZE in *; dlia]).
  split.
  - intros b Hb _. apply EA.
  - intros p Hp. rewrite EA. replace (Z.to_nat (p / BSIZE)) with bn; [done|]. rewrite Ebn. unfold BSIZE in *. dlia.
  - intros p Hp. unfold fbyte0, fbyte. rewrite !EA. pose proof (bn_bound p Hp) as Hb. set (b := Z.to_nat (p / BSIZE)) in *.
    destruct (decide (baddr vw i b = 0)) as [E0|E0].
    + case_decide; [|done]. exfalso. apply Hr. unfold r. rewrite <- E0. f_equal. unfold b. rewrite Ebn. unfold BSIZE in *. dlia.
    + unfold vw', upd_at. destruct (decide (baddr vw i b = r)) as [Eb|Eb].
      * assert (b = bn) by (by apply (iw_inj _ _ _ W)). rewrite list_lookup_total_alt, lookup_put_bytes by (rewrite HL, Hbs; unfold BSZ, BSIZE in *; dlia).
        rewrite Hbs. assert (EQ : p / BSIZE = off / BSIZE) by (unfold b, BSIZE in *; dlia).
        destruct (decide (off <= p < off + m)) as [Hin|Hin].
        -- rewrite decide_True by (unfold BSIZE in *; dlia). rewrite <- list_lookup_total_alt.
           replace (data p) with (data (off + (p - off))) by (f_equal; lia). rewrite <- Hd by lia. f_equal. unfold BSIZE in *. dlia.
        -- rewrite decide_False by (unfold BSIZE in *; dlia). rewrite <- list_lookup_total_alt. by rewrite Eb.
      * rewrite decide_False; [done|]. intros Hin. apply Eb. unfold r. f_equal. unfold b. rewrite Ebn. unfold BSIZE in *. dlia.
  - by destruct i.
  - by left.
  - intros a Ha Hi Hb. unfold vw', upd_at. by rewrite decide_False by (by apply Hb).
  - intros k Hk Hbit. unfold vw'. rewrite bits_upd; [done|apply OR|done].
  - intros b Hb Hz. rewrite EA, Hz. intros (? & _). lia.
Qed.
End writing.

(** ** Running [writei] and [readi] *)
Section io.
Context {T U : Type} {B : BlockTxn T} {V : BlockTxnView T} {UM : UserMem U} {dv : Z} {L : BlockTxnLaws T dv} (sb : superblock).
Implicit Types s : fsst T U.
Implicit Types vw : Z -> block.
Implicit Types i : inode.
Abbreviation bb := (BBLOCK 0 sb).

(** A source of [n] bytes: [either_copyin] delivers the bytes [sdat] of it, or,
    for a piece that starts at a [bad] position, fails with -1 and leaves the
    destination as it was; it keeps [P], which says what is where.  A copy that
    fails after it moved some bytes is not a source in this sense: [writei]
    would leave those bytes in the cached block without logging them. *)
Definition source (user_src : bool) (src n : Z) (sdat : Z -> Z) (bad : Z -> Prop) (P : U -> Prop) : Prop :=
  forall s k old, P (fs_u s) -> 0 <= k -> k + Z.of_nat (length old) <= n ->
    runs (either_copyin user_src (u64 (src + k)) old) s (fun r s' =>
      exists bs u', s' = set_u u' s /\ P u' /\
        (r = (bs, 0) /\ length bs = length old /\
         (forall j, 0 <= j < Z.of_nat (length old) -> bs !!! Z.to_nat j = sdat (k + j)) \/
         r = (old, -1) /\ bad k)).

Lemma u64_step a k m : u64 (u64 (a + k) + m) = u64 (a + (k + m)).
Proof. unfold u64. rewrite Z.add_mod_idemp_l by lia. f_equal. lia. Qed.

(** A write from [off] on stopped at [off'], where a new block begins. *)
Definition no_block vw i (off off' : Z) : Prop :=
  (off' = off \/ off' mod BSIZE = 0) /\ baddr vw i (Z.to_nat (off' / BSIZE)) = 0.

(** What [writei]'s loop leaves. *)
Record wloop_post s (ip : nat) vw (lg : list Z) (bad : Z -> Prop) (P : U -> Prop) (off0 tot n : Z) (sdat : Z -> Z) (tot' : Z) s' vw' i' lg' rm' sp' : Prop := {
  wl_tot : tot <= tot' <= n;
  wl_same : exists u', P u' /\ same (set_u u' s) s' ip i';
  wl_txd : txd (fs_t s') vw' none clean lg' rm' sp';
  wl_disk : disk_ok sb vw' none;
  wl_wf : iwf sb vw' i';
  wl_wrote : wrote sb vw (geti ip s) (off0 + tot) (off0 + tot') (fun p => sdat (p - off0)) vw' i';
  wl_lg : forall b, b ∈ lg -> b ∈ lg';
  wl_full : tot' < n -> (disk_full sb vw' /\ no_block vw (geti ip s) (off0 + tot) (off0 + tot')) \/ bad tot';
  wl_sp : fresh lg' (IBLOCK (i_inum i') sb) + 1 <= sp';
  wl_rm : fresh lg' (IBLOCK (i_inum i') sb) + 1 <= rm';
}.

(** The loop stops at once. *)
Lemma wloop_stop s s' ip vw lg (bad : Z -> Prop) (P : U -> Prop) off0 tot n sdat vw' i' lg' rm' sp' :
  0 <= tot <= n -> P (fs_u s) -> same s s' ip i' -> txd (fs_t s') vw' none clean lg' rm' sp' -> disk_ok sb vw' none -> iwf sb vw' i' ->
  ext sb vw (geti ip s) vw' i' -> (forall b, b ∈ lg -> b ∈ lg') ->
  (tot < n -> (disk_full sb vw' /\ baddr vw' i' (Z.to_nat ((off0 + tot) / BSIZE)) = 0 /\ 0 <= off0 + tot < MAXFILE * BSIZE) \/ bad tot) ->
  fresh lg' (IBLOCK (i_inum i') sb) + 1 <= sp' -> fresh lg' (IBLOCK (i_inum i') sb) + 1 <= rm' ->
  wloop_post s ip vw lg bad P off0 tot n sdat tot s' vw' i' lg' rm' sp'.
Proof.
  intros Ht HP Hs HD HK W X Hlg Hfull Hsp Hrm. split; try done; [lia| |by apply wrote_ext|].
  - exists (fs_u s). split; [done|]. by destruct s.
  - intros Hlt. destruct (Hfull Hlt) as [(Hf & Hb & Hr)|Hbad]; [|by right]. left. split; [done|]. split; [by left|].
    destruct (decide (baddr vw (geti ip s) (Z.to_nat ((off0 + tot) / BSIZE)) = 0)) as [|Hne]; [done|].
    rewrite (ex_addr _ _ _ _ _ X) in Hb; [done|by apply bn_bound|done].
Qed.

(** One block of [writei]'s loop, after [bmap]. *)
Definition write_step (user_src : bool) (dev r src off m : Z) : M (fsst T U) bool :=
  let! bp := fs_bread dev r in
  let! d := fs_data bp in
  let! (bs, st) := either_copyin user_src src (get_bytes d (Z.to_nat (off mod BSIZE)) (Z.to_nat m)) in
  fs_set_data bp (put_bytes d (Z.to_nat (off mod BSIZE)) bs) ;;
  if st =? -1 then fs_brelse bp ;; ret false else fs_log_write bp ;; fs_brelse bp ;; ret true.

Lemma writei_loop_step f ip user_src src off n tot s :
  writei_loop (S f) ip user_src src off n tot s =
  (if tot <? n then
     let! addr := bmap ip (off / BSIZE) in
     if addr =? 0 then ret (tot, off)
     else
       let! dev := gets (fun s => i_dev (geti ip s)) in
       let m := (n - tot) `min` (BSIZE - off mod BSIZE) in
       let! ok := write_step user_src dev addr src off m in
       if (ok : bool) then writei_loop f ip user_src (u64 (src + m)) (u32 (off + m)) n (tot + m) else ret (tot, off)
   else ret (tot, off)) s.
Proof.
  cbn [writei_loop]. destruct (tot <? n); [|done]. unfold write_step, bind, gets. destruct (bmap ip (off / BSIZE) s) as [[addr|?|?|?] s1]; try done.
  destruct (addr =? 0); [done|]. destruct (fs_bread _ addr s1) as [[bp|?|?|?] s2]; try done.
  destruct (fs_data bp s2) as [[d|?|?|?] s3]; try done. destruct (either_copyin _ _ _ s3) as [[[bs st]|?|?|?] s4]; try done.
  destruct (fs_set_data bp _ s4) as [[[]|?|?|?] s5]; try done. destruct (st =? -1).
  - by destruct (fs_brelse bp s5) as [[[]|?|?|?] s6].
  - destruct (fs_log_write bp s5) as [[[]|?|?|?] s6]; try done. by destruct (fs_brelse bp s6) as [[[]|?|?|?] s7].
Qed.

(** The end of a block whose copy failed: nothing has changed. *)
Lemma write_block_fail s t1 ip vw lg rm sp (P : U -> Prop) (bad : Z -> Prop) u' h r o k tot (i := geti ip s)
    (A : bool -> fsst T U -> Prop) :
  (ip < length (fs_inode s))%nat -> P u' -> bad tot -> length (vw r) = BSZ -> (o + k <= BSZ)%nat ->
  txd t1 vw (upd_at none r (Some h)) (fun b => clean b \/ b = r) lg (rm - fresh lg r) sp ->
  runs (fs_set_data h (put_bytes (vw r) o (get_bytes (vw r) o k)) ;;
        (if -1 =? -1 then fs_brelse h ;; ret false else fs_log_write h ;; fs_brelse h ;; ret true)) (set_u u' (set_t t1 s))
    (fun ok s' => exists u', P u' /\ same (set_u u' s) s' ip i /\
       if (ok : bool) then A ok s' else bad tot /\ txd (fs_t s') vw none clean lg rm sp).
Proof.
  intros Hip HP Hbad HL Hk D. rewrite put_get_id by (by rewrite HL). change (-1 =? -1) with true. cbv iota.
  eapply (r_set_same (set_u u' (set_t t1 s)) _ _ _ _ _ _ r); [exact D|upd_solve|]. intros t2 D2. apply runs_bind.
  eapply (r_relse _ _ _ _ _ _ _ r); [exact D2|upd_solve|by right|]. intros t3 D3. mstep.
  exists u'. split; [done|]. split; [|split; [done|]].
  - repeat split. cbn. symmetry. apply list_insert_id. unfold i, geti. by apply list_lookup_lookup_total_lt.
  - cbn [fs_t set_t]. eapply (txd_idle _ _ _ clean); [eapply txd_weaken; [exact D3|..]; try done|].
    + intros b Hb. by left.
    + unfold fresh. destruct (decide (r ∈ lg)); lia.
    + intros b. unfold upd_at. by repeat case_decide.
Qed.

Lemma write_block s ip vw lg rm sp user_src src n sdat bad P off0 tot bn h_m (i := geti ip s) (off := off0 + tot) (r := baddr vw i bn) :
  source user_src src n sdat bad P -> P (fs_u s) -> (ip < length (fs_inode s))%nat ->
  txd (fs_t s) vw none clean lg rm sp -> u32 (i_dev i) = dv -> disk_ok sb vw none -> iwf sb vw i ->
  0 <= off < MAXFILE * BSIZE -> bn = Z.to_nat (off / BSIZE) -> r <> 0 -> 0 <= tot -> 0 < h_m -> tot + h_m <= n -> h_m <= BSIZE - off mod BSIZE ->
  fresh lg r < rm + 1 -> 0 < sp -> 1 <= rm ->
  runs (write_step user_src (i_dev i) r (u64 (src + tot)) off h_m) s (fun ok s' =>
    exists u', P u' /\ same (set_u u' s) s' ip i /\
      if (ok : bool) then
        exists vw', disk_ok sb vw' none /\ iwf sb vw' i /\
          wrote sb vw i off (off + h_m) (fun p => sdat (p - off0)) vw' i /\
          txd (fs_t s') vw' none clean (r :: lg) (rm - fresh lg r) (sp - fresh lg r)
      else bad tot /\ txd (fs_t s') vw none clean lg rm sp).
Proof.
  intros HS HP Hip D Hdev DK W Hoff Ebn Hr Ht Hm Hmn Hmb Hrm Hsp Hrm1.
  pose proof (bn_bound off Hoff) as Hbn. rewrite <- Ebn in Hbn. pose proof (iw_own _ _ _ W bn Hbn Hr) as OR. fold r in OR.
  pose proof OR as (Hr0 & _ & CL & _). destruct (do_alloc _ _ _ DK) as [HSZ _ _].
  assert (FI : (if decide (r ∈ lg) then rm else rm - 1) = rm - fresh lg r) by (unfold fresh; case_decide; lia).
  unfold write_step. eapply r_bread; [exact D|exact Hdev|lia|done|lia|]. intros h t1 D1. rewrite FI in D1.
  eapply (r_data _ _ _ _ _ _ _ r); [exact D1|upd_solve|].
  assert (HL : length (vw r) = BSZ) by (by eapply txd_len).
  assert (HG : length (get_bytes (vw r) (Z.to_nat (off mod BSIZE)) (Z.to_nat h_m)) = Z.to_nat h_m).
  { apply length_get_bytes. rewrite HL. unfold BSZ, BSIZE in *. dlia. }
  eapply runs_seq; [apply HS; [exact HP|done|rewrite HG; lia]|].
  intros [bs st] s2 (bs' & u' & -> & HP' & [(E & Hbs & Hd)|[E Hbad]]); injection E as -> ->.
  2:{ eapply write_block_fail; try done. unfold BSZ, BSIZE in *. dlia. }
  rewrite HG in Hbs, Hd. cbn [Z.eqb].
  eapply (r_set (set_u u' (set_t t1 s)) _ _ _ _ _ _ r); [exact D1|upd_solve| |].
  { rewrite length_put_bytes; [done|]. rewrite HL, Hbs. unfold BSZ, BSIZE in *. dlia. }
  intros t2 D2. eapply (r_log _ _ _ _ _ _ _ r); [exact D2|upd_solve|exact CL|done|]. intros t3 D3.
  apply runs_bind. eapply (r_relse _ _ _ _ _ _ _ r); [exact D3|upd_solve|by right|]. intros t4 D4. mstep.
  set (vw' := upd_at vw r _) in *.
  assert (WR : wrote sb vw i off (off + h_m) (fun p => sdat (p - off0)) vw' i).
  { apply wrote_block; try done; try lia. intros j Hj. rewrite Hd by lia. f_equal. unfold off. lia. }
  assert (HI : ind i <> 0 -> vw' (ind i) = vw (ind i)).
  { intros _. unfold vw', upd_at. rewrite decide_False; [done|]. apply not_eq_sym. by apply W. }
  exists u'. split; [done|]. split.
  { repeat split. cbn. symmetry. apply list_insert_id. unfold i, geti. by apply list_lookup_lookup_total_lt. }
  exists vw'. split_and!; [eapply disk_ok_bits; [done|apply WR]|eapply iwf_frame; [done|apply WR|done]|exact WR|].
  cbn [fs_t set_t]. eapply (txd_idle _ _ _ clean); [eapply txd_weaken; [exact D4|..]; try done|].
  - intros b _. destruct (decide (b = r)); [by right|left; split; [by left|done]].
  - rewrite decide_True by (by left). lia.
  - unfold fresh. destruct (decide (r ∈ lg)); lia.
  - intros b. unfold upd_at. by repeat case_decide.
Qed.

Lemma writei_loop_done fuel s ip vw lg rm sp user_src src n sdat bad P off0 (i := geti ip s) :
  fs_sb s = sb -> (ip < length (fs_inode s))%nat -> txd (fs_t s) vw none clean lg rm sp -> disk_ok sb vw none ->
  iwf sb vw i -> P (fs_u s) -> 0 <= n -> fresh lg (IBLOCK (i_inum i) sb) + 1 <= sp -> fresh lg (IBLOCK (i_inum i) sb) + 1 <= rm ->
  runs (writei_loop (S fuel) ip user_src (u64 (src + n)) (off0 + n) n n) s (fun r s' =>
    exists tot' vw' i' lg' rm' sp', r = (tot', off0 + tot') /\ wloop_post s ip vw lg bad P off0 n n sdat tot' s' vw' i' lg' rm' sp').
Proof.
  intros. cbn [writei_loop]. rewrite Z.ltb_irrefl. mstep. exists n, vw, i, lg, rm, sp. split; [done|].
  apply wloop_stop; try done; [by apply same_only|apply ext_refl|lia].
Qed.

Lemma same_u s s1 s2 u ip i1 i2 : same s s1 ip i1 -> same (set_u u s1) s2 ip i2 -> same (set_u u s) s2 ip i2.
Proof. intros (A1 & A2 & A3 & A4 & A5) (B1 & B2 & B3 & B4 & B5). cbn in *. repeat split; cbn; try congruence. by rewrite B5, A5, list_insert_insert_eq. Qed.

Lemma wloop_cons s s1 u ip vw lg bad P off0 tot m n sdat tot' s' vw1 i1 lg1 vw' i' lg' rm' sp' :
  0 <= off0 -> off0 + n <= MAXFILE * BSIZE -> 0 <= tot -> 0 <= m -> (tot + m < n -> (off0 + (tot + m)) mod BSIZE = 0) ->
  same (set_u u s) s1 ip i1 -> geti ip s1 = i1 -> wrote sb vw (geti ip s) (off0 + tot) (off0 + (tot + m)) (fun p => sdat (p - off0)) vw1 i1 ->
  (forall b, b ∈ lg -> b ∈ lg1) -> wloop_post s1 ip vw1 lg1 bad P off0 (tot + m) n sdat tot' s' vw' i' lg' rm' sp' ->
  wloop_post s ip vw lg bad P off0 tot n sdat tot' s' vw' i' lg' rm' sp'.
Proof.
  intros H0 Hmax Ht Hm Hal Sm Eg WR Hlg [Q1 (u' & Q2 & Q3) Q4 Q5 Q6 Q7 Q8 Q9 Q10 Q11]. rewrite Eg in Q7, Q9. split; try done; [lia| | |auto|].
  - exists u'. split; [done|]. destruct Sm as (A1 & A2 & A3 & A4 & A5), Q3 as (B1 & B2 & B3 & B4 & B5). cbn in *.
    repeat split; cbn; try congruence. by rewrite B5, A5, list_insert_insert_eq.
  - eapply wrote_trans; [|exact WR|exact Q7|lia|lia]. lia.
  - intros Hlt. destruct (Q9 Hlt) as [(Hf & Ha & Hb)|Hbad]; [|by right]. left. split; [done|]. split.
    + right. destruct Ha as [E|E]; [rewrite E; apply Hal; lia|done].
    + destruct (decide (baddr vw (geti ip s) (Z.to_nat ((off0 + tot') / BSIZE)) = 0)) as [|Hne]; [done|].
      rewrite (wr_addr _ _ _ _ _ _ _ _ WR) in Hb; [done|apply bn_bound; lia|done].
Qed.

Lemma writei_loop_run user_src src n sdat bad P off0 ip R :
  source user_src src n sdat bad P -> 0 <= off0 -> off0 + n <= MAXFILE * BSIZE ->
  forall fuel s vw lg rm sp tot (i := geti ip s) (off := off0 + tot),
  fs_sb s = sb -> (ip < length (fs_inode s))%nat -> txd (fs_t s) vw none clean lg rm sp -> u32 (i_dev i) = dv -> disk_ok sb vw none ->
  iwf sb vw i -> P (fs_u s) -> 0 <= tot <= n -> (tot < n -> off mod BSIZE + (n - tot) <= Z.of_nat R * BSIZE) -> (R < fuel)%nat ->
  need sb lg i + fresh lg (IBLOCK (i_inum i) sb) + Z.of_nat R + 1 <= sp ->
  need sb lg i + fresh lg (IBLOCK (i_inum i) sb) + Z.of_nat R + 3 <= rm ->
  runs (writei_loop fuel ip user_src (u64 (src + tot)) off n tot) s (fun r s' =>
    exists tot' vw' i' lg' rm' sp', r = (tot', off0 + tot') /\
      wloop_post s ip vw lg bad P off0 tot n sdat tot' s' vw' i' lg' rm' sp').
Proof.
  intros HS H0 Hmax. induction R as [|R IH]; intros fuel s vw lg rm sp tot i off Hsb Hip D Hdev DK W HP Ht HR Hf Hsp Hrm;
    (destruct fuel as [|fuel]; [lia|]); pose proof (need_range sb lg i) as HN; pose proof (fresh_range lg (IBLOCK (i_inum i) sb)) as HF;
    pose proof (Z.mod_pos_bound off BSIZE ltac:(unfold BSIZE; lia)) as HM.
  { assert (Et : tot = n) by (destruct (decide (tot = n)); [done|specialize (HR ltac:(lia)); lia]). clear HM. subst off tot. eapply writei_loop_done; try done; fold i; lia. }
  destruct (decide (tot = n)) as [Et|Hne]; [clear HM; subst off tot; eapply writei_loop_done; try done; fold i; lia|].
  eapply runs_as; [apply writei_loop_step|]. rewrite (proj2 (Z.ltb_lt tot n)) by lia.
  set (bn := Z.to_nat (off / BSIZE)). assert (Hoff : 0 <= off < MAXFILE * BSIZE) by (unfold off; lia).
  assert (Hbn : (bn < FILEBLKS)%nat) by (by apply bn_bound).
  assert (Ebn : off / BSIZE = Z.of_nat bn) by (unfold bn; rewrite Z2Nat.id; [done|apply Z.div_pos; unfold BSIZE; lia]). rewrite Ebn.
  eapply runs_seq; [eapply bmap_run; try done; fold i; lia|].
  intros r s1 (vw1 & i1 & lg1 & rm1 & sp1 & [P1 P2 P3 P4 P5 P6 P7 P8 P9 P10]). fold i in P5, P9, P10.
  assert (EI : i_inum i1 = i_inum i /\ i_dev i1 = i_dev i) by (rewrite (ex_same _ _ _ _ _ P5); done). destruct EI as [EI ED].
  pose proof (need_range sb lg1 i1) as HN1. pose proof (fresh_mono lg lg1 (IBLOCK (i_inum i) sb) P6) as HF1.
  destruct (Z.eqb_spec r 0) as [Er|Er].
  { rewrite decide_True in P9, P10 by done. mstep. exists tot, vw1, i1, lg1, rm1, sp1. split; [done|].
    apply wloop_stop; try done; [|rewrite EI; lia|rewrite EI; lia].
    intros _. left. fold off. rewrite Ebn, Nat2Z.id, <- P7. split_and!; [by apply P8|done|lia|lia]. }
  rewrite decide_False in P9, P10 by done. destruct (same_get s s1 ip i1 Hip P1) as [Eg Hip1].
  mstep. rewrite Eg. set (m := (n - tot) `min` (BSIZE - off mod BSIZE)). pose proof (fresh_range lg1 r) as HFr.
  assert (HP1 : P (fs_u s1)) by (destruct P1 as (_ & _ & -> & _); done).
  pose proof (write_block s1 ip vw1 lg1 rm1 sp1 user_src src n sdat bad P off0 tot bn m) as WB. cbv zeta in WB. rewrite Eg, <- P7 in WB.
  fold off in WB. eapply runs_seq; [apply WB; try done; try (by rewrite ED); unfold m; lia|].
  intros ok s2 (u & HP2 & Sm2 & HOK). destruct ok.
  2:{ destruct HOK as [Hbad D2]. mstep. exists tot, vw1, i1, lg1, rm1, sp1. split; [done|].
      split; try done; [lia|exists u; split; [done|by eapply same_u]|by apply wrote_ext|by intros _; right|rewrite EI; lia|rewrite EI; lia]. }
  destruct HOK as (vw2 & DK2 & W2 & WR2 & D2).
  destruct (same_get (set_u u s1) s2 ip i1 Hip1 Sm2) as [Eg2 Hip2].
  rewrite u64_step, (u32_small (off + m)) by (unfold off, m, MAXFILE, NDIRECT, NINDIRECT, BSIZE in *; dlia).
  replace (off + m) with (off0 + (tot + m)) by (unfold off; lia). pose proof (fresh_mono lg1 (r :: lg1) (IBLOCK (i_inum i) sb) ltac:(set_solver)) as HF2.
  assert (HN2 : need sb (r :: lg1) i1 <= need sb lg1 i1).
  { unfold need. pose proof (fresh_mono lg1 (r :: lg1) bb ltac:(set_solver)). pose proof (fresh_mono lg1 (r :: lg1) (ind i1) ltac:(set_solver)). case_decide; lia. }
  eapply runs_mono; [apply (IH fuel s2 vw2 (r :: lg1) (rm1 - fresh lg1 r) (sp1 - fresh lg1 r)); rewrite ?Eg2; try done|].
  - destruct Sm2 as (E1 & _), P1 as (E2 & _). cbn in E1. congruence.
  - by rewrite ED.
  - by destruct Sm2 as (_ & _ & -> & _).
  - unfold m. lia.
  - intros Hlt. specialize (HR ltac:(lia)). assert (Em : m = BSIZE - off mod BSIZE) by (unfold m in *; lia).
    unfold off, BSIZE in *. dlia.
  - lia.
  - rewrite EI. lia.
  - rewrite EI. lia.
  - intros a s3 (tot' & vw3 & i3 & lg3 & rm3 & sp3 & Ea & PL). exists tot', vw3, i3, lg3, rm3, sp3. split; [exact Ea|].
    eapply (wloop_cons s s2 u ip vw lg bad P off0 tot m n sdat _ s3 vw2 i1 (r :: lg1));
      [done|done|lia|unfold m; lia| |by eapply same_u|done| |intros b Hb; right; by apply P6|exact PL].
    { intros Hlt. assert (Em : m = BSIZE - off mod BSIZE) by (unfold m in *; lia). unfold off, BSIZE in *. dlia. }
    eapply wrote_trans; [|by apply wrote_ext|replace (off0 + (tot + m)) with (off + m) by (unfold off; lia); exact WR2| |]; unfold m; unfold off in *; lia.
Qed.

(** The inode after the loop, with its size. *)
Definition grown i1 (off' : Z) : inode := if i_size i1 <? off' then with_size off' i1 else i1.

Lemma grown_addrs i1 off' : i_addrs (grown i1 off') = i_addrs i1 /\ i_inum (grown i1 off') = i_inum i1 /\ i_dev (grown i1 off') = i_dev i1 /\
  i_size (grown i1 off') = Z.max (i_size i1) off'.
Proof. unfold grown. destruct (Z.ltb_spec (i_size i1) off'); cbn; split_and!; done || lia. Qed.

Lemma iwf_addrs vw i j : iwf sb vw i -> i_addrs j = i_addrs i -> i_inum j = i_inum i -> iwf sb vw j.
Proof.
  intros [W1 W2 W3 W4 W5 W6 W7] EA EN. assert (EI : ind j = ind i) by (unfold ind; by rewrite EA).
  assert (EB : forall b, baddr vw j b = baddr vw i b) by (intros b; unfold baddr; by rewrite EI, EA).
  split; rewrite ?EA, ?EN, ?EI; try done; try (intros *; rewrite !EB; eauto).
  split; [intros b; rewrite EB|]; apply W7.
Qed.

(** The tail of [writei]: the size and the inode on disk. *)
Lemma writei_tail s ip vw lg rm sp off' (i := geti ip s) (j := grown i off') (ib := IBLOCK (i_inum i) sb) :
  fs_sb s = sb -> (ip < length (fs_inode s))%nat -> txd (fs_t s) vw none clean lg rm sp -> u32 (i_dev i) = dv -> disk_ok sb vw none ->
  iwf sb vw i -> 0 <= i_inum i -> fresh lg ib + 1 <= sp -> fresh lg ib + 1 <= rm ->
  runs (let! sz := gets (fun s => i_size (geti ip s)) in
        (if sz <? off' then modify (updi ip (with_size off')) else ret tt) ;; iupdate ip) s (fun _ s' =>
    same s s' ip j /\ iwf sb vw j /\
    txd (fs_t s') (upd_at vw ib (put_bytes (vw ib) (di_off (i_inum i)) (dinode_enc (dinode_of j)))) none clean (ib :: lg) (rm - fresh lg ib) (sp - fresh lg ib)).
Proof.
  intros Hsb Hip D Hdev DK W H0 Hsp Hrm. mstep. fold i. destruct (grown_addrs i off') as (G1 & G2 & G3 & _). fold j in G1, G2, G3.
  pose proof (iwf_addrs vw i j W G1 G2) as Wj. destruct (do_alloc _ _ _ DK) as [HSZ _ _]. pose proof (iw_blk _ _ _ W) as (Hb & _ & CL & _).
  pose proof (fresh_range lg ib). fold ib in Hb, CL.
  eapply (runs_seq _ _ _ (fun _ s' => same s s' ip j /\ fs_t s' = fs_t s)).
  - unfold j, grown. destruct (i_size i <? off'); mstep; (split; [|done]); [by repeat split|by apply same_only].
  - intros ? s1 [Sm Et]. destruct (same_get s s1 ip j Hip Sm) as [Eg Hip1]. assert (Hsb1 : fs_sb s1 = sb) by (destruct Sm as (-> & _); done).
    eapply runs_mono; [eapply (iupdate_run sb s1 vw none clean lg rm sp ip); rewrite ?Eg, ?G1, ?G2, ?G3, ?Et; try done; try (fold ib; lia); apply W|].
    rewrite Eg, G2. fold ib. intros ? s' (t' & -> & D'). split_and!; [|done|exact D']. destruct Sm as (?&?&?&?&?). by repeat split.
Qed.

Lemma writei_reject s ip user_src src off n (i := geti ip s) :
  0 <= off < 2 ^ 32 -> 0 <= n < 2 ^ 32 -> i_size i < off \/ MAXFILE * BSIZE < off + n -> writei ip user_src src off n s = (Ret (-1), s).
Proof.
  intros Ho Hn H. unfold writei, bind at 1, gets. fold i. destruct (Z.ltb_spec (i_size i) off) as [Hs|Hs]; [done|]. cbn [orb].
  destruct (Z.ltb_spec (u32 (off + n)) off) as [Hw|Hw]; [done|].
  rewrite (proj2 (Z.ltb_lt (MAXFILE * BSIZE) _)); [done|].
  assert (u32 (off + n) = off + n) by (unfold u32 in *; dlia). lia.
Qed.

Lemma writei_split ip user_src src off n s (i := geti ip s) :
  0 <= off <= i_size i -> 0 <= n -> off + n <= MAXFILE * BSIZE ->
  writei ip user_src src off n s =
  (let! (tot, off') := writei_loop (Z.to_nat (n / BSIZE) + 3) ip user_src src off n 0 in
   (let! sz := gets (fun s => i_size (geti ip s)) in
    (if sz <? off' then modify (updi ip (with_size off')) else ret tt) ;; iupdate ip) ;;
   ret (s32 tot)) s.
Proof.
  intros Ho Hn Hm. unfold writei, bind at 1, gets. fold i. assert (E : u32 (off + n) = off + n).
  { apply u32_small. unfold MAXFILE, NDIRECT, NINDIRECT, BSIZE in *. dlia. } rewrite E.
  rewrite (proj2 (Z.ltb_ge (i_size i) off)), (proj2 (Z.ltb_ge (off + n) off)), (proj2 (Z.ltb_ge (MAXFILE * BSIZE) _)) by lia. cbn [orb].
  unfold bind. destruct (writei_loop _ _ _ _ _ _ _ s) as [[[tot off']|?|?|?] s1]; try done.
  destruct ((if _ <? off' then modify (updi ip (with_size off')) else ret tt) s1) as [[[]|?|?|?] s2]; try done.
Qed.

(** The number of blocks a write touches. *)
Definition rounds (off n : Z) : nat := Z.to_nat ((off mod BSIZE + n + (BSIZE - 1)) / BSIZE).

Lemma rounds_enough off n : 0 <= n -> off mod BSIZE + n <= Z.of_nat (rounds off n) * BSIZE /\ (rounds off n < Z.to_nat (n / BSIZE) + 3)%nat.
Proof. intros Hn. unfold rounds, BSIZE. pose proof (Z.mod_pos_bound off 1024 ltac:(lia)). split; dlia. Qed.

Lemma rounds_chunk off n : 0 <= n <= write_max -> (rounds off n <= 4)%nat.
Proof. unfold rounds. change write_max with 3072. unfold BSIZE. intros Hn. pose proof (Z.mod_pos_bound off 1024 ltac:(lia)). dlia. Qed.

Lemma baddr_addrs vw i j b : i_addrs j = i_addrs i -> baddr vw j b = baddr vw i b.
Proof. intros E. unfold baddr, ind. by rewrite E. Qed.

Lemma fbyte0_addrs vw i j p : i_addrs j = i_addrs i -> fbyte0 vw j p = fbyte0 vw i p.
Proof. intros E. unfold fbyte0, fbyte. by rewrite !(baddr_addrs vw i j). Qed.

Lemma fbyte0_here vw i p : baddr vw i (Z.to_nat (p / BSIZE)) <> 0 -> fbyte0 vw i p = fbyte vw i p.
Proof. intros H. unfold fbyte0. by rewrite decide_False. Qed.

Lemma isize_here vw i p : isize_ok vw i -> 0 <= p < i_size i -> baddr vw i (Z.to_nat (p / BSIZE)) <> 0.
Proof. intros [_ H] Hp. apply H. unfold BSIZE. dlia. Qed.

(** Blocks of the inode under a change of the inode's own block. *)
Lemma fbyte0_iblk vw i d p : iwf sb vw i -> 0 <= p < MAXFILE * BSIZE -> fbyte0 (upd_at vw (IBLOCK (i_inum i) sb) d) i p = fbyte0 vw i p.
Proof.
  intros W Hp. pose proof (bn_bound p Hp) as Hb. destruct (iw_blk_sep _ _ _ W) as [S1 S2].
  assert (EB : forall b, baddr (upd_at vw (IBLOCK (i_inum i) sb) d) i b = baddr vw i b).
  { intros b. apply baddr_frame. intros _. unfold upd_at. by rewrite decide_False. }
  unfold fbyte0, fbyte. rewrite !EB. case_decide; [done|]. unfold upd_at. rewrite decide_False; [done|]. by apply S1.
Qed.

Lemma addrs_range vw i a : iwf sb vw i -> sb_size sb < 2 ^ 31 -> a ∈ i_addrs i -> 0 <= a < 2 ^ 32.
Proof.
  intros W HS [k Hk]%list_elem_of_lookup. pose proof (lookup_lt_Some _ _ _ Hk) as HL. rewrite (iw_len _ _ _ W) in HL.
  apply list_lookup_total_correct in Hk as <-. destruct (decide (i_addrs i !!! k = 0)) as [->|E]; [lia|].
  assert (O : owned sb vw (i_addrs i !!! k)).
  { destruct (decide (k < 12)%nat) as [Hlt|Hge].
    - assert (EB : baddr vw i k = i_addrs i !!! k) by (unfold baddr; by rewrite decide_True). rewrite <- EB in E |- *.
      apply W; [unfold FILEBLKS; lia|done].
    - replace k with 12%nat in * by lia. by apply (iw_ind _ _ _ W). }
  destruct O as (? & _). lia.
Qed.

(** What [writei] of at most [write_max] bytes does, in terms of the blocks. *)
Lemma writei_run s ip vw lg rm sp user_src src off n sdat bad P (i := geti ip s) :
  fs_sb s = sb -> source user_src src n sdat bad P -> P (fs_u s) -> (ip < length (fs_inode s))%nat -> txd (fs_t s) vw none clean lg rm sp ->
  u32 (i_dev i) = dv -> disk_ok sb vw none -> iwf sb vw i -> 0 <= i_inum i -> 0 <= src < 2 ^ 64 ->
  0 <= off <= i_size i -> 0 <= n <= write_max -> off + n <= MAXFILE * BSIZE -> MAXOPBLOCKS <= sp -> MAXOPBLOCKS <= rm ->
  runs (writei ip user_src src off n) s (fun r s' => exists vw1 i1 vw' i' lg' rm' sp',
    0 <= r <= n /\ (r < n -> (disk_full sb vw1 /\ no_block vw i off (off + r)) \/ bad r) /\ (exists u', P u' /\ same (set_u u' s) s' ip i') /\
    (forall b, length (vw1 b) = BSZ) /\ iwf sb vw1 i1 /\ disk_ok sb vw1 none /\ wrote sb vw i off (off + r) (fun p => sdat (p - off)) vw1 i1 /\
    i' = grown i1 (off + r) /\
    vw' = upd_at vw1 (IBLOCK (i_inum i) sb) (put_bytes (vw1 (IBLOCK (i_inum i) sb)) (di_off (i_inum i)) (dinode_enc (dinode_of i'))) /\
    txd (fs_t s') vw' none clean lg' rm' sp').
Proof.
  intros Hsb HS HP Hip D Hdev DK W H0 Hsrc Hoff Hn Hmax Hsp Hrm. eapply runs_as; [apply writei_split; fold i; lia|].
  destruct (rounds_enough off n ltac:(lia)) as [R1 R2]. pose proof (rounds_chunk off n Hn) as R3.
  pose proof (need_range sb lg i). pose proof (fresh_range lg (IBLOCK (i_inum i) sb)). change MAXOPBLOCKS with 10 in *.
  pose proof (writei_loop_run user_src src n sdat bad P off ip (rounds off n) HS ltac:(lia) Hmax (Z.to_nat (n / BSIZE) + 3) s vw lg rm sp 0) as WL.
  cbv zeta in WL. rewrite !Z.add_0_r, (u64_small src) in WL by done. fold i in WL.
  eapply runs_seq; [apply WL; try done; try lia|]. intros [tot off'] s1 (tot' & vw1 & i1 & lg1 & rm1 & sp1 & E & [P1 (u & HP1 & P2) P3 P4 P5 P6 P7 P8 P9 P10]).
  injection E as -> ->. rewrite Z.add_0_r in P6, P8. fold i in P6, P8. destruct (same_get (set_u u s) s1 ip i1 Hip P2) as [Eg Hip1].
  assert (EI : i_inum i1 = i_inum i /\ i_dev i1 = i_dev i) by (rewrite (wr_same _ _ _ _ _ _ _ _ P6); done). destruct EI as [EI ED].
  assert (Hsb1 : fs_sb s1 = sb) by (destruct P2 as (-> & _); done).
  eapply runs_seq; [eapply (writei_tail s1 ip vw1 lg1 rm1 sp1 (off + tot')); rewrite ?Eg, ?EI, ?ED; try done; rewrite <- ?EI; done|].
  rewrite Eg, EI. intros ? s2 (Sm & W2 & D2). mstep.
  assert (Et : s32 tot' = tot') by (apply s32_small; change write_max with 3072 in *; lia). rewrite Et.
  eexists vw1, i1, _, _, _, _, _. split_and!; [lia|lia|exact P8| |intros b; by eapply txd_len|exact P5|exact P4|exact P6|reflexivity|reflexivity|exact D2].
  exists u. split; [done|]. by eapply same_trans.
Qed.

(** A file of [writei]: the bytes from [off] on are replaced by the [r] bytes
    written, the size grows to cover them. *)
Record written vw i (off r : Z) (sdat : Z -> Z) vw' i' : Prop := {
  wn_wf : iwf sb vw' i';
  wn_size : isize_ok vw' i' /\ i_size i' = Z.max (i_size i) (off + r);
  wn_byte : forall p, 0 <= p < i_size i' -> fbyte vw' i' p = if decide (off <= p < off + r) then sdat (p - off) else fbyte vw i p;
  wn_inode : disk_inode sb vw' (i_inum i) = dinode_of i';
  wn_same : i' = with_size (i_size i') (with_addrs (i_addrs i') i);
  wn_frame : forall a, owned sb vw a -> a <> ind i -> a <> IBLOCK (i_inum i) sb -> (forall b, (b < FILEBLKS)%nat -> a <> baddr vw i b) -> vw' a = vw a;
}.

Lemma wrote_written vw i off r sdat vw1 i1 (i' := grown i1 (off + r)) (ib := IBLOCK (i_inum i) sb)
    (vw' := upd_at vw1 ib (put_bytes (vw1 ib) (di_off (i_inum i)) (dinode_enc (dinode_of i')))) :
  sb_size sb < 2 ^ 31 -> length (vw1 ib) = BSZ -> iwf sb vw i -> isize_ok vw i -> dinode_ok (dinode_of i) -> 0 <= i_inum i -> iwf sb vw1 i1 ->
  0 <= off <= i_size i -> 0 <= r -> off + r <= MAXFILE * BSIZE ->
  wrote sb vw i off (off + r) (fun p => sdat (p - off)) vw1 i1 -> written vw i off r sdat vw' i'.
Proof.
  intros HSB HLb W SZ DO H0 W1 Hoff Hr Hmax WR. pose proof (wr_same _ _ _ _ _ _ _ _ WR) as ES.
  assert (EI : i_inum i1 = i_inum i /\ i_size i1 = i_size i) by (rewrite ES; done). destruct EI as [EI EZ].
  destruct (grown_addrs i1 (off + r)) as (G1 & G2 & _ & G4). fold i' in G1, G2, G4. rewrite EI in G2. rewrite EZ in G4.
  assert (W' : iwf sb vw1 i') by (by apply (iwf_addrs vw1 i1); [|done|congruence]). pose proof (iw_blk_sep _ _ _ W') as [S1 S2]. rewrite G2 in S1, S2. fold ib in S1, S2.
  assert (HI : ind i' <> 0 -> vw' (ind i') = vw1 (ind i')) by (intros _; unfold vw', upd_at; by rewrite decide_False).
  assert (HBits : bits_ge sb vw1 vw').
  { intros m Hm Hb. unfold vw', ib. rewrite <- EI. rewrite bits_upd; [done| |done]. by destruct (iw_blk _ _ _ W1) as (_ & _ & _ & HB). }
  assert (EB : forall b, baddr vw' i' b = baddr vw1 i1 b) by (intros b; rewrite (baddr_frame vw1 vw' i' b HI); by apply baddr_addrs).
  destruct SZ as [Z1 Z2]. assert (SZ' : isize_ok vw' i').
  { split; [lia|]. intros b Hb. rewrite EB. destruct (decide (Z.of_nat b * BSIZE < i_size i)) as [Hlt|Hge].
    - assert (b < FILEBLKS)%nat by (unfold FILEBLKS, MAXFILE, NDIRECT, NINDIRECT, BSIZE in *; dlia). rewrite (wr_addr _ _ _ _ _ _ _ _ WR); auto.
    - replace b with (Z.to_nat (Z.of_nat b * BSIZE / BSIZE)) by (unfold BSIZE; dlia). apply (wr_have _ _ _ _ _ _ _ _ WR). lia. }
  split; [by eapply iwf_frame|done| | | |].
  - intros p Hp. assert (Hpm : 0 <= p < MAXFILE * BSIZE) by (unfold isize_ok in SZ'; lia).
    rewrite <- fbyte0_here by (by apply isize_here). unfold vw', ib. rewrite <- G2, fbyte0_iblk by done. rewrite (fbyte0_addrs vw1 i1 i') by done. rewrite (wr_byte _ _ _ _ _ _ _ _ WR) by done.
    case_decide; [done|]. apply fbyte0_here, isize_here; [done|lia].
  - unfold vw', ib. rewrite disk_inode_put; [by rewrite decide_True|done|done| |done]. destruct DO as [T1 T2 T3 T4 T5 T6 T7].
    assert (ED : i_type i' = i_type i /\ i_major i' = i_major i /\ i_minor i' = i_minor i /\ i_nlink i' = i_nlink i).
    { unfold i', grown. rewrite ES. by case_match. } destruct ED as (E1 & E2 & E3 & E4).
    split; cbn [dinode_of di_type di_major di_minor di_nlink di_size di_addrs] in *; rewrite ?E1, ?E2, ?E3, ?E4; try done.
    + destruct SZ' as [HS' _]. unfold MAXFILE, NDIRECT, NINDIRECT, BSIZE in HS'. dlia.
    + apply W'.
    + apply Forall_forall. intros a Ha. by eapply (addrs_range vw1 i').
  - unfold i', grown. rewrite ES. destruct i. cbn. by case_match.
  - intros a Ha Hi Hib Hb. unfold vw', upd_at. rewrite decide_False by done. by apply (wr_frame _ _ _ _ _ _ _ _ WR).
Qed.

(** A block the file has. *)
Lemma bmap_hit s ip vw lg rm sp bn (i := geti ip s) :
  txd (fs_t s) vw none clean lg rm sp -> u32 (i_dev i) = dv -> sb_size sb < 2 ^ 31 -> iwf sb vw i -> (bn < FILEBLKS)%nat ->
  baddr vw i bn <> 0 -> 1 <= rm ->
  runs (bmap ip (Z.of_nat bn)) s (fun r s' => r = baddr vw i bn /\ exists t', s' = set_t t' s /\ txd t' vw none clean lg rm sp).
Proof.
  intros D Hdev HSB W Hbn Hne Hrm. unfold bmap. mstep. fold i. unfold baddr in Hne |- *. unfold FILEBLKS in Hbn.
  destruct (decide (bn < 12)%nat) as [Hlt|Hge].
  - rewrite (proj2 (Z.ltb_lt _ NDIRECT)) by (unfold NDIRECT; lia). rewrite Nat2Z.id. unfold iaddr. mstep. fold i.
    rewrite (proj2 (Z.eqb_neq _ _)) by done. mstep. split; [done|]. exists (fs_t s). split; [by destruct s|done].
  - rewrite (proj2 (Z.ltb_ge _ NDIRECT)) by (unfold NDIRECT; lia).
    replace (Z.of_nat bn - NDIRECT) with (Z.of_nat (bn - 12)) by (unfold NDIRECT; lia).
    rewrite (proj2 (Z.ltb_lt _ NINDIRECT)) by (change NINDIRECT with 256; lia). rewrite Nat2Z.id. unfold iaddr. mstep. fold i.
    change (i_addrs i !!! NDIRECTn) with (ind i). destruct (decide (ind i = 0)) as [|Hi]; [done|]. rewrite (proj2 (Z.eqb_neq (ind i) 0)) by done.
    mstep. rewrite (proj2 (Z.eqb_neq (ind i) 0)) by done. destruct (iw_ind _ _ _ W Hi) as (Ho & _).
    eapply r_bread; [exact D|exact Hdev|lia|done|lia|]. intros h t1 D1. eapply (r_data _ _ _ _ _ _ _ (ind i)); [exact D1|upd_solve|].
    fold (entry (vw (ind i)) (bn - 12)). rewrite (proj2 (Z.eqb_neq _ _)) by done. mstep.
    apply runs_bind. eapply (r_relse _ _ _ _ _ _ _ (ind i)); [exact D1|upd_solve|by right|]. intros t2 D2. mstep. split; [done|].
    exists t2. split; [done|]. eapply (txd_idle _ _ _ clean); [eapply txd_weaken; [exact D2|..]; try done|].
    + intros b Hb. by left.
    + destruct (decide (ind i ∈ lg)); lia.
    + intros b. unfold upd_at. by repeat case_decide.
Qed.

(** A sink for [n] bytes: it takes the bytes [fdat] in order; [K k] says that
    the first [k] of them have arrived. *)
Definition sink (user_dst : bool) (dst n : Z) (fdat : Z -> Z) (K : Z -> U -> Prop) : Prop :=
  forall s k bs, K k (fs_u s) -> 0 <= k -> k + Z.of_nat (length bs) <= n ->
    (forall j, 0 <= j < Z.of_nat (length bs) -> bs !!! Z.to_nat j = fdat (k + j)) ->
    runs (either_copyout user_dst (u64 (dst + k)) bs) s (fun r s' =>
      exists u', r = 0 /\ s' = set_u u' s /\ K (k + Z.of_nat (length bs)) u').

Lemma get_bytes_total d o m j : (o + m <= length d)%nat -> (j < m)%nat -> get_bytes d o m !!! j = d !!! (o + j)%nat.
Proof. intros H Hj. rewrite !list_lookup_total_alt, lookup_get_bytes. by rewrite decide_True. Qed.

Lemma readi_loop_run user_dst dst n K off0 ip vw lg rm sp R i :
  sink user_dst dst n (fun k => fbyte vw i (off0 + k)) K -> 0 <= off0 -> off0 + n <= i_size i ->
  u32 (i_dev i) = dv -> sb_size sb < 2 ^ 31 -> iwf sb vw i -> isize_ok vw i -> 1 <= rm ->
  forall fuel s tot (off := off0 + tot),
  geti ip s = i -> txd (fs_t s) vw none clean lg rm sp -> K tot (fs_u s) -> 0 <= tot <= n ->
  (tot < n -> off mod BSIZE + (n - tot) <= Z.of_nat R * BSIZE) -> (R < fuel)%nat ->
  runs (readi_loop fuel ip user_dst (u64 (dst + tot)) off n tot) s (fun r s' =>
    r = n /\ exists u' t', K n u' /\ s' = set_t t' (set_u u' s) /\ txd t' vw none clean lg rm sp).
Proof.
  intros HS H0 Hmax Hdev HSB W SZ Hrm. induction R as [|R IH]; intros fuel s tot off Eg D HK Ht HR Hf;
    (destruct fuel as [|fuel]; [lia|]); cbn [readi_loop]; pose proof (Z.mod_pos_bound off BSIZE ltac:(unfold BSIZE; lia)) as HM;
    (destruct (Z.ltb_spec tot n) as [Hlt|Hge];
      [|mstep; split; [lia|]; exists (fs_u s), (fs_t s); replace n with tot by lia; split_and!; [done|by destruct s|done]]).
  { specialize (HR Hlt). lia. }
  destruct SZ as [Z1 Z2]. set (bn := Z.to_nat (off / BSIZE)). assert (Hoff : 0 <= off < MAXFILE * BSIZE) by (unfold off; lia).
  assert (Hbn : (bn < FILEBLKS)%nat) by (by apply bn_bound).
  assert (Hne : baddr vw i bn <> 0) by (apply isize_here; [by split|unfold off; lia]).
  replace (off / BSIZE) with (Z.of_nat bn) by (unfold bn; rewrite Z2Nat.id; [done|apply Z.div_pos; unfold BSIZE; lia]).
  eapply runs_seq; [eapply bmap_hit; rewrite ?Eg; done|]. rewrite Eg. intros r s1 (-> & t1 & -> & D1).
  rewrite (proj2 (Z.eqb_neq _ _)) by done. mstep. change (geti ip (set_t t1 s)) with (geti ip s). rewrite Eg.
  destruct (iw_own _ _ _ W bn Hbn Hne) as (Ho & _). set (a := baddr vw i bn) in *.
  eapply (r_bread (set_t t1 s)); [exact D1|exact Hdev|lia|done|lia|]. intros h t2 D2.
  eapply (r_data _ _ _ _ _ _ _ a); [exact D2|upd_solve|]. set (m := (n - tot) `min` (BSIZE - off mod BSIZE)).
  assert (HL : length (vw a) = BSZ) by (by eapply txd_len). assert (Hm : 0 < m) by (unfold m; lia).
  assert (HG : length (get_bytes (vw a) (Z.to_nat (off mod BSIZE)) (Z.to_nat m)) = Z.to_nat m).
  { apply length_get_bytes. rewrite HL. unfold BSZ, m, BSIZE in *. dlia. }
  eapply runs_seq; [apply HS; [exact HK|lia|rewrite HG; unfold m; lia|]|].
  { intros j Hj. rewrite HG in Hj. rewrite get_bytes_total by (rewrite ?HL; unfold BSZ, m, BSIZE in *; dlia).
    unfold fbyte. replace (Z.to_nat ((off0 + (tot + j)) / BSIZE)) with bn by (unfold bn, off, m, BSIZE in *; dlia).
    fold a. f_equal. unfold off, m, BSIZE in *. dlia. }
  rewrite HG. intros r s2 (u & -> & -> & HK2). cbn [Z.eqb]. apply runs_bind.
  eapply (r_relse (set_u u (set_t t2 (set_t t1 s))) _ _ _ _ _ _ a); [exact D2|upd_solve|by right|]. intros t3 D3.
  rewrite u64_step, (u32_small (off + m)) by (unfold off, m, MAXFILE, NDIRECT, NINDIRECT, BSIZE in *; dlia).
  replace (off + m) with (off0 + (tot + m)) by (unfold off; lia). rewrite Z2Nat.id in HK2 by lia.
  eapply runs_mono; [apply (IH fuel (set_t t3 (set_u u (set_t t2 (set_t t1 s)))) (tot + m)); [done| |done|unfold m; lia| |lia]|].
  - cbn [fs_t set_t]. eapply (txd_idle _ _ _ clean); [eapply txd_weaken; [exact D3|..]; try done|].
    + intros b Hb. by left.
    + destruct (decide (a ∈ lg)); lia.
    + intros b. unfold upd_at. by repeat case_decide.
  - intros Hlt2. specialize (HR Hlt). assert (Em : m = BSIZE - off mod BSIZE) by (unfold m in *; lia). unfold off, BSIZE in *. dlia.
  - intros r s3 (-> & u' & t' & HK3 & -> & D4). split; [done|]. exists u', t'. by split_and!.
Qed.
End io.

(** [writei] and [readi] on the file as an array of bytes. *)
Lemma writei_array {T U} {B : BlockTxn T} {V : BlockTxnView T} {UM : UserMem U} {dv} {L : BlockTxnLaws T dv}
    (s : fsst T U) (sb := fs_sb s) ip vw lg rm sp user_src src off n sdat bad P (i := geti ip s) :
  source (T := T) user_src src n sdat bad P -> P (fs_u s) -> (ip < length (fs_inode s))%nat -> txd (fs_t s) vw none clean lg rm sp ->
  u32 (i_dev i) = dv -> disk_ok sb vw none -> iwf sb vw i -> isize_ok vw i -> dinode_ok (dinode_of i) -> 0 <= i_inum i ->
  0 <= src < 2 ^ 64 -> 0 <= off < 2 ^ 32 -> 0 <= n <= write_max -> MAXOPBLOCKS <= sp -> MAXOPBLOCKS <= rm ->
  if decide (off <= i_size i /\ off + n <= MAXFILE * BSIZE) then
    runs (writei ip user_src src off n) s (fun r s' => exists vw' i' lg' rm' sp',
      0 <= r <= n /\ (r < n -> (disk_full sb vw' /\ no_block vw i off (off + r)) \/ bad r) /\ written sb vw i off r sdat vw' i' /\
      (exists u', P u' /\ same (set_u u' s) s' ip i') /\ disk_ok sb vw' none /\ txd (fs_t s') vw' none clean lg' rm' sp')
  else writei ip user_src src off n s = (Ret (-1), s).
Proof.
  intros HS HP Hip D Hdev DK W SZ DO H0 Hsrc Hoff Hn Hsp Hrm. destruct (decide _) as [[C1 C2]|C].
  2:{ apply writei_reject; [done|change write_max with 3072 in *; lia|]. fold i. lia. }
  eapply runs_mono; [eapply (writei_run sb); try done; split; [lia|exact C1]|]. fold i sb.
  intros r s' (vw1 & i1 & vw' & i' & lg' & rm' & sp' & R1 & R2 & R3 & RL & R4 & R5 & R6 & R7 & R8 & R9).
  destruct (do_alloc _ _ _ DK) as [HSZ _ _].
  assert (HB : forall m, 0 <= m < sb_size sb -> BBLOCK m sb <> IBLOCK (i_inum i) sb) by (by destruct (iw_blk _ _ _ W) as (_ & _ & _ & ?)).
  exists vw', i', lg', rm', sp'. rewrite R8. split_and!; [lia|lia| | |done| |by rewrite <- R8].
  - intros Hlt. destruct (R2 Hlt) as [[Hf Hn']|Hbad]; [|by right]. left. split; [|done]. intros m Hm. rewrite bits_upd by done. by apply Hf.
  - rewrite R7. apply wrote_written; try done; lia.
  - eapply disk_ok_bits; [exact R5|]. intros m Hm Hb. by rewrite bits_upd.
Qed.

Lemma readi_array {T U} {B : BlockTxn T} {V : BlockTxnView T} {UM : UserMem U} {dv} {L : BlockTxnLaws T dv}
    (s : fsst T U) (sb := fs_sb s) ip vw lg rm sp user_dst dst off n K (i := geti ip s)
    (n' := if decide (off <= i_size i /\ off + n < 2 ^ 32) then n `min` (i_size i - off) else 0) :
  sink (T := T) user_dst dst n' (fun k => fbyte vw i (off + k)) K -> K 0 (fs_u s) -> txd (fs_t s) vw none clean lg rm sp ->
  u32 (i_dev i) = dv -> sb_size sb < 2 ^ 31 -> iwf sb vw i -> isize_ok vw i -> 1 <= rm ->
  0 <= dst < 2 ^ 64 -> 0 <= off < 2 ^ 32 -> 0 <= n < 2 ^ 32 ->
  runs (readi ip user_dst dst off n) s (fun r s' =>
    r = n' /\ exists u' t', K n' u' /\ s' = set_t t' (set_u u' s) /\ txd t' vw none clean lg rm sp).
Proof.
  intros HS HK D Hdev HSB W SZ Hrm Hdst Hoff Hn. pose proof SZ as [Z1 _]. unfold readi. mstep. fold i.
  assert (HN : ((i_size i <? off) || (u32 (off + n) <? off)) = negb (bool_decide (off <= i_size i /\ off + n < 2 ^ 32))).
  { apply Bool.eq_true_iff_eq. rewrite orb_true_iff, negb_true_iff, bool_decide_eq_false, !Z.ltb_lt. unfold u32. dlia. }
  rewrite HN. unfold n' in *. clear n' HN. destruct (decide (off <= i_size i /\ off + n < 2 ^ 32)) as [[C1 C2]|C].
  2:{ rewrite bool_decide_eq_false_2 by done. cbn [negb]. mstep. split; [done|]. exists (fs_u s), (fs_t s). split_and!; [done|by destruct s|done]. }
  rewrite bool_decide_eq_true_2 by done. cbn [negb]. rewrite u32_small by lia.
  replace (if i_size i <? off + n then i_size i - off else n) with (n `min` (i_size i - off)) by (destruct (Z.ltb_spec (i_size i) (off + n)); lia).
  set (m := n `min` (i_size i - off)) in *. destruct (rounds_enough off m ltac:(lia)) as [R1 R2].
  pose proof (readi_loop_run sb user_dst dst m K off ip vw lg rm sp (rounds off m) i HS ltac:(lia) ltac:(lia) Hdev HSB W SZ Hrm
    (Z.to_nat (m / BSIZE) + 3) s 0) as RL. cbv zeta in RL. rewrite !Z.add_0_r, (u64_small dst), Z.sub_0_r in RL by done.
  eapply runs_seq; [apply RL; try done; lia|]. intros r s' (-> & u' & t' & H1 & H2 & H3). mstep. split; [|by exists u', t'].
  apply s32_small. unfold MAXFILE, NDIRECT, NINDIRECT, BSIZE in Z1. dlia.
Qed.

(** ** Kernel memory as a source and a sink *)
Class KernelMem (U : Type) {UM : UserMem U} : Prop :=
  km_get : forall (m : mem) (u : U), um_mem (um_set_mem m u) = m.

Section kernel_io.
Context {T U : Type} {UM : UserMem U} {KM : KernelMem U}.

Lemma kernel_source (src n : Z) (m : mem) : 0 <= src -> src + n < 2 ^ 64 ->
  source (T := T) (U := U) false src n (fun k => rd m (src + k)) (fun _ => False) (fun u => um_mem u = m).
Proof.
  intros H0 Hn s k old E Hk Hl. unfold either_copyin. mstep. mstep. rewrite u64_small by lia. unfold fs_mem. rewrite E.
  exists (load_bytes (length old) m (src + k)), (fs_u s). split_and!; [by destruct s|done|]. left. split_and!; [done|apply length_load_bytes|].
  intros j Hj. rewrite load_bytes_total by lia. f_equal. lia.
Qed.

(** Nothing but the [n] bytes from [dst] on changes. *)
Lemma kernel_sink (dst n : Z) (fdat : Z -> Z) (m : mem) : 0 <= dst -> dst + n < 2 ^ 64 ->
  sink (T := T) (U := U) false dst n fdat
    (fun k u => (forall j, 0 <= j < k -> rd (um_mem u) (dst + j) = fdat j) /\ only_changes dst n m (um_mem u)).
Proof.
  intros H0 Hn s k bs [HK HO] Hk Hl Hb. unfold either_copyout. mstep. mstep. rewrite u64_small by lia. unfold fs_mem, set_fmem.
  eexists. split_and!; [done|done| |]; rewrite km_get.
  - intros j Hj. rewrite rd_store_bytes. case_decide.
    + replace j with (k + (j - k)) at 2 by lia. rewrite <- (Hb (j - k)) by lia. f_equal. lia.
    + apply HK. lia.
  - intros a Ha. rewrite rd_store_bytes_out by lia. by apply HO.
Qed.
End kernel_io.

(** ** Properties *)

(** C6. [writei] writes to the file as an array of bytes. For at most
    [write_max] bytes (a round of [filewrite]) at an offset within the file it
    returns having written all of them, or fewer: then the disk is full and the
    next byte needs a new block, or the source could not be read at the first
    byte not written ([bad]).
    The bytes written replace the old ones, the size grows to cover them, every
    other byte of the file and every block of other files is unchanged, and
    the inode on disk is the one in memory. It needs no more log space than
    one operation may use, so it never panics for it. Any other request is
    refused with -1 and changes nothing.  The copy of each block's piece of the
    source is all or nothing ([source]): for a user source that becomes
    unreadable in the middle of a piece, the bytes already copied stay in the
    cached block unlogged, and this theorem does not apply. *)
Theorem writei_refines {T U} {B : BlockTxn T} {V : BlockTxnView T} {UM : UserMem U} {dv} {L : BlockTxnLaws T dv}
    (s : fsst T U) (sb := fs_sb s) ip vw lg rm sp user_src src off n sdat bad P (i := geti ip s) :
  source (T := T) user_src src n sdat bad P -> P (fs_u s) -> (ip < length (fs_inode s))%nat -> txd (fs_t s) vw none clean lg rm sp ->
  u32 (i_dev i) = dv -> disk_ok sb vw none -> iwf sb vw i -> isize_ok vw i -> dinode_ok (dinode_of i) -> 0 <= i_inum i ->
  0 <= src < 2 ^ 64 -> 0 <= off < 2 ^ 32 -> 0 <= n <= write_max -> MAXOPBLOCKS <= sp -> MAXOPBLOCKS <= rm ->
  if decide (off <= i_size i /\ off + n <= MAXFILE * BSIZE) then
    runs (writei ip user_src src off n) s (fun r s' => exists vw' i' lg' rm' sp',
      0 <= r <= n /\ (r < n -> (disk_full sb vw' /\ no_block vw i off (off + r)) \/ bad r) /\ written sb vw i off r sdat vw' i' /\
      (exists u', P u' /\ same (set_u u' s) s' ip i') /\ disk_ok sb vw' none /\ txd (fs_t s') vw' none clean lg' rm' sp')
  else writei ip user_src src off n s = (Ret (-1), s).
Proof. apply writei_array. Qed.

(** C7. [readi] reads the file as an array of bytes: it delivers, in order,
    the bytes of the file from [off] on, as many as asked for and as the file
    has, and returns their number; past the end of the file, or when
    [off + n] overflows, it delivers nothing and returns 0. No block changes. *)
Theorem readi_reads {T U} {B : BlockTxn T} {V : BlockTxnView T} {UM : UserMem U} {dv} {L : BlockTxnLaws T dv}
    (s : fsst T U) (sb := fs_sb s) ip vw lg rm sp user_dst dst off n K (i := geti ip s)
    (n' := if decide (off <= i_size i /\ off + n < 2 ^ 32) then n `min` (i_size i - off) else 0) :
  sink (T := T) user_dst dst n' (fun k => fbyte vw i (off + k)) K -> K 0 (fs_u s) -> txd (fs_t s) vw none clean lg rm sp ->
  u32 (i_dev i) = dv -> sb_size sb < 2 ^ 31 -> iwf sb vw i -> isize_ok vw i -> 1 <= rm ->
  0 <= dst < 2 ^ 64 -> 0 <= off < 2 ^ 32 -> 0 <= n < 2 ^ 32 ->
  runs (readi ip user_dst dst off n) s (fun r s' =>
    r = n' /\ exists u' t', K n' u' /\ s' = set_t t' (set_u u' s) /\ txd t' vw none clean lg rm sp).
Proof. apply readi_array. Qed.

(** ** A disk with one file, for the witnesses *)
#[export] Instance kernel_only : UserMem mem :=
  {| um_copyout := fun _ _ => ret 0; um_copyin := fun _ o => ret (o, 0); um_mem := fun m => m; um_set_mem := fun m _ => m |}.
#[export] Instance kernel_only_mem : KernelMem mem.
Proof. done. Qed.
#[local] Existing Instances txn0 txn_view0 txn_laws0.

Definition disk_hi : gmap Z block := <[40 := [104; 105] ++ replicate 1022 0]> disk64.
Definition inode_hi (a sz : Z) : inode :=
  Inode 1 1 1 (initsleeplock "inode") 1 T_FILE 0 0 1 sz (<[0%nat := a]> (replicate NADDRS 0)).
Definition fs_hi (t : logst bst) (a sz : Z) (m : mem) : fsst (logst bst) mem :=
  FsSt sb64 (initlock "itable") [inode_hi a sz] t m [] [].

Lemma disk_hi_same b : b <> 40 -> disk_get disk_hi b = disk_get disk64 b.
Proof. intros H. unfold disk_get, disk_hi. by rewrite lookup_insert_ne. Qed.

Lemma disk_hi_len b : length (disk_get disk_hi b) = BSZ.
Proof. destruct (decide (b = 40)) as [->|H]; [done|]. rewrite disk_hi_same by done. apply disk64_len. Qed.

Lemma disk_hi_bit n : 0 <= n < 64 -> bit_of sb64 (disk_get disk_hi) n = bit_of sb64 (disk_get disk64) n.
Proof. intros Hn. unfold bit_of. rewrite disk64_bblock by done. by rewrite disk_hi_same. Qed.

Lemma disk_hi_ok : disk_ok sb64 (disk_get disk_hi) none.
Proof.
  split; [|by rewrite disk_hi_bit, disk64_used|done]. destruct disk64_alloc as [A1 A2 A3]. split; [done|done|].
  intros n Hn Hf. rewrite disk_hi_bit in Hf by done. by apply A3.
Qed.

Lemma hi_owned a : 32 <= a < 45 -> owned sb64 (disk_get disk_hi) a.
Proof.
  intros Ha. split_and!; [lia|cbn; lia|by rewrite disk_hi_bit, disk64_used by lia|cbn; unfold in_log; split; lia|].
  intros m Hm. rewrite disk64_bblock by done. lia.
Qed.

Lemma hi_baddr a sz b : (b < FILEBLKS)%nat -> baddr (disk_get disk_hi) (inode_hi a sz) b = if decide (b = 0%nat) then a else 0.
Proof.
  intros Hb. unfold baddr. destruct (decide (b < 12)%nat).
  - cbn [inode_hi i_addrs]. case_decide; [by subst|]. rewrite list_lookup_total_insert_ne by done. by apply lookup_total_replicate_2; unfold NADDRS; lia.
  - rewrite (decide_False (P := b = 0%nat)) by lia. by rewrite decide_True.
Qed.

Lemma hi_wf a sz : a = 0 \/ 33 <= a < 45 -> iwf sb64 (disk_get disk_hi) (inode_hi a sz).
Proof.
  intros Ha. assert (EI : ind (inode_hi a sz) = 0) by done. change (IBLOCK (i_inum (inode_hi a sz)) sb64) with 32.
  split; rewrite ?EI.
  - done.
  - intros b Hb. rewrite hi_baddr by done. case_decide; [|done]. intros H0. apply hi_owned. lia.
  - done.
  - intros b c Hb Hc. rewrite !hi_baddr by done. repeat case_decide; subst; done || lia.
  - intros b Hb. done.
  - by apply hi_owned.
  - split; [|done]. intros b Hb. rewrite hi_baddr by done. change (IBLOCK (i_inum (inode_hi a sz)) sb64) with 32. case_decide; lia.
Qed.

Lemma writei_refines_witness :
  exists t, runs (writei 0 false 100 0 2) (fs_hi t 0 0 {[100 := 7; 101 := 8]}) (fun r s' => exists vw' i', 0 <= r <= 2 /\
    (r < 2 -> disk_full sb64 vw') /\ (r = 2 -> i_size i' = 2 /\ fbyte vw' i' 0 = 7 /\ fbyte vw' i' 1 = 8)).
Proof.
  destruct (boot_txd disk_hi disk_hi_len eq_refl) as (t & D). exists t. set (m0 := {[100 := 7; 101 := 8]} : mem).
  pose proof (writei_refines (dv := 1) (fs_hi t 0 0 m0) 0 (disk_get disk_hi) [] 30 29 false 100 0 2 (fun k => rd m0 (100 + k)) (fun _ => False) (fun u => u = m0)
    (kernel_source 100 2 m0 ltac:(lia) ltac:(lia)) eq_refl ltac:(cbn; lia) D eq_refl disk_hi_ok (hi_wf 0 0 ltac:(by left))) as H.
  change (i_size (geti 0 (fs_hi t 0 0 m0))) with 0 in H. rewrite decide_True in H by done.
  eapply runs_mono; [apply H|].
  - split; [done|]. intros b Hb. change (Z.of_nat b * BSIZE < 0) in Hb. unfold BSIZE in Hb. lia.
  - split; try done. cbn. repeat (constructor; [lia|]). constructor.
  - done.
  - done.
  - done.
  - done.
  - done.
  - done.
  - intros r s' (vw' & i' & lg' & rm' & sp' & R1 & R2 & R3 & _). exists vw', i'. split_and!; [lia|lia|intros Hlt; by destruct (R2 Hlt) as [[? _]|[]]|]. intros ->.
    destruct R3 as [_ [_ ES] EB _ _ _]. change (i_size i' = 2) in ES. split_and!; [done| |]; rewrite EB by lia; by vm_compute.
Defined.

Lemma readi_reads_witness :
  exists t, runs (readi 0 false 500 0 10) (fs_hi t 40 2 ∅) (fun r s' => r = 2 /\ rd (fs_u s') 500 = 104 /\ rd (fs_u s') 501 = 105).
Proof.
  destruct (boot_txd disk_hi disk_hi_len eq_refl) as (t & D). exists t.
  eapply runs_mono; [apply (readi_reads (dv := 1) (fs_hi t 40 2 ∅) 0 (disk_get disk_hi) [] 30 29 false 500 0 10
    (fun k u => (forall j, 0 <= j < k -> rd (um_mem u) (500 + j) = fbyte (disk_get disk_hi) (inode_hi 40 2) (0 + j)) /\ only_changes 500 2 ∅ (um_mem u))
    (kernel_sink 500 2 (fun j => fbyte (disk_get disk_hi) (inode_hi 40 2) (0 + j)) ∅ ltac:(lia) ltac:(lia)) ltac:(split; [intros j Hj; exfalso; lia|done]) D eq_refl ltac:(done) (hi_wf 40 2 ltac:(lia)))|].
  - split; [done|]. intros b Hb. change (Z.of_nat b * BSIZE < 2) in Hb. replace b with 0%nat by (unfold BSIZE in Hb; lia).
    change (baddr (disk_get disk_hi) (inode_hi 40 2) 0 <> 0). by rewrite hi_baddr by (unfold FILEBLKS; lia).
  - lia.
  - lia.
  - lia.
  - lia.
  - intros r s' (-> & u' & t' & [H _] & -> & _). split; [done|]. cbn [fs_u set_t set_u].
    change (i_size (geti 0 (fs_hi t 40 2 ∅))) with 2 in H. rewrite decide_True in H by done.
    split; [apply (H 0)|apply (H 1)]; cbn; lia.
Defined.
