(* ===== verification/DirData.v ===== *)
(** * Directories as maps: [dirlookup] and [dirlink] of kernel/fs.c

    A directory is a file of 16-byte entries.  [dir_map] reads it as a finite
    map from names to inode numbers (the first entry with a name counts,
    entries with number 0 are free).  [dirlookup] looks a name up in that map
    and [dirlink] inserts into it. *)
From S2P Require Import Prelude CString Riscv Spinlock Bio Layout Log Txn Fs File Dir FsData.
Local Open Scope Z_scope.

(** ** The abstract directory *)

(** A name field up to its first NUL. *)
Fixpoint cut_name (l : list Z) : list Z :=
  match l with
  | [] => []
  | c :: t => if c =? 0 then [] else c :: cut_name t
  end.

(** The entry at index [k]. *)
Definition dent_bytes (vw : Z -> block) (i : inode) (k : nat) : list Z :=
  (fun j => fbyte vw i (DESIZE * Z.of_nat k + Z.of_nat j)) <$> seq 0 16.
Definition dent (vw : Z -> block) (i : inode) (k : nat) : list Z * Z :=
  let d := dirent_dec (dent_bytes vw i k) in (cut_name (de_name d), de_inum d).
Definition dents (vw : Z -> block) (i : inode) : list (list Z * Z) :=
  dent vw i <$> seq 0 (Z.to_nat (i_size i / DESIZE)).

Definition live (e : list Z * Z) : Prop := e.2 <> 0.
#[export] Instance live_dec e : Decision (live e).
Proof. unfold live. apply _. Defined.

Definition entries_map (l : list (list Z * Z)) : gmap (list Z) Z := list_to_map (filter live l).
Definition dir_map (vw : Z -> block) (i : inode) : gmap (list Z) Z := entries_map (dents vw i).

(** The first live entry with the name [nm] at or after index [k]. *)
Fixpoint dir_find (l : list (list Z * Z)) (k : nat) (nm : list Z) : option (Z * Z) :=
  match l with
  | [] => None
  | e :: t => if decide (live e /\ e.1 = nm) then Some (e.2, DESIZE * Z.of_nat k) else dir_find t (S k) nm
  end.

(** The index of the first free entry. *)
Fixpoint free_slot (l : list (list Z * Z)) (k : nat) : option nat :=
  match l with
  | [] => None
  | e :: t => if decide (live e) then free_slot t (S k) else Some k
  end.

(** *** Lemmas on lists of entries *)
Lemma entries_map_cons e l : entries_map (e :: l) = if decide (live e) then <[e.1 := e.2]> (entries_map l) else entries_map l.
Proof. unfold entries_map. rewrite filter_cons. case_decide; [|done]. by destruct e. Qed.

Lemma dir_find_map l k nm : fst <$> dir_find l k nm = entries_map l !! nm.
Proof.
  revert k. induction l as [|e l IH]; intros k; cbn [dir_find]; [done|]. rewrite entries_map_cons.
  destruct (decide (live e)) as [Hl|Hl].
  - destruct (decide (e.1 = nm)) as [<-|Hn].
    + rewrite decide_True by done. by rewrite lookup_insert_eq.
    + rewrite decide_False by tauto. by rewrite lookup_insert_ne.
  - rewrite decide_False by tauto. apply IH.
Qed.

Lemma free_slot_spec l k :
  match free_slot l k with
  | Some j => (k <= j < k + length l)%nat /\ exists e, l !! (j - k)%nat = Some e /\ ~ live e
  | None => Forall live l
  end.
Proof.
  revert k. induction l as [|e l IH]; intros k; cbn [free_slot]; [constructor|]. case_decide as Hl.
  - specialize (IH (S k)). destruct (free_slot l (S k)) as [j|]; [|by constructor]. destruct IH as (? & e' & He & Hn).
    cbn [length]. split; [lia|]. exists e'. split; [|done]. by replace (j - k)%nat with (S (j - S k)) by lia.
  - cbn [length]. split; [lia|]. exists e. by rewrite Nat.sub_diag.
Qed.

(** A new name in a free entry, or in a new one, is an insertion. *)
Lemma entries_map_app l l' : entries_map (l ++ l') = entries_map l ∪ entries_map l'.
Proof. unfold entries_map. by rewrite filter_app, list_to_map_app. Qed.

Lemma entries_map_new l1 l2 nm inum : inum <> 0 -> entries_map (l1 ++ l2) !! nm = None ->
  entries_map (l1 ++ (nm, inum) :: l2) = <[nm := inum]> (entries_map (l1 ++ l2)).
Proof.
  intros Hi Hn. rewrite !entries_map_app in *. apply lookup_union_None in Hn as [H1 H2].
  rewrite entries_map_cons, decide_True by done. cbn [fst snd]. by rewrite insert_union_r.
Qed.

Lemma entries_map_fill l j nm inum e : l !! j = Some e -> ~ live e -> inum <> 0 -> entries_map l !! nm = None ->
  entries_map (<[j := (nm, inum)]> l) = <[nm := inum]> (entries_map l).
Proof.
  intros Hj He Hi Hn. rewrite insert_take_drop by (by eapply lookup_lt_Some).
  assert (El : entries_map l = entries_map (take j l ++ drop (S j) l)).
  { rewrite <- (take_drop_middle l j e Hj) at 1. rewrite !entries_map_app, entries_map_cons. by rewrite decide_False. }
  rewrite El in *. by apply entries_map_new.
Qed.

(** ** Names and entries in memory *)
Lemma field_name_cut n m p : field_name n m p = cut_name (load_bytes n m p).
Proof. revert p. induction n as [|n IH]; intros p; cbn [field_name load_bytes cut_name]; [done|]. by rewrite IH. Qed.

Lemma load_bytes_fmap n m p : load_bytes n m p = (fun j => rd m (p + Z.of_nat j)) <$> seq 0 n.
Proof.
  apply list_eq. intros j. destruct (decide (j < n)%nat) as [Hj|Hj].
  - rewrite list_lookup_fmap, lookup_seq_lt by done. cbn.
    rewrite list_lookup_lookup_total_lt by (by rewrite length_load_bytes). by rewrite load_bytes_total.
  - rewrite !lookup_ge_None_2; [done|rewrite length_fmap, length_seq; lia|rewrite length_load_bytes; lia].
Qed.

Lemma get_bytes_load n m p o k : (o + k <= n)%nat -> get_bytes (load_bytes n m p) o k = load_bytes k m (p + Z.of_nat o).
Proof.
  intros H. apply list_eq. intros j. rewrite lookup_get_bytes. case_decide as Hj.
  - rewrite !list_lookup_lookup_total_lt by (rewrite ?length_load_bytes; lia). rewrite !load_bytes_total by lia. do 2 f_equal. lia.
  - rewrite lookup_ge_None_2; [done|rewrite length_load_bytes; lia].
Qed.

(** The entry whose bytes are at [a]. *)
Lemma dent_at vw i k m a :
  (forall j, 0 <= j < 16 -> rd m (a + j) = fbyte vw i (DESIZE * Z.of_nat k + j)) ->
  dent vw i k = (field_name 14 m (a + 2), le_dec (load_bytes 2 m a)).
Proof.
  intros H. unfold dent. assert (E : dent_bytes vw i k = load_bytes 16 m a).
  { rewrite load_bytes_fmap. unfold dent_bytes. apply list_fmap_ext. intros j x Hx. apply lookup_seq in Hx as [-> Hj]. cbn.
    rewrite H by lia. done. }
  rewrite E. unfold dirent_dec, get_le. cbn [de_name de_inum].
  rewrite !get_bytes_load by lia. rewrite field_name_cut, Z.add_0_r. done.
Qed.

(** ** Running [dirlookup] *)
Section run.
Context {T U : Type} {B : BlockTxn T} {V : BlockTxnView T} {UM : UserMem U} {KM : KernelMem U} {dv : Z} {L : BlockTxnLaws T dv} (x : ctx).
Implicit Types s : fsst T U.

(** A directory that [readi] can read: entries of 16 bytes. *)
Record dir_ok (sb : superblock) (vw : Z -> block) (i : inode) : Prop := {
  dk_wf : iwf sb vw i;
  dk_sizeok : isize_ok vw i;
  dk_entries : i_size i mod DESIZE = 0;
  dk_bytes : forall p, 0 <= p < i_size i -> byte_ok (fbyte vw i p);
  dk_dir : i_type i = T_DIR;
}.

(** [s'] is [s] after reading entries into the [DESIZE] bytes at [de]. *)
Definition scratch (de : Z) vw lg rm sp s s' : Prop :=
  exists t' u', s' = set_t t' (set_u u' s) /\ txd t' vw none clean lg rm sp /\
    only_changes de DESIZE (fs_mem s) (um_mem u') /\ (mem_ok (fs_mem s) -> mem_ok (um_mem u')).

Lemma scratch_refl de vw lg rm sp s : txd (fs_t s) vw none clean lg rm sp -> scratch de vw lg rm sp s s.
Proof. intros H. exists (fs_t s), (fs_u s). split_and!; try done. by destruct s. Qed.

Lemma scratch_trans de vw lg rm sp s s1 s2 :
  scratch de vw lg rm sp s s1 -> scratch de vw lg rm sp s1 s2 -> scratch de vw lg rm sp s s2.
Proof.
  intros (t1 & u1 & -> & D1 & C1 & M1) (t2 & u2 & -> & D2 & C2 & M2). exists t2, u2. split_and!; [done|done| |auto].
  by eapply only_changes_trans.
Qed.

Lemma scratch_txd de vw lg rm sp s s' : scratch de vw lg rm sp s s' -> txd (fs_t s') vw none clean lg rm sp.
Proof. by intros (t' & u' & -> & D & _). Qed.

Lemma scratch_same de vw lg rm sp s s' : scratch de vw lg rm sp s s' ->
  fs_sb s' = fs_sb s /\ fs_ilock s' = fs_ilock s /\ fs_inode s' = fs_inode s.
Proof. by intros (t' & u' & -> & _). Qed.

Lemma scratch_mem de vw lg rm sp s s' : scratch de vw lg rm sp s s' ->
  only_changes de DESIZE (fs_mem s) (fs_mem s') /\ (mem_ok (fs_mem s) -> mem_ok (fs_mem s')).
Proof. by intros (t' & u' & -> & _ & C & M). Qed.

(** Reading entry [k]. *)
Lemma read_entry s dp vw lg rm sp de (k : nat) (i := geti dp s) :
  txd (fs_t s) vw none clean lg rm sp -> u32 (i_dev i) = dv -> sb_size (fs_sb s) < 2 ^ 31 -> dir_ok (fs_sb s) vw i -> 1 <= rm ->
  0 <= de -> de + 16 < 2 ^ 64 -> DESIZE * Z.of_nat k < i_size i ->
  runs (readi dp false de (DESIZE * Z.of_nat k) DESIZE) s (fun r s' =>
    r = DESIZE /\ scratch de vw lg rm sp s s' /\
    dent vw i k = (field_name 14 (fs_mem s') (de + 2), le_dec (load_bytes 2 (fs_mem s') de))).
Proof.
  intros D Hdev HSB [W SZ HE HBy _] Hrm H0 Hde Hk.
  assert (Hmax : DESIZE * Z.of_nat k + DESIZE <= i_size i < 2 ^ 31).
  { destruct SZ as [Hs _]. unfold DESIZE, MAXFILE, NDIRECT, NINDIRECT, BSIZE in *. dlia. }
  pose proof (readi_array (dv := dv) s dp vw lg rm sp false de (DESIZE * Z.of_nat k) DESIZE
    (fun j u => (forall l, 0 <= l < j -> rd (um_mem u) (de + l) = fbyte vw i (DESIZE * Z.of_nat k + l)) /\ only_changes de DESIZE (fs_mem s) (um_mem u))) as H.
  cbv zeta in H. fold i in H. rewrite decide_True in H by (unfold DESIZE in *; lia).
  replace (DESIZE `min` (i_size i - DESIZE * Z.of_nat k)) with DESIZE in H by lia.
  eapply runs_mono; [apply H; try done; try (unfold DESIZE in *; lia)|].
  - apply (kernel_sink de DESIZE _ (fs_mem s)); unfold DESIZE; lia.
  - split; [intros l Hl; lia|done].
  - intros r s' (-> & u' & t' & [HK HO] & -> & D'). split; [done|]. split.
    + exists t', u'. split_and!; try done. intros Hm a. destruct (decide (de <= a < de + DESIZE)) as [Ha|Ha]; [|rewrite HO by lia; apply Hm].
      replace a with (de + (a - de)) by lia. rewrite HK by lia. apply HBy. unfold DESIZE in *. lia.
    + apply dent_at. exact HK.
Qed.

Lemma lookup_dents vw i k : (k < Z.to_nat (i_size i / DESIZE))%nat -> dents vw i !! k = Some (dent vw i k).
Proof. intros Hk. unfold dents. by rewrite list_lookup_fmap, lookup_seq_lt. Qed.

Lemma drop_dents vw i k : (k < Z.to_nat (i_size i / DESIZE))%nat -> drop k (dents vw i) = dent vw i k :: drop (S k) (dents vw i).
Proof. intros Hk. by apply drop_S, lookup_dents. Qed.

Section lookup.
Context (dp : nat) (name : Z) (de_look : Z).

Definition lookup_body (d : inode) (off : Z) : M (fsst T U) (option (nat * Z)) :=
  let! n := readi dp false de_look off DESIZE in
  (if negb (n =? DESIZE) then panic "dirlookup read" else ret tt) ;;
  let! inum := de_inum_at de_look in
  if inum =? 0 then ret None
  else
    let! c := namecmp name (de_look + 2) in
    if c =? 0 then
      let! ip := iget x (i_dev d) inum in ret (Some (ip, off))
    else ret None.

Lemma lookup_body_eq s vw lg rm sp (k : nat) (i := geti dp s) (nm := field_name 14 (fs_mem s) name) :
  txd (fs_t s) vw none clean lg rm sp -> u32 (i_dev i) = dv -> sb_size (fs_sb s) < 2 ^ 31 -> dir_ok (fs_sb s) vw i -> 1 <= rm ->
  0 <= de_look -> de_look + 16 < 2 ^ 64 -> DESIZE * Z.of_nat k < i_size i ->
  name + 14 <= de_look \/ de_look + DESIZE <= name -> mem_ok (fs_mem s) ->
  exists s1, scratch de_look vw lg rm sp s s1 /\
    lookup_body i (DESIZE * Z.of_nat k) s =
      if decide (live (dent vw i k) /\ (dent vw i k).1 = nm) then
        (let! ip := iget x (i_dev i) (dent vw i k).2 in ret (Some (ip, DESIZE * Z.of_nat k))) s1
      else (Ret None, s1).
Proof.
  intros D Hdev HSB HD Hrm H0 Hde Hk Hsep Hm.
  destruct (read_entry s dp vw lg rm sp de_look k D Hdev HSB HD Hrm H0 Hde Hk) as (r & s1 & E & -> & Hs & He). fold i in He.
  exists s1. split; [done|]. destruct (scratch_mem _ _ _ _ _ _ _ Hs) as [HO HM].
  unfold lookup_body, bind at 1. rewrite E. unfold de_inum_at, namecmp. unfold bind, ret, gets. rewrite Z.eqb_refl. cbn [negb].
  rewrite He. unfold live. cbn [fst snd]. cbv beta iota.
  destruct (Z.eqb_spec (le_dec (load_bytes 2 (fs_mem s1) de_look)) 0) as [E0|E0]; [by rewrite decide_False by tauto|].
  assert (En : field_name 14 (fs_mem s1) name = nm).
  { apply field_name_ext. intros a Ha. apply HO. unfold DESIZE in *. lia. }
  pose proof (strncmp_loop_zero 14 (fs_mem s1) name (de_look + 2) (HM Hm)) as HC. rewrite En in HC.
  unfold strncmp. change (Z.to_nat DIRSIZ) with 14%nat.
  destruct (Z.eqb_spec (strncmp_loop 14 (fs_mem s1) name (de_look + 2)) 0) as [Ec|Ec].
  - rewrite decide_True; [done|]. split; [done|]. symmetry. by apply HC.
  - rewrite decide_False; [done|]. intros [_ Hn]. apply Ec, HC. done.
Qed.

Lemma lookup_loop_eq vw lg rm sp i nm : forall n k s,
  geti dp s = i -> field_name 14 (fs_mem s) name = nm ->
  txd (fs_t s) vw none clean lg rm sp -> u32 (i_dev i) = dv -> sb_size (fs_sb s) < 2 ^ 31 -> dir_ok (fs_sb s) vw i -> 1 <= rm ->
  0 <= de_look -> de_look + 16 < 2 ^ 64 -> (k + n = Z.to_nat (i_size i / DESIZE))%nat ->
  name + 14 <= de_look \/ de_look + DESIZE <= name -> mem_ok (fs_mem s) ->
  exists s1, scratch de_look vw lg rm sp s s1 /\
    forn n (DESIZE * Z.of_nat k) DESIZE (lookup_body i) s =
      match dir_find (drop k (dents vw i)) k nm with
      | Some (inum, off) => (let! ip := iget x (i_dev i) inum in ret (Some (ip, off))) s1
      | None => (Ret None, s1)
      end.
Proof.
  induction n as [|n IH]; intros k s Ei Hn D Hdev HSB HD Hrm H0 Hde Hk Hsep Hm.
  - exists s. split; [by apply scratch_refl|]. rewrite drop_ge; [done|]. unfold dents. rewrite length_fmap, length_seq. lia.
  - cbn [forn]. unfold bind at 1. subst i.
    destruct (lookup_body_eq s vw lg rm sp k D Hdev HSB HD Hrm H0 Hde) as (s1 & Hs & E); try done.
    { destruct HD as [_ [? _] ? _ _]. unfold DESIZE in *. dlia. }
    rewrite E, drop_dents by lia. cbn [dir_find]. rewrite Hn.
    destruct (decide (live (dent vw (geti dp s) k) /\ (dent vw (geti dp s) k).1 = nm)) as [Hf|Hf].
    + exists s1. split; [done|]. unfold bind, ret. by destruct (iget x (i_dev (geti dp s)) (dent vw (geti dp s) k).2 s1) as [[]].
    + destruct (scratch_same _ _ _ _ _ _ _ Hs) as (Esb & _ & Ein). destruct (scratch_mem _ _ _ _ _ _ _ Hs) as [HO HM].
      destruct (IH (S k) s1) as (s2 & Hs2 & E2).
      * unfold geti. by rewrite Ein.
      * rewrite <- Hn. apply field_name_ext. intros a Ha. apply HO. unfold DESIZE in *. lia.
      * by eapply scratch_txd.
      * done.
      * by rewrite Esb.
      * by rewrite Esb.
      * done.
      * done.
      * done.
      * lia.
      * done.
      * by apply HM.
      * exists s2. split; [by eapply scratch_trans|]. rewrite <- E2. f_equal. unfold DESIZE. lia.
Qed.

(** [dirlookup] on the map of the directory. *)
Lemma dirlookup_eq s vw lg rm sp (i := geti dp s) (nm := field_name 14 (fs_mem s) name) :
  txd (fs_t s) vw none clean lg rm sp -> u32 (i_dev i) = dv -> sb_size (fs_sb s) < 2 ^ 31 -> dir_ok (fs_sb s) vw i -> 1 <= rm ->
  0 <= de_look -> de_look + 16 < 2 ^ 64 ->
  name + 14 <= de_look \/ de_look + DESIZE <= name -> mem_ok (fs_mem s) ->
  exists s1, scratch de_look vw lg rm sp s s1 /\
    dirlookup x de_look dp name s =
      match dir_find (dents vw i) 0 nm with
      | Some (inum, off) => (let! ip := iget x (i_dev i) inum in ret (Some (ip, off))) s1
      | None => (Ret None, s1)
      end.
Proof.
  intros D Hdev HSB HD Hrm H0 Hde Hsep Hm. unfold dirlookup, bind at 1, gets at 1. fold i.
  rewrite (dk_dir _ _ _ HD). unfold bind at 1, ret at 1. cbn [Z.eqb negb]. rewrite Z.eqb_refl. cbn [negb].
  destruct (lookup_loop_eq vw lg rm sp i nm (Z.to_nat ((i_size i - 0 + DESIZE - 1) / DESIZE)) 0 s) as (s1 & Hs & E); try done.
  { destruct HD as [_ [? _] ? _ _]. unfold DESIZE in *. dlia. }
  exists s1. split; [done|]. rewrite drop_0 in E. exact E.
Qed.
End lookup.

(** ** Running [dirlink] *)
Definition slot_body (dp : nat) (de : Z) (off : Z) : M (fsst T U) (option Z) :=
  let! n := readi dp false de off DESIZE in
  (if negb (n =? DESIZE) then panic "dirlink read" else ret tt) ;;
  let! i := de_inum_at de in
  if i =? 0 then ret (Some off) else ret None.

Lemma slot_loop_run dp de vw lg rm sp i : forall n k s,
  geti dp s = i -> txd (fs_t s) vw none clean lg rm sp -> u32 (i_dev i) = dv -> sb_size (fs_sb s) < 2 ^ 31 -> dir_ok (fs_sb s) vw i ->
  1 <= rm -> 0 <= de -> de + 16 < 2 ^ 64 -> (k + n = Z.to_nat (i_size i / DESIZE))%nat ->
  runs (forn n (DESIZE * Z.of_nat k) DESIZE (slot_body dp de)) s (fun r s' =>
    scratch de vw lg rm sp s s' /\ r = (fun j : nat => DESIZE * Z.of_nat j) <$> free_slot (drop k (dents vw i)) k).
Proof.
  induction n as [|n IH]; intros k s Ei D Hdev HSB HD Hrm H0 Hde Hk; cbn [forn].
  - mstep. split; [by apply scratch_refl|]. rewrite drop_ge; [done|]. unfold dents. rewrite length_fmap, length_seq. lia.
  - rewrite drop_dents by lia. cbn [free_slot]. unfold slot_body at 1. mstep. subst i. eapply runs_seq.
    { apply (read_entry s dp vw lg rm sp de k); try done. destruct HD as [_ [? _] ? _ _]. unfold DESIZE in *. dlia. }
    intros r s1 (-> & Hs & He). rewrite Z.eqb_refl. cbn [negb]. mstep. unfold de_inum_at. mstep.
    assert (Hl : live (dent vw (geti dp s) k) <-> le_dec (load_bytes 2 (fs_mem s1) de) <> 0) by (unfold live; by rewrite He).
    destruct (Z.eqb_spec (le_dec (load_bytes 2 (fs_mem s1) de)) 0) as [E0|E0]; mstep.
    + rewrite decide_False by tauto. mstep. done.
    + rewrite decide_True by tauto. destruct (scratch_same _ _ _ _ _ _ _ Hs) as (Esb & _ & Ein).
      replace (DESIZE * Z.of_nat k + DESIZE) with (DESIZE * Z.of_nat (S k)) by lia.
      eapply runs_mono; [apply (IH (S k) s1); try done|].
      * unfold geti. by rewrite Ein.
      * by eapply scratch_txd.
      * by rewrite Esb.
      * by rewrite Esb.
      * lia.
      * intros r s2 [Hs2 ->]. split; [by eapply scratch_trans|done].
Qed.

(** The entry [dirlink] prepares. *)
Definition new_entry (m : mem) (de name inum : Z) : mem := store_bytes (strncpy m (de + 2) name DIRSIZ) de (le_enc 2 inum).

Lemma new_entry_spec m de name inum : mem_ok m -> 0 <= inum < 2 ^ 16 ->
  name + 14 <= de \/ de + DESIZE <= name ->
  field_name 14 (new_entry m de name inum) (de + 2) = field_name 14 m name /\
  le_dec (load_bytes 2 (new_entry m de name inum) de) = inum /\ mem_ok (new_entry m de name inum) /\
  only_changes de DESIZE m (new_entry m de name inum).
Proof.
  intros Hm Hi Hsep. unfold new_entry, strncpy, DESIZE in *. change (Z.to_nat DIRSIZ) with 14%nat.
  pose proof (strncpy_loop_only 14 m (de + 2) name) as HO. split_and!.
  - rewrite <- (strncpy_loop_name 14 m (de + 2) name) by lia. apply field_name_ext. intros a Ha.
    apply rd_store_bytes_out. rewrite length_le_enc. lia.
  - replace 2%nat with (length (le_enc 2 inum)) at 1 by apply length_le_enc. rewrite load_store_bytes, le_dec_enc. by apply Z.mod_small.
  - intros a. rewrite rd_store_bytes. case_decide; [|by apply strncpy_loop_ok].
    pose proof (le_enc_ok 2 inum) as HF. rewrite length_le_enc in *. rewrite Forall_forall in HF. apply HF.
    apply list_elem_of_lookup_total_2. rewrite length_le_enc. lia.
  - intros a Ha. rewrite rd_store_bytes_out by (rewrite length_le_enc; lia). apply HO. lia.
Qed.

(** What a write of one entry at index [k], within the directory or at its
    end, makes of the directory. *)
Lemma dents_written sb vw i vw' i' (k : nat) sdat m a :
  dir_ok sb vw i -> (k <= Z.to_nat (i_size i / DESIZE))%nat -> DESIZE * Z.of_nat k + DESIZE <= MAXFILE * BSIZE ->
  written sb vw i (DESIZE * Z.of_nat k) DESIZE sdat vw' i' ->
  (forall j, 0 <= j < DESIZE -> rd m (a + j) = sdat j) -> mem_ok m ->
  let e := (field_name 14 m (a + 2), le_dec (load_bytes 2 m a)) in
  dir_ok sb vw' i' /\
  dents vw' i' = if decide (k < length (dents vw i))%nat then <[k := e]> (dents vw i) else dents vw i ++ [e].
Proof.
  intros [W SZ HE HBy HT] Hk Hmax [W' [SZ' ES] HB _ Hsame _] Hs Hm e. destruct SZ as [Z1 Z2].
  set (c := Z.to_nat (i_size i / DESIZE)) in *.
  assert (Hc : i_size i = DESIZE * Z.of_nat c) by (unfold c, DESIZE in *; dlia).
  assert (Hlen : length (dents vw i) = c) by (unfold dents; by rewrite length_fmap, length_seq).
  assert (Ec' : Z.to_nat (i_size i' / DESIZE) = (c `max` S k)%nat) by (rewrite ES, Hc; unfold DESIZE; dlia).
  assert (Hother : forall j, (j < c `max` S k)%nat -> j <> k -> dent vw' i' j = dent vw i j).
  { intros j Hj Hne. unfold dent. assert (E : dent_bytes vw' i' j = dent_bytes vw i j); [|by rewrite E].
    apply list_fmap_ext. intros l y Hy. apply lookup_seq in Hy as [-> Hl]. cbn.
    rewrite HB by (rewrite ES, Hc; unfold DESIZE; lia). rewrite decide_False by (unfold DESIZE; lia). done. }
  assert (Hnew : dent vw' i' k = e).
  { apply dent_at. intros j Hj. rewrite HB by (rewrite ES, Hc; unfold DESIZE; lia). rewrite decide_True by (unfold DESIZE; lia).
    rewrite Hs by (unfold DESIZE; lia). f_equal. lia. }
  split.
  - split; try done.
    + rewrite ES, Hc. unfold DESIZE. dlia.
    + intros p Hp. rewrite HB by done. case_decide as Hd.
      * rewrite <- Hs by lia. apply Hm.
      * apply HBy. rewrite ES in Hp. unfold DESIZE in *. lia.
    + by rewrite Hsame.
  - apply list_eq. intros j. unfold dents at 1. rewrite Ec'. destruct (decide (j < c `max` S k)%nat) as [Hj|Hj].
    + rewrite list_lookup_fmap, lookup_seq_lt by done. cbn [fmap option_fmap option_map Nat.add]. destruct (decide (j = k)) as [->|Hne].
      * rewrite Hnew. case_decide as Hlt; [by rewrite list_lookup_insert_eq by done|].
        rewrite lookup_app_r by lia. replace (k - length (dents vw i))%nat with 0%nat by lia. done.
      * rewrite Hother by done. assert (j < c)%nat by lia.
        case_decide; [rewrite list_lookup_insert_ne by done|rewrite lookup_app_l by lia]; symmetry; by apply lookup_dents.
    + rewrite lookup_ge_None_2 by (rewrite length_fmap, length_seq; lia). symmetry. apply lookup_ge_None_2.
      case_decide; [rewrite length_insert|rewrite length_app; cbn]; lia.
Qed.

(** A write that got no block leaves the directory as it was. *)
Lemma dents_kept sb vw i vw' i' off sdat :
  dir_ok sb vw i -> 0 <= off <= i_size i -> written sb vw i off 0 sdat vw' i' -> dir_ok sb vw' i' /\ dents vw' i' = dents vw i.
Proof.
  intros [W SZ HE HBy HT] Hoff [W' [SZ' ES] HB _ Hsame _]. rewrite Z.add_0_r, Z.max_l in ES by lia.
  assert (HB' : forall p, 0 <= p < i_size i -> fbyte vw' i' p = fbyte vw i p).
  { intros p Hp. rewrite HB by lia. by rewrite decide_False by lia. }
  split; [split; try done|].
  - by rewrite ES.
  - intros p Hp. rewrite HB' by lia. apply HBy. lia.
  - by rewrite Hsame.
  - unfold dents. rewrite ES. apply list_fmap_ext. intros j k Hk. apply lookup_seq in Hk as [-> Hk]. cbn.
    unfold dent. assert (E : dent_bytes vw' i' j = dent_bytes vw i j); [|by rewrite E].
    apply list_fmap_ext. intros l y Hy. apply lookup_seq in Hy as [-> Hl]. cbn. apply HB'. unfold DESIZE in *. dlia.
Qed.

(** What inserting [nm] makes of the disk and of the inode table: the new map,
    or -1 and the old one when there is no room; nothing else changes. *)
Definition link_post (s : fsst T U) (dp : nat) (vw : Z -> block) (nm : list Z) (inum r : Z) (s' : fsst T U) : Prop :=
  let i := geti dp s in let sb := fs_sb s in
  exists vw' i' lg' rm' sp',
    (r = 0 /\ dir_map vw' i' = <[nm := inum]> (dir_map vw i) \/
     r = -1 /\ (disk_full sb vw' \/ MAXFILE * BSIZE < i_size i + DESIZE) /\ dir_map vw' i' = dir_map vw i) /\
    dir_ok sb vw' i' /\ (disk_inode sb vw (i_inum i) = dinode_of i -> disk_inode sb vw' (i_inum i) = dinode_of i') /\
    (forall a, owned sb vw a -> a <> ind i -> a <> IBLOCK (i_inum i) sb -> (forall b, (b < FILEBLKS)%nat -> a <> baddr vw i b) -> vw' a = vw a) /\
    fs_inode s' = <[dp := i']> (fs_inode s) /\ fs_sb s' = sb /\ fs_ilock s' = fs_ilock s /\
    disk_ok sb vw' none /\ txd (fs_t s') vw' none clean lg' rm' sp'.

(** The second half of [dirlink], from a free index on. *)
Lemma link_write s dp vw lg rm sp de name inum (k : nat) (i := geti dp s) (nm := field_name 14 (fs_mem s) name) :
  txd (fs_t s) vw none clean lg rm sp -> (dp < length (fs_inode s))%nat -> u32 (i_dev i) = dv -> disk_ok (fs_sb s) vw none ->
  dir_ok (fs_sb s) vw i -> dinode_ok (dinode_of i) -> 0 <= i_inum i -> MAXOPBLOCKS <= sp -> MAXOPBLOCKS <= rm ->
  0 <= de -> de + 16 < 2 ^ 64 -> name + 14 <= de \/ de + DESIZE <= name -> mem_ok (fs_mem s) -> 0 < inum < 2 ^ 16 ->
  dir_map vw i !! nm = None -> (k <= length (dents vw i))%nat -> (forall e, dents vw i !! k = Some e -> ~ live e) ->
  runs (modify (fun s => set_fmem (strncpy (fs_mem s) (de + 2) name DIRSIZ) s) ;;
        modify (fun s => set_fmem (store_bytes (fs_mem s) de (le_enc 2 inum)) s) ;;
        let! n := writei dp false de (DESIZE * Z.of_nat k) DESIZE in
        if negb (n =? DESIZE) then ret (-1) else ret 0) s (fun r s' => link_post s dp vw nm inum r s').
Proof.
  intros D Hip Hdev DK HD DO Hin Hsp Hrm H0 Hde Hsep Hm Hinum Hnone Hk Hfree. do 2 mstep.
  set (m := new_entry (fs_mem s) de name inum). destruct (new_entry_spec (fs_mem s) de name inum Hm ltac:(lia) Hsep) as (N1 & N2 & N3 & _).
  fold m in N1, N2, N3. match goal with |- runs _ ?v _ => set (s1 := v) end.
  assert (Em : um_mem (fs_u s1) = m) by (unfold s1, set_fmem, fs_mem; cbn [fs_u set_u]; by rewrite !km_get).
  assert (Hlen : length (dents vw i) = Z.to_nat (i_size i / DESIZE)) by (unfold dents; by rewrite length_fmap, length_seq).
  pose proof HD as [W SZ HE HBy HT]. pose proof SZ as [Z1 Z2].
  assert (Hoff : 0 <= DESIZE * Z.of_nat k <= i_size i) by (unfold DESIZE in *; dlia).
  pose proof (writei_array (dv := dv) s1 dp vw lg rm sp false de (DESIZE * Z.of_nat k) DESIZE (fun j => rd m (de + j)) (fun _ => False) (fun u => um_mem u = m)
    (kernel_source de DESIZE m ltac:(lia) ltac:(unfold DESIZE; lia)) Em Hip D Hdev DK W SZ DO Hin) as H.
  change (geti dp s1) with i in H. change (fs_sb s1) with (fs_sb s) in H.
  specialize (H ltac:(lia) ltac:(unfold MAXFILE, NDIRECT, NINDIRECT, BSIZE in Z1; dlia) ltac:(unfold DESIZE; change write_max with 3072; lia) Hsp Hrm).
  destruct (decide (DESIZE * Z.of_nat k <= i_size i /\ DESIZE * Z.of_nat k + DESIZE <= MAXFILE * BSIZE)) as [[_ C]|C].
  2:{ unfold link_post. fold i. eapply runs_seq; [by eapply (runs_eq _ _ (-1) s1 (fun r v => r = -1 /\ v = s1))|]. intros r v [-> ->]. change (negb (-1 =? DESIZE)) with true. cbv iota beta. mstep.
      exists vw, i, lg, rm, sp. split_and!; try done.
      - right. split_and!; try done. right. lia.
      - cbn. symmetry. apply list_insert_id. by apply list_lookup_lookup_total_lt. }
  eapply runs_seq; [exact H|]. intros r s2 (vw' & i' & lg' & rm' & sp' & Hr & Hfull & HW & (u' & _ & Sm) & DK' & D').
  destruct Sm as (A1 & A2 & A3 & A4 & A5). cbn [fs_sb fs_ilock fs_inode set_u s1 set_fmem] in A1, A2, A5.
  destruct (decide (r = DESIZE)) as [->|Hne].
  - rewrite Z.eqb_refl. cbn [negb]. mstep. exists vw', i', lg', rm', sp'. fold i.
    destruct (dents_written _ _ _ _ _ k _ m de HD ltac:(lia) C HW (fun _ _ => eq_refl) N3) as [HD' Ed]. rewrite N1, N2 in Ed. fold nm in Ed.
    split_and!; try done; [|by intros _; apply HW|apply HW].
    left. split; [done|]. unfold dir_map in *. rewrite Ed. case_decide as Hlt.
    + destruct (lookup_lt_is_Some_2 (dents vw i) k Hlt) as [e He]. by eapply entries_map_fill; [exact He|apply Hfree|lia|].
    + rewrite entries_map_new by (rewrite ?app_nil_r; done || lia). by rewrite app_nil_r.
  - rewrite (proj2 (Z.eqb_neq _ _)) by done. cbn [negb]. mstep. destruct (Hfull ltac:(lia)) as [[Hf [Ha Hb]]|[]].
    assert (r = 0) as -> by (unfold DESIZE, BSIZE in *; dlia).
    destruct (dents_kept _ _ _ _ _ _ _ HD Hoff HW) as [HD' Ed]. exists vw', i', lg', rm', sp'. fold i.
    split_and!; try done; [|by intros _; apply HW|apply HW].
    right. split_and!; try done; [by left|]. unfold dir_map. by rewrite Ed.
Qed.

Lemma dir_find_spec l k nm n off : dir_find l k nm = Some (n, off) ->
  exists j : nat, off = DESIZE * Z.of_nat (k + j) /\ l !! j = Some (nm, n).
Proof.
  revert k. induction l as [|e l IH]; intros k; cbn [dir_find]; [done|]. case_decide as H.
  - intros [= <- <-]. exists 0%nat. rewrite Nat.add_0_r. split; [done|]. destruct e, H. cbn in *. by subst.
  - intros (j & -> & Hj)%IH. exists (S j). split; [|done]. f_equal. lia.
Qed.

Lemma link_post_scratch de vw lg rm sp s s1 dp nm inum r s' :
  scratch de vw lg rm sp s s1 -> link_post s1 dp vw nm inum r s' -> link_post s dp vw nm inum r s'.
Proof. by intros (t1 & u1 & -> & _). Qed.

Lemma scratch_frame de vw lg rm sp s s1 p : scratch de vw lg rm sp s s1 -> p + 14 <= de \/ de + DESIZE <= p ->
  field_name 14 (fs_mem s1) p = field_name 14 (fs_mem s) p.
Proof.
  intros [HO _]%scratch_mem Hp. apply field_name_ext. intros a Ha. apply HO. unfold DESIZE in *. lia.
Qed.

Section link.
Context (s : fsst T U) (dp : nat) (vw : Z -> block) (lg : list Z) (rm sp de_look de_link name inum : Z).
Abbreviation i := (geti dp s).
Abbreviation nm := (field_name 14 (fs_mem s) name).

(** What [dirlookup] and [dirlink] are called with. *)
Record dir_call : Prop := {
  dc_txd : txd (fs_t s) vw none clean lg rm sp;
  dc_room : MAXOPBLOCKS <= sp /\ MAXOPBLOCKS <= rm;
  dc_disk : disk_ok (fs_sb s) vw none;
  dc_ip : (dp < length (fs_inode s))%nat /\ u32 (i_dev i) = dv /\ 0 <= i_inum i /\ dinode_ok (dinode_of i);
  dc_dir : dir_ok (fs_sb s) vw i;
  dc_look : 0 <= de_look /\ de_look + 16 < 2 ^ 64 /\ (name + 14 <= de_look \/ de_look + DESIZE <= name);
  dc_link : 0 <= de_link /\ de_link + 16 < 2 ^ 64 /\ (name + 14 <= de_link \/ de_link + DESIZE <= name);
  dc_mem : mem_ok (fs_mem s);
  dc_inum : 0 < inum < 2 ^ 16;
}.

Lemma dirlink_run : dir_call -> dir_map vw i !! nm = None ->
  runs (dirlink x de_look de_link dp name inum) s (fun r s' => link_post s dp vw nm inum r s').
Proof.
  intros [D [Hsp Hrm] DK (Hip & Hdev & Hi & DO) HD (L1 & L2 & L3) (K1 & K2 & K3) Hm Hin] Hnone.
  destruct (do_alloc _ _ _ DK) as [HSB _ _]. change MAXOPBLOCKS with 10 in *.
  destruct (dirlookup_eq dp name de_look s vw lg rm sp D Hdev ltac:(lia) HD ltac:(lia) L1 L2 L3 Hm) as (s1 & Hs1 & E1).
  assert (EF : dir_find (dents vw i) 0 nm = None).
  { destruct (dir_find (dents vw i) 0 nm) as [p|] eqn:E; [|done]. pose proof (dir_find_map (dents vw i) 0 nm) as HF.
    rewrite E in HF. fold (dir_map vw i) in HF. by rewrite Hnone in HF. }
  rewrite EF in E1. unfold dirlink. eapply runs_seq; [by eapply (runs_eq _ _ None s1 (fun r v => r = None /\ v = s1))|].
  intros r v [-> ->]. mstep. destruct (scratch_same _ _ _ _ _ _ _ Hs1) as (Esb & _ & Ein).
  assert (Ei : geti dp s1 = i) by (unfold geti; by rewrite Ein). rewrite Ei.
  pose proof HD as [_ [Z1 _] HE _ _].
  assert (Hlen : length (dents vw i) = Z.to_nat (i_size i / DESIZE)) by (unfold dents; by rewrite length_fmap, length_seq).
  eapply runs_seq.
  { apply (slot_loop_run dp de_link vw lg rm sp i (Z.to_nat ((i_size i - 0 + DESIZE - 1) / DESIZE)) 0 s1); try done; rewrite ?Esb; try done; try lia.
    - by eapply scratch_txd.
    - unfold DESIZE in *. dlia. }
  intros r s2 [Hs2 ->]. rewrite drop_0. destruct (scratch_same _ _ _ _ _ _ _ Hs2) as (Esb2 & _ & Ein2).
  assert (Ei2 : geti dp s2 = i) by (unfold geti; by rewrite Ein2, Ein).
  assert (Enm : field_name 14 (fs_mem s2) name = nm).
  { rewrite (scratch_frame _ _ _ _ _ _ _ name Hs2 K3). by apply (scratch_frame _ _ _ _ _ _ _ name Hs1 L3). }
  set (k := default (length (dents vw i)) (free_slot (dents vw i) 0)).
  replace (match (fun j : nat => DESIZE * Z.of_nat j) <$> free_slot (dents vw i) 0 with
           | Some off => off | None => (i_size i + DESIZE - 1) / DESIZE * DESIZE end) with (DESIZE * Z.of_nat k).
  2:{ unfold k. destruct (free_slot (dents vw i) 0); cbn; [done|]. rewrite Hlen. unfold DESIZE in *. dlia. }
  assert (Hk : (k <= length (dents vw i))%nat /\ forall e, dents vw i !! k = Some e -> ~ live e).
  { pose proof (free_slot_spec (dents vw i) 0) as HF. unfold k. destruct (free_slot (dents vw i) 0) as [j|]; cbn.
    - destruct HF as [Hj (e & He & Hne)]. rewrite Nat.sub_0_r in He. split; [lia|]. intros e' He'. rewrite He in He'. by injection He' as <-.
    - split; [lia|]. intros e He. by rewrite lookup_ge_None_2 in He. }
  eapply runs_mono; [apply (link_write s2 dp vw lg rm sp de_link name inum k); rewrite ?Ei2, ?Enm, ?Esb2, ?Esb, ?Ein2, ?Ein; try done; try tauto; try lia|].
  - by eapply scratch_txd.
  - by apply (scratch_mem _ _ _ _ _ _ _ Hs2), (scratch_mem _ _ _ _ _ _ _ Hs1).
  - intros r s3 HP. rewrite Enm in HP. by eapply link_post_scratch, link_post_scratch.
Qed.
End link.
End run.

(** ** Properties *)

(** C8. A directory is a finite map from names to inode numbers, and
    [dirlookup] and [dirlink] are its operations. [dirlookup] of a name in
    the map takes a reference to the inode the map gives, at the offset of
    the entry, and returns NULL for any other name; it changes nothing but its
    local entry. [dirlink] of a name that is there gives -1 and drops the
    reference; of a new name it inserts exactly that pair, in the first free
    entry or at the end, and returns 0, or it returns -1 with the map as it
    was because the disk is full or the directory has its maximal size; the
    blocks of other files are kept and the directory stays well formed. *)
Theorem dir_refines_map {T U} {B : BlockTxn T} {V : BlockTxnView T} {UM : UserMem U} {KM : KernelMem U} {dv} {L : BlockTxnLaws T dv} (x : ctx)
    (s : fsst T U) dp vw lg rm sp de_look de_link name inum (i := geti dp s) (nm := field_name 14 (fs_mem s) name) :
  dir_call (dv := dv) s dp vw lg rm sp de_look de_link name inum ->
  match dir_map vw i !! nm with
  | Some n => exists (k : nat) s1, dents vw i !! k = Some (nm, n) /\ scratch de_look vw lg rm sp s s1 /\
      dirlookup x de_look dp name s = (let! ip := iget x (i_dev i) n in ret (Some (ip, DESIZE * Z.of_nat k))) s1 /\
      dirlink x de_look de_link dp name inum s = (let! ip := iget x (i_dev i) n in iput x ip ;; ret (-1)) s1
  | None =>
      (exists s1, scratch de_look vw lg rm sp s s1 /\ dirlookup x de_look dp name s = (Ret None, s1)) /\
      runs (dirlink x de_look de_link dp name inum) s (fun r s' => link_post s dp vw nm inum r s')
  end.
Proof.
  intros HC. pose proof HC as [D [Hsp Hrm] DK (Hip & Hdev & Hi & DO) HD (L1 & L2 & L3) _ Hm _].
  destruct (do_alloc _ _ _ DK) as [HSB _ _]. change MAXOPBLOCKS with 10 in *.
  destruct (dirlookup_eq x dp name de_look s vw lg rm sp D Hdev ltac:(lia) HD ltac:(lia) L1 L2 L3 Hm) as (s1 & Hs1 & E1).
  fold i nm in E1. pose proof (dir_find_map (dents vw i) 0 nm) as HF. fold (dir_map vw i) in HF.
  destruct (dir_find (dents vw i) 0 nm) as [[n off]|] eqn:EF; cbn [fmap option_fmap option_map fst] in HF.
  - destruct (dir_find_spec _ _ _ _ _ EF) as (k & -> & Hk). rewrite <- HF. exists k, s1. split_and!; try done.
    unfold dirlink, bind at 1. rewrite E1. unfold bind, ret. by destruct (iget x (i_dev i) n s1) as [[]].
  - rewrite <- HF. split; [by exists s1|]. by apply (dirlink_run x s dp vw lg rm sp).
Qed.

(** An empty directory, and the name [a] at address 200. *)
Definition empty_dir : inode := Inode 1 1 1 (initsleeplock "inode") 1 T_DIR 0 0 1 0 (replicate NADDRS 0).
Definition fs_dir (t : logst bst) : fsst (logst bst) mem := FsSt sb64 (initlock "itable") [empty_dir] t {[200 := 97]} [] [].
#[local] Existing Instances txn0 txn_view0 txn_laws0.

Lemma dir_refines_map_witness :
  exists t, runs (dirlink x0 500 600 0 200 7) (fs_dir t) (fun r s' => link_post (fs_dir t) 0 (disk_get disk_hi) [97] 7 r s').
Proof.
  destruct (boot_txd disk_hi disk_hi_len eq_refl) as (t & D). exists t.
  refine (proj2 (dir_refines_map (dv := 1) x0 (fs_dir t) 0 (disk_get disk_hi) [] 30 29 500 600 200 7 _)).
  split; try done; try (cbn; unfold DESIZE; lia).
  - exact disk_hi_ok.
  - split_and!; try done; [cbn; lia|]. split; try done. cbn. repeat (constructor; [lia|]). constructor.
  - split; try done.
    + apply (iwf_addrs sb64 (disk_get disk_hi) (inode_hi 0 0)); [apply hi_wf; by left|done|done].
    + split; [done|]. intros b Hb. cbn in Hb. unfold BSIZE in Hb. lia.
    + intros p Hp. cbn in Hp. lia.
  - intros a. unfold rd, fs_mem. cbn [um_mem kernel_only fs_u fs_dir]. destruct (decide (a = 200)) as [->|Ha].
    + rewrite lookup_singleton_eq. unfold byte_ok. cbn. lia.
    + rewrite lookup_singleton_ne by done. unfold byte_ok. cbn. lia.
Defined.
