(* ===== verification/Mkfs.v ===== *)
(** * The image builder: mkfs/mkfs.c

    mkfs runs on the build host and writes the file system image the kernel
    boots from.  The image is a host file, modelled as the list of its blocks;
    the files to copy are read through [host], which gives for a path what the
    successive calls of [read] return (nothing when the path cannot be
    opened).  The host's writes to the image succeed.  [die], a failed
    [assert] and the usage message end the program and are [Panic]; what mkfs
    prints is left out.  The host is little-endian, as [sb.magic] and
    [IBLOCK(inum, sb)], which are not converted, require.

    The theorem at the end composes the builder with the kernel: on the image
    that mkfs leaves the invariants hold that the file system's theorems
    start from, and the files are there with their contents. *)
From S2P Require Import Prelude CString Riscv Spinlock Bio Layout Log Txn Fs File Dir FsData DirData.
Local Open Scope Z_scope.

#[local] Arguments Nat.div : simpl never.
#[local] Arguments Nat.modulo : simpl never.

Definition NINODES : Z := 200.
Definition nbitmap : Z := FSSIZE / BPB + 1.
Definition ninodeblocks : Z := NINODES / IPB + 1.
Definition nlog : Z := LOGSIZE.
Definition nmeta : Z := 2 + nlog + ninodeblocks + nbitmap.
Definition nblocks : Z := FSSIZE - nmeta.
Definition zeroes : block := replicate BSZ 0.

(** The globals: the image behind [fsfd], the super block and the two
    allocation counters. *)
Record mkst := MkSt {
  mk_img : list block;
  mk_sb : superblock;
  mk_freeinode : Z;
  mk_freeblock : Z;
}.
Definition set_img (v : list block) (s : mkst) : mkst := MkSt v (mk_sb s) (mk_freeinode s) (mk_freeblock s).
Definition set_mksb (v : superblock) (s : mkst) : mkst := MkSt (mk_img s) v (mk_freeinode s) (mk_freeblock s).
Definition set_freeinode (v : Z) (s : mkst) : mkst := MkSt (mk_img s) (mk_sb s) v (mk_freeblock s).
Definition set_freeblock (v : Z) (s : mkst) : mkst := MkSt (mk_img s) (mk_sb s) (mk_freeinode s) v.

(** The globals before [main]. *)
Definition mk0 : mkst := MkSt [] (Superblock 0 0 0 0 0 0 0 0) 1 0.

Definition die {A} (s : string) : M mkst A := panic s.
Definition assert_ (b : bool) : M mkst unit := if b then ret tt else panic "assert".

(** Conversion to the byte order of the kernel. *)
Definition xshort (x : Z) : Z := le_dec [u8 x; u8 (Z.shiftr x 8)].
Definition xint (x : Z) : Z := le_dec [u8 x; u8 (Z.shiftr x 8); u8 (Z.shiftr x 16); u8 (Z.shiftr x 24)].

(** Writing a block of the host file; a gap it leaves reads as zeros. *)
Definition write_at (l : list block) (n : nat) (d : block) : list block :=
  if decide (n < length l)%nat then <[n := d]> l else l ++ replicate (n - length l) zeroes ++ [d].

Definition wsect (sec : Z) (buf : block) : M mkst unit :=
  modify (fun s => set_img (write_at (mk_img s) (Z.to_nat (u32 (sec * BSIZE) / BSIZE)) buf) s).
Definition rsect (sec : Z) : M mkst block :=
  let! img := gets mk_img in
  match img !! Z.to_nat (u32 (sec * BSIZE) / BSIZE) with
  | Some d => ret d
  | None => die "read"
  end.

Definition winode (inum : Z) (ip : dinode) : M mkst unit :=
  let! sb := gets mk_sb in
  let bn := u32 (IBLOCK inum sb) in
  let! buf := rsect bn in
  wsect bn (put_bytes buf (di_off inum) (dinode_enc ip)).
Definition rinode (inum : Z) : M mkst dinode :=
  let! sb := gets mk_sb in
  let bn := u32 (IBLOCK inum sb) in
  let! buf := rsect bn in
  ret (dinode_dec buf (di_off inum)).

Definition ialloc (type : Z) : M mkst Z :=
  let! inum := gets mk_freeinode in
  modify (set_freeinode (u32 (inum + 1))) ;;
  winode inum (Dinode (s16 (xshort type)) 0 0 (s16 (xshort 1)) (xint 0) (replicate NADDRS 0)) ;;
  ret inum.

(** [for(i = 0; i < used; i++) buf[i/8] |= 1 << (i%8)] *)
Fixpoint set_bits (used : nat) (buf : block) : block :=
  match used with
  | O => buf
  | S i => set_bit (set_bits i buf) (Z.of_nat i)
  end.
Definition balloc (used : Z) : M mkst unit :=
  assert_ (used <? BPB) ;;
  let! sb := gets mk_sb in
  wsect (sb_bmapstart sb) (set_bits (Z.to_nat used) zeroes).

(** [freeblock++] *)
Definition next_block : M mkst Z :=
  let! b := gets mk_freeblock in
  modify (set_freeblock (u32 (b + 1))) ;;
  ret b.

(** [if(xint(din.addrs[n]) == 0) din.addrs[n] = xint(freeblock++);] *)
Definition with_slot (n : nat) (v : Z) (din : dinode) : dinode :=
  Dinode (di_type din) (di_major din) (di_minor din) (di_nlink din) (di_size din) (<[n := v]> (di_addrs din)).
Definition slot (din : dinode) (n : nat) : M mkst dinode :=
  if xint (di_addrs din !!! n) =? 0 then let! b := next_block in ret (with_slot n (xint b) din) else ret din.

(** The entry [k] of the indirect block, allocated when it is 0. *)
Definition indirect_block (din : dinode) (k : nat) : M mkst Z :=
  let a := xint (di_addrs din !!! NDIRECTn) in
  let! indirect := rsect a in
  let! indirect :=
    (if entry indirect k =? 0 then
       let! b := next_block in
       let indirect := put_le indirect (4 * k) 4 (xint b) in
       wsect a indirect ;; ret indirect
     else ret indirect) in
  ret (xint (entry indirect k)).

(** The disk block [x] of the file's block [fbn], allocated when there is none. *)
Definition iappend_block (din : dinode) (fbn : Z) : M mkst (dinode * Z) :=
  if fbn <? NDIRECT then
    let! din := slot din (Z.to_nat fbn) in
    ret (din, xint (di_addrs din !!! Z.to_nat fbn))
  else
    let! din := slot din NDIRECTn in
    let! x := indirect_block din (Z.to_nat (fbn - NDIRECT)) in
    ret (din, x).

(** [while(n > 0)]; every round takes at least one byte of [p]. *)
Fixpoint iappend_loop (fuel : nat) (din : dinode) (off : Z) (p : list Z) : M mkst (dinode * Z) :=
  if Z.of_nat (length p) <=? 0 then ret (din, off)
  else
    match fuel with
    | O => stall (Chan "iappend" 0)
    | S f =>
        let fbn := off / BSIZE in
        assert_ (fbn <? MAXFILE) ;;
        let! (din, x) := iappend_block din fbn in
        let n1 := Z.of_nat (length p) `min` u32 ((fbn + 1) * BSIZE - off) in
        let! buf := rsect x in
        wsect x (put_bytes buf (Z.to_nat (off - fbn * BSIZE)) (take (Z.to_nat n1) p)) ;;
        iappend_loop f din (u32 (off + n1)) (drop (Z.to_nat n1) p)
    end.

Definition with_dsize (v : Z) (din : dinode) : dinode :=
  Dinode (di_type din) (di_major din) (di_minor din) (di_nlink din) v (di_addrs din).
Definition iappend (inum : Z) (p : list Z) : M mkst unit :=
  let! din := rinode inum in
  let! (din, off) := iappend_loop (length p) din (xint (di_size din)) p in
  winode inum (with_dsize (xint off) din).

(** [bzero(&de, sizeof(de)); de.inum = xshort(inum); strncpy(de.name, name, DIRSIZ);] *)
Definition mk_dirent (inum : Z) (name : list Z) : list Z :=
  dirent_enc (Dirent (xshort inum) (take 14 name ++ replicate (14 - length name) 0)).

(** ['/'], ['_'], ['.'] and ["user/"]. *)
Definition slash : Z := 47.
Definition underscore : Z := 95.
Definition dot : Z := 46.
Definition user_dir : list Z := [117; 115; 101; 114; 47].

Section main.
Context (host : list Z -> option (list (list Z))).

(** The name of a file in the image. *)
Definition cut_user (path : list Z) : list Z := if decide (take 5 path = user_dir) then drop 5 path else path.
Definition cut_underscore (name : list Z) : list Z := if decide (head name = Some underscore) then tail name else name.

(** [while((cc = read(fd, buf, sizeof(buf))) > 0) iappend(inum, buf, cc);] *)
Fixpoint copy_file (inum : Z) (chunks : list (list Z)) : M mkst unit :=
  match chunks with
  | [] => ret tt
  | c :: t => iappend inum c ;; copy_file inum t
  end.

Definition add_file (rootino : Z) (path : list Z) : M mkst unit :=
  let shortname := cut_user path in
  assert_ (bool_decide (slash ∉ shortname)) ;;
  match host path with
  | None => die "open"
  | Some chunks =>
      let shortname := cut_underscore shortname in
      assert_ (Z.of_nat (length shortname) <=? DIRSIZ) ;;
      let! inum := ialloc T_FILE in
      iappend rootino (mk_dirent inum shortname) ;;
      copy_file inum chunks
  end.
Fixpoint add_files (rootino : Z) (paths : list (list Z)) : M mkst unit :=
  match paths with
  | [] => ret tt
  | p :: t => add_file rootino p ;; add_files rootino t
  end.

(** [create]: whether [open(argv[1], O_RDWR|O_CREAT|O_TRUNC, 0666)] succeeds. *)
Definition new_sb : superblock :=
  Superblock FSMAGIC (xint FSSIZE) (xint nblocks) (xint NINODES) (xint nlog) (xint 2) (xint (2 + nlog)) (xint (2 + nlog + ninodeblocks)).

(** [rinode(rootino, &din); off = xint(din.size); off = ((off/BSIZE) + 1) * BSIZE; ...] *)
Definition fix_root_size (rootino : Z) : M mkst unit :=
  let! din := rinode rootino in
  let off := xint (di_size din) in
  let off := u32 ((off / BSIZE + 1) * BSIZE) in
  winode rootino (with_dsize (xint off) din).

Definition main (create : bool) (argv : list (list Z)) : M mkst unit :=
  match argv with
  | _ :: _ :: files =>
      assert_ (BSIZE mod DISIZE =? 0) ;;
      assert_ (BSIZE mod DESIZE =? 0) ;;
      (if create then modify (set_img []) else die "open") ;;
      modify (set_mksb new_sb) ;;
      modify (set_freeblock nmeta) ;;
      let! _ := for_loop (A := unit) 0 FSSIZE 1 (fun i => wsect i zeroes ;; ret None) in
      wsect 1 (put_bytes zeroes 0 (sb_enc new_sb)) ;;
      let! rootino := ialloc T_DIR in
      assert_ (rootino =? ROOTINO) ;;
      iappend rootino (mk_dirent rootino [dot]) ;;
      iappend rootino (mk_dirent rootino [dot; dot]) ;;
      add_files rootino files ;;
      fix_root_size rootino ;;
      let! used := gets mk_freeblock in
      balloc used
  | _ => panic "Usage: mkfs fs.img files..."
  end.
End main.

(** ** The layout of the image *)
#[local] Existing Instance txn_view0.
#[local] Opaque Z.to_nat.

Lemma new_sb_fields : new_sb = Superblock FSMAGIC 2000 1954 200 30 2 32 45.
Proof. reflexivity. Qed.

Lemma xint_u32 v : xint v = u32 v.
Proof. unfold xint, u32, u8. cbn [le_dec]. rewrite !Z.shiftr_div_pow2 by lia. dlia. Qed.

Lemma xshort_u16 v : xshort v = u16 v.
Proof. unfold xshort, u16, u8. cbn [le_dec]. rewrite !Z.shiftr_div_pow2 by lia. dlia. Qed.

(** The bitmap with its first [n] bits set. *)
Definition marks (n : Z) : block := set_bits (Z.to_nat n) zeroes.

Lemma length_set_bits n d : length (set_bits n d) = length d.
Proof. induction n as [|n IH]; cbn [set_bits]; [done|]. unfold set_bit. by rewrite length_insert. Qed.

Lemma bit_used_zeroes j : 0 <= j < BPB -> bit_used zeroes j = false.
Proof.
  intros Hj. unfold bit_used, zeroes. rewrite lookup_total_replicate_2 by (unfold BPB, BSIZE, BSZ in *; dlia).
  by rewrite Z.land_0_l.
Qed.

Lemma marks_bit n j : 0 <= n <= BPB -> 0 <= j < BPB -> bit_used (marks n) j = (j <? n).
Proof.
  intros Hn Hj. unfold marks. assert (H : forall k : nat, Z.of_nat k <= BPB -> bit_used (set_bits k zeroes) j = (j <? Z.of_nat k)).
  { induction k as [|k IH]; intros Hk; cbn [set_bits]; [rewrite bit_used_zeroes by done; symmetry; apply Z.ltb_ge; lia|].
    rewrite bit_used_set, IH by (rewrite ?length_set_bits; done || lia).
    case_decide; [symmetry; apply Z.ltb_lt; lia|]. apply Bool.eq_true_iff_eq. rewrite !Z.ltb_lt. lia. }
  rewrite H by lia. f_equal. lia.
Qed.

Lemma new_bblock m : 0 <= m < FSSIZE -> BBLOCK m new_sb = 45.
Proof. intros Hm. unfold BBLOCK. rewrite Z.div_small; [done|]. unfold FSSIZE, BPB, BSIZE in *. lia. Qed.

Lemma new_iblock inum : 0 <= inum < 208 -> 32 <= IBLOCK inum new_sb < 45.
Proof. intros H. unfold IBLOCK. rewrite new_sb_fields. cbn [sb_inodestart]. change IPB with 16. dlia. Qed.

(** ** The image under construction

    [vw] is the image as the kernel will see it: the bitmap block, which
    mkfs writes last, is already there. *)
Record rep (s : mkst) (vw : Z -> block) : Prop := {
  rp_sb : mk_sb s = new_sb;
  rp_len : Z.of_nat (length (mk_img s)) = FSSIZE;
  rp_img : forall b, 0 <= b < FSSIZE -> b <> 45 -> mk_img s !! Z.to_nat b = Some (vw b);
  rp_out : forall b, ~ 0 <= b < FSSIZE -> vw b = zeroes;
  rp_bmap : vw 45 = marks (mk_freeblock s);
  rp_blk : forall b, length (vw b) = BSZ;
  rp_free : forall b, mk_freeblock s <= b < FSSIZE -> vw b = zeroes;
  rp_fb : nmeta <= mk_freeblock s <= FSSIZE;
}.

(** [s'] differs from [s] in the image and by [d] allocated blocks. *)
Definition grew (s s' : mkst) (d : Z) : Prop :=
  mk_freeinode s' = mk_freeinode s /\ mk_freeblock s' = mk_freeblock s + d.

(** The metadata in front of the data blocks, the bitmap apart. *)
Definition low (vw vw' : Z -> block) : Prop := forall a, a < nmeta -> a <> 45 -> vw' a = vw a.

Lemma rep_bit s vw m : rep s vw -> 0 <= m < FSSIZE -> bit_of new_sb vw m = (m <? mk_freeblock s).
Proof.
  intros R Hm. unfold bit_of. rewrite new_bblock by done. rewrite (rp_bmap _ _ R). pose proof (rp_fb _ _ R).
  change BPB with 8192. change FSSIZE with 2000 in *. change nmeta with 46 in *. rewrite Z.mod_small by lia. apply marks_bit; change BPB with 8192; lia.
Qed.

Lemma rep_owned s vw a : rep s vw -> owned new_sb vw a <-> 0 < a < mk_freeblock s /\ ~ in_log 2 30 a /\ a <> 45.
Proof.
  intros R. pose proof (rp_fb _ _ R) as Hfb. change FSSIZE with 2000 in *. unfold owned. change (sb_size new_sb) with 2000. split.
  - intros (Ha & Hb & [_ Hc] & Hm). rewrite (rep_bit s vw a R) in Hb by (change FSSIZE with 2000; lia). apply Z.ltb_lt in Hb.
    split_and!; [lia|lia|done|]. intros ->. by apply (Hm 0).
  - intros (Ha & Hc & Hne). split_and!; [lia|lia| |split; [lia|done]|].
    + rewrite (rep_bit s vw a R) by (change FSSIZE with 2000; lia). apply Z.ltb_lt. lia.
    + intros m Hm. by rewrite new_bblock.
Qed.

Lemma rep_disk s vw : rep s vw -> disk_ok new_sb vw none.
Proof.
  intros R. pose proof (rp_fb _ _ R) as Hfb. change FSSIZE with 2000 in *. change nmeta with 46 in *. split; [split| |].
  - done.
  - intros n Hn. rewrite new_bblock by done. split_and!; [done|done|split; [done|]|done]. unfold in_log. lia.
  - intros n Hn Hf. change (sb_size new_sb) with 2000 in *. rewrite (rep_bit s vw n R) in Hf by done. apply Z.ltb_ge in Hf.
    split_and!; [split; [lia|unfold in_log; lia]|done|]. intros m Hm. rewrite new_bblock by done. lia.
  - rewrite (rep_bit s vw 0 R) by done. apply Z.ltb_lt. lia.
  - done.
Qed.

Lemma sect_pos b : 0 <= b < FSSIZE -> u32 (b * BSIZE) / BSIZE = b.
Proof. intros Hb. unfold u32, FSSIZE, BSIZE in *. rewrite Z.mod_small by lia. dlia. Qed.

Lemma rsect_run s vw b : rep s vw -> 0 <= b < FSSIZE -> b <> 45 -> runs (rsect b) s (fun d s' => d = vw b /\ s' = s).
Proof. intros R Hb Hne. unfold rsect. mstep. rewrite sect_pos by done. rewrite (rp_img _ _ R) by done. by mstep. Qed.

Lemma write_img (l : list block) b d k : 0 <= b < Z.of_nat (length l) -> 0 <= k ->
  write_at l (Z.to_nat b) d !! Z.to_nat k = if decide (k = b) then Some d else l !! Z.to_nat k.
Proof.
  intros Hb Hk. unfold write_at. rewrite decide_True by lia. case_decide; [subst; apply list_lookup_insert_eq; lia|].
  apply list_lookup_insert_ne. lia.
Qed.

Lemma wsect_run s vw b d : rep s vw -> 0 <= b < mk_freeblock s -> b <> 45 -> length d = BSZ ->
  runs (wsect b d) s (fun _ s' => rep s' (upd_at vw b d) /\ grew s s' 0).
Proof.
  intros [R1 R2 R3 R4 R5 R6 R7 R8] Hb Hne HL. unfold wsect. mstep. rewrite sect_pos by lia. split; [|split; cbn; lia].
  split; cbn [mk_img mk_sb mk_freeblock set_img]; try done.
  - unfold write_at. rewrite decide_True by lia. by rewrite length_insert.
  - intros b' Hb' Hn'. rewrite write_img by lia. unfold upd_at. case_decide; [done|by apply R3].
  - intros b' Hb'. unfold upd_at. rewrite decide_False by lia. by apply R4.
  - unfold upd_at. by rewrite decide_False.
  - intros b'. unfold upd_at. by case_decide.
  - intros b' Hb'. unfold upd_at. rewrite decide_False by lia. by apply R7.
Qed.

Lemma next_block_run s vw (r := mk_freeblock s) : rep s vw -> r < FSSIZE ->
  runs next_block s (fun b s' => b = r /\ grew s s' 1 /\ exists vw', rep s' vw' /\ got new_sb vw r vw' /\ low vw vw').
Proof.
  intros R Hr. pose proof R as [R1 R2 R3 R4 R5 R6 R7 R8]. unfold next_block. mstep. mstep. mstep. fold r in R8 |- *.
  change FSSIZE with 2000 in *. change nmeta with 46 in *. rewrite u32_small by lia.
  set (s' := set_freeblock (r + 1) s). set (vw' := upd_at vw 45 (marks (r + 1))).
  assert (R' : rep s' vw').
  { unfold vw'. split; cbn [s' mk_img mk_sb mk_freeblock set_freeblock]; try done.
    - intros b Hb Hne. unfold upd_at. rewrite decide_False by done. by apply R3.
    - intros b Hb. unfold upd_at. change FSSIZE with 2000 in *. rewrite decide_False by lia. by apply R4.
    - intros b. unfold upd_at. case_decide; [|done]. unfold marks. by rewrite length_set_bits.
    - intros b Hb. unfold upd_at. change FSSIZE with 2000 in *. rewrite decide_False by lia. apply R7. fold r. lia.
    - change FSSIZE with 2000. change nmeta with 46. lia. }
  split_and!; [done|split; done|]. exists vw'. split_and!; [done| |].
  - split.
    + apply (rep_owned s' vw' r R'). cbn. unfold in_log. lia.
    + intros HO. apply (rep_owned s vw r R) in HO. unfold r in HO. lia.
    + unfold vw', upd_at. rewrite decide_False by lia. apply R7. fold r. lia.
    + intros a (_ & _ & Hne)%(rep_owned s vw a R). unfold vw', upd_at. by rewrite decide_False.
    + intros m Hm. change (sb_size new_sb) with FSSIZE in Hm. rewrite (rep_bit s vw m R), (rep_bit s' vw' m R') by done. rewrite !Z.ltb_lt. cbn. fold r. lia.
  - intros a _ Hne. unfold vw', upd_at. by rewrite decide_False.
Qed.

(** ** Files of the image *)

(** The in-memory inode the kernel will load for [inum]. *)
Definition mk_ino (inum : Z) (din : dinode) : inode := load_dinode din (with_ident 0 inum inode0).

(** The blocks of a file of [n] blocks: its first [n] and, past the twelfth,
    the indirect block. *)
Definition cost (n : nat) : Z := Z.of_nat n + (if decide (n <= 12)%nat then 0 else 1).
Definition nblk (size : Z) : nat := Z.to_nat ((size + BSIZE - 1) / BSIZE).

(** The file has exactly its first [n] blocks, all of them data blocks. *)
Record upto (vw : Z -> block) (i : inode) (n : nat) : Prop := {
  up_blk : forall b, (b < FILEBLKS)%nat -> baddr vw i b <> 0 <-> (b < n)%nat;
  up_ind : ind i <> 0 <-> (12 < n)%nat;
  up_hi : forall b, (b < FILEBLKS)%nat -> (b < n)%nat -> nmeta <= baddr vw i b;
  up_ind_hi : (12 < n)%nat -> nmeta <= ind i;
}.

(** A block one view of the image has and an earlier one had not. *)
Lemma new_owned s vw s' vw' a : rep s vw -> rep s' vw' -> owned new_sb vw' a -> ~ owned new_sb vw a -> mk_freeblock s <= a < mk_freeblock s'.
Proof. intros R R' HO HN. rewrite (rep_owned s' vw' a R') in HO. rewrite (rep_owned s vw a R) in HN. destruct HO as (? & ? & ?). destruct (decide (a < mk_freeblock s)); [|lia]. destruct HN. split_and!; done || lia. Qed.

(** A file that gets its block [n]. *)
Lemma upto_next s vw i s' vw' i' n : rep s vw -> rep s' vw' -> iwf new_sb vw' i' -> ext new_sb vw i vw' i' -> upto vw i n ->
  (n < FILEBLKS)%nat -> baddr vw' i' n = mk_freeblock s' - 1 -> mk_freeblock s' = mk_freeblock s + (cost (S n) - cost n) ->
  ind i' = (if decide (n = 12%nat) then mk_freeblock s else ind i) -> upto vw' i' (S n).
Proof.
  intros R R' W X [U1 U2 U3 U4] Hn Hb Hfb HI. pose proof (rp_fb _ _ R) as F. pose proof (rp_fb _ _ R') as F'. change nmeta with 46 in *.
  assert (HC : cost (S n) - cost n = if decide (n = 12%nat) then 2 else 1) by (unfold cost; repeat case_decide; lia). rewrite HC in Hfb.
  assert (HF : mk_freeblock s < mk_freeblock s' <= mk_freeblock s + 2) by (case_decide; lia).
  assert (HN : forall b, (b < FILEBLKS)%nat -> baddr vw' i' b <> 0 <-> (b < S n)%nat).
  { intros b Hbf. destruct (decide (b < n)%nat) as [Hlt|Hge].
    { split; [lia|]. intros _. pose proof (proj2 (U1 b Hbf) Hlt) as HB. by rewrite (ex_addr _ _ _ _ _ X). }
    destruct (decide (b = n)) as [->|Hne]; [rewrite Hb; lia|]. split; [|lia]. intros HB. exfalso. apply Hne.
    assert (H0 : baddr vw i b = 0) by (destruct (decide (baddr vw i b = 0)) as [|H]; [done|]; apply U1 in H; lia).
    pose proof (new_owned s vw s' vw' _ R R' (iw_own _ _ _ W b Hbf HB) (ex_new _ _ _ _ _ X b Hbf H0)) as HR.
    apply (iw_inj _ _ _ W); try done. pose proof (iw_sep _ _ _ W b Hbf HB) as HS. rewrite HI in HS. rewrite Hb. clear HI HC. case_decide; lia. }
  split; [done| | |].
  - rewrite HI. case_decide; [split; lia|]. rewrite U2. lia.
  - change nmeta with 46. intros b Hbf Hlt. destruct (decide (b = n)) as [->|Hne]; [rewrite Hb; lia|].
    assert (Hlt' : (b < n)%nat) by lia. rewrite (ex_addr _ _ _ _ _ X) by (done || by apply U1). by apply U3.
  - change nmeta with 46. intros H12. rewrite HI. clear HI Hfb HC. case_decide; [lia|]. apply U4. lia.
Qed.

(** What finding the block [fbn] of a file leaves. *)
Record block_post (s : mkst) vw inum (din : dinode) (fbn n : nat) (din' : dinode) (x : Z) s' vw' : Prop := {
  bk_rep : rep s' vw';
  bk_grew : grew s s' (cost (max n (S fbn)) - cost n);
  bk_din : din' = Dinode (di_type din) (di_major din) (di_minor din) (di_nlink din) (di_size din) (di_addrs din');
  bk_wf : iwf new_sb vw' (mk_ino inum din');
  bk_ext : ext new_sb vw (mk_ino inum din) vw' (mk_ino inum din');
  bk_upto : upto vw' (mk_ino inum din') (max n (S fbn));
  bk_addr : x = baddr vw' (mk_ino inum din') fbn;
  bk_low : low vw vw';
}.

Lemma low_trans vw vw1 vw2 : low vw vw1 -> low vw1 vw2 -> low vw vw2.
Proof. intros H1 H2 a Ha Hne. by rewrite H2, H1. Qed.

Lemma grew_trans s s1 s2 d e : grew s s1 d -> grew s1 s2 e -> grew s s2 (d + e).
Proof. intros [A1 A2] [B1 B2]. split; [congruence|lia]. Qed.

(** The block is there. *)
Lemma block_stay s vw inum din fbn n x : rep s vw -> iwf new_sb vw (mk_ino inum din) -> upto vw (mk_ino inum din) n -> (fbn < n)%nat ->
  x = baddr vw (mk_ino inum din) fbn -> block_post s vw inum din fbn n din x s vw.
Proof.
  intros R W U Hlt Hx. replace (max n (S fbn)) with n by lia. split; rewrite ?Nat.max_l by lia; try done.
  - split; lia.
  - by destruct din.
  - apply ext_refl.
Qed.

Lemma owned_u32 s vw a : rep s vw -> owned new_sb vw a -> xint a = a.
Proof. intros R HO. apply (rep_owned s vw a R) in HO. pose proof (rp_fb _ _ R). rewrite xint_u32. apply u32_small. change FSSIZE with 2000 in *. lia. Qed.

(** An empty slot filled, for the direct block or the indirect one. *)
Lemma slot_new s vw inum din k (r := mk_freeblock s) : rep s vw -> iwf new_sb vw (mk_ino inum din) -> (k < 13)%nat ->
  di_addrs din !!! k = 0 -> r < FSSIZE ->
  runs (slot din k) s (fun din' s' => exists vw', rep s' vw' /\ grew s s' 1 /\ din' = with_slot k r din /\
    iwf new_sb vw' (mk_ino inum din') /\ ext new_sb vw (mk_ino inum din) vw' (mk_ino inum din') /\ low vw vw' /\
    ((k < 12)%nat -> baddr vw' (mk_ino inum din') k = r) /\ (k = 12%nat -> ind (mk_ino inum din') = r /\ vw' r = zeroes)).
Proof.
  intros R W Hk H0 Hr. unfold slot. rewrite H0. change (xint 0 =? 0) with true. cbv iota.
  eapply runs_seq; [by apply (next_block_run s vw)|]. intros b s' (-> & HG & vw' & R' & G & HL). mstep. fold r in G |- *.
  assert (Ex : xint r = r) by (eapply owned_u32; [exact R'|apply G]). rewrite Ex.
  destruct (ext_slot new_sb vw (mk_ino inum din) r vw' k W G Hk H0) as (W' & X & H1 & H2).
  exists vw'. split_and!; try done. intros E. split; [by apply H2|apply G].
Qed.

Lemma slot_there s vw din k : rep s vw -> owned new_sb vw (di_addrs din !!! k) -> runs (slot din k) s (fun din' s' => din' = din /\ s' = s).
Proof.
  intros R HO. unfold slot. rewrite (owned_u32 s vw _ R HO). destruct HO as (? & _). rewrite (proj2 (Z.eqb_neq _ _)) by lia. by mstep.
Qed.

(** A direct block. *)
Lemma direct_run s vw inum din fbn n : rep s vw -> iwf new_sb vw (mk_ino inum din) -> upto vw (mk_ino inum din) n ->
  (fbn <= n)%nat -> (fbn < 12)%nat -> mk_freeblock s + (cost (max n (S fbn)) - cost n) <= FSSIZE ->
  runs (iappend_block din (Z.of_nat fbn)) s (fun '(din', x) s' => exists vw', block_post s vw inum din fbn n din' x s' vw').
Proof.
  intros R W U Hle H12 Hsp. unfold iappend_block. rewrite (proj2 (Z.ltb_lt _ NDIRECT)) by (unfold NDIRECT; lia). rewrite Nat2Z.id.
  assert (EB : forall v d, (d = mk_ino inum v) -> forall w, baddr w d fbn = di_addrs v !!! fbn) by (intros v d -> w; unfold baddr; by rewrite decide_True).
  destruct (decide (fbn < n)%nat) as [Hlt|Hge].
  - assert (HB : baddr vw (mk_ino inum din) fbn <> 0) by (apply U; [unfold FILEBLKS; lia|done]).
    pose proof (iw_own _ _ _ W fbn ltac:(unfold FILEBLKS; lia) HB) as HO. rewrite (EB din) in HO by done.
    eapply runs_seq; [by apply (slot_there s vw)|]. intros d s' [-> ->]. mstep. exists vw.
    apply block_stay; try done. rewrite (EB din) by done. by apply (owned_u32 s vw).
  - assert (n = fbn) as -> by lia. rewrite Nat.max_r in * by lia.
    assert (HC : cost (S fbn) - cost fbn = 1) by (unfold cost; repeat case_decide; lia). rewrite HC in Hsp.
    assert (H0 : di_addrs din !!! fbn = 0).
    { rewrite <- (EB din _ eq_refl vw). destruct (decide (baddr vw (mk_ino inum din) fbn = 0)) as [|HB]; [done|]. apply U in HB; [lia|unfold FILEBLKS; lia]. }
    eapply runs_seq; [apply (slot_new s vw inum din fbn R W); done || lia|]. intros d s' (vw' & R' & HG & -> & W' & X & HL & HA & _). mstep.
    specialize (HA H12). exists vw'. pose proof HG as [_ Hfb].
    assert (EX : xint (di_addrs (with_slot fbn (mk_freeblock s) din) !!! fbn) = mk_freeblock s).
    { rewrite <- (EB _ _ eq_refl vw'), HA. apply (owned_u32 s' vw' _ R'). rewrite <- HA. apply (iw_own _ _ _ W'); [unfold FILEBLKS; lia|].
      rewrite HA. pose proof (rp_fb _ _ R). change nmeta with 46 in *. lia. }
    split; rewrite ?Nat.max_r, ?HC by lia; try done; [|by rewrite EX, HA].
    eapply (upto_next s vw _ s' vw'); try done; [unfold FILEBLKS; lia|lia|lia|].
    rewrite decide_False by lia. unfold ind. cbn [mk_ino load_dinode i_addrs di_addrs with_slot]. by rewrite list_lookup_total_insert_ne by lia.
Qed.

(** The indirect block is there. *)
Lemma entry_new s vw inum din k (i := mk_ino inum din) (r := mk_freeblock s) :
  rep s vw -> iwf new_sb vw i -> nmeta <= ind i -> (k < 256)%nat -> entry (vw (ind i)) k = 0 -> r < FSSIZE ->
  runs (indirect_block din k) s (fun x s' => exists vw', rep s' vw' /\ grew s s' 1 /\
    iwf new_sb vw' i /\ ext new_sb vw i vw' i /\ low vw vw' /\ x = r /\ baddr vw' i (12 + k) = r).
Proof.
  intros R W Hi Hk H0 Hr. assert (Hnz : ind i <> 0) by (change nmeta with 46 in Hi; lia).
  pose proof (iw_ind _ _ _ W Hnz) as HO. unfold indirect_block. change (di_addrs din !!! NDIRECTn) with (ind i).
  rewrite (owned_u32 s vw _ R HO). pose proof (proj1 (rep_owned s vw _ R) HO) as (Ha & _ & Hne). pose proof (rp_fb _ _ R).
  eapply runs_seq; [apply (rsect_run s vw); done || lia|]. intros d s0 [-> ->]. rewrite H0. cbn [Z.eqb]. mstep.
  eapply runs_seq; [by apply (next_block_run s vw)|]. fold r. intros b s1 (-> & HG1 & vw1 & R1 & G & L1).
  pose proof HG1 as [_ HF1]. fold r in HF1. cbv zeta. assert (Er : xint r = r) by (apply (owned_u32 s1 vw1); [done|apply G]). rewrite Er.
  assert (EI : vw (ind i) = vw1 (ind i)) by (symmetry; by apply G). rewrite EI.
  eapply runs_seq; [apply (wsect_run s1 vw1); [done|lia|done|]|].
  { rewrite length_put_le; [apply (rp_blk _ _ R1)|rewrite (rp_blk _ _ R1); unfold BSZ; lia]. }
  intros [] s2 (R2 & HG2). mstep. mstep.
  destruct (ext_entry new_sb vw i r vw1 k ltac:(done) W G Hnz Hk (rp_blk _ _ R _) H0) as (W2 & X2 & HA). set (vw2 := upd_at vw1 _ _) in *.
  assert (EE : entry (put_le (vw1 (ind i)) (4 * k) 4 r) k = r).
  { rewrite entry_put, decide_True; [done|done|apply (rp_blk _ _ R1)|done|done|]. change FSSIZE with 2000 in *. change nmeta with 46 in *. fold r in H. lia. }
  exists vw2. split_and!; try done; [by eapply grew_trans in HG2; [|exact HG1]| |by rewrite EE].
  eapply low_trans; [exact L1|]. intros a Hlo _. unfold vw2, upd_at. rewrite decide_False by lia. done.
Qed.

Lemma entry_there s vw inum din k (i := mk_ino inum din) : rep s vw -> iwf new_sb vw i -> ind i <> 0 -> (k < 256)%nat -> entry (vw (ind i)) k <> 0 ->
  runs (indirect_block din k) s (fun x s' => s' = s /\ x = baddr vw i (12 + k)).
Proof.
  intros R W Hnz Hk H0. pose proof (iw_ind _ _ _ W Hnz) as HO. unfold indirect_block. change (di_addrs din !!! NDIRECTn) with (ind i).
  rewrite (owned_u32 s vw _ R HO). pose proof (proj1 (rep_owned s vw _ R) HO) as (Ha & _ & Hne). pose proof (rp_fb _ _ R).
  eapply runs_seq; [apply (rsect_run s vw); done || lia|]. intros d s0 [-> ->]. rewrite (proj2 (Z.eqb_neq _ _)) by done. mstep. mstep.
  split; [done|]. rewrite <- (baddr_entry vw i k Hnz). apply (owned_u32 s vw); [done|]. apply W; [unfold FILEBLKS; lia|]. by rewrite baddr_entry.
Qed.

Lemma indirect_run s vw inum din k n (i := mk_ino inum din) : rep s vw -> iwf new_sb vw i -> upto vw i n ->
  (12 + k <= n)%nat -> (k < 256)%nat -> mk_freeblock s + (cost (max n (S (12 + k))) - cost n) <= FSSIZE ->
  runs (iappend_block din (Z.of_nat (12 + k))) s (fun '(din', x) s' => exists vw', block_post s vw inum din (12 + k) n din' x s' vw').
Proof.
  intros R W U Hle Hk Hsp. unfold iappend_block. rewrite (proj2 (Z.ltb_ge _ NDIRECT)) by (unfold NDIRECT; lia).
  replace (Z.to_nat (Z.of_nat (12 + k) - NDIRECT)) with k by (unfold NDIRECT; lia).
  destruct (decide (n = 12%nat)) as [->|Hn].
  - assert (k = 0%nat) as -> by lia. change (cost (max 12 (S (12 + 0))) - cost 12) with 2 in Hsp.
    assert (H0 : di_addrs din !!! 12%nat = 0) by (destruct (decide (ind i = 0)) as [|H]; [done|]; apply (up_ind _ _ _ U) in H; lia).
    eapply runs_seq; [apply (slot_new s vw inum din 12 R W); done || lia|]. intros d s1 (vw1 & R1 & HG1 & -> & W1 & X1 & L1 & _ & HI).
    destruct (HI eq_refl) as [EI EZ]. set (d1 := with_slot 12 (mk_freeblock s) din) in *. pose proof HG1 as [_ HF1]. pose proof (rp_fb _ _ R).
    eapply runs_seq; [apply (entry_new s1 vw1 inum d1 0 R1 W1); [rewrite EI; lia|lia|rewrite EI, EZ; apply entry_zeros|lia]|].
    intros x s2 (vw2 & R2 & HG2 & W2 & X2 & L2 & -> & HA). mstep. exists vw2. pose proof (grew_trans _ _ _ _ _ HG1 HG2) as HG. pose proof HG as [_ HF].
    pose proof (ext_trans _ _ _ _ _ _ _ X1 X2) as X. pose proof (low_trans _ _ _ L1 L2).
    split; try done. change (max 12 (S (12 + 0))) with (S 12). eapply (upto_next s vw i s2 vw2 _ 12); try done; [unfold FILEBLKS; lia|]. change (baddr vw2 (mk_ino inum d1) 12 = mk_freeblock s1) in HA. rewrite HA. lia.
  - assert (Hnz : ind i <> 0) by (apply U; lia). pose proof (iw_ind _ _ _ W Hnz) as HO.
    eapply runs_seq; [by apply (slot_there s vw din 12)|]. intros d s1 [-> ->].
    assert (EB : baddr vw i (12 + k) = entry (vw (ind i)) k) by (by apply baddr_entry).
    destruct (decide (12 + k < n)%nat) as [Hlt|Hge].
    + eapply runs_seq; [apply (entry_there s vw inum din k R W Hnz Hk)|].
      { fold i. rewrite <- EB. apply U; [unfold FILEBLKS; lia|done]. }
      intros x s1 [-> ->]. mstep. exists vw. by apply block_stay.
    + assert (n = 12 + k)%nat as -> by lia. rewrite Nat.max_r in Hsp by lia.
      assert (HC : cost (S (12 + k)) - cost (12 + k) = 1) by (unfold cost; repeat case_decide; lia). rewrite HC in Hsp.
      assert (H0 : entry (vw (ind i)) k = 0).
      { rewrite <- EB. destruct (decide (baddr vw i (12 + k) = 0)) as [|HB]; [done|]. apply U in HB; [lia|unfold FILEBLKS; lia]. }
      eapply runs_seq; [apply (entry_new s vw inum din k R W); try done; [apply U; lia|lia]|].
      intros x s2 (vw2 & R2 & HG & W2 & X & L2 & -> & HA). mstep. exists vw2. pose proof HG as [_ HF].
      split; rewrite ?Nat.max_r, ?HC by lia; try done; [by destruct din|].
      eapply (upto_next s vw i s2 vw2); try done; [unfold FILEBLKS; lia|etransitivity; [exact HA|lia]|lia|]. by rewrite decide_False by lia.
Qed.

Lemma iappend_block_run s vw inum din fbn n : rep s vw -> iwf new_sb vw (mk_ino inum din) -> upto vw (mk_ino inum din) n ->
  (fbn <= n)%nat -> (fbn < FILEBLKS)%nat -> mk_freeblock s + (cost (max n (S fbn)) - cost n) <= FSSIZE ->
  runs (iappend_block din (Z.of_nat fbn)) s (fun '(din', x) s' => exists vw', block_post s vw inum din fbn n din' x s' vw').
Proof.
  intros R W U Hle Hb Hsp. destruct (decide (fbn < 12)%nat); [by apply direct_run|]. unfold FILEBLKS in Hb.
  replace fbn with (12 + (fbn - 12))%nat in * by lia. apply indirect_run; done || lia.
Qed.

(** ** Appending *)
Lemma nblk_ge off : 0 <= off -> (Z.to_nat (off / BSIZE) <= nblk off)%nat.
Proof. intros H. unfold nblk, BSIZE. dlia. Qed.

Lemma nblk_step off m : 0 <= off -> 0 < m -> off + m <= (off / BSIZE + 1) * BSIZE -> max (nblk off) (S (Z.to_nat (off / BSIZE))) = nblk (off + m).
Proof. intros H0 Hm Hle. unfold nblk, BSIZE in *. dlia. Qed.

Lemma nblk_mono a b : a <= b -> (nblk a <= nblk b)%nat.
Proof. intros H. unfold nblk, BSIZE. dlia. Qed.

Lemma cost_mono a b : (a <= b)%nat -> cost a <= cost b.
Proof. intros H. unfold cost. repeat case_decide; lia. Qed.

(** A change of a data block's contents keeps the file's blocks. *)
Lemma upto_frame vw vw' i n : upto vw i n -> (ind i <> 0 -> vw' (ind i) = vw (ind i)) -> upto vw' i n.
Proof. intros [U1 U2 U3 U4] HI. split; try done; intros b; rewrite (baddr_frame vw vw' i b HI); auto. Qed.

(** What the loop of [iappend] leaves: the bytes of [c] from [off] on are in the file. *)
Record app_post s vw inum din (off : Z) (c : list Z) din' s' vw' (i := mk_ino inum din) (i' := mk_ino inum din') : Prop := {
  ap_rep : rep s' vw';
  ap_grew : grew s s' (cost (nblk (Z.of_nat (length c))) - cost (nblk off));
  ap_din : din' = Dinode (di_type din) (di_major din) (di_minor din) (di_nlink din) (di_size din) (di_addrs din');
  ap_wf : iwf new_sb vw' i';
  ap_upto : upto vw' i' (nblk (Z.of_nat (length c)));
  ap_wrote : wrote new_sb vw i off (Z.of_nat (length c)) (fun q => c !!! Z.to_nat q) vw' i';
  ap_low : low vw vw';
}.

(** One block of bytes put into the file. *)
Lemma fill_block s vw inum din off c m (i := mk_ino inum din) (r := baddr vw i (Z.to_nat (off / BSIZE)))
    (d := put_bytes (vw r) (Z.to_nat (off - off / BSIZE * BSIZE)) (take (Z.to_nat m) (drop (Z.to_nat off) c))) :
  rep s vw -> iwf new_sb vw i -> upto vw i (nblk (off + m)) -> 0 <= off -> 0 < m -> off + m <= (off / BSIZE + 1) * BSIZE ->
  off + m <= Z.of_nat (length c) <= MAXFILE * BSIZE ->
  runs (wsect r d) s (fun _ s' => exists vw', rep s' vw' /\ grew s s' 0 /\ iwf new_sb vw' i /\ upto vw' i (nblk (off + m)) /\
    wrote new_sb vw i off (off + m) (fun q => c !!! Z.to_nat q) vw' i /\ low vw vw').
Proof.
  intros R W U H0 Hm Hle Hc. assert (Hp : 0 <= off < MAXFILE * BSIZE) by lia. pose proof (bn_bound off Hp) as Hb.
  set (fbn := Z.to_nat (off / BSIZE)) in *. assert (Hlt : (fbn < nblk (off + m))%nat) by (rewrite <- nblk_step by done; lia).
  assert (Hr : r <> 0) by (by apply U). pose proof (iw_own _ _ _ W fbn Hb Hr) as HO. fold r in HO.
  pose proof (iw_sep _ _ _ W fbn Hb Hr) as HS. fold r in HS. pose proof (up_hi _ _ _ U fbn Hb Hlt) as Hhi. fold r in Hhi.
  pose proof (proj1 (rep_owned s vw r R) HO) as (Hrr & _ & Hne). pose proof (rp_blk _ _ R r) as HL.
  assert (Eo : off - off / BSIZE * BSIZE = off mod BSIZE) by (unfold BSIZE; dlia). unfold d. rewrite Eo.
  assert (Ht : length (take (Z.to_nat m) (drop (Z.to_nat off) c)) = Z.to_nat m) by (rewrite length_take, length_drop; lia).
  eapply runs_mono; [apply (wsect_run s vw); try done; [lia|]|].
  { rewrite length_put_bytes; [done|]. rewrite HL, Ht. unfold BSZ, BSIZE in *. dlia. }
  intros _ s' [R' HG]. set (vw' := upd_at vw r _) in *. exists vw'.
  assert (HI : ind i <> 0 -> vw' (ind i) = vw (ind i)) by (intros _; unfold vw', upd_at; by rewrite decide_False).
  split_and!; [done|done| |by eapply upto_frame| |].
  - eapply iwf_frame; [done| |done]. intros k Hk Hbit. unfold vw'. rewrite bits_upd; [done|apply HO|done].
  - apply (wrote_block new_sb vw i off m _ _ fbn); try done; [lia|unfold BSIZE in *; dlia|].
    intros j Hj. rewrite lookup_total_take, lookup_total_drop by lia. rewrite decide_True by lia. by rewrite Z2Nat.inj_add by lia.
  - intros a Ha _. unfold vw', upd_at. by rewrite decide_False by lia.
Qed.

Lemma iappend_loop_run inum c : Z.of_nat (length c) <= MAXFILE * BSIZE -> forall fuel s vw din off, rep s vw -> iwf new_sb vw (mk_ino inum din) ->
  upto vw (mk_ino inum din) (nblk off) -> 0 <= off <= Z.of_nat (length c) -> Z.of_nat (length c) - off <= Z.of_nat fuel ->
  mk_freeblock s + (cost (nblk (Z.of_nat (length c))) - cost (nblk off)) <= FSSIZE ->
  runs (iappend_loop fuel din off (drop (Z.to_nat off) c)) s (fun '(din', off') s' =>
    off' = Z.of_nat (length c) /\ exists vw', app_post s vw inum din off c din' s' vw').
Proof.
  intros Hc. set (L := Z.of_nat (length c)). induction fuel as [|fuel IH]; intros s vw din off R W U Hoff Hfu Hsp.
  all: assert (HLp : Z.of_nat (length (drop (Z.to_nat off) c)) = L - off) by (rewrite length_drop; unfold L in *; lia).
  all: cbn [iappend_loop]; rewrite HLp.
  all: assert (Hdone : off = L -> runs (ret (din, off)) s (fun '(din', off') s' => off' = L /\ exists vw', app_post s vw inum din off c din' s' vw')) by
    (intros ->; mstep; split; [done|]; exists vw; split; try done; [split; [done|]; fold L; lia|by destruct din|apply wrote_ext, ext_refl]).
  - rewrite (proj2 (Z.leb_le _ _)) by lia. apply Hdone. lia.
  - destruct (Z.leb_spec (L - off) 0) as [Hz|Hz]; [apply Hdone; lia|]. clear Hdone.
    assert (Hq : 0 <= off / BSIZE < MAXFILE) by (unfold MAXFILE, NDIRECT, NINDIRECT, BSIZE in *; dlia).
    rewrite (proj2 (Z.ltb_lt _ _)) by lia. unfold assert_. mstep. set (fbn := Z.to_nat (off / BSIZE)).
    assert (Ef : off / BSIZE = Z.of_nat fbn) by (unfold fbn; lia). pose proof (nblk_ge off ltac:(lia)) as Hge. fold fbn in Hge.
    assert (Hm : u32 ((off / BSIZE + 1) * BSIZE - off) = (off / BSIZE + 1) * BSIZE - off) by (apply u32_small; unfold BSIZE; dlia). rewrite Hm.
    set (m := (L - off) `min` _). assert (Hm' : 0 < m /\ off + m <= (off / BSIZE + 1) * BSIZE /\ off + m <= L) by (unfold m, BSIZE in *; dlia).
    destruct Hm' as (M1 & M2 & M3). pose proof (nblk_step off m ltac:(lia) M1 M2) as EN. fold fbn in EN.
    pose proof (cost_mono _ _ (nblk_mono _ _ M3)) as HM. assert (Hoff32 : L < 2 ^ 32) by (change (MAXFILE * BSIZE) with 274432 in Hc; lia).
    pose proof (bn_bound off ltac:(lia)) as Hbn. fold fbn in Hbn.
    rewrite Ef at 1. eapply runs_seq; [apply (iappend_block_run s vw inum din fbn (nblk off)); try done; rewrite EN; lia|].
    intros [din1 x] s1 (vw1 & [R1 G1 D1 W1 X1 U1 -> L1]). rewrite EN in G1, U1.
    assert (Hx : baddr vw1 (mk_ino inum din1) fbn <> 0) by (apply U1; [done|rewrite <- EN; lia]).
    assert (HO : owned new_sb vw1 (baddr vw1 (mk_ino inum din1) fbn)) by (by apply (iw_own _ _ _ W1)).
    pose proof (proj1 (rep_owned s1 vw1 _ R1) HO) as (Hxr & _ & Hx45). pose proof (rp_fb _ _ R1).
    eapply runs_seq; [apply (rsect_run s1 vw1); done || lia|]. intros buf s1' [-> ->].
    eapply runs_seq; [apply (fill_block s1 vw1 inum din1 off c m); try done; lia|]. intros [] s2 (vw2 & R2 & G2 & W2 & U2 & Wr2 & L2).
    rewrite u32_small by lia. rewrite drop_drop. replace (Z.to_nat off + Z.to_nat m)%nat with (Z.to_nat (off + m)) by lia.
    pose proof (grew_trans _ _ _ _ _ G1 G2) as G12. pose proof G12 as [_ HF].
    eapply runs_mono; [apply (IH s2 vw2 din1 (off + m)); try done; lia|]. intros [din3 off3] s3 (-> & vw3 & [R3 G3 D3 W3 U3 Wr3 L3]). split; [done|]. exists vw3.
    split; try done.
    + destruct (grew_trans _ _ _ _ _ G12 G3) as [A B]. fold L in B |- *. split; [done|]. lia.
    + rewrite D3, D1. done.
    + eapply (wrote_trans _ _ _ _ (off + m)); [lia| |exact Wr3|done|lia]. eapply (wrote_trans _ _ _ _ off); [lia|by apply wrote_ext|exact Wr2|lia|lia].
    + eauto using low_trans.
Qed.

(** ** The files on the image *)
Definition fino (vw : Z -> block) (inum : Z) : inode := mk_ino inum (disk_inode new_sb vw inum).

(** A block of the file [inum]. *)
Definition blk (vw : Z -> block) (inum a : Z) : Prop :=
  a <> 0 /\ (a = ind (fino vw inum) \/ exists b, (b < FILEBLKS)%nat /\ a = baddr vw (fino vw inum) b).

(** The inode [inum] is a file of type [typ] with the contents [c]. *)
Record file_at (vw : Z -> block) (inum typ : Z) (c : list Z) : Prop := {
  fa_type : 0 < typ < 2 ^ 15;
  fa_inode : disk_inode new_sb vw inum = Dinode typ 0 0 1 (Z.of_nat (length c)) (di_addrs (disk_inode new_sb vw inum));
  fa_len : Z.of_nat (length c) <= MAXFILE * BSIZE;
  fa_wf : iwf new_sb vw (fino vw inum);
  fa_upto : upto vw (fino vw inum) (nblk (Z.of_nat (length c)));
  fa_byte : forall p, 0 <= p < MAXFILE * BSIZE -> fbyte0 vw (fino vw inum) p = default 0 (c !! Z.to_nat p);
}.

(** [vw'] is [vw] after a change of the file [inum] alone, made at [s]. *)
Record only_file (s : mkst) vw (inum : Z) vw' : Prop := {
  of_inode : forall j, 0 <= j < 208 -> j <> inum -> disk_inode new_sb vw' j = disk_inode new_sb vw j;
  of_frame : forall a, a < mk_freeblock s -> a <> 45 -> ~ 32 <= a < 45 -> ~ blk vw inum a -> vw' a = vw a;
  of_new : forall a, blk vw' inum a -> blk vw inum a \/ mk_freeblock s <= a;
  of_bits : bits_ge new_sb vw vw';
}.

Lemma blk_range s vw inum typ c a : rep s vw -> file_at vw inum typ c -> blk vw inum a -> nmeta <= a < mk_freeblock s.
Proof.
  intros R F [H0 HB]. pose proof (fa_wf _ _ _ _ F) as W. pose proof (fa_upto _ _ _ _ F) as U.
  assert (HO : owned new_sb vw a) by (destruct HB as [-> |(b & Hb & ->)]; by apply W). apply (rep_owned s vw a R) in HO.
  split; [|lia]. destruct HB as [-> |(b & Hb & ->)]; [apply U; by apply (up_ind _ _ _ U)|]. apply (up_hi _ _ _ U b Hb). by apply U.
Qed.

(** The other files stay. *)
Lemma file_keep s vw inum vw' j typ c : rep s vw -> only_file s vw inum vw' -> 0 <= j < 208 -> j <> inum -> file_at vw j typ c ->
  (forall a, blk vw j a -> ~ blk vw inum a) -> file_at vw' j typ c /\ forall a, blk vw' j a <-> blk vw j a.
Proof.
  intros R O Hj Hne F HD. pose proof (of_inode _ _ _ _ O j Hj Hne) as EI. assert (EF : fino vw' j = fino vw j) by (unfold fino; by rewrite EI).
  assert (HV : forall a, blk vw j a -> vw' a = vw a).
  { intros a Ha. pose proof (blk_range s vw j typ c a R F Ha). change nmeta with 46 in *. apply (of_frame _ _ _ _ O); [lia|lia|lia|by apply HD]. }
  assert (HI : ind (fino vw j) <> 0 -> vw' (ind (fino vw j)) = vw (ind (fino vw j))) by (intros H; apply HV; split; [done|by left]).
  pose proof (fun b => baddr_frame vw vw' (fino vw j) b HI) as EB. destruct F as [F1 F2 F3 F4 F5 F6]. split.
  - split; rewrite ?EF, ?EI; try done; [eapply iwf_frame; [done|apply O|done]|by eapply upto_frame|].
    intros p Hp. rewrite <- F6 by done. unfold fbyte0, fbyte. rewrite EB. case_decide as D; [done|]. rewrite HV; [done|].
    split; [done|]. right. exists (Z.to_nat (p / BSIZE)). split; [by apply bn_bound|done].
  - intros a. unfold blk. rewrite EF. split; intros [H0 [HA|(b & Hb & HA)]]; (split; [done|]); (left + right); try done; exists b; [rewrite <- EB|rewrite EB]; done.
Qed.

Lemma rinode_run s vw inum : rep s vw -> 0 <= inum < 208 -> runs (rinode inum) s (fun d s' => d = disk_inode new_sb vw inum /\ s' = s).
Proof.
  intros R Hi. pose proof (new_iblock inum Hi) as HB. unfold rinode. mstep. rewrite (rp_sb _ _ R). rewrite u32_small by lia.
  eapply runs_seq; [apply (rsect_run s vw); [done|change FSSIZE with 2000; lia|lia]|]. intros d s' [-> ->]. by mstep.
Qed.

Definition put_inode (vw : Z -> block) (inum : Z) (din : dinode) : Z -> block :=
  upd_at vw (IBLOCK inum new_sb) (put_bytes (vw (IBLOCK inum new_sb)) (di_off inum) (dinode_enc din)).

Lemma winode_run s vw inum din : rep s vw -> 0 <= inum < 208 -> length (di_addrs din) = NADDRS ->
  runs (winode inum din) s (fun _ s' => rep s' (put_inode vw inum din) /\ grew s s' 0).
Proof.
  intros R Hi HL. pose proof (new_iblock inum Hi) as HB. unfold winode. mstep. rewrite (rp_sb _ _ R). rewrite u32_small by lia.
  pose proof (rp_fb _ _ R) as HF. change FSSIZE with 2000 in *. change nmeta with 46 in *.
  eapply runs_seq; [apply (rsect_run s vw); [done|change FSSIZE with 2000; lia|lia]|]. intros d s' [-> ->].
  apply (wsect_run s vw); [done|lia|lia|]. rewrite length_put_bytes; [apply (rp_blk _ _ R)|]. rewrite length_dinode_enc by done. rewrite (rp_blk _ _ R). apply di_off_bound. lia.
Qed.

(** What a file's inode written back leaves. *)
Lemma put_inode_facts s vw inum din (i := mk_ino inum din) : rep s vw -> 0 <= inum < 208 -> dinode_ok din -> iwf new_sb vw i ->
  fino (put_inode vw inum din) inum = i /\ iwf new_sb (put_inode vw inum din) i /\
  (forall b, baddr (put_inode vw inum din) i b = baddr vw i b) /\ (ind i <> 0 -> put_inode vw inum din (ind i) = vw (ind i)) /\
  (forall p, 0 <= p < MAXFILE * BSIZE -> fbyte0 (put_inode vw inum din) i p = fbyte0 vw i p) /\
  (forall j, 0 <= j -> j <> inum -> disk_inode new_sb (put_inode vw inum din) j = disk_inode new_sb vw j) /\
  bits_ge new_sb vw (put_inode vw inum din).
Proof.
  intros R Hi HD W. pose proof (iw_blk_sep _ _ _ W) as [S1 S2]. change (i_inum i) with inum in S1, S2.
  assert (HI : ind i <> 0 -> put_inode vw inum din (ind i) = vw (ind i)) by (intros _; unfold put_inode, upd_at; by rewrite decide_False).
  assert (HB : bits_ge new_sb vw (put_inode vw inum din)).
  { intros m Hm Hb. unfold put_inode. rewrite bits_upd; [done| |done]. exact (proj2 (proj2 (proj2 (iw_blk _ _ _ W)))). }
  assert (HP : forall j, 0 <= j -> disk_inode new_sb (put_inode vw inum din) j = if decide (j = inum) then din else disk_inode new_sb vw j).
  { intros j Hj. apply disk_inode_put; [lia|done|done|apply (rp_blk _ _ R)]. }
  split_and!; [|by eapply iwf_frame|by intros b; apply baddr_frame|done|intros p Hp; by apply (fbyte0_iblk new_sb vw i)| |done].
  - unfold fino. rewrite HP, decide_True by (done || lia). done.
  - intros j Hj Hne. by rewrite HP, decide_False.
Qed.

Lemma mk_dinode_ok vw inum typ n din : iwf new_sb vw (mk_ino inum din) -> 0 < typ < 2 ^ 15 -> 0 <= n < 2 ^ 32 ->
  dinode_ok (Dinode typ 0 0 1 n (di_addrs din)).
Proof.
  intros W Ht Hn. split; cbn [di_type di_major di_minor di_nlink di_size di_addrs]; try lia; [apply W|].
  apply Forall_forall. intros a Ha. by eapply (addrs_range new_sb vw (mk_ino inum din)).
Qed.

Lemma upto_addrs vw i j n : upto vw i n -> i_addrs j = i_addrs i -> upto vw j n.
Proof.
  intros [U1 U2 U3 U4] E. assert (EI : ind j = ind i) by (unfold ind; by rewrite E).
  split; rewrite ?EI; try done; intros b; rewrite (baddr_addrs vw i j) by done; auto.
Qed.

(** The file grown on the image, then its inode written back. *)
Lemma append_frame s vw s1 vw1 inum din1 sz lo hi dat (vw2 := put_inode vw1 inum (with_dsize sz din1)) :
  rep s vw -> rep s1 vw1 -> 1 <= inum < 208 -> iwf new_sb vw1 (mk_ino inum din1) -> dinode_ok (with_dsize sz din1) ->
  wrote new_sb vw (fino vw inum) lo hi dat vw1 (mk_ino inum din1) -> low vw vw1 -> only_file s vw inum vw2.
Proof.
  intros R R1 Hi W1 DO Wr L1. set (i := fino vw inum) in *. set (i1 := mk_ino inum din1) in *. set (i2 := mk_ino inum (with_dsize sz din1)).
  assert (W2 : iwf new_sb vw1 i2) by (by apply (iwf_addrs new_sb vw1 i1)).
  destruct (put_inode_facts s1 vw1 inum _ R1 ltac:(lia) DO W2) as (P1 & _ & P3 & _ & _ & P6 & P7). fold vw2 i2 in P1, P3, P6, P7.
  split; [| | |intros m Hm Hb; by apply P7, (wr_bits _ _ _ _ _ _ _ _ Wr)].
  - intros j Hj Hne. rewrite P6 by (done || lia). unfold disk_inode. pose proof (new_iblock j Hj). f_equal. apply L1; [|lia]. change nmeta with 46. lia.
  - intros a Ha H45 Hib HNb. pose proof (new_iblock inum ltac:(lia)). unfold vw2, put_inode, upd_at. rewrite decide_False by lia.
    destruct (decide (a < nmeta)) as [Hlo|Hhi]; [by apply L1|]. change nmeta with 46 in Hhi. apply (wr_frame _ _ _ _ _ _ _ _ Wr).
    + apply (rep_owned s vw a R). unfold in_log. lia.
    + intros ->. apply HNb. split; [lia|by left].
    + intros b Hb ->. apply HNb. split; [lia|]. right. by exists b.
  - intros a [H0 HA]. rewrite P1 in HA. destruct (decide (mk_freeblock s <= a)) as [|Hlt]; [by right|left]. split; [done|].
    assert (HN : ~ owned new_sb vw a -> owned new_sb vw1 a -> False) by (intros N1 N2; pose proof (new_owned s vw s1 vw1 a R R1 N2 N1); lia).
    destruct HA as [HA|(b & Hb & HA)].
    + left. change (ind i2) with (ind i1) in HA. destruct (wr_ind _ _ _ _ _ _ _ _ Wr) as [E|E]; [by rewrite HA|]. destruct HN; [by rewrite HA|]. rewrite HA in H0 |- *. by apply W1.
    + right. exists b. split; [done|]. rewrite P3 in HA. change (a = baddr vw1 i1 b) in HA. change (fino vw inum) with i.
    destruct (decide (baddr vw i b = 0)) as [E|E]; [|by rewrite HA, (wr_addr _ _ _ _ _ _ _ _ Wr)].
    destruct HN; [rewrite HA; by apply (wr_new _ _ _ _ _ _ _ _ Wr)|]. rewrite HA in H0 |- *. by apply W1.
Qed.

(** [iappend] appends to the file and changes nothing else. *)
Lemma iappend_run s vw inum typ c p (n := Z.of_nat (length (c ++ p))) : rep s vw -> 1 <= inum < 208 -> file_at vw inum typ c ->
  n <= MAXFILE * BSIZE -> mk_freeblock s + (cost (nblk n) - cost (nblk (Z.of_nat (length c)))) <= FSSIZE ->
  runs (iappend inum p) s (fun _ s' => exists vw', rep s' vw' /\ grew s s' (cost (nblk n) - cost (nblk (Z.of_nat (length c)))) /\
    file_at vw' inum typ (c ++ p) /\ only_file s vw inum vw').
Proof.
  intros R Hi F Hn Hsp. unfold iappend. eapply runs_seq; [apply (rinode_run s vw); done || lia|]. intros din s0 [-> ->].
  set (din := disk_inode new_sb vw inum). set (i := mk_ino inum din). pose proof F as [Ht Fi Fl W U FB]. change (fino vw inum) with i in *. fold din in Fi.
  assert (Hsz : di_size din = Z.of_nat (length c)) by (by rewrite Fi). assert (Hn32 : n < 2 ^ 32) by (change (MAXFILE * BSIZE) with 274432 in Hn; lia).
  assert (HLn : n = Z.of_nat (length c) + Z.of_nat (length p)) by (unfold n; rewrite length_app; lia).
  rewrite Hsz, xint_u32, u32_small by lia. assert (Ep : p = drop (Z.to_nat (Z.of_nat (length c))) (c ++ p)) by (by rewrite Nat2Z.id, drop_app_length).
  rewrite Ep at 2. eapply runs_seq; [apply (iappend_loop_run inum (c ++ p) Hn (length p) s vw din (Z.of_nat (length c)) R W U); fold n; lia|].
  intros [din1 off1] s1 (-> & vw1 & [R1 G1 D1 W1 U1 Wr L1]). fold n in G1, U1, Wr |- *. set (i1 := mk_ino inum din1) in *. fold i in Wr.
  rewrite xint_u32, u32_small by lia. set (din2 := with_dsize n din1). set (i2 := mk_ino inum din2).
  assert (E2 : din2 = Dinode typ 0 0 1 n (di_addrs din1)) by (unfold din2, with_dsize; rewrite D1, Fi; done).
  assert (W2 : iwf new_sb vw1 i2) by (by apply (iwf_addrs new_sb vw1 i1)).
  assert (DO : dinode_ok din2) by (rewrite E2; apply (mk_dinode_ok vw1 inum); [done|done|lia]).
  eapply runs_mono; [apply (winode_run s1 vw1); [done|lia|apply DO]|]. intros [] s2 [R2 G2]. set (vw2 := put_inode vw1 inum din2) in *.
  destruct (put_inode_facts s1 vw1 inum din2 R1 ltac:(lia) DO W2) as (P1 & P2 & P3 & P4 & P5 & P6 & P7). fold vw2 i2 in P1, P2, P3, P4, P5, P6, P7.
  exists vw2. split_and!; [done| | |].
  - destruct (grew_trans _ _ _ _ _ G1 G2) as [A B]. split; [done|lia].
  - split; rewrite ?P1; fold n; try done.
    + assert (EV : disk_inode new_sb vw2 inum = din2); [|by rewrite EV, E2].
      unfold vw2, put_inode. rewrite disk_inode_put, decide_True; [done|done|lia|lia|done|apply (rp_blk _ _ R1)].
    + apply (upto_frame vw1); [by apply (upto_addrs vw1 i1)|exact P4].
    + intros q Hq. rewrite P5 by done. rewrite (fbyte0_addrs vw1 i1 i2) by done. rewrite (wr_byte _ _ _ _ _ _ _ _ Wr) by done. fold n.
      case_decide as D; [by rewrite list_lookup_lookup_total_lt by (fold n; lia)|]. rewrite FB by done.
      destruct (decide (q < Z.of_nat (length c))); [by rewrite lookup_app_l by lia|]. rewrite !lookup_ge_None_2 by (rewrite ?length_app; lia). done.
  - by eapply append_frame.
Qed.

(** ** The whole image *)
Definition file_cost (f : Z * list Z) : Z := cost (nblk (Z.of_nat (length f.2))).
Definition used (fs : list (Z * list Z)) : Z := foldr (fun f n => file_cost f + n) 0 fs.
Definition free_din : dinode := Dinode 0 0 0 0 0 (replicate NADDRS 0).

(** The image holds the files [fs], with inode numbers from 1 on, and nothing
    else; no block belongs to two of them. *)
Record image (s : mkst) (vw : Z -> block) (fs : list (Z * list Z)) : Prop := {
  im_rep : rep s vw;
  im_next : mk_freeinode s = 1 + Z.of_nat (length fs);
  im_used : mk_freeblock s = nmeta + used fs;
  im_file : forall (k : nat) t c, fs !! k = Some (t, c) -> file_at vw (1 + Z.of_nat k) t c;
  im_disj : forall (k l : nat) a, (k < length fs)%nat -> (l < length fs)%nat -> k <> l -> blk vw (1 + Z.of_nat k) a -> ~ blk vw (1 + Z.of_nat l) a;
  im_free : forall j, Z.of_nat (length fs) < j < 208 -> disk_inode new_sb vw j = free_din;
  im_head : vw 1 = put_bytes zeroes 0 (sb_enc new_sb) /\ forall a, 2 <= a < 32 -> vw a = zeroes;
  im_max : Z.of_nat (length fs) < NINODES;
}.

Lemma blk_free vw j a : disk_inode new_sb vw j = free_din -> ~ blk vw j a.
Proof.
  intros E [H0 HA]. apply H0. assert (EI : ind (fino vw j) = 0) by (unfold fino, ind; by rewrite E).
  destruct HA as [-> |(b & _ & ->)]; [done|]. unfold baddr. rewrite EI. destruct (decide (b < 12)%nat) as [Hb|]; [|done].
  unfold fino. rewrite E. cbn [mk_ino load_dinode i_addrs di_addrs free_din]. rewrite lookup_total_replicate_2; [done|unfold NADDRS; lia].
Qed.

(** One file of the image changed, or added as the next one. *)
Lemma image_change s vw fs s' vw' (k : nat) t c fs' :
  image s vw fs -> rep s' vw' -> only_file s vw (1 + Z.of_nat k) vw' -> file_at vw' (1 + Z.of_nat k) t c -> (k <= length fs)%nat ->
  (forall l, fs' !! l = if decide (l = k) then Some (t, c) else fs !! l) -> Z.of_nat (length fs') < NINODES ->
  mk_freeinode s' = 1 + Z.of_nat (length fs') -> mk_freeblock s' = nmeta + used fs' -> image s' vw' fs'.
Proof.
  intros [R I1 I2 I3 I4 I5 I6 I7] R' O F Hk E' Hmax HN HU. change NINODES with 200 in *.
  assert (HD : forall (l : nat) a, (l < length fs)%nat -> l <> k -> blk vw (1 + Z.of_nat l) a -> ~ blk vw (1 + Z.of_nat k) a).
  { intros l a Hl Hne. destruct (decide (k < length fs)%nat) as [Hlt|Hge]; [by apply I4|]. intros _. apply blk_free, I5. lia. }
  assert (HF : forall (l : nat), (l < length fs)%nat -> l <> k -> exists tl cl, fs !! l = Some (tl, cl) /\ file_at vw (1 + Z.of_nat l) tl cl /\
    file_at vw' (1 + Z.of_nat l) tl cl /\ forall a, blk vw' (1 + Z.of_nat l) a <-> blk vw (1 + Z.of_nat l) a).
  { intros l Hl Hne. destruct (lookup_lt_is_Some_2 fs l Hl) as [[tl cl] El]. exists tl, cl. pose proof (I3 l tl cl El) as FL.
    destruct (file_keep s vw _ vw' (1 + Z.of_nat l) tl cl R O) as [A B]; try done; try lia. intros a. by apply HD. }
  assert (HK : forall (l : nat) a, (l < length fs)%nat -> l <> k -> blk vw' (1 + Z.of_nat l) a -> ~ blk vw' (1 + Z.of_nat k) a).
  { intros l a Hl Hne Ha Hka. destruct (HF l Hl Hne) as (tl & cl & _ & FL & _ & EB). apply EB in Ha.
    destruct (of_new _ _ _ _ O a Hka) as [Hb|Hb]; [by eapply HD|]. pose proof (blk_range s vw _ tl cl a R FL Ha). lia. }
  assert (HL : forall l, (l < length fs')%nat -> l <> k -> (l < length fs)%nat).
  { intros l [v Hv]%lookup_lt_is_Some_2 Hne. rewrite E', decide_False in Hv by done. by eapply lookup_lt_Some. }
  assert (HLk : (k < length fs')%nat) by (apply lookup_lt_is_Some_1; exists (t, c); by rewrite E', decide_True).
  assert (HLe : (length fs <= length fs')%nat).
  { destruct (decide (length fs <= length fs')%nat) as [|Hn]; [done|]. destruct (lookup_lt_is_Some_2 fs (length fs') ltac:(lia)) as [v Hv].
    rewrite <- (decide_False (P := length fs' = k) (Some (t, c)) (fs !! length fs')) in Hv by lia. rewrite <- E' in Hv. apply lookup_lt_Some in Hv. lia. }
  split; try done.
  - intros l tl cl El. rewrite E' in El. case_decide as D; [subst l; by simplify_eq|]. apply lookup_lt_Some in El as Hl.
    destruct (HF l Hl D) as (tl' & cl' & El' & _ & FL & _). by simplify_eq.
  - intros l m a Hl Hm Hne Ha Hb. destruct (decide (l = k)) as [->|Dl]; [by eapply (HK m); eauto|]. destruct (decide (m = k)) as [->|Dm]; [by eapply (HK l); eauto|].
    destruct (HF l) as (? & ? & _ & _ & _ & EL); auto. destruct (HF m) as (? & ? & _ & _ & _ & EM); auto. apply EL in Ha. apply EM in Hb. by eapply (I4 l m); eauto.
  - intros j Hj. rewrite (of_inode _ _ _ _ O) by lia. apply I5. lia.
  - assert (HH : forall a, 1 <= a < 32 -> vw' a = vw a).
    { intros a Ha. pose proof (rp_fb _ _ R). change nmeta with 46 in *. apply (of_frame _ _ _ _ O); [lia|lia|lia|].
      destruct (decide (k < length fs)%nat) as [Hlt|Hge]; [|apply blk_free, I5; lia]. intros Hb.
      destruct (lookup_lt_is_Some_2 fs k Hlt) as [[tk ck] Ek]. pose proof (blk_range s vw _ tk ck a R (I3 k tk ck Ek) Hb). change nmeta with 46 in *. lia. }
    rewrite HH by lia. split; [apply I6|]. intros a Ha. rewrite HH by lia. by apply I6.
Qed.

Lemma used_insert fs k f g : fs !! k = Some f -> used (<[k := g]> fs) = used fs + (file_cost g - file_cost f).
Proof.
  revert k. induction fs as [|h fs IH]; intros [|k] E; try done.
  - injection E as ->. unfold used. cbn. lia.
  - change (file_cost h + used (<[k := g]> fs) = file_cost h + used fs + (file_cost g - file_cost f)). rewrite (IH k E). lia.
Qed.

Lemma used_snoc fs g : used (fs ++ [g]) = used fs + file_cost g.
Proof. induction fs as [|h fs IH]; [unfold used; cbn; lia|]. unfold used in *. cbn. rewrite IH. lia. Qed.

Lemma image_append s vw fs (k : nat) t c p (fs' := <[k := (t, c ++ p)]> fs) : image s vw fs -> fs !! k = Some (t, c) ->
  Z.of_nat (length (c ++ p)) <= MAXFILE * BSIZE -> nmeta + used fs' <= FSSIZE ->
  runs (iappend (1 + Z.of_nat k) p) s (fun _ s' => exists vw', image s' vw' fs').
Proof.
  intros I Ek Hlen Hsp. pose proof I as [R I1 I2 I3 I4 I5 I6 I7]. pose proof (lookup_lt_Some _ _ _ Ek) as Hk. change NINODES with 200 in *.
  assert (HU : used fs' = used fs + (cost (nblk (Z.of_nat (length (c ++ p)))) - cost (nblk (Z.of_nat (length c))))) by exact (used_insert _ _ _ (t, c ++ p) Ek).
  eapply runs_mono; [apply (iappend_run s vw _ t c p R); [lia|by apply I3|done|lia]|]. intros _ s' (vw' & R' & [G1 G2] & F' & O). exists vw'.
  eapply (image_change s vw fs s' vw' k); try done; unfold fs'; rewrite ?length_insert; try (change NINODES with 200; lia).
  - intros l. case_decide; [subst; by apply list_lookup_insert_eq|by rewrite list_lookup_insert_ne].
  - fold fs'. rewrite G2, HU. lia.
Qed.

(** An inode without blocks. *)
Lemma empty_file vw i : (forall j, (j < 13)%nat -> i_addrs i !!! j = 0) -> (forall b, baddr vw i b = 0) /\ ind i = 0.
Proof.
  intros H. assert (HI : ind i = 0) by (apply H; lia). split; [|done]. intros b. unfold baddr. rewrite HI.
  destruct (decide (b < 12)%nat); [apply H; lia|done].
Qed.

Lemma image_alloc s vw fs t : image s vw fs -> 0 < t < 2 ^ 15 -> Z.of_nat (length fs) + 1 < NINODES ->
  runs (ialloc t) s (fun inum s' => inum = 1 + Z.of_nat (length fs) /\ exists vw', image s' vw' (fs ++ [(t, [])])).
Proof.
  intros I Ht Hmax. pose proof I as [R I1 I2 I3 I4 I5 I6 I7]. change NINODES with 200 in *. unfold ialloc. mstep. rewrite I1. set (inum := 1 + Z.of_nat (length fs)).
  mstep. rewrite u32_small by lia. rewrite !xshort_u16, (u16_small t), s16_small by lia.
  change (xint 0) with 0. change (s16 (u16 1)) with 1. set (din := Dinode t 0 0 1 0 (replicate NADDRS 0)). set (s1 := set_freeinode (inum + 1) s).
  assert (R1 : rep s1 vw) by (destruct R; by split).
  eapply runs_seq; [apply (winode_run s1 vw inum din R1); [unfold inum; lia|done]|]. intros [] s2 [R2 [G1 G2]]. mstep. split; [done|].
  set (i := mk_ino inum din). destruct (empty_file vw i) as [EB EI]. { intros j Hj. change (i_addrs i) with (replicate NADDRS 0). by apply lookup_total_replicate_2. }
  assert (W : iwf new_sb vw i).
  { split; try done; try (intros *; rewrite !EB; done).
    - apply (rep_owned s vw _ R). pose proof (new_iblock inum ltac:(unfold inum; lia)). pose proof (rp_fb _ _ R). change nmeta with 46 in *. change (i_inum i) with inum. unfold in_log. lia.
    - pose proof (new_iblock inum ltac:(unfold inum; lia)). change (i_inum i) with inum. split; [intros b _; rewrite EB|rewrite EI]; lia. }
  assert (DO : dinode_ok din) by (by apply (mk_dinode_ok vw inum t 0 din)).
  destruct (put_inode_facts s1 vw inum din R1 ltac:(unfold inum; lia) DO W) as (P1 & P2 & P3 & P4 & P5 & P6 & P7).
  set (vw' := put_inode vw inum din) in *. fold i in P1, P2, P3, P4, P5. assert (EV : disk_inode new_sb vw' inum = din).
  { unfold vw', put_inode. rewrite disk_inode_put, decide_True; [done|done|lia|lia|done|apply (rp_blk _ _ R)]. }
  exists vw'. apply (image_change s vw fs s2 vw' (length fs) t [] (fs ++ [(t, [])]) I R2).
  - fold inum. split; [intros j Hj Hne; apply P6; lia| | |done].
    + intros a Ha H45 Hib _. pose proof (new_iblock inum ltac:(unfold inum; lia)). unfold vw', put_inode, upd_at. by rewrite decide_False by lia.
    + intros a [H0 HA]. rewrite P1 in HA. destruct H0. destruct HA as [-> |(b & _ & ->)]; [done|]. by rewrite P3.
  - fold inum. split; rewrite ?P1; try done; [by rewrite EV| |].
    + split; change (nblk (Z.of_nat (length []))) with 0%nat; try lia; intros b; rewrite P3, EB; lia.
    + intros p Hp. rewrite P5 by done. unfold fbyte0. by rewrite EB, decide_True.
  - done.
  - intros l. case_decide; [subst; by rewrite list_lookup_middle|]. destruct (decide (l < length fs)%nat); [by rewrite lookup_app_l|].
    rewrite !lookup_ge_None_2; [done|lia|rewrite length_app; cbn; lia].
  - rewrite length_app. cbn. change NINODES with 200. lia.
  - rewrite length_app. cbn in G1 |- *. unfold inum in *. lia.
  - rewrite G2, used_snoc. change (file_cost (t, [])) with 0. cbn. lia.
Qed.

(** ** Copying the files *)
Lemma cost_nonneg n : 0 <= cost n.
Proof. unfold cost. case_decide; lia. Qed.

Lemma used_app fs gs : used (fs ++ gs) = used fs + used gs.
Proof. induction fs as [|f fs IH]; [done|]. change (file_cost f + used (fs ++ gs) = file_cost f + used fs + used gs). rewrite IH. lia. Qed.

Lemma used_nonneg fs : 0 <= used fs.
Proof. induction fs as [|f fs IH]; [done|]. change (0 <= file_cost f + used fs). pose proof (cost_nonneg (nblk (Z.of_nat (length f.2)))). unfold file_cost. lia. Qed.

Lemma file_cost_app t c p : file_cost (t, c) <= file_cost (t, c ++ p).
Proof. apply cost_mono, nblk_mono. cbn [snd]. rewrite length_app. lia. Qed.

Lemma copy_file_run k t chunks : forall s vw fs c, image s vw fs -> fs !! k = Some (t, c) ->
  Z.of_nat (length (c ++ concat chunks)) <= MAXFILE * BSIZE -> nmeta + used (<[k := (t, c ++ concat chunks)]> fs) <= FSSIZE ->
  runs (copy_file (1 + Z.of_nat k) chunks) s (fun _ s' => exists vw', image s' vw' (<[k := (t, c ++ concat chunks)]> fs)).
Proof.
  induction chunks as [|p chunks IH]; intros s vw fs c I Ek Hlen Hsp; cbn [copy_file concat] in *.
  - mstep. exists vw. by rewrite app_nil_r, list_insert_id.
  - rewrite app_assoc in *. pose proof (lookup_lt_Some _ _ _ Ek) as Hk.
    eapply runs_seq; [apply (image_append s vw fs k t c p I Ek)|].
    + rewrite length_app in Hlen. lia.
    + pose proof (file_cost_app t (c ++ p) (concat chunks)). rewrite (used_insert _ _ _ _ Ek) in Hsp. rewrite (used_insert _ _ _ _ Ek). lia.
    + intros [] s1 (vw1 & I1). eapply runs_mono; [apply (IH s1 vw1 _ (c ++ p) I1)|].
      * by rewrite list_lookup_insert_eq.
      * done.
      * by rewrite list_insert_insert_eq.
      * intros _ s2 (vw2 & I2). exists vw2. by rewrite list_insert_insert_eq in I2.
Qed.

(** The entries of the root directory, and the bytes mkfs writes for them. *)
Fixpoint number (n : Z) (names : list (list Z)) : list (Z * list Z) :=
  match names with
  | [] => []
  | nm :: t => (n, nm) :: number (n + 1) t
  end.
Definition ent_bytes (ents : list (Z * list Z)) : list Z := concat ((fun e => mk_dirent e.1 e.2) <$> ents).

Lemma length_mk_dirent n nm : length (mk_dirent n nm) = 16%nat.
Proof. unfold mk_dirent, dirent_enc. cbn [de_inum de_name]. rewrite !length_app, length_le_enc, length_take, length_replicate. lia. Qed.

Lemma length_ent_bytes ents : length (ent_bytes ents) = (16 * length ents)%nat.
Proof. induction ents as [|e ents IH]; [done|]. unfold ent_bytes in *. cbn [fmap list_fmap concat]. rewrite length_app, length_mk_dirent, IH. cbn [length]. lia. Qed.

Lemma length_number n names : length (number n names) = length names.
Proof. revert n. induction names as [|nm t IH]; intros n; cbn; [done|]. by rewrite IH. Qed.

(** The bytes of a C string. *)
Definition cstring (nm : list Z) : Prop := Forall (fun x => 0 < x < 2 ^ 8) nm.

(** [path] can be read, and is copied as the file [f]: its name and contents. *)
Record copied (host : list Z -> option (list (list Z))) (path : list Z) (f : list Z * list Z) : Prop := {
  cp_slash : slash ∉ (cut_user path : list Z);
  cp_name : cut_underscore (cut_user path) = f.1;
  cp_len : Z.of_nat (length f.1) <= DIRSIZ;
  cp_cstr : cstring f.1;
  cp_read : exists chunks, host path = Some chunks /\ concat chunks = f.2;
  cp_fits : Z.of_nat (length f.2) <= MAXFILE * BSIZE;
}.

(** The files of the image whose root directory has the contents [r]. *)
Definition with_root (r : list Z) (cs : list (list Z)) : list (Z * list Z) := (T_DIR, r) :: ((fun c => (T_FILE, c)) <$> cs).

Lemma used_with_root r r' cs cs' : used (with_root r cs) <= used (with_root (r ++ r') (cs ++ cs')).
Proof.
  change (file_cost (T_DIR, r) + used ((fun c => (T_FILE, c)) <$> cs) <= file_cost (T_DIR, r ++ r') + used ((fun c => (T_FILE, c)) <$> cs ++ cs')).
  rewrite fmap_app, used_app. pose proof (file_cost_app T_DIR r r'). pose proof (used_nonneg ((fun c => (T_FILE, c)) <$> cs')). lia.
Qed.

Lemma add_file_run host path f s vw r cs (de := mk_dirent (2 + Z.of_nat (length cs)) f.1) : image s vw (with_root r cs) -> copied host path f ->
  Z.of_nat (length cs) + 2 < NINODES -> Z.of_nat (length r) + 16 <= MAXFILE * BSIZE ->
  nmeta + used (with_root (r ++ de) (cs ++ [f.2])) <= FSSIZE ->
  runs (add_file host 1 path) s (fun _ s' => exists vw', image s' vw' (with_root (r ++ de) (cs ++ [f.2]))).
Proof.
  intros I [C1 C2 C3 _ (chunks & C4 & C5) C6] Hmax Hlen Hsp. unfold add_file. rewrite C4, C2. rewrite bool_decide_eq_true_2 by done.
  rewrite (proj2 (Z.leb_le _ _)) by done. unfold assert_. mstep. mstep.
  assert (Hl : length (with_root r cs) = S (length cs)) by (cbn; by rewrite length_fmap).
  eapply runs_seq; [apply (image_alloc s vw _ T_FILE I); [done|rewrite Hl; lia]|]. rewrite Hl. intros inum s1 (-> & vw1 & I1).
  replace (1 + Z.of_nat (S (length cs))) with (2 + Z.of_nat (length cs)) by lia. fold de.
  change ((with_root r cs) ++ [(T_FILE, [])]) with ((T_DIR, r) :: (((fun c => (T_FILE, c)) <$> cs) ++ [(T_FILE, [])])) in I1.
  assert (E0 : ((fun c : list Z => (T_FILE, c)) <$> cs) ++ [(T_FILE, [])] = (fun c => (T_FILE, c)) <$> (cs ++ [[]])) by (by rewrite fmap_app). rewrite E0 in I1.
  change (image s1 vw1 (with_root r (cs ++ [[]]))) in I1.
  assert (HU : used (with_root (r ++ de) (cs ++ [[]])) <= used (with_root (r ++ de) (cs ++ [f.2]))).
  { change (file_cost (T_DIR, r ++ de) + used ((fun c => (T_FILE, c)) <$> cs ++ [[]]) <= file_cost (T_DIR, r ++ de) + used ((fun c => (T_FILE, c)) <$> cs ++ [f.2])).
    rewrite !fmap_app, !used_app. cbn [fmap list_fmap]. pose proof (file_cost_app T_FILE [] f.2) as HC. unfold used. cbn [foldr app] in HC |- *. lia. }
  eapply runs_seq; [apply (image_append s1 vw1 _ 0 T_DIR r de I1); [done|unfold de; rewrite length_app, length_mk_dirent; lia|]|].
  { change (nmeta + used (with_root (r ++ de) (cs ++ [[]])) <= FSSIZE). lia. }
  intros [] s2 (vw2 & I2). change (image s2 vw2 (with_root (r ++ de) (cs ++ [[]]))) in I2.
  replace (2 + Z.of_nat (length cs)) with (1 + Z.of_nat (S (length cs))) by lia.
  assert (EF : <[S (length cs) := (T_FILE, f.2)]> (with_root (r ++ de) (cs ++ [[]])) = with_root (r ++ de) (cs ++ [f.2])).
  { unfold with_root. cbn [insert list_insert]. f_equal. rewrite !fmap_app. cbn [fmap list_fmap].
    pose proof (insert_app_r ((fun c : list Z => (T_FILE, c)) <$> cs) [(T_FILE, [])] 0 (T_FILE, f.2)) as HI.
    rewrite length_fmap, Nat.add_0_r in HI. exact HI. }
  rewrite <- EF, <- C5 in *. eapply (copy_file_run (S (length cs)) T_FILE chunks s2 vw2 _ [] I2); [|done|done].
  change (((fun c => (T_FILE, c)) <$> cs ++ [[]]) !! length cs = Some (T_FILE, [] : list Z)). by rewrite list_lookup_fmap, list_lookup_middle.
Qed.

Lemma add_files_run host paths files : Forall2 (copied host) paths files -> forall s vw r cs,
  let r' := r ++ ent_bytes (number (2 + Z.of_nat (length cs)) files.*1) in
  image s vw (with_root r cs) -> Z.of_nat (length cs) + Z.of_nat (length files) + 1 < NINODES -> Z.of_nat (length r') <= MAXFILE * BSIZE ->
  nmeta + used (with_root r' (cs ++ files.*2)) <= FSSIZE ->
  runs (add_files host 1 paths) s (fun _ s' => exists vw', image s' vw' (with_root r' (cs ++ files.*2))).
Proof.
  induction 1 as [|path f paths files C _ IH]; intros s vw r cs r' I Hmax Hlen Hsp; cbn [add_files].
  - mstep. exists vw. unfold r'. cbn. by rewrite !app_nil_r.
  - set (de := mk_dirent (2 + Z.of_nat (length cs)) f.1).
    assert (Er : r' = (r ++ de) ++ ent_bytes (number (2 + Z.of_nat (length (cs ++ [f.2]))) files.*1)).
    { unfold r'. rewrite <- app_assoc, length_app. do 2 f_equal. cbn [number fmap list_fmap]. unfold ent_bytes. cbn [fmap list_fmap concat fst snd length]. do 4 f_equal. lia. }
    assert (Ec : cs ++ (f :: files).*2 = (cs ++ [f.2]) ++ files.*2) by (by rewrite <- app_assoc). rewrite Er, Ec in *. clear r' Er.
    assert (Hd : length de = 16%nat) by apply length_mk_dirent. rewrite !length_app, Hd in Hlen. cbn [length] in Hmax.
    pose proof (used_with_root (r ++ de) (ent_bytes (number (2 + Z.of_nat (length (cs ++ [f.2]))) files.*1)) (cs ++ [f.2]) files.*2) as HU.
    eapply runs_seq; [apply (add_file_run host path f s vw r cs I C); [lia|lia|fold de; lia]|]. fold de. intros [] s1 (vw1 & I1).
    apply (IH s1 vw1); [done|rewrite length_app; cbn [length]; lia|rewrite !length_app, Hd; lia|done].
Qed.

(** ** The empty image *)
Lemma get_le_zeroes o n : get_le zeroes o n = 0.
Proof. unfold get_le, get_bytes, zeroes. rewrite drop_replicate, take_replicate. apply le_dec_zeros. Qed.

Lemma words_zeroes n o : words n zeroes o = replicate n 0.
Proof. revert o. induction n as [|n IH]; intros o; cbn [words replicate]; [done|]. by rewrite get_le_zeroes, IH. Qed.

Lemma dinode_zeroes o : dinode_dec zeroes o = free_din.
Proof. unfold dinode_dec, free_din. by rewrite !get_le_zeroes, words_zeroes. Qed.

Lemma zero_blocks_run s : mk_img s = [] ->
  runs (for_loop (A := unit) 0 FSSIZE 1 (fun i => wsect i zeroes ;; ret None)) s (fun _ s' => s' = set_img (replicate (Z.to_nat FSSIZE) zeroes) s).
Proof.
  intros H0. unfold for_loop. change (Z.to_nat ((FSSIZE - 0 + 1 - 1) / 1)) with (Z.to_nat FSSIZE).
  apply (runs_forn _ _ _ _ (fun k s' => s' = set_img (replicate k zeroes) s)).
  - destruct s. cbn in H0 |- *. by subst.
  - intros k t Hk ->. unfold wsect. mstep. mstep. rewrite sect_pos by lia. replace (Z.to_nat (0 + 1 * Z.of_nat k)) with k by lia.
    cbn [mk_img set_img]. unfold write_at. rewrite length_replicate, decide_False by lia. rewrite Nat.sub_diag. cbn [replicate app].
    destruct s. unfold set_img. cbn. f_equal. by rewrite <- replicate_cons_app.
  - by intros t ->.
Qed.

Definition empty_view : Z -> block := upd_at (upd_at (fun _ => zeroes) 1 (put_bytes zeroes 0 (sb_enc new_sb))) 45 (marks nmeta).

Lemma empty_image s : mk_sb s = new_sb -> mk_freeblock s = nmeta -> mk_freeinode s = 1 -> mk_img s = replicate (Z.to_nat FSSIZE) zeroes ->
  runs (wsect 1 (put_bytes zeroes 0 (sb_enc new_sb))) s (fun _ s' => image s' empty_view []).
Proof.
  intros E1 E2 E3 E4. unfold wsect. mstep. rewrite sect_pos by done.
  assert (HV : forall b, b <> 1 -> b <> 45 -> empty_view b = zeroes) by (intros b H1 H2; unfold empty_view, upd_at; by rewrite !decide_False).
  split; cbn [mk_img mk_sb mk_freeinode mk_freeblock set_img length]; try done.
  - split; cbn [mk_img mk_sb mk_freeinode mk_freeblock set_img]; rewrite ?E2; try done.
    + unfold write_at. rewrite E4, length_replicate, decide_True by (change FSSIZE with 2000; lia). rewrite length_insert, length_replicate. done.
    + intros b Hb H45. rewrite write_img by (rewrite ?E4, ?length_replicate; change FSSIZE with 2000; lia). unfold empty_view, upd_at. rewrite (decide_False (P := b = 45)) by done.
      case_decide; [done|]. rewrite E4. apply lookup_replicate_2. lia.
    + intros b Hb. change FSSIZE with 2000 in Hb. apply HV; lia.
    + intros b. unfold empty_view, upd_at. repeat case_decide; [unfold marks; by rewrite length_set_bits|done|done].
    + intros b Hb. change nmeta with 46 in Hb. apply HV; lia.
  - intros k l a Hk. lia.
  - intros j Hj. unfold disk_inode. pose proof (new_iblock j ltac:(lia)). rewrite HV by lia. apply dinode_zeroes.
  - split; [done|]. intros a Ha. apply HV; lia.
Qed.

(** ** The finished image *)
Definition image_block (img : list block) : Z -> block := disk_get (map_seqZ 0 img).

Lemma mk_balloc_run s vw : rep s vw -> runs (balloc (mk_freeblock s)) s (fun _ s' => forall b, image_block (mk_img s') b = vw b).
Proof.
  intros R. pose proof R as [R1 R2 R3 R4 R5 R6 R7 R8]. unfold balloc, assert_. change FSSIZE with 2000 in *. rewrite (proj2 (Z.ltb_lt _ BPB)) by (change BPB with 8192; lia). mstep.
  mstep. rewrite R1. change (sb_bmapstart new_sb) with 45. unfold wsect. mstep. rewrite sect_pos by done. intros b. cbn [mk_img set_img].
  unfold image_block, disk_get. destruct (decide (0 <= b < 2000)) as [Hb|Hb].
  - rewrite lookup_map_seqZ, option_guard_True, Z.sub_0_r by lia. rewrite write_img by lia.
    case_decide; [subst; by rewrite R5|]. by rewrite R3.
  - rewrite R4 by done. rewrite (lookup_map_seqZ 0). destruct (decide (0 <= b)); [|by rewrite option_guard_False by lia].
    rewrite option_guard_True by done. rewrite lookup_ge_None_2; [done|]. unfold write_at. rewrite decide_True by lia. rewrite length_insert. lia.
Qed.

(** The size of the root directory: rounded up to the next block. *)
Definition root_size (n : Z) : Z := (n / BSIZE + 1) * BSIZE.

(** When the entries fill their blocks exactly, the size covers one block more
    than the directory has. *)
Lemma root_block_missing vw i n : upto vw i (nblk n) -> 0 <= n < MAXFILE * BSIZE -> n mod BSIZE = 0 ->
  n < root_size n /\ baddr vw i (Z.to_nat (n / BSIZE)) = 0.
Proof.
  intros U Hn Hm. split; [unfold root_size, BSIZE in *; dlia|]. destruct (decide (baddr vw i (Z.to_nat (n / BSIZE)) = 0)) as [|H]; [done|].
  apply U in H; [unfold nblk, BSIZE in *; dlia|by apply bn_bound].
Qed.

Lemma fix_root_run s vw r cs (sz := root_size (Z.of_nat (length r))) : image s vw (with_root r cs) -> sz <= MAXFILE * BSIZE ->
  runs (fix_root_size 1) s (fun _ s' => exists vw', rep s' vw' /\ grew s s' 0 /\ only_file s vw 1 vw' /\
    disk_inode new_sb vw' 1 = Dinode T_DIR 0 0 1 sz (di_addrs (disk_inode new_sb vw' 1)) /\
    iwf new_sb vw' (fino vw' 1) /\ upto vw' (fino vw' 1) (nblk (Z.of_nat (length r))) /\
    forall p, 0 <= p < MAXFILE * BSIZE -> fbyte0 vw' (fino vw' 1) p = default 0 (r !! Z.to_nat p)).
Proof.
  intros I Hsz. pose proof (im_rep _ _ _ I) as R. pose proof (im_file _ _ _ I 0 T_DIR r eq_refl) as F. change (1 + Z.of_nat 0) with 1 in F.
  pose proof F as [F1 F2 F3 F4 F5 F6]. set (din := disk_inode new_sb vw 1) in *. change (fino vw 1) with (mk_ino 1 din) in *.
  assert (HL : 0 <= Z.of_nat (length r) < 2 ^ 31) by (change (MAXFILE * BSIZE) with 274432 in F3; lia). assert (Hs32 : 0 <= sz < 2 ^ 32) by (change (MAXFILE * BSIZE) with 274432 in Hsz; unfold sz, root_size, BSIZE in *; dlia).
  unfold fix_root_size. eapply runs_seq; [by apply (rinode_run s vw)|]. intros d s0 [-> ->]. fold din.
  assert (Ed : di_size din = Z.of_nat (length r)) by (by rewrite F2). rewrite Ed, (xint_u32 (Z.of_nat _)), (u32_small (Z.of_nat _)) by lia. fold (root_size (Z.of_nat (length r))). fold sz.
  rewrite (u32_small sz), xint_u32, u32_small by lia. set (din2 := with_dsize sz din).
  assert (E2 : din2 = Dinode T_DIR 0 0 1 sz (di_addrs din)) by (unfold din2, with_dsize; by rewrite F2).
  assert (W2 : iwf new_sb vw (mk_ino 1 din2)) by (by apply (iwf_addrs new_sb vw (mk_ino 1 din))).
  assert (DO : dinode_ok din2) by (rewrite E2; by apply (mk_dinode_ok vw 1)).
  eapply runs_mono; [apply (winode_run s vw 1 din2 R); [done|apply DO]|]. intros _ s1 [R1 G1]. exists (put_inode vw 1 din2).
  destruct (put_inode_facts s vw 1 din2 R ltac:(lia) DO W2) as (P1 & P2 & P3 & P4 & P5 & P6 & P7).
  assert (EV : disk_inode new_sb (put_inode vw 1 din2) 1 = din2).
  { unfold put_inode. rewrite disk_inode_put, decide_True; [done|done|lia|lia|done|apply (rp_blk _ _ R)]. }
  split_and!; [done|done| |by rewrite EV, E2|by rewrite P1| |].
  - apply (append_frame s vw s vw 1 din sz 0 0 (fun _ => 0)); try done. apply wrote_ext, ext_refl.
  - rewrite P1. apply (upto_frame vw); [by apply (upto_addrs vw (mk_ino 1 din))|exact P4].
  - intros p Hp. rewrite P1, P5 by done. rewrite (fbyte0_addrs vw (mk_ino 1 din)) by done. by apply F6.
Qed.

(** ** The root directory *)
Definition root_ents (names : list (list Z)) : list (Z * list Z) := (1, [dot]) :: (1, [dot; dot]) :: number 2 names.

Lemma cut_name_pad nm n : cstring nm -> cut_name (nm ++ replicate n 0) = nm.
Proof.
  induction 1 as [|x nm Hx _ IH]; cbn [app cut_name]; [by destruct n|]. rewrite (proj2 (Z.eqb_neq x 0)) by lia. by rewrite IH.
Qed.

Lemma mk_dirent_dec n nm : 0 <= n < 2 ^ 16 -> cstring nm -> (length nm <= 14)%nat ->
  cut_name (de_name (dirent_dec (mk_dirent n nm))) = nm /\ de_inum (dirent_dec (mk_dirent n nm)) = n.
Proof.
  intros Hn HC HL. unfold mk_dirent, dirent_enc, dirent_dec. cbn [de_inum de_name]. rewrite get_le_app_l, xshort_u16, u16_small by done.
  rewrite get_bytes_app_r, length_le_enc by (rewrite length_le_enc; lia). rewrite take_ge by done. split; [|by apply Z.mod_small].
  unfold get_bytes. change (2 - 2)%nat with 0%nat. rewrite drop_0, take_ge by (rewrite length_app, length_replicate; lia). by apply cut_name_pad.
Qed.

Lemma mk_dirent_bytes n nm : cstring nm -> Forall byte_ok (mk_dirent n nm).
Proof.
  intros HC. unfold mk_dirent, dirent_enc. cbn [de_inum de_name]. rewrite !Forall_app. split_and!; [apply le_enc_ok| |].
  - apply Forall_take. eapply Forall_impl; [exact HC|]. intros x Hx. unfold byte_ok. cbv beta in Hx. lia.
  - apply Forall_replicate. unfold byte_ok. lia.
Qed.

Lemma lookup_ent_bytes ents k e j : ents !! k = Some e -> (j < 16)%nat -> ent_bytes ents !! (16 * k + j)%nat = mk_dirent e.1 e.2 !! j.
Proof.
  revert k. induction ents as [|e' ents IH]; intros [|k] E Hj; try done; unfold ent_bytes in *; cbn [fmap list_fmap concat].
  - injection E as ->. rewrite lookup_app_l by (rewrite length_mk_dirent; lia). done.
  - rewrite lookup_app_r by (rewrite length_mk_dirent; lia). rewrite length_mk_dirent. rewrite <- (IH k E Hj). f_equal. lia.
Qed.

Lemma number_ok n names e : e ∈ number n names -> n <= e.1 < n + Z.of_nat (length names) /\ e.2 ∈ names.
Proof.
  revert n. induction names as [|nm t IH]; intros n; cbn [number length]; [by intros ?%elem_of_nil|].
  intros [-> |H]%elem_of_cons; [cbn; split; [lia|set_solver]|]. destruct (IH _ H). split; [lia|set_solver].
Qed.

(** A live entry with a C string as its name. *)
Definition ent_ok (e : Z * list Z) : Prop := 0 < e.1 < 2 ^ 16 /\ cstring e.2 /\ (length e.2 <= 14)%nat.

Section dir.
Context (vw : Z -> block) (i : inode) (ents : list (Z * list Z)).
Hypothesis Hents : Forall ent_ok ents.
Hypothesis Hbyte : forall p, 0 <= p < i_size i -> fbyte vw i p = default 0 (ent_bytes ents !! Z.to_nat p).
Hypothesis Hsize : 16 * Z.of_nat (length ents) <= i_size i /\ i_size i mod 16 = 0.

Lemma dent_eq (k : nat) : 16 * Z.of_nat k < i_size i -> dent vw i k = from_option (fun e => (e.2, e.1)) ([], 0) (ents !! k).
Proof.
  intros Hk. assert (HB : forall j, (j < 16)%nat -> fbyte vw i (DESIZE * Z.of_nat k + Z.of_nat j) = default 0 (ent_bytes ents !! (16 * k + j)%nat)).
  { intros j Hj. unfold DESIZE. rewrite Hbyte by dlia. do 2 f_equal. lia. }
  unfold dent, dent_bytes. destruct (ents !! k) as [e|] eqn:Ek; cbn [from_option].
  - rewrite Forall_forall in Hents. destruct (Hents e ltac:(by eapply list_elem_of_lookup_2)) as (E1 & E2 & E3).
    assert (EB : ((fun j => fbyte vw i (DESIZE * Z.of_nat k + Z.of_nat j)) <$> seq 0 16) = mk_dirent e.1 e.2).
    { apply list_eq. intros j. destruct (decide (j < 16)%nat) as [Hj|Hj].
      - rewrite list_lookup_fmap, lookup_seq_lt by done. cbn [fmap option_fmap option_map Nat.add]. rewrite HB, (lookup_ent_bytes _ _ e) by done.
        by rewrite list_lookup_lookup_total_lt by (by rewrite length_mk_dirent).
      - rewrite !lookup_ge_None_2; [done|rewrite length_mk_dirent; lia|rewrite length_fmap, length_seq; lia]. }
    rewrite EB. destruct (mk_dirent_dec e.1 e.2) as [-> ->]; [lia|done|done|done].
  - apply lookup_ge_None_1 in Ek.
    assert (EB : ((fun j => fbyte vw i (DESIZE * Z.of_nat k + Z.of_nat j)) <$> seq 0 16) = replicate 16 0).
    { apply list_eq. intros j. destruct (decide (j < 16)%nat) as [Hj|Hj].
      - rewrite list_lookup_fmap, lookup_seq_lt by done. cbn [fmap option_fmap option_map Nat.add]. rewrite HB by done.
        rewrite lookup_ge_None_2 by (rewrite length_ent_bytes; lia). by rewrite lookup_replicate_2.
      - rewrite !lookup_ge_None_2; [done|rewrite length_replicate; lia|rewrite length_fmap, length_seq; lia]. }
    rewrite EB. reflexivity.
Qed.

Lemma entries_dead n : entries_map (replicate n ([], 0)) = ∅.
Proof. induction n as [|n IH]; [done|]. cbn [replicate]. rewrite entries_map_cons, decide_False; [done|]. unfold live. cbn. lia. Qed.

Lemma root_map : dir_map vw i = list_to_map ((fun e => (e.2, e.1)) <$> ents).
Proof.
  unfold dir_map. assert (E : dents vw i = ((fun e => (e.2, e.1)) <$> ents) ++ replicate (Z.to_nat (i_size i / 16) - length ents) ([], 0)).
  { apply list_eq. intros k. unfold dents. change DESIZE with 16. destruct (decide (k < Z.to_nat (i_size i / 16))%nat) as [Hk|Hk].
    - rewrite list_lookup_fmap, lookup_seq_lt by done. cbn [fmap option_fmap option_map Nat.add]. rewrite dent_eq by dlia. destruct (ents !! k) as [e|] eqn:Ek.
      + rewrite lookup_app_l by (rewrite length_fmap; by eapply lookup_lt_Some). by rewrite list_lookup_fmap, Ek.
      + apply lookup_ge_None_1 in Ek. rewrite lookup_app_r, length_fmap by (by rewrite length_fmap). by rewrite lookup_replicate_2 by lia.
    - rewrite !lookup_ge_None_2; [done|rewrite length_app, length_fmap, length_replicate; dlia|rewrite length_fmap, length_seq; lia]. }
  rewrite E, entries_map_app, entries_dead, map_union_empty. unfold entries_map. f_equal. apply filter_all.
  intros e' (e & -> & He)%list_elem_of_fmap. rewrite Forall_forall in Hents. destruct (Hents e He) as (H0 & _). unfold live. cbn. lia.
Qed.

Lemma root_byte_ok p : 0 <= p < i_size i -> byte_ok (fbyte vw i p).
Proof.
  intros Hp. rewrite Hbyte by done. assert (H : Forall byte_ok (ent_bytes ents)).
  { unfold ent_bytes. apply Forall_concat, Forall_fmap. eapply Forall_impl; [exact Hents|]. intros e (_ & HC & _). by apply mk_dirent_bytes. }
  destruct (ent_bytes ents !! Z.to_nat p) as [x|] eqn:E; cbn; [by eapply Forall_lookup_1|unfold byte_ok; lia].
Qed.
End dir.

(** ** What mkfs leaves *)
Section result.
Context (files : list (list Z * list Z)).
Definition new_root : list Z := ent_bytes (root_ents files.*1).
Definition new_files : list (Z * list Z) := with_root new_root files.*2.

(** The entries of the root directory do not fill its blocks exactly. *)
Definition root_fits : Prop := (2 + Z.of_nat (length files)) mod 64 <> 0.

(** The root inode: a directory whose blocks hold the entries.  Its size is the
    entries' rounded up to the next block, which is one block more than it has
    when the entries fill their blocks exactly. *)
Record root_inode (vw : Z -> block) (i : inode) : Prop := {
  ri_type : i_type i = T_DIR /\ i_nlink i = 1;
  ri_size : i_size i = root_size (Z.of_nat (length new_root));
  ri_wf : iwf new_sb vw i;
  ri_bytes : forall p, 0 <= p < Z.of_nat (length new_root) -> fbyte vw i p = new_root !!! Z.to_nat p;
  ri_hole : ~ root_fits -> Z.of_nat (length new_root) < i_size i /\ baddr vw i (Z.to_nat (Z.of_nat (length new_root) / BSIZE)) = 0;
}.

(** A file system that holds exactly [files], in the root directory. *)
Record fs_image (vw : Z -> block) : Prop := {
  fi_sb : sb_dec (vw 1) = new_sb;
  fi_log : hdr_n (vw 2) = 0;
  fi_disk : disk_ok new_sb vw none;
  fi_bits : forall m, 0 <= m < FSSIZE -> bit_of new_sb vw m = (m <? nmeta + used new_files);
  fi_inode : root_inode vw (fino vw ROOTINO);
  fi_root : root_fits -> dir_ok new_sb vw (fino vw ROOTINO);
  fi_names : root_fits -> dir_map vw (fino vw ROOTINO) = list_to_map ((fun e => (e.2, e.1)) <$> root_ents files.*1);
  fi_file : forall (k : nat) nm c, files !! k = Some (nm, c) -> let i := fino vw (2 + Z.of_nat k) in
    i_type i = T_FILE /\ i_nlink i = 1 /\ i_size i = Z.of_nat (length c) /\ iwf new_sb vw i /\ isize_ok vw i /\
    forall p, 0 <= p < Z.of_nat (length c) -> fbyte vw i p = c !!! Z.to_nat p;
  fi_disj : forall (k l : nat) a, (k <= length files)%nat -> (l <= length files)%nat -> k <> l ->
    blk vw (1 + Z.of_nat k) a -> ~ blk vw (1 + Z.of_nat l) a;
  fi_free : forall j, Z.of_nat (length files) + 1 < j < NINODES -> di_type (disk_inode new_sb vw j) = 0;
}.

Lemma length_new_files : length new_files = S (length files).
Proof. unfold new_files, with_root. cbn [length]. by rewrite !length_fmap. Qed.

Lemma length_new_root : length new_root = (16 * (2 + length files))%nat.
Proof. unfold new_root. rewrite length_ent_bytes. unfold root_ents. cbn [length]. by rewrite length_number, length_fmap. Qed.

(** The part of a file's record the kernel's invariants are about. *)
Lemma file_at_facts vw inum c : file_at vw inum T_FILE c -> let i := fino vw inum in
  i_type i = T_FILE /\ i_nlink i = 1 /\ i_size i = Z.of_nat (length c) /\ iwf new_sb vw i /\ isize_ok vw i /\
  forall p, 0 <= p < Z.of_nat (length c) -> fbyte vw i p = c !!! Z.to_nat p.
Proof.
  intros [F1 F2 F3 F4 F5 F6] i. assert (ES : i_size i = Z.of_nat (length c)) by (unfold i, fino; by rewrite F2).
  assert (SZ : isize_ok vw i).
  { split; [lia|]. rewrite ES. intros b Hb. apply F5; unfold FILEBLKS, nblk; change (MAXFILE * BSIZE) with 274432 in F3; unfold BSIZE in *; dlia. }
  split_and!; [unfold i, fino; by rewrite F2|unfold i, fino; by rewrite F2|done|done|done|].
  intros p Hp. rewrite <- fbyte0_here by (apply isize_here; [done|lia]). unfold i. rewrite F6 by lia. by rewrite list_lookup_lookup_total_lt by lia.
Qed.

Lemma root_ents_ok : Forall (fun f => cstring f.1 /\ Z.of_nat (length f.1) <= DIRSIZ) files -> Z.of_nat (length files) + 1 < NINODES -> Forall ent_ok (root_ents files.*1).
Proof.
  intros HF Hn. change NINODES with 200 in Hn. unfold root_ents. repeat apply Forall_cons_2; [by repeat constructor|by repeat constructor|].
  apply Forall_forall. intros e [He (f & Ef & Hf)%list_elem_of_fmap]%number_ok. rewrite length_fmap in He. rewrite Forall_forall in HF.
  destruct (HF f Hf) as [H1 H2]. change DIRSIZ with 14 in H2. split; [lia|]. rewrite Ef. split; [done|lia].
Qed.

Lemma root_inode_ok vw : Z.of_nat (length files) + 1 < NINODES ->
  disk_inode new_sb vw 1 = Dinode T_DIR 0 0 1 (root_size (Z.of_nat (length new_root))) (di_addrs (disk_inode new_sb vw 1)) ->
  iwf new_sb vw (fino vw 1) -> upto vw (fino vw 1) (nblk (Z.of_nat (length new_root))) ->
  (forall p, 0 <= p < MAXFILE * BSIZE -> fbyte0 vw (fino vw 1) p = default 0 (new_root !! Z.to_nat p)) ->
  root_inode vw (fino vw 1).
Proof.
  intros Hn ED W U HB. change NINODES with 200 in Hn. set (i := fino vw 1) in *. pose proof length_new_root as HLr.
  assert (ES : i_size i = root_size (Z.of_nat (length new_root))) by (unfold i, fino; by rewrite ED).
  split; [split; unfold i, fino; by rewrite ED|done|done| |].
  - intros p Hp. rewrite <- fbyte0_here.
    + rewrite HB by (change (MAXFILE * BSIZE) with 274432; lia). by rewrite list_lookup_lookup_total_lt by lia.
    + apply U; unfold FILEBLKS, nblk, BSIZE in *; dlia.
  - intros Hm. unfold root_fits in Hm. rewrite ES. apply root_block_missing; [done|change (MAXFILE * BSIZE) with 274432; lia|]. rewrite HLr. unfold BSIZE. dlia.
Qed.

(** The root directory once its size is fixed. *)
Lemma root_dir vw : Forall (fun f => cstring f.1 /\ Z.of_nat (length f.1) <= DIRSIZ) files -> Z.of_nat (length files) + 1 < NINODES ->
  root_fits ->
  disk_inode new_sb vw 1 = Dinode T_DIR 0 0 1 (root_size (Z.of_nat (length new_root))) (di_addrs (disk_inode new_sb vw 1)) ->
  iwf new_sb vw (fino vw 1) -> upto vw (fino vw 1) (nblk (Z.of_nat (length new_root))) ->
  (forall p, 0 <= p < MAXFILE * BSIZE -> fbyte0 vw (fino vw 1) p = default 0 (new_root !! Z.to_nat p)) ->
  dir_ok new_sb vw (fino vw 1) /\ dir_map vw (fino vw 1) = list_to_map ((fun e => (e.2, e.1)) <$> root_ents files.*1).
Proof.
  intros HF Hn Hmod ED W U HB. unfold root_fits in Hmod. pose proof (root_ents_ok HF Hn) as HE. change NINODES with 200 in Hn. set (i := fino vw 1) in *.
  assert (ES : i_size i = root_size (Z.of_nat (length new_root))) by (unfold i, fino; by rewrite ED). rewrite length_new_root in ES, U.
  assert (HSz : 0 <= i_size i <= 4096 /\ i_size i mod 16 = 0 /\ 16 * (2 + Z.of_nat (length files)) <= i_size i) by (rewrite ES; unfold root_size, BSIZE; dlia).
  assert (SZ : isize_ok vw i).
  { split; [change (MAXFILE * BSIZE) with 274432; lia|]. rewrite ES. intros b Hb. apply U; unfold FILEBLKS, nblk, root_size, BSIZE in *; dlia. }
  assert (HBy : forall p, 0 <= p < i_size i -> fbyte vw i p = default 0 (ent_bytes (root_ents files.*1) !! Z.to_nat p)).
  { intros p Hp. rewrite <- fbyte0_here by (by apply isize_here). apply HB. change (MAXFILE * BSIZE) with 274432. lia. }
  assert (HL : length (root_ents files.*1) = (2 + length files)%nat) by (unfold root_ents; cbn [length]; by rewrite length_number, length_fmap).
  split; [split; try done; [tauto| |unfold i, fino; by rewrite ED]|].
  - intros p Hp. by apply (root_byte_ok vw i (root_ents files.*1)).
  - apply root_map; [done|done|]. rewrite HL. split; [lia|tauto].
Qed.

(** The image after the size of the root directory is fixed. *)
Lemma fix_root_image s vw : image s vw new_files -> Forall (fun f => cstring f.1 /\ Z.of_nat (length f.1) <= DIRSIZ) files -> Z.of_nat (length files) + 1 < NINODES ->
  runs (fix_root_size 1) s (fun _ s' => exists vw', rep s' vw' /\ fs_image vw').
Proof.
  intros I HF Hn. assert (Hsz : root_size (Z.of_nat (length new_root)) <= MAXFILE * BSIZE).
  { rewrite length_new_root. change NINODES with 200 in Hn. change (MAXFILE * BSIZE) with 274432. unfold root_size, BSIZE. dlia. }
  eapply runs_mono; [apply (fix_root_run s vw new_root files.*2 I Hsz)|]. intros _ s' (vw' & R' & [_ G] & O & ED & W & U & HB). exists vw'. split; [done|].
  pose proof I as [R I1 I2 I3 I4 I5 I6 I7]. rewrite length_new_files in *. change NINODES with 200 in *.
  assert (HD := fun Hmod => root_dir vw' HF Hn Hmod ED W U HB).
  assert (HK : forall (k : nat) t c, new_files !! S k = Some (t, c) -> file_at vw' (1 + Z.of_nat (S k)) t c /\ forall a, blk vw' (1 + Z.of_nat (S k)) a <-> blk vw (1 + Z.of_nat (S k)) a).
  { intros k t c Ek. pose proof (lookup_lt_Some _ _ _ Ek) as Hk. rewrite length_new_files in Hk. apply (file_keep s vw 1 vw'); try done; [lia|lia|by apply I3|].
    intros a Ha. apply (I4 (S k) 0%nat); [lia|lia|done|done]. }
  assert (HR : forall a, blk vw' 1 a -> forall k : nat, (S k <= length files)%nat -> ~ blk vw (1 + Z.of_nat (S k)) a).
  { intros a Ha k Hk Hb. destruct (lookup_lt_is_Some_2 new_files (S k) ltac:(rewrite length_new_files; lia)) as [[t c] Ek].
    destruct (of_new _ _ _ _ O a Ha) as [H1|H1]; [by apply (I4 (S k) 0%nat a); [lia|lia|done|done|done]|]. pose proof (blk_range s vw _ t c a R (I3 _ _ _ Ek) Hb). lia. }
  assert (HH : forall a, 1 <= a < 32 -> vw' a = vw a).
  { intros a Ha. pose proof (rp_fb _ _ R). change nmeta with 46 in *. apply (of_frame _ _ _ _ O); [lia|lia|lia|].
    intros Hb. pose proof (blk_range s vw _ T_DIR new_root a R (I3 0%nat _ _ eq_refl) Hb). change nmeta with 46 in *. lia. }
  split; try done.
  - rewrite HH by lia. rewrite (proj1 I6). reflexivity.
  - rewrite HH by lia. rewrite (proj2 I6) by lia. reflexivity.
  - by apply (rep_disk s').
  - intros m Hm. rewrite (rep_bit s' vw' m R' Hm). f_equal. lia.
  - by apply root_inode_ok.
  - intros Hm. by apply HD.
  - intros Hm. by apply HD.
  - intros k nm c Ek. replace (2 + Z.of_nat k) with (1 + Z.of_nat (S k)) by lia. apply file_at_facts. apply HK.
    change (((fun c => (T_FILE, c)) <$> files.*2) !! k = Some (T_FILE, c)). by rewrite !list_lookup_fmap, Ek.
  - intros [|k] [|l] a Hk Hl Hne Ha Hb; try done.
    + destruct (lookup_lt_is_Some_2 new_files (S l) ltac:(rewrite length_new_files; lia)) as [[t c] El]. apply (HK l t c El) in Hb. by apply (HR a Ha l).
    + destruct (lookup_lt_is_Some_2 new_files (S k) ltac:(rewrite length_new_files; lia)) as [[t c] El]. apply (HK k t c El) in Ha. by apply (HR a Hb k).
    + destruct (lookup_lt_is_Some_2 new_files (S k) ltac:(rewrite length_new_files; lia)) as [[t c] Ek]. apply (HK k t c Ek) in Ha.
      destruct (lookup_lt_is_Some_2 new_files (S l) ltac:(rewrite length_new_files; lia)) as [[t' c'] El]. apply (HK l t' c' El) in Hb. apply (I4 (S k) (S l) a); try done; lia.
  - intros j Hj. change NINODES with 200 in Hj. rewrite (of_inode _ _ _ _ O) by lia. rewrite I5 by lia. done.
Qed.
End result.

(** The kernel that starts on such an image: with no transaction to recover,
    its first operation sees the image as it is. *)
Lemma image_boots img vw : (forall b, image_block img b = vw b) -> (forall b, length (vw b) = BSZ) -> hdr_n (vw 2) = 0 ->
  exists t : logst bst, txd t vw none clean [] 30 29.
Proof.
  intros HI HL H0. destruct (boot_txd (map_seqZ 0 img)) as (t & [D1 D2 D3 D4 D5 D6 D7]).
  - intros b. change (length (image_block img b) = BSZ). by rewrite HI.
  - change (hdr_n (image_block img 2) = 0). by rewrite HI.
  - exists t. split; try done. intros b. rewrite D2. apply HI.
Qed.

(** C9. mkfs builds a file system the kernel can run on.  Given fewer than
    NINODES - 1 paths that can be read, whose names, cut as mkfs cuts them,
    have at most DIRSIZ bytes and no slash, and whose contents fit in a file
    each and on the disk together, the program finishes; the
    image then holds a super block with the right magic number, an empty log,
    a bitmap in which exactly the metadata and the files' blocks are in use,
    a root inode whose blocks hold the entries for [.], [..] and the files'
    names, and for every file an inode with its size and bytes; no two files
    share a block, and the first transaction of a kernel booted on the image
    sees these contents.  Unless the entries fill their blocks exactly
    (2 + the number of files a multiple of 64), the root directory satisfies
    the invariant from which the theorems on fs.c start and maps exactly those
    names to their inodes; when they do, its size covers a block it does not
    have. *)
Theorem mkfs_builds host prog img paths files :
  Forall2 (copied host) paths files ->
  Z.of_nat (length files) + 1 < NINODES ->
  nmeta + used (new_files files) <= FSSIZE ->
  runs (main host true (prog :: img :: paths)) mk0 (fun _ s' => exists vw,
    (forall b, image_block (mk_img s') b = vw b) /\ fs_image files vw /\
    exists t : logst bst, txd t vw none clean [] 30 29).
Proof.
  intros HC Hn Hsp. change NINODES with 200 in Hn. unfold main. change (BSIZE mod DISIZE =? 0) with true. change (BSIZE mod DESIZE =? 0) with true.
  unfold assert_ at 1 2. do 5 mstep. eapply runs_seq; [by apply zero_blocks_run|]. intros _ s0 ->.
  eapply runs_seq; [by apply empty_image|]. intros [] s1 I1.
  eapply runs_seq; [by apply (image_alloc s1 _ [] T_DIR I1)|]. intros rootino s2 (-> & vw2 & I2). change (1 + Z.of_nat (length [])) with 1.
  unfold assert_. cbn [Z.eqb Pos.eqb ROOTINO]. mstep. change ([] ++ [(T_DIR, [])]) with (with_root [] []) in I2.
  assert (HF : Forall (fun f => cstring f.1 /\ Z.of_nat (length f.1) <= DIRSIZ) files).
  { clear -HC. induction HC as [|p f ps fs [] _ IH]; constructor; [done|done]. }
  assert (HU : forall r r', r ++ r' = new_root files -> used (with_root r []) <= used (new_files files)).
  { intros r r' Er. pose proof (used_with_root r r' [] files.*2) as H. rewrite Er in H. exact H. }
  assert (Er : new_root files = (mk_dirent 1 [dot] ++ mk_dirent 1 [dot; dot]) ++ ent_bytes (number 2 files.*1)) by (by rewrite <- app_assoc).
  pose proof (length_new_root files) as HLr.
  eapply runs_seq; [apply (image_append s2 vw2 (with_root [] []) 0 T_DIR [] (mk_dirent 1 [dot]) I2); [done|done|]|].
  { transitivity (nmeta + used (new_files files)); [|done]. apply Z.add_le_mono_l. eapply HU. rewrite Er, <- app_assoc. reflexivity. }
  intros [] s3 (vw3 & I3). change (image s3 vw3 (with_root (mk_dirent 1 [dot]) [])) in I3.
  eapply runs_seq; [apply (image_append s3 vw3 (with_root (mk_dirent 1 [dot]) []) 0 T_DIR (mk_dirent 1 [dot]) (mk_dirent 1 [dot; dot]) I3); [done|done|]|].
  { transitivity (nmeta + used (new_files files)); [|done]. apply Z.add_le_mono_l. eapply HU. rewrite Er. reflexivity. }
  intros [] s4 (vw4 & I4). change (image s4 vw4 (with_root (mk_dirent 1 [dot] ++ mk_dirent 1 [dot; dot]) [])) in I4.
  pose proof (add_files_run host paths files HC s4 vw4 _ [] I4) as HA. cbv zeta in HA. change (2 + Z.of_nat (length [])) with 2 in HA. rewrite <- Er in HA.
  eapply runs_seq; [apply HA; [change NINODES with 200; cbn; lia|rewrite HLr; change (MAXFILE * BSIZE) with 274432; lia|done]|].
  intros [] s5 (vw5 & I5). change (image s5 vw5 (new_files files)) in I5.
  eapply runs_seq; [by apply (fix_root_image files s5 vw5 I5 HF)|]. intros [] s6 (vw6 & R6 & FI). mstep.
  eapply runs_mono; [by apply (mk_balloc_run s6 vw6)|]. intros ? s7 HI. exists vw6. split_and!; [done|done|].
  eapply image_boots; [exact HI|apply R6|apply FI].
Qed.

(** A build with one file, [user/_a], whose contents are read in two pieces. *)
Lemma mkfs_builds_witness :
  let host := fun _ : list Z => Some [replicate 1024 7; [1; 2; 3]] in
  runs (main host true [[109]; [102]; user_dir ++ [95; 97]]) mk0 (fun _ s' => exists vw,
    (forall b, image_block (mk_img s') b = vw b) /\
    dir_map vw (fino vw ROOTINO) !! [97] = Some 2 /\ i_size (fino vw 2) = 1027 /\ fbyte vw (fino vw 2) 1025 = 2).
Proof.
  intros host. eapply runs_mono.
  - apply (mkfs_builds host [109] [102] [user_dir ++ [95; 97]] [([97], replicate 1024 7 ++ [1; 2; 3])]).
    + constructor; [|constructor]. split.
      * by apply (bool_decide_unpack _).
      * reflexivity.
      * done.
      * by repeat constructor.
      * by exists [replicate 1024 7; [1; 2; 3]].
      * done.
    + done.
    + done.
  - intros _ s' (vw & HV & FI & _). exists vw. destruct FI as [_ _ _ _ _ _ FN FF _ _]. destruct (FF 0%nat _ _ eq_refl) as (_ & _ & FS & _ & _ & FB).
    split_and!; [done|by rewrite FN by done|exact FS|exact (FB 1025 ltac:(done))].
Defined.
