(* ===== verification/Ulib.v ===== *)
(** * The user library, user/ulib.c

    User programs see their own memory (one flat byte array) and the system
    calls.  The class [UserSys] is that interface: what a program's calls do
    to its memory and to the rest of the system.  ulib.c's string and memory
    routines are functions of the memory; [gets] and [stat] make calls.
    Where a C loop runs until a NUL byte the translation takes a bound on
    the number of iterations and answers [None] when it is exhausted. *)
From S2P Require Import Prelude CString Riscv.
Local Open Scope Z_scope.

(** The system calls a user program makes (user/user.h), and printf. *)
Class UserSys (U : Type) := {
  us_mem : U -> mem;
  us_set_mem : mem -> U -> U;
  us_read : Z -> Z -> Z -> M U Z;
  us_write : Z -> Z -> Z -> M U Z;
  us_open : Z -> Z -> M U Z;
  us_close : Z -> M U Z;
  us_fstat : Z -> Z -> M U Z;
  us_sbrk : Z -> M U Z;
  us_fprintf : Z -> string -> list Z -> M U unit
}.

(** The copying loop: store the byte, stop after a NUL. *)
Fixpoint strcpy_loop (fuel : nat) (m : mem) (s t : Z) : option mem :=
  match fuel with
  | O => None
  | S f =>
      let c := rd m t in
      let m' := wr m s c in
      if c =? 0 then Some m' else strcpy_loop f m' (s + 1) (t + 1)
  end.

Definition strcpy (fuel : nat) (m : mem) (s t : Z) : option (Z * mem) :=
  m' ← strcpy_loop fuel m s t; Some (s, m').

Fixpoint strcmp (fuel : nat) (m : mem) (p q : Z) : option Z :=
  match fuel with
  | O => None
  | S f =>
      if negb (rd m p =? 0) && (rd m p =? rd m q) then strcmp f m (p + 1) (q + 1)
      else Some (u8 (rd m p) - u8 (rd m q))
  end.

(** [n] is an int, returned as an unsigned int. *)
Fixpoint ulen_loop (fuel : nat) (m : mem) (s n : Z) : option Z :=
  match fuel with
  | O => None
  | S f => if rd m (s + n) =? 0 then Some (u32 n) else ulen_loop f m s (n + 1)
  end.

Definition strlen (fuel : nat) (m : mem) (s : Z) : option Z := ulen_loop fuel m s 0.

(** [i] is an int, compared with the unsigned [n]; [n] is below 2^31 in
    every call of the user programs. *)
Definition memset (m : mem) (dst c n : Z) : mem * Z := (memset_loop (Z.to_nat n) m dst (u8 c), dst).

Fixpoint strchr (fuel : nat) (m : mem) (s c : Z) : option Z :=
  match fuel with
  | O => None
  | S f =>
      if rd m s =? 0 then Some 0
      else if rd m s =? c then Some s
      else strchr f m (s + 1) c
  end.

(** [while('0' <= *s && *s <= '9') n = n*10 + *s++ - '0'], in an [int]:
    a signed overflow is undefined behaviour. *)
Fixpoint atoi_loop (fuel : nat) (m : mem) (s n : Z) : option (outcome Z) :=
  match fuel with
  | O => None
  | S f =>
      let c := rd m s in
      if (48 <=? c) && (c <=? 57) then
        if 2 ^ 31 <=? n * 10 + c then Some (Undef "signed overflow")
        else atoi_loop f m (s + 1) (n * 10 + c - 48)
      else Some (Ret n)
  end.

Definition atoi (fuel : nat) (m : mem) (s : Z) : option (outcome Z) := atoi_loop fuel m s 0.

(** The user library's [memmove] copies upwards exactly when the source is
    above the destination. *)
Definition memmove (m : mem) (vdst vsrc n : Z) : mem * Z :=
  if vdst <? vsrc then (copy_fwd (Z.to_nat n) m vdst vsrc, vdst)
  else (copy_bwd (Z.to_nat n) m (vdst + n) (vsrc + n), vdst).

Definition memcmp (m : mem) (s1 s2 n : Z) : Z := memcmp_loop (Z.to_nat n) m s1 s2.

Definition memcpy (m : mem) (dst src n : Z) : mem * Z := memmove m dst src n.

Section calls.
Context {U : Type} {US : UserSys U}.

Definition ustore (a v : Z) : M U unit := modify (fun u => us_set_mem (wr (us_mem u) a v) u).

(** A result of a bounded search in memory, as a computation. *)
Definition bounded {A} (r : option A) : M U A :=
  match r with Some a => ret a | None => stall (Chan "loop" 0) end.

(** The loop of [gets]; [c] is the address of the local variable. *)
Fixpoint gets_loop (fuel : nat) (c buf i max : Z) : M U Z :=
  match fuel with
  | O => stall (Chan "gets" 0)
  | S f =>
      if i + 1 <? max then
        let! cc := us_read 0 c 1 in
        if cc <? 1 then ret i
        else
          let! m := gets us_mem in
          ustore (buf + i) (rd m c) ;;
          if (rd m c =? 10) || (rd m c =? 13) then ret (i + 1)
          else gets_loop f c buf (i + 1) max
      else ret i
  end.

Definition ugets (c buf max : Z) : M U Z :=
  let! i := gets_loop (S (Z.to_nat max)) c buf 0 max in
  ustore (buf + i) 0 ;;
  ret buf.

Definition stat (n st : Z) : M U Z :=
  let! fd := us_open n O_RDONLY in
  if fd <? 0 then ret (-1)
  else
    let! r := us_fstat fd st in
    us_close fd ;;
    ret r.
End calls.

(** ** What a program can rely on *)

(** Descriptor [fd] is a stream of bytes that [read] delivers in pieces of
    any size (0 exactly at the end), descriptor 1 a stream that [write]
    extends: the documented behaviour of the two calls on files and pipes. *)
Class StreamLaws (U : Type) {US : UserSys U} (fd : Z) := {
  si_in : U -> list Z;
  si_out : U -> list Z;
  sl_mem : forall m u, us_mem (us_set_mem m u) = m;
  sl_in_mem : forall m u, si_in (us_set_mem m u) = si_in u;
  sl_out_mem : forall m u, si_out (us_set_mem m u) = si_out u;
  sl_read : forall u a n, 0 <= n ->
    runs (us_read fd a n) u (fun r u' => exists data,
      si_in u = data ++ si_in u' /\ si_out u' = si_out u /\
      r = Z.of_nat (length data) /\ r <= n /\ (data = [] -> n = 0 \/ si_in u = []) /\
      us_mem u' = store_bytes (us_mem u) a data);
  sl_write : forall u a n, 0 <= n ->
    runs (us_write 1 a n) u (fun r u' =>
      r = n /\ si_in u' = si_in u /\ si_out u' = si_out u ++ load_bytes (Z.to_nat n) (us_mem u) a /\
      us_mem u' = us_mem u)
}.

(** ** Lemmas *)
Lemma cstr_nul m p l : cstr m p l -> rd m (p + Z.of_nat (length l)) = 0.
Proof.
  revert p. induction l as [|c t IH]; intros p; cbn [cstr length].
  - by rewrite Z.add_0_r.
  - intros (_ & _ & H). rewrite <- (IH _ H). f_equal. lia.
Qed.

Lemma cstr_length_loop m p l k :
  cstr m p l -> forall fuel, (length l < fuel)%nat -> ulen_loop fuel m (p - k) k = Some (u32 (k + Z.of_nat (length l))).
Proof.
  revert p k. induction l as [|c t IH]; intros p k HC [|fuel] Hf; cbn [length ulen_loop cstr] in *; try lia.
  - replace (p - k + k) with p by lia. by rewrite HC, Z.add_0_r.
  - replace (p - k + k) with p by lia. destruct HC as (-> & Hc & HC). rewrite (proj2 (Z.eqb_neq _ _) Hc).
    replace (p - k) with (p + 1 - (k + 1)) by lia. rewrite (IH _ _ HC) by lia. do 2 f_equal. lia.
Qed.

(** [strchr] finds the first occurrence. *)
Lemma strchr_found m p l c rest fuel :
  cstr m p (l ++ c :: rest) -> (c ∉ l) -> (length l < fuel)%nat ->
  strchr fuel m p c = Some (p + Z.of_nat (length l)).
Proof.
  revert p fuel. induction l as [|d l IH]; intros p [|fuel] HC Hn Hf; cbn [length strchr cstr app] in *; try lia.
  - destruct HC as (-> & H & _). rewrite (proj2 (Z.eqb_neq _ _) H), Z.eqb_refl. f_equal. lia.
  - destruct HC as (-> & H & HC). rewrite (proj2 (Z.eqb_neq _ _) H).
    apply not_elem_of_cons in Hn as [Hd Hn]. rewrite (proj2 (Z.eqb_neq d c)) by done.
    rewrite IH by (done || lia). f_equal. lia.
Qed.

Lemma strchr_absent m p l c fuel :
  cstr m p l -> (c ∉ l) -> (length l < fuel)%nat -> strchr fuel m p c = Some 0.
Proof.
  revert p fuel. induction l as [|d l IH]; intros p [|fuel] HC Hn Hf; cbn [length strchr cstr] in *; try lia.
  - by rewrite HC.
  - destruct HC as (-> & H & HC). rewrite (proj2 (Z.eqb_neq _ _) H).
    apply not_elem_of_cons in Hn as [Hd Hn]. rewrite (proj2 (Z.eqb_neq d c)) by done.
    apply IH; (done || lia).
Qed.

(** The two [memmove]s agree for every overlap. *)
Lemma rd_umemmove m dst src n a :
  0 <= n ->
  rd (memmove m dst src n).1 a = if decide (dst <= a < dst + n) then rd m (src + (a - dst)) else rd m a.
Proof.
  intros Hn. unfold memmove. destruct (Z.ltb_spec dst src); cbn [fst].
  - rewrite copy_fwd_spec, Z2Nat.id by lia. done.
  - destruct (decide (dst = src)) as [->|].
    + assert (E : forall k m d, rd (copy_bwd k m d d) a = rd m a).
      { clear. induction k as [|k IH]; intros m d; cbn [copy_bwd]; [done|].
        rewrite IH, rd_wr. case_decide; [by subst|done]. }
      rewrite E. case_decide; [f_equal; lia|done].
    + rewrite copy_bwd_spec, Z2Nat.id by lia.
      repeat case_decide; try lia; try done; f_equal; lia.
Qed.

(** A program whose standard input arrives in pieces: [read] delivers at
    most the next number of [uw_chunks], and at least one byte while there
    are any.  There are no files to open. *)
Record uworld : Type := UWorld {
  uw_mem : mem; uw_in : list Z; uw_chunks : list nat; uw_out : list Z; uw_brk : Z }.

Definition uw_take (n : Z) (u : uworld) : nat :=
  (Z.to_nat n `min` (1 `max` hd 1%nat (uw_chunks u)))%nat.

#[export] Instance uworld_sys : UserSys uworld := {|
  us_mem := uw_mem;
  us_set_mem m u := UWorld m (uw_in u) (uw_chunks u) (uw_out u) (uw_brk u);
  us_read fd a n :=
    let! u := get in
    let data := take (uw_take n u) (uw_in u) in
    modify (fun _ => UWorld (store_bytes (uw_mem u) a data) (drop (uw_take n u) (uw_in u)) (tl (uw_chunks u)) (uw_out u) (uw_brk u)) ;;
    ret (Z.of_nat (length data));
  us_write fd a n :=
    modify (fun u => UWorld (uw_mem u) (uw_in u) (uw_chunks u) (uw_out u ++ load_bytes (Z.to_nat n) (uw_mem u) a) (uw_brk u)) ;;
    ret n;
  us_open _ _ := ret (-1);
  us_close _ := ret (-1);
  us_fstat _ _ := ret (-1);
  us_sbrk n := let! u := get in
    if uw_brk u + n <=? PHYSTOP - KERNBASE then
      modify (fun u => UWorld (uw_mem u) (uw_in u) (uw_chunks u) (uw_out u) (uw_brk u + n)) ;; ret (uw_brk u)
    else ret (u64 (-1));
  us_fprintf _ _ _ := ret tt
|}.

#[export] Instance uworld_stream fd : StreamLaws uworld fd.
Proof.
  refine {| si_in := uw_in; si_out := uw_out |}; try done.
  - intros u a n Hn. cbn [us_read uworld_sys]. repeat mstep. exists (take (uw_take n u) (uw_in u)). cbn.
    split_and!; try done; [by rewrite take_drop|rewrite length_take; unfold uw_take; lia|].
    intros E. apply (f_equal length) in E. rewrite length_take in E. cbn in E. unfold uw_take in E.
    destruct (uw_in u); [by right|]. cbn in E. left. lia.
  - intros u a n Hn. cbn [us_write uworld_sys]. repeat mstep. done.
Defined.
