(* ===== verification/Umalloc.v ===== *)
(** * The user-level allocator, user/umalloc.c

    The free blocks form a ring of headers in the memory of the program: 8
    bytes of [s.ptr], 4 bytes of [s.size] (in units of a header), 4 bytes of
    padding.  The static header [base] and the pointer [freep] are at the
    addresses of the same names.  The loops over the ring take a bound.

    The invariant [umalloc_inv] relates the memory to two lists of blocks:
    the free ones, sorted by address with a gap between any two, and the ones
    in use.  [umalloc_correct] says what malloc and free do to them. *)
From S2P Require Import Prelude CString Riscv Ulib.
Local Open Scope Z_scope.

Definition load32 (m : mem) (a : Z) : Z := le_dec (load_bytes 4 m a).
Definition store32 (m : mem) (a v : Z) : mem := store_bytes m a (le_enc 4 v).

(** [sizeof(Header)] *)
Definition HDR : Z := 16.

(** The fields of [union header] at address [p]. *)
Definition hptr (m : mem) (p : Z) : Z := load64 m p.
Definition hsize (m : mem) (p : Z) : Z := load32 m (p + 8).
Definition set_hptr (m : mem) (p v : Z) : mem := store64 m p v.
Definition set_hsize (m : mem) (p v : Z) : mem := store32 m (p + 8) v.

Section umalloc.
Context {U : Type} {US : UserSys U}.
Variables base freep : Z.

Definition ld_ptr (p : Z) : M U Z := gets (fun u => hptr (us_mem u) p).
Definition ld_size (p : Z) : M U Z := gets (fun u => hsize (us_mem u) p).
Definition st_ptr (p v : Z) : M U unit := modify (fun u => us_set_mem (set_hptr (us_mem u) p v) u).
Definition st_size (p v : Z) : M U unit := modify (fun u => us_set_mem (set_hsize (us_mem u) p v) u).

(** [p + n] for a [Header *p]. *)
Definition hadd (p n : Z) : Z := u64 (p + HDR * n).

(** The loop of [free]: the node after which [bp] belongs. *)
Fixpoint free_find (fuel : nat) (bp p : Z) : M U Z :=
  match fuel with
  | O => stall (Chan "free" 0)
  | S f =>
      let! nx := ld_ptr p in
      if (p <? bp) && (bp <? nx) then ret p
      else if (nx <=? p) && ((p <? bp) || (bp <? nx)) then ret p
      else free_find f bp nx
  end.

(** The part of [free] after the loop. *)
Definition free_link (bp p : Z) : M U unit :=
  let! bn := ld_size bp in
  let! nx := ld_ptr p in
  (if hadd bp bn =? nx then
     let! q := ld_ptr p in
     let! qn := ld_size q in
     let! bn := ld_size bp in
     st_size bp (u32 (bn + qn)) ;;
     let! q := ld_ptr p in
     let! qq := ld_ptr q in
     st_ptr bp qq
   else
     st_ptr bp nx) ;;
  let! pn := ld_size p in
  (if hadd p pn =? bp then
     let! bn := ld_size bp in
     st_size p (u32 (pn + bn)) ;;
     let! bq := ld_ptr bp in
     st_ptr p bq
   else st_ptr p bp) ;;
  st_ptr freep p.

Definition free (fuel : nat) (ap : Z) : M U unit :=
  let bp := hadd ap (-1) in
  let! f := ld_ptr freep in
  let! p := free_find fuel bp f in
  free_link bp p.

(** [sbrk] takes an int; it answers -1 as a pointer when it fails. *)
Definition morecore (fuel : nat) (nu : Z) : M U Z :=
  let nu := if nu <? 4096 then 4096 else nu in
  let! p := us_sbrk (s32 (u64 (nu * HDR))) in
  if p =? u64 (-1) then ret 0
  else
    st_size p nu ;;
    free fuel (hadd p 1) ;;
    ld_ptr freep.

(** The block [p] is large enough: take it or its tail. *)
Definition malloc_take (nunits prevp p : Z) : M U Z :=
  let! sz := ld_size p in
  let! p := (if sz =? nunits then
               let! nx := ld_ptr p in
               st_ptr prevp nx ;;
               ret p
             else
               st_size p (u32 (sz - nunits)) ;;
               let! sz := ld_size p in
               let p := hadd p sz in
               st_size p nunits ;;
               ret p) in
  st_ptr freep prevp ;;
  ret (hadd p 1).

Fixpoint malloc_loop (fuel : nat) (nunits prevp p : Z) : M U Z :=
  match fuel with
  | O => stall (Chan "malloc" 0)
  | S f =>
      let! sz := ld_size p in
      if nunits <=? sz then malloc_take nunits prevp p
      else
        let! fp := ld_ptr freep in
        if p =? fp then
          let! p := morecore fuel nunits in
          if p =? 0 then ret 0
          else
            let! nx := ld_ptr p in
            malloc_loop f nunits p nx
        else
          let! nx := ld_ptr p in
          malloc_loop f nunits p nx
  end.

Definition malloc_units (nbytes : Z) : Z := u32 ((nbytes + HDR - 1) / HDR + 1).

Definition malloc (fuel : nat) (nbytes : Z) : M U Z :=
  let nunits := malloc_units nbytes in
  let! f := ld_ptr freep in
  let! prevp := (if f =? 0 then
                   st_ptr freep base ;;
                   st_ptr base base ;;
                   st_size base 0 ;;
                   ret base
                 else ret f) in
  let! p := ld_ptr prevp in
  malloc_loop fuel nunits prevp p.
End umalloc.

(** What [sbrk] promises (kernel/sysproc.c, [growproc]): a program that asks
    for [n] more bytes gets the addresses from the old break on, or nothing;
    its memory is kept, and as pages are allocated at once it never becomes
    larger than the physical memory. *)
Class SbrkLaws (U : Type) {US : UserSys U} := {
  us_brk : U -> Z;
  sb_mem : forall m u, us_mem (us_set_mem m u) = m;
  sb_brk_mem : forall m u, us_brk (us_set_mem m u) = us_brk u;
  sb_grow : forall u n, 0 <= n ->
    runs (us_sbrk n) u (fun r u' =>
      (forall a, a < us_brk u -> rd (us_mem u') a = rd (us_mem u) a) /\
      (r = u64 (-1) /\ us_brk u' = us_brk u \/
       r = us_brk u /\ us_brk u' = us_brk u + n /\ us_brk u' <= PHYSTOP - KERNBASE))
}.

#[export] Instance uworld_sbrk : SbrkLaws uworld.
Proof.
  refine {| us_brk := uw_brk |}; try done.
  intros u n Hn. cbn [us_sbrk uworld_sys]. repeat mstep.
  destruct (Z.leb_spec (uw_brk u + n) (PHYSTOP - KERNBASE)); repeat mstep; cbn; split; auto.
Defined.

(** ** Blocks *)

(** A block: the address of its header and its size in headers. *)
Abbreviation block := (Z * Z)%type.

Definition in_block (x : Z) (b : block) : Prop := b.1 <= x < b.1 + HDR * b.2.
Definition covers (l : list block) (x : Z) : Prop := Exists (in_block x) l.

(** Blocks in the order of their addresses, the first above [lo], with a gap
    between any two. *)
Fixpoint spaced (lo : Z) (l : list block) : Prop :=
  match l with
  | [] => True
  | b :: t => lo < b.1 /\ 0 <= b.2 /\ spaced (b.1 + HDR * b.2) t
  end.

Fixpoint disjoint_blocks (l : list block) : Prop :=
  match l with
  | [] => True
  | b :: t => (forall x, in_block x b -> ~ covers t x) /\ disjoint_blocks t
  end.

(** The headers of [l] are linked, the last one to [e]. *)
Definition first_addr (l : list block) (e : Z) : Z :=
  match l with [] => e | b :: _ => b.1 end.

Fixpoint chained (m : mem) (l : list block) (e : Z) : Prop :=
  match l with
  | [] => True
  | b :: t => hsize m b.1 = b.2 /\ hptr m b.1 = first_addr t e /\ chained m t e
  end.

(** *** Lemmas: headers in memory *)
Lemma hptr_set_hptr m a v : 0 <= v < 2 ^ 64 -> hptr (set_hptr m a v) a = v.
Proof. apply load_store64. Qed.

Lemma hptr_ext m m' a : (forall i, a <= i < a + 8 -> rd m' i = rd m i) -> hptr m' a = hptr m a.
Proof. apply load64_ext. Qed.

Lemma hsize_ext m m' a : (forall i, a + 8 <= i < a + 12 -> rd m' i = rd m i) -> hsize m' a = hsize m a.
Proof. intros H. unfold hsize, load32. f_equal. apply load_bytes_ext. intros i Hi. apply H. lia. Qed.

Lemma rd_set_hptr m a v i : ~ (a <= i < a + 8) -> rd (set_hptr m a v) i = rd m i.
Proof. apply rd_store64_out. Qed.

Lemma rd_set_hsize m a v i : ~ (a + 8 <= i < a + 12) -> rd (set_hsize m a v) i = rd m i.
Proof. intros H. apply rd_store_bytes_out. rewrite length_le_enc. lia. Qed.

Lemma hsize_set_hsize m a v : 0 <= v < 2 ^ 32 -> hsize (set_hsize m a v) a = v.
Proof.
  intros H. unfold hsize, set_hsize, load32, store32.
  replace 4%nat with (length (le_enc 4 v)) at 1 by apply length_le_enc.
  rewrite load_store_bytes, le_dec_enc. by apply Z.mod_small.
Qed.

Lemma hptr_set_hptr_ne m a v b : a + 8 <= b \/ b + 8 <= a -> hptr (set_hptr m a v) b = hptr m b.
Proof. intros H. apply hptr_ext. intros i Hi. apply rd_set_hptr. lia. Qed.

Lemma hsize_set_hptr m a v b : a <= b \/ b + 12 <= a -> hsize (set_hptr m a v) b = hsize m b.
Proof. intros H. apply hsize_ext. intros i Hi. apply rd_set_hptr. lia. Qed.

Lemma hptr_set_hsize m a v b : a + 12 <= b \/ b <= a -> hptr (set_hsize m a v) b = hptr m b.
Proof. intros H. apply hptr_ext. intros i Hi. apply rd_set_hsize. lia. Qed.

Lemma hsize_set_hsize_ne m a v b : a + 4 <= b \/ b + 4 <= a -> hsize (set_hsize m a v) b = hsize m b.
Proof. intros H. apply hsize_ext. intros i Hi. apply rd_set_hsize. lia. Qed.

(** Loads of headers after stores to headers. *)
Ltac hmem := repeat first
  [ rewrite hptr_set_hptr by lia | rewrite hsize_set_hsize by lia
  | rewrite hptr_set_hptr_ne by lia | rewrite hsize_set_hptr by lia
  | rewrite hptr_set_hsize by lia | rewrite hsize_set_hsize_ne by lia ].

(** Bytes outside the headers written. *)
Ltac hframe := repeat first [rewrite rd_set_hptr by lia | rewrite rd_set_hsize by lia].

(** *** Lemmas: lists of blocks *)
Lemma covers_app l1 l2 x : covers (l1 ++ l2) x <-> covers l1 x \/ covers l2 x.
Proof. apply Exists_app. Qed.

Lemma covers_cons b l x : covers (b :: l) x <-> in_block x b \/ covers l x.
Proof. apply Exists_cons. Qed.

Lemma covers_nil x : covers [] x <-> False.
Proof. apply Exists_nil. Qed.

#[export] Instance covers_perm : Proper ((≡ₚ) ==> (=) ==> iff) covers.
Proof. intros l l' Hl x _ <-. unfold covers. by rewrite Hl. Qed.

Lemma disjoint_blocks_perm l l' : l ≡ₚ l' -> disjoint_blocks l -> disjoint_blocks l'.
Proof.
  induction 1 as [|b l l' Hl IH|b c l|]; cbn [disjoint_blocks]; [done| | |by auto].
  - intros [H1 H2]. split; [|by apply IH]. intros x Hx. rewrite <- Hl. by apply H1.
  - setoid_rewrite covers_cons. intros (H1 & H2 & H3). split_and!; try done.
    + intros x Hc [Hb|Hx]; [|by eapply H2]. apply (H1 x Hb). by left.
    + intros x Hb Hx. apply (H1 x Hb). by right.
Qed.

Lemma covers_elem b l x : b ∈ l -> in_block x b -> covers l x.
Proof. intros. apply Exists_exists. eauto. Qed.

Lemma spaced_app lo l1 b l2 :
  spaced lo (l1 ++ b :: l2) -> spaced lo l1 /\ lo < b.1 /\ 0 <= b.2 /\ spaced (b.1 + HDR * b.2) l2 /\ Forall (fun c => c.1 + HDR * c.2 < b.1) l1.
Proof.
  revert lo. induction l1 as [|c l1 IH]; intros lo; cbn [app spaced]; [by intros (?&?&?)|].
  intros (Hc & Hn & H). apply IH in H as (H1 & H2 & H3 & H4 & H5).
  split_and!; try done; [unfold HDR in *; lia|]. constructor; [unfold HDR in *; lia|done].
Qed.

Lemma spaced_above lo l : spaced lo l -> Forall (fun c => lo < c.1) l.
Proof.
  revert lo. induction l as [|c l IH]; intros lo; cbn [spaced]; [by constructor|].
  intros (Hc & Hn & H). constructor; [lia|]. apply IH in H. eapply Forall_impl; [exact H|]. cbn beta. intros ?. unfold HDR. lia.
Qed.

Lemma spaced_weaken lo lo' l : lo' <= lo -> spaced lo l -> spaced lo' l.
Proof. destruct l; cbn [spaced]; [done|]. intros ? (?&?&?). split_and!; try done. lia. Qed.

Lemma spaced_join lo l1 b l2 :
  spaced lo l1 -> lo < b.1 -> 0 <= b.2 -> spaced (b.1 + HDR * b.2) l2 -> Forall (fun c => c.1 + HDR * c.2 < b.1) l1 ->
  spaced lo (l1 ++ b :: l2).
Proof.
  revert lo. induction l1 as [|c l1 IH]; intros lo H1 H2 H3 H4 H5; cbn [app spaced] in *; [done|].
  apply Forall_cons in H5 as [H5 H6]. destruct H1 as (?&?&?). split_and!; try done. apply IH; done.
Qed.

(** The node after which an address belongs. *)
Lemma spaced_split lo l a :
  spaced lo l -> exists l1 l2, l = l1 ++ l2 /\ Forall (fun c => c.1 <= a) l1 /\ Forall (fun c => a < c.1) l2.
Proof.
  revert lo. induction l as [|c l IH]; intros lo; cbn [spaced]; [exists [], []; by split_and!|].
  intros (Hc & Hn & H). destruct (Z.le_gt_cases c.1 a).
  - destruct (IH _ H) as (l1 & l2 & -> & H1 & H2). exists (c :: l1), l2. split_and!; [done|by constructor|done].
  - exists [], (c :: l). split_and!; [done|constructor|]. constructor; [lia|].
    apply spaced_above in H. eapply Forall_impl; [exact H|]. cbn beta. intros ?. unfold HDR. lia.
Qed.

Lemma chained_app m l1 l2 e : chained m (l1 ++ l2) e <-> chained m l1 (first_addr l2 e) /\ chained m l2 e.
Proof.
  induction l1 as [|b l1 IH]; cbn [app chained]; [tauto|].
  replace (first_addr (l1 ++ l2) e) with (first_addr l1 (first_addr l2 e)) by (by destruct l1).
  rewrite IH. tauto.
Qed.

Lemma chained_ext m m' l e :
  (forall b, b ∈ l -> hptr m' b.1 = hptr m b.1 /\ hsize m' b.1 = hsize m b.1) -> chained m l e -> chained m' l e.
Proof.
  induction l as [|b l IH]; cbn [chained]; [done|]. intros H (H1 & H2 & H3).
  destruct (H b) as [-> ->]; [by left|]. split_and!; try done. apply IH; [|done].
  intros c Hc. apply H. by right.
Qed.

Lemma chained_last m l b e e' : chained m (l ++ [b]) e -> hptr m b.1 = e' -> chained m (l ++ [b]) e'.
Proof. rewrite !chained_app. cbn [chained first_addr]. intros (H1 & H2 & _ & _) <-. by split_and!. Qed.

(** *** Freeing, on lists: [b] goes between [p] and [l2], joined with its
    neighbours where they touch *)
Definition glue_right (b : block) (l2 : list block) : list block :=
  match l2 with
  | c :: t => if b.1 + HDR * b.2 =? c.1 then (b.1, b.2 + c.2) :: t else b :: l2
  | [] => [b]
  end.

Definition glue (p b : block) (l2 : list block) : list block :=
  match glue_right b l2 with
  | c :: t => if p.1 + HDR * p.2 =? c.1 then (p.1, p.2 + c.2) :: t else p :: c :: t
  | [] => [p]
  end.

Lemma glue_right_head b l2 : exists n t, glue_right b l2 = (b.1, n) :: t.
Proof. destruct b as [a n], l2 as [|c t]; cbn; [eauto|]. case_match; eauto. Qed.

Lemma in_block_join x a b :
  0 <= a.2 -> 0 <= b.2 -> a.1 + HDR * a.2 = b.1 -> in_block x (a.1, a.2 + b.2) <-> in_block x a \/ in_block x b.
Proof. unfold in_block, HDR; cbn [fst snd]. lia. Qed.

Lemma covers_glue p b l2 x : 0 <= p.2 -> 0 <= b.2 -> Forall (fun c => 0 <= c.2) l2 ->
  covers (glue p b l2) x <-> in_block x p \/ in_block x b \/ covers l2 x.
Proof.
  intros Hp Hb Hl.
  assert (HR : covers (glue_right b l2) x <-> in_block x b \/ covers l2 x).
  { destruct l2 as [|c t]; cbn [glue_right]; [rewrite covers_cons; tauto|].
    apply Forall_cons in Hl as [Hc _]. case_match eqn:E; rewrite !covers_cons; [|done].
    apply Z.eqb_eq in E. pose proof (in_block_join x b c Hb Hc E). tauto. }
  unfold glue. destruct (glue_right b l2) as [|c t] eqn:E.
  { destruct (glue_right_head b l2) as (?&?&?). congruence. }
  case_match eqn:Ep; rewrite ?covers_cons in *; [|tauto].
  apply Z.eqb_eq in Ep.
  assert (0 <= c.2).
  { destruct l2 as [|d t']; cbn [glue_right] in E; [by simplify_eq|].
    apply Forall_cons in Hl as [Hd _]. case_match; simplify_eq; cbn; lia. }
  pose proof (in_block_join x p c Hp H Ep). tauto.
Qed.

(** Joining keeps the order and the gaps. *)
Lemma spaced_glue lo p b l2 :
  lo < p.1 -> 0 <= p.2 -> 0 <= b.2 -> p.1 + HDR * p.2 <= b.1 -> spaced (p.1 + HDR * p.2) l2 ->
  Forall (fun c => b.1 + HDR * b.2 <= c.1) l2 -> spaced lo (glue p b l2).
Proof.
  intros Hlo Hp Hb Hpb Hs Hl.
  assert (HR : exists n t, glue_right b l2 = (b.1, n) :: t /\ 0 <= n /\ spaced (b.1 + HDR * n) t).
  { destruct b as [a n], l2 as [|c t]; cbn [glue_right]; [by exists n, []|]. cbn [fst snd] in *.
    apply Forall_cons in Hl as [Hc Hl]. cbn [spaced] in Hs. destruct Hs as (? & Hc2 & Hs).
    case_match eqn:E; [apply Z.eqb_eq in E|apply Z.eqb_neq in E]; do 2 eexists; (split; [reflexivity|]).
    - split; [lia|]. replace (a + HDR * (n + c.2)) with (c.1 + HDR * c.2) by lia. done.
    - split; [done|]. cbn [spaced]. split_and!; [lia|done|done]. }
  destruct HR as (n & t & E & Hn & Ht). unfold glue. rewrite E. cbn [fst snd].
  case_match eqn:Ep; [apply Z.eqb_eq in Ep|apply Z.eqb_neq in Ep]; cbn [spaced fst snd].
  - split_and!; [done|lia|]. replace (p.1 + HDR * (p.2 + n)) with (b.1 + HDR * n) by lia. done.
  - split_and!; try done. lia.
Qed.

Lemma glue_sizes p b l2 q : 0 <= p.2 -> 0 < b.2 -> Forall (fun c => 0 < c.2) l2 -> q ∈ glue p b l2 -> q = p \/ 0 < q.2.
Proof.
  intros Hp Hb Hl. rewrite Forall_forall in Hl.
  unfold glue. destruct l2 as [|c t]; cbn [glue_right]; repeat case_match; simplify_eq;
    rewrite ?elem_of_cons, ?elem_of_nil; intros; destruct_or?; subst; auto; right; cbn; try done;
    try (pose proof (Hl c (list_elem_of_here _ _))); try lia; apply Hl; by right.
Qed.

(** ** The invariant *)
Section correctness.
Context {U : Type} {US : UserSys U} {SB : SbrkLaws U}.
(** [base] and [freep] are static data, below the heap, which starts at
    [hlo]. *)
Variables base freep hlo : Z.

Definition statics : Prop :=
  0 < base /\ 0 < freep /\ base + 16 <= hlo /\ freep + 8 <= hlo /\ (freep + 8 <= base \/ base + 16 <= freep).

Definition block_ok (brk : Z) (b : block) : Prop := hlo <= b.1 /\ 0 < b.2 /\ b.1 + HDR * b.2 <= brk.

Record heap_ok (m : mem) (brk : Z) (fl used : list block) : Prop := HeapOk {
  ho_brk : hlo <= brk <= PHYSTOP - KERNBASE;
  ho_free : Forall (block_ok brk) fl;
  ho_used : Forall (block_ok brk) used;
  ho_spaced : spaced base fl;
  ho_apart : forall x, covers fl x -> ~ covers used x;
  ho_disjoint : disjoint_blocks used;
  ho_sizes : Forall (fun b => hsize m b.1 = b.2) used
}.

(** The ring goes through [base] and the free blocks, and [freep] points
    into it. *)
Definition nodes (fl : list block) : list block := (base, 0) :: fl.

Definition ring (m : mem) (fl : list block) : Prop :=
  chained m (nodes fl) base /\ hptr m freep ∈ (nodes fl).*1.

(** Before the first [malloc] there is no ring. *)
Definition umalloc_inv (u : U) (fl used : list block) : Prop :=
  heap_ok (us_mem u) (us_brk u) fl used /\
  (ring (us_mem u) fl \/ hptr (us_mem u) freep = 0 /\ fl = [] /\ used = []).

(** The bytes of the program that belong neither to the free blocks [l] nor
    to the allocator's static data are kept. *)
Definition frame (l : list block) (brk : Z) (m m' : mem) : Prop :=
  forall x, x < brk -> ~ covers l x -> ~ (base <= x < base + 16) -> ~ (freep <= x < freep + 8) -> rd m' x = rd m x.

(** ** Walking the ring *)
Ltac hstep := unfold ld_ptr, ld_size, st_ptr, st_size; repeat (mstep; rewrite ?sb_mem).

Context (Hst : statics).

Lemma node_split m brk fl used L p l2 :
  heap_ok m brk fl used -> nodes fl = L ++ p :: l2 ->
  base <= p.1 < 2 ^ 63 /\ 0 <= p.2 < 2 ^ 24 /\ (freep + 8 <= p.1 \/ p.1 + 16 <= freep) /\ p.1 + HDR * p.2 <= brk /\
  (p = (base, 0) \/ hlo <= p.1 /\ 0 < p.2) /\
  Forall (fun c => c.1 + 16 <= p.1) L /\
  Forall (fun c => p.1 + 16 <= c.1 /\ p.1 + HDR * p.2 < c.1 /\ 0 < c.2 < 2 ^ 24 /\ c.1 < 2 ^ 63) l2 /\
  spaced (p.1 + HDR * p.2) l2.
Proof.
  intros [[Hb1 Hb2] Hf _ Hs _ _ _] E. destruct Hst as (S1 & S2 & S3 & S4 & S5).
  assert (Hs' : spaced (base - 1) (L ++ p :: l2)).
  { rewrite <- E. cbn [nodes spaced fst snd]. split_and!; [lia|lia|]. by rewrite Z.add_0_r. }
  apply spaced_app in Hs' as (_ & Hp1 & Hp2 & Hs2 & HL). unfold block_ok, PHYSTOP, KERNBASE, HDR in *.
  assert (Hin : forall c, c ∈ L ++ p :: l2 -> c = (base, 0) \/ hlo <= c.1 /\ 0 < c.2 /\ c.1 + 16 * c.2 <= brk).
  { rewrite <- E. intros c [->|Hc]%elem_of_cons; [by left|]. right. rewrite Forall_forall in Hf. auto. }
  destruct (Hin p) as [Hp|Hp]; [apply elem_of_app; right; by left|..];
    (split_and!; [by subst; cbn; lia|by subst; cbn; lia|by subst; cbn; lia|by subst; cbn; lia|by subst; cbn; lia|by subst; cbn; lia
       |tauto|..|done]).
  all: rewrite Forall_forall in *.
  all: try (intros c Hc; destruct (Hin c) as [->|?]; [apply elem_of_app; by left|specialize (HL _ Hc); subst; cbn in *; lia..]).
  all: intros c Hc; apply spaced_above in Hs2; rewrite Forall_forall in Hs2; specialize (Hs2 _ Hc); cbn beta in Hs2.
  all: destruct (Hin c) as [->|?]; [apply elem_of_app; right; by right|subst; cbn in *; lia..].
Qed.

(** From a node at or before its place, [free]'s loop stops at [p]. *)
Lemma free_find_forward a p l2 seg : forall u brk fl used L fuel (Q : Z -> U -> Prop),
  heap_ok (us_mem u) brk fl used -> chained (us_mem u) (nodes fl) base ->
  nodes fl = L ++ seg ++ p :: l2 -> p.1 < a -> base < a -> Forall (fun c => a < c.1) l2 -> (length seg < fuel)%nat ->
  Q p.1 u -> runs (free_find fuel a (first_addr seg p.1)) u Q.
Proof.
  induction seg as [|q seg IH]; intros u brk fl used L [|fuel] Q Hh Hl E Hp Hb H2 Hf HQ; cbn [length] in Hf; try lia;
    cbn [free_find first_addr]; hstep.
  - rewrite E in Hl. cbn [app] in *. apply chained_app in Hl as (_ & _ & -> & _).
    rewrite (proj2 (Z.ltb_lt p.1 a)) by done.
    destruct l2 as [|c t]; cbn [first_addr].
    + destruct (node_split _ _ _ _ _ _ _ Hh E) as ((? & _) & _).
      rewrite (proj2 (Z.ltb_ge a base)), (proj2 (Z.leb_le base p.1)) by lia. by apply runs_ret.
    + apply Forall_cons in H2 as [Hc _]. rewrite (proj2 (Z.ltb_lt a c.1)) by done. by apply runs_ret.
  - pose proof Hl as Hl'. rewrite E in Hl'. cbn [app] in E, Hl'. apply chained_app in Hl' as (_ & _ & -> & _).
    destruct (node_split _ _ _ _ _ _ _ Hh E) as (_ & _ & _ & _ & _ & _ & H' & _).
    replace (first_addr (seg ++ p :: l2) base) with (first_addr seg p.1) by (by destruct seg).
    assert (q.1 < first_addr seg p.1 <= p.1) as [H1 H3].
    { rewrite Forall_forall in H'. destruct seg as [|r seg]; cbn [app first_addr].
      - destruct (H' p) as [? _]; [by left|lia].
      - split; [destruct (H' r) as [? _]; [by left|lia]|].
        change (L ++ q :: (r :: seg) ++ p :: l2) with (L ++ [q] ++ r :: seg ++ p :: l2) in E. rewrite app_assoc in E.
        destruct (node_split _ _ _ _ _ _ _ Hh E) as (_ & _ & _ & _ & _ & _ & H'' & _).
        rewrite Forall_forall in H''. destruct (H'' p) as [? _]; [apply elem_of_app; right; by left|lia]. }
    rewrite (proj2 (Z.ltb_ge a (first_addr seg p.1))), (proj2 (Z.leb_gt (first_addr seg p.1) q.1)) by lia.
    rewrite andb_false_r. cbn [andb].
    eapply (IH _ _ _ _ (L ++ [q])); try done; [by rewrite <- app_assoc|lia].
Qed.

(** From a node after its place, the loop first goes round to [base]. *)
Lemma free_find_around a p l2 : forall u brk fl used L0 fuel (Q : Z -> U -> Prop),
  heap_ok (us_mem u) brk fl used -> chained (us_mem u) (nodes fl) base ->
  nodes fl = L0 ++ p :: l2 -> p.1 < a -> base < a -> Forall (fun c => a < c.1) l2 ->
  (S (length fl) <= fuel)%nat -> Q p.1 u -> forall f, f ∈ (nodes fl).*1 -> runs (free_find fuel a f) u Q.
Proof.
  intros u brk fl used L0 fuel Q Hh Hl E Hp Hb H2 Hf HQ f (q & -> & Hq)%list_elem_of_fmap.
  assert (Hlen : length (nodes fl) = S (length fl)) by done. rewrite E, length_app in Hlen. cbn [length] in Hlen.
  assert (Hbase : forall g, (length L0 < g)%nat -> runs (free_find g a base) u Q).
  { intros g Hg. replace base with (first_addr L0 p.1).
    - by eapply (free_find_forward a p l2 L0 u brk fl used []).
    - unfold nodes in E. destruct L0; cbn in E; by simplify_eq. }
  rewrite E in Hq. apply elem_of_app in Hq as [Hq|[-> |Hq]%elem_of_cons].
  - apply list_elem_of_split in Hq as (A & B & ->).
    apply (free_find_forward a p l2 (q :: B) u brk fl used A); try done.
    + by rewrite E, <- app_assoc.
    + rewrite length_app in Hlen. cbn [length] in *. lia.
  - eapply (free_find_forward a p l2 [] u brk fl used L0); try done. cbn. lia.
  - apply list_elem_of_split in Hq as (A & B & ->). rewrite length_app in Hlen. cbn [length] in Hlen.
    assert (Hf' : (length B + S (length L0) < fuel)%nat) by lia. clear Hf Hlen.
    rewrite Forall_app, Forall_cons in H2. destruct H2 as (_ & Ha & H2).
    assert (E' : nodes fl = (L0 ++ p :: A) ++ q :: B) by (by rewrite E, <- app_assoc). clear E.
    revert fuel Hf' q Ha E'. generalize (L0 ++ p :: A). induction B as [|r B IH]; intros L1 [|fuel] Hf' q Ha E'; try (cbn in Hf'; lia);
      cbn [free_find]; hstep; rewrite E' in Hl; apply chained_app in Hl as (_ & _ & Hn & Hl'); rewrite Hn; cbn [first_addr length] in *;
      rewrite (proj2 (Z.ltb_ge q.1 a)) by lia; cbn [andb orb].
    + rewrite (proj2 (Z.ltb_ge a base)), andb_false_r by lia. apply Hbase. lia.
    + apply Forall_cons in H2 as [Hr H2].
      destruct (node_split _ _ _ _ _ _ _ Hh E') as (_ & _ & _ & _ & _ & _ & H' & _).
      apply Forall_cons in H' as [[H' _] _]. rewrite (proj2 (Z.leb_gt r.1 q.1)) by lia. cbn [andb].
      apply (IH H2 (L1 ++ [q])); [lia|done|by rewrite <- app_assoc].
Qed.

(** A block in use lies between the nodes around it. *)
Lemma used_between m brk fl used b L p l2 :
  heap_ok m brk fl (b :: used) -> nodes fl = L ++ p :: l2 -> p.1 < b.1 -> Forall (fun c => b.1 < c.1) l2 ->
  p.1 + HDR * p.2 <= b.1 /\ p.1 + 16 <= b.1 /\ Forall (fun c => b.1 + HDR * b.2 <= c.1) l2 /\
  hlo <= b.1 < 2 ^ 63 /\ 0 < b.2 < 2 ^ 24 /\ b.1 + HDR * b.2 <= brk < 2 ^ 63.
Proof.
  intros Hh E Hp H2. destruct (node_split _ _ _ _ _ _ _ Hh E) as (_ & Hp2 & _ & _ & Hk & _ & Hl & _).
  destruct Hh as [Hb _ Hu _ Ha _ _]. apply Forall_cons in Hu as [Hu _]. unfold block_ok in Hu.
  assert (Hin : forall c x, c ∈ L ++ p :: l2 -> in_block x c -> in_block x b -> False).
  { rewrite <- E. intros c x [->|Hc]%elem_of_cons H1 H3.
    - unfold in_block, HDR in H1. cbn in H1. lia.
    - apply (Ha x); [by eapply covers_elem|by left]. }
  unfold in_block, HDR, PHYSTOP, KERNBASE in *. destruct Hst as (S1 & S2 & S3 & S4 & S5). split_and!; try lia.
  - destruct (Z.le_gt_cases (p.1 + 16 * p.2) b.1) as [|Hgt]; [done|].
    exfalso. apply (Hin p b.1); [apply elem_of_app; right; by left|lia..].
  - destruct Hk as [-> |[? ?]]; cbn in *; [lia|].
    destruct (Z.le_gt_cases (p.1 + 16 * p.2) b.1) as [|Hgt]; [lia|].
    exfalso. apply (Hin p b.1); [apply elem_of_app; right; by left|lia..].
  - rewrite Forall_forall in *. intros c Hc. destruct (Z.le_gt_cases (b.1 + 16 * b.2) c.1) as [|Hgt]; [done|].
    specialize (H2 _ Hc). specialize (Hl _ Hc). cbn in H2, Hl.
    exfalso. apply (Hin c c.1); [apply elem_of_app; right; by right|lia..].
Qed.

Lemma chained_tail_ext m m' l e :
  Forall (fun c => hptr m' c.1 = hptr m c.1 /\ hsize m' c.1 = hsize m c.1) l -> chained m l e -> chained m' l e.
Proof. rewrite Forall_forall. apply chained_ext. Qed.

Lemma hadd_eq x n : 0 <= x < 2 ^ 63 -> 0 <= n < 2 ^ 32 -> hadd x n = x + HDR * n.
Proof. intros Hx Hn. apply u64_small. unfold HDR. lia. Qed.

(** The first half of [free]'s stores joins the block with its successor. *)
Lemma link_right_runs u b p l2 (Q : unit -> U -> Prop) :
  hsize (us_mem u) b.1 = b.2 -> hptr (us_mem u) p = first_addr l2 base -> chained (us_mem u) l2 base ->
  p + 16 <= b.1 < 2 ^ 63 -> 0 < b.2 < 2 ^ 24 -> 0 < base < b.1 ->
  Forall (fun c => b.1 + HDR * b.2 <= c.1 /\ 0 < c.2 < 2 ^ 24 /\ c.1 < 2 ^ 63) l2 ->
  (forall n t u', glue_right b l2 = (b.1, n) :: t -> 0 <= n < 2 ^ 25 -> us_brk u' = us_brk u ->
     hsize (us_mem u') b.1 = n -> hptr (us_mem u') b.1 = first_addr t base -> chained (us_mem u) t base ->
     (exists l1, l2 = l1 ++ t) ->
     (forall x, ~ (b.1 <= x < b.1 + 16) -> rd (us_mem u') x = rd (us_mem u) x) -> Q tt u') ->
  runs (if hadd b.1 b.2 =? first_addr l2 base then
          let! q := ld_ptr p in
          let! qn := ld_size q in
          let! bn := ld_size b.1 in
          st_size b.1 (u32 (bn + qn)) ;;
          let! q := ld_ptr p in
          let! qq := ld_ptr q in
          st_ptr b.1 qq
        else st_ptr b.1 (first_addr l2 base)) u Q.
Proof.
  intros Hs Hp Hl Hb Hb2 Hbase HF HQ. rewrite hadd_eq by lia. unfold HDR in *.
  destruct l2 as [|c t]; cbn [first_addr glue_right] in *.
  - rewrite (proj2 (Z.eqb_neq (b.1 + 16 * b.2) base)) by lia. hstep.
    destruct b as [a n]. cbn [fst snd] in *. apply (HQ n []); rewrite ?sb_mem, ?sb_brk_mem; try done; try lia.
    + by hmem.
    + by hmem.
    + by exists [].
    + intros x Hx. by hframe.
  - apply Forall_cons in HF as [(F1 & F2 & F3) HF]. destruct (Z.eqb_spec (b.1 + 16 * b.2) c.1) as [Ec|Ec].
    + destruct Hl as (Hc & Hcp & Hl). hstep. rewrite Hp, Hs, Hc, u32_small by lia.
      rewrite (hptr_set_hsize _ b.1 _ p) by lia. rewrite Hp, (hptr_set_hsize _ b.1 _ c.1), Hcp by lia.
      assert (0 <= first_addr t base < 2 ^ 64).
      { destruct t as [|d t]; cbn [first_addr]; [lia|]. apply Forall_cons in HF as [? _]. lia. }
      eapply HQ; rewrite ?sb_mem, ?sb_brk_mem; unfold HDR; try rewrite (proj2 (Z.eqb_eq _ _) Ec); try done; try lia.
      * by hmem.
      * by hmem.
      * by exists [c].
      * intros x Hx. by hframe.
    + hstep. destruct b as [a n]. cbn [fst snd] in *.
      eapply HQ; rewrite ?sb_mem, ?sb_brk_mem; unfold HDR; cbn [fst snd]; try rewrite (proj2 (Z.eqb_neq _ _) Ec); try done; try lia.
      * by hmem.
      * by hmem.
      * by exists [].
      * intros x Hx. by hframe.
Qed.

(** The second half joins it with its predecessor. *)
Lemma link_left_runs u b n p t (Q : unit -> U -> Prop) :
  hsize (us_mem u) p.1 = p.2 -> hsize (us_mem u) b = n -> hptr (us_mem u) b = first_addr t base ->
  0 <= p.1 -> p.1 + 16 <= b < 2 ^ 63 -> 0 <= p.2 < 2 ^ 24 -> 0 <= n < 2 ^ 25 -> 0 <= first_addr t base < 2 ^ 64 ->
  (freep + 8 <= p.1 \/ p.1 + 16 <= freep) -> freep + 8 <= b -> 0 < freep ->
  (forall u', us_brk u' = us_brk u -> hptr (us_mem u') freep = p.1 ->
     let r := if p.1 + HDR * p.2 =? b then [(p.1, p.2 + n)] else [p; (b, n)] in
     chained (us_mem u') r (first_addr t base) ->
     (forall x, ~ (p.1 <= x < p.1 + 16) -> ~ (freep <= x < freep + 8) -> rd (us_mem u') x = rd (us_mem u) x) -> Q tt u') ->
  runs (let! pn := ld_size p.1 in
        (if hadd p.1 pn =? b then
           let! bn := ld_size b in
           st_size p.1 (u32 (pn + bn)) ;;
           let! bq := ld_ptr b in
           st_ptr p.1 bq
         else st_ptr p.1 b) ;;
        st_ptr freep p.1) u Q.
Proof.
  intros Hp Hb Hbp H1 H2 H3 H4 H5 H6 H7 H8 HQ. hstep. rewrite Hp, hadd_eq by lia.
  destruct (Z.eqb_spec (p.1 + HDR * p.2) b) as [Ec|Ec]; hstep.
  - hmem. rewrite Hb, Hbp, u32_small by lia. apply HQ; rewrite ?sb_mem, ?sb_brk_mem; try done.
    + by hmem.
    + cbn [chained fst snd first_addr]. split_and!; try done; by hmem.
    + intros x Hx1 Hx2. by hframe.
  - apply HQ; rewrite ?sb_mem, ?sb_brk_mem; try done.
    + by hmem.
    + cbn [chained fst snd first_addr]. split_and!; try done; by hmem.
    + intros x Hx1 Hx2. by hframe.
Qed.

Lemma glue_big p b l2 : 0 <= p.2 -> Forall (fun c => 0 < c.2) l2 -> exists c, c ∈ glue p b l2 /\ b.2 <= c.2.
Proof.
  intros Hp Hl.
  assert (exists n t, glue_right b l2 = (b.1, n) :: t /\ b.2 <= n) as (n & t & E & Hn).
  { destruct b as [a n], l2 as [|c t]; cbn [glue_right]; [by eexists _, _|]. apply Forall_cons in Hl as [Hc _]. cbn [fst snd] in *.
    case_match; do 2 eexists; (split; [reflexivity|lia]). }
  unfold glue. rewrite E. cbn [fst snd]. case_match; eexists; (split; [|]).
  - by left.
  - cbn. lia.
  - right. by left.
  - cbn. lia.
Qed.

Lemma length_glue p b l2 : (length (glue p b l2) <= S (S (length l2)))%nat.
Proof.
  assert (length (glue_right b l2) <= S (length l2))%nat.
  { destruct l2 as [|c t]; cbn [glue_right]; [done|]. case_match; cbn; lia. }
  unfold glue. destruct (glue_right b l2); cbn in *; [lia|]. case_match; cbn; lia.
Qed.

Lemma node_cases fl c : c ∈ nodes fl -> c = (base, 0) \/ c ∈ fl.
Proof. intros Hc. by apply elem_of_cons in Hc. Qed.

Lemma spaced_nodes fl : spaced (base - 1) (nodes fl) <-> spaced base fl.
Proof. cbn [nodes spaced fst snd]. rewrite Z.add_0_r. split; [tauto|]. intros. split_and!; [lia|lia|done]. Qed.

Lemma covers_nodes fl x : covers (nodes fl) x <-> covers fl x.
Proof. unfold nodes. rewrite covers_cons. unfold in_block, HDR; cbn. split; [intros [?|?]; [lia|done]|by right]. Qed.

(** Where a block in use belongs in the ring. *)
Lemma free_place m brk fl used b :
  heap_ok m brk fl (b :: used) ->
  exists L p l2, nodes fl = L ++ p :: l2 /\ p.1 < b.1 /\ Forall (fun c => b.1 < c.1) l2.
Proof.
  intros Hh. destruct Hst as (S1 & S2 & S3 & S4 & S5).
  pose proof (ho_used _ _ _ _ Hh) as Hu. apply Forall_cons in Hu as [(U1 & U2 & U3) _].
  destruct (spaced_split (base - 1) (nodes fl) b.1) as (l1 & l2 & E & H1 & H2); [apply spaced_nodes, Hh|].
  assert (exists L p, l1 = L ++ [p]) as (L & p & ->).
  { destruct l1 as [|c l1] using rev_ind; [|eauto]. exfalso. cbn in E. subst l2. unfold nodes in H2.
    apply Forall_cons in H2 as [H2 _]. cbn in H2. lia. }
  rewrite <- app_assoc in E. cbn [app] in E. apply Forall_app in H1 as [_ H1]. apply Forall_cons in H1 as [H1 _].
  exists L, p, l2. split_and!; try done.
  destruct (decide (p.1 = b.1)) as [Ep|]; [|cbn in H1; lia]. exfalso.
  destruct (node_cases fl p) as [->|Hp]; [rewrite E; apply elem_of_app; right; by left|cbn in Ep; lia|].
  pose proof (ho_free _ _ _ _ Hh) as Hf. rewrite Forall_forall in Hf. destruct (Hf p Hp) as (? & ? & ?).
  apply (ho_apart _ _ _ _ Hh b.1).
  - apply (covers_elem p); [done|]. unfold in_block, HDR. lia.
  - left. unfold in_block, HDR. lia.
Qed.

Lemma glue_head p b l2 : first_addr (glue p b l2) p.1 = p.1 /\ glue p b l2 <> [].
Proof. unfold glue. destruct (glue_right_head b l2) as (n & t & ->). case_match; done. Qed.

(** The nodes after freeing are [base] and an ordered list of blocks. *)
Lemma glue_nodes m brk fl used b L p l2 :
  heap_ok m brk fl (b :: used) -> nodes fl = L ++ p :: l2 -> p.1 < b.1 -> Forall (fun c => b.1 < c.1) l2 ->
  exists fl', nodes fl' = L ++ glue p b l2 /\ spaced base fl' /\ Forall (fun c => 0 < c.2) fl' /\
    (forall x, covers fl' x <-> covers fl x \/ in_block x b).
Proof.
  intros Hh E Hp H2. destruct Hst as (S1 & S2 & S3 & S4 & S5).
  pose proof (ho_used _ _ _ _ Hh) as Hu. apply Forall_cons in Hu as [(U1 & U2 & U3) _].
  pose proof (ho_free _ _ _ _ Hh) as Hf. rewrite Forall_forall in Hf.
  destruct (used_between _ _ _ _ _ _ _ _ Hh E Hp H2) as (B1 & B2 & B3 & B4 & B5 & B6).
  destruct (node_split _ _ _ _ _ _ _ Hh E) as (Np & Np2 & Nf & _ & Nb & NL & Nl & Ns).
  assert (HL2 : Forall (fun c : block => 0 < c.2) l2) by (eapply Forall_impl; [exact Nl|]; cbn; tauto).
  assert (Hs' : spaced (base - 1) (L ++ glue p b l2)).
  { pose proof (proj2 (spaced_nodes fl) (ho_spaced _ _ _ _ Hh)) as Hs. rewrite E in Hs.
    apply spaced_app in Hs as (HsL & Hlp & _ & _ & HLp).
    pose proof (spaced_glue (p.1 - 1) p b l2 ltac:(lia) ltac:(lia) ltac:(lia) B1 Ns B3) as Hg.
    destruct (glue p b l2) as [|c t] eqn:Eg; [by rewrite app_nil_r|].
    destruct (glue_head p b l2) as [Ec _]. rewrite Eg in Ec. cbn [first_addr spaced] in Ec, Hg.
    apply spaced_join; try tauto; [lia|]. by rewrite Ec. }
  assert (exists fl', nodes fl' = L ++ glue p b l2) as (fl' & E').
  { unfold nodes in E. destruct L as [|d L]; cbn in E; simplify_eq; [|by exists (L ++ glue p b l2)].
    exists (glue_right b l2). unfold glue. destruct (glue_right_head b l2) as (n & t & ->). cbn [fst snd].
    rewrite (proj2 (Z.eqb_neq _ _)); [done|]. cbn in *. unfold HDR. lia. }
  exists fl'. rewrite <- E', spaced_nodes in Hs'. split_and!; try done.
  - rewrite Forall_forall. intros c Hc. assert (Hc' : c ∈ nodes fl') by (by right). rewrite E' in Hc'.
    assert (Hne : c.1 <> base).
    { apply spaced_above in Hs'. rewrite Forall_forall in Hs'. specialize (Hs' c Hc). cbn in Hs'. lia. }
    apply elem_of_app in Hc' as [Hc'|Hc'].
    + destruct (node_cases fl c) as [->|Hcf]; [rewrite E; apply elem_of_app; by left|done|]. by apply Hf in Hcf as (?&?&?).
    + destruct (glue_sizes p b l2 c) as [->|]; try done; try lia. destruct Nb as [->|]; [done|tauto].
  - intros x. rewrite <- (covers_nodes fl'), <- (covers_nodes fl), E', E, !covers_app, covers_cons.
    rewrite covers_glue; [tauto|lia|lia|]. eapply Forall_impl; [exact HL2|]. cbn. lia.
Qed.

(** Nonempty blocks that cover only what valid blocks cover are valid. *)
Lemma block_ok_covers brk l l' :
  Forall (block_ok brk) l -> Forall (fun c => 0 < c.2) l' -> (forall x, covers l' x -> covers l x) -> Forall (block_ok brk) l'.
Proof.
  rewrite !Forall_forall. intros Hl Hn Hc c Hin. specialize (Hn c Hin). cbn in Hn.
  assert (Hx : forall x, covers l x -> hlo <= x < brk).
  { intros x. unfold covers. rewrite Exists_exists. intros (d & Hd & Hxd). apply Hl in Hd as (?&?&?). unfold in_block in Hxd. lia. }
  assert (H1 : hlo <= c.1 < brk) by (apply Hx, Hc, (covers_elem c); [done|unfold in_block, HDR; lia]).
  assert (H2 : hlo <= c.1 + HDR * c.2 - 1 < brk) by (apply Hx, Hc, (covers_elem c); [done|unfold in_block, HDR; lia]).
  unfold block_ok. lia.
Qed.

(** What [free] makes of the heap. *)
Record freed (u u' : U) (fl used : list block) (b : block) (fl' : list block) : Prop := Freed {
  fd_brk : us_brk u' = us_brk u;
  fd_heap : heap_ok (us_mem u') (us_brk u') fl' used;
  fd_ring : ring (us_mem u') fl';
  fd_covers : forall x, covers fl' x <-> covers fl x \/ in_block x b;
  fd_frame : frame (b :: fl) (us_brk u) (us_mem u) (us_mem u');
  fd_length : (length fl' <= S (length fl))%nat;
  fd_big : exists c, c ∈ fl' /\ b.2 <= c.2
}.

(** Blocks that stay in use keep their headers. *)
Lemma used_sizes m m' brk l used :
  Forall (block_ok brk) used -> Forall (fun b => hsize m b.1 = b.2) used ->
  (forall x, covers l x -> ~ covers used x) ->
  frame l brk m m' -> Forall (fun b => hsize m' b.1 = b.2) used.
Proof.
  destruct Hst as (S1 & S2 & S3 & S4 & S5). rewrite !Forall_forall. intros Hok Hsz Ha Hfr c Hc.
  rewrite <- (Hsz c Hc). apply hsize_ext. intros i Hi. destruct (Hok c Hc) as (? & ? & ?). unfold HDR in *.
  apply Hfr; try lia. intros Hx. apply (Ha i Hx), (covers_elem c); [done|]. unfold in_block, HDR. lia.
Qed.

(** The stores of [free] make the ring of [glue]. *)
Lemma free_link_runs u fl used b L p l2 (Q : unit -> U -> Prop) :
  heap_ok (us_mem u) (us_brk u) fl (b :: used) -> chained (us_mem u) (nodes fl) base ->
  nodes fl = L ++ p :: l2 -> p.1 < b.1 -> Forall (fun c => b.1 < c.1) l2 ->
  (forall u', us_brk u' = us_brk u -> chained (us_mem u') (L ++ glue p b l2) base -> hptr (us_mem u') freep = p.1 ->
     (forall x, ~ (p.1 <= x < p.1 + 16) -> ~ (b.1 <= x < b.1 + 16) -> ~ (freep <= x < freep + 8) ->
        rd (us_mem u') x = rd (us_mem u) x) -> Q tt u') ->
  runs (free_link freep b.1 p.1) u Q.
Proof.
  intros Hh Hl E Hp H2 HQ.
  destruct (used_between _ _ _ _ _ _ _ _ Hh E Hp H2) as (B1 & B2 & B3 & B4 & B5 & B6).
  destruct (node_split _ _ _ _ _ _ _ Hh E) as (Np & Np2 & Nf & Npb & Nb & NL & Nl & Ns).
  destruct Hst as (S1 & S2 & S3 & S4 & S5). unfold free_link.
  assert (Hsz : hsize (us_mem u) b.1 = b.2) by (apply (Forall_inv (ho_sizes _ _ _ _ Hh))).
  rewrite E in Hl. apply chained_app in Hl as (HL & Hpn & Hpp & Hl2). cbn [first_addr] in HL.
  unfold ld_size at 1, ld_ptr at 1. do 2 mstep. rewrite Hsz, Hpp. apply runs_bind, link_right_runs; try done; try lia.
  { rewrite Forall_forall in *. intros c Hc. specialize (B3 c Hc). specialize (Nl c Hc). cbn in B3, Nl. lia. }
  intros n t u1 Er Hn Hb1 Hs1 Hp1 Hlt (l1 & ->) Hr1.
  assert (Ht : Forall (fun c => b.1 + 16 <= c.1 /\ c.1 < 2 ^ 63) t).
  { apply Forall_app in B3 as [_ B3]. apply Forall_app in Nl as [_ Nl]. rewrite Forall_forall in *. intros c Hc.
    specialize (B3 c Hc). specialize (Nl c Hc). unfold HDR in *. cbn in B3, Nl. lia. }
  apply link_left_runs with (n := n) (t := t); try done; try lia.
  { rewrite <- Hpn. apply hsize_ext. intros i Hi. apply Hr1. lia. }
  { destruct t as [|c t]; cbn [first_addr]; [lia|]. apply Forall_inv in Ht. cbn in Ht. lia. }
  intros u2 Hb2 Hf2 r Hlk Hr2. subst r. apply HQ; try done; [congruence| |intros; rewrite Hr2, Hr1 by done; done].
  assert (Hsame : forall q, (q + 16 <= p.1 \/ b.1 + 16 <= q) -> (freep + 8 <= q \/ q + 16 <= freep) ->
    hptr (us_mem u2) q = hptr (us_mem u) q /\ hsize (us_mem u2) q = hsize (us_mem u) q).
  { intros q Hq Hqf. split; [apply hptr_ext|apply hsize_ext]; intros i Hi; rewrite Hr2, Hr1 by lia; done. }
  assert (HLt : chained (us_mem u2) t base).
  { eapply chained_tail_ext; [|exact Hlt]. eapply Forall_impl; [exact Ht|]. intros c [Hc _]. apply Hsame; lia. }
  assert (HLL : chained (us_mem u2) L p.1).
  { eapply chained_tail_ext; [|exact HL]. rewrite Forall_forall. intros c Hc.
    rewrite Forall_forall in NL. specialize (NL c Hc). cbn in NL.
    apply list_elem_of_split in Hc as (A & B & ->). rewrite <- app_assoc in E.
    destruct (node_split _ _ _ _ _ _ _ Hh E) as (_ & _ & Hcf & _). apply Hsame; lia. }
  unfold glue. rewrite Er. cbn [fst snd]. apply chained_app.
  case_match; cbn [chained first_addr fst snd] in Hlk |- *; tauto.
Qed.

Lemma free_runs u fl used b fuel (Q : unit -> U -> Prop) :
  heap_ok (us_mem u) (us_brk u) fl (b :: used) -> ring (us_mem u) fl -> (S (length fl) <= fuel)%nat ->
  (forall u' fl', freed u u' fl used b fl' -> Q tt u') ->
  runs (free freep fuel (b.1 + 16)) u Q.
Proof.
  intros Hh [Hl Hfp] Hf HQ. destruct (free_place _ _ _ _ _ Hh) as (L & p & l2 & E & Hp & H2).
  destruct (glue_nodes _ _ _ _ _ _ _ _ Hh E Hp H2) as (fl' & E' & Hs' & Hn' & Hcov).
  destruct (used_between _ _ _ _ _ _ _ _ Hh E Hp H2) as (B1 & B2 & B3 & B4 & B5 & B6).
  destruct (node_split _ _ _ _ _ _ _ Hh E) as (Np & Np2 & Nf & Npb & Nb & NL & Nl & Ns).
  assert (Hfree : Forall (block_ok (us_brk u)) (b :: fl)) by (constructor; [by apply (Forall_inv (ho_used _ _ _ _ Hh))|apply Hh]).
  destruct Hst as (S1 & S2 & S3 & S4 & S5).
  unfold free. replace (hadd (b.1 + 16) (-1)) with b.1 by (unfold hadd, HDR; rewrite u64_small; lia).
  unfold ld_ptr at 1. mstep. eapply runs_seq.
  { eapply (free_find_around b.1 p l2 u _ fl _ L fuel (fun r v => r = p.1 /\ v = u)); try done. lia. }
  intros r v [-> ->]. eapply free_link_runs; try done.
  intros u' Hb' Hl' Hf' Hr'. apply (HQ u' fl').
  assert (Hfr : frame (b :: fl) (us_brk u) (us_mem u) (us_mem u')).
  { intros x Hx Hc Hxb Hxf. rewrite covers_cons in Hc. apply Hr'; try done.
    - intros Hxp. destruct Nb as [-> |[? ?]]; [done|]. apply Hc. right. apply covers_nodes. rewrite E.
      apply (covers_elem p); [apply elem_of_app; right; by left|]. unfold in_block, HDR. lia.
    - intros Hxp. apply Hc. left. unfold in_block, HDR. lia. }
  pose proof (ho_disjoint _ _ _ _ Hh) as [Hd1 Hd2]. pose proof (ho_apart _ _ _ _ Hh) as Ha. setoid_rewrite covers_cons in Ha.
  assert (Ha' : forall x, covers (b :: fl) x -> ~ covers used x).
  { intros x [Hx|Hx]%covers_cons; [by apply Hd1|]. intros Hu. apply (Ha x Hx). by right. }
  constructor; try done.
  - rewrite Hb'. pose proof (Forall_inv_tail (ho_used _ _ _ _ Hh)) as Hu. constructor; try done.
    + apply Hh.
    + eapply block_ok_covers; [exact Hfree|done|]. intros x Hx. rewrite covers_cons. apply Hcov in Hx. tauto.
    + intros x Hx. apply Ha'. rewrite covers_cons. apply Hcov in Hx. tauto.
    + eapply used_sizes; [done| |exact Ha'|done]. by apply (Forall_inv_tail (ho_sizes _ _ _ _ Hh)).
  - split; [by rewrite E'|]. rewrite Hf', E', fmap_app. apply elem_of_app. right.
    destruct (glue_head p b l2) as [Hh1 Hh2]. destruct (glue p b l2); [done|]. cbn in Hh1. rewrite <- Hh1. by left.
  - assert (Hlen : length (nodes fl') = length (L ++ glue p b l2)) by (by rewrite E').
    assert (Hlen' : length (nodes fl) = length (L ++ p :: l2)) by (by rewrite E).
    cbn [nodes length] in Hlen, Hlen'. rewrite length_app in *. cbn [length] in *. pose proof (length_glue p b l2). lia.
  - destruct (glue_big p b l2) as (c & Hc & Hcb); [lia|eapply Forall_impl; [exact Nl|]; cbn; tauto|]. exists c. split; [|done].
    assert (Hc' : c ∈ nodes fl') by (rewrite E'; apply elem_of_app; by right).
    apply node_cases in Hc' as [-> |Hc']; [cbn in Hcb; lia|done].
Qed.

(** *** Taking a block *)

(** What remains of a block when its last [n] headers are taken. *)
Definition rest_of (d : block) (n : Z) : list block := if d.2 =? n then [] else [(d.1, d.2 - n)].

Lemma covers_rest d n x : 0 < n <= d.2 ->
  in_block x d <-> covers (rest_of d n) x \/ in_block x (d.1 + HDR * (d.2 - n), n).
Proof.
  intros Hn. unfold rest_of. case_match eqn:E; rewrite ?covers_cons, covers_nil; unfold in_block, HDR; cbn [fst snd]; lia.
Qed.

Lemma spaced_outside lo A d Y x : spaced lo (A ++ d :: Y) -> Forall (fun c => 0 <= c.2) A -> covers (A ++ Y) x -> ~ in_block x d.
Proof.
  intros Hs HA Hc Hx. apply spaced_app in Hs as (_ & _ & _ & H2 & H1). apply spaced_above in H2.
  unfold covers in Hc. apply Exists_exists in Hc as (c & [Hc|Hc]%elem_of_app & Hxc); rewrite Forall_forall in *; unfold in_block, HDR in *.
  - specialize (H1 c Hc). cbn in H1. lia.
  - specialize (H2 c Hc). cbn in H2. lia.
Qed.

Lemma take_nodes m brk fl used A d Y n :
  heap_ok m brk fl used -> nodes fl = A ++ d :: Y -> 0 < n <= d.2 ->
  exists fl', nodes fl' = A ++ rest_of d n ++ Y /\ spaced base fl' /\ Forall (fun c => 0 < c.2) fl' /\
    (length fl' <= length fl)%nat /\
    (forall x, covers fl x <-> covers fl' x \/ in_block x (d.1 + HDR * (d.2 - n), n)) /\
    (forall x, covers fl' x -> ~ in_block x (d.1 + HDR * (d.2 - n), n)).
Proof.
  intros Hh E Hn. destruct (node_split _ _ _ _ _ _ _ Hh E) as (Np & Np2 & Nf & Npb & Nb & NL & Nl & Ns).
  pose proof (proj2 (spaced_nodes fl) (ho_spaced _ _ _ _ Hh)) as Hs. rewrite E in Hs.
  assert (Hs' : spaced (base - 1) (A ++ rest_of d n ++ Y)).
  { unfold rest_of. apply spaced_app in Hs as (HA & Hd & _ & HY & HAd). case_match; cbn [app].
    - assert (HY' := HY). destruct Y as [|y Y]; [by rewrite app_nil_r|]. cbn [spaced] in HY. apply spaced_join; try tauto; [unfold HDR in *; lia|].
      eapply Forall_impl; [exact HAd|]. intros c Hc. unfold HDR in *. lia.
    - apply spaced_join; cbn [fst snd]; try done; [lia|]. eapply spaced_weaken; [|exact HY]. unfold HDR. lia. }
  assert (exists fl', nodes fl' = A ++ rest_of d n ++ Y) as (fl' & E').
  { unfold nodes in E. destruct A as [|c A]; cbn in E; simplify_eq; [cbn in Hn; lia|]. by exists (A ++ rest_of d n ++ Y). }
  assert (HAn : Forall (fun c : block => 0 <= c.2) (A ++ d :: Y)).
  { rewrite <- E. constructor; [done|]. eapply Forall_impl; [apply (ho_free _ _ _ _ Hh)|]. intros c (? & ? & ?). lia. }
  assert (Hcov : forall x, covers fl x <-> covers fl' x \/ in_block x (d.1 + HDR * (d.2 - n), n)).
  { intros x. rewrite <- (covers_nodes fl'), <- (covers_nodes fl), E', E, !covers_app, covers_cons, (covers_rest d n) by done. tauto. }
  exists fl'. rewrite <- E', spaced_nodes in Hs'. split_and!; try done.
  - rewrite Forall_forall. intros c Hc. assert (Hc' : c ∈ nodes fl') by (by right). rewrite E' in Hc'.
    assert (c.1 <> base). { apply spaced_above in Hs'. rewrite Forall_forall in Hs'. specialize (Hs' c Hc). cbn in Hs'. lia. }
    pose proof (ho_free _ _ _ _ Hh) as Hf. rewrite Forall_forall in Hf.
    assert (c ∈ A \/ c ∈ rest_of d n \/ c ∈ Y) as Hc3 by (rewrite !elem_of_app in Hc'; tauto).
    destruct Hc3 as [Hc3|[Hc3|Hc3]].
    + destruct (node_cases fl c) as [->|Hcf]; [rewrite E; apply elem_of_app; by left|done|]. by apply Hf in Hcf as (?&?&?).
    + unfold rest_of in Hc3. destruct (Z.eqb_spec d.2 n); [by apply elem_of_nil in Hc3|].
      apply list_elem_of_singleton in Hc3 as ->. cbn. lia.
    + rewrite Forall_forall in Nl. destruct (Nl c Hc3) as (_ & _ & ? & _). lia.
  - assert (Hlen : length (nodes fl') = length (A ++ rest_of d n ++ Y)) by (by rewrite E').
    assert (Hlen' : length (nodes fl) = length (A ++ d :: Y)) by (by rewrite E).
    cbn [nodes length] in Hlen, Hlen'. rewrite !length_app in *. cbn [length] in *.
    unfold rest_of in Hlen. case_match; cbn in Hlen; lia.
  - intros x Hx Hxd. rewrite <- covers_nodes, E', !covers_app in Hx.
    assert (Hd : in_block x d) by (apply (covers_rest d n x Hn); by right).
    destruct Hx as [Hx|[Hx|Hx]].
    + apply Forall_app in HAn as [HAn _]. eapply (spaced_outside _ _ _ _ x Hs HAn); [|done]. apply covers_app. by left.
    + unfold rest_of in Hx. case_match; rewrite ?covers_cons, covers_nil in Hx; [done|]. unfold in_block, HDR in *; cbn in *. lia.
    + apply Forall_app in HAn as [HAn _]. eapply (spaced_outside _ _ _ _ x Hs HAn); [|done]. apply covers_app. by right.
Qed.

(** What taking a block makes of the heap. *)
Record taken (u u' : U) (fl used : list block) (b : block) (fl' : list block) : Prop := Taken {
  tk_brk : us_brk u' = us_brk u;
  tk_heap : heap_ok (us_mem u') (us_brk u') fl' (b :: used);
  tk_ring : ring (us_mem u') fl';
  tk_covers : forall x, covers fl x <-> covers fl' x \/ in_block x b;
  tk_frame : frame fl (us_brk u) (us_mem u) (us_mem u')
}.

(** The stores of [malloc]: [d], the successor of [c], is unlinked or gives
    its tail. *)
Lemma take_stores u A c d Y n (Q : Z -> U -> Prop) :
  chained (us_mem u) (A ++ c :: d :: Y) base ->
  Forall (fun e => e.1 + 16 <= c.1 /\ (freep + 8 <= e.1 \/ e.1 + 16 <= freep)) A ->
  0 < base <= c.1 -> c.1 + 16 <= d.1 -> d.1 + HDR * d.2 < 2 ^ 63 -> 0 < n <= d.2 -> d.2 < 2 ^ 24 -> freep + 8 <= d.1 -> 0 < freep ->
  (freep + 8 <= c.1 \/ c.1 + 16 <= freep) ->
  Forall (fun e => d.1 + HDR * d.2 < e.1 /\ e.1 < 2 ^ 63) Y ->
  (forall u', us_brk u' = us_brk u -> chained (us_mem u') (A ++ c :: rest_of d n ++ Y) base -> hptr (us_mem u') freep = c.1 ->
     hsize (us_mem u') (d.1 + HDR * (d.2 - n)) = n ->
     (forall x, ~ (c.1 <= x < c.1 + 16) -> ~ in_block x d -> ~ (freep <= x < freep + 8) -> rd (us_mem u') x = rd (us_mem u) x) ->
     Q (d.1 + HDR * (d.2 - n) + 16) u') ->
  runs (malloc_take freep n c.1 d.1) u Q.
Proof.
  intros Hl HA Hb Hcd Hd Hn Hd2 Hfd Hf0 Hfc HY HQ. unfold in_block, HDR in *.
  apply chained_app in Hl as (HL & Hcs & Hcp & Hds & Hdp & HLY). cbn [first_addr] in HL, Hcp.
  assert (HY0 : 0 <= first_addr Y base < 2 ^ 64).
  { unfold HDR in *. destruct Y as [|y Y]; cbn [first_addr]; [lia|]. apply Forall_inv in HY. cbn in HY. lia. }
  assert (Hout : forall u', (forall x, ~ (c.1 <= x < c.1 + 16) -> ~ (d.1 <= x < d.1 + 16 * d.2) -> ~ (freep <= x < freep + 8) -> rd (us_mem u') x = rd (us_mem u) x) ->
    chained (us_mem u') A c.1 /\ chained (us_mem u') Y base).
  { intros u' Hr. unfold in_block, HDR in *. split; eapply chained_tail_ext; try done.
    - eapply Forall_impl; [exact HA|]. intros e [He1 He2]. split; [apply hptr_ext|apply hsize_ext]; intros i Hi; apply Hr; lia.
    - eapply Forall_impl; [exact HY|]. intros e [He1 He2]. split; [apply hptr_ext|apply hsize_ext]; intros i Hi; apply Hr; lia. }
  unfold malloc_take, rest_of in *. unfold ld_size at 1. mstep. rewrite Hds.
  destruct (Z.eqb_spec d.2 n) as [En|En].
  - hstep. rewrite Hdp. rewrite hadd_eq by (unfold HDR in *; lia).
    replace (d.1 + HDR * 1) with (d.1 + 16 * (d.2 - n) + 16) by (unfold HDR; lia).
    match goal with |- Q _ ?v => set (u' := v) end.
    assert (Hr : forall x, ~ (c.1 <= x < c.1 + 16) -> ~ (d.1 <= x < d.1 + 16 * d.2) -> ~ (freep <= x < freep + 8) -> rd (us_mem u') x = rd (us_mem u) x).
    { intros x Hx1 _ Hx2. unfold u'. rewrite sb_mem. by hframe. }
    destruct (Hout u' Hr) as [HA' HY']. apply HQ; try done; unfold u'; rewrite ?sb_mem, ?sb_brk_mem; try done.
    + unfold u' in HA', HY'. rewrite sb_mem in HA', HY'. apply chained_app. cbn [chained app first_addr]. split_and!; try done; by hmem.
    + by hmem.
    + replace (d.1 + 16 * (d.2 - n)) with d.1 by lia. hmem. congruence.
  - unfold HDR in *. hstep. rewrite u32_small, hsize_set_hsize by lia. rewrite (hadd_eq d.1), hadd_eq by (unfold HDR; lia).
    unfold HDR. replace (d.1 + 16 * (d.2 - n) + 16 * 1) with (d.1 + 16 * (d.2 - n) + 16) by lia.
    match goal with |- Q _ ?v => set (u' := v) end.
    assert (Hr : forall x, ~ (c.1 <= x < c.1 + 16) -> ~ (d.1 <= x < d.1 + 16 * d.2) -> ~ (freep <= x < freep + 8) -> rd (us_mem u') x = rd (us_mem u) x).
    { intros x Hx1 Hx2 Hx3. unfold u'. rewrite sb_mem. by hframe. }
    destruct (Hout u' Hr) as [HA' HY']. apply HQ; try done; unfold u'; rewrite ?sb_mem, ?sb_brk_mem; try done.
    + unfold u' in HA', HY'. rewrite sb_mem in HA', HY'. apply chained_app. cbn [chained app first_addr fst snd]. split_and!; try done; by hmem.
    + by hmem.
    + by hmem.
Qed.

Lemma malloc_take_runs u fl used A c d Y n (Q : Z -> U -> Prop) :
  heap_ok (us_mem u) (us_brk u) fl used -> chained (us_mem u) (nodes fl) base ->
  nodes fl = A ++ c :: d :: Y -> 0 < n <= d.2 ->
  (forall a u' fl', taken u u' fl used (a, n) fl' -> 0 < a -> Q (a + 16) u') ->
  runs (malloc_take freep n c.1 d.1) u Q.
Proof.
  intros Hh Hl E Hn HQ. rewrite E in Hl. set (b := (d.1 + HDR * (d.2 - n), n)).
  assert (E2 : nodes fl = (A ++ [c]) ++ d :: Y) by (by rewrite E, <- app_assoc).
  destruct (node_split _ _ _ _ _ _ _ Hh E) as (Nc & Nc2 & Nfc & Ncb & Nbc & NLc & Nlc & _).
  destruct (node_split _ _ _ _ _ _ _ Hh E2) as (Nd & Nd2 & Nfd & Ndb & Nbd & NLd & Nld & _).
  destruct (take_nodes _ _ _ _ _ _ _ n Hh E2 Hn) as (fl' & E' & Hs' & Hn' & _ & Hcov & Hapart). fold b in Hcov, Hapart.
  pose proof (ho_brk _ _ _ _ Hh) as Hbrk. pose proof (ho_apart _ _ _ _ Hh) as Ha.
  destruct Hst as (S1 & S2 & S3 & S4 & S5). unfold PHYSTOP, KERNBASE in Hbrk.
  destruct Nbd as [->|[Nd3 Nd4]]; [cbn in Hn; lia|].
  apply Forall_app in NLd as [NLd Hcd]. apply Forall_inv in Hcd. cbn in Hcd.
  apply (take_stores u A c d Y n); try done; try lia; try (unfold HDR in *; lia).
  { rewrite Forall_forall. intros e He. rewrite Forall_forall in NLc. specialize (NLc e He). cbn in NLc. split; [lia|].
    apply list_elem_of_split in He as (A1 & A2 & ->). rewrite <- app_assoc in E.
    destruct (node_split _ _ _ _ _ _ _ Hh E) as (_ & _ & ? & _). done. }
  { eapply Forall_impl; [exact Nld|]. intros e (?&?&?&?). lia. }
  intros u' Hb' Hl' Hf' Hsz Hr. eapply (HQ _ u' fl'); [|unfold HDR in *; lia]. fold b.
  assert (Hfr : frame fl (us_brk u) (us_mem u) (us_mem u')).
  { intros x Hx Hc Hxb Hxf. rewrite <- covers_nodes, E, covers_app, !covers_cons in Hc. apply Hr; try done; [|tauto].
    intros Hxp. destruct Nbc as [-> |[? ?]]; [done|]. apply Hc. right. left. unfold in_block, HDR. lia. }
  assert (Hbu : forall x, in_block x b -> ~ covers used x) by (intros x Hx; apply Ha, Hcov; by right).
  assert (Hbok : block_ok (us_brk u) b) by (unfold block_ok, b, HDR in *; cbn [fst snd]; lia).
  constructor; try done.
  - rewrite Hb'. constructor; try done.
    + eapply block_ok_covers; [apply (ho_free _ _ _ _ Hh)|done|]. intros x Hx. apply Hcov. by left.
    + constructor; [done|apply Hh].
    + intros x Hx. rewrite covers_cons. intros [Hxb|Hxu]; [by apply (Hapart x Hx)|]. apply (Ha x); [|done]. apply Hcov. by left.
    + split; [done|apply Hh].
    + constructor; [done|]. eapply used_sizes; [apply Hh|apply Hh|exact Ha|done].
  - rewrite <- app_assoc in E'. cbn [app] in E'. split; [by rewrite E'|].
    rewrite Hf', E', fmap_app. apply elem_of_app. right. by left.
Qed.

Lemma chained_size m l e b : chained m l e -> b ∈ l -> hsize m b.1 = b.2.
Proof.
  induction l as [|c l IH]; cbn [chained]; [by intros _ ?%elem_of_nil|].
  intros (H1 & _ & H2) [-> |Hb]%elem_of_cons; auto.
Qed.

(** The successor of a node, unless it is [base], follows it in the list. *)
Lemma succ_split m fl c d :
  chained m (nodes fl) base -> c ∈ nodes fl -> d ∈ nodes fl -> hptr m c.1 = d.1 -> d.1 <> base ->
  exists A Y, nodes fl = A ++ c :: d :: Y.
Proof.
  intros Hl Hc Hd Hp Hb. pose proof (chained_size _ _ _ _ Hl Hd) as Hs.
  apply list_elem_of_split in Hc as (A & B & E). rewrite E in Hl.
  pose proof Hl as (_ & _ & Hp' & _)%chained_app. rewrite Hp in Hp'.
  destruct B as [|e Y]; cbn [first_addr] in Hp'; [done|]. exists A, Y. rewrite E. repeat f_equal.
  apply chained_size with (b := e) in Hl; [|apply elem_of_app; right; right; by left].
  destruct d, e. cbn in *. congruence.
Qed.

Lemma sized_not_base m brk fl used d : heap_ok m brk fl used -> d ∈ nodes fl -> 0 < d.2 -> d.1 <> base.
Proof.
  intros Hh Hd Hs. apply node_cases in Hd as [->|Hd]; [cbn in Hs; lia|].
  pose proof (spaced_above _ _ (ho_spaced _ _ _ _ Hh)) as Ha. rewrite Forall_forall in Ha. specialize (Ha d Hd). cbn in Ha. lia.
Qed.

(** Walking the ring from [prevp] to the node [g] of [freep]: the first block
    that is large enough is taken, or all are too small and [morecore] runs. *)
Lemma malloc_loop_walk u fl used n g path : forall c fuel (Q : Z -> U -> Prop),
  heap_ok (us_mem u) (us_brk u) fl used -> chained (us_mem u) (nodes fl) base -> 0 < n ->
  c ∈ nodes fl -> g ∈ nodes fl -> hptr (us_mem u) freep = g.1 ->
  Forall (fun d => d ∈ nodes fl /\ d.1 <> g.1) path -> chained (us_mem u) path g.1 ->
  hptr (us_mem u) c.1 = first_addr path g.1 -> (length path < fuel)%nat ->
  (forall a u' fl', taken u u' fl used (a, n) fl' -> 0 < a -> Q (a + 16) u') ->
  (forall f, fuel = (length path + S f)%nat -> Forall (fun d => d.2 < n) (path ++ [g]) ->
     runs (let! p := morecore freep (S f) n in
           if p =? 0 then ret 0
           else
             let! nx := ld_ptr p in
             malloc_loop freep f n p nx) u Q) ->
  runs (malloc_loop freep fuel n c.1 (first_addr path g.1)) u Q.
Proof.
  induction path as [|d path IH]; intros c [|fuel] Q Hh Hl Hn Hc Hg Hfp Hpath Hlp Hcp Hf HQ HQ'; cbn [length] in Hf; try lia;
    cbn [first_addr] in *; cbn [malloc_loop]; unfold ld_size at 1; mstep.
  - rewrite (chained_size _ _ _ _ Hl Hg). destruct (Z.leb_spec n g.2) as [Hle|Hlt].
    + destruct (succ_split _ _ _ _ Hl Hc Hg Hcp) as (A & Y & E).
      { eapply sized_not_base; [exact Hh|done|lia]. }
      eapply malloc_take_runs; try done.
    + unfold ld_ptr at 1. mstep. rewrite Hfp, Z.eqb_refl. apply HQ'; [done|]. constructor; [done|constructor].
  - apply Forall_cons in Hpath as [[Hd Hdg] Hpath]. destruct Hlp as (Hds & Hdp & Hlp). rewrite Hds.
    destruct (Z.leb_spec n d.2) as [Hle|Hlt].
    + destruct (succ_split _ _ _ _ Hl Hc Hd Hcp) as (A & Y & E).
      { eapply sized_not_base; [exact Hh|done|lia]. }
      eapply malloc_take_runs; try done.
    + unfold ld_ptr at 1. mstep. rewrite Hfp, (proj2 (Z.eqb_neq d.1 g.1)) by done. unfold ld_ptr at 1. mstep. rewrite Hdp.
      apply (IH d); try done; [lia|]. intros f Ef Hsm. apply HQ'; [cbn; lia|]. by constructor.
Qed.

(** The walk from the node of [freep] once around the ring. *)
Lemma malloc_loop_around u fl used n fuel (Q : Z -> U -> Prop) :
  heap_ok (us_mem u) (us_brk u) fl used -> ring (us_mem u) fl -> 0 < n -> (length fl < fuel)%nat ->
  (forall a u' fl', taken u u' fl used (a, n) fl' -> 0 < a -> Q (a + 16) u') ->
  (forall f, fuel = (length fl + S f)%nat -> Forall (fun d => d.2 < n) fl ->
     runs (let! p := morecore freep (S f) n in
           if p =? 0 then ret 0
           else
             let! nx := ld_ptr p in
             malloc_loop freep f n p nx) u Q) ->
  runs (let! p := ld_ptr (hptr (us_mem u) freep) in malloc_loop freep fuel n (hptr (us_mem u) freep) p) u Q.
Proof.
  intros Hh [Hl (g & Hg & Hgin)%list_elem_of_fmap] Hn Hf HQ HQ'. rewrite Hg. unfold ld_ptr at 1. mstep.
  pose proof Hgin as (A & B & E)%list_elem_of_split.
  assert (Hlen : length (nodes fl) = length (A ++ g :: B)) by (by rewrite E).
  cbn [nodes length] in Hlen. rewrite length_app in Hlen. cbn [length] in Hlen.
  pose proof Hl as Hl'. rewrite E in Hl'. apply chained_app in Hl' as (HA & _ & Hp & HB). cbn [first_addr] in HA.
  assert (Hab : first_addr A g.1 = base) by (unfold nodes in E; destruct A; cbn in E; by simplify_eq).
  assert (Hfirst : first_addr B base = first_addr (B ++ A) g.1) by (rewrite <- Hab; by destruct B).
  rewrite Hp, Hfirst. destruct (node_split _ _ _ _ _ _ _ Hh E) as (_ & _ & _ & _ & _ & NL & Nl & _).
  apply (malloc_loop_walk u fl used n g (B ++ A) g); try done.
  - rewrite Forall_forall in *. intros d [Hd|Hd]%elem_of_app; (split; [rewrite E; apply elem_of_app|]).
    + right. by right.
    + destruct (Nl d Hd) as [? _]. lia.
    + by left.
    + specialize (NL d Hd). cbn in NL. lia.
  - apply chained_app. rewrite Hab. done.
  - by rewrite Hp.
  - rewrite length_app. lia.
  - intros f Ef Hsm. rewrite length_app in Ef. apply HQ'; [lia|].
    rewrite Forall_forall in *. intros d Hd. apply Hsm. assert (Hd' : d ∈ nodes fl) by (by right). rewrite E in Hd'.
    rewrite !elem_of_app, list_elem_of_singleton. rewrite elem_of_app, elem_of_cons in Hd'. tauto.
Qed.

(** The heap as seen through a memory that agrees below the break. *)
Lemma heap_ring_ext m m' brk fl used :
  heap_ok m brk fl used -> ring m fl -> (forall a, a < brk -> rd m' a = rd m a) -> heap_ok m' brk fl used /\ ring m' fl.
Proof.
  intros Hh [Hl Hfp] Hm. destruct Hst as (S1 & S2 & S3 & S4 & S5). pose proof (ho_brk _ _ _ _ Hh) as Hb.
  assert (Hn : forall b, b ∈ nodes fl -> b.1 + 16 <= brk).
  { intros b [->|Hb']%node_cases; [cbn; lia|]. pose proof (ho_free _ _ _ _ Hh) as Hf. rewrite Forall_forall in Hf.
    destruct (Hf b Hb') as (?&?&?). unfold HDR in *. lia. }
  split; [constructor; try apply Hh|split].
  - eapply used_sizes; [apply Hh|apply Hh|apply (ho_apart _ _ _ _ Hh)|]. intros x Hx _ _ _. by apply Hm.
  - eapply chained_ext; [|done]. intros b Hb'. specialize (Hn b Hb').
    split; [apply hptr_ext|apply hsize_ext]; intros i Hi; apply Hm; lia.
  - rewrite (hptr_ext m); [done|]. intros i Hi. apply Hm. lia.
Qed.

Lemma covers_below brk l x : Forall (block_ok brk) l -> covers l x -> x < brk.
Proof.
  intros Hl. unfold covers. rewrite Exists_exists. intros (c & Hc & Hx). rewrite Forall_forall in Hl.
  apply Hl in Hc as (?&?&?). unfold in_block in Hx. lia.
Qed.

(** A new block at the break. *)
Lemma heap_ok_extend m brk fl used n :
  heap_ok m brk fl used -> 0 < n -> brk + HDR * n <= PHYSTOP - KERNBASE -> hsize m brk = n ->
  heap_ok m (brk + HDR * n) fl ((brk, n) :: used).
Proof.
  intros Hh Hn Hmax Hsz. pose proof (ho_brk _ _ _ _ Hh) as Hb.
  assert (Hmono : forall l, Forall (block_ok brk) l -> Forall (block_ok (brk + HDR * n)) l).
  { intros l Hl. eapply Forall_impl; [exact Hl|]. unfold block_ok, HDR in *. intros c (?&?&?). lia. }
  assert (Hnew : forall x, in_block x (brk, n) -> brk <= x) by (unfold in_block; cbn; lia).
  constructor.
  - unfold HDR in *. lia.
  - apply Hmono, Hh.
  - constructor; [|apply Hmono, Hh]. unfold block_ok; cbn [fst snd]. lia.
  - apply Hh.
  - intros x Hx. rewrite covers_cons. intros [Hxb%Hnew|Hxu]; [|by apply (ho_apart _ _ _ _ Hh x)].
    eapply covers_below in Hx; [|apply Hh]. lia.
  - split; [|apply Hh]. intros x Hxb%Hnew Hx. eapply covers_below in Hx; [|apply Hh]. lia.
  - constructor; [done|apply Hh].
Qed.

(** What [morecore] makes of the heap when [sbrk] gives memory. *)
Record grown (u u' : U) (fl used : list block) (n : Z) (fl' : list block) : Prop := Grown {
  gr_heap : heap_ok (us_mem u') (us_brk u') fl' used;
  gr_ring : ring (us_mem u') fl';
  gr_brk : us_brk u <= us_brk u';
  gr_covers : forall x, covers fl' x <-> covers fl x \/ us_brk u <= x < us_brk u';
  gr_frame : frame fl (us_brk u) (us_mem u) (us_mem u');
  gr_length : (length fl' <= S (length fl))%nat;
  gr_big : exists c, c ∈ fl' /\ n <= c.2
}.

Lemma morecore_runs u fl used n fuel (Q : Z -> U -> Prop) :
  heap_ok (us_mem u) (us_brk u) fl used -> ring (us_mem u) fl -> 0 < n < 2 ^ 27 -> (S (length fl) <= fuel)%nat ->
  (forall u', us_brk u' = us_brk u -> heap_ok (us_mem u') (us_brk u') fl used -> ring (us_mem u') fl ->
     frame [] (us_brk u) (us_mem u) (us_mem u') -> Q 0 u') ->
  (forall u' fl', grown u u' fl used n fl' -> Q (hptr (us_mem u') freep) u') ->
  runs (morecore freep fuel n) u Q.
Proof.
  intros Hh Hr Hn Hf HQ0 HQ. destruct Hst as (S1 & S2 & S3 & S4 & S5). pose proof (ho_brk _ _ _ _ Hh) as Hb.
  unfold morecore. set (nu := if n <? 4096 then 4096 else n).
  assert (Hnu : n <= nu < 2 ^ 27) by (unfold nu; destruct (Z.ltb_spec n 4096); lia).
  rewrite u64_small, s32_small by (unfold HDR; lia). eapply runs_seq; [apply sb_grow; unfold HDR; lia|].
  intros r v [Hm Hr']. destruct (heap_ring_ext _ (us_mem v) _ _ _ Hh Hr Hm) as [Hh' Hr2].
  unfold PHYSTOP, KERNBASE in *. destruct Hr' as [[-> Hbv]|(-> & Hbv & Hmax)].
  - rewrite Z.eqb_refl. apply runs_ret. apply HQ0; try done; [by rewrite Hbv|]. intros x Hx _ _ _. by apply Hm.
  - change (u64 (-1)) with (2 ^ 64 - 1). rewrite (proj2 (Z.eqb_neq _ _)) by lia. unfold st_size. mstep.
    set (w := us_set_mem (set_hsize (us_mem v) (us_brk u) nu) v). set (b := (us_brk u, nu)).
    assert (Hmw : forall a, a < us_brk u -> rd (us_mem w) a = rd (us_mem u) a).
    { intros a Ha. unfold w. rewrite sb_mem, rd_set_hsize by lia. by apply Hm. }
    assert (Hbw : us_brk w = us_brk u + HDR * nu) by (unfold w; by rewrite sb_brk_mem, Hbv, Z.mul_comm).
    destruct (heap_ring_ext _ (us_mem w) _ _ _ Hh Hr Hmw) as [Hhw Hrw].
    rewrite hadd_eq by lia. change (us_brk u + HDR * 1) with (b.1 + 16). eapply runs_seq.
    { eapply (free_runs w fl used b fuel (fun _ u' => exists fl', freed w u' fl used b fl')); [|done|done|by eauto].
      rewrite Hbw. apply heap_ok_extend; try done; unfold PHYSTOP, KERNBASE, HDR in *; try lia.
      unfold w. rewrite sb_mem. apply hsize_set_hsize. lia. }
    intros [] u' (fl' & Hfd). unfold ld_ptr. mstep. apply (HQ u' fl'). destruct Hfd. constructor; try done.
    + unfold HDR in *. lia.
    + intros x. rewrite fd_covers0. unfold in_block, b; cbn [fst snd]. rewrite fd_brk0, Hbw. done.
    + intros x Hx Hc Hx1 Hx2. rewrite fd_frame0; try done; [by apply Hmw|unfold HDR in *; lia|].
      rewrite covers_cons. intros [Hxb|Hxc]; [|done]. unfold in_block, b in Hxb; cbn in Hxb. lia.
    + destruct fd_big0 as (c & Hc & Hcb). exists c. split; [done|]. cbn in Hcb. lia.
Qed.

(** *** malloc *)

(** What [malloc] promises: nothing is changed and no free block was large
    enough; or a new block of [n] headers is in use, taken from what was free
    and from what [sbrk] gave. *)
Definition malloc_fails (u u' : U) (fl used : list block) (n : Z) : Prop :=
  umalloc_inv u' fl used /\ us_brk u' = us_brk u /\ Forall (fun d => d.2 < n) fl /\
  frame [] (us_brk u) (us_mem u) (us_mem u').

Definition malloc_gives (u u' : U) (fl used : list block) (n a : Z) : Prop :=
  exists fl', umalloc_inv u' fl' ((a, n) :: used) /\ us_brk u <= us_brk u' /\
    (forall x, covers fl' x \/ in_block x (a, n) <-> covers fl x \/ us_brk u <= x < us_brk u') /\
    frame fl (us_brk u) (us_mem u) (us_mem u').

Lemma taken_gives u u' fl used a n fl' : taken u u' fl used (a, n) fl' -> malloc_gives u u' fl used n a.
Proof.
  intros [Hb Hh Hr Hc Hf]. exists fl'. split_and!; [split; [done|by left]|lia| |done].
  intros x. rewrite Hb. specialize (Hc x). split; [tauto|]. intros [?|?]; [tauto|lia].
Qed.

Lemma grown_taken_gives u v u' fl used a n k fl1 fl' :
  grown u v fl used k fl1 -> taken v u' fl1 used (a, n) fl' -> malloc_gives u u' fl used n a.
Proof.
  intros [Gh Gr Gb Gc Gf _ _] [Tb Th Tr Tc Tf]. exists fl'. split_and!; [split; [done|by left]|lia| |].
  - intros x. rewrite Tb. specialize (Gc x). specialize (Tc x). tauto.
  - intros x Hx Hc H1 H2. rewrite Tf, Gf; try done; [lia|]. rewrite Gc. intros [?|?]; [done|lia].
Qed.

Lemma malloc_search_runs u fl used n fuel (Q : Z -> U -> Prop) :
  heap_ok (us_mem u) (us_brk u) fl used -> ring (us_mem u) fl -> 0 < n < 2 ^ 27 -> (2 * length fl + 4 <= fuel)%nat ->
  (forall u', malloc_fails u u' fl used n -> Q 0 u') ->
  (forall u' a, malloc_gives u u' fl used n a -> 0 < a -> Q (a + 16) u') ->
  runs (let! p := ld_ptr (hptr (us_mem u) freep) in malloc_loop freep fuel n (hptr (us_mem u) freep) p) u Q.
Proof.
  intros Hh Hr Hn Hf HQ0 HQ. apply (malloc_loop_around u fl used); try done; [lia|lia| |].
  { intros a u' fl' Ht Ha. apply HQ; [|done]. by eapply taken_gives. }
  intros f Ef Hsm. eapply runs_seq.
  { eapply (morecore_runs u fl used n (S f) (fun r v => r = 0 /\ malloc_fails u v fl used n \/
      exists fl1, r = hptr (us_mem v) freep /\ grown u v fl used n fl1)); try done; [lia| |].
    - intros v Hb Hhv Hrv Hfr. left. split; [done|]. split_and!; try done. split; [done|by left].
    - intros v fl1 Hg. right. by exists fl1. }
  intros r v [[-> Hfail]|(fl1 & -> & Hg)]; [rewrite Z.eqb_refl; by apply runs_ret, HQ0|].
  pose proof Hg as [Gh Gr _ _ _ Gl (c & Hc & Hcn)]. rewrite (proj2 (Z.eqb_neq _ 0)).
  2: { destruct Gr as [_ (g & -> & Hgin)%list_elem_of_fmap]. destruct Hst as (S1 & S2 & S3 & S4 & S5).
       apply list_elem_of_split in Hgin as (A & B & E). destruct (node_split _ _ _ _ _ _ _ Gh E) as (? & _). lia. }
  apply (malloc_loop_around v fl1 used); try done; [lia|lia| |].
  - intros a u' fl' Ht Ha. apply HQ; [|done]. by eapply grown_taken_gives.
  - intros f' _ Hsm1. rewrite Forall_forall in Hsm1. specialize (Hsm1 c Hc). cbn in Hsm1. lia.
Qed.

Lemma malloc_units_eq nbytes : 0 <= nbytes < 2 ^ 31 - 32 ->
  malloc_units nbytes = (nbytes + 15) / 16 + 1 /\ 0 < malloc_units nbytes < 2 ^ 27 /\ nbytes <= 16 * (malloc_units nbytes - 1).
Proof.
  intros Hn. unfold malloc_units, HDR. replace (nbytes + 16 - 1) with (nbytes + 15) by lia.
  assert (0 <= (nbytes + 15) / 16 < 2 ^ 27 - 1) by dlia. rewrite u32_small by lia. split_and!; [done|lia|lia|dlia].
Qed.

Lemma malloc_runs u fl used nbytes fuel (Q : Z -> U -> Prop) :
  umalloc_inv u fl used -> 0 <= nbytes < 2 ^ 31 - 32 -> (2 * length fl + 4 <= fuel)%nat ->
  (forall u', malloc_fails u u' fl used (malloc_units nbytes) -> Q 0 u') ->
  (forall u' a, malloc_gives u u' fl used (malloc_units nbytes) a -> 0 < a -> Q (a + 16) u') ->
  runs (malloc base freep fuel nbytes) u Q.
Proof.
  intros [Hh Hi] Hn Hf HQ0 HQ. destruct (malloc_units_eq nbytes Hn) as (_ & Hu & _). unfold malloc. unfold ld_ptr at 1. mstep.
  pose proof Hst as (S1 & S2 & S3 & S4 & S5). destruct Hi as [Hr|(H0 & -> & ->)].
  - rewrite (proj2 (Z.eqb_neq _ 0)).
    + mstep. by apply malloc_search_runs with (fl := fl) (used := used).
    + destruct Hr as [_ (g & -> & Hgin)%list_elem_of_fmap]. apply list_elem_of_split in Hgin as (A & B & E).
      destruct (node_split _ _ _ _ _ _ _ Hh E) as (? & _). lia.
  - rewrite H0, Z.eqb_refl. pose proof (ho_brk _ _ _ _ Hh) as Hb. unfold PHYSTOP, KERNBASE in Hb. unfold st_ptr, st_size.
    repeat (mstep; rewrite ?sb_mem). 
    match goal with |- runs _ ?w _ => set (v := w) end.
    assert (Hm : us_mem v = set_hsize (set_hptr (set_hptr (us_mem u) freep base) base base) base 0) by (unfold v; by rewrite sb_mem).
    assert (Hbv : us_brk v = us_brk u) by (unfold v; by rewrite !sb_brk_mem).
    assert (Hfp : hptr (us_mem v) freep = base) by (rewrite Hm; by hmem).
    assert (Hfr : frame [] (us_brk u) (us_mem u) (us_mem v)).
    { intros x _ _ Hx1 Hx2. rewrite Hm. by hframe. }
    rewrite <- Hfp. apply malloc_search_runs with (fl := []) (used := []); try done.
    + rewrite Hbv. by destruct Hh; constructor.
    + split; [cbn [chained nodes fst snd first_addr]; rewrite Hm; split_and!; try done; by hmem|rewrite Hfp; by left].
    + intros u' (Hinv & Hb' & Hsm & Hfr'). apply HQ0. split_and!; try done; [by rewrite Hb'|].
      intros x Hx Hc Hx1 Hx2. rewrite Hfr', Hfr; try done. by rewrite Hbv.
    + intros u' a (fl' & Hinv & Hb' & Hc' & Hfr') Ha. apply HQ; [|done]. exists fl'. rewrite Hbv in *. split_and!; try done.
      intros x Hx Hc Hx1 Hx2. rewrite Hfr', Hfr; done.
Qed.

(** *** The client's writes *)
Lemma used_apart m brk fl used b c x :
  heap_ok m brk fl used -> b ∈ used -> c ∈ used -> in_block x b -> in_block x c -> b = c.
Proof.
  intros Hh Hb Hc Hxb Hxc. destruct (decide (b = c)) as [|Hne]; [done|].
  apply list_elem_of_split in Hb as (l1 & l2 & E). pose proof (ho_disjoint _ _ _ _ Hh) as Hd.
  assert (Hp : used ≡ₚ b :: l1 ++ l2) by (rewrite E; symmetry; apply Permutation_middle).
  apply (disjoint_blocks_perm _ _ Hp) in Hd as [Hd _]. rewrite Hp in Hc.
  apply elem_of_cons in Hc as [->|Hc]; [done|]. destruct (Hd x Hxb). by eapply covers_elem.
Qed.

(** A store inside a block in use, behind its header, keeps the invariant. *)
Lemma client_write u fl used b x v :
  umalloc_inv u fl used -> b ∈ used -> b.1 + 16 <= x < b.1 + HDR * b.2 ->
  umalloc_inv (us_set_mem (wr (us_mem u) x v) u) fl used.
Proof.
  intros [Hh Hr] Hb Hx. pose proof Hst as (S1 & S2 & S3 & S4 & S5). unfold umalloc_inv. rewrite sb_mem, sb_brk_mem.
  pose proof (ho_used _ _ _ _ Hh) as Hu. rewrite Forall_forall in Hu. destruct (Hu b Hb) as (U1 & U2 & U3).
  assert (Hxb : in_block x b) by (unfold in_block; lia).
  assert (Hsame : forall a, ~ (a <= x < a + 16) -> hptr (wr (us_mem u) x v) a = hptr (us_mem u) a /\ hsize (wr (us_mem u) x v) a = hsize (us_mem u) a).
  { intros a Ha. split; [apply hptr_ext|apply hsize_ext]; intros i Hi; apply rd_wr_ne; lia. }
  split; [constructor; try apply Hh|].
  - rewrite Forall_forall. intros c Hc. pose proof (ho_sizes _ _ _ _ Hh) as Hsz. rewrite Forall_forall in Hsz.
    rewrite <- (Hsz c Hc). apply Hsame. intros Hxc. destruct (Hu c Hc) as (C1 & C2 & C3).
    assert (b = c) as -> by (eapply used_apart; try done; unfold in_block, HDR; lia). lia.
  - destruct Hr as [[Hl Hf]|(Hf & -> & ->)]; [|by apply elem_of_nil in Hb].
    left. split; [|by rewrite (hptr_ext (us_mem u)) by (intros i Hi; apply rd_wr_ne; lia)].
    eapply chained_ext; [|exact Hl]. intros c Hc. apply Hsame. intros Hxc. apply node_cases in Hc as [->|Hc]; [cbn in Hxc; lia|].
    pose proof (ho_free _ _ _ _ Hh) as Hfr. rewrite Forall_forall in Hfr. destruct (Hfr c Hc) as (C1 & C2 & C3).
    apply (ho_apart _ _ _ _ Hh x); [apply (covers_elem c)|apply (covers_elem b)]; try done. unfold in_block, HDR. lia.
Qed.

(** C36. malloc and free keep a ring of free blocks that is sorted by address,
    disjoint from the blocks in use and fully joined, and lose no memory.  A
    request below 2 GB ends: it returns NULL, with no free block large enough
    and nothing changed, or a block of at least the bytes asked for that
    overlaps no other block in use, the free memory and the new block being
    together exactly the memory that was free and what sbrk gave.  Freeing
    any block in use ends, and the free memory is then exactly what was free
    and that block.  Both leave every byte of the program alone that is
    neither free nor the allocator's own; and whatever the client stores in
    its blocks cannot damage the ring. *)
Theorem umalloc_correct u fl used fuel :
  umalloc_inv u fl used -> (2 * length fl + 4 <= fuel)%nat ->
  (forall nbytes, 0 <= nbytes < 2 ^ 31 - 32 ->
     runs (malloc base freep fuel nbytes) u (fun r u' =>
       let n := malloc_units nbytes in
       r = 0 /\ malloc_fails u u' fl used n \/
       exists a, r = a + 16 /\ 0 < a /\ nbytes <= 16 * (n - 1) /\ malloc_gives u u' fl used n a)) /\
  (forall b used', used ≡ₚ b :: used' ->
     runs (free freep fuel (b.1 + 16)) u (fun _ u' =>
       exists fl', umalloc_inv u' fl' used' /\ us_brk u' = us_brk u /\
         (forall x, covers fl' x <-> covers fl x \/ in_block x b) /\
         frame (b :: fl) (us_brk u) (us_mem u) (us_mem u'))) /\
  (forall b x v, b ∈ used -> b.1 + 16 <= x < b.1 + HDR * b.2 ->
     umalloc_inv (us_set_mem (wr (us_mem u) x v) u) fl used).
Proof.
  intros Hi Hf. split_and!.
  - intros nbytes Hn. apply (malloc_runs u fl used); try done.
    + intros u' H. by left.
    + intros u' a H Ha. right. exists a. split_and!; try done. by apply malloc_units_eq.
  - intros b used' Hp. destruct Hi as [Hh [Hr|(_ & _ & ->)]]; [|by apply Permutation_nil_cons in Hp].
    apply (free_runs u fl used'); [|done|lia|].
    + destruct Hh. constructor; rewrite <- ?Hp; try done; [|by eapply disjoint_blocks_perm].
      intros x. rewrite <- Hp. auto.
    + intros u' fl' [Fb Fh Fr Fc Ff _ _]. exists fl'. split_and!; try done. split; [done|by left].
  - intros b x v Hb Hx. by eapply client_write.
Qed.
End correctness.

(** A program whose static data end at 1024, where its heap begins. *)
Definition umalloc_start : uworld := UWorld ∅ [] [] [] 1024.

Lemma umalloc_start_inv : umalloc_inv 1000 1016 1024 umalloc_start [] [].
Proof.
  split; [|right; split_and!; reflexivity]. constructor; try done. by intros x ?%covers_nil.
Qed.

Lemma umalloc_correct_witness :
  runs (malloc 1000 1016 4 100) umalloc_start (fun r u' =>
    r = 0 /\ malloc_fails 1000 1016 1024 umalloc_start u' [] [] 8 \/
    exists a, r = a + 16 /\ 0 < a /\ 100 <= 16 * (8 - 1) /\ malloc_gives 1000 1016 1024 umalloc_start u' [] [] 8 a).
Proof.
  apply (umalloc_correct 1000 1016 1024); [split_and!; lia|exact umalloc_start_inv|cbn; lia|lia].
Defined.

(** At the other end of the range the int argument of [sbrk] wraps: a request
    for 2^32 - 1 bytes is answered with a block although the break moved by
    16 bytes only. *)
Example malloc_huge_wraps :
  let '(r, u') := malloc 1000 1016 8 (2 ^ 32 - 1) umalloc_start in
  r = Ret 1040 /\ uw_brk u' = uw_brk umalloc_start + 16.
Proof. vm_compute. done. Qed.
