(* ===== verification/Grep.v ===== *)
(** * grep: user/grep.c

    The pattern matcher ([match], [matchhere], [matchstar]) works on C
    strings in the program's memory; [grep] reads a descriptor through a
    1024-byte buffer and writes the matching lines.  The specification is a
    denotational one: a pattern is a list of atoms, starred or not, with the
    set of texts it denotes, and a line is selected when it contains a text
    of the pattern at a place that the anchors allow. *)
From S2P Require Import Prelude CString Riscv Ulib.
Local Open Scope Z_scope.

Definition c_caret : Z := 94.
Definition c_dollar : Z := 36.
Definition c_dot : Z := 46.
Definition c_star : Z := 42.
Definition c_newline : Z := 10.

(** [matchhere] and [matchstar]; [matchstar]'s loop is the tail call. *)
Fixpoint matchhere (fuel : nat) (m : mem) (re text : Z) : option bool :=
  match fuel with
  | O => None
  | S f =>
      if rd m re =? 0 then Some true
      else if rd m (re + 1) =? c_star then matchstar f m (rd m re) (re + 2) text
      else if (rd m re =? c_dollar) && (rd m (re + 1) =? 0) then Some (rd m text =? 0)
      else if negb (rd m text =? 0) && ((rd m re =? c_dot) || (rd m re =? rd m text))
      then matchhere f m (re + 1) (text + 1)
      else Some false
  end
with matchstar (fuel : nat) (m : mem) (c re text : Z) : option bool :=
  match fuel with
  | O => None
  | S f =>
      match matchhere f m re text with
      | None => None
      | Some true => Some true
      | Some false =>
          if negb (rd m text =? 0) && ((rd m text =? c) || (c =? c_dot))
          then matchstar f m c re (text + 1)
          else Some false
      end
  end.

(** The do-while loop of [match]. *)
Fixpoint match_loop (fuel : nat) (m : mem) (re text : Z) : option bool :=
  match fuel with
  | O => None
  | S f =>
      match matchhere f m re text with
      | None => None
      | Some true => Some true
      | Some false => if rd m text =? 0 then Some false else match_loop f m re (text + 1)
      end
  end.

Definition match_ (fuel : nat) (m : mem) (re text : Z) : option bool :=
  if rd m re =? c_caret then matchhere fuel m (re + 1) text else match_loop fuel m re text.

Section grep.
Context {U : Type} {US : UserSys U}.
Variable buf : Z.
Definition BUFSZ : Z := 1024.

(** [while((q = strchr(p, '\n')) != 0)]: the lines complete in the buffer;
    the result is the place where the incomplete line starts. *)
Fixpoint grep_lines (fuel : nat) (pattern p : Z) : M U Z :=
  match fuel with
  | O => stall (Chan "grep" 0)
  | S f =>
      let! m := gets us_mem in
      let! q := bounded (strchr fuel m p c_newline) in
      if negb (q =? 0) then
        ustore q 0 ;;
        let! m := gets us_mem in
        let! b := bounded (match_ fuel m pattern p) in
        (if (b : bool) then
           ustore q c_newline ;;
           us_write 1 p (q + 1 - p) ;;
           ret tt
         else ret tt) ;;
        grep_lines f pattern (q + 1)
      else ret p
  end.

Fixpoint grep_loop (fuel : nat) (pattern fd m : Z) : M U unit :=
  match fuel with
  | O => stall (Chan "grep" 0)
  | S f =>
      let! n := us_read fd (buf + m) (BUFSZ - m - 1) in
      if 0 <? n then
        let m := m + n in
        ustore (buf + m) 0 ;;
        let! p := grep_lines fuel pattern buf in
        (if 0 <? m then
           let m := m - (p - buf) in
           modify (fun u => us_set_mem (memmove (us_mem u) buf p m).1 u) ;;
           grep_loop f pattern fd m
         else grep_loop f pattern fd m)
      else ret tt
  end.

Definition grep (fuel : nat) (pattern fd : Z) : M U unit := grep_loop fuel pattern fd 0.

(** [main] returns the status it exits with. *)
Definition grep_main (fuel : nat) (argc argv : Z) : M U Z :=
  if argc <=? 1 then
    us_fprintf 2 "usage: grep pattern [file ...]" [] ;; ret 1
  else
    let! m := gets us_mem in
    let pattern := load64 m (argv + 8) in
    if argc <=? 2 then grep fuel pattern 0 ;; ret 0
    else
      let! r := for_loop 2 argc 1 (fun i =>
        let! m := gets us_mem in
        let name := load64 m (argv + 8 * i) in
        let! fd := us_open name O_RDONLY in
        if fd <? 0 then us_fprintf 1 "grep: cannot open %s" [name] ;; ret (Some 1)
        else
          grep fuel pattern fd ;;
          us_close fd ;;
          ret None) in
      ret (match r with Some e => e | None => 0 end).
End grep.

(** ** The language of a pattern *)

(** A pattern after its [^]: atoms with their star, and whether it ends in
    the [$] anchor. *)
Fixpoint pat_parse (re : list Z) : list (Z * bool) * bool :=
  match re with
  | [] => ([], false)
  | c :: r =>
      match r with
      | d :: r' =>
          if d =? c_star then let '(its, e) := pat_parse r' in ((c, true) :: its, e)
          else let '(its, e) := pat_parse r in ((c, false) :: its, e)
      | [] => if c =? c_dollar then ([], true) else ([(c, false)], false)
      end
  end.

Definition atom (a c : Z) : Prop := a = c_dot \/ a = c.

Fixpoint lang (its : list (Z * bool)) (w : list Z) : Prop :=
  match its with
  | [] => w = []
  | (a, false) :: r => exists c v, w = c :: v /\ atom a c /\ lang r v
  | (a, true) :: r => exists u v, w = u ++ v /\ Forall (atom a) u /\ lang r v
  end.

(** A text of the pattern stands at the start of [text], up to its end when
    the pattern is anchored there. *)
Definition matches_here (re text : list Z) : Prop :=
  exists w rest, text = w ++ rest /\ lang (pat_parse re).1 w /\ ((pat_parse re).2 = true -> rest = []).

Definition matches (re text : list Z) : Prop :=
  match re with
  | c :: re' =>
      if c =? c_caret then matches_here re' text
      else exists pre suf, text = pre ++ suf /\ matches_here re suf
  | [] => exists pre suf, text = pre ++ suf /\ matches_here [] suf
  end.

(** ** The matcher decides the language *)

(** What a bounded search answers: it has the result, and it is right. *)
Definition decides (r : option bool) (P : Prop) : Prop := exists b, r = Some b /\ (b = true <-> P).

Lemma decides_iff r P Q : decides r P -> (P <-> Q) -> decides r Q.
Proof. intros (b & E & H) HPQ. exists b. split; [done|]. by rewrite H. Qed.

Lemma here_nil text : matches_here [] text.
Proof. exists [], text. done. Qed.

Lemma here_dollar text : matches_here [c_dollar] text <-> text = [].
Proof.
  split.
  - intros (w & rest & -> & -> & H). by rewrite (H eq_refl).
  - intros ->. exists [], []. done.
Qed.

Lemma here_star c re text :
  matches_here (c :: c_star :: re) text <->
  matches_here re text \/ exists d t, text = d :: t /\ atom c d /\ matches_here (c :: c_star :: re) t.
Proof.
  assert (E : pat_parse (c :: c_star :: re) = ((c, true) :: (pat_parse re).1, (pat_parse re).2)).
  { cbn. by destruct (pat_parse re). }
  unfold matches_here. rewrite E. cbn [fst snd lang]. split.
  - intros (w & rest & -> & (u & v & -> & Hu & Hv) & He). destruct u as [|d u].
    + left. by exists v, rest.
    + right. apply Forall_cons in Hu as [Hd Hu]. exists d, (u ++ v ++ rest).
      split_and!; [by cbn; rewrite app_assoc|done|]. exists (u ++ v), rest. rewrite app_assoc.
      split_and!; [done|by exists u, v|done].
  - intros [(w & rest & -> & Hw & He)|(d & t & -> & Hd & w & rest & -> & (u & v & -> & Hu & Hv) & He)].
    + exists w, rest. split_and!; [done|by exists [], w|done].
    + exists (d :: u ++ v), rest. split_and!; [done| |done]. exists (d :: u), v. split_and!; [done|by constructor|done].
Qed.

(** An atom that is neither starred nor a final [$]. *)
Lemma here_atom c re text :
  (match re with d :: _ => d <> c_star | [] => c <> c_dollar end) ->
  matches_here (c :: re) text <-> exists d t, text = d :: t /\ atom c d /\ matches_here re t.
Proof.
  intros Hc.
  assert (E : pat_parse (c :: re) = ((c, false) :: (pat_parse re).1, (pat_parse re).2)).
  { destruct re as [|d re]; cbn [pat_parse].
    - by rewrite (proj2 (Z.eqb_neq _ _) Hc).
    - rewrite (proj2 (Z.eqb_neq _ _) Hc). by destruct (match re with [] => _ | _ => _ end). }
  unfold matches_here. rewrite E. cbn [fst snd lang]. split.
  - intros (w & rest & -> & (d & v & -> & Hd & Hv) & He). exists d, (v ++ rest).
    split_and!; [done|done|by exists v, rest].
  - intros (d & t & -> & Hd & w & rest & -> & Hw & He). exists (d :: w), rest.
    split_and!; [done|by exists d, w|done].
Qed.

Lemma atom_test c d : (c =? c_dot) || (c =? d) = true <-> atom c d.
Proof. unfold atom. destruct (Z.eqb_spec c c_dot), (Z.eqb_spec c d); cbn; intuition congruence. Qed.

(** One character of the text against one atom of the pattern. *)
Lemma atom_step m text c l t (k : option bool) :
  cstr m text t ->
  (forall e t', t = e :: t' -> cstr m (text + 1) t' -> decides k (matches_here l t')) ->
  decides (if negb (rd m text =? 0) && ((c =? c_dot) || (c =? rd m text)) then k else Some false)
    (exists d t', t = d :: t' /\ atom c d /\ matches_here l t').
Proof.
  intros HT Hk. destruct t as [|e t]; cbn [cstr] in HT.
  { rewrite HT. exists false. split; [done|]. split; [done|]. by intros (? & ? & ? & _). }
  destruct HT as (-> & Hz & HT). rewrite (proj2 (Z.eqb_neq _ _) Hz). cbn [negb andb].
  destruct ((c =? c_dot) || (c =? e)) eqn:Ea.
  - eapply decides_iff; [by eapply Hk|]. apply atom_test in Ea.
    split; [intros; by exists e, t|]. intros (? & ? & ? & ? & ?). by simplify_eq.
  - exists false. split; [done|]. split; [done|]. intros (? & ? & ? & Ha & ?). simplify_eq.
    apply atom_test in Ha. congruence.
Qed.

Lemma matcher_decides m fuel :
  (forall re text l t, cstr m re l -> cstr m text t -> (2 * length l + length t < fuel)%nat ->
     decides (matchhere fuel m re text) (matches_here l t)) /\
  (forall c re text l t, cstr m re l -> cstr m text t -> (2 * length l + length t + 1 < fuel)%nat ->
     decides (matchstar fuel m c re text) (matches_here (c :: c_star :: l) t)).
Proof.
  induction fuel as [|fuel [IHh IHs]]; (split; [intros re text l t HL HT Hf|intros c re text l t HL HT Hf]);
    [lia|lia|..]; cbn [matchhere matchstar].
  - destruct l as [|c l]; cbn [cstr length] in *.
    { rewrite HL. exists true. split; [done|]. split; [intros _; apply here_nil|done]. }
    destruct HL as (-> & Hc & HL). rewrite (proj2 (Z.eqb_neq _ _) Hc).
    destruct l as [|d l].
    + cbn [cstr] in HL. rewrite HL. cbn [Z.eqb c_star]. destruct (Z.eqb_spec c c_dollar) as [->|Hd]; cbn [andb].
      * eexists. split; [done|]. rewrite here_dollar. destruct t; cbn [cstr] in HT; [by rewrite HT|].
        destruct HT as (-> & Hz & _). by rewrite (proj2 (Z.eqb_neq _ _) Hz).
      * eapply decides_iff; [|symmetry; apply here_atom; exact Hd].
        apply atom_step; [done|]. intros e t' -> HT'. apply IHh; [done|done|cbn [length] in *; lia].
    + cbn [cstr length] in *. destruct HL as (Ed & Hd & HL). rewrite Ed.
      destruct (Z.eqb_spec d c_star) as [->|Hs].
      * replace (re + 2) with (re + 1 + 1) by lia. apply IHs; [done|done|lia].
      * rewrite (proj2 (Z.eqb_neq d 0)) by done. rewrite andb_false_r.
        eapply decides_iff; [|symmetry; apply here_atom; exact Hs].
        apply atom_step; [done|]. intros e t' -> HT'. apply IHh; [by cbn|done|cbn [length] in *; lia].
  - destruct (IHh re text l t HL HT ltac:(lia)) as ([] & -> & Hh).
    { exists true. split; [done|]. split; [|done]. intros _. apply here_star. left. by apply Hh. }
    assert (Hn : ~ matches_here l t) by (intros H; apply Hh in H; done).
    destruct t as [|e t]; cbn [cstr length] in *.
    { rewrite HT. exists false. split; [done|]. split; [done|].
      intros [|(? & ? & ? & _)]%here_star; done. }
    destruct HT as (-> & Hz & HT). rewrite (proj2 (Z.eqb_neq _ _) Hz), orb_comm, (Z.eqb_sym e c). cbn [negb andb].
    destruct ((c =? c_dot) || (c =? e)) eqn:Ea.
    + eapply decides_iff; [apply IHs; [exact HL|exact HT|lia]|]. rewrite (here_star c l (e :: t)). split.
      * intros H. right. exists e, t. split_and!; [done|by apply atom_test|done].
      * intros [|(? & ? & ? & ? & ?)]; [done|]. by simplify_eq.
    + exists false. split; [done|]. split; [done|].
      intros [|(? & ? & ? & Ha & ?)]%here_star; [done|]. simplify_eq. apply atom_test in Ha. congruence.
Qed.

Lemma match_loop_decides m re l : cstr m re l -> forall t text fuel,
  cstr m text t -> (2 * length l + 2 * length t + 1 < fuel)%nat ->
  decides (match_loop fuel m re text) (exists pre suf, t = pre ++ suf /\ matches_here l suf).
Proof.
  intros HL. induction t as [|e t IH]; intros text [|fuel] HT Hf; cbn [length] in *; try lia; cbn [match_loop];
    (destruct (proj1 (matcher_decides m fuel) re text _ _ HL HT ltac:(cbn; lia)) as ([] & -> & Hh);
     [exists true; split; [done|]; split; [|done]; intros _; eexists [], _; split; [done|by apply Hh]|]).
  - cbn [cstr] in HT. rewrite HT. exists false. split; [done|]. split; [done|].
    intros (pre & suf & E & H). symmetry in E. apply app_eq_nil in E as [-> ->]. by apply Hh in H.
  - cbn [cstr] in HT. destruct HT as (-> & Hz & HT). rewrite (proj2 (Z.eqb_neq _ _) Hz).
    eapply decides_iff; [apply IH; [done|lia]|]. split.
    + intros (pre & suf & -> & H). by exists (e :: pre), suf.
    + intros ([|d pre] & suf & E & H); cbn in E; simplify_eq; [by apply Hh in H|by exists pre, suf].
Qed.

Lemma match_decides m re text l t fuel :
  cstr m re l -> cstr m text t -> (2 * length l + 2 * length t + 1 < fuel)%nat ->
  decides (match_ fuel m re text) (matches l t).
Proof.
  intros HL HT Hf. unfold match_, matches. destruct l as [|c l]; cbn [cstr] in HL.
  - rewrite HL. cbn [Z.eqb c_caret]. by apply match_loop_decides.
  - destruct HL as (Ec & Hc & HL). rewrite Ec. destruct (Z.eqb_spec c c_caret).
    + apply (matcher_decides m fuel); [done|done|cbn [length] in *; lia].
    + apply match_loop_decides; [by cbn|done|done].
Qed.

(** ** Lines *)

(** The complete lines of a text, and what follows the last newline. *)
Fixpoint lines_of (l : list Z) : list (list Z) * list Z :=
  match l with
  | [] => ([], [])
  | c :: t =>
      let '(ls, r) := lines_of t in
      if c =? c_newline then ([] :: ls, r)
      else match ls with
           | [] => ([], c :: r)
           | x :: ls' => ((c :: x) :: ls', r)
           end
  end.

(** [sel re ls out]: [out] is the lines of [ls] that match, each with its
    newline. *)
Inductive selects (re : list Z) : list (list Z) -> list Z -> Prop :=
| sel_nil : selects re [] []
| sel_yes x ls out : matches re x -> selects re ls out -> selects re (x :: ls) (x ++ [c_newline] ++ out)
| sel_no x ls out : ~ matches re x -> selects re ls out -> selects re (x :: ls) out.

Lemma lines_of_line x rest :
  (c_newline ∉ x) -> lines_of (x ++ c_newline :: rest) = (x :: (lines_of rest).1, (lines_of rest).2).
Proof.
  induction x as [|c x IH]; intros Hn; cbn [app lines_of].
  - destruct (lines_of rest). by rewrite Z.eqb_refl.
  - apply not_elem_of_cons in Hn as [Hc Hn]. rewrite (IH Hn). cbn [fst snd].
    rewrite (proj2 (Z.eqb_neq c c_newline)) by done. done.
Qed.

Lemma lines_of_none x : (c_newline ∉ x) -> lines_of x = ([], x).
Proof.
  induction x as [|c x IH]; intros Hn; cbn [lines_of]; [done|].
  apply not_elem_of_cons in Hn as [Hc Hn]. rewrite (IH Hn).
  by rewrite (proj2 (Z.eqb_neq c c_newline)) by done.
Qed.

Lemma line_split (l : list Z) :
  (c_newline ∉ l) \/ exists x rest, l = x ++ c_newline :: rest /\ (c_newline ∉ x).
Proof.
  destruct (decide (c_newline ∈ l)) as [H|H]; [|by left].
  right. apply list_elem_of_split_l in H as (x & rest & -> & Hx). by exists x, rest.
Qed.

(** The lines of a text read in two pieces. *)
Lemma lines_of_app a b :
  lines_of (a ++ b) = ((lines_of a).1 ++ (lines_of ((lines_of a).2 ++ b)).1, (lines_of ((lines_of a).2 ++ b)).2).
Proof.
  remember (length a) as k eqn:Hk. revert a Hk. induction k as [k IH] using lt_wf_ind. intros a ->.
  destruct (line_split a) as [Hn|(x & rest & -> & Hx)].
  - rewrite (lines_of_none a Hn). cbn [fst snd app]. by destruct (lines_of (a ++ b)).
  - rewrite <- app_assoc. cbn [app]. rewrite !lines_of_line by done. cbn [fst snd app].
    rewrite (IH (length rest)) with (a := rest); [done|rewrite length_app; cbn; lia|done].
Qed.

Lemma lines_of_rest l : (c_newline ∉ (lines_of l).2).
Proof.
  remember (length l) as k eqn:Hk. revert l Hk. induction k as [k IH] using lt_wf_ind. intros l ->.
  destruct (line_split l) as [Hn|(x & rest & -> & Hx)].
  - by rewrite (lines_of_none l Hn).
  - rewrite lines_of_line by done. cbn [snd]. apply (IH (length rest)); [rewrite length_app; cbn; lia|done].
Qed.

Lemma lines_of_suffix l : exists pre, l = pre ++ (lines_of l).2.
Proof.
  remember (length l) as k eqn:Hk. revert l Hk. induction k as [k IH] using lt_wf_ind. intros l ->.
  destruct (line_split l) as [Hn|(x & rest & -> & Hx)].
  - rewrite (lines_of_none l Hn). by exists [].
  - rewrite lines_of_line by done. cbn [snd].
    destruct (IH (length rest) ltac:(rewrite length_app; cbn; lia) rest eq_refl) as (pre & E).
    exists (x ++ c_newline :: pre). rewrite <- app_assoc. cbn. by rewrite <- E.
Qed.

Lemma selects_app re a b oa ob : selects re a oa -> selects re b ob -> selects re (a ++ b) (oa ++ ob).
Proof.
  induction 1; intros; cbn [app]; [done| |by constructor; auto].
  rewrite <- !app_assoc. constructor; auto.
Qed.

(** ** C strings in pieces *)
Lemma cstr_app m p a b :
  cstr m p (a ++ b) <-> load_bytes (length a) m p = a /\ Forall (fun c => c <> 0) a /\ cstr m (p + Z.of_nat (length a)) b.
Proof.
  revert p. induction a as [|c a IH]; intros p; cbn [app cstr length load_bytes].
  - rewrite Z.add_0_r. intuition done.
  - rewrite IH, Forall_cons. replace (p + 1 + Z.of_nat (length a)) with (p + Z.of_nat (S (length a))) by lia.
    split; [intros (-> & ? & E & ? & ?); rewrite E; done|].
    intros (E & [? ?] & ?). injection E as E1 E2. done.
Qed.

Lemma cstr_load m p l :
  cstr m p l <-> load_bytes (length l) m p = l /\ Forall (fun c => c <> 0) l /\ rd m (p + Z.of_nat (length l)) = 0.
Proof. rewrite <- (app_nil_r l) at 1. by rewrite cstr_app. Qed.

Lemma load_bytes_shift n m m' a b :
  (forall i, 0 <= i < Z.of_nat n -> rd m' (b + i) = rd m (a + i)) -> load_bytes n m' b = load_bytes n m a.
Proof.
  revert a b. induction n as [|n IH]; intros a b H; cbn [load_bytes]; [done|]. f_equal.
  - specialize (H 0). rewrite !Z.add_0_r in H. apply H. lia.
  - apply IH. intros i Hi. rewrite <- !Z.add_assoc. apply H. lia.
Qed.

(** Bytes stored behind bytes that are there. *)
Lemma load_store_app m a r d :
  load_bytes (length r) m a = r ->
  load_bytes (length (r ++ d)) (store_bytes m (a + Z.of_nat (length r)) d) a = r ++ d.
Proof.
  intros Hr. apply list_eq. intros i. destruct (decide (i < length (r ++ d))%nat) as [Hi|Hi].
  - assert (E : forall (l : list Z) (j : nat), (j < length l)%nat -> l !! j = Some (l !!! j)) by (intros; by apply list_lookup_lookup_total_lt).
    rewrite !E by (rewrite ?length_load_bytes; done). f_equal.
    rewrite load_bytes_total by done. rewrite rd_store_bytes. rewrite length_app in Hi.
    destruct (decide (i < length r)%nat).
    + rewrite decide_False, lookup_total_app_l by lia. rewrite <- Hr at 1. by rewrite load_bytes_total.
    + rewrite decide_True, lookup_total_app_r by lia. f_equal. lia.
  - rewrite !lookup_ge_None_2; [done|lia|rewrite length_load_bytes; lia].
Qed.

Lemma wr_only m a v : only_changes a 1 m (wr m a v).
Proof. intros b Hb. apply rd_wr_ne. lia. Qed.

(** ** The two loops of [grep] *)
Section proofs.
Context {U : Type} {US : UserSys U} (fd : Z) {L : StreamLaws U fd} (buf pattern : Z) (pl : list Z).
Hypothesis Hbuf : 0 < buf.
Hypothesis Hdisj : pattern + Z.of_nat (length pl) < buf \/ buf + BUFSZ <= pattern.

(** The text [l] at [p], the pattern in place, the streams as given. *)
Definition holds (u : U) (p : Z) (l inp out : list Z) : Prop :=
  cstr (us_mem u) pattern pl /\ cstr (us_mem u) p l /\ si_in u = inp /\ si_out u = out.

Lemma runs_bounded {A} (r : option A) a (u : U) (Q : A -> U -> Prop) : r = Some a -> Q a u -> runs (bounded r) u Q.
Proof. intros -> H. by apply runs_ret. Qed.

Lemma pattern_kept m m' lo n :
  only_changes lo n m m' -> buf <= lo -> lo + n <= buf + BUFSZ -> cstr m pattern pl -> cstr m' pattern pl.
Proof. intros HO ? ?. apply (cstr_ext lo n); [done|unfold BUFSZ in *; lia]. Qed.

(** One complete line: matched as a C string, then written if selected. *)
Lemma grep_line x rest fuel p u inp out :
  holds u p (x ++ c_newline :: rest) inp out -> buf <= p -> p + Z.of_nat (length (x ++ c_newline :: rest)) < buf + BUFSZ ->
  (2 * length pl + 2 * length x + 1 < fuel)%nat ->
  let q := p + Z.of_nat (length x) in
  runs (ustore q 0 ;;
        let! m := gets us_mem in
        let! b := bounded (match_ fuel m pattern p) in
        (if (b : bool) then ustore q c_newline ;; us_write 1 p (q + 1 - p) ;; ret tt else ret tt)) u
    (fun _ u' => exists o, holds u' (q + 1) rest inp (out ++ o) /\ selects pl [x] o).
Proof.
  intros (HP & HL & HI & HO) Hp Hlen Hf q. rewrite length_app in Hlen; cbn [length] in Hlen.
  pose proof HL as HL'. apply cstr_app in HL as (Hx & Hnz & Hq). fold q in Hq. cbn [cstr] in Hq.
  destruct Hq as (Eq & _ & Hrest). unfold ustore.
  mstep. mstep. rewrite sl_mem. set (m1 := wr (us_mem u) q 0).
  assert (HP1 : cstr m1 pattern pl) by (apply (pattern_kept (us_mem u) _ q 1); [apply wr_only|lia|lia|done]).
  assert (HX : cstr m1 p x).
  { apply cstr_load. split_and!; [|done|apply rd_wr_eq].
    rewrite <- Hx at 2. apply load_bytes_ext. intros i Hi. apply rd_wr_ne. lia. }
  assert (HR : forall v, cstr (wr m1 q v) (q + 1) rest).
  { intros v. apply (cstr_ext q 1 m1); [apply wr_only|lia|]. apply (cstr_ext q 1 (us_mem u)); [apply wr_only|lia|done]. }
  destruct (match_decides m1 pattern p pl x fuel HP1 HX Hf) as (b & Eb & Hb).
  apply runs_bind. eapply runs_bounded; [exact Eb|]. destruct b.
  - mstep. rewrite sl_mem. apply runs_bind. eapply runs_mono; [apply sl_write; lia|].
    intros r u2 (_ & I2 & O2 & M2). apply runs_ret. exists (x ++ [c_newline] ++ []).
    rewrite sl_mem in O2, M2. rewrite !sl_in_mem in I2. rewrite !sl_out_mem in O2.
    assert (El : load_bytes (Z.to_nat (q + 1 - p)) (wr m1 q c_newline) p = x ++ [c_newline]).
    { replace (Z.to_nat (q + 1 - p)) with (length (x ++ [c_newline])) by (rewrite length_app; cbn; lia).
      rewrite (load_bytes_ext _ (us_mem u)).
      - replace (x ++ c_newline :: rest) with ((x ++ [c_newline]) ++ rest) in HL' by (by rewrite <- app_assoc).
        apply cstr_app in HL' as [E _]. exact E.
      - intros i _. unfold m1. rewrite !rd_wr. repeat case_decide; subst; done. }
    split; [|constructor; [by apply Hb|constructor]]. unfold holds. rewrite M2, I2, O2, El. split_and!; [|apply HR|done|by rewrite HO].
    apply (pattern_kept m1 _ q 1); [apply wr_only|lia|lia|done].
  - apply runs_ret. exists []. unfold holds. rewrite sl_mem, sl_in_mem, sl_out_mem, app_nil_r.
    split_and!; try done.
    + apply (cstr_ext q 1 (us_mem u)); [apply wr_only|lia|done].
    + constructor; [|constructor]. intros H. by apply Hb in H.
Qed.

Lemma grep_lines_runs fuel : forall p l u inp out,
  holds u p l inp out -> buf <= p -> p + Z.of_nat (length l) < buf + BUFSZ -> (2 * length pl + 2 * length l + 1 < fuel)%nat ->
  runs (grep_lines fuel pattern p) u (fun p' u' => exists o,
    p' = p + Z.of_nat (length l) - Z.of_nat (length (lines_of l).2) /\
    holds u' p' (lines_of l).2 inp (out ++ o) /\ selects pl (lines_of l).1 o).
Proof.
  induction fuel as [|fuel IH]; intros p l u inp out H Hp Hlen Hf; [lia|]. cbn [grep_lines].
  mstep. destruct (line_split l) as [Hn|(x & rest & -> & Hx)].
  - apply runs_bind. eapply runs_bounded; [eapply strchr_absent; [apply H|done|lia]|].
    cbn [Z.eqb negb]. apply runs_ret. rewrite (lines_of_none l Hn). cbn [fst snd]. exists [].
    rewrite app_nil_r. replace (p + _ - _) with p by lia. split_and!; [done|done|constructor].
  - rewrite length_app in Hlen, Hf |- *; cbn [length] in Hlen, Hf |- *.
    apply runs_bind. eapply runs_bounded; [eapply strchr_found; [apply H|done|lia]|].
    rewrite (proj2 (Z.eqb_neq (p + Z.of_nat (length x)) 0)) by lia. cbn [negb].
    pose proof (grep_line x rest (S fuel) p u inp out H Hp ltac:(rewrite length_app; cbn [length]; lia) ltac:(lia)) as HG.
    cbv zeta in HG. do 3 apply runs_assoc. eapply runs_seq.
    { eapply runs_as; [|exact HG]. unfold bind. by destruct (ustore _ _ u) as [[] u1]. }
    intros [] u' (o & H' & HS). eapply runs_mono; [apply IH; [exact H'|lia|lia|lia]|].
    intros p' u'' (o' & -> & H'' & HS'). exists (o ++ o'). rewrite lines_of_line by done. cbn [fst snd].
    split_and!; [lia|by rewrite app_assoc|]. by apply (selects_app pl [x]).
Qed.

(** A line of more than 1022 bytes does not fit the buffer with its newline:
    with the buffer full no further line is complete. *)
Lemma full_no_line r inp :
  (c_newline ∉ r) -> Z.of_nat (length r) = BUFSZ - 1 ->
  Forall (fun x => Z.of_nat (length x) < BUFSZ - 1) (lines_of (r ++ inp)).1 -> (lines_of (r ++ inp)).1 = [].
Proof.
  intros Hn Hr HF. destruct (line_split (r ++ inp)) as [H|(x & rest & E & Hx)].
  { by rewrite lines_of_none. }
  rewrite E, lines_of_line in HF by done. cbn [fst] in HF. apply Forall_cons in HF as [HF _].
  assert (Hp : r `prefix_of` x).
  { destruct (prefix_weak_total r x (x ++ c_newline :: rest)) as [|Hp]; [by exists inp|by eexists|done|].
    destruct Hp as [k ->]. destruct k as [|c k]; [by rewrite app_nil_r|].
    rewrite <- app_assoc in E. apply app_inv_head in E. cbn in E. injection E as -> _.
    exfalso. apply Hn. set_solver. }
  apply prefix_length in Hp. lia.
Qed.

Lemma grep_loop_runs fuel : forall r u,
  cstr (us_mem u) pattern pl -> load_bytes (length r) (us_mem u) buf = r ->
  (c_newline ∉ r) -> Forall (fun c => c <> 0) (r ++ si_in u) -> Z.of_nat (length r) < BUFSZ ->
  Forall (fun x => Z.of_nat (length x) < BUFSZ - 1) (lines_of (r ++ si_in u)).1 ->
  (length (si_in u) + 2 * length pl + 2 * Z.to_nat BUFSZ < fuel)%nat ->
  runs (grep_loop buf fuel pattern fd (Z.of_nat (length r))) u (fun _ u' => exists o,
    si_out u' = si_out u ++ o /\ selects pl (lines_of (r ++ si_in u)).1 o).
Proof.
  induction fuel as [|fuel IH]; intros r u HP HR Hn Hnz Hr HF Hf; [lia|]. cbn [grep_loop].
  eapply runs_seq; [apply sl_read; lia|].
  intros n u1 (data & EI & EO & -> & Hle & Hend & EM). rewrite EI in *.
  destruct data as [|c data]; cbn [length app] in *.
  { cbn. apply runs_ret. exists []. rewrite app_nil_r. split; [done|].
    assert (E : (lines_of (r ++ si_in u1)).1 = []) by
      (destruct (Hend eq_refl) as [E|E]; [apply full_no_line; (done || lia)|by rewrite E, app_nil_r, lines_of_none]).
    rewrite E. constructor. }
  rewrite (proj2 (Z.ltb_lt 0 _)) by lia. set (d := c :: data) in *. fold (app d (si_in u1)) in *.
  change (S (length data)) with (length d) in *.
  replace (Z.of_nat (length r) + Z.of_nat (length d)) with (Z.of_nat (length (r ++ d))) by (rewrite length_app; lia).
  change (c :: data ++ si_in u1) with (d ++ si_in u1) in *. rewrite app_assoc in Hnz, HF |- *.
  assert (Hl : Z.of_nat (length (r ++ d)) < BUFSZ) by (rewrite length_app; lia).
  unfold ustore. mstep. eapply runs_seq.
  { eapply (grep_lines_runs (S fuel) buf (r ++ d)); [|lia|lia|rewrite length_app in Hl |- *; unfold BUFSZ in *; lia].
    unfold holds. rewrite sl_mem, sl_in_mem, sl_out_mem. split_and!; [| |done|done].
    - rewrite EM. eapply (pattern_kept _ _ (buf + Z.of_nat (length (r ++ d))) 1); [apply wr_only|lia|lia|].
      eapply (pattern_kept _ _ (buf + Z.of_nat (length r)) (Z.of_nat (length d))); [|lia|rewrite length_app in Hl; lia|done].
      intros i Hi. by apply rd_store_bytes_out.
    - apply Forall_app in Hnz as [Hnz _]. apply cstr_load. split_and!; [|done|apply rd_wr_eq].
      rewrite (load_bytes_ext _ (us_mem u1)) by (intros i Hi; apply rd_wr_ne; lia). rewrite EM.
      apply load_store_app; done. }
  intros p u2 (o & -> & (HP2 & HL2 & HI2 & HO2) & HS). rewrite (proj2 (Z.ltb_lt 0 _)) by (rewrite length_app; subst d; cbn [length]; lia).
  set (r' := (lines_of (r ++ d)).2) in *. mstep.
  assert (Hr' : (length r' <= length (r ++ d))%nat).
  { destruct (lines_of_suffix (r ++ d)) as [pre E]. apply (f_equal length) in E. rewrite (length_app pre) in E. fold r' in E. lia. }
  replace (Z.of_nat (length (r ++ d)) - _) with (Z.of_nat (length r')) by lia.
  match goal with |- runs (grep_loop _ _ _ _ _) ?u3 _ => set (u3' := u3) end.
  assert (EI3 : si_in u3' = si_in u1) by (unfold u3'; rewrite sl_in_mem; done).
  assert (EM3 : forall a, rd (us_mem u3') a = if decide (buf <= a < buf + Z.of_nat (length r')) then
      rd (us_mem u2) (buf + Z.of_nat (length (r ++ d)) - Z.of_nat (length r') + (a - buf)) else rd (us_mem u2) a).
  { intros a. unfold u3'. rewrite sl_mem. apply rd_umemmove. lia. }
  rewrite lines_of_app in HF. fold r' in HF. cbn [fst] in HF. apply Forall_app in HF as [_ HF].
  eapply runs_mono; [apply IH|].
  - eapply (pattern_kept _ _ buf BUFSZ); [|lia|lia|exact HP2]. intros a Ha. rewrite EM3, decide_False by lia. done.
  - apply cstr_load in HL2 as (E & _). rewrite <- E at 2. apply load_bytes_shift. intros i Hi.
    rewrite EM3, decide_True by lia. f_equal. lia.
  - apply lines_of_rest.
  - rewrite EI3. apply Forall_app in Hnz as [Hz1 Hz2]. apply Forall_app. split; [|done].
    destruct (lines_of_suffix (r ++ d)) as [pre E]. rewrite E in Hz1. by apply Forall_app in Hz1 as [_ ?].
  - lia.
  - by rewrite EI3.
  - rewrite EI3. rewrite length_app in Hf. subst d. cbn [length] in Hf. lia.
  - intros _ u4 (o' & EO4 & HS'). exists (o ++ o'). split.
    + rewrite EO4. unfold u3'. rewrite sl_out_mem, HO2. by rewrite app_assoc.
    + rewrite lines_of_app. fold r'. cbn [fst]. rewrite EI3 in HS'. by apply selects_app.
Qed.
End proofs.

(** ** Properties *)

(** C31. The matcher of Kernighan and Pike decides the language of patterns:
    for every pattern and text in memory, [match_] returns, and it returns
    true exactly when the text contains a string the pattern denotes, at its
    start if the pattern begins with [^] and up to its end if it ends with
    [$]. *)
Theorem match_decides_language (m : mem) (re text : Z) (l t : list Z) (fuel : nat) :
  cstr m re l -> cstr m text t -> (2 * length l + 2 * length t + 1 < fuel)%nat ->
  exists b, match_ fuel m re text = Some b /\ (b = true <-> matches l t).
Proof. apply match_decides. Qed.

(** The pattern [^a.*b$] and the text [axxb]. *)
Definition grep_mem : mem := store_bytes (store_bytes ∅ 100 [94; 97; 46; 42; 98; 36; 0]) 200 [97; 120; 120; 98; 0].

Lemma match_decides_language_witness :
  match_ 30 grep_mem 100 200 = Some true /\
  exists b, match_ 30 grep_mem 100 200 = Some b /\ (b = true <-> matches [94; 97; 46; 42; 98; 36] [97; 120; 120; 98]).
Proof.
  split; [vm_compute; reflexivity|].
  apply match_decides_language; [cbn [cstr]; vm_compute; intuition congruence|cbn [cstr]; vm_compute; intuition congruence|vm_compute; lia].
Defined.

(** C32. [grep] prints exactly the matching lines.  However the input is cut
    into pieces by [read], as long as it has no NUL byte and its lines fit
    the buffer (at most 1022 bytes before the newline), [grep] terminates
    having written, in order, every newline-terminated line that the pattern
    matches, and nothing else. *)
Theorem grep_selects {U : Type} `{US : UserSys U} (fd : Z) `{L : !StreamLaws U fd} (buf pattern : Z) (pl : list Z) (fuel : nat) (u : U) :
  0 < buf -> pattern + Z.of_nat (length pl) < buf \/ buf + BUFSZ <= pattern ->
  cstr (us_mem u) pattern pl -> Forall (fun c => c <> 0) (si_in u) ->
  Forall (fun x => Z.of_nat (length x) <= 1022) (lines_of (si_in u)).1 ->
  (length (si_in u) + 2 * length pl + 2 * Z.to_nat BUFSZ < fuel)%nat ->
  runs (grep buf fuel pattern fd) u (fun _ u' => exists o,
    si_out u' = si_out u ++ o /\ selects pl (lines_of (si_in u)).1 o).
Proof.
  intros Hb Hd HP Hnz HF Hf.
  apply (grep_loop_runs fd buf pattern pl Hb Hd fuel [] u); try done; [set_solver|].
  eapply Forall_impl; [exact HF|]. unfold BUFSZ. cbn beta. lia.
Qed.

(** Pattern [a], input "ba\nc\na" in pieces of 2 and 1 bytes: one line. *)
Definition grep_world : uworld := UWorld (store_bytes ∅ 100 [97; 0]) [98; 97; 10; 99; 10; 97] [2; 1; 1; 2]%nat [] 0.

Lemma grep_selects_witness :
  uw_out (grep (U := uworld) 1000 (Z.to_nat 3000) 100 0 grep_world).2 = [98; 97; 10] /\
  runs (grep (U := uworld) 1000 (Z.to_nat 3000) 100 0) grep_world (fun _ u' => exists o,
    si_out (fd := 0) u' = si_out (fd := 0) grep_world ++ o /\ selects [97] (lines_of (si_in (fd := 0) grep_world)).1 o).
Proof.
  split; [vm_compute; reflexivity|].
  apply (grep_selects (U := uworld) 0 1000 100 [97]); [lia|left; cbn; lia|vm_compute; intuition congruence| | |].
  - repeat constructor; lia.
  - change (Forall (fun x => Z.of_nat (length x) <= 1022) [[98; 97]; [99]]). repeat constructor; cbn; lia.
  - vm_compute. lia.
Defined.
