(* ===== verification/Virtio.v ===== *)
(** * The disk driver: kernel/virtio_disk.c, kernel/virtio.h

    [struct disk] with its three queue areas, the buffers it transfers, and
    the driver's functions.  [virtio_disk_rw] sleeps twice: for free
    descriptors, and until the interrupt handler says the request is done.
    It is written in the pieces between the sleeps, each of which runs under
    [vdisk_lock], so that any number of requests can be interleaved with the
    device and with [virtio_disk_intr].

    The device is not code of the repository.  It is the parameter [D] with
    the laws of [VirtioDevice]: it takes the heads of chains from the
    available ring in order and completes the ones it has taken in any
    order, each with success or with an error status, as virtio 1.1 (sections
    2.6 and 5.2) and the comments of virtio_disk.c say.  It sees a request only when [avail->idx], the last
    store of a submission, is incremented. *)
From S2P Require Import Prelude CString Riscv Spinlock Kalloc.
Local Open Scope Z_scope.

Definition NUM : Z := 8.
Definition VRING_DESC_F_NEXT : Z := 1.
Definition VRING_DESC_F_WRITE : Z := 2.
Definition VIRTIO_BLK_T_IN : Z := 0.
Definition VIRTIO_BLK_T_OUT : Z := 1.
Definition DBSIZE : Z := 1024.

(** The addresses the driver gives to the device: a command header, the data
    of a buffer, a status byte. *)
Inductive vaddr := ANull | AOps (i : Z) | AData (b : Z) | AStatus (i : Z).

Record virtq_desc := Desc { d_addr : vaddr; d_len : Z; d_flags : Z; d_next : Z }.
Record virtq_used_elem := UsedElem { ue_id : Z; ue_len : Z }.
Record virtio_blk_req := BlkReq { rq_type : Z; rq_reserved : Z; rq_sector : Z }.
Record dinfo := DInfo { in_b : option Z; in_status : Z }.

(** What the driver uses of [struct buf]. *)
Record vbuf := VBuf { vb_blockno : Z; vb_data : list Z; vb_disk : Z }.

(** [struct disk], the queues it points to, the buffers, and the channels
    [wakeup] was called on. *)
Record disk := Disk {
  dk_desc : Z -> virtq_desc;
  av_idx : Z; av_ring : Z -> Z;
  ud_idx : Z; ud_ring : Z -> virtq_used_elem;
  dk_free : Z -> Z;
  dk_used_idx : Z;
  dk_info : Z -> dinfo;
  dk_ops : Z -> virtio_blk_req;
  vdisk_lock : spinlock;
  dk_buf : Z -> vbuf;
  dk_woken : list chan
}.

Definition set_desc v (s : disk) := Disk v (av_idx s) (av_ring s) (ud_idx s) (ud_ring s) (dk_free s) (dk_used_idx s) (dk_info s) (dk_ops s) (vdisk_lock s) (dk_buf s) (dk_woken s).
Definition set_avail i r (s : disk) := Disk (dk_desc s) i r (ud_idx s) (ud_ring s) (dk_free s) (dk_used_idx s) (dk_info s) (dk_ops s) (vdisk_lock s) (dk_buf s) (dk_woken s).
Definition set_used i r (s : disk) := Disk (dk_desc s) (av_idx s) (av_ring s) i r (dk_free s) (dk_used_idx s) (dk_info s) (dk_ops s) (vdisk_lock s) (dk_buf s) (dk_woken s).
Definition set_free v (s : disk) := Disk (dk_desc s) (av_idx s) (av_ring s) (ud_idx s) (ud_ring s) v (dk_used_idx s) (dk_info s) (dk_ops s) (vdisk_lock s) (dk_buf s) (dk_woken s).
Definition set_used_idx v (s : disk) := Disk (dk_desc s) (av_idx s) (av_ring s) (ud_idx s) (ud_ring s) (dk_free s) v (dk_info s) (dk_ops s) (vdisk_lock s) (dk_buf s) (dk_woken s).
Definition set_info v (s : disk) := Disk (dk_desc s) (av_idx s) (av_ring s) (ud_idx s) (ud_ring s) (dk_free s) (dk_used_idx s) v (dk_ops s) (vdisk_lock s) (dk_buf s) (dk_woken s).
Definition set_ops v (s : disk) := Disk (dk_desc s) (av_idx s) (av_ring s) (ud_idx s) (ud_ring s) (dk_free s) (dk_used_idx s) (dk_info s) v (vdisk_lock s) (dk_buf s) (dk_woken s).
Definition set_vlock v (s : disk) := Disk (dk_desc s) (av_idx s) (av_ring s) (ud_idx s) (ud_ring s) (dk_free s) (dk_used_idx s) (dk_info s) (dk_ops s) v (dk_buf s) (dk_woken s).
Definition set_buf v (s : disk) := Disk (dk_desc s) (av_idx s) (av_ring s) (ud_idx s) (ud_ring s) (dk_free s) (dk_used_idx s) (dk_info s) (dk_ops s) (vdisk_lock s) v (dk_woken s).
Definition set_woken v (s : disk) := Disk (dk_desc s) (av_idx s) (av_ring s) (ud_idx s) (ud_ring s) (dk_free s) (dk_used_idx s) (dk_info s) (dk_ops s) (vdisk_lock s) (dk_buf s) v.

Definition free_chan : chan := Chan "disk.free" 0.
Definition buf_chan (b : Z) : chan := Chan "buf" b.

Local Abbreviation DM := (M disk).
Definition v_spin {A} (m : M spinlock A) : DM A := zoom vdisk_lock set_vlock m.
Definition v_wakeup (c : chan) : DM unit := modify (fun s => set_woken (dk_woken s ++ [c]) s).
Definition put_desc (i : Z) (d : virtq_desc) : DM unit := modify (fun s => set_desc (upd (dk_desc s) i d) s).
Definition put_free (i v : Z) : DM unit := modify (fun s => set_free (upd (dk_free s) i v) s).
Definition put_info (i : Z) (f : dinfo -> dinfo) : DM unit := modify (fun s => set_info (upd (dk_info s) i (f (dk_info s i))) s).
Definition put_disk (b v : Z) : DM unit :=
  modify (fun s => set_buf (upd (dk_buf s) b (VBuf (vb_blockno (dk_buf s b)) (vb_data (dk_buf s b)) v)) s).

Definition alloc_desc : DM Z :=
  let! r := forn (Z.to_nat NUM) 0 1 (fun i =>
    let! s := get in
    if negb (dk_free s i =? 0) then put_free i 0 ;; ret (Some i) else ret None) in
  ret (match r with Some i => i | None => -1 end).

Definition free_desc (i : Z) : DM unit :=
  if NUM <=? i then panic "free_desc 1"
  else
    let! s := get in
    if negb (dk_free s i =? 0) then panic "free_desc 2"
    else
      put_desc i (Desc ANull 0 0 0) ;;
      put_free i 1 ;;
      v_wakeup free_chan.

(** [fuel] bounds the length of the chain; there are [NUM] descriptors. *)
Fixpoint free_chain (fuel : nat) (i : Z) : DM unit :=
  match fuel with
  | O => stall (Chan "free_chain" 0)
  | S f =>
      let! d := gets (fun s => dk_desc s i) in
      free_desc i ;;
      if negb (Z.land (d_flags d) VRING_DESC_F_NEXT =? 0) then free_chain f (d_next d) else ret tt
  end.

(** [for(int j = 0; j < i; j++) free_desc(idx[j])] *)
Fixpoint free_descs (idx : list Z) : DM unit :=
  match idx with
  | [] => ret tt
  | i :: l => free_desc i ;; free_descs l
  end.

(** [n] descriptors still to allocate; [idx] is the array so far. *)
Fixpoint alloc_loop (n : nat) (idx : list Z) : DM (Z * list Z) :=
  match n with
  | O => ret (0, idx)
  | S n' =>
      let! i := alloc_desc in
      if i <? 0 then free_descs idx ;; ret (-1, idx ++ [i])
      else alloc_loop n' (idx ++ [i])
  end.

Definition alloc3_desc : DM (Z * list Z) := alloc_loop 3 [].

(** From the formatting of the descriptors to the notification of the
    device; the register write that notifies it has no other effect. *)
Definition rw_submit (i0 i1 i2 b : Z) (write : bool) : DM unit :=
  let! s := get in
  let sector := u32 (vb_blockno (dk_buf s b) * (DBSIZE / 512)) in
  modify (fun s => set_ops (upd (dk_ops s) i0 (BlkReq (if write then VIRTIO_BLK_T_OUT else VIRTIO_BLK_T_IN) 0 sector)) s) ;;
  put_desc i0 (Desc (AOps i0) 16 VRING_DESC_F_NEXT i1) ;;
  put_desc i1 (Desc (AData b) DBSIZE (Z.lor (if write then 0 else VRING_DESC_F_WRITE) VRING_DESC_F_NEXT) i2) ;;
  put_info i0 (fun v => DInfo (in_b v) 255) ;;
  put_desc i2 (Desc (AStatus i0) 1 VRING_DESC_F_WRITE 0) ;;
  put_disk b 1 ;;
  put_info i0 (fun v => DInfo (Some b) (in_status v)) ;;
  modify (fun s => set_avail (av_idx s) (upd (av_ring s) (av_idx s mod NUM) (u16 i0)) s) ;;
  modify (fun s => set_avail (u16 (av_idx s + 1)) (av_ring s) s).

(** Where a call of [virtio_disk_rw] is: asleep on [disk.free], asleep on
    the buffer with the chain that starts at [i0], or returned. *)
Inductive rw_at := RwDesc | RwData (i0 : Z) | RwDone.

Section ops.
Context (x : ctx).

(** From the test [b->disk == 1] on. *)
Definition rw_tail (b i0 : Z) : DM rw_at :=
  let! s := get in
  if vb_disk (dk_buf s b) =? 1 then
    v_spin (release_word (c_hart x)) ;; ret (RwData i0)
  else
    put_info i0 (fun v => DInfo None (in_status v)) ;;
    free_chain (Z.to_nat NUM) i0 ;;
    v_spin (release_word (c_hart x)) ;;
    ret RwDone.

(** [virtio_disk_rw] from its start, and from the first [sleep] on. *)
Definition rw_enter (b : Z) (write : bool) : DM rw_at :=
  v_spin (acquire_word (c_hart x)) ;;
  let! (r, idx) := alloc3_desc in
  if r =? 0 then
    rw_submit (idx !!! 0%nat) (idx !!! 1%nat) (idx !!! 2%nat) b write ;;
    rw_tail b (idx !!! 0%nat)
  else
    v_spin (release_word (c_hart x)) ;; ret RwDesc.

(** From the second [sleep] on. *)
Definition rw_wake (b i0 : Z) : DM rw_at :=
  v_spin (acquire_word (c_hart x)) ;;
  rw_tail b i0.

Fixpoint intr_loop (fuel : nat) : DM unit :=
  match fuel with
  | O => stall (Chan "virtio_disk_intr" 0)
  | S f =>
      let! s := get in
      if negb (dk_used_idx s =? ud_idx s) then
        let id := s32 (ue_id (ud_ring s (dk_used_idx s mod NUM))) in
        if negb (in_status (dk_info s id) =? 0) then panic "virtio_disk_intr status"
        else
          match in_b (dk_info s id) with
          | None => undef "null pointer"
          | Some b =>
              put_disk b 0 ;;
              v_wakeup (buf_chan b) ;;
              modify (fun s => set_used_idx (u16 (dk_used_idx s + 1)) s) ;;
              intr_loop f
          end
      else ret tt
  end.

(** Every round takes one entry of the used ring: the distance between the
    two 16-bit indices bounds their number.  Acknowledging the interrupt
    tells the device that it may raise the next one. *)
Definition virtio_disk_intr : DM unit :=
  v_spin (acquire_word (c_hart x)) ;;
  let! n := gets (fun s => u16 (ud_idx s - dk_used_idx s)) in
  intr_loop (S (Z.to_nat n)) ;;
  v_spin (release_word (c_hart x)).
End ops.

(** ** Initialisation *)

Definition VIRTIO_MMIO_MAGIC_VALUE : Z := 0x000.
Definition VIRTIO_MMIO_VERSION : Z := 0x004.
Definition VIRTIO_MMIO_DEVICE_ID : Z := 0x008.
Definition VIRTIO_MMIO_VENDOR_ID : Z := 0x00c.
Definition VIRTIO_MMIO_DEVICE_FEATURES : Z := 0x010.
Definition VIRTIO_MMIO_DRIVER_FEATURES : Z := 0x020.
Definition VIRTIO_MMIO_QUEUE_SEL : Z := 0x030.
Definition VIRTIO_MMIO_QUEUE_NUM_MAX : Z := 0x034.
Definition VIRTIO_MMIO_QUEUE_NUM : Z := 0x038.
Definition VIRTIO_MMIO_QUEUE_READY : Z := 0x044.
Definition VIRTIO_MMIO_STATUS : Z := 0x070.
Definition VIRTIO_MMIO_QUEUE_DESC_LOW : Z := 0x080.
Definition VIRTIO_MMIO_QUEUE_DESC_HIGH : Z := 0x084.
Definition VIRTIO_MMIO_DRIVER_DESC_LOW : Z := 0x090.
Definition VIRTIO_MMIO_DRIVER_DESC_HIGH : Z := 0x094.
Definition VIRTIO_MMIO_DEVICE_DESC_LOW : Z := 0x0a0.
Definition VIRTIO_MMIO_DEVICE_DESC_HIGH : Z := 0x0a4.

Definition VIRTIO_CONFIG_S_ACKNOWLEDGE : Z := 1.
Definition VIRTIO_CONFIG_S_DRIVER : Z := 2.
Definition VIRTIO_CONFIG_S_DRIVER_OK : Z := 4.
Definition VIRTIO_CONFIG_S_FEATURES_OK : Z := 8.

(** RO, SCSI, CONFIG_WCE, MQ, ANY_LAYOUT, EVENT_IDX, INDIRECT_DESC. *)
Definition refused_features : list Z := [5; 7; 11; 12; 27; 29; 28].

(** [features &= ~(1 << f)], [1 << f] being a positive [int]. *)
Definition negotiate (features : Z) : Z :=
  foldl (fun v f => Z.land v (Z.lnot (Z.shiftl 1 f))) features refused_features.

Section init.
Context {E R : Type} {PA : PageAlloc E} {MM : Mmio R}.
Local Abbreviation IM := (M (E * R * disk)).

Definition in_env {A} (m : M E A) : IM A := zoom (fun s => s.1.1) (fun e s => (e, s.1.2, s.2)) m.
Definition in_regs {A} (m : M R A) : IM A := zoom (fun s => s.1.2) (fun r s => (s.1.1, r, s.2)) m.
Definition in_disk {A} (m : DM A) : IM A := zoom snd (fun d s => (s.1, d)) m.
Definition rget (r : Z) : IM Z := in_regs (reg_read r).
Definition rput (r v : Z) : IM unit := in_regs (reg_write r (u32 v)).
Definition zero_page (pa : Z) : IM unit :=
  in_env (modify (fun e => pa_set_mem (memset (pa_mem e) pa 0 PGSIZE) e)).

(** The queues live in the three pages; zeroing the pages zeroes them. *)
Definition clear_queues : IM unit :=
  in_disk (modify (fun s => set_used 0 (fun _ => UsedElem 0 0) (set_avail 0 (fun _ => 0) (set_desc (fun _ => Desc ANull 0 0 0) s)))).

Definition virtio_disk_init : IM unit :=
  in_disk (modify (set_vlock (initlock "virtio_disk"))) ;;
  let! magic := rget VIRTIO_MMIO_MAGIC_VALUE in
  let! ok :=
    (if negb (magic =? 0x74726976) then ret false
     else
       let! v := rget VIRTIO_MMIO_VERSION in
       if negb (v =? 2) then ret false
       else
         let! d := rget VIRTIO_MMIO_DEVICE_ID in
         if negb (d =? 2) then ret false
         else
           let! n := rget VIRTIO_MMIO_VENDOR_ID in
           ret (n =? 0x554d4551)) in
  if negb ok then panic "could not find virtio disk"
  else
    rput VIRTIO_MMIO_STATUS 0 ;;
    let status := Z.lor 0 VIRTIO_CONFIG_S_ACKNOWLEDGE in
    rput VIRTIO_MMIO_STATUS status ;;
    let status := Z.lor status VIRTIO_CONFIG_S_DRIVER in
    rput VIRTIO_MMIO_STATUS status ;;
    let! features := rget VIRTIO_MMIO_DEVICE_FEATURES in
    rput VIRTIO_MMIO_DRIVER_FEATURES (negotiate features) ;;
    let status := Z.lor status VIRTIO_CONFIG_S_FEATURES_OK in
    rput VIRTIO_MMIO_STATUS status ;;
    let! status := rget VIRTIO_MMIO_STATUS in
    if Z.land status VIRTIO_CONFIG_S_FEATURES_OK =? 0 then panic "virtio disk FEATURES_OK unset"
    else
      rput VIRTIO_MMIO_QUEUE_SEL 0 ;;
      let! ready := rget VIRTIO_MMIO_QUEUE_READY in
      if negb (ready =? 0) then panic "virtio disk should not be ready"
      else
        let! max := rget VIRTIO_MMIO_QUEUE_NUM_MAX in
        if max =? 0 then panic "virtio disk has no queue 0"
        else if max <? NUM then panic "virtio disk max queue too short"
        else
          let! desc := in_env pa_alloc in
          let! avail := in_env pa_alloc in
          let! used := in_env pa_alloc in
          if (desc =? 0) || (avail =? 0) || (used =? 0) then panic "virtio disk kalloc"
          else
            zero_page desc ;; zero_page avail ;; zero_page used ;; clear_queues ;;
            rput VIRTIO_MMIO_QUEUE_NUM NUM ;;
            rput VIRTIO_MMIO_QUEUE_DESC_LOW desc ;;
            rput VIRTIO_MMIO_QUEUE_DESC_HIGH (Z.shiftr desc 32) ;;
            rput VIRTIO_MMIO_DRIVER_DESC_LOW avail ;;
            rput VIRTIO_MMIO_DRIVER_DESC_HIGH (Z.shiftr avail 32) ;;
            rput VIRTIO_MMIO_DEVICE_DESC_LOW used ;;
            rput VIRTIO_MMIO_DEVICE_DESC_HIGH (Z.shiftr used 32) ;;
            rput VIRTIO_MMIO_QUEUE_READY 0x1 ;;
            forn (A := unit) (Z.to_nat NUM) 0 1 (fun i => in_disk (put_free i 1) ;; ret None) ;;
            rput VIRTIO_MMIO_STATUS (Z.lor status VIRTIO_CONFIG_S_DRIVER_OK).
End init.

(** ** The device, as documented *)

(** Completing the chain that starts at descriptor [h]: a header, the data and
    a status byte.  With status 0 the data moves between the buffer and the
    platter (its bytes, by address); with another status (virtio 1.1, 5.2.6:
    an I/O error, an unsupported request) the bytes that were to be written,
    of the buffer or of the platter, are [junk].  The status byte is stored,
    and the used ring gets an entry. *)
Definition serve_chain (h status : Z) (junk : list Z) (pl : mem) (s : disk) : option (mem * disk) :=
  let d0 := dk_desc s h in
  let d1 := dk_desc s (d_next d0) in
  let d2 := dk_desc s (d_next d1) in
  match d_addr d0, d_addr d1, d_addr d2 with
  | AOps i, AData b, AStatus j =>
      let at_ := rq_sector (dk_ops s i) * 512 in
      let n := Z.to_nat (d_len d1) in
      let done_ s := set_used (u16 (ud_idx s + 1)) (upd (ud_ring s) (ud_idx s mod NUM) (UsedElem h (d_len d1)))
                       (set_info (upd (dk_info s) j (DInfo (in_b (dk_info s j)) status)) s) in
      if rq_type (dk_ops s i) =? VIRTIO_BLK_T_IN then
        if Z.testbit (d_flags d1) 1 then
          Some (pl, done_ (set_buf (upd (dk_buf s) b
            (VBuf (vb_blockno (dk_buf s b)) (if status =? 0 then load_bytes n pl at_ else take n junk) (vb_disk (dk_buf s b)))) s))
        else None
      else Some (store_bytes pl at_ (take n (if status =? 0 then vb_data (dk_buf s b) else junk)), done_ s)
  | _, _, _ => None
  end.

(** [dv_seen]: how far the device has read the available ring; [dv_taken]:
    the chains it has taken and not completed. *)
Class VirtioDevice (D : Type) := {
  dv_step : D -> mem -> disk -> D -> mem -> disk -> Prop;
  dv_seen : D -> Z;
  dv_taken : D -> list Z;
  dv_law : forall v pl s v' pl' s', dv_step v pl s v' pl' s' ->
    (dv_seen v <> av_idx s /\ dv_seen v' = u16 (dv_seen v + 1) /\
     dv_taken v' = dv_taken v ++ [av_ring s (dv_seen v mod NUM)] /\ pl' = pl /\ s' = s) \/
    (exists h status junk, h ∈ dv_taken v /\ dv_seen v' = dv_seen v /\ dv_taken v ≡ₚ h :: dv_taken v' /\
       0 <= status < 256 /\ length junk = Z.to_nat DBSIZE /\ serve_chain h status junk pl s = Some (pl', s'))
}.

(** ** Requests, interrupts and the device, interleaved *)
Record vsys (D : Type) := VSys { vs_dk : disk; vs_pl : mem; vs_dv : D; vs_thr : gmap Z (bool * rw_at) }.
Arguments VSys {D}. Arguments vs_dk {D}. Arguments vs_pl {D}. Arguments vs_dv {D}. Arguments vs_thr {D}.

(** The calls in progress after a piece of the call for [b] ended at [a]. *)
Definition thr_at (b : Z) (w : bool) (a : rw_at) (t : gmap Z (bool * rw_at)) : gmap Z (bool * rw_at) :=
  match a with RwDone => delete b t | _ => <[b := (w, a)]> t end.

(** The next piece of the call for [b] that has got to [a]. *)
Definition rw_resume (x : ctx) (b : Z) (w : bool) (a : rw_at) : DM rw_at :=
  match a with RwDesc => rw_enter x b w | RwData i0 => rw_wake x b i0 | RwDone => ret RwDone end.

(** A caller of [virtio_disk_rw(b, ..)] holds the buffer's sleep lock: there
    is one call per buffer, and nobody else changes the buffer meanwhile.  A
    sleeping call may be woken for any reason. *)
Inductive vs_step {D} `{VirtioDevice D} (x : ctx) : vsys D -> vsys D -> Prop :=
| vs_call s b w a dk' : vs_thr s !! b = None -> rw_enter x b w (vs_dk s) = (Ret a, dk') ->
    vs_step x s (VSys dk' (vs_pl s) (vs_dv s) (thr_at b w a (vs_thr s)))
| vs_resume s b w a a' dk' : vs_thr s !! b = Some (w, a) -> rw_resume x b w a (vs_dk s) = (Ret a', dk') ->
    vs_step x s (VSys dk' (vs_pl s) (vs_dv s) (thr_at b w a' (vs_thr s)))
| vs_intr s dk' : virtio_disk_intr x (vs_dk s) = (Ret tt, dk') ->
    vs_step x s (VSys dk' (vs_pl s) (vs_dv s) (vs_thr s))
| vs_device s v' pl' dk' : dv_step (vs_dv s) (vs_pl s) (vs_dk s) v' pl' dk' ->
    vs_step x s (VSys dk' pl' v' (vs_thr s))
| vs_owner s b no data : vs_thr s !! b = None -> length data = Z.to_nat DBSIZE -> 0 <= no < 2 ^ 31 ->
    vs_step x s (VSys (set_buf (upd (dk_buf (vs_dk s)) b (VBuf no data (vb_disk (dk_buf (vs_dk s) b)))) (vs_dk s))
      (vs_pl s) (vs_dv s) (vs_thr s)).

(** ** The abstract disk

    Requests are served one at a time, atomically, between their submission
    and their return, or fail; a request that failed never returns, and the
    bytes it was to write are arbitrary. *)
Inductive fate := Pending | Served | Failed.

#[export] Instance outcome_eq_dec : EqDecision fate.
Proof. solve_decision. Defined.

Record adisk := ADisk { ad_pl : mem; ad_no : Z -> Z; ad_data : Z -> list Z; ad_out : gmap Z (bool * fate) }.

(** The request for [b] gets the bytes [d], those of the platter or of the
    buffer it writes, and the fate [o]. *)
Definition ad_put (b : Z) (w : bool) (d : list Z) (o : fate) (a : adisk) : adisk :=
  if w then ADisk (store_bytes (ad_pl a) (ad_no a b * DBSIZE) d) (ad_no a) (ad_data a) (<[b := (w, o)]> (ad_out a))
  else ADisk (ad_pl a) (ad_no a) (upd (ad_data a) b d) (<[b := (w, o)]> (ad_out a)).

Definition ad_serve (b : Z) (w : bool) (a : adisk) : adisk :=
  ad_put b w (if w then ad_data a b else load_bytes (Z.to_nat DBSIZE) (ad_pl a) (ad_no a b * DBSIZE)) Served a.

Inductive ad_step : adisk -> adisk -> Prop :=
| ad_submit a b w : ad_out a !! b = None ->
    ad_step a (ADisk (ad_pl a) (ad_no a) (ad_data a) (<[b := (w, Pending)]> (ad_out a)))
| ad_served a b w : ad_out a !! b = Some (w, Pending) -> ad_step a (ad_serve b w a)
| ad_fail a b w junk : ad_out a !! b = Some (w, Pending) -> length junk = Z.to_nat DBSIZE ->
    ad_step a (ad_put b w junk Failed a)
| ad_return a b w : ad_out a !! b = Some (w, Served) ->
    ad_step a (ADisk (ad_pl a) (ad_no a) (ad_data a) (delete b (ad_out a)))
| ad_owner a b no data : ad_out a !! b = None -> length data = Z.to_nat DBSIZE ->
    ad_step a (ADisk (ad_pl a) (upd (ad_no a) b no) (upd (ad_data a) b data) (ad_out a)).

(** ** Lemmas: descriptors *)
(** Nothing changed but the marks of free descriptors, the descriptors of
    [l] and the wake-ups. *)
Record same_but (l : list Z) (s s' : disk) : Prop := {
  sb_desc : forall i, (i ∉ l) -> dk_desc s' i = dk_desc s i;
  sb_avail : av_idx s' = av_idx s /\ av_ring s' = av_ring s;
  sb_used : ud_idx s' = ud_idx s /\ ud_ring s' = ud_ring s /\ dk_used_idx s' = dk_used_idx s;
  sb_rest : dk_info s' = dk_info s /\ dk_ops s' = dk_ops s /\ dk_buf s' = dk_buf s /\ vdisk_lock s' = vdisk_lock s;
}.

Lemma same_but_refl l s : same_but l s s.
Proof. done. Qed.

Lemma same_but_trans l s1 s2 s3 : same_but l s1 s2 -> same_but l s2 s3 -> same_but l s1 s3.
Proof.
  intros [D1 [A1 R1] (U1 & V1 & W1) (I1 & O1 & B1 & L1)] [D2 [A2 R2] (U2 & V2 & W2) (I2 & O2 & B2 & L2)].
  split; [intros i Hi; by rewrite D2, D1|split; congruence|split_and!; congruence|split_and!; congruence].
Qed.

Lemma same_but_weaken l l' s s' : same_but l s s' -> l ⊆ l' -> same_but l' s s'.
Proof. intros [D ? ? ?] H. split; [|done..]. intros i Hi. apply D. set_solver. Qed.

Definition in_range (i : Z) : Prop := 0 <= i < NUM.

Lemma alloc_desc_run s :
  runs alloc_desc s (fun i s' =>
    (i = -1 /\ s' = s) \/ (in_range i /\ dk_free s i <> 0 /\ s' = set_free (upd (dk_free s) i 0) s)).
Proof.
  unfold alloc_desc. eapply runs_seq.
  { apply (runs_forn _ _ _ _ (fun _ t => t = s)
      (fun r t => match r with Some i => in_range i /\ dk_free s i <> 0 /\ t = set_free (upd (dk_free s) i 0) s | None => t = s end));
      [done| |by intros ? ->].
    intros k t Hk ->. mstep. destruct (Z.eqb_spec (dk_free s (0 + 1 * Z.of_nat k)) 0) as [E|E]; cbn [negb]; [by mstep|].
    unfold put_free. mstep. mstep. split_and!; [unfold in_range, NUM in *; lia|done|done]. }
  intros [i|] t Ht; apply runs_ret; [by right|by left].
Qed.

Lemma free_desc_run i s :
  in_range i -> dk_free s i = 0 ->
  runs (free_desc i) s (fun _ s' => same_but [i] s s' /\ dk_free s' = upd (dk_free s) i 1).
Proof.
  intros Hi Hf. unfold free_desc. rewrite (proj2 (Z.leb_gt NUM i)) by (unfold in_range in *; lia).
  mstep. rewrite Hf. cbn [Z.eqb negb]. unfold put_desc, put_free, v_wakeup. repeat mstep. split; [|done].
  split; [|done..]. intros j Hj. cbn. apply upd_ne. set_solver.
Qed.

(** The marks after the descriptors of [l] were given the value [v]. *)
Definition marked (l : list Z) (v : Z) (s s' : disk) : Prop :=
  forall i, dk_free s' i = if decide (i ∈ l) then v else dk_free s i.

Lemma free_descs_run l s :
  NoDup l -> (forall i, i ∈ l -> in_range i /\ dk_free s i = 0) ->
  runs (free_descs l) s (fun _ s' => same_but l s s' /\ marked l 1 s s').
Proof.
  revert s. induction l as [|i l IH]; intros s Hnd Hl; cbn [free_descs].
  { apply runs_ret. split; [done|]. intros j. by rewrite decide_False by set_solver. }
  apply NoDup_cons in Hnd as [Hi Hnd]. destruct (Hl i ltac:(set_solver)) as [Hr Hf].
  eapply runs_seq; [by apply free_desc_run|]. intros _ s1 [S1 F1].
  eapply runs_mono; [apply IH; [done|]|].
  { intros j Hj. destruct (Hl j ltac:(set_solver)). rewrite F1, upd_ne by set_solver. done. }
  intros _ s2 [S2 F2]. split.
  - eapply same_but_trans; eapply same_but_weaken; [exact S1|set_solver|exact S2|set_solver].
  - intros j. rewrite F2, F1. unfold upd. repeat case_decide; set_solver.
Qed.

Lemma alloc_loop_run n s0 : forall idx s,
  NoDup idx -> (forall i, i ∈ idx -> in_range i /\ dk_free s0 i <> 0) -> same_but [] s0 s -> marked idx 0 s0 s ->
  runs (alloc_loop n idx) s (fun r s' =>
    (r.1 = 0 /\ exists l, r.2 = idx ++ l /\ length l = n /\ NoDup r.2 /\
       (forall i, i ∈ r.2 -> in_range i /\ dk_free s0 i <> 0) /\ same_but [] s0 s' /\ marked r.2 0 s0 s') \/
    (r.1 = -1 /\ exists l, (forall i, i ∈ l -> in_range i /\ dk_free s0 i <> 0) /\ same_but l s0 s' /\ marked l 1 s0 s')).
Proof.
  induction n as [|n IH]; intros idx s Hnd Hi HS HM; cbn [alloc_loop].
  { apply runs_ret. left. split; [done|]. exists []. rewrite app_nil_r. done. }
  eapply runs_seq; [apply alloc_desc_run|]. intros i s1 [[-> ->]|(Hr & Hf & ->)].
  - cbn [Z.ltb Z.compare]. eapply runs_seq; [apply free_descs_run; [done|]|].
    { intros i Hin. split; [by apply Hi|]. rewrite HM, decide_True by done. done. }
    intros _ s2 [S2 M2]. apply runs_ret. right. split; [done|]. exists idx. split_and!; [done| |].
    + eapply same_but_trans; [eapply same_but_weaken; [exact HS|apply list_subseteq_nil]|exact S2].
    + intros i. rewrite M2, HM. by repeat case_decide.
  - rewrite (proj2 (Z.ltb_ge i 0)) by (unfold in_range in *; lia).
    assert (Hni : (i ∉ idx)) by (intros Hin; apply Hf; rewrite HM, decide_True; done).
    eapply runs_mono; [apply (IH (idx ++ [i]))|].
    + apply NoDup_app. split_and!; [done| |apply NoDup_singleton]. intros j Hj ->%list_elem_of_singleton. done.
    + intros j [Hj | ->%list_elem_of_singleton]%elem_of_app; [by apply Hi|]. rewrite HM, decide_False in Hf by done. done.
    + by destruct HS; split.
    + intros j. cbn [dk_free set_free]. unfold upd. rewrite HM. clear -Hni. repeat case_decide; set_solver.
    + intros r s' [(E & l & E2 & Hl & HR)|HR]; [left|by right]. split; [exact E|]. exists (i :: l).
      rewrite <- app_assoc in E2. split; [exact E2|]. split; [cbn [length]; lia|exact HR].
Qed.

Lemma alloc3_desc_run s :
  runs alloc3_desc s (fun r s' =>
    (exists i0 i1 i2, r = (0, [i0; i1; i2]) /\ NoDup [i0; i1; i2] /\
       (forall i, i ∈ [i0; i1; i2] -> in_range i /\ dk_free s i <> 0) /\ same_but [] s s' /\ marked [i0; i1; i2] 0 s s') \/
    (r.1 = -1 /\ exists l, (forall i, i ∈ l -> in_range i /\ dk_free s i <> 0) /\ same_but l s s' /\ marked l 1 s s')).
Proof.
  unfold alloc3_desc. eapply runs_mono.
  { apply (alloc_loop_run 3 s [] s); [constructor|set_solver|done|]. intros i. by rewrite decide_False by set_solver. }
  intros [r idx] s' [(E & l & E2 & Hl & H)|?]; [|by right]. left. cbn [fst snd app] in *. subst r idx.
  destruct l as [|i0 [|i1 [|i2 [|]]]]; try done. by exists i0, i1, i2.
Qed.

(** ** The invariant *)
Record vreq := VReq { q_b : Z; q_w : bool; q0 : Z; q1 : Z; q2 : Z }.
Definition chain (q : vreq) : list Z := [q0 q; q1 q; q2 q].
Definition chains (R : list vreq) : list Z := R ≫= chain.

(** The request as the device finds it. *)
Definition formatted (s : disk) (q : vreq) : Prop :=
  dk_desc s (q0 q) = Desc (AOps (q0 q)) 16 VRING_DESC_F_NEXT (q1 q) /\
  dk_desc s (q1 q) = Desc (AData (q_b q)) DBSIZE (Z.lor (if q_w q then 0 else VRING_DESC_F_WRITE) VRING_DESC_F_NEXT) (q2 q) /\
  dk_desc s (q2 q) = Desc (AStatus (q0 q)) 1 VRING_DESC_F_WRITE 0 /\
  dk_ops s (q0 q) = BlkReq (if q_w q then VIRTIO_BLK_T_OUT else VIRTIO_BLK_T_IN) 0 (vb_blockno (dk_buf s (q_b q)) * 2) /\
  in_b (dk_info s (q0 q)) = Some (q_b q).

(** The entries of a ring from index [i] on. *)
Definition ring_holds (ring : Z -> Z) (i : Z) (l : list Z) : Prop :=
  forall (j : nat) h, l !! j = Some h -> ring ((i + Z.of_nat j) mod NUM) = h.

Section inv.
Context {D : Type} {VD : VirtioDevice D}.

(** [R]: the requests with descriptors; [HA], [HP], [HU]: the heads of those
    that wait in the available ring, that the device has taken, and that
    wait in the used ring.  The others have been reported to their callers. *)
Record vinv (R : list vreq) (HA HP HU : list Z) (s : disk) (v : D) (thr : gmap Z (bool * rw_at)) : Prop := {
  vi_nodup : NoDup (chains R);
  vi_range : forall i, i ∈ chains R -> in_range i;
  vi_free : forall i, in_range i -> dk_free s i = 0 <-> i ∈ chains R;
  vi_bufs : NoDup (q_b <$> R);
  vi_fmt : forall q, q ∈ R -> formatted s q;
  vi_req : forall q, q ∈ R -> thr !! q_b q = Some (q_w q, RwData (q0 q));
  vi_thr : forall b w i, thr !! b = Some (w, RwData i) -> exists q, q ∈ R /\ q_b q = b;
  vi_live : forall b w, thr !! b <> Some (w, RwDone);
  vi_heads : NoDup (HA ++ HP ++ HU);
  vi_own : forall h, h ∈ HA ++ HP ++ HU -> exists q, q ∈ R /\ q0 q = h;
  vi_seen : 0 <= dv_seen v < 2 ^ 16 /\ av_idx s = u16 (dv_seen v + Z.of_nat (length HA)) /\ ring_holds (av_ring s) (dv_seen v) HA;
  vi_taken : dv_taken v ≡ₚ HP;
  vi_used : 0 <= dk_used_idx s < 2 ^ 16 /\ ud_idx s = u16 (dk_used_idx s + Z.of_nat (length HU)) /\
    ring_holds (fun i => ue_id (ud_ring s i)) (dk_used_idx s) HU;
  vi_status : forall q, q ∈ R -> (q0 q ∉ HA ++ HP ++ HU) -> in_status (dk_info s (q0 q)) = 0;
  vi_busy : forall q, q ∈ R -> vb_disk (dk_buf s (q_b q)) = 1 <-> q0 q ∈ HA ++ HP ++ HU;
  vi_data : forall b, length (vb_data (dk_buf s b)) = Z.to_nat DBSIZE /\ 0 <= vb_blockno (dk_buf s b) < 2 ^ 31;
}.

(** The fate the device stored for the request at [i]. *)
Definition outcome_of (s : disk) (i : Z) : fate := if in_status (dk_info s i) =? 0 then Served else Failed.

(** The abstract state: a request has its fate once the device has
    completed it. *)
Definition vabs (R : list vreq) (HA HP : list Z) (s : vsys D) (a : adisk) : Prop :=
  ad_pl a = vs_pl s /\
  (forall b, ad_no a b = vb_blockno (dk_buf (vs_dk s) b) /\ ad_data a b = vb_data (dk_buf (vs_dk s) b)) /\
  (forall b w i, vs_thr s !! b = Some (w, i) ->
     exists d, ad_out a !! b = Some (w, d) /\
       forall o, o <> Pending ->
         d = o <-> exists q, q ∈ R /\ q_b q = b /\ (q0 q ∉ HA ++ HP) /\ outcome_of (vs_dk s) (q0 q) = o) /\
  (forall b, vs_thr s !! b = None -> ad_out a !! b = None).

Lemma elem_of_chains i R : i ∈ chains R <-> exists q, q ∈ R /\ i ∈ chain q.
Proof. unfold chains. rewrite list_elem_of_bind. split; intros (q & ? & ?); exists q; done. Qed.

Lemma chains_head q R : q ∈ R -> q0 q ∈ chains R.
Proof. intros. apply elem_of_chains. exists q. split; [done|]. unfold chain. set_solver. Qed.

(** A descriptor belongs to one request. *)
Lemma chains_unique R q q' i : NoDup (chains R) -> q ∈ R -> q' ∈ R -> i ∈ chain q -> i ∈ chain q' -> q = q'.
Proof.
  induction R as [|r R IH]; intros Hnd Hq Hq' Hi Hi'; [by apply elem_of_nil in Hq|].
  unfold chains in Hnd. cbn [mbind list_bind] in Hnd. apply NoDup_app in Hnd as (_ & Hd & Hnd).
  apply elem_of_cons in Hq as [-> | Hq], Hq' as [-> | Hq']; [done| | |by apply IH].
  - exfalso. apply (Hd i Hi). apply elem_of_chains. eauto.
  - exfalso. apply (Hd i Hi'). apply elem_of_chains. eauto.
Qed.

Lemma chain_nodup R q : NoDup (chains R) -> q ∈ R -> NoDup (chain q).
Proof.
  intros Hnd (l & r & ->)%list_elem_of_split. unfold chains in Hnd. rewrite bind_app in Hnd. cbn [mbind list_bind] in Hnd.
  apply NoDup_app in Hnd as (_ & _ & Hnd). by apply NoDup_app in Hnd as [? _].
Qed.

Lemma head_unique R q q' : NoDup (chains R) -> q ∈ R -> q' ∈ R -> q0 q = q0 q' -> q = q'.
Proof.
  intros Hnd Hq Hq' E. apply (chains_unique R q q' (q0 q)); try done; [|rewrite E]; unfold chain; set_solver.
Qed.

Lemma buf_unique R q q' : NoDup (q_b <$> R) -> q ∈ R -> q' ∈ R -> q_b q = q_b q' -> q = q'.
Proof.
  induction R as [|r R IH]; intros Hnd Hq Hq' E; [by apply elem_of_nil in Hq|].
  cbn in Hnd. apply NoDup_cons in Hnd as [Hr Hnd].
  apply elem_of_cons in Hq as [-> | Hq], Hq' as [-> | Hq']; [done| | |by apply IH]; exfalso; apply Hr.
  - rewrite E. by apply list_elem_of_fmap_2.
  - rewrite <- E. by apply list_elem_of_fmap_2.
Qed.

(** Eight descriptors, three per request. *)
Lemma chains_length R : length (chains R) = (3 * length R)%nat.
Proof. unfold chains. induction R as [|r R IH]; cbn [mbind list_bind length]; [done|]. rewrite length_app, IH. cbn. lia. Qed.

Lemma range_length (l : list Z) : NoDup l -> (forall i, i ∈ l -> in_range i) -> (length l <= 8)%nat.
Proof.
  intros Hnd Hr. transitivity (length (seqZ 0 8)); [|done]. apply submseteq_length, NoDup_submseteq; [done|].
  intros i Hi. apply elem_of_seqZ. apply Hr in Hi. unfold in_range, NUM in Hi. lia.
Qed.

Lemma heads_length R HA HP HU s v thr : vinv R HA HP HU s v thr -> (length (HA ++ HP ++ HU) <= length R <= 2)%nat.
Proof.
  intros I. split.
  - rewrite <- (length_fmap q0). apply submseteq_length, NoDup_submseteq; [apply I|].
    intros h (q & Hq & <-)%(vi_own _ _ _ _ _ _ _ I). by apply list_elem_of_fmap_2.
  - pose proof (range_length (chains R) (vi_nodup _ _ _ _ _ _ _ I) (vi_range _ _ _ _ _ _ _ I)) as H.
    rewrite chains_length in H. lia.
Qed.

(** *** 16-bit ring indices *)
Lemma u16_ring z : u16 z mod NUM = z mod NUM.
Proof. unfold u16, NUM. change (2 ^ 16) with 65536. dlia. Qed.

Lemma u16_plus a b : u16 (u16 a + b) = u16 (a + b).
Proof. unfold u16. by rewrite Zplus_mod_idemp_l. Qed.

Lemma ring_push ring i l h : (length l < 8)%nat ->
  ring_holds ring i l -> ring_holds (upd ring ((i + Z.of_nat (length l)) mod NUM) h) i (l ++ [h]).
Proof.
  intros Hl HR j g Hj. destruct (decide (j < length l)%nat) as [Hlt|].
  - rewrite lookup_app_l in Hj by done. rewrite upd_ne; [by apply HR|]. unfold NUM. dlia.
  - rewrite lookup_app_r in Hj by lia. apply list_lookup_singleton_Some in Hj as [Hj <-].
    replace j with (length l) by lia. apply upd_eq.
Qed.

Lemma ring_pop ring i h l : ring_holds ring i (h :: l) -> ring_holds ring (u16 (i + 1)) l.
Proof.
  intros HR j g Hj. rewrite <- (HR (S j) g Hj). f_equal. unfold u16, NUM. change (2 ^ 16) with 65536. dlia.
Qed.

Lemma ring_head ring i h l : ring_holds ring i (h :: l) -> ring (i mod NUM) = h.
Proof. intros HR. rewrite <- (HR 0%nat h eq_refl). f_equal. f_equal. lia. Qed.
End inv.

(** ** The pieces of [virtio_disk_rw] keep the invariant *)
Section steps.
Context {D : Type} {VD : VirtioDevice D} (x : ctx).
Implicit Types (s : disk) (v : D) (thr : gmap Z (bool * rw_at)).

Definition same_data s s' : Prop :=
  forall b, vb_blockno (dk_buf s' b) = vb_blockno (dk_buf s b) /\ vb_data (dk_buf s' b) = vb_data (dk_buf s b).

Definition same_status (R : list vreq) s s' : Prop :=
  forall q, q ∈ R -> in_status (dk_info s' (q0 q)) = in_status (dk_info s (q0 q)).

Lemma v_acquire {A} s (k : M disk A) Q :
  lk_free (vdisk_lock s) -> runs k (set_vlock (Spinlock 1 (lk_name (vdisk_lock s)) (Some (c_hart x))) s) Q ->
  runs (v_spin (acquire_word (c_hart x)) ;; k) s Q.
Proof. intros Hl HK. apply runs_bind, runs_zoom. eapply runs_eq; [by apply acquire_word_free|]. done. Qed.

Lemma v_release {A} s nm (a : A) (Q : A -> disk -> Prop) :
  vdisk_lock s = Spinlock 1 nm (Some (c_hart x)) -> Q a (set_vlock (Spinlock 0 nm None) s) ->
  runs (v_spin (release_word (c_hart x)) ;; ret a) s Q.
Proof. intros HL HQ. apply runs_bind, runs_zoom. rewrite HL. eapply runs_eq; [apply release_word_held|]. by apply runs_ret. Qed.

Lemma vinv_vlock R HA HP HU s v thr k : vinv R HA HP HU s v thr -> vinv R HA HP HU (set_vlock k s) v thr.
Proof. intros []. by split. Qed.

(** Only descriptors of no request changed. *)
Lemma vinv_same R HA HP HU s s' v thr l :
  vinv R HA HP HU s v thr -> same_but l s s' -> (forall i, i ∈ l -> (i ∉ chains R)) ->
  (forall i, in_range i -> dk_free s' i = 0 <-> i ∈ chains R) -> vinv R HA HP HU s' v thr.
Proof.
  intros I [SD [SA SR] (SU & SV & SW) (SI & SO & SB & SL)] Hl Hf.
  assert (Hd : forall q i, q ∈ R -> i ∈ chain q -> dk_desc s' i = dk_desc s i).
  { intros q i Hq Hi. apply SD. intros Hil. apply (Hl i Hil). apply elem_of_chains. by exists q. }
  destruct I. split; try done; rewrite ?SA, ?SR, ?SU, ?SV, ?SW, ?SI, ?SB; try done.
  intros q Hq. destruct (vi_fmt0 q Hq) as (E0 & E1 & E2 & E3 & E4). unfold formatted.
  rewrite !(Hd q) by (done || (unfold chain; set_solver)). by rewrite SO, SB, SI.
Qed.

Lemma vinv_wait R HA HP HU s v thr b w :
  vinv R HA HP HU s v thr -> (forall w' i, thr !! b = Some (w', i) -> i = RwDesc) ->
  vinv R HA HP HU s v (<[b := (w, RwDesc)]> thr).
Proof.
  intros I Hb. destruct I. split; try done.
  - intros q Hq. destruct (decide (q_b q = b)) as [E|E]; [|rewrite lookup_insert_ne by done; by apply vi_req0].
    specialize (vi_req0 q Hq). rewrite E in vi_req0. by apply Hb in vi_req0.
  - intros b' w' i H. destruct (decide (b = b')) as [<-|]; [by rewrite lookup_insert_eq in H|].
    rewrite lookup_insert_ne in H by done. by eapply vi_thr0.
  - intros b' w' H. destruct (decide (b = b')) as [<-|]; [by rewrite lookup_insert_eq in H|].
    rewrite lookup_insert_ne in H by done. by eapply vi_live0.
Qed.

(** The state a submission leaves. *)
Definition submitted (i0 i1 i2 b : Z) (w : bool) (s : disk) : disk :=
  Disk (upd (upd (upd (dk_desc s) i0 (Desc (AOps i0) 16 VRING_DESC_F_NEXT i1)) i1
              (Desc (AData b) DBSIZE (Z.lor (if w then 0 else VRING_DESC_F_WRITE) VRING_DESC_F_NEXT) i2)) i2
              (Desc (AStatus i0) 1 VRING_DESC_F_WRITE 0))
    (u16 (av_idx s + 1)) (upd (av_ring s) (av_idx s mod NUM) (u16 i0)) (ud_idx s) (ud_ring s) (dk_free s) (dk_used_idx s)
    (upd (upd (dk_info s) i0 (DInfo (in_b (dk_info s i0)) 255)) i0 (DInfo (Some b) 255))
    (upd (dk_ops s) i0 (BlkReq (if w then VIRTIO_BLK_T_OUT else VIRTIO_BLK_T_IN) 0 (u32 (vb_blockno (dk_buf s b) * (DBSIZE / 512)))))
    (vdisk_lock s) (upd (dk_buf s) b (VBuf (vb_blockno (dk_buf s b)) (vb_data (dk_buf s b)) 1)) (dk_woken s).

Lemma rw_submit_run i0 i1 i2 b w s : rw_submit i0 i1 i2 b w s = (Ret tt, submitted i0 i1 i2 b w s).
Proof. unfold rw_submit, submitted, put_desc, put_info, put_disk, bind, get, modify. cbn. by rewrite upd_eq. Qed.

Lemma vinv_fresh R HA HP HU s v thr b :
  vinv R HA HP HU s v thr -> (forall w' i, thr !! b = Some (w', i) -> i = RwDesc) ->
  forall q, q ∈ R -> q_b q <> b.
Proof. intros I Hb q Hq <-. by apply (vi_req _ _ _ _ _ _ _ I), Hb in Hq. Qed.

(** The request just submitted is as the device expects it. *)
Lemma submitted_new i0 i1 i2 b w s :
  i0 <> i1 -> i0 <> i2 -> i1 <> i2 -> 0 <= vb_blockno (dk_buf s b) < 2 ^ 31 ->
  formatted (submitted i0 i1 i2 b w s) (VReq b w i0 i1 i2).
Proof.
  intros Hn01 Hn02 Hn12 Hno. unfold formatted, submitted; cbn [dk_desc dk_ops dk_buf dk_info q_b q_w q0 q1 q2].
  rewrite !upd_eq, (upd_ne _ i2 _ i1), (upd_ne _ i2 _ i0), (upd_ne _ i1 _ i0), !upd_eq by done. split_and!; try done.
  cbn [vb_blockno]. f_equal. unfold DBSIZE. apply u32_small. change (1024 / 512) with 2. lia.
Qed.

(** The others are not touched. *)
Lemma submitted_old i0 i1 i2 b w s q :
  formatted s q -> q_b q <> b -> (forall i, i ∈ chain q -> (i ∉ [i0; i1; i2])) ->
  formatted (submitted i0 i1 i2 b w s) q.
Proof.
  intros (E0 & E1 & E2 & E3 & E4) Hb Hout. unfold formatted, submitted; cbn [dk_desc dk_ops dk_buf dk_info].
  assert (Hd : forall i, i ∈ chain q -> i <> i0 /\ i <> i1 /\ i <> i2).
  { intros i H. specialize (Hout i H). clear -Hout. set_solver. }
  assert (q0 q ∈ chain q /\ q1 q ∈ chain q /\ q2 q ∈ chain q) as (H0 & H1 & H2) by (unfold chain; split_and!; set_solver).
  by rewrite !upd_ne by (first [done|by apply Hd]).
Qed.

Lemma vinv_submit R HA HP HU s s1 v thr b w i0 i1 i2 :
  vinv R HA HP HU s v thr -> NoDup [i0; i1; i2] -> (forall i, i ∈ [i0; i1; i2] -> in_range i /\ dk_free s i <> 0) ->
  same_but [] s s1 -> marked [i0; i1; i2] 0 s s1 -> (forall w' i, thr !! b = Some (w', i) -> i = RwDesc) ->
  vinv (VReq b w i0 i1 i2 :: R) (HA ++ [i0]) HP HU (submitted i0 i1 i2 b w s1) v (<[b := (w, RwData i0)]> thr).
Proof.
  intros I Hnd Hi [SD [SA SR] (SU & SV & SW) (SI & SO & SB & SL)] HM Hb.
  set (q := VReq b w i0 i1 i2).
  assert (Hc : forall i, i ∈ [i0; i1; i2] -> (i ∉ chains R)).
  { intros i H Hin. destruct (Hi i H) as [Hr Hf]. by apply Hf, (vi_free _ _ _ _ _ _ _ I). }
  pose proof (vinv_fresh _ _ _ _ _ _ _ _ I Hb) as Hbf.
  pose proof (heads_length _ _ _ _ _ _ _ I) as HL. rewrite length_app in HL.
  assert (H0r : in_range i0) by (apply Hi; set_solver).
  assert (Hout : forall q' i, q' ∈ R -> i ∈ chain q' -> (i ∉ [i0; i1; i2])).
  { intros q' i Hq' Hin H. apply (Hc i H). apply elem_of_chains. by exists q'. }
  assert (Hh : forall q', q' ∈ R -> q0 q' <> i0).
  { intros q' Hq' E. apply (Hout q' (q0 q') Hq'); [unfold chain; set_solver|rewrite E; set_solver]. }
  apply NoDup_cons in Hnd as [Hn0 Hnd]. assert (Hn01 : i0 <> i1) by set_solver. assert (Hn02 : i0 <> i2) by set_solver.
  apply NoDup_cons in Hnd as [Hn1 _]. assert (Hn12 : i1 <> i2) by set_solver.
  assert (Hnh : (i0 ∉ HA ++ HP ++ HU)). { intros (q' & Hq' & E)%(vi_own _ _ _ _ _ _ _ I). by apply (Hh q'). }
  destruct (vi_data _ _ _ _ _ _ _ I b) as [_ Hno].
  split.
  - change (chains (q :: R)) with ([i0; i1; i2] ++ chains R). apply NoDup_app. split_and!; [|done|apply I].
    repeat constructor; set_solver.
  - change (chains (q :: R)) with ([i0; i1; i2] ++ chains R).
    intros i [H|H]%elem_of_app; [by apply Hi|by apply (vi_range _ _ _ _ _ _ _ I)].
  - change (chains (q :: R)) with ([i0; i1; i2] ++ chains R). intros i Hr. cbn [dk_free submitted]. rewrite HM, elem_of_app.
    case_decide as H; [by split; [left|]|]. rewrite (vi_free _ _ _ _ _ _ _ I i Hr). split; [by right|by intros [|]].
  - cbn. constructor; [|apply I]. intros (q' & E & Hq')%list_elem_of_fmap_1. by apply (Hbf q').
  - intros q' [-> | Hq']%elem_of_cons.
    + apply submitted_new; [done|done|done|]. by rewrite SB.
    + apply submitted_old; [|by apply Hbf|intros i; by apply Hout].
      unfold formatted. rewrite !SD, SO, SI, SB by (clear; set_solver). by apply (vi_fmt _ _ _ _ _ _ _ I).
  - intros q' [-> | Hq']%elem_of_cons; [apply lookup_insert_eq|].
    rewrite lookup_insert_ne by (intros E; by apply (Hbf q' Hq')). by apply (vi_req _ _ _ _ _ _ _ I).
  - intros b' w' i H. destruct (decide (b = b')) as [<-|]; [exists q; split; [by left|done]|].
    rewrite lookup_insert_ne in H by done. destruct (vi_thr _ _ _ _ _ _ _ I _ _ _ H) as (q' & Hq' & E).
    exists q'. split; [by right|done].
  - intros b' w' H. destruct (decide (b = b')) as [<-|]; [by rewrite lookup_insert_eq in H|].
    rewrite lookup_insert_ne in H by done. by apply (vi_live _ _ _ _ _ _ _ I) in H.
  - rewrite <- app_assoc. pose proof (vi_heads _ _ _ _ _ _ _ I) as HN. cbn [app].
    rewrite <- Permutation_middle. by constructor.
  - intros h H. assert (H' : h = i0 \/ h ∈ HA ++ HP ++ HU) by (clear -H; set_solver). destruct H' as [-> | H'].
    + exists q. split; [by left|done].
    + destruct (vi_own _ _ _ _ _ _ _ I h H') as (q' & Hq' & E). exists q'. split; [by right|done].
  - destruct (vi_seen _ _ _ _ _ _ _ I) as (H1 & H2 & H3). cbn [av_idx av_ring submitted].
    rewrite SA, SR, H2. split; [exact H1|]. split; [rewrite length_app, u16_plus; f_equal; cbn [length]; lia|].
    rewrite u16_ring. unfold in_range, NUM in H0r. rewrite (u16_small i0) by lia. apply ring_push; [lia|done].
  - apply I.
  - cbn [dk_used_idx ud_idx ud_ring submitted]. rewrite SU, SV, SW. apply I.
  - intros q' [-> | Hq']%elem_of_cons H; [exfalso; apply H; cbn [q0]; clear; set_solver|].
    cbn [dk_info submitted]. rewrite !upd_ne by (by apply Hh). rewrite SI.
    apply (vi_status _ _ _ _ _ _ _ I); [done|]. clear -H. set_solver.
  - intros q' [-> | Hq']%elem_of_cons; cbn [dk_buf submitted].
    + cbn [q_b q q0]. rewrite upd_eq. cbn. split; [|done]. intros _. set_solver.
    + rewrite upd_ne by (by apply Hbf). rewrite SB, (vi_busy _ _ _ _ _ _ _ I q' Hq').
      specialize (Hh q' Hq'). clear -Hh. set_solver.
  - intros b'. cbn [dk_buf submitted]. unfold upd. case_decide as E; [cbn; subst b'|]; rewrite SB; apply (vi_data _ _ _ _ _ _ _ I).
Qed.

Lemma same_but_data l s s' : same_but l s s' -> same_data s s'.
Proof. intros [_ _ _ (_ & _ & E & _)] b. by rewrite E. Qed.

Lemma same_but_status R l s s' : same_but l s s' -> same_status R s s'.
Proof. intros [_ _ _ (E & _)] q _. by rewrite E. Qed.

Lemma rw_enter_run R HA HP HU s v thr b w :
  lk_free (vdisk_lock s) -> vinv R HA HP HU s v thr -> (forall w' i, thr !! b = Some (w', i) -> i = RwDesc) ->
  runs (rw_enter x b w) s (fun a s' => lk_free (vdisk_lock s') /\ same_data s s' /\ same_status R s s' /\
    ((a = RwDesc /\ vinv R HA HP HU s' v (<[b := (w, RwDesc)]> thr)) \/
     (exists i0 i1 i2, a = RwData i0 /\
        vinv (VReq b w i0 i1 i2 :: R) (HA ++ [i0]) HP HU s' v (<[b := (w, RwData i0)]> thr)))).
Proof.
  intros Hl I Hb. unfold rw_enter. apply v_acquire; [done|]. set (s0 := set_vlock _ s).
  assert (I0 : vinv R HA HP HU s0 v thr) by (by apply vinv_vlock).
  eapply runs_seq; [apply alloc3_desc_run|].
  intros [r idx] s1 [(i0 & i1 & i2 & [= -> ->] & Hnd & Hi & HS & HM)|(E & l & Hi & HS & HM)].
  - cbn [Z.eqb]. apply runs_bind. eapply runs_eq; [apply rw_submit_run|]. cbn beta.
    change ([i0; i1; i2] !!! 0%nat) with i0. change ([i0; i1; i2] !!! 1%nat) with i1. change ([i0; i1; i2] !!! 2%nat) with i2.
    unfold rw_tail. mstep. cbn [dk_buf submitted]. rewrite upd_eq. cbn [vb_disk Z.eqb Pos.eqb].
    eapply v_release; [cbn [vdisk_lock submitted]; apply HS|]. split_and!; [done| | |].
    2:{ intros q Hq. cbn [dk_info submitted set_vlock]. destruct HS as [_ _ _ (-> & _)]. rewrite !upd_ne; [done| |];
        intros E; destruct (Hi i0 ltac:(clear; set_solver)) as [Hr Hf]; apply Hf, (vi_free _ _ _ _ _ _ _ I0); [done|rewrite <- E; by apply chains_head|done|rewrite <- E; by apply chains_head]. }
    + intros b'. cbn [dk_buf submitted set_vlock]. unfold upd. destruct HS as [_ _ _ (_ & _ & -> & _)].
      case_decide as E; [by subst b'|done].
    + right. exists i0, i1, i2. split; [done|]. apply vinv_vlock. by eapply vinv_submit.
  - cbn [fst] in E. subst r. cbn [Z.eqb]. eapply v_release; [apply HS|]. split_and!; [done| | |left; split; [done|]].
    { by eapply same_but_data in HS. }
    { by eapply same_but_status in HS. }
    apply vinv_vlock, vinv_wait; [|done]. eapply (vinv_same _ _ _ _ s0); [done|exact HS| |].
    + intros i Hil Hc. destruct (Hi i Hil) as [Hr Hf]. by apply Hf, (vi_free _ _ _ _ _ _ _ I0).
    + intros i Hr. rewrite HM. case_decide as H; [|by apply (vi_free _ _ _ _ _ _ _ I0)].
      split; [done|]. intros Hc. exfalso. destruct (Hi i H) as [_ Hf]. by apply Hf, (vi_free _ _ _ _ _ _ _ I0).
Qed.

(** *** The end of a request *)
Lemma free_chain_run s t q n :
  formatted t q -> dk_desc s = dk_desc t -> NoDup (chain q) -> (forall i, i ∈ chain q -> in_range i /\ dk_free s i = 0) ->
  runs (free_chain (S (S (S n))) (q0 q)) s (fun _ s' => same_but (chain q) s s' /\ marked (chain q) 1 s s').
Proof.
  intros (E0 & E1 & E2 & _) ED Hnd Hi. rewrite <- ED in *. unfold chain in *.
  apply NoDup_cons in Hnd as [N0 Hnd]. apply NoDup_cons in Hnd as [N1 _].
  assert (q1 q <> q0 q /\ q2 q <> q0 q /\ q2 q <> q1 q) as (D1 & D2 & D3) by (split_and!; set_solver).
  destruct (Hi (q0 q) ltac:(set_solver)) as [R0 F0], (Hi (q1 q) ltac:(set_solver)) as [R1 F1], (Hi (q2 q) ltac:(set_solver)) as [R2 F2].
  cbn [free_chain]. mstep. rewrite E0. eapply runs_seq; [by apply free_desc_run|]. intros _ s1 [S1 M1].
  change (negb (Z.land (d_flags (Desc (AOps (q0 q)) 16 VRING_DESC_F_NEXT (q1 q))) VRING_DESC_F_NEXT =? 0)) with true. cbn [d_next].
  mstep. rewrite (sb_desc _ _ _ S1 (q1 q)) by set_solver. rewrite E1.
  eapply runs_seq; [apply free_desc_run; [done|by rewrite M1, upd_ne]|]. intros _ s2 [S2 M2].
  replace (negb (Z.land (d_flags (Desc (AData (q_b q)) DBSIZE (Z.lor (if q_w q then 0 else VRING_DESC_F_WRITE) VRING_DESC_F_NEXT) (q2 q))) VRING_DESC_F_NEXT =? 0))
    with true by (by destruct (q_w q)). cbn [d_next].
  mstep. rewrite (sb_desc _ _ _ S2 (q2 q)), (sb_desc _ _ _ S1 (q2 q)) by set_solver. rewrite E2.
  eapply runs_seq; [apply free_desc_run; [done|by rewrite M2, upd_ne, M1, upd_ne]|]. intros _ s3 [S3 M3].
  change (negb (Z.land (d_flags (Desc (AStatus (q0 q)) 1 VRING_DESC_F_WRITE 0)) VRING_DESC_F_NEXT =? 0)) with false.
  apply runs_ret. split.
  - eapply same_but_trans; [|eapply same_but_trans]; eapply same_but_weaken;
      [exact S1| |exact S2| |exact S3|]; clear; set_solver.
  - intros i. rewrite M3, M2, M1. clear. unfold upd. repeat case_decide; set_solver.
Qed.

(** [R] without the request at [q]. *)
Lemma vinv_finish l r HA HP HU s s' v thr q :
  vinv (l ++ q :: r) HA HP HU s v thr -> (q0 q ∉ HA ++ HP ++ HU) ->
  same_but (chain q) (set_info (upd (dk_info s) (q0 q) (DInfo None (in_status (dk_info s (q0 q))))) s) s' ->
  marked (chain q) 1 s s' -> vinv (l ++ r) HA HP HU s' v (delete (q_b q) thr).
Proof.
  intros I Hh [SD [SA SR] (SU & SV & SW) (SI & SO & SB & SL)] HM.
  cbn [set_info dk_desc av_idx av_ring ud_idx ud_ring dk_used_idx dk_info dk_ops dk_buf] in *.
  assert (EP : l ++ q :: r ≡ₚ q :: l ++ r) by (symmetry; apply Permutation_middle).
  assert (EC : chains (l ++ q :: r) ≡ₚ chain q ++ chains (l ++ r)).
  { unfold chains. by rewrite EP. }
  assert (Hin : forall q', q' ∈ l ++ r -> q' ∈ l ++ q :: r) by (intros q'; rewrite EP; by right).
  assert (Hq : q ∈ l ++ q :: r) by (rewrite EP; by left).
  pose proof (vi_nodup _ _ _ _ _ _ _ I) as HN. rewrite EC in HN. apply NoDup_app in HN as (HN1 & HN2 & HN3).
  pose proof (vi_bufs _ _ _ _ _ _ _ I) as HB. rewrite EP in HB. cbn in HB. apply NoDup_cons in HB as [HB1 HB2].
  assert (Hbne : forall q', q' ∈ l ++ r -> q_b q' <> q_b q).
  { intros q' Hq' E. apply HB1. rewrite <- E. by apply list_elem_of_fmap_2. }
  assert (Hcne : forall q' i, q' ∈ l ++ r -> i ∈ chain q' -> (i ∉ chain q)).
  { intros q' i Hq' Hi Hi'. apply (HN2 i Hi'). apply elem_of_chains. by exists q'. }
  assert (Hhne : forall h, h ∈ HA ++ HP ++ HU -> h <> q0 q) by (intros h H ->; done).
  assert (H0 : forall q', q0 q' ∈ chain q' /\ q1 q' ∈ chain q' /\ q2 q' ∈ chain q').
  { intros q'. unfold chain. split_and!; set_solver. }
  split.
  - done.
  - intros i Hi. apply (vi_range _ _ _ _ _ _ _ I). rewrite EC. apply elem_of_app. by right.
  - intros i Hr. rewrite HM. pose proof (vi_free _ _ _ _ _ _ _ I i Hr) as HF. rewrite EC, elem_of_app in HF.
    case_decide as H; [split; [done|intros H'; by apply (HN2 i) in H']|]. rewrite HF. split; [by intros [|]|by right].
  - done.
  - intros q' Hq'. destruct (vi_fmt _ _ _ _ _ _ _ I q' (Hin q' Hq')) as (E0 & E1 & E2 & E3 & E4). unfold formatted.
    destruct (H0 q') as (C0 & C1 & C2). rewrite !SD by (by apply (Hcne q')). rewrite SO, SB, SI, upd_ne; [done|].
    intros E. apply (Hcne q' _ Hq' C0). rewrite E. apply H0.
  - intros q' Hq'. rewrite lookup_delete_ne by (intros E; by apply (Hbne q')). by apply (vi_req _ _ _ _ _ _ _ I), Hin.
  - intros b w i H. apply lookup_delete_Some in H as [Hne H].
    destruct (vi_thr _ _ _ _ _ _ _ I _ _ _ H) as (q' & Hq' & E). exists q'. split; [|done].
    rewrite EP in Hq'. apply elem_of_cons in Hq' as [-> | ?]; done.
  - intros b w H. apply lookup_delete_Some in H as [_ H]. by apply (vi_live _ _ _ _ _ _ _ I) in H.
  - apply I.
  - intros h H. destruct (vi_own _ _ _ _ _ _ _ I h H) as (q' & Hq' & E). exists q'. split; [|done].
    rewrite EP in Hq'. apply elem_of_cons in Hq' as [-> | ?]; [|done]. by apply Hhne in H.
  - rewrite SA, SR. apply I.
  - apply I.
  - rewrite SU, SV, SW. apply I.
  - intros q' Hq' H. rewrite SI, upd_ne; [by apply (vi_status _ _ _ _ _ _ _ I); [apply Hin|]|].
    intros E. apply (Hcne q' (q0 q') Hq'); [|rewrite E]; apply H0.
  - intros q' Hq'. rewrite SB. by apply (vi_busy _ _ _ _ _ _ _ I), Hin.
  - rewrite SB. apply I.
Qed.

Lemma rw_wake_run R HA HP HU s v thr b w i0 :
  lk_free (vdisk_lock s) -> vinv R HA HP HU s v thr -> thr !! b = Some (w, RwData i0) ->
  runs (rw_wake x b i0) s (fun a s' => lk_free (vdisk_lock s') /\ same_data s s' /\ same_status R s s' /\
    ((a = RwData i0 /\ vinv R HA HP HU s' v thr) \/
     (exists l q r, a = RwDone /\ R = l ++ q :: r /\ q_b q = b /\ (q0 q ∉ HA ++ HP ++ HU) /\
        vinv (l ++ r) HA HP HU s' v (delete b thr)))).
Proof.
  intros Hl I Hb. unfold rw_wake. apply v_acquire; [done|]. set (s0 := set_vlock _ s).
  assert (I0 : vinv R HA HP HU s0 v thr) by (by apply vinv_vlock).
  destruct (vi_thr _ _ _ _ _ _ _ I0 _ _ _ Hb) as (q & Hq & <-).
  pose proof (vi_req _ _ _ _ _ _ _ I0 q Hq) as E. rewrite Hb in E. injection E as -> ->.
  unfold rw_tail. mstep. destruct (Z.eqb_spec (vb_disk (dk_buf s0 (q_b q))) 1) as [E|E].
  - eapply v_release; [done|]. split_and!; [done|done|done|left; split; [done|by apply vinv_vlock]].
  - assert (Hh : (q0 q ∉ HA ++ HP ++ HU)) by (intros H; by apply E, (vi_busy _ _ _ _ _ _ _ I0)).
    unfold put_info. mstep. set (s1 := set_info _ s0).
    assert (EF : dk_free s1 = dk_free s0) by done.
    eapply runs_seq; [apply (free_chain_run s1 s0 q)|].
    + by apply (vi_fmt _ _ _ _ _ _ _ I0).
    + done.
    + apply (chain_nodup R); [apply I0|done].
    + intros i Hi. assert (Hc : i ∈ chains R) by (apply elem_of_chains; by exists q).
      pose proof (vi_range _ _ _ _ _ _ _ I0 i Hc) as Hr. split; [done|]. by apply (vi_free _ _ _ _ _ _ _ I0 i Hr).
    + intros _ s2 [S2 M2]. eapply v_release; [apply S2|]. split_and!; [done|by apply same_but_data in S2| |right].
      { intros q' _. pose proof (sb_rest _ _ _ S2) as (E' & _). cbn [dk_info set_vlock]. rewrite E'. cbn [dk_info s1 set_info].
        unfold upd. case_decide as Eq; [by rewrite Eq|done]. }
      apply list_elem_of_split in Hq as (l & r & ->). exists l, q, r. split_and!; try done.
      apply vinv_vlock. by eapply vinv_finish.
Qed.

(** *** The interrupt handler *)
Definition reported (b : Z) (s : disk) : disk :=
  set_used_idx (u16 (dk_used_idx s + 1)) (set_woken (dk_woken s ++ [buf_chan b])
    (set_buf (upd (dk_buf s) b (VBuf (vb_blockno (dk_buf s b)) (vb_data (dk_buf s b)) 0)) s)).

Lemma vinv_report R HA HP HU s v thr q :
  vinv R HA HP (q0 q :: HU) s v thr -> q ∈ R -> in_status (dk_info s (q0 q)) = 0 ->
  vinv R HA HP HU (reported (q_b q) s) v thr.
Proof.
  intros I Hq Hst. destruct (vi_used _ _ _ _ _ _ _ I) as (U1 & U2 & U3).
  assert (HN : NoDup (q0 q :: HA ++ HP ++ HU)).
  { rewrite app_assoc, Permutation_middle, <- app_assoc. apply I. }
  apply NoDup_cons in HN as [Hn HN].
  assert (Hsub : forall h, h ∈ HA ++ HP ++ HU -> h ∈ HA ++ HP ++ q0 q :: HU) by (clear; set_solver).
  assert (Hoth : forall q', q' ∈ R -> q_b q' = q_b q -> q' = q).
  { intros q' Hq' E. by apply (buf_unique R); [apply I|..]. }
  pose proof I as I'. destruct I. split; try done.
  - intros q' Hq'. specialize (vi_fmt0 q' Hq'). unfold formatted in *. cbn [dk_desc dk_ops dk_buf dk_info reported set_used_idx set_woken set_buf].
    unfold upd. case_decide as E; [|done]. cbn [vb_blockno]. by rewrite <- E.
  - intros h H. by apply vi_own0, Hsub.
  - cbn [dk_used_idx ud_idx ud_ring reported set_used_idx set_woken set_buf]. split; [|split; [|by apply ring_pop in U3]].
    + unfold u16. apply Z.mod_pos_bound. lia.
    + rewrite U2, u16_plus. f_equal. cbn [length]. lia.
  - intros q' Hq' H. cbn [dk_info reported set_used_idx set_woken set_buf].
    destruct (decide (q0 q' = q0 q)) as [E|E]; [by rewrite E|]. apply vi_status0; [done|]. clear -H E. set_solver.
  - intros q' Hq'. cbn [dk_buf reported set_used_idx set_woken set_buf]. unfold upd. case_decide as E.
    + rewrite (Hoth q' Hq' E). cbn. split; [done|]. intros H. done.
    + rewrite (vi_busy0 q' Hq'). split; [|apply Hsub].
      assert (q0 q' <> q0 q) by (intros E'; apply E; f_equal; by apply (head_unique R)). clear -H. set_solver.
  - intros b. cbn [dk_buf reported set_used_idx set_woken set_buf]. unfold upd. case_decide as E; [subst b; cbn|]; apply vi_data0.
Qed.

(** One round: it ends, reports the oldest entry of the used ring, or finds an
    error there. *)
Lemma intr_loop_eq fuel R HA HP HU s v thr :
  vinv R HA HP HU s v thr ->
  match HU with
  | [] => intr_loop (S fuel) s = (Ret tt, s)
  | h :: _ => exists q, q ∈ R /\ q0 q = h /\ intr_loop (S fuel) s =
      if in_status (dk_info s h) =? 0 then intr_loop fuel (reported (q_b q) s)
      else (Panic "virtio_disk_intr status", s)
  end.
Proof.
  intros I. destruct (vi_used _ _ _ _ _ _ _ I) as (U1 & U2 & U3).
  pose proof (heads_length _ _ _ _ _ _ _ I) as HL. rewrite !length_app in HL.
  assert (E2 : (dk_used_idx s =? ud_idx s) = bool_decide (HU = [])).
  { rewrite U2. destruct HU as [|h HU]; cbn [length] in *.
    - rewrite bool_decide_true by done. apply Z.eqb_eq. unfold u16. rewrite Z.add_0_r, Z.mod_small; lia.
    - rewrite bool_decide_false by done. apply Z.eqb_neq. unfold u16. change (2 ^ 16) with 65536 in *. dlia. }
  destruct HU as [|h HU].
  { cbn [intr_loop]. unfold bind, get. rewrite E2, bool_decide_true by done. done. }
  destruct (vi_own _ _ _ _ _ _ _ I h ltac:(clear; set_solver)) as (q & Hq & <-). exists q. split_and!; [done|done|].
  pose proof (vi_range _ _ _ _ _ _ _ I _ (chains_head q R Hq)) as Hr. unfold in_range, NUM in Hr.
  cbn [intr_loop]. unfold bind at 1, get. rewrite E2, bool_decide_false by done. cbn [negb].
  rewrite (ring_head _ _ _ _ U3), s32_small by lia. destruct (in_status (dk_info s (q0 q)) =? 0); cbn [negb]; [|done].
  destruct (vi_fmt _ _ _ _ _ _ _ I q Hq) as (_ & _ & _ & _ & ->). done.
Qed.

(** The device reported success for every request in the used ring. *)
Definition all_ok (HU : list Z) s : Prop := Forall (fun h => in_status (dk_info s h) = 0) HU.

#[local] Instance all_ok_dec HU s : Decision (all_ok HU s).
Proof. unfold all_ok. apply _. Defined.

Lemma intr_loop_run fuel : forall R HA HP HU s v thr,
  vinv R HA HP HU s v thr -> (length HU < fuel)%nat -> all_ok HU s ->
  runs (intr_loop fuel) s (fun _ s' => vinv R HA HP [] s' v thr /\ same_data s s' /\ same_status R s s' /\ vdisk_lock s' = vdisk_lock s).
Proof.
  induction fuel as [|fuel IH]; intros R HA HP HU s v thr I Hf Hok; [lia|].
  pose proof (intr_loop_eq fuel _ _ _ _ _ _ _ I) as HE. destruct HU as [|h HU]; [by eapply runs_eq|].
  destruct HE as (q & Hq & <- & HE). apply Forall_cons in Hok as [H0 Hok]. rewrite H0 in HE. cbn [Z.eqb] in HE.
  destruct (IH R HA HP HU (reported (q_b q) s) v thr) as (a & s' & E & I' & HD & HS & HK);
    [by apply vinv_report|cbn [length] in Hf; lia|exact Hok|].
  exists a, s'. split; [by rewrite HE|]. split_and!; [done| |done|done].
  intros b. destruct (HD b) as [-> ->]. cbn [dk_buf reported set_used_idx set_woken set_buf]. unfold upd.
  case_decide as Eb; [by subst b|done].
Qed.

Lemma intr_loop_panic fuel : forall R HA HP HU s v thr,
  vinv R HA HP HU s v thr -> (length HU < fuel)%nat -> ~ all_ok HU s ->
  (intr_loop fuel s).1 = Panic "virtio_disk_intr status".
Proof.
  induction fuel as [|fuel IH]; intros R HA HP HU s v thr I Hf Hok; [lia|].
  pose proof (intr_loop_eq fuel _ _ _ _ _ _ _ I) as HE. destruct HU as [|h HU]; [by destruct Hok; constructor|].
  destruct HE as (q & Hq & <- & ->). destruct (Z.eqb_spec (in_status (dk_info s (q0 q))) 0) as [E|E]; [|done].
  apply (IH R HA HP HU (reported (q_b q) s) v thr); [by apply vinv_report|cbn [length] in Hf; lia|].
  intros H. apply Hok. by constructor.
Qed.

Lemma intr_fuel R HA HP HU s v thr :
  vinv R HA HP HU s v thr -> (length HU < S (Z.to_nat (u16 (ud_idx s - dk_used_idx s))))%nat.
Proof.
  intros I. destruct (vi_used _ _ _ _ _ _ _ I) as (U1 & U2 & U3). rewrite U2.
  pose proof (heads_length _ _ _ _ _ _ _ I) as HL. rewrite !length_app in HL.
  unfold u16. change (2 ^ 16) with 65536 in *. dlia.
Qed.

Lemma virtio_disk_intr_run R HA HP HU s v thr :
  lk_free (vdisk_lock s) -> vinv R HA HP HU s v thr -> all_ok HU s ->
  runs (virtio_disk_intr x) s (fun _ s' =>
    lk_free (vdisk_lock s') /\ same_data s s' /\ same_status R s s' /\ vinv R HA HP [] s' v thr).
Proof.
  intros Hl I Hok. unfold virtio_disk_intr. apply v_acquire; [done|]. set (s0 := set_vlock _ s).
  assert (I0 : vinv R HA HP HU s0 v thr) by (by apply vinv_vlock). mstep.
  eapply runs_seq; [apply (intr_loop_run _ R HA HP HU s0); [exact I0|by apply (intr_fuel R HA HP HU _ v thr)|exact Hok]|].
  intros _ s1 (I1 & HD & HS & HK). apply runs_zoom. rewrite HK. eapply runs_eq; [apply release_word_held|].
  split_and!; [done|exact HD|exact HS|by apply vinv_vlock].
Qed.

Lemma virtio_disk_intr_panic R HA HP HU s v thr :
  lk_free (vdisk_lock s) -> vinv R HA HP HU s v thr -> ~ all_ok HU s ->
  (virtio_disk_intr x s).1 = Panic "virtio_disk_intr status".
Proof.
  intros Hl I Hok. unfold virtio_disk_intr, v_spin, zoom. unfold bind at 1. rewrite acquire_word_free by done.
  set (s0 := set_vlock _ s). assert (I0 : vinv R HA HP HU s0 v thr) by (by apply vinv_vlock).
  unfold bind at 1, gets. unfold bind at 1.
  pose proof (intr_loop_panic _ _ _ _ _ s0 _ _ I0 (intr_fuel _ _ _ _ _ _ _ I0) Hok) as HP'.
  destruct (intr_loop _ s0) as [o s1]. cbn in HP'. by rewrite HP'.
Qed.

(** *** The device and the owners of buffers *)
Definition with_contents (b no : Z) (d : list Z) (s : disk) : disk :=
  set_buf (upd (dk_buf s) b (VBuf no d (vb_disk (dk_buf s b)))) s.

Lemma vinv_contents R HA HP HU s v thr b no d :
  vinv R HA HP HU s v thr -> no = vb_blockno (dk_buf s b) \/ (forall q, q ∈ R -> q_b q <> b) ->
  length d = Z.to_nat DBSIZE -> 0 <= no < 2 ^ 31 -> vinv R HA HP HU (with_contents b no d s) v thr.
Proof.
  intros I Hb Hd Hno. destruct I. split; try done.
  - intros q Hq. specialize (vi_fmt0 q Hq). unfold formatted in *. cbn [with_contents set_buf dk_desc dk_ops dk_info dk_buf].
    unfold upd. case_decide as E; [|done]. destruct Hb as [-> |Hb]; [|by destruct (Hb q Hq)]. cbn [vb_blockno]. by rewrite <- E.
  - intros q Hq. cbn [with_contents set_buf dk_buf]. rewrite <- (vi_busy0 q Hq). unfold upd.
    case_decide as E; [cbn; by rewrite E|done].
  - intros b'. cbn [with_contents set_buf dk_buf]. unfold upd. case_decide; [done|apply vi_data0].
Qed.

Lemma vinv_fetch R HA HP HU s v v' thr :
  vinv R HA HP HU s v thr -> dv_seen v <> av_idx s -> dv_seen v' = u16 (dv_seen v + 1) ->
  dv_taken v' = dv_taken v ++ [av_ring s (dv_seen v mod NUM)] ->
  exists h HA', HA = h :: HA' /\ vinv R HA' (HP ++ [h]) HU s v' thr.
Proof.
  intros I Hne Es Et. destruct (vi_seen _ _ _ _ _ _ _ I) as (S1 & S2 & S3). destruct HA as [|h HA].
  { exfalso. apply Hne. rewrite S2. unfold u16. cbn [length]. rewrite Z.mod_small; lia. }
  exists h, HA. split; [done|]. rewrite (ring_head _ _ _ _ S3) in Et.
  assert (EP : HA ++ (HP ++ [h]) ++ HU ≡ₚ (h :: HA) ++ HP ++ HU).
  { rewrite <- app_assoc, app_assoc. cbn [app]. by rewrite <- Permutation_middle, <- app_assoc. }
  destruct I. split; try done.
  - by rewrite EP.
  - intros h'. rewrite EP. apply vi_own0.
  - rewrite Es. split; [unfold u16; apply Z.mod_pos_bound; lia|]. split; [|by eapply ring_pop].
    rewrite S2, u16_plus. f_equal. cbn [length]. lia.
  - rewrite Et. by f_equiv.
  - intros q Hq. rewrite EP. by apply vi_status0.
  - intros q Hq. rewrite EP. by apply vi_busy0.
Qed.

(** The driver's side of a completed request. *)
Definition completed (q : vreq) (status : Z) (s : disk) : disk :=
  set_used (u16 (ud_idx s + 1)) (upd (ud_ring s) (ud_idx s mod NUM) (UsedElem (q0 q) DBSIZE))
    (set_info (upd (dk_info s) (q0 q) (DInfo (in_b (dk_info s (q0 q))) status)) s).

(** The bytes a completion writes, to the platter or to the buffer. *)
Definition moved (q : vreq) (status : Z) (junk : list Z) (pl : mem) (s : disk) : list Z :=
  if status =? 0 then
    if q_w q then vb_data (dk_buf s (q_b q)) else load_bytes (Z.to_nat DBSIZE) pl (vb_blockno (dk_buf s (q_b q)) * DBSIZE)
  else junk.

Lemma length_moved q status junk pl s :
  length (vb_data (dk_buf s (q_b q))) = Z.to_nat DBSIZE -> length junk = Z.to_nat DBSIZE ->
  length (moved q status junk pl s) = Z.to_nat DBSIZE.
Proof. intros. unfold moved. repeat case_match; [done|apply length_load_bytes|done]. Qed.

Lemma serve_formatted s pl q status junk :
  formatted s q -> length (vb_data (dk_buf s (q_b q))) = Z.to_nat DBSIZE -> length junk = Z.to_nat DBSIZE ->
  let b := q_b q in
  let d := moved q status junk pl s in
  serve_chain (q0 q) status junk pl s = Some (
    if q_w q then (store_bytes pl (vb_blockno (dk_buf s b) * DBSIZE) d, completed q status s)
    else (pl, completed q status (with_contents b (vb_blockno (dk_buf s b)) d s))).
Proof.
  intros (E0 & E1 & E2 & E3 & E4) Hl Hj b d. unfold serve_chain. rewrite E0. cbn [d_next d_addr]. rewrite E1. cbn [d_next d_addr d_len d_flags].
  rewrite E2. cbn [d_addr]. rewrite E3. cbn [rq_type rq_sector].
  replace (vb_blockno (dk_buf s (q_b q)) * 2 * 512) with (vb_blockno (dk_buf s (q_b q)) * DBSIZE) by (unfold DBSIZE; lia). subst b.
  unfold d, moved. destruct (q_w q); cbn [Z.eqb VIRTIO_BLK_T_OUT VIRTIO_BLK_T_IN Pos.eqb].
  - destruct (status =? 0); by rewrite take_ge by (rewrite ?Hl, ?Hj; done).
  - destruct (status =? 0); [done|]. by rewrite take_ge by (rewrite ?Hl, ?Hj; done).
Qed.

Lemma vinv_complete R HA HP HP' HU s v v' thr q status :
  vinv R HA HP HU s v thr -> q ∈ R -> HP ≡ₚ q0 q :: HP' -> dv_seen v' = dv_seen v -> dv_taken v' ≡ₚ HP' ->
  vinv R HA HP' (HU ++ [q0 q]) (completed q status s) v' thr.
Proof.
  intros I Hq EP Es Et. destruct (vi_used _ _ _ _ _ _ _ I) as (U1 & U2 & U3).
  pose proof (heads_length _ _ _ _ _ _ _ I) as HL. rewrite !length_app in HL.
  assert (EH : HA ++ HP' ++ HU ++ [q0 q] ≡ₚ HA ++ HP ++ HU).
  { rewrite EP. f_equiv. rewrite app_assoc, (Permutation_app_comm _ [q0 q]). done. }
  destruct I. split; try done.
  - intros q' Hq'. specialize (vi_fmt0 q' Hq'). unfold formatted in *. cbn [completed set_used set_info dk_desc dk_ops dk_info dk_buf].
    unfold upd. case_decide as E; [|done]. cbn [in_b]. by rewrite <- E.
  - by rewrite EH.
  - intros h. rewrite EH. apply vi_own0.
  - rewrite Es. apply vi_seen0.
  - cbn [completed set_used set_info dk_used_idx ud_idx ud_ring]. split; [done|]. rewrite U2. split.
    + rewrite length_app, u16_plus. f_equal. cbn [length]. lia.
    + rewrite u16_ring. intros j h Hj.
      pose proof (ring_push (fun i => ue_id (ud_ring s i)) (dk_used_idx s) HU (q0 q) ltac:(clear -HL; lia) U3 j h Hj) as E. unfold upd in *. by case_decide.
  - intros q' Hq' H. cbn [completed set_used set_info dk_info]. rewrite upd_ne by (clear -H; set_solver).
    apply vi_status0; [done|]. by rewrite <- EH.
  - intros q' Hq'. rewrite EH. by apply vi_busy0.
Qed.

(** ** Simulation by the abstract disk *)
Definition vrel (s : vsys D) (a : adisk) : Prop :=
  lk_free (vdisk_lock (vs_dk s)) /\
  exists R HA HP HU, vinv R HA HP HU (vs_dk s) (vs_dv s) (vs_thr s) /\ vabs R HA HP s a.

(** A call that waits for descriptors. *)
Lemma vrel_submit (s : vsys D) a b w :
  vrel s a -> vs_thr s !! b = None ->
  vrel (VSys (vs_dk s) (vs_pl s) (vs_dv s) (<[b := (w, RwDesc)]> (vs_thr s)))
    (ADisk (ad_pl a) (ad_no a) (ad_data a) (<[b := (w, Pending)]> (ad_out a))).
Proof.
  intros (Hl & R & HA & HP & HU & I & A1 & A2 & A3 & A4) Hb. split; [done|].
  exists R, HA, HP, HU. split; [apply vinv_wait; [done|]; intros w' i; by rewrite Hb|].
  assert (Hf : forall q, q ∈ R -> q_b q <> b) by (apply (vinv_fresh _ _ _ _ _ _ _ b I); intros w' i; by rewrite Hb).
  split_and!; [done|done| |]; cbn [vs_thr ad_out].
  - intros b' w' i. destruct (decide (b = b')) as [<-|Hn].
    + rewrite !lookup_insert_eq. intros [= <- <-]. exists Pending. split; [done|]. intros o Ho. split; [done|].
      intros (q & Hq & E & _). by apply Hf in E.
    + rewrite !lookup_insert_ne by done. apply A3.
  - intros b'. destruct (decide (b = b')) as [<-|Hn]; [by rewrite lookup_insert_eq|].
    rewrite !lookup_insert_ne by done. apply A4.
Qed.

Lemma outcome_same R s s' q : same_status R s s' -> q ∈ R -> outcome_of s' (q0 q) = outcome_of s (q0 q).
Proof. intros HS Hq. unfold outcome_of. by rewrite (HS q Hq). Qed.

(** Neither contents nor outcomes changed. *)
Lemma vabs_quiet R HA HP (s : vsys D) dk' a :
  vabs R HA HP s a -> same_data (vs_dk s) dk' -> same_status R (vs_dk s) dk' ->
  vabs R HA HP (VSys dk' (vs_pl s) (vs_dv s) (vs_thr s)) a.
Proof.
  intros (A1 & A2 & A3 & A4) HD HS. split_and!; [done| | |done].
  - intros b. cbn [vs_dk]. destruct (HD b) as [-> ->]. apply A2.
  - intros b w i H. destruct (A3 b w i H) as (d & Ed & Hd). exists d. split; [done|]. intros o Ho. rewrite (Hd o Ho).
    split; intros (q & Hq & Eq & Hn & Eo); exists q; split_and!; try done; cbn [vs_dk] in *.
    + by rewrite (outcome_same R _ _ q HS Hq).
    + by rewrite <- (outcome_same R _ _ q HS Hq).
Qed.

(** It goes to sleep again, or submits its request. *)
Lemma vrel_enter (s : vsys D) a b w r dk' :
  vrel s a -> vs_thr s !! b = Some (w, RwDesc) -> rw_enter x b w (vs_dk s) = (Ret r, dk') ->
  vrel (VSys dk' (vs_pl s) (vs_dv s) (thr_at b w r (vs_thr s))) a.
Proof.
  intros (Hl & R & HA & HP & HU & I & A1 & A2 & A3 & A4) Hb E.
  assert (Hw : forall w' i, vs_thr s !! b = Some (w', i) -> i = RwDesc) by (intros w' i; rewrite Hb; by intros [= _ <-]).
  pose proof (vinv_fresh _ _ _ _ _ _ _ b I Hw) as Hf.
  eapply runs_inv in E; [|by apply (rw_enter_run R HA HP HU)]. destruct E as (Hl' & HD & HS & HR). split; [done|].
  destruct HR as [(-> & I')|(i0 & i1 & i2 & -> & I')].
  - exists R, HA, HP, HU. cbn [thr_at]. split; [done|]. rewrite insert_id by done. by apply (vabs_quiet R HA HP s dk').
  - set (q := VReq b w i0 i1 i2) in *. exists (q :: R), (HA ++ [i0]), HP, HU. cbn [thr_at]. split; [done|].
    assert (Hh : forall q', q' ∈ R -> q0 q' <> i0).
    { intros q' Hq' E. apply (Hf q' Hq'). change b with (q_b q). f_equal.
      apply (head_unique (q :: R)); [apply I'|by right|by left|done]. }
    split_and!; cbn [vs_dk vs_pl vs_thr]; [done|intros b'; destruct (HD b') as [-> ->]; apply A2| |].
    + intros b' w' i. destruct (decide (b = b')) as [<-|Hn].
      * rewrite lookup_insert_eq. intros [= <- <-]. destruct (A3 b w RwDesc Hb) as (d & Ed & Hd). exists d. split; [done|].
        intros o Ho. rewrite (Hd o Ho). split.
        -- intros (q' & Hq' & E & _). by apply Hf in E.
        -- intros (q' & [-> |Hq']%elem_of_cons & E & Hn & _); [|by apply Hf in E]. exfalso. apply Hn. cbn. set_solver.
      * rewrite lookup_insert_ne by done. intros H. destruct (A3 _ _ _ H) as (d & Ed & Hd). exists d. split; [done|].
        intros o Ho. rewrite (Hd o Ho). split; intros (q' & Hq' & E & Hq'' & Eo).
        -- exists q'. split_and!; [by right|done| |by rewrite (outcome_same R _ _ q' HS)].
           specialize (Hh q' Hq'). clear -Hq'' Hh. set_solver.
        -- apply elem_of_cons in Hq' as [-> |Hq']; [done|]. exists q'.
           split_and!; [done|done| |by rewrite <- (outcome_same R _ _ q' HS)]. clear -Hq''. set_solver.
    + intros b'. destruct (decide (b = b')) as [<-|Hn]; [by rewrite lookup_insert_eq|].
      rewrite lookup_insert_ne by done. apply A4.
Qed.

(** A call woken from its second sleep: it returns only after its request
    was served. *)
Lemma vrel_wake (s : vsys D) a b w i0 r dk' :
  vrel s a -> vs_thr s !! b = Some (w, RwData i0) -> rw_wake x b i0 (vs_dk s) = (Ret r, dk') ->
  (r = RwDone -> ad_out a !! b = Some (w, Served)) /\
  exists a', (a' = a \/ ad_step a a') /\ vrel (VSys dk' (vs_pl s) (vs_dv s) (thr_at b w r (vs_thr s))) a'.
Proof.
  intros (Hl & R & HA & HP & HU & I & A1 & A2 & A3 & A4) Hb E.
  eapply runs_inv in E; [|by eapply (rw_wake_run R HA HP HU)]. destruct E as (Hl' & HD & HS & HR).
  destruct HR as [(-> & I')|(l & q & r' & -> & -> & <- & Hn & I')].
  - split; [done|]. exists a. split; [by left|]. split; [done|]. exists R, HA, HP, HU. cbn [thr_at]. rewrite insert_id by done.
    split; [done|]. by apply (vabs_quiet R HA HP s dk').
  - destruct (A3 _ _ _ Hb) as (d & Ed & Hd).
    assert (d = Served) as ->.
    { apply Hd; [done|]. exists q. split_and!; [set_solver|done|clear -Hn; set_solver|].
      unfold outcome_of. rewrite (vi_status _ _ _ _ _ _ _ I q); [done|clear; set_solver|done]. }
    split; [done|]. eexists. split; [right; by eapply ad_return|]. split; [done|].
    exists (l ++ r'), HA, HP, HU. cbn [thr_at]. split; [done|].
    split_and!; cbn [vs_dk vs_pl vs_thr ad_pl ad_no ad_data ad_out]; [done|intros b'; destruct (HD b') as [-> ->]; apply A2| |].
    + intros b' w' i [Hne H]%lookup_delete_Some. destruct (A3 _ _ _ H) as (d & Ed' & Hd'). exists d.
      rewrite lookup_delete_ne by done. split; [done|]. intros o Ho. rewrite (Hd' o Ho). split; intros (q' & Hq' & E & Hq'' & Eo).
      * exists q'. split_and!; [|done|done|by rewrite (outcome_same _ _ _ q' HS)].
        assert (q' <> q) by (intros ->; done). clear -Hq' H0. set_solver.
      * assert (Hin : q' ∈ l ++ q :: r') by (clear -Hq'; set_solver).
        exists q'. split_and!; [done|done|done|by rewrite <- (outcome_same _ _ _ q' HS)].
    + intros b' H. destruct (decide (q_b q = b')) as [<-|Hne]; [by rewrite lookup_delete_eq|].
      rewrite lookup_delete_ne in H by done. rewrite lookup_delete_ne by done. by apply A4.
Qed.

Local Opaque load_bytes store_bytes.

(** The outcomes after the request [q] was completed. *)
Lemma vabs_complete R HA HP HU HP' (s : vsys D) dk' (a : adisk) q :
  vinv R HA HP HU (vs_dk s) (vs_dv s) (vs_thr s) -> vabs R HA HP s a -> q ∈ R -> HP ≡ₚ q0 q :: HP' ->
  (forall i, i <> q0 q -> in_status (dk_info dk' i) = in_status (dk_info (vs_dk s) i)) ->
  ad_out a !! q_b q = Some (q_w q, Pending) /\
  let out := <[q_b q := (q_w q, outcome_of dk' (q0 q))]> (ad_out a) in
  (forall b w i, vs_thr s !! b = Some (w, i) -> exists d, out !! b = Some (w, d) /\
     forall o, o <> Pending ->
       d = o <-> exists q', q' ∈ R /\ q_b q' = b /\ (q0 q' ∉ HA ++ HP') /\ outcome_of dk' (q0 q') = o) /\
  (forall b, vs_thr s !! b = None -> out !! b = None).
Proof.
  intros I (A1 & A2 & A3 & A4) Hq EP Hst. pose proof (vi_heads _ _ _ _ _ _ _ I) as HN. rewrite EP in HN.
  assert (Hn : (q0 q ∉ HA ++ HP')).
  { cbn [app] in HN. rewrite <- Permutation_middle in HN. apply NoDup_cons in HN as [HN _]. clear -HN. set_solver. }
  pose proof (vi_req _ _ _ _ _ _ _ I q Hq) as Hthr. destruct (A3 _ _ _ Hthr) as (d & Ed & Hd).
  assert (Hone : forall q', q' ∈ R -> q_b q' = q_b q -> q' = q) by (intros q' ? ?; by apply (buf_unique R); [apply I|..]).
  assert (d = Pending) as ->.
  { destruct (decide (d = Pending)) as [|Hne]; [done|]. destruct (proj1 (Hd d Hne) eq_refl) as (q' & Hq' & Eb & Hn' & _).
    rewrite (Hone q' Hq' Eb), EP in Hn'. exfalso. apply Hn'. clear. set_solver. }
  split; [done|]. split.
  - intros b w i H. destruct (decide (q_b q = b)) as [<-|Hb].
    + rewrite Hthr in H. injection H as <- <-. exists (outcome_of dk' (q0 q)). rewrite lookup_insert_eq. split; [done|].
      intros o Ho. split; [intros E; by exists q|]. intros (q' & Hq' & Eb & _ & <-). by rewrite (Hone q' Hq' Eb).
    + rewrite lookup_insert_ne by done. destruct (A3 _ _ _ H) as (d & Ed' & Hd'). exists d. split; [done|].
      intros o Ho. rewrite (Hd' o Ho).
      assert (Hq0 : forall q', q' ∈ R -> q_b q' = b -> q0 q' <> q0 q).
      { intros q' Hq' Eq E'. apply Hb. rewrite <- Eq. f_equal. symmetry. by apply (head_unique R); [apply I|..]. }
      split; intros (q' & Hq' & Eq & Hn' & Eo); specialize (Hq0 q' Hq' Eq); exists q';
        (split_and!; [done|done| |unfold outcome_of in *; by rewrite ?Hst in * by done]); rewrite ?EP in *; clear -Hn' Hq0; set_solver.
  - intros b H. rewrite lookup_insert_ne by (intros <-; by rewrite Hthr in H). by apply A4.
Qed.

(** The device completes a request: the abstract disk serves it, or fails it,
    at once. *)
Lemma vrel_device (s : vsys D) a v' pl' dk' :
  vrel s a -> dv_step (vs_dv s) (vs_pl s) (vs_dk s) v' pl' dk' ->
  exists a', (a' = a \/ ad_step a a') /\ vrel (VSys dk' pl' v' (vs_thr s)) a'.
Proof.
  intros (Hl & R & HA & HP & HU & I & VA) [(Hne & Es & Et & -> & ->)|(h & st & junk & Hh & Es & Et & Hst & Hj & E)]%dv_law;
    pose proof VA as (A1 & A2 & A3 & A4).
  - destruct (vinv_fetch _ _ _ _ _ _ _ _ I Hne Es Et) as (h & HA' & -> & I'). exists a. split; [by left|]. split; [done|].
    exists R, HA', (HP ++ [h]), HU. split; [done|]. split_and!; [done|done| |done].
    intros b w i H. destruct (A3 b w i H) as (d & Ed & Hd). exists d. split; [done|]. intros o Ho. rewrite (Hd o Ho).
    split; intros (q & Hq & Eq & Hn & Eo); exists q; split_and!; try done; clear -Hn; set_solver.
  - assert (EP : HP ≡ₚ h :: dv_taken v') by (rewrite <- Et; symmetry; apply I).
    destruct (vi_own _ _ _ _ _ _ _ I h) as (q & Hq & <-). { rewrite EP. clear. set_solver. }
    destruct (vi_data _ _ _ _ _ _ _ I (q_b q)) as [Hlen Hno].
    rewrite serve_formatted in E by (done || by apply (vi_fmt _ _ _ _ _ _ _ I)).
    set (d := moved q st junk (vs_pl s) (vs_dk s)) in *. destruct (A2 (q_b q)) as [An Ad].
    assert (Hd : length d = Z.to_nat DBSIZE) by (by apply length_moved).
    destruct (vabs_complete R HA HP HU (dv_taken v') s dk' a q I VA Hq EP) as (Ed & Hthr' & Hout).
    { intros i Hi. destruct (q_w q); injection E as _ <-; cbn; by rewrite upd_ne. }
    assert (Eo : outcome_of dk' (q0 q) = if st =? 0 then Served else Failed).
    { unfold outcome_of. destruct (q_w q); injection E as _ <-; cbn; by rewrite upd_eq. }
    exists (ad_put (q_b q) (q_w q) d (outcome_of dk' (q0 q)) a). split.
    + right. rewrite Eo. unfold d, moved. destruct (st =? 0); [|by constructor].
      rewrite <- Ad, <- An, <- A1. by apply ad_served.
    + unfold ad_put. destruct (q_w q) eqn:Ew; injection E as <- <-; (split; [done|]); exists R, HA, (dv_taken v'), (HU ++ [q0 q]).
      * split; [by eapply vinv_complete|]. split_and!; cbn [ad_pl ad_no ad_data ad_out vs_pl vs_dk vs_thr]; [by rewrite A1, An|done|done|done].
      * split; [eapply vinv_complete; [|done|exact EP|done|done]; by apply vinv_contents; [|left|..]|].
        split_and!; cbn [ad_pl ad_no ad_data ad_out vs_pl vs_dk vs_thr]; [done| |done|done].
        intros b. cbn. unfold upd. case_decide as Eb; [subst b; cbn; by rewrite An|apply A2].
Qed.

Lemma vrel_step (s s' : vsys D) a : vs_step x s s' -> vrel s a -> exists a', rtc ad_step a a' /\ vrel s' a'.
Proof.
  intros Hs HR. destruct Hs as [s b w r dk' Hb E|s b w r r' dk' Hb E|s dk' E|s v' pl' dk' E|s b no data Hb Hd Hno].
  - pose proof (vrel_submit s a b w HR Hb) as HR'. eexists. split.
    { eapply rtc_once. apply (ad_submit a b w). destruct HR as (_ & R & HA & HP & HU & _ & _ & _ & _ & A4). by apply A4. }
    eapply vrel_enter in HR'; [|apply lookup_insert_eq|exact E]. cbn [vs_pl vs_dv vs_thr] in HR'.
    destruct r; cbn [thr_at] in *; rewrite ?insert_insert_eq, ?delete_insert_eq in HR'; done.
  - destruct r as [|i0|]; cbn [rw_resume] in E.
    + exists a. split; [done|]. by eapply vrel_enter.
    + eapply vrel_wake in E as (_ & a' & [-> |Ha] & HR'); [by exists a| |done|done].
      exists a'. split; [by apply rtc_once|done].
    + destruct HR as (_ & R & HA & HP & HU & I & _). by apply (vi_live _ _ _ _ _ _ _ I) in Hb.
  - exists a. split; [done|]. destruct HR as (Hl & R & HA & HP & HU & I & VA).
    destruct (decide (all_ok HU (vs_dk s))) as [Hok|Hno].
    2:{ pose proof (virtio_disk_intr_panic R HA HP HU _ _ _ Hl I Hno) as HP'. by rewrite E in HP'. }
    eapply runs_inv in E; [|by apply (virtio_disk_intr_run R HA HP HU)]. destruct E as (Hl' & HD & HS & I').
    split; [done|]. exists R, HA, HP, []. split; [done|]. by apply (vabs_quiet R HA HP s dk').
  - eapply vrel_device in E as (a' & [-> |Ha] & HR'); [by exists a| |done]. exists a'. split; [by apply rtc_once|done].
  - destruct HR as (Hl & R & HA & HP & HU & I & A1 & A2 & A3 & A4). eexists. split.
    { eapply rtc_once. apply (ad_owner a b no data); [by apply A4|done]. }
    split; [done|]. exists R, HA, HP, HU. split.
    { apply vinv_contents; [done| |done|done]. right. apply (vinv_fresh _ _ _ _ _ _ _ b I). intros w i. by rewrite Hb. }
    split_and!; [done| |done|done]. intros b'. cbn. unfold upd. case_decide; [done|apply A2].
Qed.
End steps.

(** ** Properties *)

(** The state after [virtio_disk_init]: the queues empty, every descriptor
    free, no call in progress; any platter and any buffers. *)
Definition v_initial {D} `{VirtioDevice D} (s : vsys D) : Prop :=
  lk_free (vdisk_lock (vs_dk s)) /\ (forall i, in_range i -> dk_free (vs_dk s) i = 1) /\
  av_idx (vs_dk s) = 0 /\ ud_idx (vs_dk s) = 0 /\ dk_used_idx (vs_dk s) = 0 /\
  dv_seen (vs_dv s) = 0 /\ dv_taken (vs_dv s) = [] /\ vs_thr s = ∅ /\
  (forall b, length (vb_data (dk_buf (vs_dk s) b)) = Z.to_nat DBSIZE /\ 0 <= vb_blockno (dk_buf (vs_dk s) b) < 2 ^ 31).

Definition abs_of {D} (s : vsys D) : adisk :=
  ADisk (vs_pl s) (fun b => vb_blockno (dk_buf (vs_dk s) b)) (fun b => vb_data (dk_buf (vs_dk s) b)) ∅.

(** [s] is what some run of the abstract disk from [a0] looks like: the same
    platter, buffers and outstanding requests.  No call of [virtio_disk_rw]
    panics, dereferences a null pointer or runs out of fuel, and one that
    returns does so for a request that was served; the interrupt handler
    returns, or, exactly when the device has reported an error for some
    outstanding request, panics as it is written to. *)
Definition refines_disk {D} (x : ctx) (a0 : adisk) (s : vsys D) : Prop :=
  exists a, rtc ad_step a0 a /\ ad_pl a = vs_pl s /\
    (forall b, ad_no a b = vb_blockno (dk_buf (vs_dk s) b) /\ ad_data a b = vb_data (dk_buf (vs_dk s) b)) /\
    (forall b, fst <$> ad_out a !! b = fst <$> vs_thr s !! b) /\
    (forall b w, vs_thr s !! b = None -> runs (rw_enter x b w) (vs_dk s) (fun r _ => r <> RwDone)) /\
    (forall b w r, vs_thr s !! b = Some (w, r) ->
       runs (rw_resume x b w r) (vs_dk s) (fun r' _ => r' = RwDone -> ad_out a !! b = Some (w, Served))) /\
    ((forall b w, ad_out a !! b <> Some (w, Failed)) -> runs (virtio_disk_intr x) (vs_dk s) (fun _ _ => True)) /\
    (forall b w, ad_out a !! b = Some (w, Failed) ->
       (virtio_disk_intr x (vs_dk s)).1 = Panic "virtio_disk_intr status").

Lemma vrel_initial {D} `{VD : VirtioDevice D} (s : vsys D) : v_initial s -> vrel s (abs_of s).
Proof.
  intros (Hl & Hf & Ha & Hu & Hui & Hs & Ht & Hth & Hd). split; [done|]. exists [], [], [], []. split.
  - split; try (by constructor); try (by intros ? ?%elem_of_nil); try (intros b w; intros; by rewrite Hth, lookup_empty in * ).
    + intros i Hr. rewrite Hf by done. split; [done|by intros ?%elem_of_nil].
    + rewrite Hs, Ha. done.
    + by rewrite Ht.
    + rewrite Hu, Hui. done.
    + done.
  - split_and!; try done. intros b w i. by rewrite Hth, lookup_empty.
Qed.

(** A request has failed exactly when the used ring holds an error. *)
Lemma failed_iff {D} `{VD : VirtioDevice D} R HA HP HU (s : vsys D) a :
  vinv R HA HP HU (vs_dk s) (vs_dv s) (vs_thr s) -> vabs R HA HP s a ->
  (exists b w, ad_out a !! b = Some (w, Failed)) <-> (exists h, h ∈ HU /\ in_status (dk_info (vs_dk s) h) <> 0).
Proof.
  intros I (A1 & A2 & A3 & A4). split.
  - intros (b & w & E). destruct (vs_thr s !! b) as [[w' i]|] eqn:Et; [|by rewrite A4 in E].
    destruct (A3 b w' i Et) as (d & Ed & Hd). rewrite Ed in E. injection E as -> ->.
    destruct (proj1 (Hd Failed ltac:(done)) eq_refl) as (q & Hq & _ & Hn & Eo).
    assert (Hne : in_status (dk_info (vs_dk s) (q0 q)) <> 0) by (intros E; unfold outcome_of in Eo; by rewrite E in Eo).
    exists (q0 q). split; [|done]. destruct (decide (q0 q ∈ HU)) as [|Hu]; [done|]. destruct Hne.
    apply (vi_status _ _ _ _ _ _ _ I q Hq). clear -Hn Hu. set_solver.
  - intros (h & Hh & Hne). destruct (vi_own _ _ _ _ _ _ _ I h ltac:(clear -Hh; set_solver)) as (q & Hq & <-).
    destruct (A3 _ _ _ (vi_req _ _ _ _ _ _ _ I q Hq)) as (d & Ed & Hd). exists (q_b q), (q_w q). rewrite Ed. do 2 f_equal.
    apply Hd; [done|]. exists q. split_and!; [done|done| |].
    + pose proof (vi_heads _ _ _ _ _ _ _ I) as HN. rewrite app_assoc in HN. apply NoDup_app in HN as (_ & HN & _).
      intros H. by apply (HN _ H).
    + unfold outcome_of. by rewrite (proj2 (Z.eqb_neq _ _)).
Qed.

Lemma vrel_safe {D} `{VD : VirtioDevice D} (x : ctx) (s : vsys D) a :
  vrel s a ->
  (forall b, fst <$> ad_out a !! b = fst <$> vs_thr s !! b) /\
  (forall b w, vs_thr s !! b = None -> runs (rw_enter x b w) (vs_dk s) (fun r _ => r <> RwDone)) /\
  (forall b w r, vs_thr s !! b = Some (w, r) ->
     runs (rw_resume x b w r) (vs_dk s) (fun r' _ => r' = RwDone -> ad_out a !! b = Some (w, Served))) /\
  ((forall b w, ad_out a !! b <> Some (w, Failed)) -> runs (virtio_disk_intr x) (vs_dk s) (fun _ _ => True)) /\
  (forall b w, ad_out a !! b = Some (w, Failed) -> (virtio_disk_intr x (vs_dk s)).1 = Panic "virtio_disk_intr status").
Proof.
  intros HR. pose proof HR as (Hl & R & HA & HP & HU & I & A1 & A2 & A3 & A4). split_and!.
  - intros b. destruct (vs_thr s !! b) as [[w i]|] eqn:E; [|by rewrite A4].
    destruct (A3 b w i E) as (d & -> & _). done.
  - intros b w Hb. eapply runs_mono; [apply (rw_enter_run x R HA HP HU _ _ _ _ _ Hl I); intros w' i; by rewrite Hb|].
    intros r s' (_ & _ & _ & [[-> _]|(i0 & i1 & i2 & -> & _)]); done.
  - intros b w r Hb. destruct r as [|i0|]; cbn [rw_resume].
    + eapply runs_mono; [apply (rw_enter_run x R HA HP HU _ _ _ _ _ Hl I); intros w' i; rewrite Hb; by intros [= _ <-]|].
      intros r s' (_ & _ & _ & [[-> _]|(i0 & i1 & i2 & -> & _)]); done.
    + destruct (rw_wake_run x R HA HP HU _ _ _ _ _ _ Hl I Hb) as (r & s' & E & _). exists r, s'. split; [done|].
      eapply vrel_wake in E as [H _]; [exact H|done|done].
    + by apply (vi_live _ _ _ _ _ _ _ I) in Hb.
  - intros HF. eapply runs_mono; [apply (virtio_disk_intr_run x R HA HP HU); [done|done|]|done].
    apply Forall_forall. intros h Hh. destruct (decide (in_status (dk_info (vs_dk s) h) = 0)) as [|Hne]; [done|].
    destruct (failed_iff R HA HP HU s a I (conj A1 (conj A2 (conj A3 A4)))) as [_ H].
    destruct (H (ex_intro _ h (conj Hh Hne))) as (b & w & E). by apply HF in E.
  - intros b w E. eapply virtio_disk_intr_panic; [done|exact I|]. intros HF.
    destruct (failed_iff R HA HP HU s a I (conj A1 (conj A2 (conj A3 A4)))) as [H _].
    destruct (H (ex_intro _ b (ex_intro _ w E))) as (h & Hh & Hne). by apply Hne, (proj1 (Forall_forall _ _) HF).
Qed.

(** C4. The driver implements an atomic disk.  Whatever calls of
    [virtio_disk_rw] are in progress and however they are interleaved with
    each other, with the device, which completes each request with success or
    with an error status, and with [virtio_disk_intr], the platter and the
    buffers are those of a disk that serves each request atomically, once,
    between its submission and its return, or fails it; only a request that
    was served returns, no descriptor is used twice, and no panic is reachable
    but the handler's "virtio_disk_intr status", which happens exactly when the
    device has reported an error for an outstanding request. *)
Theorem virtio_refines_disk {D : Type} `{VD : VirtioDevice D} (x : ctx) (s0 s : vsys D) :
  v_initial s0 -> rtc (vs_step x) s0 s -> refines_disk x (abs_of s0) s.
Proof.
  intros HI HS.
  assert (exists a, rtc ad_step (abs_of s0) a /\ vrel s a) as (a & Ha & HR).
  { pose proof (vrel_initial s0 HI) as HR. clear HI. revert HR. generalize (abs_of s0). induction HS as [s|s s1 s2 H HS IH]; intros a HR.
    - by exists a.
    - destruct (vrel_step x _ _ _ H HR) as (a1 & Ha1 & HR1). destruct (IH a1 HR1) as (a2 & Ha2 & HR2).
      exists a2. split; [by etransitivity|done]. }
  destruct (vrel_safe x s a HR) as (Ho & Hsafe). pose proof HR as (_ & R & HA & HP & HU & _ & A1 & A2 & _).
  by exists a.
Qed.

(** A device that takes and completes chains in any order, with any status. *)
Record qdev := QDev { qd_seen : Z; qd_taken : list Z }.

Definition qdev_step (v : qdev) (pl : mem) (s : disk) (v' : qdev) (pl' : mem) (s' : disk) : Prop :=
  (qd_seen v <> av_idx s /\ v' = QDev (u16 (qd_seen v + 1)) (qd_taken v ++ [av_ring s (qd_seen v mod NUM)]) /\ pl' = pl /\ s' = s) \/
  (exists h l r status junk, v = QDev (qd_seen v) (l ++ h :: r) /\ v' = QDev (qd_seen v) (l ++ r) /\
     0 <= status < 256 /\ length junk = Z.to_nat DBSIZE /\ serve_chain h status junk pl s = Some (pl', s')).

#[export] Instance qdev_virtio : VirtioDevice qdev.
Proof.
  refine {| dv_step := qdev_step; dv_seen := qd_seen; dv_taken := qd_taken |}.
  intros v pl s v' pl' s' [(H1 & -> & -> & ->)|(h & l & r & st & junk & -> & -> & Hs & Hj & E)]; [by left|right].
  exists h, st, junk. split_and!; [cbn; set_solver|done|cbn; symmetry; apply Permutation_middle|lia|lia|done|done].
Defined.

(** A read of block 3 into buffer 5, through all its steps. *)
Definition vx : ctx := Ctx 0 1.
Definition v0 : vsys qdev :=
  VSys (Disk (fun _ => Desc ANull 0 0 0) 0 (fun _ => 0) 0 (fun _ => UsedElem 0 0) (fun _ => 1) 0 (fun _ => DInfo None 0)
          (fun _ => BlkReq 0 0 0) (initlock "virtio_disk") (fun _ => VBuf 3 (repeat 0 (Z.to_nat DBSIZE)) 0) [])
    (store_bytes ∅ 3072 [7; 8; 9]) (QDev 0 []) ∅.
Definition v1 : vsys qdev :=
  VSys (rw_enter vx 5 false (vs_dk v0)).2 (vs_pl v0) (vs_dv v0) (thr_at 5 false (RwData 0) (vs_thr v0)).
Definition v2 : vsys qdev := VSys (vs_dk v1) (vs_pl v1) (QDev 1 [0]) (vs_thr v1).
Definition v3 (status : Z) : vsys qdev :=
  let r := default (vs_pl v2, vs_dk v2) (serve_chain 0 status (repeat 1 (Z.to_nat DBSIZE)) (vs_pl v2) (vs_dk v2)) in
  VSys r.2 r.1 (QDev 1 []) (vs_thr v2).
Definition v4 : vsys qdev := VSys (virtio_disk_intr vx (vs_dk (v3 0))).2 (vs_pl (v3 0)) (vs_dv (v3 0)) (vs_thr (v3 0)).
Definition v5 : vsys qdev := VSys (rw_wake vx 5 0 (vs_dk v4)).2 (vs_pl v4) (vs_dv v4) (thr_at 5 false RwDone (vs_thr v4)).

Lemma run_pair_dk {A} (m : DM A) s a : (m s).1 = Ret a -> m s = (Ret a, (m s).2).
Proof. intros <-. by destruct (m s). Qed.

(** The device completes the request with the given status. *)
Lemma virtio_run_device status : 0 <= status < 256 -> rtc (vs_step vx) v0 (v3 status).
Proof.
  intros Hst. apply (rtc_l _ _ v1).
  { apply (vs_call vx v0 5 false (RwData 0)); [done|]. apply run_pair_dk. vm_compute. reflexivity. }
  apply (rtc_l _ _ v2).
  { apply (vs_device vx v1). left. split; [vm_compute; discriminate|]. split; [vm_compute; reflexivity|done]. }
  apply (rtc_l _ _ (v3 status)); [|done].
  apply (vs_device vx v2). right. exists 0, [], [], status, (repeat 1 (Z.to_nat DBSIZE)). split_and!; [done|done|lia|lia|done|].
  unfold v3. cbn [vs_dk vs_pl]. unfold serve_chain.
  replace (d_addr (dk_desc (vs_dk v2) 0)) with (AOps 0) by (vm_compute; reflexivity).
  replace (d_addr (dk_desc (vs_dk v2) (d_next (dk_desc (vs_dk v2) 0)))) with (AData 5) by (vm_compute; reflexivity).
  replace (d_addr (dk_desc (vs_dk v2) (d_next (dk_desc (vs_dk v2) (d_next (dk_desc (vs_dk v2) 0)))))) with (AStatus 0) by (vm_compute; reflexivity).
  replace (rq_type (dk_ops (vs_dk v2) 0) =? VIRTIO_BLK_T_IN) with true by (vm_compute; reflexivity).
  replace (Z.testbit (d_flags (dk_desc (vs_dk v2) (d_next (dk_desc (vs_dk v2) 0)))) 1) with true by (vm_compute; reflexivity).
  done.
Qed.

Lemma virtio_run : rtc (vs_step vx) v0 v5.
Proof.
  transitivity (v3 0); [by apply virtio_run_device|]. apply (rtc_l _ _ v4).
  { apply (vs_intr vx (v3 0)). apply run_pair_dk. vm_compute. reflexivity. }
  apply (rtc_l _ _ v5); [|done].
  apply (vs_resume vx v4 5 false (RwData 0) RwDone); [vm_compute; reflexivity|]. cbn [rw_resume]. apply run_pair_dk. vm_compute. reflexivity.
Qed.

(** A read that succeeds, and one for which the device reports an I/O error. *)
Lemma virtio_refines_disk_witness :
  (take 4 (vb_data (dk_buf (vs_dk v5) 5)) = [7; 8; 9; 0] /\ refines_disk vx (abs_of v0) v5) /\
  (in_status (dk_info (vs_dk (v3 1)) 0) = 1 /\ refines_disk vx (abs_of v0) (v3 1)).
Proof.
  assert (HI : v_initial v0) by (by split_and!).
  split; (split; [vm_compute; reflexivity|]); apply (virtio_refines_disk vx v0); [exact HI|apply virtio_run|exact HI|].
  by apply virtio_run_device.
Defined.
