(* ===== verification/Console.v ===== *)
(** * The console: kernel/console.c and kernel/uart.c

    The UART's registers are an interface ([Mmio]); what the driver relies on
    is [UartLaws], from the 16550's data sheet and the comments of uart.c.
    [uartputc] and [consoleread] sleep; they are written in the pieces
    between the sleeps, like the pipes.  [acquire]/[release] and
    [push_off]/[pop_off] are as in Spinlock; the interrupt nesting is left
    out here.  The specification of the input side is a line editor: bytes
    ready to be read and a line being edited. *)
From S2P Require Import Prelude CString Riscv Spinlock Kalloc Fs Pipe File.
Local Open Scope Z_scope.

Definition RHR : Z := 0.
Definition THR : Z := 0.
Definition IER : Z := 1.
Definition IER_RX_ENABLE : Z := 1.
Definition IER_TX_ENABLE : Z := 2.
Definition FCR : Z := 2.
Definition FCR_FIFO_ENABLE : Z := 1.
Definition FCR_FIFO_CLEAR : Z := 6.
Definition ISR : Z := 2.
Definition LCR : Z := 3.
Definition LCR_EIGHT_BITS : Z := 3.
Definition LCR_BAUD_LATCH : Z := 128.
Definition LSR : Z := 5.
Definition LSR_RX_READY : Z := 1.
Definition LSR_TX_IDLE : Z := 32.
Definition UART_TX_BUF_SIZE : Z := 32.
Definition INPUT_BUF_SIZE : Z := 128.
Definition BACKSPACE : Z := 0x100.

(** [C(x)]: control characters. *)
Definition ctrl (c : Z) : Z := c - 64.
Definition C_P : Z := ctrl 80.
Definition C_U : Z := ctrl 85.
Definition C_H : Z := ctrl 72.
Definition C_D : Z := ctrl 68.

(** The transmit ring, [panicked] of printf.c, and the device. *)
Record uart (R : Type) := Uart {
  uart_tx_lock : spinlock; uart_tx_buf : Z -> Z; uart_tx_w : Z; uart_tx_r : Z; panicked : Z; ua_dev : R }.
Arguments Uart {R}. Arguments uart_tx_lock {R}. Arguments uart_tx_buf {R}. Arguments uart_tx_w {R}.
Arguments uart_tx_r {R}. Arguments panicked {R}. Arguments ua_dev {R}.

(** [cons], the UART and the rest of the kernel. *)
Record cst (E R : Type) := CSt {
  cn_lock : spinlock; cn_buf : Z -> Z; cn_r : Z; cn_w : Z; cn_e : Z; cn_uart : uart R; cn_env : E }.
Arguments CSt {E R}. Arguments cn_lock {E R}. Arguments cn_buf {E R}. Arguments cn_r {E R}.
Arguments cn_w {E R}. Arguments cn_e {E R}. Arguments cn_uart {E R}. Arguments cn_env {E R}.

Section uart.
Context {R : Type} {MM : Mmio R}.
Local Abbreviation UM_ := (M (uart R)).

Definition set_txlock v (u : uart R) : uart R := Uart v (uart_tx_buf u) (uart_tx_w u) (uart_tx_r u) (panicked u) (ua_dev u).
Definition set_tx b w r (u : uart R) : uart R := Uart (uart_tx_lock u) b w r (panicked u) (ua_dev u).
Definition set_dev v (u : uart R) : uart R := Uart (uart_tx_lock u) (uart_tx_buf u) (uart_tx_w u) (uart_tx_r u) (panicked u) v.
Definition ReadReg (r : Z) : UM_ Z := zoom ua_dev set_dev (reg_read r).
Definition WriteReg (r v : Z) : UM_ unit := zoom ua_dev set_dev (reg_write r (u8 v)).
Definition tx_spin {A} (m : M spinlock A) : UM_ A := zoom uart_tx_lock set_txlock m.

Definition uartinit : UM_ unit :=
  WriteReg IER 0x00 ;;
  WriteReg LCR LCR_BAUD_LATCH ;;
  WriteReg 0 0x03 ;;
  WriteReg 1 0x00 ;;
  WriteReg LCR LCR_EIGHT_BITS ;;
  WriteReg FCR (Z.lor FCR_FIFO_ENABLE FCR_FIFO_CLEAR) ;;
  WriteReg IER (Z.lor IER_TX_ENABLE IER_RX_ENABLE) ;;
  modify (set_txlock (initlock "uart")).

(** [while((ReadReg(LSR) & LSR_TX_IDLE) == 0);] for at most [fuel] reads. *)
Fixpoint wait_idle (fuel : nat) : UM_ unit :=
  match fuel with
  | O => stall (Chan "uart" 0)
  | S f =>
      let! v := ReadReg LSR in
      if Z.land v LSR_TX_IDLE =? 0 then wait_idle f else ret tt
  end.

Definition uartputc_sync (fuel : nat) (c : Z) : UM_ unit :=
  let! p := gets panicked in
  if negb (p =? 0) then stall (Chan "panicked" 0)
  else wait_idle fuel ;; WriteReg THR c.

Definition uartgetc : UM_ Z :=
  let! v := ReadReg LSR in
  if negb (Z.land v 0x01 =? 0) then ReadReg RHR else ret (-1).

(** [if(c == BACKSPACE)]: overwrite with a space. *)
Definition consputc (fuel : nat) (c : Z) : UM_ unit :=
  if c =? BACKSPACE then
    uartputc_sync fuel 8 ;; uartputc_sync fuel 32 ;; uartputc_sync fuel 8
  else uartputc_sync fuel c.
End uart.

Section ops.
Context {E R : Type} {MM : Mmio R} {PS : ProcServices E} {UM : UserMem E} (x : ctx).
(** [spin] bounds the busy waiting for the transmitter; [procdump] is
    proc.c's, printing through the console. *)
Context (spin : nat) (procdump : M (cst E R) unit).
Local Abbreviation CM := (M (cst E R)).

Definition set_cnlock v (s : cst E R) : cst E R := CSt v (cn_buf s) (cn_r s) (cn_w s) (cn_e s) (cn_uart s) (cn_env s).
Definition set_cnbuf b e (s : cst E R) : cst E R := CSt (cn_lock s) b (cn_r s) (cn_w s) e (cn_uart s) (cn_env s).
Definition set_cnr v (s : cst E R) : cst E R := CSt (cn_lock s) (cn_buf s) v (cn_w s) (cn_e s) (cn_uart s) (cn_env s).
Definition set_cnw v (s : cst E R) : cst E R := CSt (cn_lock s) (cn_buf s) (cn_r s) v (cn_e s) (cn_uart s) (cn_env s).
Definition set_cne v (s : cst E R) : cst E R := CSt (cn_lock s) (cn_buf s) (cn_r s) (cn_w s) v (cn_uart s) (cn_env s).
Definition set_cnuart v (s : cst E R) : cst E R := CSt (cn_lock s) (cn_buf s) (cn_r s) (cn_w s) (cn_e s) v (cn_env s).
Definition set_cnenv v (s : cst E R) : cst E R := CSt (cn_lock s) (cn_buf s) (cn_r s) (cn_w s) (cn_e s) (cn_uart s) v.
Definition cn_spin {A} (m : M spinlock A) : CM A := zoom cn_lock set_cnlock m.
Definition on_uart {A} (m : M (uart R) A) : CM A := zoom cn_uart set_cnuart m.
Definition on_cenv {A} (m : M E A) : CM A := zoom cn_env set_cnenv m.
Definition cons_chan : chan := Chan "cons.r" 0.
Definition tx_chan : chan := Chan "uart_tx_r" 0.

(** Each round returns or sends a byte: [UART_TX_BUF_SIZE + 1] rounds are
    enough. *)
Fixpoint uartstart_loop (fuel : nat) : CM unit :=
  match fuel with
  | O => stall (Chan "uartstart" 0)
  | S f =>
      let! u := gets cn_uart in
      if uart_tx_w u =? uart_tx_r u then on_uart (ReadReg ISR) ;; ret tt
      else
        let! v := on_uart (ReadReg LSR) in
        if Z.land v LSR_TX_IDLE =? 0 then ret tt
        else
          let c := uart_tx_buf u (uart_tx_r u mod UART_TX_BUF_SIZE) in
          on_uart (modify (fun u => set_tx (uart_tx_buf u) (uart_tx_w u) (u64 (uart_tx_r u + 1)) u)) ;;
          on_cenv (svc_wakeup tx_chan) ;;
          on_uart (WriteReg THR c) ;;
          uartstart_loop f
  end.

Definition uartstart : CM unit := uartstart_loop (S (Z.to_nat UART_TX_BUF_SIZE)).

(** [uartputc] from the test of its loop on, with the lock held: the byte is
    queued, or ([false]) the caller sleeps on [&uart_tx_r]. *)
Definition uartputc_body (c : Z) : CM bool :=
  let! u := gets cn_uart in
  if uart_tx_w u =? u64 (uart_tx_r u + UART_TX_BUF_SIZE) then
    on_uart (tx_spin (release_word (c_hart x))) ;; ret false
  else
    on_uart (modify (fun u => set_tx (upd (uart_tx_buf u) (uart_tx_w u mod UART_TX_BUF_SIZE) (u8 c)) (u64 (uart_tx_w u + 1)) (uart_tx_r u) u)) ;;
    uartstart ;;
    on_uart (tx_spin (release_word (c_hart x))) ;;
    ret true.

Definition uartputc (c : Z) : CM bool :=
  on_uart (tx_spin (acquire_word (c_hart x))) ;;
  let! p := gets (fun s => panicked (cn_uart s)) in
  if negb (p =? 0) then stall (Chan "panicked" 0) else uartputc_body c.

(** After [sleep]: the lock is taken again, and the loop goes on. *)
Definition uartputc_wake (c : Z) : CM bool :=
  on_uart (tx_spin (acquire_word (c_hart x))) ;; uartputc_body c.

(** [either_copyin]/[either_copyout] of one byte. *)
Definition copyin_byte (user_src : bool) (src : Z) : CM (Z * Z) :=
  if user_src then
    let! (bs, st) := on_cenv (um_copyin src [0]) in ret (nth 0 bs 0, st)
  else on_cenv (gets (fun e => (rd (um_mem e) src, 0))).
Definition copyout_byte (user_dst : bool) (dst c : Z) : CM Z :=
  if user_dst then on_cenv (um_copyout dst [c])
  else on_cenv (modify (fun e => um_set_mem (wr (um_mem e) dst c) e)) ;; ret 0.

(** [consolewrite] with [i] bytes written: it returned, or it sleeps in
    [uartputc] for the byte number [i], which is [c]. *)
Inductive wprogress := WReturned (i : Z) | WAsleep (i c : Z).

Fixpoint consolewrite_loop (fuel : nat) (user_src : bool) (src n i : Z) : CM wprogress :=
  match fuel with
  | O => stall (Chan "consolewrite" 0)
  | S f =>
      if negb (i <? n) then ret (WReturned i)
      else
        let! (c, st) := copyin_byte user_src (u64 (src + i)) in
        if st =? -1 then ret (WReturned i)
        else
          let! r := uartputc c in
          if (r : bool) then consolewrite_loop f user_src src n (i + 1)
          else ret (WAsleep i c)
  end.

Definition consolewrite_from (user_src : bool) (src n i : Z) : CM wprogress :=
  consolewrite_loop (S (Z.to_nat (n - i))) user_src src n i.

(** Woken in [uartputc]. *)
Definition consolewrite_wake (user_src : bool) (src n i c : Z) : CM wprogress :=
  let! r := uartputc_wake c in
  if (r : bool) then consolewrite_from user_src src n (i + 1) else ret (WAsleep i c).

Definition consolewrite (user_src : bool) (src n : Z) : CM Z :=
  let! r := consolewrite_from user_src src n 0 in
  match r with WReturned i => ret i | WAsleep _ _ => stall tx_chan end.

(** [consoleread] with the lock held, [n] bytes of [target] still wanted: it
    returned, or it sleeps with [dst] and [n] as they are. *)
Inductive rprogress := RReturned (r : Z) | RAsleep (dst n : Z).

Fixpoint consoleread_loop (fuel : nat) (user_dst : bool) (dst n target : Z) : CM rprogress :=
  match fuel with
  | O => stall (Chan "consoleread" 0)
  | S f =>
      if negb (0 <? n) then cn_spin (release_word (c_hart x)) ;; ret (RReturned (target - n))
      else
        let! s := get in
        if cn_r s =? cn_w s then
          let! k := on_cenv svc_killed in
          if (k : bool) then cn_spin (release_word (c_hart x)) ;; ret (RReturned (-1))
          else cn_spin (release_word (c_hart x)) ;; ret (RAsleep dst n)
        else
          let c := cn_buf s (cn_r s mod INPUT_BUF_SIZE) in
          modify (set_cnr (u32 (cn_r s + 1))) ;;
          if c =? C_D then
            (if n <? target then modify (fun s => set_cnr (u32 (cn_r s - 1)) s) else ret tt) ;;
            cn_spin (release_word (c_hart x)) ;; ret (RReturned (target - n))
          else
            let! st := copyout_byte user_dst dst c in
            if st =? -1 then cn_spin (release_word (c_hart x)) ;; ret (RReturned (target - n))
            else if c =? 10 then cn_spin (release_word (c_hart x)) ;; ret (RReturned (target - (n - 1)))
            else consoleread_loop f user_dst (u64 (dst + 1)) (n - 1) target
  end.

Definition consoleread_from (user_dst : bool) (dst n target : Z) : CM rprogress :=
  cn_spin (acquire_word (c_hart x)) ;;
  consoleread_loop (S (Z.to_nat n)) user_dst dst n target.

Definition consoleread (user_dst : bool) (dst n : Z) : CM Z :=
  let! r := consoleread_from user_dst dst n n in
  match r with RReturned v => ret v | RAsleep _ _ => stall cons_chan end.

(** [case C('U')]: at most [INPUT_BUF_SIZE] bytes to kill. *)
Fixpoint kill_line (fuel : nat) : CM unit :=
  match fuel with
  | O => stall (Chan "consoleintr" 0)
  | S f =>
      let! s := get in
      if negb (cn_e s =? cn_w s) && negb (cn_buf s (u32 (cn_e s - 1) mod INPUT_BUF_SIZE) =? 10) then
        modify (set_cne (u32 (cn_e s - 1))) ;;
        on_uart (consputc spin BACKSPACE) ;;
        kill_line f
      else ret tt
  end.

Definition consoleintr (c : Z) : CM unit :=
  cn_spin (acquire_word (c_hart x)) ;;
  (if c =? C_P then procdump
   else if c =? C_U then kill_line (S (Z.to_nat INPUT_BUF_SIZE))
   else if (c =? C_H) || (c =? 0x7f) then
     let! s := get in
     if negb (cn_e s =? cn_w s) then
       modify (set_cne (u32 (cn_e s - 1))) ;; on_uart (consputc spin BACKSPACE)
     else ret tt
   else
     let! s := get in
     if negb (c =? 0) && (u32 (cn_e s - cn_r s) <? INPUT_BUF_SIZE) then
       let c := if c =? 13 then 10 else c in
       on_uart (consputc spin c) ;;
       modify (fun s => set_cnbuf (upd (cn_buf s) (cn_e s mod INPUT_BUF_SIZE) (u8 c)) (u32 (cn_e s + 1)) s) ;;
       let! s := get in
       if (c =? 10) || (c =? C_D) || (u32 (cn_e s - cn_r s) =? INPUT_BUF_SIZE) then
         modify (fun s => set_cnw (cn_e s) s) ;;
         on_cenv (svc_wakeup cons_chan)
       else ret tt
     else ret tt) ;;
  cn_spin (release_word (c_hart x)).

(** The input loop of [uartintr]; [fuel] bounds the characters waiting. *)
Fixpoint uartintr_input (fuel : nat) : CM unit :=
  match fuel with
  | O => stall (Chan "uartintr" 0)
  | S f =>
      let! c := on_uart uartgetc in
      if c =? -1 then ret tt else consoleintr c ;; uartintr_input f
  end.

Definition uartintr (fuel : nat) : CM unit :=
  uartintr_input fuel ;;
  on_uart (tx_spin (acquire_word (c_hart x))) ;;
  uartstart ;;
  on_uart (tx_spin (release_word (c_hart x))).

Definition consoleinit : CM unit :=
  modify (set_cnlock (initlock "cons")) ;;
  on_uart uartinit.

(** What [consoleinit] puts into [devsw[CONSOLE]]. *)
Definition console_devsw : devsw (cst E R) := Devsw (Some consoleread) (Some consolewrite).
End ops.

(** ** The line editor *)
Record editor := Ed { ed_ready : list Z; ed_line : list Z }.

(** A key of the keyboard: what the editor becomes. *)
Definition ed_key (c : Z) (a : editor) : editor :=
  if c =? C_P then a
  else if c =? C_U then Ed (ed_ready a) []
  else if (c =? C_H) || (c =? 0x7f) then Ed (ed_ready a) (removelast (ed_line a))
  else if (c =? 0) || (INPUT_BUF_SIZE <=? Z.of_nat (length (ed_ready a ++ ed_line a))) then a
  else
    let c := if c =? 13 then 10 else c in
    let l := ed_line a ++ [c] in
    if (c =? 10) || (c =? C_D) || (Z.of_nat (length (ed_ready a ++ l)) =? INPUT_BUF_SIZE)
    then Ed (ed_ready a ++ l) []
    else Ed (ed_ready a) l.

(** What it prints. *)
Definition ed_erase : list Z := [8; 32; 8].
Definition ed_echo (c : Z) (a : editor) : list Z :=
  if c =? C_U then concat (repeat ed_erase (length (ed_line a)))
  else if (c =? C_H) || (c =? 0x7f) then (match ed_line a with [] => [] | _ => ed_erase end)
  else if (c =? 0) || (INPUT_BUF_SIZE <=? Z.of_nat (length (ed_ready a ++ ed_line a))) then []
  else [if c =? 13 then 10 else c].

(** A read of [n] bytes, [first] telling whether none was delivered yet: the
    bytes delivered, what stays ready, and whether the read is over. *)
Fixpoint ed_read (first : bool) (n : nat) (ready : list Z) : list Z * list Z * bool :=
  match n, ready with
  | O, _ => ([], ready, true)
  | S _, [] => ([], [], false)
  | S n', c :: l =>
      if c =? C_D then ([], if first then l else ready, true)
      else if c =? 10 then ([c], l, true)
      else let '(d, rest, fin) := ed_read false n' l in (c :: d, rest, fin)
  end.

(** The bytes of a ring of [n] from index [a] on. *)
Definition window (buf : Z -> Z) (n a : Z) (len : nat) : list Z :=
  map (fun k => buf ((a + Z.of_nat k) mod n)) (seq 0 len).

(** What the driver relies on: the data sheet's view of the UART, as the
    bytes sent and the bytes received and not read. *)
Class UartLaws (R : Type) {MM : Mmio R} := {
  ul_sent : R -> list Z;
  ul_rx : R -> list Z;
  ul_wait : R -> nat;
  ul_bound : nat;
  ul_wait_bound : forall r, (ul_wait r < ul_bound)%nat;
  ul_lsr : forall r, runs (reg_read LSR) r (fun v r' => ul_sent r' = ul_sent r /\ ul_rx r' = ul_rx r /\
    (Z.land v 1 = 0 <-> ul_rx r = []) /\ (Z.land v LSR_TX_IDLE = 0 -> (ul_wait r' < ul_wait r)%nat));
  ul_thr : forall r v, runs (reg_write THR v) r (fun _ r' => ul_sent r' = ul_sent r ++ [v] /\ ul_rx r' = ul_rx r);
  ul_rhr : forall r c l, ul_rx r = c :: l ->
    byte_ok c /\ runs (reg_read RHR) r (fun v r' => v = c /\ ul_sent r' = ul_sent r /\ ul_rx r' = l);
  ul_isr : forall r, runs (reg_read ISR) r (fun _ r' => ul_sent r' = ul_sent r /\ ul_rx r' = ul_rx r)
}.

(** ** Lemmas: the ring *)
Lemma window_cons buf n a len : window buf n a (S len) = buf (a mod n) :: window buf n (a + 1) len.
Proof.
  unfold window. cbn [seq map]. rewrite Z.add_0_r. f_equal. rewrite <- seq_shift, map_map. apply map_ext.
  intros k. do 2 f_equal. lia.
Qed.

Lemma window_snoc buf n a len : window buf n a (S len) = window buf n a len ++ [buf ((a + Z.of_nat len) mod n)].
Proof. unfold window. rewrite seq_S, map_app. done. Qed.

Lemma window_mod buf n a b len : 0 < n -> a mod n = b mod n -> window buf n a len = window buf n b len.
Proof.
  intros Hn E. apply map_ext. intros k. f_equal.
  rewrite <- (Z.add_mod_idemp_l a), E, Z.add_mod_idemp_l by lia. done.
Qed.

Lemma window_upd buf n a len i v :
  0 < n -> (forall k, 0 <= k < Z.of_nat len -> (a + k) mod n <> i) -> window (upd buf i v) n a len = window buf n a len.
Proof.
  intros Hn H. apply map_ext_in. intros k Hk%in_seq. unfold upd. rewrite decide_False; [done|]. apply H. lia.
Qed.

Lemma length_window buf n a len : length (window buf n a len) = len.
Proof. unfold window. by rewrite length_map, length_seq. Qed.


Lemma window_app buf n a i j : window buf n a (i + j) = window buf n a i ++ window buf n (a + Z.of_nat i) j.
Proof.
  revert a. induction i as [|i IH]; intros a; cbn [Nat.add].
  - cbn. by rewrite Z.add_0_r.
  - rewrite !window_cons, IH. cbn [app]. do 2 f_equal. f_equal. lia.
Qed.

(** ** Lemmas: the UART *)
Section uart_proofs.
Context {R : Type} {MM : Mmio R} {UL : UartLaws R}.
Implicit Types u : uart R.

(** Only the device and its streams moved: [out] was sent. *)
Definition sends (out : list Z) (u u' : uart R) : Prop :=
  u' = set_dev (ua_dev u') u /\ ul_sent (ua_dev u') = ul_sent (ua_dev u) ++ out /\ ul_rx (ua_dev u') = ul_rx (ua_dev u).

Lemma sends_nil u : sends [] u u.
Proof. split_and!; [by destruct u|by rewrite app_nil_r|done]. Qed.

Lemma sends_trans a b u1 u2 u3 : sends a u1 u2 -> sends b u2 u3 -> sends (a ++ b) u1 u3.
Proof. intros (E1 & S1 & R1) (E2 & S2 & R2). split_and!; [by rewrite E2, E1|by rewrite S2, S1, app_assoc|congruence]. Qed.

Lemma ReadReg_run r u Q :
  runs (reg_read r) (ua_dev u) (fun v d => Q v (set_dev d u)) -> runs (ReadReg r) u Q.
Proof. apply runs_zoom. Qed.

Lemma LSR_run u : runs (ReadReg LSR) u (fun v u' => sends [] u u' /\ (Z.land v 1 = 0 <-> ul_rx (ua_dev u) = []) /\
  (Z.land v LSR_TX_IDLE = 0 -> (ul_wait (ua_dev u') < ul_wait (ua_dev u))%nat)).
Proof.
  apply ReadReg_run. eapply runs_mono; [apply ul_lsr|]. intros v d (E1 & E2 & E3 & E4). cbn.
  split; [split_and!; cbn; [done|by rewrite app_nil_r|done]|]. split; [exact E3|exact E4].
Qed.

Lemma THR_run u v : runs (WriteReg THR v) u (fun _ u' => sends [u8 v] u u').
Proof. apply runs_zoom. eapply runs_mono; [apply ul_thr|]. by intros ? d [? ?]. Qed.

Lemma wait_idle_run fuel : forall u, (ul_wait (ua_dev u) < fuel)%nat -> runs (wait_idle fuel) u (fun _ u' => sends [] u u').
Proof.
  induction fuel as [|fuel IH]; intros u Hf; [lia|]. cbn [wait_idle]. eapply runs_seq; [apply LSR_run|].
  intros v u1 (S1 & _ & Hw). destruct (Z.eqb_spec (Z.land v LSR_TX_IDLE) 0) as [E|E].
  - eapply runs_mono; [apply IH; specialize (Hw E); lia|]. intros ? u2 S2. by apply (sends_trans [] [] u u1 u2).
  - by apply runs_ret.
Qed.

Lemma uartputc_sync_run spin c u :
  panicked u = 0 -> (ul_bound <= spin)%nat -> runs (uartputc_sync spin c) u (fun _ u' => sends [u8 c] u u').
Proof.
  intros Hp Hs. unfold uartputc_sync. mstep. rewrite Hp. cbn [Z.eqb negb].
  eapply runs_seq; [apply wait_idle_run; pose proof (ul_wait_bound (ua_dev u)); lia|]. intros ? u1 S1.
  eapply runs_mono; [apply THR_run|]. intros ? u2 S2. by apply (sends_trans [] _ u u1 u2).
Qed.

Lemma sends_panicked out u u' : sends out u u' -> panicked u' = panicked u.
Proof. by intros (-> & _). Qed.

Definition echo_of (c : Z) : list Z := if c =? BACKSPACE then ed_erase else [u8 c].

Lemma consputc_run spin c u :
  panicked u = 0 -> (ul_bound <= spin)%nat -> runs (consputc spin c) u (fun _ u' => sends (echo_of c) u u').
Proof.
  intros Hp Hs. unfold consputc, echo_of. destruct (c =? BACKSPACE); [|by apply uartputc_sync_run].
  eapply runs_seq; [by apply uartputc_sync_run|]. intros ? u1 S1.
  eapply runs_seq; [apply uartputc_sync_run; [by rewrite (sends_panicked _ _ _ S1)|done]|]. intros ? u2 S2.
  eapply runs_mono; [apply uartputc_sync_run; [by rewrite (sends_panicked _ _ _ S2), (sends_panicked _ _ _ S1)|done]|]. intros ? u3 S3.
  apply (sends_trans [8] [32; 8] u u1 u3 S1). by apply (sends_trans [32] [8] u1 u2 u3).
Qed.

Lemma uartgetc_run u :
  runs uartgetc u (fun v u' =>
    match ul_rx (ua_dev u) with
    | [] => v = -1 /\ sends [] u u'
    | c :: l => v = c /\ byte_ok c /\ u' = set_dev (ua_dev u') u /\ ul_sent (ua_dev u') = ul_sent (ua_dev u) /\ ul_rx (ua_dev u') = l
    end).
Proof.
  unfold uartgetc. eapply runs_seq; [apply LSR_run|]. intros v u1 (S1 & Hv & _). pose proof S1 as (E1 & E2 & E3).
  rewrite app_nil_r in E2. destruct (ul_rx (ua_dev u)) as [|c l] eqn:E.
  - rewrite (proj2 Hv eq_refl). cbn. by apply runs_ret.
  - destruct (Z.eqb_spec (Z.land v 1) 0) as [H|_]; [by apply Hv in H|]. cbn [negb].
    destruct (ul_rhr (ua_dev u1) c l E3) as [Hc HR]. apply ReadReg_run. eapply runs_mono; [exact HR|].
    intros v' d (-> & F1 & F2). cbn. split_and!; [done|exact Hc|by rewrite E1|by rewrite F1|done].
Qed.
End uart_proofs.

(** ** The input side implements the line editor *)
Section input.
Context {E R : Type} {MM : Mmio R} {UL : UartLaws R} {PS : ProcServices E} {UM : UserMem E} {PE : PipeEnv E}.
Context (x : ctx) (spin : nat) (procdump : M (cst E R) unit).
Implicit Types s : cst E R.

Definition cn_dev s : R := ua_dev (cn_uart s).
Definition ready_len s : nat := Z.to_nat (u32 (cn_w s - cn_r s)).
Definition line_len s : nat := Z.to_nat (u32 (cn_e s - cn_w s)).

(** The editor that [cons] represents. *)
Definition cabs s : editor :=
  Ed (window (cn_buf s) INPUT_BUF_SIZE (cn_r s) (ready_len s)) (window (cn_buf s) INPUT_BUF_SIZE (cn_w s) (line_len s)).

(** The indices are 32-bit and within the buffer; a newline is never in the
    line being edited. *)
Record cwf s : Prop := {
  cw_range : 0 <= cn_r s < 2 ^ 32 /\ 0 <= cn_w s < 2 ^ 32 /\ 0 <= cn_e s < 2 ^ 32;
  cw_size : u32 (cn_w s - cn_r s) + u32 (cn_e s - cn_w s) <= INPUT_BUF_SIZE;
  cw_line : (10 ∉ ed_line (cabs s));
}.

Lemma cwf_lengths s : length (ed_ready (cabs s)) = ready_len s /\ length (ed_line (cabs s)) = line_len s.
Proof. cbn. by rewrite !length_window. Qed.

(** The distance the code computes. *)
Lemma cwf_fill s : cwf s -> u32 (cn_e s - cn_r s) = Z.of_nat (length (ed_ready (cabs s) ++ ed_line (cabs s))).
Proof.
  intros [H1 H2 _]. destruct (cwf_lengths s) as [E1 E2]. rewrite length_app, E1, E2. unfold ready_len, line_len, INPUT_BUF_SIZE in *.
  unfold u32 in *. change (2 ^ 32) with 4294967296 in *. dlia.
Qed.

(** Everything but the console's own fields and the output. *)
Definition frame s s' : Prop :=
  cn_lock s' = cn_lock s /\ cn_uart s' = set_dev (cn_dev s') (cn_uart s) /\ ul_rx (cn_dev s') = ul_rx (cn_dev s).

Lemma frame_refl s : frame s s.
Proof. split_and!; try done. by destruct s as [? ? ? ? ? [] ?]. Qed.

Lemma frame_trans s1 s2 s3 : frame s1 s2 -> frame s2 s3 -> frame s1 s3.
Proof. intros (A1 & A2 & A3) (B1 & B2 & B3). split_and!; [congruence|by rewrite B2, A2|congruence]. Qed.

(** *** Backspace *)
Lemma erase_last s : cwf s -> cn_e s <> cn_w s ->
  let s' := set_cne (u32 (cn_e s - 1)) s in
  cwf s' /\ cabs s' = Ed (ed_ready (cabs s)) (removelast (ed_line (cabs s))) /\
  exists l, ed_line (cabs s) = l ++ [cn_buf s (u32 (cn_e s - 1) mod INPUT_BUF_SIZE)].
Proof.
  intros W Hne s'. pose proof W as [H1 H2 H3].
  assert (EL : line_len s = S (line_len s')).
  { unfold line_len, s'. cbn. unfold u32. change (2 ^ 32) with 4294967296 in *. dlia. }
  assert (EI : (cn_w s + Z.of_nat (line_len s')) mod INPUT_BUF_SIZE = u32 (cn_e s - 1) mod INPUT_BUF_SIZE).
  { unfold line_len, s', INPUT_BUF_SIZE. cbn. unfold u32. change (2 ^ 32) with 4294967296 in *. dlia. }
  assert (EW : ed_line (cabs s) = ed_line (cabs s') ++ [cn_buf s (u32 (cn_e s - 1) mod INPUT_BUF_SIZE)]).
  { cbn [cabs ed_line]. rewrite EL, window_snoc, EI. done. }
  assert (EA : cabs s' = Ed (ed_ready (cabs s)) (removelast (ed_line (cabs s)))).
  { rewrite EW, removelast_last. done. }
  split; [|split; [done|by eexists]]. split.
  - unfold s'. cbn [set_cne cn_r cn_w cn_e]. destruct H1 as (Hr & Hw & _). split; [exact Hr|]. split; [exact Hw|apply u32_range].
  - unfold s'. cbn [set_cne cn_r cn_w cn_e]. unfold u32, INPUT_BUF_SIZE in *. change (2 ^ 32) with 4294967296 in *. dlia.
  - rewrite EW in H3. intros H. apply H3. apply elem_of_app. by left.
Qed.

Lemma line_nonempty s : cwf s -> cn_e s <> cn_w s <-> ed_line (cabs s) <> [].
Proof.
  intros [H1 H2 _]. rewrite <- length_zero_iff_nil. destruct (cwf_lengths s) as [_ ->]. unfold line_len, u32.
  change (2 ^ 32) with 4294967296 in *. split; intros; dlia.
Qed.

Lemma run_echo c s : panicked (cn_uart s) = 0 -> (ul_bound <= spin)%nat ->
  runs (on_uart (consputc spin c)) s (fun _ s' => s' = set_cnuart (cn_uart s') s /\ frame s s' /\
    ul_sent (cn_dev s') = ul_sent (cn_dev s) ++ echo_of c).
Proof.
  intros Hp Hs. apply runs_zoom. eapply runs_mono; [by apply consputc_run|]. intros ? u (E1 & E2 & E3).
  split_and!; cbn; done.
Qed.

Lemma kill_line_run fuel : forall s, cwf s -> panicked (cn_uart s) = 0 -> (ul_bound <= spin)%nat ->
  (length (ed_line (cabs s)) < fuel)%nat ->
  runs (kill_line spin fuel) s (fun _ s' => cwf s' /\ cabs s' = Ed (ed_ready (cabs s)) [] /\ frame s s' /\
    ul_sent (cn_dev s') = ul_sent (cn_dev s) ++ concat (repeat ed_erase (length (ed_line (cabs s))))).
Proof.
  induction fuel as [|fuel IH]; intros s W Hp Hs Hf; [lia|]. cbn [kill_line]. mstep.
  destruct (Z.eqb_spec (cn_e s) (cn_w s)) as [Ee|Ee]; cbn [negb andb].
  - apply runs_ret. assert (EL : ed_line (cabs s) = []).
    { destruct (ed_line (cabs s)) eqn:El; [done|]. exfalso. eapply line_nonempty; [exact W|by rewrite El|done]. }
    split_and!; try apply frame_refl; [done|by destruct (cabs s); cbn in *; subst|by rewrite EL, app_nil_r].
  - destruct (erase_last s W Ee) as (W' & EA & l & El). set (b := cn_buf s (u32 (cn_e s - 1) mod INPUT_BUF_SIZE)) in *.
    assert (Hb : b <> 10). { intros Eb. apply (cw_line s W). rewrite El, Eb. set_solver. }
    rewrite (proj2 (Z.eqb_neq b 10) Hb). cbn [negb]. mstep.
    eapply runs_seq; [by apply run_echo|]. intros ? s1 (E1 & F & F4).
    assert (W1 : cwf s1) by (rewrite E1; destruct W'; by split).
    assert (EA1 : cabs s1 = cabs (set_cne (u32 (cn_e s - 1)) s)) by (by rewrite E1).
    eapply runs_mono; [apply IH; [done|by rewrite (proj1 (proj2 F))|done|]|].
    + rewrite EA1, EA. cbn [ed_line]. rewrite El, removelast_last. rewrite El, length_app in Hf. cbn [length] in Hf. lia.
    + intros ? s2 (W2 & EA2 & G & G4). split; [done|]. split; [by rewrite EA2, EA1, EA|].
      split; [by apply (frame_trans _ s1)|]. rewrite G4, F4, EA1, EA. cbn [ed_line]. rewrite El, removelast_last, length_app.
      replace (length l + length [b])%nat with (S (length l)) by (cbn; lia). cbn [repeat concat]. by rewrite <- app_assoc.
Qed.

(** *** A character typed *)
Definition cidx s : Prop :=
  (0 <= cn_r s < 2 ^ 32 /\ 0 <= cn_w s < 2 ^ 32 /\ 0 <= cn_e s < 2 ^ 32) /\
  u32 (cn_w s - cn_r s) + u32 (cn_e s - cn_w s) <= INPUT_BUF_SIZE.

Lemma push_char s c : cwf s -> Z.of_nat (length (ed_ready (cabs s) ++ ed_line (cabs s))) < INPUT_BUF_SIZE ->
  let s' := set_cnbuf (upd (cn_buf s) (cn_e s mod INPUT_BUF_SIZE) c) (u32 (cn_e s + 1)) s in
  cidx s' /\ cabs s' = Ed (ed_ready (cabs s)) (ed_line (cabs s) ++ [c]).
Proof.
  intros W Hl s'. pose proof W as [H1 H2 _]. rewrite <- (cwf_fill s W) in Hl.
  assert (EL : line_len s' = S (line_len s)).
  { unfold line_len, s', u32, INPUT_BUF_SIZE in *. cbn [set_cnbuf cn_r cn_w cn_e]. change (2 ^ 32) with 4294967296 in *. dlia. }
  assert (ER : ready_len s' = ready_len s) by done.
  assert (Ed1 : forall k, 0 <= k < Z.of_nat (ready_len s) -> (cn_r s + k) mod INPUT_BUF_SIZE <> cn_e s mod INPUT_BUF_SIZE).
  { unfold ready_len, u32, INPUT_BUF_SIZE in *. change (2 ^ 32) with 4294967296 in *. intros. dlia. }
  assert (Ed2 : forall k, 0 <= k < Z.of_nat (line_len s) -> (cn_w s + k) mod INPUT_BUF_SIZE <> cn_e s mod INPUT_BUF_SIZE).
  { unfold line_len, u32, INPUT_BUF_SIZE in *. change (2 ^ 32) with 4294967296 in *. intros. dlia. }
  assert (EI : (cn_w s + Z.of_nat (line_len s)) mod INPUT_BUF_SIZE = cn_e s mod INPUT_BUF_SIZE).
  { unfold line_len, u32, INPUT_BUF_SIZE in *. change (2 ^ 32) with 4294967296 in *. dlia. }
  split.
  - split; [destruct H1 as (Hr & Hw & _); split; [exact Hr|]; split; [exact Hw|apply u32_range]|].
    unfold s', u32, INPUT_BUF_SIZE in *. cbn [set_cnbuf cn_r cn_w cn_e]. change (2 ^ 32) with 4294967296 in *. dlia.
  - unfold cabs at 1. rewrite EL, ER. cbn [s' set_cnbuf cn_buf cn_r cn_w].
    rewrite window_snoc, EI, upd_eq, !window_upd by done. done.
Qed.

Lemma commit_line s : cidx s ->
  let s' := set_cnw (cn_e s) s in
  cwf s' /\ cabs s' = Ed (ed_ready (cabs s) ++ ed_line (cabs s)) [].
Proof.
  intros [H1 H2] s'.
  assert (EL : line_len s' = 0%nat) by (unfold line_len, s'; cbn; by rewrite Z.sub_diag).
  assert (ER : ready_len s' = (ready_len s + line_len s)%nat).
  { unfold ready_len, line_len, s', u32, INPUT_BUF_SIZE in *. cbn [set_cnw cn_r cn_w cn_e]. change (2 ^ 32) with 4294967296 in *. dlia. }
  assert (EA : cabs s' = Ed (ed_ready (cabs s) ++ ed_line (cabs s)) []).
  { unfold cabs. rewrite EL, ER. cbn [s' set_cnw cn_buf cn_r cn_w ed_ready ed_line]. rewrite window_app. do 2 f_equal.
    apply window_mod; [done|]. unfold ready_len, u32, INPUT_BUF_SIZE in *. change (2 ^ 32) with 4294967296 in *. dlia. }
  split; [|done]. split.
  - destruct H1 as (Hr & Hw & He). split; [exact Hr|]. split; exact He.
  - unfold s', u32, INPUT_BUF_SIZE in *. cbn [set_cnw cn_r cn_w cn_e]. change (2 ^ 32) with 4294967296 in *. dlia.
  - rewrite EA. by apply not_elem_of_nil.
Qed.

Lemma cn_acquire {A} s (k : M (cst E R) A) Q :
  lk_free (cn_lock s) -> runs k (set_cnlock (Spinlock 1 (lk_name (cn_lock s)) (Some (c_hart x))) s) Q ->
  runs (cn_spin (acquire_word (c_hart x)) ;; k) s Q.
Proof. intros Hl HK. apply runs_bind, runs_zoom. eapply runs_eq; [by apply acquire_word_free|]. done. Qed.

Lemma cn_release s nm (Q : unit -> cst E R -> Prop) :
  cn_lock s = Spinlock 1 nm (Some (c_hart x)) -> Q tt (set_cnlock (Spinlock 0 nm None) s) ->
  runs (cn_spin (release_word (c_hart x))) s Q.
Proof. intros HL HQ. apply runs_zoom. rewrite HL. eapply runs_eq; [apply release_word_held|]. done. Qed.

(** [procdump] only prints. *)
Hypothesis Hdump : forall s, panicked (cn_uart s) = 0 ->
  runs procdump s (fun _ s' => s' = set_cnuart (cn_uart s') s /\ frame s s').

(** The state between interrupts, and what they keep. *)
Record cok s : Prop := { co_wf : cwf s; co_lock : lk_free (cn_lock s); co_live : panicked (cn_uart s) = 0 }.

(** The cases of [consoleintr] between [acquire] and [release]. *)
Definition key_post s c s' : Prop :=
  cwf s' /\ cabs s' = ed_key c (cabs s) /\ frame s s' /\ (c <> C_P -> ul_sent (cn_dev s') = ul_sent (cn_dev s) ++ ed_echo c (cabs s)).

Lemma type_char s c : cwf s -> panicked (cn_uart s) = 0 -> (ul_bound <= spin)%nat -> byte_ok c ->
  c <> C_P -> c <> C_U -> c <> C_H -> c <> 0x7f ->
  runs (let! s := get in
        if negb (c =? 0) && (u32 (cn_e s - cn_r s) <? INPUT_BUF_SIZE) then
          let c := if c =? 13 then 10 else c in
          on_uart (consputc spin c) ;;
          modify (fun s => set_cnbuf (upd (cn_buf s) (cn_e s mod INPUT_BUF_SIZE) (u8 c)) (u32 (cn_e s + 1)) s) ;;
          let! s := get in
          if (c =? 10) || (c =? C_D) || (u32 (cn_e s - cn_r s) =? INPUT_BUF_SIZE) then
            modify (fun s => set_cnw (cn_e s) s) ;;
            on_cenv (svc_wakeup cons_chan)
          else ret tt
        else ret tt) s (fun _ s' => key_post s c s').
Proof.
  intros W Hp Hs Hc N1 N2 N3 N4. mstep. unfold key_post, ed_key, ed_echo.
  rewrite (proj2 (Z.eqb_neq c C_P) N1), (proj2 (Z.eqb_neq c C_U) N2), (proj2 (Z.eqb_neq c C_H) N3), (proj2 (Z.eqb_neq c 0x7f) N4). cbn [orb].
  rewrite (cwf_fill s W). destruct (Z.eqb_spec c 0) as [E0|N0]; cbn [negb andb orb].
  { apply runs_ret. split_and!; try apply frame_refl; try done. by rewrite app_nil_r. }
  rewrite (Z.ltb_antisym INPUT_BUF_SIZE). destruct (Z.leb_spec INPUT_BUF_SIZE (Z.of_nat (length (ed_ready (cabs s) ++ ed_line (cabs s))))) as [Hfull|Hfit]; cbn [negb].
  { apply runs_ret. split_and!; try apply frame_refl; try done. by rewrite app_nil_r. }
  cbv zeta. set (d := if c =? 13 then 10 else c).
  assert (Hd : byte_ok d) by (unfold d; destruct (c =? 13); [done|exact Hc]).
  assert (Ee : echo_of d = [d]).
  { unfold echo_of, BACKSPACE, byte_ok in *. rewrite (proj2 (Z.eqb_neq d 256)) by lia. by rewrite u8_small. }
  eapply runs_seq; [by apply run_echo|]. intros ? s1 (E1 & F & F4). rewrite Ee in F4.
  assert (W1 : cwf s1) by (rewrite E1; destruct W; by split).
  assert (EA1 : cabs s1 = cabs s) by (by rewrite E1).
  do 2 mstep. rewrite (u8_small d) by exact Hd.
  destruct (push_char s1 d W1 ltac:(by rewrite EA1)) as [I2 EA2]. set (s2 := set_cnbuf _ _ s1) in *. rewrite EA1 in EA2.
  assert (EF : u32 (cn_e s2 - cn_r s2) = Z.of_nat (length (ed_ready (cabs s) ++ ed_line (cabs s) ++ [d]))).
  { destruct (cwf_lengths s2) as [L1 L2]. rewrite EA2 in L1, L2. cbn [ed_ready ed_line] in L1, L2.
    rewrite length_app, L1, L2. destruct I2 as [I2 I3]. unfold ready_len, line_len, u32, INPUT_BUF_SIZE in *.
    change (2 ^ 32) with 4294967296 in *. dlia. }
  rewrite EF. destruct (_ || _ || _) eqn:Ec.
  - mstep. destruct (commit_line s2 I2) as [W3 EA3]. apply runs_zoom.
    destruct (pe_wakeup cons_chan (cn_env (set_cnw (cn_e s2) s2))) as (e' & Ew & _). eapply runs_eq; [exact Ew|].
    split; [destruct W3; by split|]. split; [change (cabs (set_cnw (cn_e s2) s2) = Ed (ed_ready (cabs s) ++ ed_line (cabs s) ++ [d]) []); by rewrite EA3, EA2|].
    split; [done|done].
  - apply runs_ret. split; [|split; [done|by split]]. destruct I2 as [I2 I3]. split; [done|done|].
    rewrite EA2. cbn [ed_line]. intros [H | H%list_elem_of_singleton]%elem_of_app; [by apply (cw_line s W)|].
    rewrite <- H in Ec. done.
Qed.

Lemma key_body s c : cwf s -> panicked (cn_uart s) = 0 -> (ul_bound <= spin)%nat -> byte_ok c ->
  runs (if c =? C_P then procdump
        else if c =? C_U then kill_line spin (S (Z.to_nat INPUT_BUF_SIZE))
        else if (c =? C_H) || (c =? 0x7f) then
          let! s := get in
          if negb (cn_e s =? cn_w s) then
            modify (set_cne (u32 (cn_e s - 1))) ;; on_uart (consputc spin BACKSPACE)
          else ret tt
        else
          let! s := get in
          if negb (c =? 0) && (u32 (cn_e s - cn_r s) <? INPUT_BUF_SIZE) then
            let c := if c =? 13 then 10 else c in
            on_uart (consputc spin c) ;;
            modify (fun s => set_cnbuf (upd (cn_buf s) (cn_e s mod INPUT_BUF_SIZE) (u8 c)) (u32 (cn_e s + 1)) s) ;;
            let! s := get in
            if (c =? 10) || (c =? C_D) || (u32 (cn_e s - cn_r s) =? INPUT_BUF_SIZE) then
              modify (fun s => set_cnw (cn_e s) s) ;;
              on_cenv (svc_wakeup cons_chan)
            else ret tt
          else ret tt) s (fun _ s' => key_post s c s').
Proof.
  intros W Hp Hs Hc. destruct (Z.eqb_spec c C_P) as [->|N1].
  { eapply runs_mono; [by apply Hdump|]. intros ? s' [E' F]. split_and!; try apply F; try done.
    - rewrite E'. destruct W; by split.
    - by rewrite E'. }
  destruct (Z.eqb_spec c C_U) as [->|N2].
  { eapply runs_mono; [apply kill_line_run; try done|].
    - destruct (cwf_lengths s) as [_ ->]. destruct W as [_ H _]. unfold line_len, INPUT_BUF_SIZE in *.
      pose proof (u32_range (cn_w s - cn_r s)). lia.
    - intros ? s' (? & ? & ? & ?). by split_and!. }
  destruct ((c =? C_H) || (c =? 0x7f)) eqn:Eb.
  - mstep. assert (EK : ed_key c (cabs s) = Ed (ed_ready (cabs s)) (removelast (ed_line (cabs s)))).
    { unfold ed_key. by rewrite (proj2 (Z.eqb_neq _ _) N1), (proj2 (Z.eqb_neq _ _) N2), Eb. }
    unfold key_post. rewrite EK. unfold ed_echo. rewrite (proj2 (Z.eqb_neq _ _) N2), Eb.
    destruct (Z.eqb_spec (cn_e s) (cn_w s)) as [Ee|Ee]; cbn [negb].
    + apply runs_ret. assert (EL : ed_line (cabs s) = []).
      { destruct (ed_line (cabs s)) eqn:El; [done|]. exfalso. eapply line_nonempty; [exact W|by rewrite El|done]. }
      rewrite EL. split_and!; try apply frame_refl; [done|by destruct (cabs s); cbn in *; subst|by rewrite app_nil_r].
    + destruct (erase_last s W Ee) as (W' & EA & l & El). mstep.
      eapply runs_mono; [by apply run_echo|]. intros ? s1 (E1 & F & F4). split; [rewrite E1; destruct W'; by split|].
      split; [rewrite E1; exact EA|]. split; [done|]. intros _. rewrite F4, El. by destruct l.
  - apply orb_false_iff in Eb as [N3 N4]. apply type_char; try done; by apply Z.eqb_neq.
Qed.

Lemma consoleintr_run s c : cok s -> (ul_bound <= spin)%nat -> byte_ok c ->
  runs (consoleintr x spin procdump c) s (fun _ s' => cok s' /\ cabs s' = ed_key c (cabs s) /\
    cn_uart s' = set_dev (cn_dev s') (cn_uart s) /\ ul_rx (cn_dev s') = ul_rx (cn_dev s) /\
    (c <> C_P -> ul_sent (cn_dev s') = ul_sent (cn_dev s) ++ ed_echo c (cabs s))).
Proof.
  intros [W Hl Hp] Hs Hc. unfold consoleintr. apply cn_acquire; [done|]. set (s0 := set_cnlock _ s).
  eapply runs_seq; [apply (key_body s0 c); try done; destruct W; by split|].
  intros ? s1 (W1 & EA & (F1 & F2 & F3) & F4). eapply cn_release; [rewrite F1; done|].
  split_and!; try done. split; [destruct W1; by split|done|]. cbn. by rewrite F2.
Qed.

(** The characters waiting, one after the other. *)
Lemma input_run fuel : forall s, cok s -> (ul_bound <= spin)%nat -> (length (ul_rx (cn_dev s)) < fuel)%nat ->
  runs (uartintr_input x spin procdump fuel) s (fun _ s' => cok s' /\ ul_rx (cn_dev s') = [] /\
    cn_uart s' = set_dev (cn_dev s') (cn_uart s) /\
    cabs s' = foldl (fun a c => ed_key c a) (cabs s) (ul_rx (cn_dev s))).
Proof.
  induction fuel as [|fuel IH]; intros s Hok Hs Hf; [lia|]. cbn [uartintr_input].
  apply runs_bind, runs_zoom. eapply runs_mono; [apply uartgetc_run|]. intros c u HU. fold (cn_dev s) in HU.
  destruct (ul_rx (cn_dev s)) as [|c' l] eqn:Er.
  - destruct HU as (-> & E1 & E2 & E3). cbn [Z.eqb Pos.eqb]. apply runs_ret. destruct Hok as [[] ? ?].
    split; [split; [by split|done|cbn; by rewrite E1]|].
    split; [change (ul_rx (ua_dev u) = []); rewrite E3; exact Er|]. split; [exact E1|done].
  - destruct HU as (-> & Hc & E1 & E2 & E3). rewrite (proj2 (Z.eqb_neq c' (-1))) by (unfold byte_ok in Hc; lia).
    set (s1 := set_cnuart u s). assert (Hok1 : cok s1).
    { destruct Hok as [[] ? Hp]. split; [by split|done|]. cbn. by rewrite E1. }
    eapply runs_seq; [by apply consoleintr_run|]. intros ? s2 (Hok2 & EA2 & EU2 & ER2 & _).
    assert (ER : ul_rx (cn_dev s2) = l) by (rewrite ER2; exact E3).
    eapply runs_mono; [apply IH; [done|done|rewrite ER; cbn [length] in Hf; lia]|].
    intros ? s3 (Hok3 & ER3 & EU3 & EA3). split_and!; try done.
    + rewrite EU3, EU2. cbn. by rewrite E1.
    + rewrite EA3, EA2, ER. done.
Qed.

(** ** The output side *)

(** The bytes queued for transmission, and all output so far. *)
Definition txq (u : uart R) : list Z :=
  window (uart_tx_buf u) UART_TX_BUF_SIZE (uart_tx_r u) (Z.to_nat (u64 (uart_tx_w u - uart_tx_r u))).
Definition cn_out s : list Z := ul_sent (cn_dev s) ++ txq (cn_uart s).
Definition uwf (u : uart R) : Prop :=
  0 <= uart_tx_r u < 2 ^ 64 /\ 0 <= uart_tx_w u < 2 ^ 64 /\ u64 (uart_tx_w u - uart_tx_r u) <= UART_TX_BUF_SIZE /\ Forall byte_ok (txq u).

(** The input side and the caller's memory are not touched. *)
Record quiet s s' : Prop := {
  qt_cons : cn_lock s' = cn_lock s /\ cn_buf s' = cn_buf s /\ cn_r s' = cn_r s /\ cn_w s' = cn_w s /\ cn_e s' = cn_e s;
  qt_uart : panicked (cn_uart s') = panicked (cn_uart s) /\ ul_rx (cn_dev s') = ul_rx (cn_dev s);
  qt_view : uview (cn_env s') = uview (cn_env s);
}.

Lemma quiet_trans s1 s2 s3 : quiet s1 s2 -> quiet s2 s3 -> quiet s1 s3.
Proof.
  intros [(A1 & A2 & A3 & A4 & A5) [A6 A7] A8] [(B1 & B2 & B3 & B4 & B5) [B6 B7] B8].
  split; [split_and!; congruence|split; congruence|congruence].
Qed.

Lemma quiet_cabs s s' : quiet s s' -> cabs s' = cabs s.
Proof. intros [(A1 & A2 & A3 & A4 & A5) _ _]. unfold cabs, ready_len, line_len. by rewrite A2, A3, A4, A5. Qed.

Lemma tx_pop u : uwf u -> uart_tx_w u <> uart_tx_r u ->
  let u' := set_tx (uart_tx_buf u) (uart_tx_w u) (u64 (uart_tx_r u + 1)) u in
  uwf u' /\ txq u = uart_tx_buf u (uart_tx_r u mod UART_TX_BUF_SIZE) :: txq u'.
Proof.
  intros (H1 & H2 & H3 & H4) Hne u'.
  assert (EQ : txq u = uart_tx_buf u (uart_tx_r u mod UART_TX_BUF_SIZE) :: txq u').
  { unfold txq, u'. cbn [set_tx uart_tx_buf uart_tx_w uart_tx_r].
    replace (Z.to_nat (u64 (uart_tx_w u - uart_tx_r u))) with (S (Z.to_nat (u64 (uart_tx_w u - u64 (uart_tx_r u + 1))))).
    - rewrite window_cons. f_equal. apply window_mod; [done|].
      unfold u64, UART_TX_BUF_SIZE. change (2 ^ 64) with 18446744073709551616 in *. dlia.
    - unfold u64. change (2 ^ 64) with 18446744073709551616 in *. dlia. }
  rewrite EQ in H4. apply Forall_cons in H4 as [_ H4]. split; [|done]. unfold uwf, u'. cbn [set_tx uart_tx_buf uart_tx_w uart_tx_r].
  split; [apply u64_range|]. split; [done|]. split; [|exact H4].
  unfold u64, UART_TX_BUF_SIZE in *. change (2 ^ 64) with 18446744073709551616 in *. dlia.
Qed.

Lemma tx_push u c : uwf u -> byte_ok c -> uart_tx_w u <> u64 (uart_tx_r u + UART_TX_BUF_SIZE) ->
  let u' := set_tx (upd (uart_tx_buf u) (uart_tx_w u mod UART_TX_BUF_SIZE) c) (u64 (uart_tx_w u + 1)) (uart_tx_r u) u in
  uwf u' /\ txq u' = txq u ++ [c].
Proof.
  intros (H1 & H2 & H3 & H4) Hc Hne u'.
  assert (HL : u64 (uart_tx_w u - uart_tx_r u) < UART_TX_BUF_SIZE).
  { unfold u64, UART_TX_BUF_SIZE in *. change (2 ^ 64) with 18446744073709551616 in *. dlia. }
  assert (EQ : txq u' = txq u ++ [c]).
  { unfold txq, u'. cbn [set_tx uart_tx_buf uart_tx_w uart_tx_r].
    replace (Z.to_nat (u64 (u64 (uart_tx_w u + 1) - uart_tx_r u))) with (S (Z.to_nat (u64 (uart_tx_w u - uart_tx_r u)))).
    - assert (EI : (uart_tx_r u + Z.of_nat (Z.to_nat (u64 (uart_tx_w u - uart_tx_r u)))) mod UART_TX_BUF_SIZE = uart_tx_w u mod UART_TX_BUF_SIZE).
      { unfold u64, UART_TX_BUF_SIZE in *. change (2 ^ 64) with 18446744073709551616 in *. dlia. }
      rewrite window_snoc, EI, upd_eq, window_upd; [done|done|].
      unfold u64, UART_TX_BUF_SIZE in *. change (2 ^ 64) with 18446744073709551616 in *. intros. dlia.
    - unfold u64, UART_TX_BUF_SIZE in *. change (2 ^ 64) with 18446744073709551616 in *. dlia. }
  split; [|done]. unfold uwf. rewrite EQ, Forall_app. unfold u'. cbn [set_tx uart_tx_buf uart_tx_w uart_tx_r].
  split; [done|]. split; [apply u64_range|]. split; [|split; [done|by constructor]].
  unfold u64, UART_TX_BUF_SIZE in *. change (2 ^ 64) with 18446744073709551616 in *. dlia.
Qed.

Lemma uartstart_loop_run fuel : forall s, uwf (cn_uart s) -> (length (txq (cn_uart s)) < fuel)%nat ->
  runs (uartstart_loop fuel) s (fun _ s' => quiet s s' /\ uwf (cn_uart s') /\ cn_out s' = cn_out s /\
    uart_tx_lock (cn_uart s') = uart_tx_lock (cn_uart s)).
Proof.
  induction fuel as [|fuel IH]; intros s W Hf; [lia|]. cbn [uartstart_loop]. mstep.
  destruct (Z.eqb_spec (uart_tx_w (cn_uart s)) (uart_tx_r (cn_uart s))) as [Ee|Ee].
  - apply runs_bind, runs_zoom, ReadReg_run. eapply runs_mono; [apply ul_isr|]. intros v d [E1 E2]. apply runs_ret.
    split; [by split|]. split; [done|]. split; [|done]. unfold cn_out, cn_dev. cbn. by rewrite E1.
  - apply runs_bind, runs_zoom. eapply runs_mono; [apply LSR_run|]. intros v u1 ((E1 & E2 & E3) & _ & _).
    rewrite app_nil_r in E2. destruct (Z.land v LSR_TX_IDLE =? 0).
    { apply runs_ret. split; [split; cbn; try done; by rewrite E1|]. unfold cn_out, cn_dev. cbn [set_cnuart cn_uart].
      rewrite E2. rewrite E1. done. }
    set (c := uart_tx_buf (cn_uart s) (uart_tx_r (cn_uart s) mod UART_TX_BUF_SIZE)).
    apply runs_bind, runs_zoom, runs_modify. apply runs_bind, runs_zoom.
    destruct (pe_wakeup tx_chan (cn_env s)) as (e' & Ew & Ev). eapply runs_eq; [exact Ew|].
    apply runs_bind, runs_zoom. eapply runs_mono; [apply THR_run|]. intros ? u2 (F1 & F2 & F3).
    destruct (tx_pop (cn_uart s) W Ee) as [W' EQ]. fold c in EQ.
    assert (EU : u2 = set_dev (ua_dev u2) (set_tx (uart_tx_buf (cn_uart s)) (uart_tx_w (cn_uart s)) (u64 (uart_tx_r (cn_uart s) + 1)) (cn_uart s))).
    { rewrite F1. cbn. rewrite E1. done. }
    assert (ES : ul_sent (ua_dev u2) = ul_sent (cn_dev s) ++ [c]).
    { rewrite F2. cbn. unfold cn_dev. rewrite E2. do 2 f_equal. apply u8_small.
      destruct W as (_ & _ & _ & W). rewrite EQ in W. by apply Forall_cons in W as [W _]. }
    eapply runs_mono; [apply IH|].
    + cbn [set_cnuart set_cnenv cn_uart]. rewrite EU. exact W'.
    + cbn [set_cnuart set_cnenv cn_uart]. rewrite EU. rewrite EQ in Hf. cbn [length] in Hf. unfold txq in *. cbn in *. lia.
    + intros ? s' (Q & W2 & EO & EL). split; [|split; [done|split]].
      * eapply quiet_trans; [|exact Q]. split; cbn; [done|split; [by rewrite EU|]|done]. unfold cn_dev. cbn. cbn in F3. rewrite F3. exact E3.
      * rewrite EO. unfold cn_out, cn_dev. cbn [set_cnuart set_cnenv cn_uart]. rewrite EQ, ES, <- app_assoc. cbn [app].
        f_equal. f_equal. by rewrite EU.
      * rewrite EL. cbn [set_cnuart set_cnenv cn_uart]. by rewrite EU.
Qed.

(** The transmit lock is free, and the ring is in order. *)
Record uok s : Prop := { uo_wf : uwf (cn_uart s); uo_lock : lk_free (uart_tx_lock (cn_uart s)); uo_live : panicked (cn_uart s) = 0 }.

Lemma tx_length u : uwf u -> (length (txq u) <= Z.to_nat UART_TX_BUF_SIZE)%nat.
Proof. intros (_ & _ & H & _). unfold txq. rewrite length_window. lia. Qed.

Lemma tx_acquire {A} s (k : M (cst E R) A) Q :
  lk_free (uart_tx_lock (cn_uart s)) ->
  runs k (set_cnuart (set_txlock (Spinlock 1 (lk_name (uart_tx_lock (cn_uart s))) (Some (c_hart x))) (cn_uart s)) s) Q ->
  runs (on_uart (tx_spin (acquire_word (c_hart x))) ;; k) s Q.
Proof. intros Hl HK. apply runs_bind, runs_zoom, runs_zoom. eapply runs_eq; [by apply acquire_word_free|]. done. Qed.

Lemma tx_release s nm (Q : unit -> cst E R -> Prop) :
  uart_tx_lock (cn_uart s) = Spinlock 1 nm (Some (c_hart x)) ->
  Q tt (set_cnuart (set_txlock (Spinlock 0 nm None) (cn_uart s)) s) -> runs (on_uart (tx_spin (release_word (c_hart x)))) s Q.
Proof. intros HL HQ. apply runs_zoom, runs_zoom. rewrite HL. eapply runs_eq; [apply release_word_held|]. done. Qed.

Lemma uartputc_body_run s nm c : uwf (cn_uart s) -> panicked (cn_uart s) = 0 ->
  uart_tx_lock (cn_uart s) = Spinlock 1 nm (Some (c_hart x)) ->
  runs (uartputc_body x c) s (fun r s' => quiet s s' /\ uok s' /\ cn_out s' = cn_out s ++ (if r then [u8 c] else [])).
Proof.
  intros W Hp HL. unfold uartputc_body. mstep.
  destruct (Z.eqb_spec (uart_tx_w (cn_uart s)) (u64 (uart_tx_r (cn_uart s) + UART_TX_BUF_SIZE))) as [Ef|Ef].
  - apply runs_bind. eapply tx_release; [exact HL|]. apply runs_ret. split; [by split|]. split; [by split|]. by rewrite app_nil_r.
  - apply runs_bind, runs_zoom, runs_modify. destruct (tx_push (cn_uart s) (u8 c) W (u8_range c) Ef) as [W' EQ].
    set (s1 := set_cnuart _ s). eapply runs_seq; [apply (uartstart_loop_run _ s1); [exact W'|apply tx_length in W'; exact (proj2 (Nat.lt_succ_r _ _) W')]|].
    intros ? s2 (Q & W2 & EO & EL). apply runs_bind. eapply tx_release; [rewrite EL; exact HL|]. apply runs_ret.
    pose proof (proj1 (qt_uart _ _ Q)) as Hp2. split; [|split].
    + eapply quiet_trans; [|eapply quiet_trans; [exact Q|]]; by split.
    + split; [exact W2|done|]. cbn. by rewrite Hp2.
    + change (cn_out s2 = cn_out s ++ [u8 c]). rewrite EO. unfold cn_out. cbn [s1 set_cnuart cn_uart]. rewrite EQ.
      unfold cn_dev. cbn. by rewrite app_assoc.
Qed.

Lemma uartputc_run s c : uok s ->
  runs (uartputc x c) s (fun r s' => quiet s s' /\ uok s' /\ cn_out s' = cn_out s ++ (if r then [u8 c] else [])).
Proof.
  intros [W Hl Hp]. unfold uartputc. apply tx_acquire; [done|]. mstep. cbn [set_cnuart cn_uart set_txlock panicked].
  rewrite Hp. cbn [Z.eqb negb]. eapply runs_mono; [eapply uartputc_body_run; done|].
  intros r s' (Q & U & EO). split; [|by split]. eapply quiet_trans; [|exact Q]. by split.
Qed.

Lemma uartintr_run fuel s : cok s -> uok s -> (ul_bound <= spin)%nat -> (length (ul_rx (cn_dev s)) < fuel)%nat ->
  runs (uartintr x spin procdump fuel) s (fun _ s' => cok s' /\ uok s' /\ ul_rx (cn_dev s') = [] /\
    cabs s' = foldl (fun a c => ed_key c a) (cabs s) (ul_rx (cn_dev s))).
Proof.
  intros Hok [W Hl Hp] Hs Hf. unfold uartintr. eapply runs_seq; [by apply input_run|].
  intros ? s1 (Hok1 & ER1 & EU1 & EA1).
  assert (W1 : uwf (cn_uart s1)) by (rewrite EU1; exact W).
  apply tx_acquire; [by rewrite EU1|]. eapply runs_seq.
  { apply uartstart_loop_run; [exact W1|]. apply tx_length in W1. exact (proj2 (Nat.lt_succ_r _ _) W1). }
  intros ? s2 (Q & W2 & _ & EL). eapply tx_release; [rewrite EL; done|].
  destruct Q as [(Q1 & Q2 & Q3 & Q4 & Q5) (Q6 & Q7) Q8]. destruct Hok1 as [[R1 R2 R3] R4 R5]. cbn in Q1, Q2, Q3, Q4, Q5, Q6.
  assert (EA : cabs (set_cnuart (set_txlock (Spinlock 0 (lk_name (uart_tx_lock (cn_uart s1))) None) (cn_uart s2)) s2) = cabs s1).
  { unfold cabs, ready_len, line_len. cbn. by rewrite Q2, Q3, Q4, Q5. }
  split; [|split; [|split]].
  - split; [split|cbn; by rewrite Q1|cbn; by rewrite Q6].
    + cbn [set_cnuart cn_r cn_w cn_e]. rewrite Q3, Q4, Q5. exact R1.
    + cbn [set_cnuart cn_r cn_w cn_e]. rewrite Q3, Q4, Q5. exact R2.
    + rewrite EA. exact R3.
  - split; [exact W2|done|cbn; by rewrite Q6].
  - change (ul_rx (cn_dev s2) = []). rewrite Q7. exact ER1.
  - by rewrite EA.
Qed.

(** ** Reading *)
Lemma ready_pop s : cwf s -> cn_r s <> cn_w s ->
  let s' := set_cnr (u32 (cn_r s + 1)) s in
  cwf s' /\ ed_ready (cabs s) = cn_buf s (cn_r s mod INPUT_BUF_SIZE) :: ed_ready (cabs s') /\ ed_line (cabs s') = ed_line (cabs s).
Proof.
  intros [H1 H2 H3] Hne s'.
  assert (EL : ready_len s = S (ready_len s')).
  { unfold ready_len, s', u32. cbn [set_cnr cn_r cn_w]. change (2 ^ 32) with 4294967296 in *. dlia. }
  assert (ER : ed_ready (cabs s) = cn_buf s (cn_r s mod INPUT_BUF_SIZE) :: ed_ready (cabs s')).
  { cbn [cabs ed_ready]. rewrite EL, window_cons. f_equal. apply window_mod; [done|].
    unfold s', u32, INPUT_BUF_SIZE. cbn [set_cnr cn_r]. change (2 ^ 32) with 4294967296 in *. dlia. }
  split; [|done]. split; [|unfold s', u32, INPUT_BUF_SIZE in *; cbn [set_cnr cn_r cn_w cn_e]; change (2 ^ 32) with 4294967296 in *; dlia|done].
  cbn [s' set_cnr cn_r cn_w cn_e]. split; [apply u32_range|]. by destruct H1.
Qed.

Lemma ready_empty s : cwf s -> cn_r s = cn_w s -> ed_ready (cabs s) = [].
Proof. intros _ Ee. unfold cabs, ready_len. rewrite Ee, Z.sub_diag. done. Qed.

(** The bytes [d] written from [dst] on, and nothing else. *)
Definition delivered (dst : Z) (d : list Z) (e e' : E) : Prop :=
  forall a, uview e' a = if decide (dst <= a < dst + Z.of_nat (length d)) then Some (d !!! Z.to_nat (a - dst)) else uview e a.

Lemma delivered_nil dst e e' : uview e' = uview e -> delivered dst [] e e'.
Proof. intros Ev a. rewrite decide_False by (cbn; lia). by rewrite Ev. Qed.

Lemma delivered_cons dst c d e e1 e2 :
  (forall a, uview e1 a = if decide (a = dst) then Some c else uview e a) -> delivered (dst + 1) d e1 e2 -> delivered dst (c :: d) e e2.
Proof.
  intros H1 H2 a. rewrite H2, H1. cbn [length]. repeat case_decide; try lia; try done.
  - f_equal. replace (Z.to_nat (a - dst)) with (S (Z.to_nat (a - (dst + 1)))) by lia. done.
  - subst a. by rewrite Z.sub_diag.
Qed.

(** The outcome of a piece of [consoleread] that wants [n] of [target] bytes. *)
Definition read_post (dst n target : Z) s (r : rprogress) s' : Prop :=
  let '(d, rest, fin) := ed_read (n =? target) (Z.to_nat n) (ed_ready (cabs s)) in
  cabs s' = Ed rest (ed_line (cabs s)) /\ delivered dst d (cn_env s) (cn_env s') /\
  (if (fin : bool) then r = RReturned (target - n + Z.of_nat (length d))
   else r = RReturned (-1) \/ r = RAsleep (dst + Z.of_nat (length d)) (n - Z.of_nat (length d))).

Lemma read_tail nm s r (Q : rprogress -> cst E R -> Prop) :
  cn_lock s = Spinlock 1 nm (Some (c_hart x)) -> Q r (set_cnlock (Spinlock 0 nm None) s) ->
  runs (cn_spin (release_word (c_hart x)) ;; ret r) s Q.
Proof. intros HL HQ. apply runs_bind. eapply cn_release; [exact HL|]. by apply runs_ret. Qed.

Lemma consoleread_loop_run lo hi fuel : forall nm dst n target s,
  (forall a b e, lo <= a < hi -> exists e', um_copyout a [b] e = (Ret 0, e') /\
     forall a', uview e' a' = if decide (a' = a) then Some b else uview e a') ->
  0 <= lo -> hi < 2 ^ 64 -> lo <= dst -> dst + n <= hi -> 0 <= n <= target -> (Z.to_nat n < fuel)%nat ->
  cwf s -> cn_lock s = Spinlock 1 nm (Some (c_hart x)) ->
  runs (consoleread_loop x fuel true dst n target) s (fun r s' =>
    cwf s' /\ lk_free (cn_lock s') /\ cn_uart s' = cn_uart s /\ read_post dst n target s r s').
Proof.
  induction fuel as [|fuel IH]; intros nm dst n target s Hw Hlo Hhi Hd Hn Ht Hf W HL; [lia|]. cbn [consoleread_loop].
  unfold read_post. destruct (Z.ltb_spec 0 n) as [Hpos|Hz]; cbn [negb].
  2: { replace n with 0 by lia. cbn [Z.to_nat ed_read]. eapply read_tail; [exact HL|].
       split; [destruct W; by split|]. split; [done|]. split; [done|]. split; [done|].
       split; [by apply delivered_nil|]. cbn. f_equal. lia. }
  mstep. replace (Z.to_nat n) with (S (Z.to_nat (n - 1))) by lia. destruct (Z.eqb_spec (cn_r s) (cn_w s)) as [Ee|Ee].
  - rewrite (ready_empty s W Ee). cbn [ed_read length].
    apply runs_bind, runs_zoom. destruct (pe_killed (cn_env s)) as (k & e' & Ek & Ev). eapply runs_eq; [exact Ek|].
    assert (EA : cabs s = Ed [] (ed_line (cabs s))) by (pose proof (ready_empty s W Ee) as E0; destruct (cabs s); cbn in *; by subst).
    destruct k; (eapply read_tail; [exact HL|]); (split; [destruct W; by split|]); (split; [done|]); (split; [done|]);
      (split; [exact EA|]); (split; [by apply delivered_nil|]); [by left|right; f_equal; lia].
  - destruct (ready_pop s W Ee) as (W1 & ER & EL). set (c := cn_buf s (cn_r s mod INPUT_BUF_SIZE)) in *. rewrite ER. cbn [ed_read].
    mstep. set (s1 := set_cnr (u32 (cn_r s + 1)) s) in *.
    assert (EA1 : cabs s1 = Ed (ed_ready (cabs s1)) (ed_line (cabs s))) by (rewrite <- EL; by destruct (cabs s1)).
    destruct (Z.eqb_spec c C_D) as [Ec|Ec].
    + assert (Hpb : set_cnr (u32 (cn_r s1 - 1)) s1 = s).
      { destruct W as [(Hr & _) _ _]. unfold s1. destruct s as [a1 a2 a3 a4 a5 a6 a7]. cbn in *. unfold set_cnr. cbn. f_equal.
        unfold u32. change (2 ^ 32) with 4294967296 in *. dlia. }
      destruct (Z.ltb_spec n target) as [Hlt|Hge].
      * rewrite (proj2 (Z.eqb_neq n target)) by lia. mstep. rewrite Hpb. eapply read_tail; [exact HL|].
        split; [destruct W; by split|]. split; [done|]. split; [done|].
        split; [by rewrite <- ER|]. split; [by apply delivered_nil|]. f_equal. cbn. lia.
      * replace target with n by lia. rewrite Z.eqb_refl. mstep. eapply read_tail; [exact HL|].
        split; [destruct W1; by split|]. split; [done|]. split; [done|]. split; [exact EA1|]. split; [by apply delivered_nil|]. f_equal. cbn. lia.
    + cbn [copyout_byte]. apply runs_bind, runs_zoom. destruct (Hw dst c (cn_env s1) ltac:(lia)) as (e' & Eo & Ev).
      eapply runs_eq; [exact Eo|]. cbn [Z.eqb].
      destruct (Z.eqb_spec c 10) as [En|En].
      * eapply read_tail; [exact HL|]. split; [destruct W1; by split|]. split; [done|]. split; [done|]. split; [exact EA1|].
        split; [eapply delivered_cons; [exact Ev|by apply delivered_nil]|]. f_equal. cbn. lia.
      * rewrite (u64_small (dst + 1)) by lia.
        eapply runs_mono; [eapply (IH nm (dst + 1) (n - 1) target (set_cnenv e' s1)); try done; try lia; destruct W1; by split|].
        intros r s' (W' & Hl' & EU' & HP). split; [exact W'|]. split; [exact Hl'|]. split; [exact EU'|].
        unfold read_post in HP. change (ed_ready (cabs (set_cnenv e' s1))) with (ed_ready (cabs s1)) in HP.
        change (ed_line (cabs (set_cnenv e' s1))) with (ed_line (cabs s1)) in HP. rewrite (proj2 (Z.eqb_neq (n - 1) target)) in HP by lia.
        destruct (ed_read false (Z.to_nat (n - 1)) (ed_ready (cabs s1))) as [[d rest] fin]. destruct HP as (HA & HD & HR).
        split; [by rewrite HA, EL|]. split; [eapply delivered_cons; [exact Ev|exact HD]|]. cbn [length].
        destruct fin; [rewrite HR; f_equal; lia|]. destruct HR as [-> | ->]; [by left|right; f_equal; lia].
Qed.

(** ** Writing *)

(** [bs] are the bytes of the caller's memory from [a] on, as sent. *)
Definition user_bytes (e : E) (a : Z) (bs : list Z) : Prop :=
  forall k b, bs !! k = Some b -> exists v, uview e (u64 (a + Z.of_nat k)) = Some v /\ b = u8 v.

Lemma user_bytes_cons e e' a v bs :
  uview e (u64 a) = Some v -> uview e' = uview e -> user_bytes e' (a + 1) bs -> user_bytes e a (u8 v :: bs).
Proof.
  intros Hv Ev HB [|k] b; cbn [lookup list_lookup]; [intros [= <-]; exists v; by rewrite Z.add_0_r|].
  intros Hk. destruct (HB k b Hk) as (v' & E1 & E2). exists v'. rewrite <- Ev. split; [|done].
  rewrite <- E1. do 2 f_equal. lia.
Qed.

(** How a piece of [consolewrite] ends that started with [i] bytes written. *)
Definition write_post (src n i : Z) s (r : wprogress) s' : Prop :=
  exists bs, cn_out s' = cn_out s ++ bs /\ user_bytes (cn_env s) (src + i) bs /\
    match r with
    | WReturned j => j = i + Z.of_nat (length bs) /\ (j < n -> uview (cn_env s) (u64 (src + j)) = None)
    | WAsleep j c => j = i + Z.of_nat (length bs) /\ j < n /\ uview (cn_env s) (u64 (src + j)) = Some c
    end.

Lemma consolewrite_loop_run fuel : forall src n i s, uok s -> (Z.to_nat (n - i) < fuel)%nat ->
  runs (consolewrite_loop x fuel true src n i) s (fun r s' => quiet s s' /\ uok s' /\ write_post src n i s r s').
Proof.
  induction fuel as [|fuel IH]; intros src n i s U Hf; [lia|]. cbn [consolewrite_loop].
  destruct (Z.ltb_spec i n) as [Hlt|Hge]; cbn [negb].
  2: { apply runs_ret. split; [by split|]. split; [done|]. exists []. rewrite app_nil_r. split_and!; [done|by intros k b|cbn; lia|lia]. }
  apply runs_bind. unfold copyin_byte. apply runs_bind, runs_zoom.
  destruct (pe_copyin (u64 (src + i)) (cn_env s)) as (bs & st & e' & Ec & Ev & HV). eapply runs_eq; [exact Ec|]. apply runs_ret.
  set (s1 := set_cnenv e' s). assert (Q1 : quiet s s1) by (by split).
  destruct (uview (cn_env s) (u64 (src + i))) as [v|] eqn:Eu.
  - destruct HV as [-> ->]. cbn [Z.eqb nth]. eapply runs_seq; [apply (uartputc_run s1 v); destruct U; by split|].
    intros r s2 (Q2 & U2 & EO). assert (Q12 : quiet s s2) by (by eapply quiet_trans). destruct r.
    + eapply runs_mono; [apply IH; [done|lia]|]. intros r s3 (Q3 & U3 & bs & EO3 & HB & HR).
      split; [by eapply quiet_trans|]. split; [done|]. exists (u8 v :: bs).
      assert (EV2 : uview (cn_env s2) = uview (cn_env s)) by apply Q12.
      split_and!; [rewrite EO3, EO; by rewrite <- app_assoc| |].
      * eapply user_bytes_cons; [done|exact EV2|]. by rewrite <- Z.add_assoc.
      * rewrite EV2 in HR. cbn [length]. replace (i + Z.of_nat (S (length bs))) with (i + 1 + Z.of_nat (length bs)) by lia. exact HR.
    + apply runs_ret. split; [done|]. split; [done|]. exists []. rewrite EO, !app_nil_r. split_and!; [done|by intros k b|cbn; lia|done|].
      exact Eu.
  - rewrite HV. cbn. apply runs_ret. split; [done|]. split; [destruct U; by split|]. exists []. rewrite app_nil_r.
    split_and!; [done|by intros k b|cbn; lia|]. by intros _.
Qed.
End input.

(** ** A terminal for the witnesses

    A UART that is always ready, and a process all of whose addresses below
    1000 are mapped. *)
Record ser := Ser { sr_sent : list Z; sr_rx : list Z }.

#[local] Instance ser_mmio : Mmio ser := {|
  reg_read r := fun d =>
    if r =? LSR then (Ret (match sr_rx d with [] => 32 | _ => 33 end), d)
    else if r =? RHR then (Ret (u8 (hd 0 (sr_rx d))), Ser (sr_sent d) (tl (sr_rx d)))
    else (Ret 0, d);
  reg_write r v := modify (fun d => if r =? THR then Ser (sr_sent d ++ [v]) (sr_rx d) else d)
|}.

#[local] Instance ser_laws : UartLaws ser.
Proof.
  refine {| ul_sent := sr_sent; ul_rx d := map u8 (sr_rx d); ul_wait _ := 0%nat; ul_bound := 1%nat |}.
  - intros r. lia.
  - intros r. eexists _, r. split; [done|]. destruct r as [se [|c l]]; cbn; intuition (done || congruence).
  - intros r v. eexists _, _. split; [done|]. done.
  - intros r c l Er. destruct r as [se [|c' l']]; cbn in Er; [done|]. injection Er as <- <-. split; [apply u8_range|].
    eexists _, _. split; [done|]. done.
  - intros r. eexists _, r. done.
Defined.

Definition tenv : Type := gmap Z Z.
#[local] Instance tenv_user : UserMem tenv := {|
  um_copyout a bs := if (0 <=? a) && (a <? 1000) then modify (fun m => store_bytes m a bs) ;; ret 0 else ret (-1);
  um_copyin a old := let! m := get in ret (if (0 <=? a) && (a <? 1000) then (load_bytes (length old) m a, 0) else (old, -1));
  um_mem m := m; um_set_mem m _ := m |}.
#[local] Instance tenv_svc : ProcServices tenv := {| svc_killed := ret false; svc_wakeup := fun _ => ret tt |}.
#[local] Instance tenv_pipe : PipeEnv tenv.
Proof.
  refine {| uview := fun (m : tenv) a => if (0 <=? a) && (a <? 1000) then Some (rd m a) else None |}.
  - intros e. by exists false, e.
  - intros c e. by exists e.
  - intros a e. cbn. destruct ((0 <=? a) && (a <? 1000)); by eexists _, _, e.
  - intros a b e. cbn. destruct ((0 <=? a) && (a <? 1000)) eqn:Ea.
    + eexists _, _. split; [done|]. right. split; [done|]. intros a'. rewrite rd_wr. repeat case_decide; subst; try congruence.
      by rewrite Ea.
    + eexists _, _. split; [done|]. by left.
Defined.

Definition term (typed : list Z) : cst tenv ser :=
  CSt (initlock "cons") (fun _ => 0) 0 0 0 (Uart (initlock "uart") (fun _ => 0) 0 0 0 (Ser [] typed)) (store_bytes ∅ 200 [104; 105]).

Lemma term_ok typed : cok (term typed) /\ uok (term typed).
Proof.
  split.
  - split; [|done|done]. split; [done|done|]. vm_compute. apply not_elem_of_nil.
  - split; [|done|done]. split_and!; try done.
Qed.

(** ** Properties *)

(** C22. The console's input is edited as its header comment says.  An
    interrupt takes every character that has arrived, in order, and the
    buffer and its three wrapping indices become what a line editor becomes:
    backspace and delete erase the last character of the line being typed,
    control-u the whole line and nothing before it, a full buffer drops
    characters, and only newline, control-d or a full buffer make the line
    readable. *)
Theorem console_edits_input {E R : Type} `{MM : Mmio R} `{UL : !UartLaws R} `{PS : ProcServices E} `{UM : UserMem E} `{PE : !PipeEnv E}
    (x : ctx) (spin fuel : nat) (procdump : M (cst E R) unit) (s : cst E R) :
  (forall s, panicked (cn_uart s) = 0 -> runs procdump s (fun _ s' => s' = set_cnuart (cn_uart s') s /\ frame s s')) ->
  cok s -> uok s -> (ul_bound <= spin)%nat -> (length (ul_rx (cn_dev s)) < fuel)%nat ->
  runs (uartintr x spin procdump fuel) s (fun _ s' =>
    cok s' /\ uok s' /\ ul_rx (cn_dev s') = [] /\
    cabs s' = foldl (fun a c => ed_key c a) (cabs s) (ul_rx (cn_dev s))).
Proof. intros. by apply uartintr_run. Qed.

(** "ab", backspace, "c", return: the line "ac". *)
Lemma console_edits_input_witness :
  let s := term [97; 98; 8; 99; 13] in
  cabs (uartintr (E := tenv) (Ctx 0 1) 1 (ret tt) 10 s).2 = Ed [97; 99; 10] [] /\
  runs (uartintr (Ctx 0 1) 1 (ret tt) 10) s (fun _ s' =>
    cok s' /\ uok s' /\ ul_rx (cn_dev s') = [] /\
    cabs s' = foldl (fun a c => ed_key c a) (cabs s) (ul_rx (cn_dev s))).
Proof.
  split; [vm_compute; reflexivity|].
  apply console_edits_input; [|apply term_ok|apply term_ok|done|vm_compute; lia].
  intros s Hp. apply runs_ret. split; [by destruct s|apply frame_refl].
Defined.

(** [consoleread] delivers what is ready and no more: the bytes up to a
    newline, to the number asked for or to an end-of-file mark (which is kept
    for the next call when bytes were delivered before it), written one after
    the other into the caller's buffer; with nothing ready it sleeps, or
    returns -1 when the caller is killed. *)
Theorem consoleread_delivers {E R : Type} `{PS : ProcServices E} `{UM : UserMem E} `{PE : !PipeEnv E}
    (x : ctx) (dst n target : Z) (s : cst E R) :
  (forall a b e, dst <= a < dst + n -> exists e', um_copyout a [b] e = (Ret 0, e') /\
     forall a', uview e' a' = if decide (a' = a) then Some b else uview e a') ->
  0 <= dst -> dst + n < 2 ^ 64 -> 0 <= n <= target -> cwf s -> lk_free (cn_lock s) ->
  runs (consoleread_from x true dst n target) s (fun r s' =>
    cwf s' /\ lk_free (cn_lock s') /\ cn_uart s' = cn_uart s /\
    let '(d, rest, fin) := ed_read (n =? target) (Z.to_nat n) (ed_ready (cabs s)) in
    cabs s' = Ed rest (ed_line (cabs s)) /\ delivered dst d (cn_env s) (cn_env s') /\
    if (fin : bool) then r = RReturned (target - n + Z.of_nat (length d))
    else r = RReturned (-1) \/ r = RAsleep (dst + Z.of_nat (length d)) (n - Z.of_nat (length d))).
Proof.
  intros Hw Hd Hh Hn W Hl. unfold consoleread_from. eapply cn_acquire; [done|].
  eapply runs_mono; [eapply (consoleread_loop_run x dst (dst + n)); try done; try lia; destruct W; by split|].
  intros r s' H. exact H.
Qed.

(** With "hi" and a newline typed, a read of 10 bytes delivers three. *)
Definition typed_hi : cst tenv ser := (uartintr (Ctx 0 1) 1 (ret tt) 10 (term [104; 105; 10])).2.

Lemma consoleread_delivers_witness :
  (consoleread_from (Ctx 0 1) true 300 10 10 typed_hi).1 = Ret (RReturned 3) /\
  runs (consoleread_from (Ctx 0 1) true 300 10 10) typed_hi (fun r s' =>
    cwf s' /\ lk_free (cn_lock s') /\ cn_uart s' = cn_uart typed_hi /\
    let '(d, rest, fin) := ed_read (10 =? 10) (Z.to_nat 10) (ed_ready (cabs typed_hi)) in
    cabs s' = Ed rest (ed_line (cabs typed_hi)) /\ delivered 300 d (cn_env typed_hi) (cn_env s') /\
    if (fin : bool) then r = RReturned (10 - 10 + Z.of_nat (length d))
    else r = RReturned (-1) \/ r = RAsleep (300 + Z.of_nat (length d)) (10 - Z.of_nat (length d))).
Proof.
  split; [vm_compute; reflexivity|].
  apply (consoleread_delivers (Ctx 0 1) 300 10 10 typed_hi); [|lia|lia|lia| |by vm_compute].
  - intros a b e Ha. exists (wr e a b). cbn. rewrite (proj2 (Z.leb_le 0 a)), (proj2 (Z.ltb_lt a 1000)) by lia. split; [done|].
    intros a'. rewrite rd_wr. destruct (decide (a = a')) as [<-|Hne]; [|by rewrite decide_False by done].
    by rewrite decide_True, (proj2 (Z.leb_le 0 a)), (proj2 (Z.ltb_lt a 1000)) by (done || lia).
  - split; [vm_compute; intuition congruence|vm_compute; congruence|vm_compute; set_solver].
Defined.

(** Output leaves in the order it was written.  What has been sent
    followed by what is queued in the 32-byte transmit ring grows by exactly
    the caller's bytes, from the first, when a piece of [consolewrite]
    returns or goes to sleep for space; it stops early only at a byte that
    cannot be read. *)
Theorem console_output_in_order {E R : Type} `{MM : Mmio R} `{UL : !UartLaws R} `{PS : ProcServices E} `{UM : UserMem E} `{PE : !PipeEnv E}
    (x : ctx) (src n i : Z) (s : cst E R) :
  uok s ->
  runs (consolewrite_from x true src n i) s (fun r s' => quiet s s' /\ uok s' /\
    exists bs, cn_out s' = cn_out s ++ bs /\ user_bytes (cn_env s) (src + i) bs /\
      match r with
      | WReturned j => j = i + Z.of_nat (length bs) /\ (j < n -> uview (cn_env s) (u64 (src + j)) = None)
      | WAsleep j c => j = i + Z.of_nat (length bs) /\ j < n /\ uview (cn_env s) (u64 (src + j)) = Some c
      end).
Proof. intros U. apply (consolewrite_loop_run x _ src n i s U). lia. Qed.

Lemma console_output_in_order_witness :
  sr_sent (ua_dev (cn_uart (consolewrite_from (Ctx 0 1) true 200 2 0 (term [])).2)) = [104; 105] /\
  runs (consolewrite_from (Ctx 0 1) true 200 2 0) (term []) (fun r s' => quiet (term []) s' /\ uok s' /\
    exists bs, cn_out s' = cn_out (term []) ++ bs /\ user_bytes (cn_env (term [])) (200 + 0) bs /\
      match r with
      | WReturned j => j = 0 + Z.of_nat (length bs) /\ (j < 2 -> uview (cn_env (term [])) (u64 (200 + j)) = None)
      | WAsleep j c => j = 0 + Z.of_nat (length bs) /\ j < 2 /\ uview (cn_env (term [])) (u64 (200 + j)) = Some c
      end).
Proof. split; [vm_compute; reflexivity|]. apply console_output_in_order, term_ok. Defined.
