(* ===== verification/Kprintf.v ===== *)
(** * Formatted output of the kernel: kernel/printf.c

    [printf] walks its format in memory and sends characters through
    [consputc] of Console.v; the variable arguments are the list of register
    values [va_arg] takes from.  [printint] builds its digits backwards in a
    16-byte array on the stack: a 17th character is undefined behaviour.  The
    specification is a renderer on lists: the format as a list of directives,
    and what each of them prints. *)
From S2P Require Import Prelude CString Riscv Spinlock Kalloc Fs Pipe File Console.
Local Open Scope Z_scope.

Definition s64 (x : Z) : Z := (x + 2 ^ 63) mod 2 ^ 64 - 2 ^ 63.

(** ["0123456789abcdef"] *)
Definition digits : list Z := [48; 49; 50; 51; 52; 53; 54; 55; 56; 57; 97; 98; 99; 100; 101; 102].

(** [pr], the UART and the memory the strings are in. *)
Record prst (R : Type) := PrSt { pr_lock : spinlock; pr_locking : Z; pr_uart : uart R; pr_mem : mem }.
Arguments PrSt {R}. Arguments pr_lock {R}. Arguments pr_locking {R}. Arguments pr_uart {R}. Arguments pr_mem {R}.

Section ops.
Context {R : Type} {MM : Mmio R} (hart : Z) (spin : nat).
Local Abbreviation PM := (M (prst R)).

Definition set_prlock v (s : prst R) : prst R := PrSt v (pr_locking s) (pr_uart s) (pr_mem s).
Definition set_locking v (s : prst R) : prst R := PrSt (pr_lock s) v (pr_uart s) (pr_mem s).
Definition set_pruart v (s : prst R) : prst R := PrSt (pr_lock s) (pr_locking s) v (pr_mem s).
Definition putc (c : Z) : PM unit := zoom pr_uart set_pruart (consputc spin c).
Definition pr_spin {A} (m : M spinlock A) : PM A := zoom pr_lock set_prlock m.

(** [buf[i++] = ...]: [buf] lists the characters stored so far, the last one
    first; there is room for 16. *)
Definition buf_push (c : Z) (buf : list Z) : PM (list Z) :=
  if (length buf <? 16)%nat then ret (c :: buf) else undef "printint: buf overflow".

(** [do ... while((x /= base) != 0)]; 64 divisions are enough for 64 bits. *)
Fixpoint digit_loop (fuel : nat) (v base : Z) (buf : list Z) : PM (list Z) :=
  match fuel with
  | O => stall (Chan "printint" 0)
  | S f =>
      let! buf := buf_push (nth (Z.to_nat (v mod base)) digits 0) buf in
      let v := v / base in
      if negb (v =? 0) then digit_loop f v base buf else ret buf
  end.

(** [while(--i >= 0) consputc(buf[i])] *)
Fixpoint put_all (l : list Z) : PM unit :=
  match l with
  | [] => ret tt
  | c :: t => putc c ;; put_all t
  end.

Definition printint (xx base : Z) (sign : bool) : PM unit :=
  let neg := sign && (xx <? 0) in
  if neg && (xx =? - 2 ^ 63) then undef "printint: negation overflow"
  else
    let v := if neg then - xx else u64 xx in
    let! buf := digit_loop 64 v base [] in
    let! buf := (if (neg : bool) then buf_push 45 buf else ret buf) in
    put_all buf.

(** [n] of the 16 hexadecimal digits to go. *)
Fixpoint printptr_loop (n : nat) (v : Z) : PM unit :=
  match n with
  | O => ret tt
  | S n' => putc (nth (Z.to_nat (Z.shiftr v 60)) digits 0) ;; printptr_loop n' (u64 (Z.shiftl v 4))
  end.

Definition printptr (v : Z) : PM unit :=
  putc 48 ;;
  putc 120 ;;
  printptr_loop 16 v.

(** [for(; *s; s++) consputc( *s )] *)
Fixpoint putstr (fuel : nat) (s : Z) : PM unit :=
  match fuel with
  | O => stall (Chan "printf %s" 0)
  | S f =>
      let! m := gets pr_mem in
      if rd m s =? 0 then ret tt else putc (rd m s) ;; putstr f (s + 1)
  end.

(** [va_arg(ap, int)], [va_arg(ap, uint64)] and the arguments left. *)
Definition arg_int (ap : list Z) : PM (Z * list Z) :=
  match ap with a :: t => ret (s32 a, t) | [] => undef "va_arg" end.
Definition arg_u64 (ap : list Z) : PM (Z * list Z) :=
  match ap with a :: t => ret (u64 a, t) | [] => undef "va_arg" end.

(** A directive at [fmt + i] (after the percent sign): the characters after
    the first that it takes, and the arguments left; [None] at the end. *)
Definition directive (fuel : nat) (null fmt i : Z) (ap : list Z) : PM (option (Z * list Z)) :=
  let! m := gets pr_mem in
  let c0 := rd m (fmt + i) in
  let c1 := if negb (c0 =? 0) then rd m (fmt + i + 1) else 0 in
  let c2 := if negb (c1 =? 0) then rd m (fmt + i + 2) else 0 in
  if c0 =? 100 then
    let! (v, ap) := arg_int ap in printint v 10 true ;; ret (Some (0, ap))
  else if (c0 =? 108) && (c1 =? 100) then
    let! (v, ap) := arg_u64 ap in printint (s64 v) 10 true ;; ret (Some (1, ap))
  else if (c0 =? 108) && (c1 =? 108) && (c2 =? 100) then
    let! (v, ap) := arg_u64 ap in printint (s64 v) 10 true ;; ret (Some (2, ap))
  else if c0 =? 117 then
    let! (v, ap) := arg_int ap in printint v 10 false ;; ret (Some (0, ap))
  else if (c0 =? 108) && (c1 =? 117) then
    let! (v, ap) := arg_u64 ap in printint (s64 v) 10 false ;; ret (Some (1, ap))
  else if (c0 =? 108) && (c1 =? 108) && (c2 =? 117) then
    let! (v, ap) := arg_u64 ap in printint (s64 v) 10 false ;; ret (Some (2, ap))
  else if c0 =? 120 then
    let! (v, ap) := arg_int ap in printint v 16 false ;; ret (Some (0, ap))
  else if (c0 =? 108) && (c1 =? 120) then
    let! (v, ap) := arg_u64 ap in printint (s64 v) 16 false ;; ret (Some (1, ap))
  else if (c0 =? 108) && (c1 =? 108) && (c2 =? 120) then
    let! (v, ap) := arg_u64 ap in printint (s64 v) 16 false ;; ret (Some (2, ap))
  else if c0 =? 112 then
    let! (v, ap) := arg_u64 ap in printptr v ;; ret (Some (0, ap))
  else if c0 =? 115 then
    let! (v, ap) := arg_u64 ap in
    putstr fuel (if v =? 0 then null else v) ;; ret (Some (0, ap))
  else if c0 =? 37 then putc 37 ;; ret (Some (0, ap))
  else if c0 =? 0 then ret None
  else putc 37 ;; putc c0 ;; ret (Some (0, ap)).

Fixpoint printf_loop (fuel : nat) (null fmt i : Z) (ap : list Z) : PM unit :=
  match fuel with
  | O => stall (Chan "printf" 0)
  | S f =>
      let! m := gets pr_mem in
      let cx := rd m (fmt + i) in
      if cx =? 0 then ret tt
      else if negb (cx =? 37) then putc cx ;; printf_loop f null fmt (i + 1) ap
      else
        let! r := directive f null fmt (i + 1) ap in
        match r with
        | None => ret tt
        | Some (k, ap) => printf_loop f null fmt (i + 1 + k + 1) ap
        end
  end.

(** [null] is the address of "(null)". *)
Definition printf (fuel : nat) (null fmt : Z) (ap : list Z) : PM Z :=
  let! locking := gets pr_locking in
  when negb (locking =? 0) do pr_spin (acquire_word hart) ;;
  printf_loop fuel null fmt 0 ap ;;
  when negb (locking =? 0) do pr_spin (release_word hart) ;;
  ret 0.

(** [lit_panic] and [lit_s] are the addresses of the two formats; the loop at
    the end is the panic itself. *)
Definition kpanic (fuel : nat) (null lit_panic lit_s s : Z) : PM unit :=
  modify (set_locking 0) ;;
  printf fuel null lit_panic [] ;;
  printf fuel null lit_s [s] ;;
  modify (fun st => set_pruart (Uart (uart_tx_lock (pr_uart st)) (uart_tx_buf (pr_uart st)) (uart_tx_w (pr_uart st))
                                     (uart_tx_r (pr_uart st)) 1 (ua_dev (pr_uart st))) st) ;;
  stall (Chan "panic" 0).

Definition printfinit : PM unit :=
  modify (set_prlock (initlock "pr")) ;;
  modify (set_locking 1).
End ops.

(** ** What is to be printed *)

(** The digits of a number, the most significant first. *)
Fixpoint digits_of (fuel : nat) (v base : Z) : list Z :=
  match fuel with
  | O => []
  | S f => (if v / base =? 0 then [] else digits_of f (v / base) base) ++ [nth (Z.to_nat (v mod base)) digits 0]
  end.

(** The value of a character among the digits, and of a string of digits. *)
Definition digit_val (c : Z) : Z := if c <? 58 then c - 48 else c - 87.
Definition number (base : Z) (l : list Z) : Z := foldl (fun n c => n * base + digit_val c) 0 l.

(** The text of an integer: the sign and the magnitude. *)
Definition int_text (xx base : Z) (sign : bool) : list Z :=
  if sign && (xx <? 0) then 45 :: digits_of 64 (- xx) base else digits_of 64 (u64 xx) base.

(** ** Lemmas: digits *)
Lemma digits_nth d : 0 <= d < 16 -> digit_val (nth (Z.to_nat d) digits 0) = d /\ byte_ok (nth (Z.to_nat d) digits 0) /\
  nth (Z.to_nat d) digits 0 <> BACKSPACE.
Proof.
  intros Hd. assert (H : d = 0 \/ d = 1 \/ d = 2 \/ d = 3 \/ d = 4 \/ d = 5 \/ d = 6 \/ d = 7 \/ d = 8 \/ d = 9 \/ d = 10 \/ d = 11 \/
    d = 12 \/ d = 13 \/ d = 14 \/ d = 15) by lia.
  repeat (destruct H as [-> |H]; [vm_compute; intuition congruence|]). subst. vm_compute. intuition congruence.
Qed.

Section digits.
Context (base : Z).
Hypothesis Hbase : 2 <= base <= 16.

Lemma div_pow v (f : nat) : 0 <= v < base ^ Z.of_nat (S f) -> 0 <= v / base < base ^ Z.of_nat f.
Proof.
  intros [H0 H]. rewrite Nat2Z.inj_succ, Z.pow_succ_r in H by lia. split; [apply Z.div_pos; lia|].
  apply Z.div_lt_upper_bound; lia.
Qed.

Lemma number_snoc l c : number base (l ++ [c]) = number base l * base + digit_val c.
Proof. unfold number. by rewrite foldl_app. Qed.

(** The digits denote the number, without superfluous zeros. *)
Lemma digits_of_number f : forall v, 0 <= v < base ^ Z.of_nat f -> number base (digits_of f v base) = v.
Proof.
  induction f as [|f IH]; intros v Hv; cbn [digits_of]; [cbn in *; lia|].
  pose proof (Z.mod_pos_bound v base ltac:(lia)) as Hm. pose proof (Z.div_mod v base ltac:(lia)) as Hd.
  rewrite number_snoc, (proj1 (digits_nth (v mod base) ltac:(lia))). destruct (Z.eqb_spec (v / base) 0) as [E|E].
  - cbn. lia.
  - rewrite IH by (by apply div_pow). lia.
Qed.

Lemma digits_of_head f : forall v, 0 < v < base ^ Z.of_nat f -> exists c l, digits_of f v base = c :: l /\ digit_val c <> 0.
Proof.
  induction f as [|f IH]; intros v Hv; cbn [digits_of]; [cbn in *; lia|].
  pose proof (Z.mod_pos_bound v base ltac:(lia)) as Hm. pose proof (Z.div_mod v base ltac:(lia)) as Hd.
  destruct (Z.eqb_spec (v / base) 0) as [E|E].
  - eexists _, []. split; [done|]. rewrite (proj1 (digits_nth (v mod base) ltac:(lia))). lia.
  - destruct (IH (v / base)) as (c & l & -> & Hc); [pose proof (div_pow v f ltac:(lia)); lia|]. by eexists _, _.
Qed.

Lemma digits_of_bytes f : forall v, 0 <= v -> Forall (fun c => byte_ok c) (digits_of f v base).
Proof.
  induction f as [|f IH]; intros v Hv; cbn [digits_of]; [done|]. apply Forall_app. split.
  - destruct (v / base =? 0); [done|]. apply IH. apply Z.div_pos; lia.
  - apply Forall_singleton. apply digits_nth. pose proof (Z.mod_pos_bound v base ltac:(lia)). lia.
Qed.

Lemma digits_of_length f : forall v k, 0 <= v < base ^ Z.of_nat f -> (1 <= k)%nat -> (1 <= f)%nat ->
  (length (digits_of f v base) <= k)%nat <-> v < base ^ Z.of_nat k.
Proof.
  induction f as [|f IH]; intros v k Hv Hk Hf; [lia|]. cbn [digits_of]. rewrite length_app. cbn [length].
  pose proof (Z.mod_pos_bound v base ltac:(lia)) as Hm. pose proof (Z.div_mod v base ltac:(lia)) as Hd.
  destruct k as [|k]; [lia|]. rewrite (Nat2Z.inj_succ k), Z.pow_succ_r by lia.
  pose proof (Z.pow_pos_nonneg base (Z.of_nat k) ltac:(lia) ltac:(lia)).
  destruct (Z.eqb_spec (v / base) 0) as [E|E].
  - cbn [length]. split; [intros _; nia|lia].
  - pose proof (div_pow v f ltac:(lia)) as Hq. destruct f as [|f]; [cbn in Hq; lia|]. destruct k as [|k].
    + cbn [Z.of_nat] in *. split; [|intros; nia]. intros Hl. exfalso.
      assert (0 < length (digits_of (S f) (v / base) base))%nat; [|lia]. cbn [digits_of]. rewrite length_app. cbn. lia.
    + specialize (IH (v / base) (S k) Hq ltac:(lia) ltac:(lia)). split.
      * intros Hl. assert (v / base < base ^ Z.of_nat (S k)) by (apply IH; lia). nia.
      * intros Hl. assert (length (digits_of (S f) (v / base) base) <= S k)%nat; [|lia]. apply IH. apply Z.div_lt_upper_bound; lia.
Qed.

(** The loop stores these digits, if they fit the array. *)
Lemma digit_loop_eq {R} f : forall v buf (s : prst R), 0 <= v < base ^ Z.of_nat f -> (1 <= f)%nat -> (length buf <= 16)%nat ->
  digit_loop f v base buf s =
    if (length (digits_of f v base) + length buf <=? 16)%nat then (Ret (digits_of f v base ++ buf), s)
    else (Undef "printint: buf overflow", s).
Proof.
  induction f as [|f IH]; intros v buf s Hv Hf Hb; [lia|]. cbn [digit_loop digits_of]. rewrite length_app. cbn [length].
  unfold bind, buf_push. destruct (Nat.ltb_spec (length buf) 16) as [Hl|Hl].
  2:{ unfold undef. rewrite (proj2 (Nat.leb_gt _ _)) by lia. done. }
  cbn [ret]. destruct (Z.eqb_spec (v / base) 0) as [E|E]; cbn [negb].
  - cbn [length app]. rewrite (proj2 (Nat.leb_le _ _)) by lia. done.
  - pose proof (div_pow v f Hv) as Hq. rewrite IH; [|done|destruct f; [cbn in Hq; lia|lia]|cbn; lia]. cbn [length].
    rewrite <- !Nat.add_assoc. cbn [Nat.add]. destruct (_ <=? 16)%nat; [|done]. by rewrite <- app_assoc.
Qed.
End digits.

(** ** Directives *)

(** A format is a list of these. *)
Inductive dir :=
| Lit (c : Z)
| Int (long : bool) (base : Z) (sign : bool)
| Ptr
| Str
| Pct
| Unk (c : Z).

Definition conv (c : Z) : option (Z * bool) :=
  if c =? 100 then Some (10, true) else if c =? 117 then Some (10, false) else if c =? 120 then Some (16, false) else None.

(** What the characters after a percent sign mean, and what is left of them. *)
Definition dparse (l : list Z) : option (dir * list Z) :=
  match l with
  | [] => None
  | c0 :: t0 =>
      match conv c0 with
      | Some (b, sg) => Some (Int false b sg, t0)
      | None =>
          if c0 =? 108 then
            match t0 with
            | c1 :: t1 =>
                match conv c1 with
                | Some (b, sg) => Some (Int true b sg, t1)
                | None =>
                    if c1 =? 108 then
                      match t1 with
                      | c2 :: t2 =>
                          match conv c2 with
                          | Some (b, sg) => Some (Int true b sg, t2)
                          | None => Some (Unk c0, t0)
                          end
                      | [] => Some (Unk c0, t0)
                      end
                    else Some (Unk c0, t0)
                end
            | [] => Some (Unk c0, t0)
            end
          else if c0 =? 112 then Some (Ptr, t0)
          else if c0 =? 115 then Some (Str, t0)
          else if c0 =? 37 then Some (Pct, t0)
          else Some (Unk c0, t0)
      end
  end.

Fixpoint fparse (fuel : nat) (l : list Z) : list dir :=
  match fuel with
  | O => []
  | S f =>
      match l with
      | [] => []
      | c :: t =>
          if c =? 37 then match dparse t with Some (d, t') => d :: fparse f t' | None => [] end
          else Lit c :: fparse f t
      end
  end.

(** The sixteen hexadecimal digits of an address. *)
Definition ptr_text (v : Z) : list Z :=
  48 :: 120 :: map (fun k => nth (Z.to_nat ((v / 16 ^ (15 - Z.of_nat k)) mod 16)) digits 0) (seq 0 16).

Section render.
(** The strings the pointers point to, and the address of "(null)". *)
Context (strs : Z -> list Z) (null : Z).

Definition int_arg (long : bool) (a : Z) : Z := if long then s64 (u64 a) else s32 a.

(** What a directive prints, given the arguments, and the arguments left. *)
Definition render1 (d : dir) (ap : list Z) : list Z * list Z :=
  match d, ap with
  | Lit c, _ => ([c], ap)
  | Pct, _ => ([37], ap)
  | Unk c, _ => ([37; c], ap)
  | Int long base sign, a :: ap' => (int_text (int_arg long a) base sign, ap')
  | Ptr, a :: ap' => (ptr_text (u64 a), ap')
  | Str, a :: ap' => (strs (if u64 a =? 0 then null else u64 a), ap')
  | _, [] => ([], [])
  end.

Fixpoint render (ds : list dir) (ap : list Z) : list Z :=
  match ds with
  | [] => []
  | d :: ds' => (render1 d ap).1 ++ render ds' (render1 d ap).2
  end.

(** There is an argument for the directive, its number fits [printint]'s
    array, its string is there. *)
Definition ok1 (m : mem) (fuel : nat) (d : dir) (ap : list Z) : Prop :=
  match d, ap with
  | Lit _, _ | Pct, _ | Unk _, _ => True
  | Int long base sign, a :: _ =>
      int_arg long a <> - 2 ^ 63 /\ (length (int_text (int_arg long a) base sign) <= 16)%nat
  | Ptr, _ :: _ => True
  | Str, a :: _ =>
      let p := if u64 a =? 0 then null else u64 a in
      cstr m p (strs p) /\ Forall byte_ok (strs p) /\ (length (strs p) < fuel)%nat
  | _, [] => False
  end.

Fixpoint printable (m : mem) (fuel : nat) (ds : list dir) (ap : list Z) : Prop :=
  match ds with
  | [] => True
  | d :: ds' => ok1 m fuel d ap /\ printable m fuel ds' (render1 d ap).2
  end.
End render.

(** ** Lemmas: printing *)
Section printing.
Context {R : Type} {MM : Mmio R} {UL : UartLaws R} (hart : Z) (spin : nat).
Hypothesis Hspin : (ul_bound <= spin)%nat.
Implicit Types s : prst R.

(** [l] has been sent and nothing else has changed. *)
Definition out (l : list Z) s s' : Prop := s' = set_pruart (pr_uart s') s /\ sends l (pr_uart s) (pr_uart s').

Lemma out_nil s : out [] s s.
Proof. split; [by destruct s|apply sends_nil]. Qed.

Lemma out_trans a b s1 s2 s3 : out a s1 s2 -> out b s2 s3 -> out (a ++ b) s1 s3.
Proof. intros [E1 S1] [E2 S2]. split; [by rewrite E2, E1|by eapply sends_trans]. Qed.

Lemma out_calm l s s' : out l s s' -> panicked (pr_uart s') = panicked (pr_uart s).
Proof. intros [_ H]. by eapply sends_panicked. Qed.

Lemma out_mem l s s' : out l s s' -> pr_mem s' = pr_mem s.
Proof. intros [-> _]. done. Qed.

Lemma putc_run c s : panicked (pr_uart s) = 0 -> byte_ok c -> runs (putc spin c) s (fun _ s' => out [c] s s').
Proof.
  intros Hp Hc. apply runs_zoom. eapply runs_mono; [by apply consputc_run|]. intros ? u Hs. unfold echo_of in Hs.
  unfold byte_ok in Hc. rewrite (proj2 (Z.eqb_neq c BACKSPACE)) in Hs by (unfold BACKSPACE; lia).
  unfold u8 in Hs. rewrite Z.mod_small in Hs by done. by split.
Qed.

Lemma put_all_run l : forall s, panicked (pr_uart s) = 0 -> Forall byte_ok l -> runs (put_all spin l) s (fun _ s' => out l s s').
Proof.
  induction l as [|c l IH]; intros s Hp HF; cbn [put_all]; [apply runs_ret, out_nil|].
  inversion HF; subst. eapply runs_seq; [by apply putc_run|]. intros ? s1 O1.
  eapply runs_mono; [apply IH; [by rewrite (out_calm _ _ _ O1)|done]|]. intros ? s2 O2. by apply (out_trans [c] l s s1 s2).
Qed.

(** [printint]: the text if it fits, undefined behaviour otherwise. *)
Lemma printint_eq xx base sign s :
  2 <= base <= 16 -> - 2 ^ 63 <= xx < 2 ^ 63 -> xx <> - 2 ^ 63 ->
  printint spin xx base sign s =
    if (length (int_text xx base sign) <=? 16)%nat then put_all spin (int_text xx base sign) s
    else (Undef "printint: buf overflow", s).
Proof.
  intros Hb Hx Hm. unfold printint. rewrite (proj2 (Z.eqb_neq xx (- 2 ^ 63))) by done. rewrite andb_false_r.
  unfold int_text. destruct (sign && (xx <? 0)) eqn:En.
  - apply andb_true_iff in En as [_ En%Z.ltb_lt].
    assert (Hv : 0 <= - xx < base ^ Z.of_nat 64).
    { split; [lia|]. apply Z.lt_le_trans with (2 ^ 64); [lia|]. change (Z.of_nat 64) with 64. apply Z.pow_le_mono_l. lia. }
    unfold bind at 1. rewrite digit_loop_eq by (done || cbn; lia). cbn [length]. rewrite Nat.add_0_r, app_nil_r.
    set (d := digits_of 64 (- xx) base). destruct (Nat.leb_spec (length d) 16) as [H1|H1].
    + unfold bind, buf_push. destruct (Nat.ltb_spec (length d) 16); [by rewrite (proj2 (Nat.leb_le _ _)) by lia|].
      rewrite (proj2 (Nat.leb_gt _ _)) by lia. done.
    + rewrite (proj2 (Nat.leb_gt _ _)) by lia. done.
  - assert (Hv : 0 <= u64 xx < base ^ Z.of_nat 64).
    { pose proof (u64_range xx). split; [lia|]. apply Z.lt_le_trans with (2 ^ 64); [lia|]. change (Z.of_nat 64) with 64. apply Z.pow_le_mono_l. lia. }
    unfold bind at 1. rewrite digit_loop_eq by (done || cbn; lia). cbn [length]. rewrite Nat.add_0_r, app_nil_r.
    destruct (_ <=? 16)%nat; [|done]. done.
Qed.

Lemma int_text_bytes xx base sign : 2 <= base <= 16 -> Forall byte_ok (int_text xx base sign).
Proof.
  intros Hb. unfold int_text. destruct (sign && (xx <? 0)) eqn:E.
  - apply andb_true_iff in E as [_ E%Z.ltb_lt]. constructor; [unfold byte_ok; lia|]. apply digits_of_bytes; lia.
  - apply digits_of_bytes; [done|]. apply u64_range.
Qed.

Lemma printint_run xx base sign s :
  panicked (pr_uart s) = 0 -> 2 <= base <= 16 -> - 2 ^ 63 <= xx < 2 ^ 63 -> xx <> - 2 ^ 63 ->
  (length (int_text xx base sign) <= 16)%nat ->
  runs (printint spin xx base sign) s (fun _ s' => out (int_text xx base sign) s s').
Proof.
  intros Hp Hb Hx Hm Hl. eapply runs_as; [|apply put_all_run; [done|by apply (int_text_bytes xx base sign)]].
  rewrite printint_eq by done. by rewrite (proj2 (Nat.leb_le _ _)).
Qed.

Lemma nibble v j : 0 <= v -> 0 <= j <= 15 -> Z.shiftr (u64 (v * 16 ^ j)) 60 = (v / 16 ^ (15 - j)) mod 16.
Proof.
  intros Hv Hj. rewrite Z.shiftr_div_pow2 by lia. unfold u64.
  assert (E1 : 2 ^ 64 = 16 ^ j * (16 ^ (15 - j) * 16)).
  { rewrite (Z.mul_comm (16 ^ (15 - j))), <- Z.pow_succ_r, <- Z.pow_add_r by lia. replace (j + Z.succ (15 - j)) with 16 by lia. done. }
  assert (E2 : 2 ^ 60 = 16 ^ j * 16 ^ (15 - j)) by (rewrite <- Z.pow_add_r by lia; replace (j + (15 - j)) with 15 by lia; done).
  pose proof (Z.pow_pos_nonneg 16 j ltac:(lia) ltac:(lia)). pose proof (Z.pow_pos_nonneg 16 (15 - j) ltac:(lia) ltac:(lia)).
  rewrite E1, E2, (Z.mul_comm v), Z.mul_mod_distr_l, Z.div_mul_cancel_l by lia. rewrite Z.rem_mul_r by lia.
  rewrite (Z.add_comm (v mod _)), Z.mul_comm, Z.div_add_l by lia. rewrite (Z.div_small (v mod _)); [lia|]. apply Z.mod_pos_bound. lia.
Qed.

Lemma printptr_loop_run v n : forall s, (n <= 16)%nat -> 0 <= v -> panicked (pr_uart s) = 0 ->
  runs (printptr_loop spin n (u64 (v * 16 ^ Z.of_nat (16 - n)))) s (fun _ s' =>
    out (map (fun k => nth (Z.to_nat ((v / 16 ^ (15 - Z.of_nat k)) mod 16)) digits 0) (seq (16 - n) n)) s s').
Proof.
  induction n as [|n IH]; intros s Hn Hv Hp; cbn [printptr_loop seq map]; [apply runs_ret, out_nil|].
  rewrite nibble by lia. set (j := (16 - S n)%nat) in *.
  eapply runs_seq; [apply putc_run; [done|apply digits_nth, Z.mod_pos_bound; lia]|]. intros ? s1 O1.
  assert (E : u64 (Z.shiftl (u64 (v * 16 ^ Z.of_nat j)) 4) = u64 (v * 16 ^ Z.of_nat (16 - n))).
  { rewrite Z.shiftl_mul_pow2 by lia. unfold u64. rewrite Zmult_mod_idemp_l. f_equal. change (2 ^ 4) with 16.
    replace (16 - n)%nat with (S j) by (unfold j; lia). rewrite (Nat2Z.inj_succ j), Z.pow_succ_r by lia. lia. }
  rewrite E. eapply runs_mono; [apply IH; [lia|done|by rewrite (out_calm _ _ _ O1)]|]. intros ? s2 O2.
  replace (16 - n)%nat with (S j) in O2 by (unfold j; lia). by apply (out_trans [_] _ s s1 s2).
Qed.

Lemma printptr_run v s : 0 <= v < 2 ^ 64 -> panicked (pr_uart s) = 0 ->
  runs (printptr spin v) s (fun _ s' => out (ptr_text v) s s').
Proof.
  intros Hv Hp. unfold printptr. eapply runs_seq; [by apply putc_run|]. intros ? s1 O1.
  assert (Hp1 : panicked (pr_uart s1) = 0) by (by rewrite (out_calm _ _ _ O1)).
  eapply runs_seq; [by apply putc_run|]. intros ? s2 O2.
  assert (Hp2 : panicked (pr_uart s2) = 0) by (by rewrite (out_calm _ _ _ O2)).
  pose proof (printptr_loop_run v 16 s2 ltac:(lia) ltac:(lia) Hp2) as HR. rewrite Nat.sub_diag, Z.mul_1_r, u64_small in HR by done.
  eapply runs_mono; [exact HR|]. intros ? s3 O3. unfold ptr_text. apply (out_trans [48] _ s s1 s3 O1). by apply (out_trans [120] _ s1 s2 s3).
Qed.

Lemma putstr_run l : forall fuel p s, cstr (pr_mem s) p l -> Forall byte_ok l -> (length l < fuel)%nat -> panicked (pr_uart s) = 0 ->
  runs (putstr spin fuel p) s (fun _ s' => out l s s').
Proof.
  induction l as [|c l IH]; intros [|fuel] p s HC HB Hf Hp; cbn [length] in Hf; try lia; cbn [putstr]; mstep; cbn [cstr] in HC.
  - rewrite HC. apply runs_ret, out_nil.
  - destruct HC as (-> & Hc & HC). rewrite (proj2 (Z.eqb_neq _ _) Hc). inversion HB; subst.
    eapply runs_seq; [by apply putc_run|]. intros ? s1 O1.
    eapply runs_mono; [apply IH; [by rewrite (out_mem _ _ _ O1)|done|lia|by rewrite (out_calm _ _ _ O1)]|].
    intros ? s2 O2. by apply (out_trans [c] l s s1 s2).
Qed.

Lemma int_arg_range long a : - 2 ^ 63 <= int_arg long a < 2 ^ 63.
Proof.
  unfold int_arg, s64, s32. destruct long; [pose proof (Z.mod_pos_bound (u64 a + 2 ^ 63) (2 ^ 64))|pose proof (Z.mod_pos_bound (a + 2 ^ 31) (2 ^ 32))]; lia.
Qed.

Section directives.
Context (strs : Z -> list Z) (null : Z).
Local Abbreviation R1 := (render1 strs null).

(** How a directive ends: [k] characters after its first. *)
Definition printed (k : Z) (d : dir) (ap : list Z) s (r : option (Z * list Z)) s' : Prop :=
  r = Some (k, (R1 d ap).2) /\ out (R1 d ap).1 s s'.

Lemma int_short base sign fuel ap s :
  panicked (pr_uart s) = 0 -> 2 <= base <= 16 -> ok1 strs null (pr_mem s) fuel (Int false base sign) ap ->
  runs (let! (v, ap) := arg_int ap in printint spin v base sign ;; ret (Some (0, ap))) s (printed 0 (Int false base sign) ap s).
Proof.
  intros Hp Hb. destruct ap as [|a ap]; [done|]. intros [H1 H2]. cbn [arg_int]. mstep. cbn [int_arg] in *.
  eapply runs_seq; [apply printint_run; [done|done|apply (int_arg_range false a)|done|done]|]. intros ? s1 O1. by apply runs_ret.
Qed.

Lemma int_long k base sign fuel ap s :
  panicked (pr_uart s) = 0 -> 2 <= base <= 16 -> ok1 strs null (pr_mem s) fuel (Int true base sign) ap ->
  runs (let! (v, ap) := arg_u64 ap in printint spin (s64 v) base sign ;; ret (Some (k, ap))) s (printed k (Int true base sign) ap s).
Proof.
  intros Hp Hb. destruct ap as [|a ap]; [done|]. intros [H1 H2]. cbn [arg_u64]. mstep. cbn [int_arg] in *.
  eapply runs_seq; [apply printint_run; [done|done|apply (int_arg_range true a)|done|done]|]. intros ? s1 O1. by apply runs_ret.
Qed.

Lemma unknown_run c ap s : panicked (pr_uart s) = 0 -> byte_ok c ->
  runs (putc spin 37 ;; putc spin c ;; ret (Some (0, ap))) s (printed 0 (Unk c) ap s).
Proof.
  intros Hp Hc. eapply runs_seq; [by apply putc_run|]. intros ? s1 O1.
  eapply runs_seq; [apply putc_run; [by rewrite (out_calm _ _ _ O1)|done]|]. intros ? s2 O2. apply runs_ret. split; [done|].
  by apply (out_trans [37] [c] s s1 s2).
Qed.

Lemma cstr_head m p l : cstr m p l -> rd m p = hd 0 l.
Proof. destruct l; cbn; [done|]. by intros [-> _]. Qed.

Ltac decide_eqb :=
  repeat match goal with
  | H : ?a <> ?b |- context [?a =? ?b] => rewrite (proj2 (Z.eqb_neq a b) H)
  end; cbn [Z.eqb Pos.eqb andb negb].

(** Case analysis on a character, as far as the directives go. *)
Ltac split_on c n := destruct (Z.eqb_spec c n) as [-> | ?]; [|].

Definition fate (fuel : nat) (fmt i : Z) (ap : list Z) s (t : list Z) (r : option (dir * list Z)) : Prop :=
  match r with
  | None => t = [] /\ directive spin fuel null fmt i ap s = (Ret None, s)
  | Some (d, t') => ok1 strs null (pr_mem s) fuel d ap ->
      exists k, 0 <= k <= 2 /\ t' = drop (Z.to_nat (k + 1)) t /\ (Z.to_nat (k + 1) <= length t)%nat /\
        runs (directive spin fuel null fmt i ap) s (printed k d ap s)
  end.

(** The directives with one or two modifiers. *)
Lemma long_run fuel fmt i t0 ap s :
  cstr (pr_mem s) (fmt + i) (108 :: t0) -> Forall byte_ok t0 -> panicked (pr_uart s) = 0 ->
  fate fuel fmt i ap s (108 :: t0) (dparse (108 :: t0)).
Proof.
  intros HC HB Hp. cbn [cstr] in HC. destruct HC as (R0 & N0 & HC1). pose proof (cstr_head _ _ _ HC1) as E1.
  assert (HU : runs (putc spin 37 ;; putc spin 108 ;; ret (Some (0, ap))) s (printed 0 (Unk 108) ap s)) by (by apply unknown_run).
  destruct t0 as [|c1 t1].
  { intros _. exists 0. split_and!; [lia|lia|done|cbn; lia|]. unfold directive. mstep. rewrite R0. cbn [Z.eqb Pos.eqb negb andb hd] in E1 |- *. rewrite E1. cbn [Z.eqb Pos.eqb negb andb]. exact HU. }
  cbn [cstr hd] in HC1, E1. destruct HC1 as (R1 & N1 & HC2). pose proof (cstr_head _ _ _ HC2) as E2. replace (fmt + i + 1 + 1) with (fmt + i + 2) in E2 by lia.
  cbn [dparse conv Z.eqb Pos.eqb]. unfold conv at 1.
  split_on c1 100; [|split_on c1 117; [|split_on c1 120; [|split_on c1 108]]].
  - intros Hok. exists 1. split_and!; [lia|lia|done|cbn; lia|]. unfold directive. mstep. rewrite R0, R1. cbn [Z.eqb Pos.eqb negb andb]. by eapply int_long.
  - intros Hok. exists 1. split_and!; [lia|lia|done|cbn; lia|]. unfold directive. mstep. rewrite R0, R1. cbn [Z.eqb Pos.eqb negb andb]. by eapply int_long.
  - intros Hok. exists 1. split_and!; [lia|lia|done|cbn; lia|]. unfold directive. mstep. rewrite R0, R1. cbn [Z.eqb Pos.eqb negb andb]. by eapply int_long.
  - destruct t1 as [|c2 t2].
    { intros _. exists 0. split_and!; [lia|lia|done|cbn; lia|]. unfold directive. mstep. rewrite R0, R1. cbn [Z.eqb Pos.eqb negb andb hd] in E2 |- *. rewrite E2. cbn [Z.eqb Pos.eqb negb andb]. exact HU. }
    cbn [hd] in E2. unfold conv. split_on c2 100; [|split_on c2 117; [|split_on c2 120]].
    + intros Hok. exists 2. split_and!; [lia|lia|done|cbn; lia|]. unfold directive. mstep. rewrite R0, R1, E2. cbn [Z.eqb Pos.eqb negb andb]. by eapply int_long.
    + intros Hok. exists 2. split_and!; [lia|lia|done|cbn; lia|]. unfold directive. mstep. rewrite R0, R1, E2. cbn [Z.eqb Pos.eqb negb andb]. by eapply int_long.
    + intros Hok. exists 2. split_and!; [lia|lia|done|cbn; lia|]. unfold directive. mstep. rewrite R0, R1, E2. cbn [Z.eqb Pos.eqb negb andb]. by eapply int_long.
    + intros _. exists 0. split_and!; [lia|lia|done|cbn; lia|]. unfold directive. mstep. rewrite R0, R1, E2. cbn [Z.eqb Pos.eqb negb andb]. decide_eqb. exact HU.
  - intros _. exists 0. split_and!; [lia|lia|done|cbn; lia|]. unfold directive. mstep. rewrite R0, R1. cbn [Z.eqb Pos.eqb negb andb]. decide_eqb. exact HU.
Qed.

Lemma directive_run fuel fmt i t ap s :
  cstr (pr_mem s) (fmt + i) t -> Forall byte_ok t -> panicked (pr_uart s) = 0 -> fate fuel fmt i ap s t (dparse t).
Proof.
  intros HC HB Hp. destruct t as [|c0 t0].
  { split; [done|]. unfold directive, bind, gets. cbn [cstr] in HC. by rewrite HC. }
  apply Forall_cons in HB as [B0 HB1]. split_on c0 108; [by apply long_run|].
  cbn [cstr] in HC. destruct HC as (R0 & N0 & HC1). cbn [dparse]. unfold conv at 1.
  split_on c0 100; [|split_on c0 117; [|split_on c0 120; [|decide_eqb; split_on c0 112; [|split_on c0 115; [|split_on c0 37]]]]].
  - intros Hok. exists 0. split_and!; [lia|lia|done|cbn; lia|]. unfold directive. mstep. rewrite R0. cbn [Z.eqb Pos.eqb negb andb]. by eapply int_short.
  - intros Hok. exists 0. split_and!; [lia|lia|done|cbn; lia|]. unfold directive. mstep. rewrite R0. cbn [Z.eqb Pos.eqb negb andb]. by eapply int_short.
  - intros Hok. exists 0. split_and!; [lia|lia|done|cbn; lia|]. unfold directive. mstep. rewrite R0. cbn [Z.eqb Pos.eqb negb andb]. by eapply int_short.
  - intros Hok. exists 0. split_and!; [lia|lia|done|cbn; lia|]. unfold directive. mstep. rewrite R0. cbn [Z.eqb Pos.eqb negb andb].
    destruct ap as [|a ap]; [done|]. cbn [arg_u64]. mstep. eapply runs_seq; [apply printptr_run; [apply u64_range|done]|]. intros ? s1 O1. by apply runs_ret.
  - intros Hok. exists 0. split_and!; [lia|lia|done|cbn; lia|]. unfold directive. mstep. rewrite R0. cbn [Z.eqb Pos.eqb negb andb].
    destruct ap as [|a ap]; [done|]. cbn [arg_u64]. mstep. destruct Hok as (H1 & H2 & H3).
    eapply runs_seq; [by apply putstr_run|]. intros ? s1 O1. by apply runs_ret.
  - intros _. exists 0. split_and!; [lia|lia|done|cbn; lia|]. unfold directive. mstep. rewrite R0. cbn [Z.eqb Pos.eqb negb andb].
    eapply runs_seq; [by apply putc_run|]. intros ? s1 O1. by apply runs_ret.
  - intros _. exists 0. split_and!; [lia|lia|done|cbn; lia|]. unfold directive. mstep. rewrite R0. decide_eqb. by apply unknown_run.
Qed.

Lemma cstr_drop m n : forall p l, cstr m p l -> (n <= length l)%nat -> cstr m (p + Z.of_nat n) (drop n l).
Proof.
  induction n as [|n IH]; intros p l HC Hn; [by rewrite Z.add_0_r|]. destruct l as [|c l]; cbn [length] in Hn; [lia|].
  cbn [cstr drop] in *. destruct HC as (_ & _ & HC). replace (p + Z.of_nat (S n)) with (p + 1 + Z.of_nat n) by lia. apply IH; [done|lia].
Qed.

Lemma ok1_fuel m f f' d ap : ok1 strs null m f d ap -> (f <= f')%nat -> ok1 strs null m f' d ap.
Proof. destruct d, ap; cbn; try done. intros (A & B & C) Hf. split_and!; [done|done|lia]. Qed.

Lemma printf_loop_run sf n : forall fuel fmt i l ap s,
  (length l <= n)%nat -> (length l + sf < fuel)%nat -> cstr (pr_mem s) (fmt + i) l -> Forall byte_ok l -> panicked (pr_uart s) = 0 ->
  printable strs null (pr_mem s) sf (fparse n l) ap ->
  runs (printf_loop spin fuel null fmt i ap) s (fun _ s' => out (render strs null (fparse n l) ap) s s').
Proof.
  induction n as [|n IH]; intros [|fuel] fmt i l ap s Hn Hf HC HB Hp HK; try lia; cbn [printf_loop]; mstep.
  - destruct l; [|cbn in Hn; lia]. cbn [cstr] in HC. rewrite HC. cbn [Z.eqb]. apply runs_ret, out_nil.
  - destruct l as [|c t]; [cbn [cstr] in HC; rewrite HC; apply runs_ret, out_nil|].
    cbn [length] in Hn, Hf. pose proof HC as HC0. cbn [cstr] in HC. destruct HC as (R0 & N0 & HC). rewrite R0, (proj2 (Z.eqb_neq c 0) N0).
    apply Forall_cons in HB as [B0 HB]. replace (fmt + i + 1) with (fmt + (i + 1)) in HC by lia. cbn [fparse] in HK |- *.
    destruct (Z.eqb_spec c 37) as [-> | Hc]; cbn [negb].
    + pose proof (directive_run fuel fmt (i + 1) t ap s HC HB Hp) as HD. unfold fate in HD. destruct (dparse t) as [[d t']|].
      * cbn [printable render] in HK |- *. destruct HK as [K1 K2]. destruct (HD (ok1_fuel _ sf fuel d ap K1 ltac:(lia))) as (k & Hk & -> & Hlen & HR).
        eapply runs_seq; [exact HR|]. intros r s1 [-> O1].
        eapply runs_mono; [apply (IH fuel fmt _ (drop (Z.to_nat (k + 1)) t))|].
        -- rewrite length_drop. lia.
        -- rewrite length_drop. lia.
        -- rewrite (out_mem _ _ _ O1). replace (fmt + (i + 1 + k + 1)) with (fmt + (i + 1) + Z.of_nat (Z.to_nat (k + 1))) by lia. by apply cstr_drop.
        -- by apply Forall_drop.
        -- by rewrite (out_calm _ _ _ O1).
        -- by rewrite (out_mem _ _ _ O1).
        -- intros ? s2 O2. by eapply out_trans.
      * destruct HD as [_ ED]. apply runs_bind. eapply runs_eq; [exact ED|]. apply runs_ret, out_nil.
    + cbn [printable render render1 fst snd] in HK |- *. destruct HK as [_ HK].
      eapply runs_seq; [by apply putc_run|]. intros ? s1 O1.
      eapply runs_mono; [apply (IH fuel fmt (i + 1) t); [lia|lia|by rewrite (out_mem _ _ _ O1)|done|by rewrite (out_calm _ _ _ O1)|by rewrite (out_mem _ _ _ O1)]|].
      intros ? s2 O2. by apply (out_trans [c] _ s s1 s2).
Qed.

Lemma printf_run sf fuel fmt l ap s :
  (length l + sf < fuel)%nat -> cstr (pr_mem s) fmt l -> Forall byte_ok l -> panicked (pr_uart s) = 0 ->
  printable strs null (pr_mem s) sf (fparse (length l) l) ap -> (pr_locking s <> 0 -> lk_free (pr_lock s)) ->
  runs (printf hart spin fuel null fmt ap) s (fun r s' => r = 0 /\ out (render strs null (fparse (length l) l) ap) s s').
Proof.
  intros Hf HC HB Hp HK Hl. unfold printf. mstep.
  destruct (Z.eqb_spec (pr_locking s) 0) as [E|E]; cbn [negb].
  - mstep. eapply runs_seq; [apply (printf_loop_run sf (length l) fuel fmt 0 l); [done|done|by rewrite Z.add_0_r|done|done|done]|].
    intros ? s1 O1. mstep. by mstep.
  - specialize (Hl E). apply runs_bind. apply runs_zoom. eapply runs_eq; [by apply acquire_word_free|]. set (s0 := set_prlock _ s).
    eapply runs_seq; [apply (printf_loop_run sf (length l) fuel fmt 0 l ap s0); [done|done|by rewrite Z.add_0_r|done|done|done]|].
    intros ? s1 [E1 S1]. apply runs_bind, runs_zoom. rewrite E1. cbn [pr_lock set_pruart s0 set_prlock].
    eapply runs_eq; [apply release_word_held|]. apply runs_ret. split; [done|]. split; [|done].
    cbn. unfold set_pruart, set_prlock. cbn. rewrite <- (lk_free_eq _ Hl). by destruct s.
Qed.
End directives.
End printing.

(** ** Properties *)

(** C34. [printint]: the digits it prints are those of the number.  The text
    of a number other than -2^63 denotes its magnitude in the base, has no
    superfluous zero, and is preceded by a minus sign exactly when a signed
    number is negative; it is sent to the console when it has at most 16
    characters, which a hexadecimal number always has, a decimal one exactly
    below 10^16 (10^15 with a sign); a longer one is stored beyond the end of
    the array [buf]. *)
Theorem printint_digits {R : Type} `{MM : Mmio R} `{UL : !UartLaws R} (spin : nat) (s : prst R) (xx base : Z) (sign : bool)
    (neg := sign && (xx <? 0)) (v := if neg then - xx else u64 xx) (ds := digits_of 64 v base) (text := if neg then 45 :: ds else ds) :
  (ul_bound <= spin)%nat -> panicked (pr_uart s) = 0 -> base = 10 \/ base = 16 -> - 2 ^ 63 < xx < 2 ^ 63 ->
  number base ds = v /\ (0 < v -> exists c l, ds = c :: l /\ digit_val c <> 0) /\
  (v < base ^ (if neg then 15 else 16) ->
     runs (printint spin xx base sign) s (fun _ s' => out text s s')) /\
  (base ^ (if neg then 15 else 16) <= v -> exists s', printint spin xx base sign s = (Undef "printint: buf overflow", s')).
Proof.
  intros Hspin Hp Hb Hx. assert (Hb' : 2 <= base <= 16) by lia.
  assert (Hv : 0 <= v < base ^ Z.of_nat 64).
  { assert (0 <= v < 2 ^ 64).
    { unfold v, neg. destruct (sign && (xx <? 0)) eqn:E; [apply andb_true_iff in E as [_ E%Z.ltb_lt]; lia|apply u64_range]. }
    split; [lia|]. apply Z.lt_le_trans with (2 ^ 64); [lia|]. change (Z.of_nat 64) with 64. apply Z.pow_le_mono_l. lia. }
  assert (ET : text = int_text xx base sign) by (unfold text, ds, v, neg, int_text; by destruct (sign && (xx <? 0))).
  assert (HL : (length text <= 16)%nat <-> v < base ^ (if neg then 15 else 16)).
  { unfold text, ds. destruct neg; cbn [length].
    - rewrite <- (digits_of_length base Hb' 64 v 15) by (done || lia). lia.
    - by rewrite <- (digits_of_length base Hb' 64 v 16) by (done || lia). }
  split_and!.
  - by apply digits_of_number.
  - intros H0. apply digits_of_head; [done|lia].
  - intros Hlt. apply HL in Hlt. rewrite ET in *. apply printint_run; (done || lia).
  - intros Hge. exists s. rewrite printint_eq by (done || lia). rewrite <- ET. destruct (Nat.leb_spec (length text) 16) as [Hle|]; [|done].
    apply HL in Hle. lia.
Qed.

(** ** A console for the witnesses, with a format and a string in memory *)
#[local] Existing Instance ser_mmio.
#[local] Existing Instance ser_laws.

Definition a_console (m : mem) : prst ser :=
  PrSt (initlock "pr") 1 (Uart (initlock "uart") (fun _ => 0) 0 0 0 (Ser [] [])) m.

(** -42 as a decimal; the unsigned 4000000000, which [va_arg(ap, int)] makes
    negative and [printint] then extends to 64 bits. *)
Lemma printint_digits_witness :
  runs (printint (R := ser) 1 (-42) 10 true) (a_console ∅) (fun _ s' => out [45; 52; 50] (a_console ∅) s') /\
  exists s', printint (R := ser) 1 (s32 4000000000) 10 false (a_console ∅) = (Undef "printint: buf overflow", s').
Proof.
  split.
  - refine (proj1 (proj2 (proj2 (printint_digits (R := ser) 1 (a_console ∅) (-42) 10 true _ _ _ _))) _); cbn; lia.
  - refine (proj2 (proj2 (proj2 (printint_digits (R := ser) 1 (a_console ∅) (s32 4000000000) 10 false _ _ _ _))) _);
      [cbn; lia|done|lia|vm_compute; split; reflexivity|vm_compute; discriminate].
Defined.

(** C35. [printf] of the kernel: for every format, parsed into literal
    characters and directives (%d %u %x with up to two l's, %p, %s, %%, and
    unknown ones, which are printed as they are; a % at the end prints
    nothing), with an argument for each directive that needs one, numbers that
    fit [printint]'s array and strings in memory, it returns 0 having sent
    exactly the texts of the directives in order, with [pr.lock] held while
    it does if locking is on, and free again. *)
Theorem printf_renders {R : Type} `{MM : Mmio R} `{UL : !UartLaws R} (hart : Z) (spin sf fuel : nat) (strs : Z -> list Z)
    (null fmt : Z) (l : list Z) (ap : list Z) (s : prst R) :
  (ul_bound <= spin)%nat -> (length l + sf < fuel)%nat -> cstr (pr_mem s) fmt l -> Forall byte_ok l -> panicked (pr_uart s) = 0 ->
  printable strs null (pr_mem s) sf (fparse (length l) l) ap -> (pr_locking s <> 0 -> lk_free (pr_lock s)) ->
  runs (printf hart spin fuel null fmt ap) s (fun r s' =>
    r = 0 /\ s' = set_pruart (pr_uart s') s /\
    ul_sent (ua_dev (pr_uart s')) = ul_sent (ua_dev (pr_uart s)) ++ render strs null (fparse (length l) l) ap).
Proof.
  intros H1 H2 H3 H4 H5 H6 H7. eapply runs_mono; [by apply (printf_run hart spin H1 strs null sf fuel fmt l ap s)|].
  intros r s' (-> & E & _ & S & _). done.
Qed.

(** "%d %s" of -7 and "ab". *)
Definition fmt_mem : mem := store_bytes (store_bytes ∅ 100 [37; 100; 32; 37; 115; 0]) 200 [97; 98; 0].

Lemma printf_renders_witness :
  runs (printf (R := ser) 0 1 20 300 100 [-7; 200]) (a_console fmt_mem) (fun r s' =>
    r = 0 /\ s' = set_pruart (pr_uart s') (a_console fmt_mem) /\
    ul_sent (ua_dev (pr_uart s')) = [45; 55; 32; 97; 98]).
Proof.
  refine (printf_renders (R := ser) 0 1 3 20 (fun _ => [97; 98]) 300 100 [37; 100; 32; 37; 115] [-7; 200] (a_console fmt_mem) _ _ _ _ _ _ _).
  - cbn. lia.
  - cbn. lia.
  - cbn [cstr]. vm_compute. intuition congruence.
  - repeat constructor; unfold byte_ok; lia.
  - done.
  - cbn [length fparse]. cbn [Z.eqb Pos.eqb dparse conv printable ok1 render1 fst snd]. split_and!; try done.
    + vm_compute. lia.
    + repeat constructor; unfold byte_ok; lia.
    + cbn. lia.
  - by intros _.
Defined.
