(* ===== verification/Trap.v ===== *)
(** * Traps: kernel/trap.c, kernel/plic.c, kernel/start.c, and the control
    registers of kernel/riscv.h

    The state is the registers of the hart, the memory-mapped interrupt
    controller and the rest of the kernel ([K]).  What trap.c calls
    ([syscall], [killed], [exit], [yield], the device handlers) is the
    interface [TrapServices]: each service may change every register, since
    it can be interrupted and can give up the CPU. *)
From S2P Require Import Prelude CString Riscv Spinlock.
Local Open Scope Z_scope.

(** The registers kernel/riscv.h gives access to. *)
Inductive reg :=
| MHARTID | MSTATUS | MEPC | MEDELEG | MIDELEG | MIE | MENVCFG | MCOUNTEREN | PMPCFG0 | PMPADDR0
| SSTATUS | SIP | SIE | SEPC | STVEC | STIMECMP | SATP | SCAUSE | STVAL | TIME | TP | SP | RA | FP.

#[export] Instance reg_eq_dec : EqDecision reg.
Proof. solve_decision. Defined.

Definition MSTATUS_MPP_MASK : Z := Z.shiftl 3 11.
Definition MSTATUS_MPP_S : Z := Z.shiftl 1 11.
Definition SSTATUS_SPP : Z := Z.shiftl 1 8.
Definition SSTATUS_SPIE : Z := Z.shiftl 1 5.
Definition SSTATUS_SIE : Z := Z.shiftl 1 1.
Definition SIE_SEIE : Z := Z.shiftl 1 9.
Definition SIE_STIE : Z := Z.shiftl 1 5.
Definition SIE_SSIE : Z := Z.shiftl 1 1.
Definition MIE_STIE : Z := Z.shiftl 1 5.
Definition SATP_SV39 : Z := Z.shiftl 8 60.
Definition MAKE_SATP (pagetable : Z) : Z := Z.lor SATP_SV39 (Z.shiftr pagetable 12).

Definition UART0_IRQ : Z := 10.
Definition VIRTIO0_IRQ : Z := 1.
Definition PLIC_SENABLE (hart : Z) : Z := PLIC + 0x2080 + hart * 0x100.
Definition PLIC_SPRIORITY (hart : Z) : Z := PLIC + 0x201000 + hart * 0x2000.
Definition PLIC_SCLAIM (hart : Z) : Z := PLIC + 0x201004 + hart * 0x2000.

Record trapst (R K : Type) := TrapSt { t_reg : reg -> Z; t_plic : R; t_k : K }.
Arguments TrapSt {R K}. Arguments t_reg {R K}. Arguments t_plic {R K}. Arguments t_k {R K}.

Section regs.
Context {R K : Type}.
Local Abbreviation TM := (M (trapst R K)).

Definition csrr (r : reg) : TM Z := gets (fun s => t_reg s r).
Definition setr (r : reg) (v : Z) (s : trapst R K) : trapst R K :=
  TrapSt (fun q => if decide (q = r) then u64 v else t_reg s q) (t_plic s) (t_k s).
Definition csrw (r : reg) (v : Z) : TM unit := modify (setr r v).

Definition r_mhartid : TM Z := csrr MHARTID.
Definition r_mstatus : TM Z := csrr MSTATUS.
Definition w_mstatus (x : Z) : TM unit := csrw MSTATUS x.
Definition w_mepc (x : Z) : TM unit := csrw MEPC x.
Definition r_sstatus : TM Z := csrr SSTATUS.
Definition w_sstatus (x : Z) : TM unit := csrw SSTATUS x.
Definition r_sip : TM Z := csrr SIP.
Definition w_sip (x : Z) : TM unit := csrw SIP x.
Definition r_sie : TM Z := csrr SIE.
Definition w_sie (x : Z) : TM unit := csrw SIE x.
Definition r_mie : TM Z := csrr MIE.
Definition w_mie (x : Z) : TM unit := csrw MIE x.
Definition w_sepc (x : Z) : TM unit := csrw SEPC x.
Definition r_sepc : TM Z := csrr SEPC.
Definition r_medeleg : TM Z := csrr MEDELEG.
Definition w_medeleg (x : Z) : TM unit := csrw MEDELEG x.
Definition r_mideleg : TM Z := csrr MIDELEG.
Definition w_mideleg (x : Z) : TM unit := csrw MIDELEG x.
Definition w_stvec (x : Z) : TM unit := csrw STVEC x.
Definition r_stvec : TM Z := csrr STVEC.
Definition r_stimecmp : TM Z := csrr STIMECMP.
Definition w_stimecmp (x : Z) : TM unit := csrw STIMECMP x.
Definition r_menvcfg : TM Z := csrr MENVCFG.
Definition w_menvcfg (x : Z) : TM unit := csrw MENVCFG x.
Definition w_pmpcfg0 (x : Z) : TM unit := csrw PMPCFG0 x.
Definition w_pmpaddr0 (x : Z) : TM unit := csrw PMPADDR0 x.
Definition w_satp (x : Z) : TM unit := csrw SATP x.
(** The TLB is not part of the state: flushing it changes nothing here. *)
Definition sfence_vma : TM unit := ret tt.
Definition r_satp : TM Z := csrr SATP.
Definition r_scause : TM Z := csrr SCAUSE.
Definition r_stval : TM Z := csrr STVAL.
Definition w_mcounteren (x : Z) : TM unit := csrw MCOUNTEREN x.
Definition r_mcounteren : TM Z := csrr MCOUNTEREN.
Definition r_time : TM Z := csrr TIME.
Definition r_sp : TM Z := csrr SP.
Definition r_fp : TM Z := csrr FP.
Definition r_tp : TM Z := csrr TP.
Definition w_tp (x : Z) : TM unit := csrw TP x.
Definition r_ra : TM Z := csrr RA.

Definition intr_on : TM unit := let! x := r_sstatus in w_sstatus (Z.lor x SSTATUS_SIE).
Definition intr_off : TM unit := let! x := r_sstatus in w_sstatus (Z.land x (Z.lnot SSTATUS_SIE)).

(** [int id = r_tp()] *)
Definition cpuid : TM Z := let! x := r_tp in ret (s32 x).

(** ** start.c *)
Definition timerinit : TM unit :=
  let! x := r_mie in
  w_mie (Z.lor x MIE_STIE) ;;
  let! x := r_menvcfg in
  w_menvcfg (Z.lor x (Z.shiftl 1 63)) ;;
  let! x := r_mcounteren in
  w_mcounteren (Z.lor x 2) ;;
  let! x := r_time in
  w_stimecmp (x + 1000000).

(** [main_] is the address of [main]; the final [mret] is the end. *)
Definition start (main_ : Z) : TM unit :=
  let! x := r_mstatus in
  let x := Z.land x (Z.lnot MSTATUS_MPP_MASK) in
  let x := Z.lor x MSTATUS_MPP_S in
  w_mstatus x ;;
  w_mepc main_ ;;
  w_satp 0 ;;
  w_medeleg 0xffff ;;
  w_mideleg 0xffff ;;
  let! x := r_sie in
  w_sie (Z.lor (Z.lor (Z.lor x SIE_SEIE) SIE_STIE) SIE_SSIE) ;;
  w_pmpaddr0 0x3fffffffffffff ;;
  w_pmpcfg0 0xf ;;
  timerinit ;;
  let! id := r_mhartid in
  w_tp (s32 id).

(** ** plic.c *)
Context {MM : Mmio R}.
Definition plic_read (a : Z) : TM Z := zoom t_plic (fun r s => TrapSt (t_reg s) r (t_k s)) (reg_read a).
Definition plic_write (a v : Z) : TM unit := zoom t_plic (fun r s => TrapSt (t_reg s) r (t_k s)) (reg_write a (u32 v)).

Definition plicinit : TM unit :=
  plic_write (PLIC + UART0_IRQ * 4) 1 ;;
  plic_write (PLIC + VIRTIO0_IRQ * 4) 1.

Definition plicinithart : TM unit :=
  let! hart := cpuid in
  plic_write (PLIC_SENABLE hart) (Z.lor (Z.shiftl 1 UART0_IRQ) (Z.shiftl 1 VIRTIO0_IRQ)) ;;
  plic_write (PLIC_SPRIORITY hart) 0.

Definition plic_claim : TM Z :=
  let! hart := cpuid in
  let! irq := plic_read (PLIC_SCLAIM hart) in
  ret (s32 irq).

Definition plic_complete (irq : Z) : TM unit :=
  let! hart := cpuid in
  plic_write (PLIC_SCLAIM hart) irq.

(** vm.c: switch to the kernel's page table. *)
Definition kvminithart (kernel_pagetable : Z) : TM unit :=
  sfence_vma ;;
  w_satp (MAKE_SATP kernel_pagetable) ;;
  sfence_vma.
End regs.

(** Offsets in struct trapframe. *)
Definition TF_kernel_satp : Z := 0.
Definition TF_kernel_sp : Z := 8.
Definition TF_kernel_trap : Z := 16.
Definition TF_epc_ : Z := 24.
Definition TF_kernel_hartid : Z := 32.

(** What trap.c uses of the rest of the kernel.  [ts_tf] and [ts_put_tf]
    read and write the trap frame of the current process, by offset. *)
Class TrapServices (R K : Type) := {
  ts_tf : K -> Z -> Z;
  ts_put_tf : Z -> Z -> K -> K;
  ts_kstack : K -> Z;
  ts_pagetable : K -> Z;
  ts_pid : K -> Z;
  ts_has_proc : K -> bool;
  ts_killed : M (trapst R K) bool;
  ts_setkilled : M (trapst R K) unit;
  ts_exit : Z -> M (trapst R K) unit;
  ts_syscall : M (trapst R K) unit;
  ts_yield : M (trapst R K) unit;
  ts_uartintr : M (trapst R K) unit;
  ts_virtio_disk_intr : M (trapst R K) unit;
  ts_tick : M (trapst R K) unit;
  ts_printf : string -> list Z -> M (trapst R K) unit
}.

(** Addresses of the trap vectors; [uservec] and [userret] are offsets in the
    trampoline page. *)
Record vectors := Vectors { vec_kernelvec : Z; vec_usertrap : Z; vec_uservec : Z; vec_userret : Z }.

(** How [usertrap] ends: the process exited, or [userret] is entered with the
    value for satp. *)
Inductive trap_end := TExit | TUser (target satp : Z).

Section trap.
Context {R K : Type} {MM : Mmio R} {TS : TrapServices R K} (vec : vectors).
Local Abbreviation TM := (M (trapst R K)).

Definition tf_get (off : Z) : TM Z := gets (fun s => ts_tf (t_k s) off).
Definition tf_put (off v : Z) : TM unit := modify (fun s => TrapSt (t_reg s) (t_plic s) (ts_put_tf off (u64 v) (t_k s))).

(** [trapinit] makes [tickslock]. *)
Definition trapinit : spinlock := initlock "time".

Definition trapinithart : TM unit := w_stvec (vec_kernelvec vec).

(** [ts_tick] is the update of [ticks] under [tickslock] with its wakeup; it is
    [clock_tick] of Syscall. *)
Definition clockintr : TM unit :=
  let! id := cpuid in
  (if id =? 0 then ts_tick else ret tt) ;;
  let! t := r_time in
  w_stimecmp (t + 1000000).

Definition devintr : TM Z :=
  let! scause := r_scause in
  if scause =? 0x8000000000000009 then
    let! irq := plic_claim in
    (if irq =? UART0_IRQ then ts_uartintr
     else if irq =? VIRTIO0_IRQ then ts_virtio_disk_intr
     else if negb (irq =? 0) then ts_printf "unexpected interrupt irq=%d" [irq]
     else ret tt) ;;
    (if negb (irq =? 0) then plic_complete irq else ret tt) ;;
    ret 1
  else if scause =? 0x8000000000000005 then
    clockintr ;;
    ret 2
  else ret 0.

Definition usertrapret : TM trap_end :=
  intr_off ;;
  w_stvec (TRAMPOLINE + vec_uservec vec) ;;
  let! v := r_satp in
  tf_put TF_kernel_satp v ;;
  let! ks := gets (fun s => ts_kstack (t_k s)) in
  tf_put TF_kernel_sp (ks + PGSIZE) ;;
  tf_put TF_kernel_trap (vec_usertrap vec) ;;
  let! v := r_tp in
  tf_put TF_kernel_hartid v ;;
  let! x := r_sstatus in
  let x := Z.land x (Z.lnot SSTATUS_SPP) in
  let x := Z.lor x SSTATUS_SPIE in
  w_sstatus x ;;
  let! epc := tf_get TF_epc_ in
  w_sepc epc ;;
  let! pt := gets (fun s => ts_pagetable (t_k s)) in
  ret (TUser (TRAMPOLINE + vec_userret vec) (MAKE_SATP pt)).

(** The end of [usertrap], after the cause was dealt with. *)
Definition usertrap_tail (which_dev : Z) : TM trap_end :=
  let! k := ts_killed in
  if (k : bool) then ts_exit (-1) ;; ret TExit
  else
    (if which_dev =? 2 then ts_yield else ret tt) ;;
    usertrapret.

Definition usertrap : TM trap_end :=
  let! x := r_sstatus in
  if negb (Z.land x SSTATUS_SPP =? 0) then panic "usertrap: not from user mode"
  else
    w_stvec (vec_kernelvec vec) ;;
    let! pc := r_sepc in
    tf_put TF_epc_ pc ;;
    let! cause := r_scause in
    if cause =? 8 then
      let! k := ts_killed in
      if (k : bool) then ts_exit (-1) ;; ret TExit
      else
        let! epc := tf_get TF_epc_ in
        tf_put TF_epc_ (epc + 4) ;;
        intr_on ;;
        ts_syscall ;;
        usertrap_tail 0
    else
      let! which_dev := devintr in
      (if negb (which_dev =? 0) then ret tt
       else
         let! c := r_scause in
         let! pid := gets (fun s => ts_pid (t_k s)) in
         ts_printf "usertrap(): unexpected scause 0x%lx pid=%d" [c; pid] ;;
         let! pc := r_sepc in
         let! v := r_stval in
         ts_printf "            sepc=0x%lx stval=0x%lx" [pc; v] ;;
         ts_setkilled) ;;
      usertrap_tail which_dev.

End trap.

(** ** What the services promise *)
Class TrapLaws (R K : Type) {MM : Mmio R} {TS : TrapServices R K} := {
  tl_killed : K -> bool;
  tl_tf : forall k off v, ts_tf (ts_put_tf off v k) off = v;
  tl_tf_ne : forall k off off' v, off <> off' -> ts_tf (ts_put_tf off v k) off' = ts_tf k off';
  tl_put : forall k off v, ts_kstack (ts_put_tf off v k) = ts_kstack k /\ ts_pagetable (ts_put_tf off v k) = ts_pagetable k /\
    tl_killed (ts_put_tf off v k) = tl_killed k;
  tl_read : forall a r, runs (reg_read a) r (fun _ _ => True);
  tl_write : forall a v r, runs (reg_write a v) r (fun _ _ => True);
  tl_ts_killed : forall s, runs ts_killed s (fun b s' => b = tl_killed (t_k s) /\ t_k s' = t_k s);
  tl_setkilled : forall s, runs ts_setkilled s (fun _ s' => tl_killed (t_k s') = true);
  tl_exit : forall n s, runs (ts_exit n) s (fun _ _ => True);
  tl_syscall : forall s, runs ts_syscall s (fun _ _ => True);
  tl_yield : forall s, runs ts_yield s (fun _ _ => True);
  tl_uart : forall s, runs ts_uartintr s (fun _ _ => True);
  tl_virtio : forall s, runs ts_virtio_disk_intr s (fun _ _ => True);
  tl_tick : forall s, runs ts_tick s (fun _ _ => True);
  tl_printf : forall f l s, runs (ts_printf f l) s (fun _ s' => t_k s' = t_k s)
}.

Definition EXTERNAL : Z := 0x8000000000000009.
Definition TIMER : Z := 0x8000000000000005.

Section proofs.
Context {R K : Type} {MM : Mmio R} {TS : TrapServices R K} {TL : TrapLaws R K} (vec : vectors).
Implicit Types s : trapst R K.

Lemma setr_eq r v s : t_reg (setr r v s) r = u64 v.
Proof. cbn. by rewrite decide_True. Qed.

Lemma setr_ne r q v s : q <> r -> t_reg (setr r v s) q = t_reg s q.
Proof. intros. cbn. by rewrite decide_False. Qed.

Lemma t_k_setr r v s : t_k (setr r v s) = t_k s.
Proof. done. Qed.

Lemma t_reg_mk (f : reg -> Z) (p : R) (k : K) : t_reg (TrapSt f p k) = f.
Proof. done. Qed.

Lemma t_k_mk (f : reg -> Z) (p : R) (k : K) : t_k (TrapSt f p k) = k.
Proof. done. Qed.

(** Reads a register or the kernel part of a state built by writes. *)
Local Ltac treg :=
  repeat first [rewrite t_k_setr | rewrite t_k_mk | rewrite t_reg_mk | rewrite setr_eq | rewrite setr_ne by done | rewrite tl_tf
               | rewrite (proj1 (tl_put _ _ _)) | rewrite (proj1 (proj2 (tl_put _ _ _)))].

(** Everything is set up for [userret]: user mode, interrupts on after
    [sret] and off until then, traps to [uservec], the program counter of
    the trap frame, and the kernel's side of the trap frame. *)
Record user_ready (s : trapst R K) (target satp : Z) : Prop := {
  ur_spp : Z.land (t_reg s SSTATUS) SSTATUS_SPP = 0;
  ur_spie : Z.land (t_reg s SSTATUS) SSTATUS_SPIE <> 0;
  ur_sie : Z.land (t_reg s SSTATUS) SSTATUS_SIE = 0;
  ur_stvec : t_reg s STVEC = u64 (TRAMPOLINE + vec_uservec vec);
  ur_sepc : t_reg s SEPC = u64 (ts_tf (t_k s) TF_epc_);
  ur_satp : ts_tf (t_k s) TF_kernel_satp = u64 (t_reg s SATP);
  ur_sp : ts_tf (t_k s) TF_kernel_sp = u64 (ts_kstack (t_k s) + PGSIZE);
  ur_trap : ts_tf (t_k s) TF_kernel_trap = u64 (vec_usertrap vec);
  ur_hartid : ts_tf (t_k s) TF_kernel_hartid = u64 (t_reg s TP);
  ur_target : target = TRAMPOLINE + vec_userret vec;
  ur_pagetable : satp = MAKE_SATP (ts_pagetable (t_k s));
}.

(** The new value of sstatus, bit by bit. *)
Lemma sstatus_user x :
  let y := u64 (Z.lor (Z.land (u64 (Z.land x (Z.lnot SSTATUS_SIE))) (Z.lnot SSTATUS_SPP)) SSTATUS_SPIE) in
  Z.land y SSTATUS_SPP = 0 /\ Z.land y SSTATUS_SPIE <> 0 /\ Z.land y SSTATUS_SIE = 0.
Proof.
  cbv zeta. unfold u64, SSTATUS_SIE, SSTATUS_SPP, SSTATUS_SPIE. rewrite <- !Z.land_ones by lia.
  set (y := Z.land (Z.lor _ _) _).
  assert (Hb : forall n, 0 <= n < 64 -> Z.testbit y n = (Z.testbit x n && negb (n =? 1) && negb (n =? 8)) || (n =? 5)).
  { intros n Hn. unfold y. rewrite !Z.land_spec, Z.lor_spec, !Z.land_spec, Z.lnot_spec, Z.lnot_spec by lia.
    rewrite !Z.shiftl_1_l, !Z.pow2_bits_eqb, !Z.ones_spec_low by lia.
    rewrite (Z.eqb_sym 1 n), (Z.eqb_sym 8 n), (Z.eqb_sym 5 n). rewrite !andb_true_r. done. }
  assert (Hz : forall n, 0 <= n < 64 -> Z.testbit y n = false -> Z.land y (Z.shiftl 1 n) = 0).
  { intros n Hn Hf. apply Z.bits_inj'. intros k Hk. rewrite Z.land_spec, Z.shiftl_1_l, Z.pow2_bits_eqb, Z.bits_0 by lia.
    destruct (Z.eqb_spec n k) as [->|]; [by rewrite Hf|by rewrite andb_false_r]. }
  split_and!.
  - apply Hz; [lia|]. rewrite Hb by lia. cbn. by rewrite andb_false_r.
  - intros E0. apply (f_equal (fun z => Z.testbit z 5)) in E0. rewrite Z.land_spec, Hb, Z.bits_0 in E0 by lia.
    change (Z.testbit (Z.shiftl 1 5) 5) with true in E0. by rewrite orb_true_r in E0.
  - apply Hz; [lia|]. rewrite Hb by lia. cbn. by rewrite andb_false_r.
Qed.

Lemma usertrapret_run s :
  runs (usertrapret vec) s (fun r s' => match r with TUser t p => user_ready s' t p | TExit => False end /\
    tl_killed (t_k s') = tl_killed (t_k s)).
Proof.
  unfold usertrapret, intr_off, w_stvec, r_satp, r_tp, r_sstatus, w_sstatus, w_sepc, csrr, csrw, tf_put, tf_get.
  repeat mstep. destruct (sstatus_user (t_reg s SSTATUS)) as (HS1 & HS2 & HS3). split.
  - split; try (treg; done); try (treg; rewrite !tl_tf_ne by done; treg; done).
  - treg. by rewrite !(proj2 (proj2 (tl_put _ _ _))).
Qed.

Definition known_cause (c : Z) : Prop := c = EXTERNAL \/ c = TIMER.

Lemma plic_run {A} (m : M R A) s : (forall r, runs m r (fun _ _ => True)) ->
  runs (zoom t_plic (fun r s => TrapSt (t_reg s) r (t_k s)) m) s (fun _ _ => True).
Proof. intros H. apply runs_zoom. eapply runs_mono; [apply H|done]. Qed.

(** [devintr] returns 0 exactly for a cause it does not know, and then has
    done nothing. *)
Lemma devintr_run s :
  runs devintr s (fun d s' =>
    (t_reg s SCAUSE = EXTERNAL /\ d = 1) \/ (t_reg s SCAUSE = TIMER /\ d = 2) \/
    (~ known_cause (t_reg s SCAUSE) /\ d = 0 /\ s' = s)).
Proof.
  unfold devintr, r_scause, csrr. mstep. fold EXTERNAL TIMER. unfold known_cause.
  destruct (Z.eqb_spec (t_reg s SCAUSE) EXTERNAL) as [E|E].
  - unfold plic_claim, cpuid, r_tp, csrr, plic_read. apply runs_bind. do 3 mstep.
    eapply runs_seq; [apply plic_run, tl_read|]. intros irq s1 _. apply runs_ret.
    eapply runs_seq with (P := fun _ _ => True).
    { destruct (_ =? _); [apply tl_uart|]. destruct (_ =? _); [apply tl_virtio|].
      destruct (negb _); [|by apply runs_ret]. eapply runs_mono; [apply tl_printf|done]. }
    intros ? s2 _. eapply runs_seq with (P := fun _ _ => True).
    { destruct (negb _); [|by apply runs_ret]. unfold plic_complete, cpuid, r_tp, csrr, plic_write. do 3 mstep.
      apply plic_run. intros r. apply tl_write. }
    intros ? s3 _. apply runs_ret. by left.
  - destruct (Z.eqb_spec (t_reg s SCAUSE) TIMER) as [E'|E'].
    + unfold clockintr, cpuid, r_tp, r_time, w_stimecmp, csrr, csrw. apply runs_bind. do 3 mstep.
      eapply runs_seq with (P := fun _ _ => True); [destruct (_ =? _); [apply tl_tick|by apply runs_ret]|].
      intros ? s1 _. repeat mstep. right. by left.
    + apply runs_ret. right. right. split_and!; [|done|done]. by intros [|].
Qed.

Lemma usertrap_tail_run d s :
  runs (usertrap_tail vec d) s (fun r s' =>
    match r with
    | TExit => tl_killed (t_k s) = true
    | TUser t p => tl_killed (t_k s) = false /\ user_ready s' t p /\ (d <> 2 -> tl_killed (t_k s') = false)
    end).
Proof.
  unfold usertrap_tail. eapply runs_seq; [apply tl_ts_killed|]. intros b s1 [-> E1].
  destruct (tl_killed (t_k s)) eqn:Ek.
  - eapply runs_seq; [apply tl_exit|]. intros. by apply runs_ret.
  - destruct (Z.eqb_spec d 2) as [->|Hd].
    + eapply runs_seq; [apply tl_yield|]. intros ? s2 _. eapply runs_mono; [apply usertrapret_run|].
      intros [|t p] s3 [HU HK]; [done|]. by split_and!.
    + mstep. eapply runs_mono; [apply usertrapret_run|]. intros [|t p] s3 [HU HK]; [done|].
      split_and!; [done|done|]. intros _. by rewrite HK, E1.
Qed.

Lemma usertrap_run s : Z.land (t_reg s SSTATUS) SSTATUS_SPP = 0 ->
  runs (usertrap vec) s (fun r s' =>
    match r with
    | TExit => True
    | TUser t p => user_ready s' t p /\ (t_reg s SCAUSE = 8 \/ known_cause (t_reg s SCAUSE)) /\
        (t_reg s SCAUSE <> TIMER -> tl_killed (t_k s') = false)
    end).
Proof.
  intros HS. unfold usertrap, r_sstatus, w_stvec, r_sepc, r_scause, r_stval, tf_put, tf_get, csrr, csrw.
  mstep. rewrite HS. cbn [Z.eqb negb]. do 4 mstep. treg. destruct (Z.eqb_spec (t_reg s SCAUSE) 8) as [E8|E8].
  - eapply runs_seq; [apply tl_ts_killed|]. intros b s1 [-> E1]. destruct (tl_killed _).
    { eapply runs_seq; [apply tl_exit|]. intros. by apply runs_ret. }
    unfold intr_on, r_sstatus, w_sstatus, csrr, csrw. do 5 mstep. eapply runs_seq; [apply tl_syscall|]. intros ? s2 _.
    eapply runs_mono; [apply usertrap_tail_run|]. intros [|t p] s3 H; [done|]. destruct H as (_ & HU & HK).
    split; [done|]. split; [by left|]. intros _. by apply HK.
  - eapply runs_seq; [apply devintr_run|]. treg. intros d s1 HD. eapply runs_seq with
      (P := fun _ s2 => (d <> 0 /\ s2 = s1) \/ (d = 0 /\ tl_killed (t_k s2) = true)).
    { destruct (Z.eqb_spec d 0) as [->|Hd]; cbn [negb]; [|apply runs_ret; by left]. do 2 mstep.
      eapply runs_seq; [apply tl_printf|]. intros ? s2 _. do 2 mstep. eapply runs_seq; [apply tl_printf|]. intros ? s3 _.
      eapply runs_mono; [apply tl_setkilled|]. intros ? s4 H. by right. }
    intros ? s2 HS2. eapply runs_mono; [apply usertrap_tail_run|]. intros [|t p] s3 H; [done|]. destruct H as (HK0 & HU & HK).
    destruct HS2 as [[Hd ->]|[_ Hk]]; [|congruence]. split; [done|]. split.
    + right. destruct HD as [[E _]|[[E _]|(_ & -> & _)]]; [by left|by right|done].
    + intros Ht. apply HK. destruct HD as [[_ ->]|[[E _]|(_ & -> & _)]]; [lia|by destruct Ht|lia].
Qed.


End proofs.

(** ** Properties *)

(** C18. Traps from user space are safe.  Whatever the services do to the
    registers in between, [usertrap] ends the process or re-enters user space
    in user mode, with interrupts off until [sret] and on after it, further
    traps going to [uservec], at the program counter of the trap frame, on
    the process's page table, and with the kernel's stack, page table,
    handler and hart number in the trap frame.  It does so only after a
    system call, a device or a timer interrupt; any other exception, and a
    kill noticed at the end, ends the process.  A trap that does not come
    from user mode panics. *)
Theorem usertrap_protects {R K : Type} `{MM : Mmio R} `{TS : TrapServices R K} `{TL : !TrapLaws R K} (vec : vectors) (s : trapst R K) :
  (Z.land (t_reg s SSTATUS) SSTATUS_SPP = 0 ->
   runs (usertrap vec) s (fun r s' =>
     match r with
     | TExit => True
     | TUser t p => user_ready vec s' t p /\ (t_reg s SCAUSE = 8 \/ known_cause (t_reg s SCAUSE)) /\
         (t_reg s SCAUSE <> TIMER -> tl_killed (t_k s') = false)
     end)) /\
  (Z.land (t_reg s SSTATUS) SSTATUS_SPP <> 0 -> usertrap vec s = (Panic "usertrap: not from user mode", s)).
Proof.
  split; [apply usertrap_run|]. intros HS. unfold usertrap, r_sstatus, csrr, bind, gets.
  by rewrite (proj2 (Z.eqb_neq _ _) HS).
Qed.


(** A kernel that forgets everything it can between traps. *)
Record toyk := ToyK { tk_tf : Z -> Z; tk_killed : bool }.
#[local] Instance toy_plic : Mmio unit := {| reg_read := fun _ => ret UART0_IRQ; reg_write := fun _ _ => ret tt |}.
Definition scramble : M (trapst unit toyk) unit := modify (fun s => TrapSt (fun _ => 12345) (t_plic s) (t_k s)).
#[local] Instance toy_services : TrapServices unit toyk := {|
  ts_tf k off := tk_tf k off;
  ts_put_tf off v k := ToyK (upd (tk_tf k) off v) (tk_killed k);
  ts_kstack _ := 4096; ts_pagetable _ := 8192; ts_pid _ := 3; ts_has_proc _ := true;
  ts_killed := gets (fun s => tk_killed (t_k s));
  ts_setkilled := modify (fun s => TrapSt (t_reg s) (t_plic s) (ToyK (tk_tf (t_k s)) true));
  ts_exit _ := ret tt; ts_syscall := scramble; ts_yield := scramble; ts_uartintr := scramble;
  ts_virtio_disk_intr := scramble; ts_tick := scramble; ts_printf _ _ := ret tt |}.
#[local] Instance toy_laws : TrapLaws unit toyk.
Proof.
  refine {| tl_killed := tk_killed |}; try (intros; by eexists _, _).
  - intros k off v. cbn. unfold upd. by rewrite decide_True.
  - intros k off off' v Hne. cbn. unfold upd. by rewrite decide_False.
  - done.
Defined.

Definition toy_trap (cause status : Z) : trapst unit toyk :=
  TrapSt (fun r => match r with SCAUSE => cause | SSTATUS => status | SEPC => 100 | _ => 7 end) tt (ToyK (fun _ => 0) false).

Lemma usertrap_protects_witness :
  (usertrap (Vectors 1 2 3 4) (toy_trap 8 0)).1 = Ret (TUser (TRAMPOLINE + 4) (MAKE_SATP 8192)) /\
  runs (usertrap (Vectors 1 2 3 4)) (toy_trap 8 0) (fun r s' =>
     match r with
     | TExit => True
     | TUser t p => user_ready (Vectors 1 2 3 4) s' t p /\ (t_reg (toy_trap 8 0) SCAUSE = 8 \/ known_cause (t_reg (toy_trap 8 0) SCAUSE)) /\
         (t_reg (toy_trap 8 0) SCAUSE <> TIMER -> tl_killed (t_k s') = false)
     end).
Proof. split; [vm_compute; reflexivity|]. by apply usertrap_protects. Defined.

