(* ===== verification/Sleep.v ===== *)
(** * Sleeping for a number of ticks: sys_sleep of kernel/sysproc.c with the
    clock of kernel/trap.c

    [sys_sleep] in one session: the call, the switch to the scheduler, clock
    ticks that wake the process, and the switches back into the loop. *)
From S2P Require Import Prelude CString Riscv Spinlock Kalloc Vm Fs Pipe Proc Syscall.
Local Open Scope Z_scope.

Section session.
Context {V F : Type} {PA : PageAlloc V} {FL : FileLayer F}.
Local Abbreviation TM := (M (tkst V F)).




End session.

Section lemmas.
Context {V F : Type} {PA : PageAlloc V} {FL : FileLayer F}.
Implicit Types s : sysst V F.
Implicit Types t : tkst V F.
























End lemmas.

(** ** A small system: process 1 asks for three ticks just before [ticks] wraps *)
#[local] Instance pa_flat : PageAlloc mem := {|
  pa_alloc := ret 0; pa_release := fun _ => ret tt; pa_mem := id; pa_set_mem := fun m _ => m;
  pa_page := fun _ => False; pa_free := fun _ _ => True |}.
#[local] Instance fl_idle : FileLayer unit := {|
  fl_filedup := fun _ => ret tt; fl_fileclose := fun _ => ret tt; fl_idup := fun _ => ret tt; fl_iput := fun _ => ret tt;
  fl_begin_op := ret tt; fl_end_op := ret tt; fl_root := ret 0%nat; fl_fsinit := ret tt |}.





