(* ===== verification/Textutil.v ===== *)
(** * Programs on byte streams: user/cat.c, user/wc.c, user/echo.c, user/ls.c

    Over the system calls of Ulib.v ([UserSys]); [buf] is the address of the
    program's buffer.  [exit] ends the program: [main] and the functions that
    exit return the status. *)
From S2P Require Import Prelude CString Riscv Bio Layout Ulib.
Local Open Scope Z_scope.

Section programs.
Context {U : Type} {US : UserSys U}.

(** ** cat.c *)
Section cat.
Variable buf : Z.

(** [Some status]: it exited. *)
Fixpoint cat (fuel : nat) (fd : Z) : M U (option Z) :=
  match fuel with
  | O => stall (Chan "cat" 0)
  | S f =>
      let! n := us_read fd buf 512 in
      if 0 <? n then
        let! w := us_write 1 buf n in
        if negb (w =? n) then us_fprintf 2 "cat: write error" [] ;; ret (Some 1)
        else cat f fd
      else if n <? 0 then us_fprintf 2 "cat: read error" [] ;; ret (Some 1)
      else ret None
  end.

Definition cat_main (fuel : nat) (argc argv : Z) : M U Z :=
  if argc <=? 1 then
    let! r := cat fuel 0 in ret (default 0 r)
  else
    let! r := for_loop 1 argc 1 (fun i =>
      let! m := gets us_mem in
      let name := load64 m (argv + 8 * i) in
      let! fd := us_open name O_RDONLY in
      if fd <? 0 then us_fprintf 2 "cat: cannot open %s" [name] ;; ret (Some 1)
      else
        let! r := cat fuel fd in
        match r with
        | Some e => ret (Some e)
        | None => us_close fd ;; ret None
        end) in
    ret (default 0 r).
End cat.

(** ** wc.c *)

(** [" \r\t\n\v"], at the address [ws]. *)
Definition wc_space : list Z := [32; 13; 9; 10; 11].

Record wcst := Wcst { wc_l : Z; wc_w : Z; wc_c : Z; wc_in : bool }.

Section wc.
Variables buf ws : Z.

(** The body of the inner loop; the counters are ints. *)
Definition wc_char (i : Z) (t : wcst) : M U wcst :=
  if wc_c t + 1 =? 2 ^ 31 then undef "signed overflow"
  else
    let! m := gets us_mem in
    let b := rd m (buf + i) in
    let l := if b =? 10 then wc_l t + 1 else wc_l t in
    let! q := bounded (strchr 6 m ws b) in
    ret (if negb (q =? 0) then Wcst l (wc_w t) (wc_c t + 1) false
         else if negb (wc_in t) then Wcst l (wc_w t + 1) (wc_c t + 1) true
         else Wcst l (wc_w t) (wc_c t + 1) true).

(** [for(i = 0; i < n; i++)], with [k] iterations to go. *)
Fixpoint wc_buf (k : nat) (i : Z) (t : wcst) : M U wcst :=
  match k with
  | O => ret t
  | S k' => let! t' := wc_char i t in wc_buf k' (i + 1) t'
  end.

(** The reading loop: the last result of [read], and the counters. *)
Fixpoint wc_loop (fuel : nat) (fd : Z) (t : wcst) : M U (Z * wcst) :=
  match fuel with
  | O => stall (Chan "wc" 0)
  | S f =>
      let! n := us_read fd buf 512 in
      if 0 <? n then let! t' := wc_buf (Z.to_nat n) 0 t in wc_loop f fd t'
      else ret (n, t)
  end.

Definition wc (fuel : nat) (fd name : Z) : M U (option Z) :=
  let! r := wc_loop fuel fd (Wcst 0 0 0 false) in
  if r.1 <? 0 then us_fprintf 1 "wc: read error" [] ;; ret (Some 1)
  else us_fprintf 1 "%d %d %d %s" [wc_l r.2; wc_w r.2; wc_c r.2; name] ;; ret None.

Definition wc_main (fuel : nat) (empty argc argv : Z) : M U Z :=
  if argc <=? 1 then
    let! r := wc fuel 0 empty in ret (default 0 r)
  else
    let! r := for_loop 1 argc 1 (fun i =>
      let! m := gets us_mem in
      let name := load64 m (argv + 8 * i) in
      let! fd := us_open name O_RDONLY in
      if fd <? 0 then us_fprintf 1 "wc: cannot open %s" [name] ;; ret (Some 1)
      else
        let! r := wc fuel fd name in
        match r with
        | Some e => ret (Some e)
        | None => us_close fd ;; ret None
        end) in
    ret (default 0 r).
End wc.

(** ** echo.c; [sp] and [nl] are the addresses of the two literals *)
Definition echo_main (fuel : nat) (sp nl argc argv : Z) : M U Z :=
  for_loop (A := unit) 1 argc 1 (fun i =>
    let! m := gets us_mem in
    let arg := load64 m (argv + 8 * i) in
    let! n := bounded (strlen fuel m arg) in
    us_write 1 arg (s32 n) ;;
    (if i + 1 <? argc then us_write 1 sp 1 else us_write 1 nl 1) ;;
    ret None) ;;
  ret 0.

(** ** ls.c *)
Section ls.
(** [fmtname]'s static buffer, and the locals [buf], [de] and [st] of [ls]. *)
Variables namebuf buf de st : Z.

(** [for(p = path + strlen(path); p >= path && *p != '/'; p--)] *)
Fixpoint last_slash (k : nat) (m : mem) (path p : Z) : Z :=
  match k with
  | O => p
  | S k' => if (path <=? p) && negb (rd m p =? 47) then last_slash k' m path (p - 1) else p
  end.

Definition fmtname (fuel : nat) (path : Z) : M U Z :=
  let! m := gets us_mem in
  let! n := bounded (strlen fuel m path) in
  let p := last_slash (S (Z.to_nat n)) m path (path + n) + 1 in
  let! k := bounded (strlen fuel m p) in
  if DIRSIZ <=? k then ret p
  else
    modify (fun u => us_set_mem (memmove (us_mem u) namebuf p k).1 u) ;;
    modify (fun u => us_set_mem (memset (us_mem u) (namebuf + k) 32 (DIRSIZ - k)).1 u) ;;
    ret namebuf.

(** struct stat: dev 0, ino 4, type 8, nlink 10, size 16. *)
Definition st_line (fuel : nat) (path : Z) : M U unit :=
  let! name := fmtname fuel path in
  let! m := gets us_mem in
  us_fprintf 1 "%s %d %d %d"
    [name; s16 (le_dec (load_bytes 2 m (st + 8))); le_dec (load_bytes 4 m (st + 4)); s32 (load64 m (st + 16))].

(** One directory entry per iteration. *)
Fixpoint ls_dir (fuel : nat) (fd p : Z) : M U unit :=
  match fuel with
  | O => stall (Chan "ls" 0)
  | S f =>
      let! r := us_read fd de 16 in
      if r =? 16 then
        let! m := gets us_mem in
        if le_dec (load_bytes 2 m de) =? 0 then ls_dir f fd p
        else
          modify (fun u => us_set_mem (memmove (us_mem u) p (de + 2) DIRSIZ).1 u) ;;
          ustore (p + DIRSIZ) 0 ;;
          let! s := Ulib.stat buf st in
          (if s <? 0 then us_fprintf 1 "ls: cannot stat %s" [buf] else st_line fuel buf) ;;
          ls_dir f fd p
      else ret tt
  end.

Definition ls (fuel : nat) (path : Z) : M U unit :=
  let! fd := us_open path O_RDONLY in
  if fd <? 0 then us_fprintf 2 "ls: cannot open %s" [path]
  else
    let! r := us_fstat fd st in
    if r <? 0 then us_fprintf 2 "ls: cannot stat %s" [path] ;; us_close fd ;; ret tt
    else
      let! m := gets us_mem in
      let type := s16 (le_dec (load_bytes 2 m (st + 8))) in
      (if (type =? T_DEVICE) || (type =? T_FILE) then st_line fuel path
       else if type =? T_DIR then
         let! n := bounded (strlen fuel m path) in
         if 512 <? n + 1 + DIRSIZ + 1 then us_fprintf 1 "ls: path too long" []
         else
           let! r := bounded (strcpy fuel m buf path) in
           modify (us_set_mem r.2) ;;
           let! m := gets us_mem in
           let! k := bounded (strlen fuel m buf) in
           ustore (buf + k) 47 ;;
           ls_dir fuel fd (buf + k + 1)
       else ret tt) ;;
      us_close fd ;;
      ret tt.

(** [dot] is the address of the literal ".". *)
Definition ls_main (fuel : nat) (dot argc argv : Z) : M U Z :=
  if argc <? 2 then ls fuel dot ;; ret 0
  else
    for_loop (A := unit) 1 argc 1 (fun i =>
      let! m := gets us_mem in
      ls fuel (load64 m (argv + 8 * i)) ;;
      ret None) ;;
    ret 0.
End ls.
End programs.

(** ** What wc counts *)
Definition is_space (b : Z) : Prop := b ∈ wc_space.

(** [words_of l ws]: [ws] are the words of [l], in order: the maximal
    stretches without white space. *)
Inductive words_of : list Z -> list (list Z) -> Prop :=
| words_nil : words_of [] []
| words_space b l ws : is_space b -> words_of l ws -> words_of (b :: l) ws
| words_word w l ws :
    w <> [] -> Forall (fun b => ~ is_space b) w -> (forall b, head l = Some b -> is_space b) ->
    words_of l ws -> words_of (w ++ l) (w :: ws).

Definition newlines (l : list Z) : nat := length (filter (fun b => b = 10) l).

(** The counters after the bytes [l], starting from [t]. *)
Definition wc_step (t : wcst) (b : Z) : wcst :=
  let l := if b =? 10 then wc_l t + 1 else wc_l t in
  if bool_decide (is_space b) then Wcst l (wc_w t) (wc_c t + 1) false
  else if negb (wc_in t) then Wcst l (wc_w t + 1) (wc_c t + 1) true
  else Wcst l (wc_w t) (wc_c t + 1) true.

Definition wc_fold (t : wcst) (l : list Z) : wcst := foldl wc_step t l.

Lemma wc_fold_chars t l : wc_c (wc_fold t l) = wc_c t + Z.of_nat (length l).
Proof.
  unfold wc_fold. revert t. induction l as [|b l IH]; intros t; cbn [foldl length]; [lia|]. rewrite IH.
  assert (wc_c (wc_step t b) = wc_c t + 1) as -> by (unfold wc_step; by repeat case_match). lia.
Qed.

Lemma wc_fold_lines t l : wc_l (wc_fold t l) = wc_l t + Z.of_nat (newlines l).
Proof.
  unfold wc_fold, newlines. revert t. induction l as [|b l IH]; intros t; cbn [foldl]; [cbn; lia|]. rewrite IH, filter_cons.
  assert (wc_l (wc_step t b) = if b =? 10 then wc_l t + 1 else wc_l t) as -> by (unfold wc_step; by repeat case_match).
  destruct (Z.eqb_spec b 10); case_decide; cbn [length]; (lia || done).
Qed.

(** Between words the state does not remember whether a word was open. *)
Lemma wc_fold_open l wc ll c : (forall b, head l = Some b -> is_space b) ->
  wc_w (wc_fold (Wcst ll wc c true) l) = wc_w (wc_fold (Wcst ll wc c false) l).
Proof.
  intros H. destruct l as [|b l]; [done|]. unfold wc_fold. cbn [foldl]. unfold wc_step at 2 4. cbn.
  by rewrite bool_decide_eq_true_2 by (by apply H).
Qed.

Lemma wc_fold_inside w t : wc_in t = true -> Forall (fun b => ~ is_space b) w ->
  wc_in (wc_fold t w) = true /\ wc_w (wc_fold t w) = wc_w t.
Proof.
  unfold wc_fold. intros Ht HF. revert t Ht. induction HF as [|b w Hb _ IH]; intros t Ht; cbn [foldl]; [done|].
  assert (E : wc_step t b = Wcst (if b =? 10 then wc_l t + 1 else wc_l t) (wc_w t) (wc_c t + 1) true).
  { unfold wc_step. rewrite bool_decide_eq_false_2, Ht by done. done. }
  rewrite E. set (t' := Wcst _ _ _ true). by destruct (IH t' eq_refl) as [-> ->].
Qed.

Lemma wc_fold_words l ws : words_of l ws -> forall t, wc_in t = false ->
  wc_w (wc_fold t l) = wc_w t + Z.of_nat (length ws).
Proof.
  induction 1 as [|b l ws Hb _ IH|w l ws Hw HF Hl _ IH]; intros t Ht.
  - cbn. lia.
  - unfold wc_fold. cbn [foldl]. fold (wc_fold (wc_step t b) l).
    assert (E : wc_in (wc_step t b) = false /\ wc_w (wc_step t b) = wc_w t).
    { unfold wc_step. by rewrite bool_decide_eq_true_2 by done. }
    destruct E as [E1 E2]. by rewrite IH, E2.
  - destruct w as [|b w]; [done|]. inversion HF as [|? ? Hb HF']; subst. unfold wc_fold. rewrite foldl_app. cbn [foldl].
    assert (E : wc_in (wc_step t b) = true /\ wc_w (wc_step t b) = wc_w t + 1).
    { unfold wc_step. rewrite bool_decide_eq_false_2, Ht by done. done. }
    destruct E as [E1 E2]. destruct (wc_fold_inside w _ E1 HF') as [F1 F2]. fold (wc_fold (wc_step t b) w). fold (wc_fold (wc_fold (wc_step t b) w) l).
    destruct (wc_fold (wc_step t b) w) as [l0 w0 c0 i0]. cbn in F1, F2. subst i0 w0. rewrite wc_fold_open by done. rewrite IH by done. cbn [wc_w length]. lia.
Qed.

Lemma words_of_exists l : exists ws, words_of l ws.
Proof.
  induction l as [|b l [ws IH]]; [by exists []; constructor|].
  destruct (decide (b ∈ wc_space)) as [Hb|Hb]; [by exists ws; constructor|].
  destruct l as [|d l].
  { exists [[b]]. apply (words_word [b] []); [done|by repeat constructor|done|constructor]. }
  destruct (decide (d ∈ wc_space)) as [Hd|Hd].
  { exists ([b] :: ws). apply (words_word [b] (d :: l)); [done|by repeat constructor|by intros ? [= <-]|done]. }
  inversion IH as [| |w l' ws' Hw HF Hl HI E]; subst; [done|].
  exists ((b :: w) :: ws'). apply (words_word (b :: w) l'); [done|by constructor|done|done].
Qed.

(** ** The loops *)
Section proofs.
Context {U : Type} {US : UserSys U} (fd : Z) {L : StreamLaws U fd} (buf ws : Z).
Hypothesis Hws : 0 < ws.
Hypothesis Hsep : ws + 5 < buf \/ buf + 512 <= ws.

Lemma cat_runs fuel : forall u, (length (si_in u) < fuel)%nat ->
  runs (cat buf fuel fd) u (fun r u' => r = None /\ si_in u' = [] /\ si_out u' = si_out u ++ si_in u).
Proof.
  induction fuel as [|fuel IH]; intros u Hf; [lia|]. cbn [cat].
  eapply runs_seq; [by apply sl_read|]. intros n u1 (data & EI & EO & -> & Hle & Hend & EM).
  destruct data as [|c data].
  { cbn. apply runs_ret. destruct (Hend eq_refl) as [?|E]; [done|]. rewrite EI in E |- *. cbn in E |- *. rewrite E, app_nil_r. done. }
  rewrite (proj2 (Z.ltb_lt 0 _)) by (cbn; lia). eapply runs_seq; [apply sl_write; lia|].
  intros w u2 (-> & I2 & O2 & M2). rewrite Z.eqb_refl. cbn [negb].
  eapply runs_mono; [apply IH; rewrite I2; rewrite EI, length_app in Hf; cbn in Hf; lia|].
  intros r u3 (-> & I3 & O3). split_and!; [done|done|]. rewrite O3, O2, I2, EO, EM, EI, Nat2Z.id.
  rewrite load_store_bytes. by rewrite <- app_assoc.
Qed.

(** The literal of white space in memory. *)
Lemma wc_char_runs i t u :
  cstr (us_mem u) ws wc_space -> wc_c t + 1 < 2 ^ 31 ->
  runs (wc_char buf ws i t) u (fun t' u' => u' = u /\ t' = wc_step t (rd (us_mem u) (buf + i))).
Proof.
  intros HC Ht. unfold wc_char. rewrite (proj2 (Z.eqb_neq _ _)) by lia. mstep. set (b := rd (us_mem u) (buf + i)).
  assert (E : exists q, strchr 6 (us_mem u) ws b = Some q /\ negb (q =? 0) = bool_decide (is_space b)).
  { clearbody b. destruct (decide (b ∈ wc_space)) as [Hb|Hb].
    - rewrite bool_decide_eq_true_2 by done. unfold wc_space in *. cbn [cstr] in HC.
      destruct HC as (R0 & _ & R1 & _ & R2 & _ & R3 & _ & R4 & _ & _).
      cbn [strchr]. rewrite R0, R1, R2, R3, R4. cbn [Z.eqb Pos.eqb].
      rewrite !elem_of_cons, elem_of_nil in Hb.
      destruct Hb as [-> | [-> | [-> | [-> | [-> | []]]]]]; cbn [Z.eqb Pos.eqb]; eexists; (split; [reflexivity|]);
        (rewrite (proj2 (Z.eqb_neq _ _)); [done|lia]).
    - rewrite bool_decide_eq_false_2 by done. exists 0. split; [|done]. apply (strchr_absent _ _ wc_space); [done|done|cbn; lia]. }
  destruct E as (q & -> & Eq). cbn [bounded]. mstep. mstep. split; [done|]. unfold wc_step. by rewrite Eq.
Qed.

Lemma wc_buf_runs k : forall i t u,
  cstr (us_mem u) ws wc_space -> wc_c t + Z.of_nat k < 2 ^ 31 ->
  runs (wc_buf buf ws k i t) u (fun t' u' => u' = u /\ t' = wc_fold t (load_bytes k (us_mem u) (buf + i))).
Proof.
  induction k as [|k IH]; intros i t u HC Ht; cbn [wc_buf]; [by apply runs_ret|].
  eapply runs_seq; [apply wc_char_runs; [done|lia]|]. intros t' u' [-> ->].
  eapply runs_mono; [apply IH; [done|]|].
  - unfold wc_step. repeat case_match; cbn; lia.
  - intros t' u' [-> ->]. split; [done|]. unfold wc_fold. cbn [load_bytes foldl]. by rewrite Z.add_assoc.
Qed.

Lemma wc_loop_runs fuel : forall t u,
  cstr (us_mem u) ws wc_space -> (length (si_in u) < fuel)%nat -> wc_c t + Z.of_nat (length (si_in u)) < 2 ^ 31 ->
  runs (wc_loop buf ws fuel fd t) u (fun r u' => r = (0, wc_fold t (si_in u)) /\ si_in u' = [] /\ si_out u' = si_out u).
Proof.
  induction fuel as [|fuel IH]; intros t u HC Hf Ht; [lia|]. cbn [wc_loop].
  eapply runs_seq; [by apply sl_read|]. intros n u1 (data & EI & EO & -> & Hle & Hend & EM).
  destruct data as [|c data].
  { cbn. apply runs_ret. destruct (Hend eq_refl) as [?|E]; [done|]. rewrite E. rewrite EI in E. done. }
  rewrite (proj2 (Z.ltb_lt 0 _)) by (cbn; lia). rewrite Nat2Z.id. set (d := c :: data) in *. rewrite EI, length_app in Hf, Ht.
  assert (HC1 : cstr (us_mem u1) ws wc_space).
  { rewrite EM. apply (cstr_ext buf (Z.of_nat (length d)) (us_mem u)); [|cbn; cbn in Hle; lia|done].
    intros a Ha. by apply rd_store_bytes_out. }
  eapply runs_seq; [apply wc_buf_runs; [done|lia]|]. intros t' u' [-> ->].
  rewrite Z.add_0_r, EM, load_store_bytes. eapply runs_mono; [apply IH; [done|cbn in Hf; lia|rewrite wc_fold_chars; lia]|].
  intros r u2 (-> & I2 & O2). split_and!; [|done|congruence]. rewrite EI. unfold wc_fold. by rewrite foldl_app.
Qed.
End proofs.

(** ** Properties *)

(** C37. wc and cat on a stream that [read] delivers in pieces of any size.
    [wc] reaches the end of the input having counted its newlines, its words
    (the maximal stretches without white space, so that a word cut by a read
    counts once) and its bytes, when there are fewer than 2^31 of them, and
    goes on to print these numbers; [cat] copies the input to its output
    unchanged and returns without an error. *)
Theorem wc_cat_streams {U : Type} `{US : UserSys U} (fd : Z) `{L : !StreamLaws U fd} (buf ws name : Z) (fuel : nat) (u : U) :
  0 < ws -> ws + 5 < buf \/ buf + 512 <= ws -> cstr (us_mem u) ws wc_space ->
  (length (si_in u) < fuel)%nat -> Z.of_nat (length (si_in u)) < 2 ^ 31 ->
  (exists t u', wc_loop buf ws fuel fd (Wcst 0 0 0 false) u = (Ret (0, t), u') /\
    si_in u' = [] /\ si_out u' = si_out u /\
    wc_l t = Z.of_nat (newlines (si_in u)) /\ wc_c t = Z.of_nat (length (si_in u)) /\
    (exists wl, words_of (si_in u) wl /\ wc_w t = Z.of_nat (length wl)) /\
    wc buf ws fuel fd name u = (us_fprintf 1 "%d %d %d %s" [wc_l t; wc_w t; wc_c t; name] ;; ret None) u') /\
  runs (cat buf fuel fd) u (fun r u' => r = None /\ si_in u' = [] /\ si_out u' = si_out u ++ si_in u).
Proof.
  intros Hws Hsep HC Hf Hl. split; [|by apply cat_runs].
  destruct (wc_loop_runs fd buf ws Hws Hsep fuel (Wcst 0 0 0 false) u) as (r & u' & E & -> & HI & HO); [done|done|cbn; lia|].
  exists (wc_fold (Wcst 0 0 0 false) (si_in u)), u'. split_and!; [done|done|done| | | |].
  - rewrite wc_fold_lines. cbn. lia.
  - rewrite wc_fold_chars. cbn. lia.
  - destruct (words_of_exists (si_in u)) as [wl Hwl]. exists wl. split; [done|]. by rewrite (wc_fold_words _ _ Hwl).
  - unfold wc. unfold bind at 1. rewrite E. done.
Qed.

(** "one two\n" cut in the middle of a word. *)
Definition wc_world : uworld :=
  UWorld (store_bytes ∅ 100 (wc_space ++ [0])) [111; 110; 101; 32; 116; 119; 111; 10] [2; 4; 1]%nat [] 0.

Lemma wc_cat_streams_witness :
  (exists u', wc_loop (U := uworld) 1000 100 9 0 (Wcst 0 0 0 false) wc_world = (Ret (0, Wcst 1 2 8 false), u')) /\
  runs (cat (U := uworld) 1000 9 0) wc_world (fun r u' => r = None /\ uw_in u' = [] /\ uw_out u' = uw_out wc_world ++ uw_in wc_world).
Proof.
  split; [eexists; vm_compute; reflexivity|].
  refine (proj2 (wc_cat_streams (U := uworld) 0 1000 100 0 9 wc_world _ _ _ _ _));
    [lia|lia|cbn [cstr]; vm_compute; intuition congruence|cbn; lia|cbn; lia].
Defined.
