(* ===== verification/Uproc.v ===== *)
(** * User processes: programs as trees of system calls, and their interleavings

    A user program is a tree of the calls it makes (user/user.h): local
    variables are variables of Rocq, and a call is a node with one branch per
    result.  [ustep] runs any number of such programs side by side.  It is
    the interface of the kernel as the programs see it: descriptors are the
    lowest free ones, a pipe is the bounded FIFO of Pipe.v with the end-of-file
    and broken-pipe rules of [piperead] and [pipewrite], [fork] copies the
    descriptors, [wait] reaps a zombie child, and calls that can fail may fail
    at any time.  Calls on files and devices answer whatever the parameter
    [oracle] allows. *)
From S2P Require Import Prelude Riscv Pipe.
Local Open Scope Z_scope.

(** A string, as its bytes without the NUL. *)
Abbreviation ustr := (list Z).

Inductive usys :=
| Sfork
| Swait
| Spipe
| Sread (fd n : Z)
| Swrite (fd : Z) (data : list Z)
| Sclose (fd : Z)
| Sdup (fd : Z)
| Sopen (path : ustr) (mode : Z)
| Sexec (path : ustr) (argv : list ustr)
| Sgetpid
| Ssleep (n : Z)
| Sprintf (fd : Z) (fmt : string) (strs : list ustr) (ints : list Z)
| Skill (pid : Z)
| Schdir (path : ustr)
| Slink (old new : ustr)
| Smkdir (path : ustr)
| Smknod (path : ustr) (major minor : Z).

(** What a call returns; [read] also fills the caller's buffer, and [pipe]
    its array of two descriptors. *)
Definition ures (c : usys) : Type :=
  match c with
  | Spipe => option (Z * Z)
  | Sread _ _ => Z * list Z
  | Sprintf _ _ _ _ => unit
  | _ => Z
  end.

(** [Spin] is a loop that used up its bound. *)
Inductive prog (A : Type) : Type :=
| PRet (a : A)
| PExit (status : Z)
| PCall (c : usys) (k : ures c -> prog A)
| PSpin.
Arguments PRet {A} a.
Arguments PExit {A} status.
Arguments PCall {A} c k.
Arguments PSpin {A}.

Fixpoint pbind {A B} (m : prog A) (f : A -> prog B) : prog B :=
  match m with
  | PRet a => f a
  | PExit st => PExit st
  | PCall c k => PCall c (fun r => pbind (k r) f)
  | PSpin => PSpin
  end.

Definition ucall (c : usys) : prog (ures c) := PCall c PRet.
Definition uexit {A} (st : Z) : prog A := PExit st.

Declare Scope uproc_scope.
Delimit Scope uproc_scope with uproc.
Notation "'do!' x '<-' m 'in' k" := (pbind m (fun x => k))
  (at level 10, x pattern, m at level 100, k at level 200) : uproc_scope.
Notation "m ;;; k" := (pbind m (fun _ => k))
  (at level 100, k at level 200, right associativity) : uproc_scope.
Open Scope uproc_scope.

(** ** The system *)

(** What a descriptor refers to. *)
Inductive fobj :=
| OConsole
| OPRead (p : nat)
| OPWrite (p : nat)
| OFile (path : ustr) (mode : Z).

#[export] Instance fobj_eq_dec : EqDecision fobj.
Proof. solve_decision. Defined.

Abbreviation fds := (list (option fobj)).

Inductive ucode :=
| URun (p : prog unit)
| UZombie (status : Z)
| UReaped (status : Z).

(** A process; its parent is its slot in the list of processes ([None] for a
    process outside of it, init among them); [pr_execs] counts the images it
    went through. *)
Record uprc := Uprc {
  pr_pid : positive; pr_parent : option nat; pr_fds : fds; pr_execs : nat; pr_code : ucode }.

Inductive uevent :=
| EPrint (slot : nat) (fd : Z) (fmt : string) (strs : list ustr) (ints : list Z)
| EExec (slot gen : nat) (path : ustr) (argv : list ustr) (tbl : fds)
| ESleep (slot : nat) (n : Z)
| ERead (slot : nat) (fd : Z) (r : Z * list Z)
| EFork (slot child : nat)
| EFs (slot : nat) (c : usys).

Record usystem := Usystem {
  us_procs : list uprc; us_pipes : list (list Z); us_nextpid : positive; us_trace : list uevent }.

Definition set_code (c : ucode) (p : uprc) : uprc :=
  Uprc (pr_pid p) (pr_parent p) (pr_fds p) (pr_execs p) c.
Definition set_fds (t : fds) (p : uprc) : uprc :=
  Uprc (pr_pid p) (pr_parent p) t (pr_execs p) (pr_code p).

Definition upd_proc (s : nat) (p : uprc) (w : usystem) : usystem :=
  Usystem (<[s := p]> (us_procs w)) (us_pipes w) (us_nextpid w) (us_trace w).
Definition upd_pipe (i : nat) (b : list Z) (w : usystem) : usystem :=
  Usystem (us_procs w) (<[i := b]> (us_pipes w)) (us_nextpid w) (us_trace w).
Definition emit (e : uevent) (w : usystem) : usystem :=
  Usystem (us_procs w) (us_pipes w) (us_nextpid w) (us_trace w ++ [e]).

(** [fdalloc]: the lowest free descriptor, if there is one. *)
Fixpoint fd_free (t : fds) : option nat :=
  match t with
  | [] => None
  | None :: _ => Some 0%nat
  | Some _ :: t' => S <$> fd_free t'
  end.

Definition fd_get (t : fds) (fd : Z) : option fobj :=
  if fd <? 0 then None else match t !! Z.to_nat fd with Some o => o | None => None end.

Definition fd_clear (t : fds) (fd : Z) : fds := <[Z.to_nat fd := None]> t.

(** Somebody holds the end [o] of a pipe. *)
Definition holds (o : fobj) (p : uprc) : bool :=
  existsb (fun x => match x with Some o' => bool_decide (o = o') | None => false end) (pr_fds p).
Definition end_open (o : fobj) (w : usystem) : bool := existsb (holds o) (us_procs w).

(** The children of slot [s], as slots. *)
Definition is_child (s : nat) (p : uprc) : bool :=
  match pr_parent p, pr_code p with
  | _, UReaped _ => false
  | Some q, _ => Nat.eqb q s
  | None, _ => false
  end.
Definition is_zombie_child (s : nat) (p : uprc) : bool :=
  is_child s p && match pr_code p with UZombie _ => true | _ => false end.

Definition reap (p : uprc) : uprc :=
  match pr_code p with UZombie st => set_code (UReaped st) p | _ => p end.

Definition orphan (s : nat) (p : uprc) : uprc :=
  if is_child s p then Uprc (pr_pid p) None (pr_fds p) (pr_execs p) (pr_code p) else p.

(** [first f l]: the first element of [l] for which [f] holds, and its index. *)
Fixpoint first_index {A} (f : A -> bool) (l : list A) : option (nat * A) :=
  match l with
  | [] => None
  | a :: t => if f a then Some (0%nat, a) else prod_map S id <$> first_index f t
  end.

Section system.
(** The image [exec] loads, and the results of calls that leave this model. *)
Context (image : ustr -> list ustr -> option (prog unit)) (oracle : forall c : usys, list (ures c)).

(** The process at slot [s], with the table [t], goes on as [k]. *)
Definition cont (s : nat) (p : uprc) (t : fds) (k : prog unit) (w : usystem) : usystem :=
  upd_proc s (set_code (URun k) (set_fds t p)) w.

Definition ext_call (s : nat) (p : uprc) (c : usys) (k : ures c -> prog unit) (w : usystem) : list usystem :=
  (fun r => emit (EFs s c) (cont s p (pr_fds p) (k r) w)) <$> oracle c.

Definition do_fork (s : nat) (p : uprc) (k : Z -> prog unit) (w : usystem) : list usystem :=
  let child := Uprc (us_nextpid w) (Some s) (pr_fds p) (pr_execs p) (URun (k 0)) in
  let w1 := cont s p (pr_fds p) (k (Zpos (us_nextpid w))) w in
  [cont s p (pr_fds p) (k (-1)) w;
   emit (EFork s (length (us_procs w)))
     (Usystem (us_procs w1 ++ [child]) (us_pipes w1) (Pos.succ (us_nextpid w)) (us_trace w1))].

Definition do_wait (s : nat) (p : uprc) (k : Z -> prog unit) (w : usystem) : list usystem :=
  match first_index (is_zombie_child s) (us_procs w) with
  | Some (i, q) => [cont s p (pr_fds p) (k (Zpos (pr_pid q))) (upd_proc i (reap q) w)]
  | None => if existsb (is_child s) (us_procs w) then [] else [cont s p (pr_fds p) (k (-1)) w]
  end.

Definition do_pipe (s : nat) (p : uprc) (k : option (Z * Z) -> prog unit) (w : usystem) : list usystem :=
  let n := length (us_pipes w) in
  cont s p (pr_fds p) (k None) w ::
  match fd_free (pr_fds p) with
  | Some a =>
      let t1 := <[a := Some (OPRead n)]> (pr_fds p) in
      match fd_free t1 with
      | Some b =>
          let t2 := <[b := Some (OPWrite n)]> t1 in
          let w1 := cont s p t2 (k (Some (Z.of_nat a, Z.of_nat b))) w in
          [Usystem (us_procs w1) (us_pipes w1 ++ [[]]) (us_nextpid w1) (us_trace w1)]
      | None => []
      end
  | None => []
  end.

(** [piperead]: what is there, up to [n] bytes; 0 when the last writer is
    gone; otherwise it sleeps. *)
Definition do_read (s : nat) (p : uprc) (fd n : Z) (k : Z * list Z -> prog unit) (w : usystem) : list usystem :=
  let got r w := emit (ERead s fd r) (cont s p (pr_fds p) (k r) w) in
  match fd_get (pr_fds p) fd with
  | Some (OPRead i) =>
      match us_pipes w !! i with
      | Some [] => if end_open (OPWrite i) w then [] else [got (0, []) w]
      | Some b =>
          let data := take (Z.to_nat n) b in
          [got (Z.of_nat (length data), data) (upd_pipe i (drop (Z.to_nat n) b) w)]
      | None => []
      end
  | Some (OPWrite _) | None => [got (-1, []) w]
  | Some _ => (fun r => got r w) <$> oracle (Sread fd n)
  end.

(** [pipewrite]: -1 when there is no reader; the bytes that fit go in, and
    the process sleeps with the rest. *)
Definition do_write (s : nat) (p : uprc) (fd : Z) (data : list Z) (k : Z -> prog unit) (w : usystem) : list usystem :=
  match fd_get (pr_fds p) fd with
  | Some (OPWrite i) =>
      match us_pipes w !! i with
      | Some b =>
          let room := (Z.to_nat PIPESIZE - length b)%nat in
          if decide (data = []) then [cont s p (pr_fds p) (k 0) w]
          else if negb (end_open (OPRead i) w) then [cont s p (pr_fds p) (k (-1)) w]
          else if decide (length data <= room)%nat then
            [cont s p (pr_fds p) (k (Z.of_nat (length data))) (upd_pipe i (b ++ data) w)]
          else if decide (room = 0)%nat then []
          else
            let rest := PCall (Swrite fd (drop room data))
                          (fun r : Z => k (if r <? 0 then r else r + Z.of_nat room)) in
            [cont s p (pr_fds p) rest (upd_pipe i (b ++ take room data) w)]
      | None => []
      end
  | Some (OPRead _) | None => [cont s p (pr_fds p) (k (-1)) w]
  | Some _ => ext_call s p (Swrite fd data) k w
  end.

Definition do_close (s : nat) (p : uprc) (fd : Z) (k : Z -> prog unit) (w : usystem) : list usystem :=
  match fd_get (pr_fds p) fd with
  | Some _ => [cont s p (fd_clear (pr_fds p) fd) (k 0) w]
  | None => [cont s p (pr_fds p) (k (-1)) w]
  end.

Definition do_dup (s : nat) (p : uprc) (fd : Z) (k : Z -> prog unit) (w : usystem) : list usystem :=
  match fd_get (pr_fds p) fd, fd_free (pr_fds p) with
  | Some o, Some a => [cont s p (<[a := Some o]> (pr_fds p)) (k (Z.of_nat a)) w]
  | _, _ => [cont s p (pr_fds p) (k (-1)) w]
  end.

Definition do_open (s : nat) (p : uprc) (path : ustr) (mode : Z) (k : Z -> prog unit) (w : usystem) : list usystem :=
  cont s p (pr_fds p) (k (-1)) w ::
  match fd_free (pr_fds p) with
  | Some a => [cont s p (<[a := Some (OFile path mode)]> (pr_fds p)) (k (Z.of_nat a)) w]
  | None => []
  end.

Definition do_exec (s : nat) (p : uprc) (path : ustr) (argv : list ustr) (k : Z -> prog unit) (w : usystem) : list usystem :=
  cont s p (pr_fds p) (k (-1)) w ::
  match image path argv with
  | Some code =>
      [emit (EExec s (pr_execs p) path argv (pr_fds p))
         (upd_proc s (Uprc (pr_pid p) (pr_parent p) (pr_fds p) (S (pr_execs p)) (URun code)) w)]
  | None => []
  end.

Definition do_exit (s : nat) (p : uprc) (status : Z) (w : usystem) : usystem :=
  upd_proc s (Uprc (pr_pid p) (pr_parent p) ((fun _ => None) <$> pr_fds p) (pr_execs p) (UZombie status))
    (Usystem (orphan s <$> us_procs w) (us_pipes w) (us_nextpid w) (us_trace w)).

Definition do_call (s : nat) (p : uprc) (w : usystem) (c : usys) : (ures c -> prog unit) -> list usystem :=
  match c return (ures c -> prog unit) -> list usystem with
  | Sfork => fun k => do_fork s p k w
  | Swait => fun k => do_wait s p k w
  | Spipe => fun k => do_pipe s p k w
  | Sread fd n => fun k => do_read s p fd n k w
  | Swrite fd data => fun k => do_write s p fd data k w
  | Sclose fd => fun k => do_close s p fd k w
  | Sdup fd => fun k => do_dup s p fd k w
  | Sopen path mode => fun k => do_open s p path mode k w
  | Sexec path argv => fun k => do_exec s p path argv k w
  | Sgetpid => fun k => [cont s p (pr_fds p) (k (Zpos (pr_pid p))) w]
  | Ssleep n => fun k => [emit (ESleep s n) (cont s p (pr_fds p) (k 0) w)]
  | Sprintf fd fmt strs ints => fun k => [emit (EPrint s fd fmt strs ints) (cont s p (pr_fds p) (k tt) w)]
  | c => fun k => ext_call s p c k w
  end.

(** The moves of the process at slot [s]; the return of [main] is [exit(0)],
    as in [start] of ulib.c. *)
Definition moves (w : usystem) (s : nat) : list usystem :=
  match us_procs w !! s with
  | Some p =>
      match pr_code p with
      | URun (PCall c k) => do_call s p w c k
      | URun (PExit st) => [do_exit s p st w]
      | URun (PRet _) => [do_exit s p 0 w]
      | URun PSpin | UZombie _ | UReaped _ => []
      end
  | None => []
  end.

Definition successors (w : usystem) : list usystem :=
  seq 0 (length (us_procs w)) ≫= moves w.

(** One call of one process. *)
Inductive ustep (w w' : usystem) : Prop :=
| ustep_move s : w' ∈ moves w s -> ustep w w'.

Inductive ureach (w0 : usystem) : usystem -> Prop :=
| ureach_init : ureach w0 w0
| ureach_step w w' : ureach w0 w -> ustep w w' -> ureach w0 w'.

(** [ends P n w]: every execution from [w] makes at most [n] moves, and the
    state in which nobody can move satisfies [P]. *)
Inductive ends (P : usystem -> Prop) : nat -> usystem -> Prop :=
| ends_here n w : (forall w', ~ ustep w w') -> P w -> ends P n w
| ends_step n w : (exists w', ustep w w') -> (forall w', ustep w w' -> ends P n w') -> ends P (S n) w.
End system.

(** ** Lemmas *)
Section lemmas.
Context (image : ustr -> list ustr -> option (prog unit)) (oracle : forall c : usys, list (ures c)).
Local Abbreviation mv := (moves image oracle).
Local Abbreviation st := (ustep image oracle).

Lemma moves_beyond w s : (length (us_procs w) <= s)%nat -> mv w s = [].
Proof. intros H. unfold moves. by rewrite lookup_ge_None_2. Qed.

Lemma ustep_successors w w' : st w w' <-> w' ∈ successors image oracle w.
Proof.
  unfold successors. rewrite list_elem_of_bind. split.
  - intros [s Hs]. exists s. split; [done|]. apply elem_of_seq. split; [lia|].
    destruct (decide (s < length (us_procs w))%nat); [lia|].
    rewrite moves_beyond in Hs by lia. by apply not_elem_of_nil in Hs.
  - intros (s & Hs & _). by exists s.
Qed.

Lemma uends_mono P n m w : ends image oracle P n w -> (n <= m)%nat -> ends image oracle P m w.
Proof.
  intros H. revert m. induction H as [n w Hs HP|n w Hex _ IH]; intros m Hm.
  - by apply ends_here.
  - destruct m as [|m]; [lia|]. apply ends_step; [done|]. intros w' Hw. apply IH; [done|lia].
Qed.

Lemma ends_weaken (P Q : usystem -> Prop) n w :
  (forall w, P w -> Q w) -> ends image oracle P n w -> ends image oracle Q n w.
Proof. intros HPQ. induction 1; [apply ends_here; auto|by apply ends_step]. Qed.

(** Executions from a state with its successors computed. *)
Lemma ends_list P n w l :
  successors image oracle w = l ->
  match l with [] => P w | _ :: _ => exists m, n = S m /\ Forall (ends image oracle P m) l end ->
  ends image oracle P n w.
Proof.
  intros E H. destruct l as [|w1 l].
  - apply ends_here; [|done]. intros w' Hw%ustep_successors. rewrite E in Hw. by apply not_elem_of_nil in Hw.
  - destruct H as (m & -> & HF). apply ends_step.
    + exists w1. apply ustep_successors. rewrite E. by left.
    + intros w' Hw%ustep_successors. rewrite E in Hw. by eapply Forall_forall in HF.
Qed.

(** Two processes that only ever meet at the points of a grid: [conf i j] is
    the state after [i] moves of the one and [j] of the other, whatever the
    order.  If at every point of the grid the only moves are to its
    neighbours, and only the corner has none, every execution ends there. *)
Lemma ends_grid (P : usystem -> Prop) (conf : nat -> nat -> usystem) (pt : nat -> nat -> bool) (I J : nat) :
  (forall i j, pt i j = true -> (i <= I)%nat /\ (j <= J)%nat) ->
  (forall i j, pt i j = true ->
     successors image oracle (conf i j) =
       (if pt (S i) j then [conf (S i) j] else []) ++ (if pt i (S j) then [conf i (S j)] else [])) ->
  (forall i j, pt i j = true -> pt (S i) j = false -> pt i (S j) = false -> P (conf i j)) ->
  forall i j, pt i j = true -> ends image oracle P (I - i + (J - j)) (conf i j).
Proof.
  intros Hb Hs HP. cut (forall n i j, (I - i + (J - j) = n)%nat -> pt i j = true -> ends image oracle P n (conf i j)).
  { intros H i j Hij. by apply (H _ _ _ eq_refl). }
  induction n as [n IH] using lt_wf_ind. intros i j Hn Hij.
  eapply ends_list; [by apply Hs|].
  destruct (pt (S i) j) eqn:E1, (pt i (S j)) eqn:E2; cbn [app].
  all: try (apply HP; done).
  all: pose proof (Hb _ _ Hij); try pose proof (Hb _ _ E1); try pose proof (Hb _ _ E2).
  all: exists (n - 1)%nat; split; [lia|]; repeat (apply Forall_cons_2 || apply Forall_nil_2);
    apply IH; (done || lia).
Qed.
End lemmas.

(** ** What every process execs

    A process's log: the results of the [read]s it has made, itself or before
    it was forked from its parent, as the trace records them. *)
Abbreviation rlog := (list (Z * (Z * list Z))).

Definition log_step (L : nat -> rlog) (e : uevent) : nat -> rlog :=
  match e with
  | ERead s fd r => fun i => if decide (i = s) then L s ++ [(fd, r)] else L i
  | EFork s c => fun i => if decide (i = c) then L s else L i
  | _ => L
  end.
Definition logs (tr : list uevent) : nat -> rlog := foldl log_step (fun _ => []) tr.

(** [obeys Q p t l]: whatever its calls answer, every image the program [p],
    with the descriptors [t] and the log [l], asks [exec] for satisfies [Q]
    together with its log and the descriptors it would inherit; the same holds
    for the children it forks. *)
Fixpoint obeys (Q : rlog -> ustr -> list ustr -> fds -> Prop) (p : prog unit) (t : fds) (l : rlog) : Prop :=
  match p with
  | PRet _ | PExit _ | PSpin => True
  | PCall c k =>
      match c return (ures c -> prog unit) -> Prop with
      | Spipe => fun k =>
          obeys Q (k None) t l /\
          forall a b n, fd_free t = Some a -> fd_free (<[a := Some (OPRead n)]> t) = Some b ->
            obeys Q (k (Some (Z.of_nat a, Z.of_nat b))) (<[b := Some (OPWrite n)]> (<[a := Some (OPRead n)]> t)) l
      | Sclose fd => fun k =>
          (forall o, fd_get t fd = Some o -> obeys Q (k 0) (fd_clear t fd) l) /\
          (fd_get t fd = None -> obeys Q (k (-1)) t l)
      | Sdup fd => fun k =>
          (forall o a, fd_get t fd = Some o -> fd_free t = Some a -> obeys Q (k (Z.of_nat a)) (<[a := Some o]> t) l) /\
          (fd_get t fd = None \/ fd_free t = None -> obeys Q (k (-1)) t l)
      | Sopen path mode => fun k =>
          obeys Q (k (-1)) t l /\
          forall a, fd_free t = Some a -> obeys Q (k (Z.of_nat a)) (<[a := Some (OFile path mode)]> t) l
      | Sexec path argv => fun k => Q l path argv t /\ obeys Q (k (-1)) t l
      | Sread fd n => fun k => forall r, obeys Q (k r) t (l ++ [(fd, r)])
      | _ => fun k => forall r, obeys Q (k r) t l
      end k
  end.

(** The processes still running the code they were started with obey [Q], and
    so do all the images they have loaded, with the log they had then. *)
Definition proc_obeys (Q : rlog -> ustr -> list ustr -> fds -> Prop) (l : rlog) (p : uprc) : Prop :=
  pr_execs p = 0%nat -> match pr_code p with URun c => obeys Q c (pr_fds p) l | _ => True end.

Record world_obeys (Q : rlog -> ustr -> list ustr -> fds -> Prop) (w : usystem) : Prop := {
  wo_procs : forall i p, us_procs w !! i = Some p -> proc_obeys Q (logs (us_trace w) i) p;
  wo_trace : forall tr s path argv t tr', us_trace w = tr ++ EExec s 0 path argv t :: tr' -> Q (logs tr s) path argv t }.

Lemma obeys_mono (Q Q' : rlog -> ustr -> list ustr -> fds -> Prop) :
  (forall l path argv t, Q l path argv t -> Q' l path argv t) ->
  forall p t l, obeys Q p t l -> obeys Q' p t l.
Proof.
  intros HQ. induction p as [a|st|c k IH|]; intros t l; cbn; try done.
  destruct c; cbn; try (by intros H r; apply IH); intros [H1 H2]; split; eauto.
Qed.

Lemma logs_snoc tr e : logs (tr ++ [e]) = log_step (logs tr) e.
Proof. unfold logs. by rewrite foldl_app. Qed.

Section obeying.
Context (image : ustr -> list ustr -> option (prog unit)) (oracle : forall c : usys, list (ures c)).
Context (Q : rlog -> ustr -> list ustr -> fds -> Prop).
Local Abbreviation ok := (proc_obeys Q).
Local Abbreviation wok := (world_obeys Q).

Lemma wok_upd s p w : wok w -> ok (logs (us_trace w) s) p -> wok (upd_proc s p w).
Proof.
  intros [H1 H2] Hp. split; [|done]. intros i q Hi. cbn in Hi |- *. destruct (decide (i = s)) as [->|Hne].
  - apply list_lookup_insert_Some in Hi as [(_ & <- & _)|[? _]]; done.
  - rewrite list_lookup_insert_ne in Hi by done. by apply H1.
Qed.

Lemma wok_pipe i b w : wok w -> wok (upd_pipe i b w).
Proof. by intros []. Qed.

(** A new event at the end of the trace, which is no exec. *)
Lemma wok_trace tr e :
  (forall tr1 s path argv t tr2, tr = tr1 ++ EExec s 0 path argv t :: tr2 -> Q (logs tr1 s) path argv t) ->
  (forall s path argv t, e = EExec s 0 path argv t -> Q (logs tr s) path argv t) ->
  forall tr1 s path argv t tr2, tr ++ [e] = tr1 ++ EExec s 0 path argv t :: tr2 -> Q (logs tr1 s) path argv t.
Proof.
  intros H He tr1 s path argv t tr2 E. destruct tr2 as [|e2 tr2] using rev_ind.
  - apply app_inj_tail in E as [-> ->]. by apply He.
  - rewrite app_comm_cons, app_assoc in E. apply app_inj_tail in E as [-> _]. by eapply H.
Qed.

Lemma wok_emit e w :
  wok w -> (forall i, log_step (logs (us_trace w)) e i = logs (us_trace w) i) ->
  (forall s path argv t, e = EExec s 0 path argv t -> Q (logs (us_trace w) s) path argv t) -> wok (emit e w).
Proof.
  intros [H1 H2] Hl He. split; [|by apply wok_trace]. intros i p Hi. cbn [emit us_trace]. rewrite logs_snoc, Hl. by apply H1.
Qed.

Lemma wok_cont s p t k w : wok w -> (pr_execs p = 0%nat -> obeys Q k t (logs (us_trace w) s)) -> wok (cont s p t k w).
Proof. intros Hw Hk. apply wok_upd; [done|]. intros E. by apply Hk. Qed.

(** The process reads. *)
Lemma wok_read s p fd r k w :
  wok w -> (pr_execs p = 0%nat -> obeys Q k (pr_fds p) (logs (us_trace w) s ++ [(fd, r)])) ->
  wok (emit (ERead s fd r) (cont s p (pr_fds p) k w)).
Proof.
  intros [H1 H2] Hk. split; [|by apply wok_trace].
  intros i q Hi. cbn [emit us_trace cont upd_proc us_procs] in *. rewrite logs_snoc. cbn [log_step].
  destruct (decide (i = s)) as [->|Hne].
  - apply list_lookup_insert_Some in Hi as [(_ & <- & _)|[? _]]; [|done]. intros E. by apply Hk.
  - rewrite list_lookup_insert_ne in Hi by done. by apply H1.
Qed.

(** The process forks. *)
Lemma wok_fork s p k w c (w1 := cont s p (pr_fds p) k w) :
  wok w -> (s < length (us_procs w))%nat -> (pr_execs p = 0%nat -> obeys Q k (pr_fds p) (logs (us_trace w) s)) ->
  ok (logs (us_trace w) s) c ->
  wok (emit (EFork s (length (us_procs w))) (Usystem (us_procs w1 ++ [c]) (us_pipes w1) (Pos.succ (us_nextpid w)) (us_trace w1))).
Proof.
  intros Hw Hs Hk Hc. destruct (wok_cont s p (pr_fds p) k w Hw Hk) as [H1 H2]. fold w1 in H1, H2. split; [|by apply wok_trace].
  intros i q Hi. cbn [emit us_trace us_procs] in *. rewrite logs_snoc. cbn [log_step].
  assert (HL : length (us_procs w1) = length (us_procs w)) by (cbn; apply length_insert).
  apply lookup_app_Some in Hi as [Hi|[Hge Hi]].
  - rewrite decide_False by (apply lookup_lt_Some in Hi; lia). by apply H1.
  - apply list_lookup_singleton_Some in Hi as [Hz <-]. rewrite decide_True by lia. exact Hc.
Qed.

(** A call whose results are all fine. *)
Lemma wok_ext s p c (k : ures c -> prog unit) w w' :
  wok w -> (pr_execs p = 0%nat -> forall r, obeys Q (k r) (pr_fds p) (logs (us_trace w) s)) -> w' ∈ ext_call oracle s p c k w -> wok w'.
Proof.
  intros Hw Hk (r & -> & _)%list_elem_of_fmap. apply wok_emit; [|done|done]. apply wok_cont; [done|]. intros E. by apply Hk.
Qed.

Lemma first_index_elem {A} (f : A -> bool) l i a : first_index f l = Some (i, a) -> l !! i = Some a.
Proof.
  revert i. induction l as [|x l IH]; intros i; cbn; [done|]. destruct (f x); [by intros [= <- ->]|].
  destruct (first_index f l) as [[j y]|]; cbn; [|done]. intros [= <- ->]. cbn. by apply IH.
Qed.

(** The members of a short list. *)
Ltac moves_in H :=
  repeat match type of H with
  | _ ∈ [] => by apply not_elem_of_nil in H
  | _ ∈ _ :: _ => apply elem_of_cons in H as [->|H]
  end.

Lemma read_obeys s p w fd n k w' :
  wok w -> (pr_execs p = 0%nat -> obeys Q (PCall (Sread fd n) k) (pr_fds p) (logs (us_trace w) s)) ->
  w' ∈ do_read oracle s p fd n k w -> wok w'.
Proof.
  intros Hw Hk HI. cbn [obeys] in Hk. unfold do_read in HI.
  destruct (fd_get _ _) as [[| i | i |]|]; try (moves_in HI; apply wok_read; [done|by intros E; apply Hk]).
  - apply list_elem_of_fmap in HI as (r & -> & _). apply wok_read; [done|by intros E; apply Hk].
  - destruct (us_pipes w !! i) as [[|z b]|]; [destruct (end_open _ _)| |]; moves_in HI;
      (apply wok_read; [try apply wok_pipe; done|by intros E; apply Hk]).
  - apply list_elem_of_fmap in HI as (r & -> & _). apply wok_read; [done|by intros E; apply Hk].
Qed.

Lemma call_obeys s p w c k w' :
  wok w -> us_procs w !! s = Some p -> (pr_execs p = 0%nat -> obeys Q (PCall c k) (pr_fds p) (logs (us_trace w) s)) ->
  w' ∈ do_call image oracle s p w c k -> wok w'.
Proof.
  intros Hw Hs Hk HI.
  destruct c; cbn [do_call] in HI.
  all: try (cbn [obeys] in Hk; by eapply wok_ext; [exact Hw|exact Hk|exact HI]).
  4: by eapply read_obeys.
  all: cbn [obeys] in Hk.
  - unfold do_fork in HI. moves_in HI; [by apply wok_cont; [|intros E; apply Hk]|].
    apply wok_fork; [done|by eapply lookup_lt_Some|by intros E; apply Hk|]. intros E. by apply Hk.
  - unfold do_wait in HI. destruct (first_index _ _) as [[i q]|] eqn:EF.
    + moves_in HI. apply wok_cont; [|by intros E; apply Hk]. apply wok_upd; [done|].
      pose proof (wo_procs Q w Hw i q (first_index_elem _ _ _ _ EF)) as Hq. unfold reap. by destruct (pr_code q).
    + destruct (existsb _ _); moves_in HI. apply wok_cont; [done|by intros E; apply Hk].
  - unfold do_pipe in HI. moves_in HI; [by apply wok_cont; [|intros E; apply Hk]|].
    destruct (fd_free (pr_fds p)) as [a|] eqn:Ea; [|moves_in HI].
    destruct (fd_free (<[a := _]> (pr_fds p))) as [b|] eqn:Eb; [|moves_in HI]. moves_in HI.
    destruct (wok_cont s p (<[b := Some (OPWrite (length (us_pipes w)))]> (<[a := Some (OPRead (length (us_pipes w)))]> (pr_fds p)))
      (k (Some (Z.of_nat a, Z.of_nat b))) w Hw) as [A1 A2]; [intros E; by apply Hk|]. by split.
  - unfold do_write in HI. destruct (fd_get _ _) as [[| i | i |]|]; try (by eapply wok_ext; [exact Hw|exact Hk|exact HI]);
      try (moves_in HI; apply wok_cont; [done|by intros E; apply Hk]).
    destruct (us_pipes w !! i) as [b|]; [|moves_in HI].
    repeat (case_decide || case_match); moves_in HI; (apply wok_cont; [try apply wok_pipe; done|]);
      intros E; (by apply Hk) || (cbn; intros r; by apply Hk).
  - unfold do_close in HI. destruct (fd_get _ _) as [o|] eqn:E; moves_in HI; (apply wok_cont; [done|]); intros E0.
    + by eapply (proj1 (Hk E0)).
    + by apply (proj2 (Hk E0)).
  - unfold do_dup in HI. destruct (fd_get _ _) as [o|] eqn:E, (fd_free _) as [a|] eqn:Ea; moves_in HI;
      (apply wok_cont; [done|]); intros E0; (by apply (proj1 (Hk E0))) || (apply (proj2 (Hk E0)); auto).
  - unfold do_open in HI. moves_in HI; [by apply wok_cont; [|intros E; apply Hk]|].
    destruct (fd_free _) as [a|] eqn:Ea; moves_in HI. apply wok_cont; [done|]. intros E. by apply (proj2 (Hk E)).
  - unfold do_exec in HI. moves_in HI; [by apply wok_cont; [|intros E; apply Hk]|].
    destruct (image path argv) as [code|]; moves_in HI. apply wok_emit; [|done|].
    + apply wok_upd; [done|]. by intros E.
    + intros s' path' argv' t' Heq. injection Heq as <- E <- <- <-. by apply Hk.
  - moves_in HI. apply wok_cont; [done|by intros E; apply Hk].
  - moves_in HI. apply wok_emit; [|done|done]. apply wok_cont; [done|by intros E; apply Hk].
  - moves_in HI. apply wok_emit; [|done|done]. apply wok_cont; [done|by intros E; apply Hk].
Qed.

Lemma exit_obeys s p st w : wok w -> wok (do_exit s p st w).
Proof.
  intros [H1 H2]. unfold do_exit. apply wok_upd; [|done]. split; [|done]. cbn [us_procs us_trace]. intros i q Hi.
  rewrite list_lookup_fmap in Hi. apply fmap_Some in Hi as (q0 & Hq & ->). specialize (H1 i q0 Hq). unfold orphan. destruct (is_child s q0); [|done]. exact H1.
Qed.

Lemma reach_obeys w0 w : wok w0 -> ureach image oracle w0 w -> wok w.
Proof.
  intros H0. induction 1 as [|w w' _ IH [s Hs]]; [done|]. unfold moves in Hs.
  destruct (us_procs w !! s) as [p|] eqn:Ep; [|by apply not_elem_of_nil in Hs].
  pose proof (wo_procs Q w IH s p Ep) as Hp.
  destruct (pr_code p) as [[u|st|c k|]|st|st] eqn:Ec; try (by apply not_elem_of_nil in Hs).
  - apply list_elem_of_singleton in Hs as ->. by apply exit_obeys.
  - apply list_elem_of_singleton in Hs as ->. by apply exit_obeys.
  - eapply call_obeys; [exact IH|exact Ep| |exact Hs]. intros E. specialize (Hp E). by rewrite Ec in Hp.
Qed.
End obeying.

(** ** Running one process at a time *)
Section running.
Context (image : ustr -> list ustr -> option (prog unit)) (oracle : forall c : usys, list (ures c)).
Local Abbreviation reach := (ureach image oracle).

Lemma reach_trans w1 w2 w3 : reach w1 w2 -> reach w2 w3 -> reach w1 w3.
Proof. intros H1 H2. induction H2; [done|by eapply ureach_step]. Qed.

Lemma reach_move w s w' : w' ∈ moves image oracle w s -> reach w w'.
Proof. intros H. eapply ureach_step; [apply ureach_init|by exists s]. Qed.

(** From [w] to [w'] only slot [s] and new processes have changed, and the new
    ones are nobody's children but those of [s] and of each other. *)
Record frame (w : usystem) (s : nat) (w' : usystem) : Prop := {
  fr_len : (length (us_procs w) <= length (us_procs w'))%nat;
  fr_same : forall i, (i < length (us_procs w))%nat -> i <> s -> us_procs w' !! i = us_procs w !! i;
  fr_new : forall i q j, (length (us_procs w) <= i)%nat -> us_procs w' !! i = Some q -> is_child j q = true ->
    j = s \/ (length (us_procs w) <= j < length (us_procs w'))%nat }.

Lemma uframe_refl w s : frame w s w.
Proof. split; [done|done|]. intros i q j Hi Hq. apply lookup_lt_Some in Hq. lia. Qed.

Lemma uframe_trans w1 w2 w3 s : (s < length (us_procs w1))%nat -> frame w1 s w2 -> frame w2 s w3 -> frame w1 s w3.
Proof.
  intros Hs [L1 S1 N1] [L2 S2 N2]. split; [lia| |].
  - intros i Hi Hne. rewrite S2 by (done || lia). by apply S1.
  - intros i q j Hi Hq Hj. destruct (decide (length (us_procs w2) <= i)%nat) as [Hlt|Hlt].
    + destruct (N2 i q j Hlt Hq Hj); [by left|right; lia].
    + rewrite S2 in Hq by lia. destruct (N1 i q j Hi Hq Hj); [by left|right; lia].
Qed.

(** Process [s] goes on by itself. *)
Lemma frame_cont w s p t k : frame w s (cont s p t k w).
Proof.
  split; cbn; rewrite ?length_insert; [done| |].
  - intros i Hi Hne. by rewrite list_lookup_insert_ne.
  - intros i q j Hi Hq. apply lookup_lt_Some in Hq. rewrite length_insert in Hq. lia.
Qed.

(** The state of slot [s]: its program and descriptors. *)
Definition at_slot (w : usystem) (s : nat) (pid : positive) (par : option nat) (t : fds) (k : prog unit) : Prop :=
  us_procs w !! s = Some (Uprc pid par t 0 (URun k)).

Lemma at_cont w s pid par t p t' k : at_slot w s pid par t p ->
  at_slot (cont s (Uprc pid par t 0 (URun p)) t' k w) s pid par t' k.
Proof. intros H. unfold at_slot, cont, upd_proc. cbn. apply list_lookup_insert_eq. by eapply lookup_lt_Some. Qed.

Lemma step_fork w s pid par t (k : Z -> prog unit) (cs := length (us_procs w)) :
  at_slot w s pid par t (PCall Sfork k) ->
  exists w', reach w w' /\ at_slot w' s pid par t (k (Zpos (us_nextpid w))) /\
    at_slot w' cs (us_nextpid w) (Some s) t (k 0) /\ frame w s w' /\ length (us_procs w') = S cs /\
    us_pipes w' = us_pipes w /\ us_trace w' = us_trace w ++ [EFork s cs].
Proof.
  intros HA. pose proof (lookup_lt_Some _ _ _ HA) as Hs. unfold at_slot in HA.
  eexists. split_and!; [apply (reach_move w s); unfold moves; rewrite HA; cbn; right; by left|..]; cbn.
  - unfold at_slot. cbn. rewrite lookup_app_l by (by rewrite length_insert). by apply list_lookup_insert_eq.
  - unfold at_slot. cbn. rewrite lookup_app_r by (by rewrite length_insert). by rewrite length_insert, Nat.sub_diag.
  - split; cbn; rewrite ?length_app, ?length_insert; [lia| |].
    + intros i Hi Hne. rewrite lookup_app_l by (by rewrite length_insert). by rewrite list_lookup_insert_ne.
    + intros i q j Hi Hq Hj. rewrite lookup_app_r in Hq by (rewrite length_insert; lia). rewrite length_insert in Hq.
      apply list_lookup_singleton_Some in Hq as [_ <-]. cbn in Hj. left. symmetry. by apply Nat.eqb_eq.
  - rewrite length_app, length_insert. cbn. lia.
  - done.
  - done.
Qed.

Lemma step_pipe w s pid par t (k : option (Z * Z) -> prog unit) a b (n := length (us_pipes w)) :
  at_slot w s pid par t (PCall Spipe k) -> fd_free t = Some a -> fd_free (<[a := Some (OPRead n)]> t) = Some b ->
  exists w', reach w w' /\
    at_slot w' s pid par (<[b := Some (OPWrite n)]> (<[a := Some (OPRead n)]> t)) (k (Some (Z.of_nat a, Z.of_nat b))) /\
    frame w s w' /\ length (us_procs w') = length (us_procs w) /\ length (us_pipes w') = S n /\ us_trace w' = us_trace w.
Proof.
  intros HA Ea Eb. pose proof HA as HA'. unfold at_slot in HA. eexists. split_and!.
  - apply (reach_move w s). unfold moves. rewrite HA. cbn. unfold do_pipe. cbn [pr_fds]. rewrite Ea. unfold n in Eb. rewrite Eb. right. by left.
  - unfold at_slot. cbn. apply list_lookup_insert_eq. by eapply lookup_lt_Some.
  - destruct (frame_cont w s (Uprc pid par t 0 (URun (PCall Spipe k))) (<[b := Some (OPWrite n)]> (<[a := Some (OPRead n)]> t))
      (k (Some (Z.of_nat a, Z.of_nat b)))) as [F1 F2 F3]. by split.
  - cbn. by rewrite length_insert.
  - cbn. rewrite length_app. cbn. unfold n. lia.
  - done.
Qed.

Lemma first_index_at {A} (f : A -> bool) (l : list A) i a :
  l !! i = Some a -> f a = true -> (forall j b, (j < i)%nat -> l !! j = Some b -> f b = false) -> first_index f l = Some (i, a).
Proof.
  revert i. induction l as [|x l IH]; intros [|i] Hi Ha Hb; cbn in *; try done.
  - injection Hi as ->. by rewrite Ha.
  - rewrite (Hb 0%nat x) by (done || lia). rewrite (IH i); [done|done|done|]. intros j b Hj Hlb. apply (Hb (S j)); [lia|done].
Qed.

(** [wait] reaps the first zombie child. *)
Lemma step_wait w s pid par t (k : Z -> prog unit) cs q :
  at_slot w s pid par t (PCall Swait k) -> us_procs w !! cs = Some q -> is_zombie_child s q = true -> cs <> s ->
  (forall i q', (i < cs)%nat -> us_procs w !! i = Some q' -> is_child s q' = false) ->
  exists w', reach w w' /\ at_slot w' s pid par t (k (Zpos (pr_pid q))) /\
    us_procs w' !! cs = Some (reap q) /\ (forall i, i <> s -> i <> cs -> us_procs w' !! i = us_procs w !! i) /\
    length (us_procs w') = length (us_procs w) /\ us_pipes w' = us_pipes w /\ us_trace w' = us_trace w.
Proof.
  intros HA Hq Hz Hne Hb. pose proof (lookup_lt_Some _ _ _ HA) as Hs. pose proof (lookup_lt_Some _ _ _ Hq) as Hcs. unfold at_slot in HA.
  eexists. split_and!.
  - apply (reach_move w s). unfold moves. rewrite HA. cbn. unfold do_wait.
    rewrite (first_index_at _ _ cs q); [by left|done|done|]. intros j b Hj Hlb. unfold is_zombie_child. by rewrite (Hb j).
  - unfold at_slot. cbn. apply list_lookup_insert_eq. by rewrite length_insert.
  - cbn. rewrite list_lookup_insert_ne by done. by apply list_lookup_insert_eq.
  - intros i H1 H2. cbn. by rewrite !list_lookup_insert_ne by done.
  - cbn. by rewrite !length_insert.
  - done.
  - done.
Qed.

(** Parents are slots of the list. *)
Definition parents_ok (w : usystem) : Prop :=
  forall i q j, us_procs w !! i = Some q -> is_child j q = true -> (j < length (us_procs w))%nat.

Lemma parents_frame w s w' :
  parents_ok w -> frame w s w' -> (s < length (us_procs w))%nat ->
  (forall q j, us_procs w' !! s = Some q -> is_child j q = true -> (j < length (us_procs w))%nat) -> parents_ok w'.
Proof.
  intros HP [L S N] Hs Hq i q j Hi Hj. destruct (decide (i = s)) as [->|Hne]; [specialize (Hq q j Hi Hj); lia|].
  destruct (decide (i < length (us_procs w))%nat) as [Hlt|Hlt].
  - rewrite S in Hi by done. specialize (HP i q j Hi Hj). lia.
  - destruct (N i q j ltac:(lia) Hi Hj); lia.
Qed.

(** The children of slot [s] are among [l]. *)
Definition kids_in (w : usystem) (s : nat) (l : list nat) : Prop :=
  forall i q, us_procs w !! i = Some q -> is_child s q = true -> i ∈ l.

Lemma kids_same w w' s pid par t k t' k' l :
  frame w s w' -> length (us_procs w') = length (us_procs w) -> at_slot w s pid par t k -> at_slot w' s pid par t' k' ->
  (kids_in w s l -> kids_in w' s l) /\ (parents_ok w -> parents_ok w').
Proof.
  intros F HL A A'. pose proof F as [L S N]. split.
  - intros HK i q Hi Hc. destruct (decide (i = s)) as [->|Hne].
    + apply (HK s _ A). unfold at_slot in A'. rewrite A' in Hi. by injection Hi as <-.
    + rewrite S in Hi; [by eapply HK|apply lookup_lt_Some in Hi; lia|done].
  - intros HP. apply (parents_frame w s); [done|done|by eapply lookup_lt_Some|].
    intros q j Hq Hj. apply (HP s _ j A). unfold at_slot in A'. rewrite A' in Hq. by injection Hq as <-.
Qed.

Definition no_kids (w : usystem) (s : nat) : Prop := kids_in w s [].

(** Slot [s] is a zombie, having changed nothing but itself and what it created. *)
Definition finished (w : usystem) (s : nat) (pid : positive) (par : option nat) (w' : usystem) : Prop :=
  (exists t g st, us_procs w' !! s = Some (Uprc pid par t g (UZombie st))) /\ frame w s w'.

(** [exit], after whatever slot [s] has done since [w0]. *)
Lemma step_exit w0 w s pid par t g st :
  us_procs w !! s = Some (Uprc pid par t g (URun (PExit st))) -> (s < length (us_procs w0))%nat -> no_kids w0 s -> frame w0 s w ->
  exists w', reach w w' /\ finished w0 s pid par w' /\ us_pipes w' = us_pipes w /\ us_trace w' = us_trace w.
Proof.
  intros HA Hs HN [L S N]. pose proof (lookup_lt_Some _ _ _ HA) as Hs'. eexists. split_and!.
  - apply (reach_move w s). unfold moves. rewrite HA. cbn. by left.
  - split; [eexists _, _, _; cbn; apply list_lookup_insert_eq; by rewrite length_fmap|].
    assert (HO : forall i, i <> s -> us_procs (do_exit s (Uprc pid par t g (URun (PExit st))) st w) !! i = orphan s <$> us_procs w !! i).
    { intros i Hne. cbn. rewrite list_lookup_insert_ne by done. apply list_lookup_fmap. }
    split.
    + cbn. rewrite length_insert, length_fmap. lia.
    + intros i Hi Hne. rewrite HO, S by done. destruct (us_procs w0 !! i) as [q|] eqn:E; [|done]. cbn. unfold orphan.
      destruct (is_child s q) eqn:Ec; [|done]. by apply (HN i q E), not_elem_of_nil in Ec.
    + intros i q j Hi Hq Hj. rewrite HO in Hq by lia. destruct (us_procs w !! i) as [q0|] eqn:E; [|done]. cbn in Hq. injection Hq as <-.
      unfold orphan in Hj. destruct (is_child s q0).
      * unfold is_child in Hj. cbn in Hj. by destruct (pr_code q0).
      * destruct (N i q0 j Hi E Hj); [by left|right]. cbn. rewrite length_insert, length_fmap. lia.
  - done.
  - done.
Qed.

(** Slot [s] moves from [w] to [w'] without an event or a new pipe. *)
Record quiet (w : usystem) (s : nat) (w' : usystem) : Prop := {
  qt_reach : reach w w';
  qt_frame : frame w s w';
  qt_len : length (us_procs w') = length (us_procs w);
  qt_pipes : us_pipes w' = us_pipes w;
  qt_trace : us_trace w' = us_trace w }.

(** A call of slot [s] that only changes its own state. *)
Lemma quiet_own w s pid par t c (k : ures c -> prog unit) r t' :
  at_slot w s pid par t (PCall c k) ->
  cont s (Uprc pid par t 0 (URun (PCall c k))) t' (k r) w ∈
    do_call image oracle s (Uprc pid par t 0 (URun (PCall c k))) w c k ->
  exists w', quiet w s w' /\ at_slot w' s pid par t' (k r).
Proof.
  intros HA HI. eexists. split; [|by eapply at_cont]. split; [|apply frame_cont|cbn; by rewrite length_insert|done|done].
  apply (reach_move w s). unfold moves. by rewrite HA.
Qed.

Lemma uquiet_trans w1 w2 w3 s : (s < length (us_procs w1))%nat -> quiet w1 s w2 -> quiet w2 s w3 -> quiet w1 s w3.
Proof.
  intros Hs [R1 F1 L1 P1 T1] [R2 F2 L2 P2 T2]. split; [by eapply reach_trans|by eapply uframe_trans|lia|congruence|congruence].
Qed.

Lemma quiet_slot w w' s : (s < length (us_procs w))%nat -> quiet w s w' -> (s < length (us_procs w'))%nat.
Proof. intros Hs [_ _ -> _ _]. done. Qed.

Lemma quiet_close w s pid par t fd o (k : Z -> prog unit) :
  at_slot w s pid par t (PCall (Sclose fd) k) -> fd_get t fd = Some o ->
  exists w', quiet w s w' /\ at_slot w' s pid par (fd_clear t fd) (k 0).
Proof. intros HA E. apply (quiet_own _ _ _ _ _ (Sclose fd) k 0 _ HA). cbn. unfold do_close. cbn [pr_fds]. rewrite E. by left. Qed.

Lemma quiet_dup w s pid par t fd o a (k : Z -> prog unit) :
  at_slot w s pid par t (PCall (Sdup fd) k) -> fd_get t fd = Some o -> fd_free t = Some a ->
  exists w', quiet w s w' /\ at_slot w' s pid par (<[a := Some o]> t) (k (Z.of_nat a)).
Proof. intros HA E1 E2. apply (quiet_own _ _ _ _ _ (Sdup fd) k _ _ HA). cbn. unfold do_dup. cbn [pr_fds]. rewrite E1, E2. by left. Qed.

Lemma quiet_open w s pid par t path mode a (k : Z -> prog unit) :
  at_slot w s pid par t (PCall (Sopen path mode) k) -> fd_free t = Some a ->
  exists w', quiet w s w' /\ at_slot w' s pid par (<[a := Some (OFile path mode)]> t) (k (Z.of_nat a)).
Proof.
  intros HA E. apply (quiet_own _ _ _ _ _ (Sopen path mode) k _ _ HA). cbn. unfold do_open. cbn [pr_fds]. rewrite E. right. by left.
Qed.

(** A zombie child is reaped: from what [s] had since [w0]. *)
Lemma reap_step w0 w s pid par t (k : Z -> prog unit) cs q l :
  (s < length (us_procs w0))%nat -> frame w0 s w -> parents_ok w -> at_slot w s pid par t (PCall Swait k) ->
  kids_in w s (cs :: l) -> Forall (fun i => cs < i)%nat l -> (length (us_procs w0) <= cs)%nat ->
  us_procs w !! cs = Some q -> is_zombie_child s q = true ->
  exists w' r, reach w w' /\ at_slot w' s pid par t (k r) /\ frame w0 s w' /\ parents_ok w' /\ kids_in w' s l /\
    (forall i, i <> s -> i <> cs -> us_procs w' !! i = us_procs w !! i) /\ us_pipes w' = us_pipes w /\ us_trace w' = us_trace w.
Proof.
  intros Hs [L S N] HP HA HK HF Hcs Hq Hz.
  assert (HR : forall j, is_child j (reap q) = false).
  { intros j. unfold is_zombie_child in Hz. apply andb_true_iff in Hz as [_ Hz]. unfold reap. destruct (pr_code q) eqn:E; try done.
    unfold is_child. cbn. by destruct (pr_parent q). }
  destruct (step_wait w s pid par t k cs q) as (w' & R & A & Hr & Ho & HL & P & T); [done|done|done|lia| |].
  { intros i q' Hi Hq'. destruct (is_child s q') eqn:Ec; [|done]. specialize (HK i q' Hq' Ec).
    apply elem_of_cons in HK as [->|HK]; [lia|]. rewrite Forall_forall in HF. specialize (HF i HK). lia. }
  assert (HI : forall i q' j, us_procs w' !! i = Some q' -> is_child j q' = true -> i <> cs /\
    exists q0, us_procs w !! i = Some q0 /\ is_child j q0 = true).
  { intros i q' j Hi Hc. destruct (decide (i = cs)) as [->|Hne]; [rewrite Hr in Hi; injection Hi as <-; by rewrite HR in Hc|].
    split; [done|]. destruct (decide (i = s)) as [->|Hns].
    - unfold at_slot in A, HA. rewrite A in Hi. injection Hi as <-. eexists. split; [exact HA|]. exact Hc.
    - rewrite Ho in Hi by done. by eexists. }
  exists w', (Zpos (pr_pid q)). split_and!; try done.
  - split; [lia| |].
    + intros i Hi Hne. rewrite Ho by lia. by apply S.
    + intros i q' j Hi Hq' Hj. destruct (HI i q' j Hq' Hj) as (_ & q0 & Hq0 & Hj0). rewrite HL. by apply (N i q0 j).
  - intros i q' j Hi Hj. destruct (HI i q' j Hi Hj) as (_ & q0 & Hq0 & Hj0). rewrite HL. by apply (HP i q0 j).
  - intros i q' Hi Hc. destruct (HI i q' s Hi Hc) as (Hne & q0 & Hq0 & Hj0). specialize (HK i q0 Hq0 Hj0).
    by apply elem_of_cons in HK as [?|?].
Qed.
End running.
