(* ===== verification/Uprogs.v ===== *)
(** * Small user programs: pingpong, sleep, init, echo, kill, ln, mkdir, zombie *)
From S2P Require Import Prelude CString Riscv Pipe Ulib Uproc.
Local Open Scope Z_scope.

(** ** user/pingpong.c and user/sleep.c

    Both programs call [printf] with a descriptor as the first argument, and
    pingpong calls [wait] without one: user.h declares [printf] with the format
    first and [wait] with a pointer, so these calls have no meaning in this
    repository.  What they do is a parameter of the programs: [printf_fd] and
    [wait_void]. *)
Section ill_typed.
Context (printf_fd : Z -> string -> list ustr -> list Z -> prog unit) (wait_void : prog unit).

Definition byteA : Z := 65.

Definition pingpong_child (pipe1 pipe2 : Z * Z) (byte : Z) : prog unit :=
  ucall (Sclose pipe1.2) ;;;
  ucall (Sclose pipe2.1) ;;;
  do! r <- ucall (Sread pipe1.1 1) in
  let byte := hd byte r.2 in
  do! me <- ucall Sgetpid in
  printf_fd 1 "%d: received ping\n" [] [me] ;;;
  ucall (Swrite pipe2.2 [byte]) ;;;
  ucall (Sclose pipe1.1) ;;;
  ucall (Sclose pipe2.2) ;;;
  uexit 0.

Definition pingpong_parent (pipe1 pipe2 : Z * Z) (byte : Z) : prog unit :=
  ucall (Sclose pipe1.1) ;;;
  ucall (Sclose pipe2.2) ;;;
  ucall (Swrite pipe1.2 [byte]) ;;;
  do! r <- ucall (Sread pipe2.1 1) in
  do! me <- ucall Sgetpid in
  printf_fd 1 "%d: received pong\n" [] [me] ;;;
  ucall (Sclose pipe1.2) ;;;
  ucall (Sclose pipe2.1) ;;;
  wait_void ;;;
  uexit 0.

Definition pingpong_main : prog unit :=
  let byte := byteA in
  let failed := (printf_fd 2 "pingpong: pipe failed\n" [] [] ;;; uexit 1)%uproc in
  do! p1 <- ucall Spipe in
  match p1 with
  | None => failed
  | Some pipe1 =>
      do! p2 <- ucall Spipe in
      match p2 with
      | None => failed
      | Some pipe2 =>
          do! pid <- ucall Sfork in
          if pid <? 0 then
            printf_fd 2 "pingpong: fork failed\n" [] [] ;;;
            uexit 1
          else if pid =? 0 then pingpong_child pipe1 pipe2 byte
          else pingpong_parent pipe1 pipe2 byte
      end
  end.

(** [argv] are the strings of the argument vector. [atoi] on a string as the kernel laid it out in memory. *)
Definition atoi_str (s : ustr) : option (outcome Z) := atoi (S (length s)) (store_bytes ∅ 1 (s ++ [0])) 1.

(** [atoi(s)] inside a program; a signed overflow is undefined. *)
Definition uatoi (s : ustr) : prog Z :=
  match atoi_str s with Some (Ret v) => PRet v | _ => PSpin end.

Definition sleep_main (argv : list ustr) : prog unit :=
  match argv with
  | _ :: arg :: _ =>
      do! ticks <- uatoi arg in
      if ticks <=? 0 then
        printf_fd 2 "sleep: invalid number of ticks\n" [] [] ;;;
        uexit 1
      else
        ucall (Ssleep ticks) ;;;
        uexit 0
  | _ =>
      printf_fd 2 "sleep: missing operand\n" [] [] ;;;
      uexit 1
  end.

End ill_typed.

(** The reading the authors seem to have had in mind: [fprintf], and [wait] with
    a null pointer. *)
Definition fprintf_reading (fd : Z) (fmt : string) (ss : list ustr) (ns : list Z) : prog unit :=
  ucall (Sprintf fd fmt ss ns) ;;; PRet tt.
Definition wait_reading : prog unit := ucall Swait ;;; PRet tt.

(** ** user/kill.c *)
Fixpoint kill_each (args : list ustr) : prog unit :=
  match args with
  | [] => PRet tt
  | a :: t => do! pid <- uatoi a in ucall (Skill pid) ;;; kill_each t
  end.

Definition kill_main (argv : list ustr) : prog unit :=
  if decide (length argv < 2)%nat then
    ucall (Sprintf 2 "usage: kill pid...\n" [] []) ;;;
    uexit 1
  else
    kill_each (tail argv) ;;;
    uexit 0.

(** ** user/ln.c *)
Definition ln_main (argv : list ustr) : prog unit :=
  match argv with
  | [_; old; new] =>
      do! r <- ucall (Slink old new) in
      (if (r : Z) <? 0 then ucall (Sprintf 2 "link %s %s: failed\n" [old; new] []) else PRet tt) ;;;
      uexit 0
  | _ =>
      ucall (Sprintf 2 "Usage: ln old new\n" [] []) ;;;
      uexit 1
  end.

(** ** user/mkdir.c *)
Fixpoint mkdir_each (args : list ustr) : prog unit :=
  match args with
  | [] => PRet tt
  | a :: t =>
      do! r <- ucall (Smkdir a) in
      if (r : Z) <? 0 then ucall (Sprintf 2 "mkdir: %s failed to create\n" [a] []) else mkdir_each t
  end.

Definition mkdir_main (argv : list ustr) : prog unit :=
  if decide (length argv < 2)%nat then
    ucall (Sprintf 2 "Usage: mkdir files...\n" [] []) ;;;
    uexit 1
  else
    mkdir_each (tail argv) ;;;
    uexit 0.

(** ** user/zombie.c *)
Definition zombie_main : prog unit :=
  do! pid <- ucall Sfork in
  (if 0 <? (pid : Z) then ucall (Ssleep 5) ;;; PRet tt else PRet tt) ;;;
  uexit 0.

(** ** user/init.c *)
Definition CONSOLE : Z := 1.

(** The inner loop: wait for the shell, at most [fuel] children. *)
Fixpoint init_wait (fuel : nat) (pid : Z) : prog unit :=
  match fuel with
  | O => PSpin
  | S f =>
      do! wpid <- ucall Swait in
      if (wpid : Z) =? pid then PRet tt
      else if (wpid : Z) <? 0 then
        ucall (Sprintf 1 "init: wait returned an error\n" [] []) ;;;
        uexit 1
      else init_wait f pid
  end.

(** The outer loop, for [rounds] shells. *)
Fixpoint init_loop (rounds fuel : nat) (sh : ustr) : prog unit :=
  match rounds with
  | O => PSpin
  | S n =>
      ucall (Sprintf 1 "init: starting sh\n" [] []) ;;;
      do! pid <- ucall Sfork in
      if (pid : Z) <? 0 then
        ucall (Sprintf 1 "init: fork failed\n" [] []) ;;;
        uexit 1
      else if (pid : Z) =? 0 then
        ucall (Sexec sh [sh]) ;;;
        ucall (Sprintf 1 "init: exec sh failed\n" [] []) ;;;
        uexit 1
      else
        init_wait fuel pid ;;;
        init_loop n fuel sh
  end.

Definition init_main (rounds fuel : nat) (console sh : ustr) : prog unit :=
  do! fd <- ucall (Sopen console O_RDWR) in
  (if (fd : Z) <? 0 then
     ucall (Smknod console CONSOLE 0) ;;;
     ucall (Sopen console O_RDWR) ;;;
     PRet tt
   else PRet tt) ;;;
  ucall (Sdup 0) ;;;
  ucall (Sdup 0) ;;;
  init_loop rounds fuel sh.

(** *** Every execution of pingpong *)
Definition std_fds : fds := [Some OConsole; Some OConsole; Some OConsole] ++ replicate 13 None.

(** A shell's child about to run the program [m]: the three standard
    descriptors are open; [c] is the next free process id. *)
Definition uboot (p c : positive) (m : prog unit) : usystem :=
  Usystem [Uprc p None std_fds 0 (URun m)] [] c [].

Definition codes (w : usystem) : list ucode := pr_code <$> us_procs w.

(** What was printed. *)
Definition prints (w : usystem) : list uevent :=
  omap (fun e => match e with EPrint _ _ _ _ _ => Some e | _ => None end) (us_trace w).

(** How pingpong may end. *)
Definition pp_exchanged (p c : positive) (w : usystem) : Prop :=
  prints w = [EPrint 1 1 "%d: received ping\n" [] [Zpos c]; EPrint 0 1 "%d: received pong\n" [] [Zpos p]] /\
  codes w = [UZombie 0; UReaped 0] /\ us_pipes w = [[]; []].

Definition pp_refused (w : usystem) : Prop :=
  codes w = [UZombie 1] /\
  (prints w = [EPrint 0 2 "pingpong: pipe failed\n" [] []] \/
   prints w = [EPrint 0 2 "pingpong: fork failed\n" [] []]).

(** A process that is alone and runs to its end. *)
Ltac run_alone tac :=
  repeat (eapply ends_list; [vm_compute; reflexivity|]; cbv iota;
          first [ eexists; split; [reflexivity|apply Forall_cons_2, Forall_nil_2] | tac ]).

Section pingpong.
Context (image : ustr -> list ustr -> option (prog unit)) (oracle : forall c : usys, list (ures c)).
Context (p c : positive).

(** The [n]-th move of slot [s]. *)
Definition pick (s n : nat) (w : usystem) : usystem := nth n (moves image oracle w s) w.

(** Both pipes and the fork succeeded. *)
Definition pp_forked : usystem := pick 0 1 (pick 0 1 (pick 0 1 (uboot p c (pingpong_main fprintf_reading wait_reading)))).

Definition pp_conf (i j : nat) : usystem :=
  Nat.iter (i - 3) (pick 0 0) (Nat.iter j (pick 1 0) (Nat.iter (i `min` 3) (pick 0 0) pp_forked)).

(** The child waits for the parent's third move, the parent for the child's
    sixth and, in [wait], for its last. *)
Definition pp_pt (i j : nat) : bool :=
  (i <=? 10)%nat && (j <=? 9)%nat && ((j <=? 2) || (3 <=? i))%nat && ((i <=? 3) || (6 <=? j))%nat && ((i <=? 8) || (9 <=? j))%nat.

Definition pp_points : list (nat * nat) :=
  filter (fun x => pp_pt x.1 x.2 = true) (i ← seq 0 11; j ← seq 0 10; [(i, j)]).

Lemma pp_points_spec i j : pp_pt i j = true -> (i, j) ∈ pp_points.
Proof.
  intros H. apply list_elem_of_filter. split; [done|].
  apply list_elem_of_bind. exists i. unfold pp_pt in H. rewrite !andb_true_iff, !Nat.leb_le in H.
  split; [|apply elem_of_seq; lia]. apply list_elem_of_bind. exists j. split; [by left|apply elem_of_seq; lia].
Qed.

Lemma pp_grid_ok :
  Forall (fun x => successors image oracle (pp_conf x.1 x.2) =
       (if pp_pt (S x.1) x.2 then [pp_conf (S x.1) x.2] else []) ++
       (if pp_pt x.1 (S x.2) then [pp_conf x.1 (S x.2)] else [])) pp_points.
Proof.
  let l := eval vm_compute in pp_points in change pp_points with l.
  repeat (apply Forall_cons_2; [vm_compute; reflexivity|]). apply Forall_nil_2.
Qed.

Lemma pp_conf_ends i j :
  pp_pt i j = true -> ends image oracle (pp_exchanged p c) (10 - i + (9 - j)) (pp_conf i j).
Proof.
  apply (ends_grid _ _ _ pp_conf pp_pt 10 9).
  - clear. intros i j H. unfold pp_pt in H. rewrite !andb_true_iff, !Nat.leb_le in H. lia.
  - clear. intros i j H%pp_points_spec. exact (proj1 (Forall_forall _ _) pp_grid_ok _ H).
  - clear. intros i j H E1 E2. assert (i = 10 /\ j = 9)%nat as [-> ->].
    { unfold pp_pt in *. revert H E1 E2.
      rewrite !andb_true_iff, !andb_false_iff, !orb_true_iff, !orb_false_iff, !Nat.leb_le, !Nat.leb_gt. lia. }
    by vm_compute.
Qed.

(** pingpong with the intended reading of its ill-typed calls, run by a process
    with the standard descriptors, in every
    interleaving of the parent and the child and whichever calls fail: every
    execution ends after at most 22 calls, with nobody blocked.  Either the
    child has printed that it received the ping and then the parent that it
    received the pong, each with its own process id, both have exited with
    status 0, the parent has reaped the child and nothing is left in the
    pipes; or a pipe or the fork was refused and the program has said so and
    exited with status 1. *)
Theorem pingpong_exchanges :
  ends image oracle (fun w => pp_exchanged p c w \/ pp_refused w) 22 (uboot p c (pingpong_main fprintf_reading wait_reading)).
Proof.
  do 3 (eapply ends_list; [vm_compute; reflexivity|]; eexists; split; [reflexivity|];
        apply Forall_cons_2; [run_alone ltac:(right; by vm_compute; auto)|apply Forall_cons_2, Forall_nil_2]).
  apply (ends_weaken _ _ (pp_exchanged p c)); [auto|]. exact (pp_conf_ends 0 0 eq_refl).
Qed.
End pingpong.

(** *** What sleep asks for *)
Definition is_digit (c : Z) : Prop := 48 <= c <= 57.

(** The number a string of digits denotes, continued from [n]. *)
Definition decimal (n : Z) (ds : list Z) : Z := foldl (fun n c => n * 10 + (c - 48)) n ds.

Lemma decimal_le n ds : 0 <= n -> Forall is_digit ds -> n <= decimal n ds.
Proof.
  intros Hn HF. unfold decimal. revert n Hn. induction HF as [|c ds Hc _ IH]; intros n Hn; cbn [foldl]; [lia|].
  unfold is_digit in Hc. etransitivity; [|apply IH; lia]. lia.
Qed.

Lemma atoi_loop_digits m ds : forall fuel s n,
  Forall is_digit ds -> (forall i c, ds !! i = Some c -> rd m (s + Z.of_nat i) = c) ->
  ~ is_digit (rd m (s + Z.of_nat (length ds))) -> 0 <= n -> decimal n ds + 48 < 2 ^ 31 -> (length ds < fuel)%nat ->
  atoi_loop fuel m s n = Some (Ret (decimal n ds)).
Proof.
  induction ds as [|c ds IH]; intros [|fuel] s n HF Hm He Hn Hv Hf; cbn [length] in *; try lia; cbn [atoi_loop].
  - rewrite Z.add_0_r in He. unfold is_digit in He.
    destruct (Z.leb_spec 48 (rd m s)), (Z.leb_spec (rd m s) 57); cbn [andb]; (done || lia).
  - inversion HF as [|? ? Hc HF']; subst. pose proof (Hm 0%nat c eq_refl) as R. rewrite Z.add_0_r in R. rewrite R.
    unfold is_digit in Hc. rewrite (proj2 (Z.leb_le 48 c)), (proj2 (Z.leb_le c 57)) by lia. cbn [andb].
    unfold decimal in Hv |- *. cbn [foldl] in Hv |- *. fold (decimal (n * 10 + (c - 48)) ds) in Hv |- *.
    pose proof (decimal_le (n * 10 + (c - 48)) ds ltac:(lia) HF').
    rewrite (proj2 (Z.leb_gt _ _)) by lia. rewrite IH; [by rewrite Z.add_sub_assoc|done| | |lia|by rewrite <- Z.add_sub_assoc|lia].
    + intros i d Hi. rewrite <- (Hm (S i) d Hi). f_equal. lia.
    + replace (s + 1 + Z.of_nat (length ds)) with (s + Z.of_nat (S (length ds))) by lia. done.
Qed.

Lemma atoi_str_digits ds rest :
  Forall is_digit ds -> (forall c, head rest = Some c -> ~ is_digit c) -> decimal 0 ds + 48 < 2 ^ 31 ->
  atoi_str (ds ++ rest) = Some (Ret (decimal 0 ds)).
Proof.
  intros HF HR Hv. unfold atoi_str, atoi.
  assert (Hrd : forall i c, (ds ++ rest ++ [0]) !! i = Some c -> rd (store_bytes ∅ 1 (ds ++ rest ++ [0])) (1 + Z.of_nat i) = c).
  { intros i c Hi. rewrite rd_store_bytes, decide_True by (apply lookup_lt_Some in Hi; lia).
    replace (Z.to_nat (1 + Z.of_nat i - 1)) with i by lia. by apply list_lookup_total_correct. }
  rewrite <- app_assoc. apply atoi_loop_digits; [done| | |done|done|rewrite length_app; lia].
  - intros i c Hi. apply Hrd. by apply lookup_app_l_Some.
  - destruct rest as [|c rest].
    + rewrite (Hrd (length ds) 0); [unfold is_digit; lia|]. rewrite lookup_app_r by lia. by rewrite Nat.sub_diag.
    + rewrite (Hrd (length ds) c); [by apply HR|]. rewrite lookup_app_r by lia. by rewrite Nat.sub_diag.
Qed.

Section sleep_program.
Context (image : ustr -> list ustr -> option (prog unit)) (oracle : forall c : usys, list (ures c)).

(** sleep.c with the intended reading of its ill-typed calls: given a string that starts with decimal digits, of a value
    that [atoi] computes without overflow, the program makes exactly one call
    of [sleep] with that value and exits with status 0 if the value is
    positive, and complains without sleeping and exits with status 1 if it is
    0 (a string without leading digits, "-3" for instance, has the value 0);
    without an argument it complains as well. *)
Theorem sleep_asks_for (p c : positive) (name : ustr) (ds rest : list Z) (more : list ustr) :
  Forall is_digit ds -> (forall d, head rest = Some d -> ~ is_digit d) -> decimal 0 ds + 48 < 2 ^ 31 ->
  ends image oracle (fun w =>
    if 0 <? decimal 0 ds then us_trace w = [ESleep 0 (decimal 0 ds)] /\ codes w = [UZombie 0]
    else us_trace w = [EPrint 0 2 "sleep: invalid number of ticks\n" [] []] /\ codes w = [UZombie 1])
    2 (uboot p c (sleep_main fprintf_reading (name :: (ds ++ rest) :: more))) /\
  ends image oracle (fun w =>
    us_trace w = [EPrint 0 2 "sleep: missing operand\n" [] []] /\ codes w = [UZombie 1])
    2 (uboot p c (sleep_main fprintf_reading [name])).
Proof.
  intros HD HR Hv. split; [|run_alone ltac:(by vm_compute)].
  unfold sleep_main, uatoi. rewrite atoi_str_digits by done. cbn [pbind].
  destruct (Z.leb_spec (decimal 0 ds) 0), (Z.ltb_spec 0 (decimal 0 ds)); try lia;
    generalize (decimal 0 ds); intros v; run_alone ltac:(by vm_compute).
Qed.
End sleep_program.

(** [sleep 42x] asks for 42 ticks. *)
Lemma sleep_asks_for_witness :
  ends (fun _ _ => None) (fun _ => []) (fun w => us_trace w = [ESleep 0 42] /\ codes w = [UZombie 0])
    2 (uboot 3 4 (sleep_main fprintf_reading [[115]; [52; 50; 120]])).
Proof.
  refine (proj1 (sleep_asks_for (fun _ _ => None) (fun _ => []) 3 4 [115] [52; 50] [120] [] _ _ _)).
  - repeat constructor; unfold is_digit; lia.
  - intros d [= <-]. unfold is_digit. lia.
  - vm_compute. done.
Defined.
