(* ===== verification/ShRun.v ===== *)
(** * The shell's execution of commands: user/sh.c

    [runcmd], [fork1], [getcmd] and [main] as programs of Uproc.v.  The tree
    comes from the parser of Sh.v together with the line after
    [nulterminate], in which its strings are C strings.  The specification
    ([leaf]) says which commands a tree runs and what their descriptors are. *)
From S2P Require Import Prelude Riscv Pipe Uproc Sh.
Local Open Scope Z_scope.

(** The C string at index [s] of the buffer [m]. *)
Fixpoint until_nul (l : list Z) : ustr :=
  match l with
  | [] => []
  | c :: t => if c =? 0 then [] else c :: until_nul t
  end.
Definition c_at (m : list Z) (s : nat) : ustr := until_nul (drop s m).

Definition sh_panic {A} (s : string) : prog A :=
  ucall (Sprintf 2 "%s\n" [bytes s] []) ;;;
  uexit 1.

Definition fork1 : prog Z :=
  do! pid <- ucall Sfork in
  if (pid : Z) =? -1 then sh_panic "fork" else PRet (pid : Z).

Fixpoint runcmd (m : list Z) (c : cmd) : prog unit :=
  match c with
  | EXEC argv =>
      match argv with
      | [] => uexit 1
      | (q, _) :: _ =>
          let path := c_at m q in
          ucall (Sexec path (map (fun t => c_at m (fst t)) argv)) ;;;
          ucall (Sprintf 2 "exec %s failed\n" [path] []) ;;;
          uexit 0
      end
  | REDIR c' file _ mode fd =>
      ucall (Sclose fd) ;;;
      do! r <- ucall (Sopen (c_at m file) mode) in
      if (r : Z) <? 0 then
        ucall (Sprintf 2 "open %s failed\n" [c_at m file] []) ;;;
        uexit 1
      else runcmd m c'
  | LIST l r =>
      do! pid <- fork1 in
      if pid =? 0 then runcmd m l
      else
        ucall Swait ;;;
        runcmd m r
  | PIPE l r =>
      do! pp <- ucall Spipe in
      match pp with
      | None => sh_panic "pipe"
      | Some (p0, p1) =>
          do! pid <- fork1 in
          if pid =? 0 then
            ucall (Sclose 1) ;;;
            ucall (Sdup p1) ;;;
            ucall (Sclose p0) ;;;
            ucall (Sclose p1) ;;;
            runcmd m l
          else
            do! pid <- fork1 in
            if pid =? 0 then
              ucall (Sclose 0) ;;;
              ucall (Sdup p0) ;;;
              ucall (Sclose p0) ;;;
              ucall (Sclose p1) ;;;
              runcmd m r
            else
              ucall (Sclose p0) ;;;
              ucall (Sclose p1) ;;;
              ucall Swait ;;;
              ucall Swait ;;;
              uexit 0
      end
  | BACK c' =>
      do! pid <- fork1 in
      if pid =? 0 then runcmd m c' else uexit 0
  end.

(** [gets(buf, nbuf)] of ulib.c: the bytes it stores before the NUL. *)
Fixpoint sh_gets (n : nat) : prog ustr :=
  match n with
  | O => PRet []
  | S n' =>
      do! r <- ucall (Sread 0 1) in
      if (r.1 : Z) <? 1 then PRet []
      else
        let c := hd 0 r.2 in
        if (c =? 10) || (c =? 13) then PRet [c]
        else do! t <- sh_gets n' in PRet (c :: t)
  end.

Definition SHBUF : nat := 100.

(** The line as a C string; [None] at the end of the input. *)
Definition getcmd : prog (option ustr) :=
  ucall (Swrite 2 [36; 32]) ;;;
  do! l <- sh_gets (SHBUF - 1) in
  let s := until_nul l in
  PRet (if decide (s = []) then None else Some s).

(** [while((fd = open("console", O_RDWR)) >= 0)], for at most [n] rounds:
    there are only [NOFILE] descriptors to go through. *)
Fixpoint open_console (n : nat) (console : ustr) : prog unit :=
  match n with
  | O => PSpin
  | S n' =>
      do! fd <- ucall (Sopen console O_RDWR) in
      if 0 <=? (fd : Z) then
        if 3 <=? (fd : Z) then ucall (Sclose fd) ;;; PRet tt else open_console n' console
      else PRet tt
  end.

(** [runcmd(parsecmd(buf))] *)
Definition run_line (s : ustr) : prog unit :=
  match parse s with
  | Ret (c, m) => runcmd m c
  | Panic e => sh_panic e
  | _ => PSpin
  end.

(** The command loop, for [n] lines. *)
Fixpoint sh_loop (n : nat) : prog unit :=
  match n with
  | O => PSpin
  | S n' =>
      do! l <- getcmd in
      match l with
      | None => uexit 0
      | Some s =>
          match s with
          | 99 :: 100 :: 32 :: dir =>
              let dir := take (length s - 4) dir in
              do! r <- ucall (Schdir dir) in
              (if (r : Z) <? 0 then ucall (Sprintf 2 "cannot cd %s\n" [dir] []) else PRet tt) ;;;
              sh_loop n'
          | _ =>
              do! pid <- fork1 in
              if pid =? 0 then run_line s
              else
                ucall Swait ;;;
                sh_loop n'
          end
      end
  end.

Definition sh_main (n : nat) (console : ustr) : prog unit :=
  open_console 16 console ;;;
  sh_loop n.

(** ** The lines of the input

    [log_gets n l]: the line that the results of [read] at the start of the log
    [l] make, of at most [n] bytes, and the rest of the log; a line ends with a
    newline or a carriage return, or where the input ends or fails.  [None] when
    the log stops before the line does. *)
Fixpoint log_gets (n : nat) (l : rlog) : option (ustr * rlog) :=
  match n, l with
  | O, _ => Some ([], l)
  | S _, [] => None
  | S n', (_, (r, data)) :: l' =>
      if r <? 1 then Some ([], l')
      else if (hd 0 data =? 10) || (hd 0 data =? 13) then Some ([hd 0 data], l')
      else prod_map (cons (hd 0 data)) id <$> log_gets n' l'
  end.

(** The complete lines of a log, each cut at its first NUL. *)
Fixpoint log_lines (fuel : nat) (l : rlog) : list ustr :=
  match fuel with
  | O => []
  | S f => match log_gets (SHBUF - 1) l with Some (x, l') => until_nul x :: log_lines f l' | None => [] end
  end.
Definition lines_of (l : rlog) : list ustr := log_lines (length l) l.

(** ** What a tree runs *)

(** Standard input, output and error. *)
Record stdio := Stdio { io_in : fobj; io_out : fobj; io_err : fobj }.

(** Exactly these three descriptors are open. *)
Definition io_fds (io : stdio) : fds := [Some (io_in io); Some (io_out io); Some (io_err io)] ++ replicate 13 None.

(** The command line [argv] runs with [io'] somewhere in the tree [c] that is
    run with [io]: a redirection replaces one descriptor, the sides of a
    pipeline get the two ends of one pipe. *)
Inductive leaf : scmd -> stdio -> list ustr -> stdio -> Prop :=
| leaf_exec argv io : argv <> [] -> leaf (SExec argv) io argv io
| leaf_in c f mode io argv io' :
    leaf c (Stdio (OFile f mode) (io_out io) (io_err io)) argv io' -> leaf (SRedir c f mode 0) io argv io'
| leaf_out c f mode io argv io' :
    leaf c (Stdio (io_in io) (OFile f mode) (io_err io)) argv io' -> leaf (SRedir c f mode 1) io argv io'
| leaf_left l r p io argv io' :
    leaf l (Stdio (io_in io) (OPWrite p) (io_err io)) argv io' -> leaf (SPipe l r) io argv io'
| leaf_right l r p io argv io' :
    leaf r (Stdio (OPRead p) (io_out io) (io_err io)) argv io' -> leaf (SPipe l r) io argv io'
| leaf_first l r io argv io' : leaf l io argv io' -> leaf (SList l r) io argv io'
| leaf_second l r io argv io' : leaf r io argv io' -> leaf (SList l r) io argv io'
| leaf_back c io argv io' : leaf c io argv io' -> leaf (SBack c) io argv io'.

(** The tree with the strings [runcmd] sees. *)
Fixpoint strings (m : list Z) (c : cmd) : scmd :=
  match c with
  | EXEC argv => SExec (map (fun t => c_at m (fst t)) argv)
  | REDIR c' f _ mode fd => SRedir (strings m c') (c_at m f) mode fd
  | PIPE l r => SPipe (strings m l) (strings m r)
  | LIST l r => SList (strings m l) (strings m r)
  | BACK c' => SBack (strings m c')
  end.

(** Redirections only of standard input and output. *)
Fixpoint redirs_std (c : cmd) : Prop :=
  match c with
  | EXEC _ => True
  | REDIR c' _ _ _ fd => (fd = 0 \/ fd = 1) /\ redirs_std c'
  | PIPE l r => redirs_std l /\ redirs_std r
  | LIST l r => redirs_std l /\ redirs_std r
  | BACK c' => redirs_std c'
  end.

(** ** Lemmas *)
Definition runs_leaf (sc : scmd) (io : stdio) (path : ustr) (argv : list ustr) (t : fds) : Prop :=
  exists io', leaf sc io argv io' /\ t = io_fds io' /\ head argv = Some path.

(** A program that reads nothing and runs only leaves of [sc]. *)
Section runcmd.
Context (lg : rlog).
Definition at_log (R : ustr -> list ustr -> fds -> Prop) (l : rlog) (path : ustr) (argv : list ustr) (t : fds) : Prop :=
  l = lg /\ R path argv t.

Lemma runs_leaf_sub sc sc' io io0 p :
  (forall argv io', leaf sc' io0 argv io' -> leaf sc io argv io') ->
  obeys (at_log (runs_leaf sc' io0)) p (io_fds io0) lg -> obeys (at_log (runs_leaf sc io)) p (io_fds io0) lg.
Proof. intros H. apply obeys_mono. intros l path argv t [-> (io' & HL & Ht)]. split; [done|]. exists io'. split; [by apply H|done]. Qed.

Lemma runcmd_obeys m c : forall io, redirs_std c -> obeys (at_log (runs_leaf (strings m c) io)) (runcmd m c) (io_fds io) lg.
Proof.
  induction c as [argv|c IH file efile mode fd|l IHl r IHr|l IHl r IHr|c IH]; intros io Hs; cbn [runcmd strings redirs_std] in *.
  - destruct argv as [|[q e] argv]; [done|]. cbn. split; [|done]. split; [done|]. eexists. split_and!; [by constructor|done|done].
  - destruct Hs as [Hfd Hs]. destruct Hfd as [-> | ->]; cbn [pbind ucall obeys].
    + split; [|by intros [=]]. intros o _. split; [by cbn|]. intros a [= <-]. cbn.
      apply (runs_leaf_sub _ (strings m c) io (Stdio (OFile (c_at m file) mode) (io_out io) (io_err io))); [by constructor|by apply IH].
    + split; [|by intros [=]]. intros o _. split; [by cbn|]. intros a [= <-]. cbn.
      apply (runs_leaf_sub _ (strings m c) io (Stdio (io_in io) (OFile (c_at m file) mode) (io_err io))); [by constructor|by apply IH].
  - destruct Hs as [Hl Hr]. cbn [pbind ucall obeys]. split; [by cbn|]. intros a b n [= <-] [= <-].
    cbn [pbind fork1 ucall obeys sh_panic]. intros pid1. destruct (pid1 =? -1); [by cbn|]. cbn [pbind].
    destruct (pid1 =? 0).
    { cbn [pbind ucall obeys]. split; [|by intros [=]]. intros o _. split; [|by intros [[=]|[=]]]. intros o2 a2 [= <-] [= <-].
      split; [|by intros [=]]. intros o3 _. split; [|by intros [=]]. intros o4 _.
      apply (runs_leaf_sub _ (strings m l) io (Stdio (io_in io) (OPWrite n) (io_err io))); [by intros; eapply leaf_left|by apply IHl]. }
    cbn [pbind ucall obeys]. intros pid2. destruct (pid2 =? -1); [by cbn|]. cbn [pbind].
    destruct (pid2 =? 0).
    { cbn [pbind ucall obeys]. split; [|by intros [=]]. intros o _. split; [|by intros [[=]|[=]]]. intros o2 a2 [= <-] [= <-].
      split; [|by intros [=]]. intros o3 _. split; [|by intros [=]]. intros o4 _.
      apply (runs_leaf_sub _ (strings m r) io (Stdio (OPRead n) (io_out io) (io_err io))); [by intros; eapply leaf_right|by apply IHr]. }
    cbn [pbind ucall obeys]. split; [|by intros [=]]. intros o _. split; [|by intros [=]]. done.
  - destruct Hs as [Hl Hr]. cbn [pbind fork1 ucall obeys]. intros pid. destruct (pid =? -1); [by cbn|]. cbn [pbind].
    destruct (pid =? 0).
    + apply (runs_leaf_sub _ (strings m l) io io); [by constructor|by apply IHl].
    + cbn [pbind ucall obeys]. intros _. apply (runs_leaf_sub _ (strings m r) io io); [by intros; apply leaf_second|by apply IHr].
  - cbn [pbind fork1 ucall obeys]. intros pid. destruct (pid =? -1); [by cbn|]. cbn [pbind]. destruct (pid =? 0); [|done].
    apply (runs_leaf_sub _ (strings m c) io io); [by constructor|by apply IH].
Qed.
End runcmd.

(** *** The trees of the parser *)

(** [returns m Q]: every result of [m] satisfies [Q]. *)
Definition returns {A} (m : M nat A) (Q : A -> Prop) : Prop := forall s a s', m s = (Ret a, s') -> Q a.

Lemma returns_bind {A B} (m : M nat A) (k : A -> M nat B) P Q :
  returns m P -> (forall a, P a -> returns (k a) Q) -> returns (bind m k) Q.
Proof.
  intros Hm Hk s b s'. unfold bind. destruct (m s) as [[a|?|?|?] s1] eqn:E; try done. by apply Hk, (Hm s a s1).
Qed.

Lemma returns_any {A} (m : M nat A) : returns m (fun _ => True).
Proof. done. Qed.

Lemma returns_seq {A B} (m : M nat A) (k : A -> M nat B) Q : (forall a, returns (k a) Q) -> returns (bind m k) Q.
Proof. intros H. eapply returns_bind; [apply returns_any|]. auto. Qed.

Lemma returns_ret {A} (a : A) (Q : A -> Prop) : Q a -> returns (ret a) Q.
Proof. intros H s b s' [= <- <-]. done. Qed.

Lemma returns_stop {A} (Q : A -> Prop) c e : returns (stall c) Q /\ returns (panic e) Q.
Proof. split; intros s a s' E; discriminate E. Qed.

Ltac ret_step :=
  match goal with
  | |- returns (panic _) _ => apply (returns_stop _ (Chan "" 0))
  | |- returns (stall _) _ => apply (returns_stop _ _ "")
  | |- returns (ret _) _ => apply returns_ret
  | |- returns (if ?b then _ else _) _ => destruct b
  end.

Definition std_redir (r : nat * nat * Z * Z) : Prop := r.2 = 0 \/ r.2 = 1.

Section trees.
Context (buf : list Z).

Lemma redirs_loop_std fuel : returns (parseredirs_loop buf fuel) (Forall std_redir).
Proof.
  induction fuel as [|fuel IH]; cbn [parseredirs_loop]; [ret_step|].
  apply returns_seq. intros b. ret_step; [ret_step; constructor|].
  apply returns_seq. intros [[tok q0] e0]. apply returns_seq. intros [[t q] eq]. ret_step; [ret_step|].
  eapply returns_bind; [exact IH|]. intros rest HR.
  repeat ret_step; try done; (constructor; [|done]); by (left + right).
Qed.

Lemma args_std fuel : forall argc, returns (parseargs buf fuel argc) (fun r => Forall std_redir r.2).
Proof.
  induction fuel as [|fuel IH]; intros argc; cbn [parseargs]; [ret_step|].
  apply returns_seq. intros b. ret_step; [ret_step; constructor|].
  apply returns_seq. intros [[tok q] eq]. ret_step; [ret_step; constructor|]. ret_step; [ret_step|]. ret_step; [ret_step|].
  eapply returns_bind; [apply redirs_loop_std|]. intros rs HR. eapply returns_bind; [apply IH|]. intros [args rs'] HR'.
  ret_step. cbn in *. by apply Forall_app.
Qed.

Lemma redircmds_std c rs : redirs_std c -> Forall std_redir rs -> redirs_std (foldl redircmd c rs).
Proof.
  intros Hc HF. revert c Hc. induction HF as [|[[[f e] mode] fd] rs Hr _ IH]; intros c Hc; [done|]. cbn [foldl]. apply IH. by split.
Qed.

Lemma back_std fuel : forall c, redirs_std c -> returns (back_loop buf fuel c) redirs_std.
Proof.
  induction fuel as [|fuel IH]; intros c Hc; cbn [back_loop]; [ret_step|]. apply returns_seq. intros b. ret_step; [|by ret_step].
  apply returns_seq. intros _. by apply IH.
Qed.

Lemma parser_std n :
  returns (parseline buf n) redirs_std /\ returns (parsepipe buf n) redirs_std /\
  returns (parseexec buf n) redirs_std /\ returns (parseblock buf n) redirs_std.
Proof.
  induction n as [|n (IL & IP & IE & IB)]; [split_and!; cbn; ret_step|].
  split_and!; cbn [parseline parsepipe parseexec parseblock].
  - eapply returns_bind; [exact IP|]. intros c Hc. eapply returns_bind; [by apply back_std|]. intros c2 Hc2.
    apply returns_seq. intros b. ret_step; [|by ret_step]. apply returns_seq. intros _.
    eapply returns_bind; [exact IL|]. intros r Hr. by ret_step.
  - eapply returns_bind; [exact IE|]. intros c Hc. apply returns_seq. intros b. ret_step; [|by ret_step].
    apply returns_seq. intros _. eapply returns_bind; [exact IP|]. intros r Hr. by ret_step.
  - apply returns_seq. intros b. ret_step; [exact IB|]. eapply returns_bind; [apply redirs_loop_std|]. intros rs HR.
    eapply returns_bind; [apply args_std|]. intros [args rs'] HR'. ret_step. apply redircmds_std; [done|]. by apply Forall_app.
  - apply returns_seq. intros b. ret_step; [ret_step|]. apply returns_seq. intros _. eapply returns_bind; [exact IL|]. intros c Hc.
    apply returns_seq. intros b2. ret_step; [ret_step|]. apply returns_seq. intros _. unfold parseredirs.
    eapply returns_bind; [apply redirs_loop_std|]. intros rs HR. ret_step. by apply redircmds_std.
Qed.

Lemma parse_std c m : parse buf = Ret (c, m) -> redirs_std c.
Proof.
  unfold parse. destruct (parsecmd buf 0%nat) as [o s] eqn:E. cbn. intros ->.
  assert (HR : returns (parsecmd buf) (fun r => redirs_std r.1)).
  { unfold parsecmd. eapply returns_bind; [apply parser_std|]. intros c' Hc. apply returns_seq. intros _. apply returns_seq. intros s'.
    by repeat ret_step. }
  exact (HR _ _ _ E).
Qed.
End trees.

(** *** The strings of the tree *)
Lemma until_nul_take n (l : list Z) :
  (forall k, (k < n)%nat -> exists c, l !! k = Some c /\ c <> 0) -> l !! n = Some 0 -> until_nul l = take n l.
Proof.
  revert l. induction n as [|n IH]; intros [|c l] Hk Hn; try done; cbn [until_nul take] in *.
  - cbn in Hn. simplify_eq. done.
  - destruct (Hk 0%nat ltac:(lia)) as (d & [= <-] & Hd). rewrite (proj2 (Z.eqb_neq _ _)) by done. f_equal. apply IH; [|done].
    intros k Hlt. apply (Hk (S k)). lia.
Qed.

Lemma until_nul_nonzero l : Forall (fun c => c <> 0) (until_nul l).
Proof. induction l as [|c l IH]; cbn; [done|]. destruct (Z.eqb_spec c 0); [done|]. by constructor. Qed.

Lemma nonzero_ch l k : Forall (fun c => c <> 0) l -> (k < length l)%nat -> ch l k <> 0.
Proof.
  intros HF Hk. unfold ch. destruct (lookup_lt_is_Some_2 _ _ Hk) as [c Hc]. rewrite (nth_lookup_Some _ _ _ _ Hc).
  rewrite Forall_lookup in HF. by eapply HF.
Qed.

(** After [nulterminate], [runcmd] sees the words of the line. *)
Lemma strings_denote buf c m :
  Forall (fun c => c <> 0) buf -> parse buf = Ret (c, m) -> strings m c = denote buf c.
Proof.
  intros HN HP. pose proof (parse_ends buf (fun k Hk => nonzero_ch _ k HN Hk)) as H. rewrite HP in H. destruct H as (HT & Hlen & HS).
  assert (HW : forall q e, (q, e) ∈ tokens c -> c_at m q = sub buf q e).
  { intros q e Hqe. destruct (HS q e Hqe) as [He Hk]. destruct (HT q e Hqe) as [T1 _ _]. unfold c_at, sub.
    rewrite (until_nul_take (e - q)).
    - apply list_eq. intros i. destruct (decide (i < e - q)%nat).
      + rewrite !lookup_take_lt, !lookup_drop by lia. apply Hk. lia.
      + by rewrite !lookup_take_ge by lia.
    - intros k Hlt. rewrite lookup_drop. destruct (Hk (q + k)%nat ltac:(lia)) as [-> _].
      destruct (lookup_lt_is_Some_2 buf (q + k)) as [d Hd]; [lia|]. exists d. split; [done|]. rewrite Forall_lookup in HN. by eapply HN.
    - rewrite lookup_drop. by replace (q + (e - q))%nat with e by lia. }
  clear HP HT HS. induction c as [argv|c IH file efile mode fd|l IHl r IHr|l IHl r IHr|c IH]; cbn [strings denote tokens] in *.
  - f_equal. apply map_ext_in. intros [q e] Hin. apply HW. by apply list_elem_of_In.
  - rewrite IH, (HW file efile); [done|set_solver|]. intros q e Hqe. apply HW. set_solver.
  - rewrite IHl, IHr; [done| |]; intros q e Hqe; apply HW; set_solver.
  - rewrite IHl, IHr; [done| |]; intros q e Hqe; apply HW; set_solver.
  - by rewrite IH.
Qed.

(** *** The shell as a whole *)

(** The command is one of the last line the process, or the shell it was forked
    from, has read. *)
Definition from_last_line (io : stdio) (l : rlog) (path : ustr) (argv : list ustr) (t : fds) : Prop :=
  exists line c m, last (lines_of l) = Some line /\ parse line = Ret (c, m) /\ runs_leaf (denote line c) io path argv t.

(** A log that consists of the whole lines [ls]. *)
Inductive whole : rlog -> list ustr -> Prop :=
| whole_nil : whole [] []
| whole_snoc l ls seg x : whole l ls -> seg <> [] ->
    (forall rest, log_gets (SHBUF - 1) (seg ++ rest) = Some (x, rest)) -> whole (l ++ seg) (ls ++ [until_nul x]).

Lemma whole_lines l ls : whole l ls ->
  (length ls <= length l)%nat /\
  forall rest fuel, (length ls <= fuel)%nat -> log_lines fuel (l ++ rest) = ls ++ log_lines (fuel - length ls) rest.
Proof.
  induction 1 as [|l ls seg x _ [IHl IH] Hne Hseg]; [by split; [|intros rest fuel _; rewrite Nat.sub_0_r]|].
  rewrite !length_app. cbn [length]. destruct seg as [|y seg]; [done|]. cbn [length]. split; [lia|].
  intros rest fuel Hf. rewrite <- app_assoc, IH, <- app_assoc by lia. f_equal.
  destruct (fuel - length ls)%nat as [|f] eqn:E; [lia|]. cbn [log_lines]. rewrite Hseg. cbn [app]. do 2 f_equal. lia.
Qed.

Lemma whole_lines_of l ls : whole l ls -> lines_of l = ls.
Proof.
  intros [HL H]%whole_lines. unfold lines_of. rewrite <- (app_nil_r l) at 2. rewrite H by done.
  destruct (length l - length ls)%nat; by rewrite app_nil_r.
Qed.

Lemma obeys_map Q {A B} (x : prog A) (g : A -> B) (f : B -> prog unit) : forall t l,
  obeys Q (pbind x (fun a => f (g a))) t l -> obeys Q (pbind (pbind x (fun a => PRet (g a))) f) t l.
Proof.
  induction x as [a|st|c k IH|]; intros t l; cbn; try done.
  destruct c; cbn; try (intros H r; by apply IH); intros [H1 H2]; split; eauto.
Qed.

(** [gets] returns the line its reads make. *)
Lemma obeys_gets Q t n : forall f l,
  (forall x seg, (forall rest, log_gets n (seg ++ rest) = Some (x, rest)) -> (n <> 0%nat -> seg <> []) -> obeys Q (f x) t (l ++ seg)) ->
  obeys Q (pbind (sh_gets n) f) t l.
Proof.
  induction n as [|n IH]; intros f l Hf; cbn [sh_gets pbind].
  { specialize (Hf [] []). rewrite app_nil_r in Hf. by apply Hf. }
  cbn [ucall pbind obeys]. intros [r data]. cbn [fst snd pbind].
  destruct (r <? 1) eqn:Er; [cbn [pbind]; apply Hf; [intros rest; cbn; by rewrite Er|done]|].
  destruct ((hd 0 data =? 10) || (hd 0 data =? 13)) eqn:Ec; [cbn [pbind]; apply Hf; [intros rest; cbn; by rewrite Er, Ec|done]|].
  apply obeys_map, IH. intros x seg Hx _. rewrite <- app_assoc. apply Hf; [|done].
  intros rest. cbn [app log_gets]. rewrite Er, Ec, Hx. done.
Qed.

Lemma obeys_getcmd Q t f l ls : whole l ls ->
  (forall l' x, whole l' (ls ++ [x]) -> Forall (fun c => c <> 0) x ->
     obeys Q (f (if decide (x = []) then None else Some x)) t l') ->
  obeys Q (pbind getcmd f) t l.
Proof.
  intros HW Hf. unfold getcmd. cbn [pbind ucall obeys]. intros _.
  apply (obeys_map Q _ (fun l => if decide (until_nul l = []) then None else Some (until_nul l))), obeys_gets.
  intros x seg Hx Hne. apply Hf; [|apply until_nul_nonzero]. apply whole_snoc; [done|by apply Hne|done].
Qed.

Lemma run_line_obeys io s l ls : whole l (ls ++ [s]) -> Forall (fun c => c <> 0) s ->
  obeys (from_last_line io) (run_line s) (io_fds io) l.
Proof.
  intros HW HN. unfold run_line. destruct (parse s) as [[c m]|e|?|?] eqn:E; try done.
  eapply obeys_mono; [|apply runcmd_obeys, (parse_std _ _ _ E)]. intros l' path argv t [-> HL].
  exists s, c, m. split_and!; [by rewrite (whole_lines_of _ _ HW), last_snoc|done|]. by rewrite <- (strings_denote _ _ _ HN E).
Qed.

Lemma sh_loop_obeys io n : forall l ls, whole l ls -> obeys (from_last_line io) (sh_loop n) (io_fds io) l.
Proof.
  induction n as [|n IH]; intros l ls HW; [done|]. cbn [sh_loop]. eapply obeys_getcmd; [exact HW|]. intros l' s HW' HN.
  case_decide; [done|].
  assert (HR : obeys (from_last_line io) (pbind fork1 (fun pid => if pid =? 0 then run_line s else pbind (ucall Swait) (fun _ => sh_loop n))) (io_fds io) l').
  { cbn [fork1 pbind ucall obeys]. intros pid. destruct (pid =? -1); [by cbn|]. cbn [pbind]. destruct (pid =? 0); [by eapply run_line_obeys|].
    cbn [pbind ucall obeys]. intros _. by eapply IH. }
  repeat (case_match; try exact HR). cbn [pbind ucall obeys]. intros r. destruct (r <? 0); cbn [pbind ucall obeys]; [intros _|]; by eapply IH.
Qed.

Lemma sh_main_obeys io n console : obeys (from_last_line io) (sh_main n console) (io_fds io) [].
Proof.
  unfold sh_main. cbn [open_console pbind ucall obeys]. split; [exact (sh_loop_obeys io n [] [] whole_nil)|]. intros a [= <-].
  cbn [Z.of_nat Z.leb Z.compare pbind ucall obeys]. split; [|by intros [=]]. intros o _. exact (sh_loop_obeys io n [] [] whole_nil).
Qed.

(** *** Running a tree to its end *)

(** The commands of a tree in the order in which a shell runs them, with
    their descriptors; [n] is the number of the next pipe. *)
Fixpoint leaves (c : scmd) (io : stdio) (n : nat) : list (list ustr * stdio) * nat :=
  match c with
  | SExec argv => (if decide (argv = []) then [] else [(argv, io)], n)
  | SRedir c' f mode fd =>
      leaves c' (if fd =? 0 then Stdio (OFile f mode) (io_out io) (io_err io) else Stdio (io_in io) (OFile f mode) (io_err io)) n
  | SPipe l r =>
      let '(a, n1) := leaves l (Stdio (io_in io) (OPWrite n) (io_err io)) (S n) in
      let '(b, n2) := leaves r (Stdio (OPRead n) (io_out io) (io_err io)) n1 in (a ++ b, n2)
  | SList l r =>
      let '(a, n1) := leaves l io n in
      let '(b, n2) := leaves r io n1 in (a ++ b, n2)
  | SBack c' => leaves c' io n
  end.

(** The images loaded by processes of the shell, in order. *)
Definition loaded (e : uevent) : option (list ustr * fds) :=
  match e with EExec _ 0 _ argv t => Some (argv, t) | _ => None end.
Definition execd (w : usystem) : list (list ustr * fds) := omap loaded (us_trace w).

Section tree.
Context (image : ustr -> list ustr -> option (prog unit)) (oracle : forall c : usys, list (ures c)) (m : list Z).
(** Every command loads, and exits. *)
Hypothesis Himage : forall path argv, image path argv = Some (PExit 0).
Local Abbreviation reach := (ureach image oracle).

(** What running the tree [c] in slot [s] comes to. *)
Definition ran (c : scmd) (io : stdio) (w : usystem) (s : nat) (pid : positive) (par : option nat) (w' : usystem) : Prop :=
  reach w w' /\ finished w s pid par w' /\
  execd w' = execd w ++ map (prod_map id io_fds) (leaves c io (length (us_pipes w))).1 /\
  length (us_pipes w') = (leaves c io (length (us_pipes w))).2.

(** Preceded by moves of the same slot that only prepare it. *)
Lemma ran_after c c' io io' w1 w2 w' s pid par :
  (s < length (us_procs w1))%nat -> quiet image oracle w1 s w2 -> ran c' io' w2 s pid par w' ->
  leaves c io (length (us_pipes w2)) = leaves c' io' (length (us_pipes w2)) -> ran c io w1 s pid par w'.
Proof.
  intros Hs [R F L P T] (R2 & [Z2 F2] & E2 & N2) EL. unfold ran. rewrite <- P, EL. unfold execd in *. rewrite <- T.
  split_and!; [by eapply reach_trans|split; [done|by eapply uframe_trans]|done|done].
Qed.

(** Slot [s] forks a child that runs a tree to its end before [s] goes on. *)
Lemma fork_child sc io w s pid par t (k : Z -> prog unit) l (cs := length (us_procs w)) :
  at_slot w s pid par t (PCall Sfork k) -> parents_ok w -> kids_in w s l ->
  (forall w1, at_slot w1 cs (us_nextpid w) (Some s) t (k 0) -> parents_ok w1 -> no_kids w1 cs ->
     exists w2, ran sc io w1 cs (us_nextpid w) (Some s) w2) ->
  exists w2 q, reach w w2 /\ at_slot w2 s pid par t (k (Zpos (us_nextpid w))) /\ frame w s w2 /\ parents_ok w2 /\
    kids_in w2 s (l ++ [cs]) /\ us_procs w2 !! cs = Some q /\ is_zombie_child s q = true /\
    execd w2 = execd w ++ map (prod_map id io_fds) (leaves sc io (length (us_pipes w))).1 /\
    length (us_pipes w2) = (leaves sc io (length (us_pipes w))).2.
Proof.
  intros HA HP HK HC. pose proof (lookup_lt_Some _ _ _ HA) as Hs. fold cs in Hs.
  destruct (step_fork image oracle w s pid par t k HA) as (w1 & R1 & A1 & C1 & F1 & L1 & P1 & T1). fold cs in C1, L1.
  pose proof F1 as [_ S1 N1].
  assert (HP1 : parents_ok w1).
  { apply (parents_frame w s); [done|done|done|]. intros q j Hq Hj. apply (HP s _ j HA). unfold at_slot in A1. rewrite A1 in Hq. by injection Hq as <-. }
  assert (HN1 : no_kids w1 cs).
  { intros i q Hi Hc. exfalso. destruct (decide (i = s)) as [->|Hne].
    - unfold at_slot in A1. rewrite A1 in Hi. injection Hi as <-. specialize (HP s _ cs HA Hc). unfold cs in HP. lia.
    - destruct (decide (i < cs)%nat) as [Hlt|Hlt].
      + rewrite S1 in Hi by done. specialize (HP i q cs Hi Hc). unfold cs in HP. lia.
      + pose proof (lookup_lt_Some _ _ _ Hi). assert (i = cs) as -> by lia. unfold at_slot in C1. rewrite C1 in Hi. injection Hi as <-.
        cbn in Hc. apply Nat.eqb_eq in Hc. lia. }
  destruct (HC w1 C1 HP1 HN1) as (w2 & R2 & [(t2 & g & st & Hz) F2] & E2 & Q2). pose proof F2 as [L2 S2 N2].
  assert (HP2 : parents_ok w2).
  { apply (parents_frame w1 cs); [done|done|lia|]. intros q j Hq Hj. rewrite Hz in Hq. injection Hq as <-. cbn in Hj. apply Nat.eqb_eq in Hj. lia. }
  unfold execd in *. rewrite P1, T1, omap_app, app_nil_r in *. eexists w2, _. split_and!; try done.
  - by eapply reach_trans.
  - unfold at_slot. rewrite S2 by lia. exact A1.
  - split; [fold cs; lia| |].
    + intros i Hi Hne. rewrite S2 by (fold cs in Hi; lia). by apply S1.
    + intros i q j Hi Hq Hj. fold cs in Hi |- *. destruct (decide (i = cs)) as [->|Hne].
      * rewrite Hz in Hq. injection Hq as <-. cbn in Hj. apply Nat.eqb_eq in Hj. by left.
      * destruct (N2 i q j ltac:(lia) Hq Hj); right; lia.
  - intros i q Hi Hc. apply elem_of_app. destruct (decide (i = cs)) as [->|Hne]; [right; by left|]. left.
    destruct (decide (i < cs)%nat) as [Hlt|Hlt]; [|destruct (N2 i q s ltac:(lia) Hi Hc); lia].
    rewrite S2 in Hi by lia. destruct (decide (i = s)) as [->|Hns].
    + unfold at_slot in A1. rewrite A1 in Hi. injection Hi as <-. by apply (HK s _ HA).
    + rewrite S1 in Hi by done. by apply (HK i q).
  - unfold is_zombie_child. cbn. by rewrite Nat.eqb_refl.
Qed.

Lemma run_exec w s pid par t path argv (k : Z -> prog unit) :
  at_slot w s pid par t (PCall (Sexec path argv) k) -> no_kids w s ->
  exists w', reach w w' /\ finished w s pid par w' /\ execd w' = execd w ++ [(argv, t)] /\ us_pipes w' = us_pipes w.
Proof.
  intros HA HN. pose proof (lookup_lt_Some _ _ _ HA) as Hs. unfold at_slot in HA.
  set (w1 := emit (EExec s 0 path argv t) (upd_proc s (Uprc pid par t 1 (URun (PExit 0))) w)).
  assert (F : frame w s w1).
  { split; cbn; rewrite ?length_insert; [done| |].
    - intros i Hi Hne. by rewrite list_lookup_insert_ne.
    - intros i q j Hi Hq. apply lookup_lt_Some in Hq. rewrite length_insert in Hq. lia. }
  destruct (step_exit image oracle w w1 s pid par t 1 0) as (w2 & R & HF & P & T); [by apply list_lookup_insert_eq|done|done|done|].
  exists w2. split_and!; [|done| |done].
  - eapply reach_trans; [|exact R]. apply (reach_move _ _ w s). unfold moves. rewrite HA. cbn. unfold do_exec. rewrite Himage. right. by left.
  - unfold execd. rewrite T. cbn. by rewrite omap_app.
Qed.

(** [runcmd] on a tree it can run. *)
Definition runs_tree (c : cmd) : Prop := forall io w s pid par,
  at_slot w s pid par (io_fds io) (runcmd m c) -> parents_ok w -> no_kids w s ->
  exists w', ran (strings m c) io w s pid par w'.

(** Preparations of slot [s], then a tree. *)
Lemma runs_tree_after c sc io io' w w1 s pid par t k :
  at_slot w s pid par t k -> quiet image oracle w s w1 -> at_slot w1 s pid par (io_fds io') (runcmd m c) ->
  runs_tree c -> parents_ok w -> no_kids w s ->
  (forall n, leaves sc io n = leaves (strings m c) io' n) -> exists w', ran sc io w s pid par w'.
Proof.
  intros A Q A1 HT HP HN HL. pose proof Q as [R F L P T].
  destruct (kids_same w w1 s pid par _ _ _ _ [] F L A A1) as [HK HP1].
  destruct (HT io' w1 s pid par A1 (HP1 HP) (HK HN)) as [w' Hw]. exists w'.
  eapply ran_after; [by eapply lookup_lt_Some|exact Q|exact Hw|apply HL].
Qed.

Lemma run_redir c file efile mode fd : fd = 0 \/ fd = 1 -> runs_tree c -> runs_tree (REDIR c file efile mode fd).
Proof.
  intros Hfd HT io w s pid par HA HP HN. cbn [runcmd strings] in *. pose proof (lookup_lt_Some _ _ _ HA) as Hs.
  destruct Hfd as [-> | ->].
  - destruct (quiet_close image oracle w s pid par _ 0 (io_in io) _ HA) as (w1 & Q1 & A1); [done|]. cbn [pbind] in A1.
    destruct (quiet_open image oracle w1 s pid par _ (c_at m file) mode 0 _ A1) as (w2 & Q2 & A2); [done|].
    cbn in A2. eapply (runs_tree_after c _ io (Stdio (OFile (c_at m file) mode) (io_out io) (io_err io))); [exact HA| |exact A2|done..].
    by eapply uquiet_trans.
  - destruct (quiet_close image oracle w s pid par _ 1 (io_out io) _ HA) as (w1 & Q1 & A1); [done|]. cbn [pbind] in A1.
    destruct (quiet_open image oracle w1 s pid par _ (c_at m file) mode 1 _ A1) as (w2 & Q2 & A2); [done|].
    cbn in A2. eapply (runs_tree_after c _ io (Stdio (io_in io) (OFile (c_at m file) mode) (io_err io))); [exact HA| |exact A2|done..].
    by eapply uquiet_trans.
Qed.

Lemma run_list l r : runs_tree l -> runs_tree r -> runs_tree (LIST l r).
Proof.
  intros Hl Hr io w s pid par HA HP HN. pose proof (lookup_lt_Some _ _ _ HA) as Hs. cbn [runcmd strings fork1 pbind ucall] in HA.
  destruct (fork_child (strings m l) io w s pid par _ _ [] HA HP HN) as (w2 & q & R2 & A2 & F2 & P2 & K2 & C2 & Z2 & E2 & N2).
  { intros w1 A1. by apply Hl. }
  cbn [pbind ucall Z.eqb] in A2.
  destruct (reap_step image oracle w w2 s pid par _ _ (length (us_procs w)) q [] Hs F2 P2 A2 K2) as (w3 & rr & R3 & A3 & F3 & P3 & K3 & _ & Q3 & T3);
    [done|done|done|done|].
  destruct (Hr io w3 s pid par A3 P3 K3) as (w4 & R4 & [Z4 F4] & E4 & N4). exists w4. cbn [strings]. unfold ran, execd in *. cbn [leaves].
  destruct (leaves (strings m l) io (length (us_pipes w))) as [a n1] eqn:El. cbn [fst snd] in *.
  rewrite Q3, N2, T3, E2 in *. destruct (leaves (strings m r) io n1) as [b n2] eqn:Er. cbn [fst snd] in *.
  split_and!; [eapply reach_trans; [exact R2|]; by eapply reach_trans|split; [done|by eapply uframe_trans]| |done].
  by rewrite map_app, app_assoc.
Qed.

Lemma run_back c : runs_tree c -> runs_tree (BACK c).
Proof.
  intros Hc io w s pid par HA HP HN. pose proof (lookup_lt_Some _ _ _ HA) as Hs. cbn [runcmd strings fork1 pbind ucall] in HA.
  destruct (fork_child (strings m c) io w s pid par _ _ [] HA HP HN) as (w2 & q & R2 & A2 & F2 & P2 & K2 & C2 & Z2 & E2 & N2).
  { intros w1 A1. by apply Hc. }
  destruct (step_exit image oracle w w2 s pid par _ 0 0 A2 Hs HN F2) as (w3 & R3 & HF & Q3 & T3).
  exists w3. unfold ran, execd in *. rewrite Q3, T3. cbn [strings leaves]. split_and!; [by eapply reach_trans|done|done|done].
Qed.

(** The descriptors of the shell between [pipe] and the closing of its ends. *)
Definition pipe_fds (io : stdio) (n : nat) : fds :=
  [Some (io_in io); Some (io_out io); Some (io_err io); Some (OPRead n); Some (OPWrite n)] ++ replicate 11 None.

Ltac quiet_chain H :=
  first [ eassumption
        | eapply uquiet_trans; [exact H|eassumption|];
          let H' := fresh in
          match goal with Q : quiet _ _ _ ?s ?w |- quiet _ _ ?w ?s _ => pose proof (quiet_slot _ _ _ w s H Q) as H'; quiet_chain H' end ].

(** The left side moves the write end to descriptor 1. *)
Lemma run_left c io n w s pid par :
  runs_tree c -> parents_ok w -> no_kids w s ->
  at_slot w s pid par (pipe_fds io n)
    (ucall (Sclose 1) ;;; ucall (Sdup 4) ;;; ucall (Sclose 3) ;;; ucall (Sclose 4) ;;; runcmd m c)%uproc ->
  exists w', ran (strings m c) (Stdio (io_in io) (OPWrite n) (io_err io)) w s pid par w'.
Proof.
  intros HT HP HN HA. pose proof (lookup_lt_Some _ _ _ HA) as Hs.
  destruct (quiet_close image oracle w s pid par _ 1 (io_out io) _ HA) as (w1 & Q1 & A1); [done|]. cbn [pbind ucall] in A1.
  destruct (quiet_dup image oracle w1 s pid par _ 4 (OPWrite n) 1 _ A1) as (w2 & Q2 & A2); [done|done|]. cbn [pbind ucall] in A2.
  destruct (quiet_close image oracle w2 s pid par _ 3 (OPRead n) _ A2) as (w3 & Q3 & A3); [done|]. cbn [pbind ucall] in A3.
  destruct (quiet_close image oracle w3 s pid par _ 4 (OPWrite n) _ A3) as (w4 & Q4 & A4); [done|].
  eapply (runs_tree_after c _ _ (Stdio (io_in io) (OPWrite n) (io_err io)) w w4); [exact HA| |exact A4|done..].
  quiet_chain Hs.
Qed.

(** The right side moves the read end to descriptor 0. *)
Lemma run_right c io n w s pid par :
  runs_tree c -> parents_ok w -> no_kids w s ->
  at_slot w s pid par (pipe_fds io n)
    (ucall (Sclose 0) ;;; ucall (Sdup 3) ;;; ucall (Sclose 3) ;;; ucall (Sclose 4) ;;; runcmd m c)%uproc ->
  exists w', ran (strings m c) (Stdio (OPRead n) (io_out io) (io_err io)) w s pid par w'.
Proof.
  intros HT HP HN HA. pose proof (lookup_lt_Some _ _ _ HA) as Hs.
  destruct (quiet_close image oracle w s pid par _ 0 (io_in io) _ HA) as (w1 & Q1 & A1); [done|]. cbn [pbind ucall] in A1.
  destruct (quiet_dup image oracle w1 s pid par _ 3 (OPRead n) 0 _ A1) as (w2 & Q2 & A2); [done|done|]. cbn [pbind ucall] in A2.
  destruct (quiet_close image oracle w2 s pid par _ 3 (OPRead n) _ A2) as (w3 & Q3 & A3); [done|]. cbn [pbind ucall] in A3.
  destruct (quiet_close image oracle w3 s pid par _ 4 (OPWrite n) _ A3) as (w4 & Q4 & A4); [done|].
  eapply (runs_tree_after c _ _ (Stdio (OPRead n) (io_out io) (io_err io)) w w4); [exact HA| |exact A4|done..].
  quiet_chain Hs.
Qed.

Lemma run_pipe l r : runs_tree l -> runs_tree r -> runs_tree (PIPE l r).
Proof.
  intros Hl Hr io w s pid par HA HP HN. pose proof (lookup_lt_Some _ _ _ HA) as Hs. cbn [runcmd strings pbind ucall] in HA.
  set (n := length (us_pipes w)).
  destruct (step_pipe image oracle w s pid par _ _ 3 4 HA) as (w1 & R1 & A1 & F1 & L1 & P1 & T1); [done|done|]. fold n in A1, P1.
  cbn [pbind ucall fork1] in A1. change (Z.of_nat 3) with 3 in A1. change (Z.of_nat 4) with 4 in A1.
  change (<[4%nat := Some (OPWrite n)]> (<[3%nat := Some (OPRead n)]> (io_fds io))) with (pipe_fds io n) in A1.
  destruct (kids_same w w1 s pid par _ _ _ _ [] F1 L1 HA A1) as [HK1 HP1]. specialize (HK1 HN). specialize (HP1 HP).
  destruct (fork_child (strings m l) (Stdio (io_in io) (OPWrite n) (io_err io)) w1 s pid par _ _ [] A1 HP1 HK1)
    as (w2 & q & R2 & A2 & F2 & P2 & K2 & C2 & Z2 & E2 & N2).
  { intros w' A' PO NK. by apply run_left. }
  rewrite L1 in *. set (cs := length (us_procs w)) in *. cbn [pbind ucall Z.eqb app] in A2, K2.
  destruct (fork_child (strings m r) (Stdio (OPRead n) (io_out io) (io_err io)) w2 s pid par _ _ [cs] A2 P2 K2)
    as (w3 & q3 & R3 & A3 & F3 & P3 & K3 & C3 & Z3 & E3 & N3).
  { intros w' A' PO NK. by apply run_right. }
  cbn [pbind ucall Z.eqb app] in A3, K3.
  assert (Hs2 : (s < length (us_procs w2))%nat) by (by eapply lookup_lt_Some).
  assert (Hcs2 : (cs < length (us_procs w2))%nat) by (by eapply lookup_lt_Some).
  destruct (quiet_close image oracle w3 s pid par _ 3 (OPRead n) _ A3) as (w4 & Q4 & A4); [done|]. cbn [pbind ucall] in A4.
  destruct (quiet_close image oracle w4 s pid par _ 4 (OPWrite n) _ A4) as (w5 & Q5 & A5); [done|]. cbn [pbind ucall] in A5.
  assert (Q : quiet image oracle w3 s w5) by (assert (Hs3 : (s < length (us_procs w3))%nat) by (by eapply lookup_lt_Some); quiet_chain Hs3).
  pose proof Q as [R5 F5 L5 PP5 T5].
  destruct (kids_same w3 w5 s pid par _ _ _ _ [cs; length (us_procs w2)] F5 L5 A3 A5) as [HK5 HP5]. specialize (HK5 K3). specialize (HP5 P3).
  assert (FW : frame w s w5).
  { eapply uframe_trans; [exact Hs|exact F1|]. eapply uframe_trans; [by rewrite L1|exact F2|]. by eapply uframe_trans. }
  assert (Hcs5 : us_procs w5 !! cs = Some q).
  { pose proof F5 as [_ S5 _]. pose proof F3 as [Lf3 S3 _]. rewrite S5, S3; [done|done|unfold cs; lia|lia|unfold cs; lia]. }
  assert (Hc25 : us_procs w5 !! length (us_procs w2) = Some q3).
  { pose proof F5 as [_ S5 _]. rewrite S5; [done|by eapply lookup_lt_Some|lia]. }
  destruct (reap_step image oracle w w5 s pid par _ _ cs q [length (us_procs w2)] Hs FW HP5 A5 HK5) as (w6 & r6 & R6 & A6 & F6 & P6 & K6 & O6 & Q6 & T6);
    [by repeat constructor|done|done|done|].
  cbn [pbind ucall] in A6.
  destruct (reap_step image oracle w w6 s pid par _ _ (length (us_procs w2)) q3 [] Hs F6 P6 A6 K6) as (w7 & r7 & R7 & A7 & F7 & P7 & K7 & O7 & Q7 & T7);
    [done|unfold cs in *; lia|rewrite O6; [done|lia|lia]|done|].
  destruct (step_exit image oracle w w7 s pid par _ 0 0 A7 Hs HN F7) as (w8 & R8 & HF & Q8 & T8).
  exists w8. unfold ran, execd in *. cbn [strings leaves]. fold n. rewrite P1 in *. rewrite T1 in *.
  destruct (leaves (strings m l) _ (S n)) as [a n1] eqn:El. cbn [fst snd] in *. rewrite N2 in *.
  destruct (leaves (strings m r) _ n1) as [b n2] eqn:Er. cbn [fst snd] in *.
  rewrite Q8, Q7, Q6, PP5, T8, T7, T6, T5, E3, E2. split_and!; [|done|by rewrite map_app, app_assoc|done].
  do 6 (eapply reach_trans; [eassumption|]). done.
Qed.

Lemma run_tree c : redirs_std c -> runs_tree c.
Proof.
  induction c as [argv|c IH file efile mode fd|l IHl r IHr|l IHl r IHr|c IH]; cbn [redirs_std].
  - intros _ io w s pid par HA HP HN. cbn [runcmd] in HA. destruct argv as [|[q e] argv].
    + destruct (step_exit image oracle w w s pid par _ 0 1 HA) as (w1 & R & HF & P & T);
        [by eapply lookup_lt_Some|done|apply uframe_refl|].
      exists w1. unfold ran, execd. rewrite T, P. cbn. by rewrite app_nil_r.
    + cbn [pbind ucall] in HA. destruct (run_exec w s pid par _ _ _ _ HA HN) as (w1 & R & HF & E & P).
      exists w1. unfold ran. by rewrite E, P.
  - intros [Hfd Hc]. by apply run_redir; [|apply IH].
  - intros [Hl Hr]. by apply run_pipe; [apply IHl|apply IHr].
  - intros [Hl Hr]. by apply run_list; [apply IHl|apply IHr].
  - intros Hc. by apply run_back, IH.
Qed.
End tree.

(** *** Spelled lines have no NUL *)
Lemma words_nonzero w : word_okb w = true -> Forall (fun c => c <> 0) w.
Proof.
  unfold word_okb. rewrite andb_true_iff, forallb_forall. intros [_ H]. apply Forall_forall. intros c Hc.
  apply list_elem_of_In in Hc. specialize (H c Hc). apply andb_true_iff in H as [_ H]. apply negb_true_iff, Z.eqb_neq in H. done.
Qed.

Lemma redirs_nonzero rs : forallb redir_okb rs = true -> Forall (fun c => c <> 0) (p_redirs rs).
Proof.
  induction rs as [|r rs IH]; cbn [forallb]; [constructor|]. rewrite andb_true_iff. intros [Hr Hrs].
  unfold p_redirs. cbn [map concat]. apply Forall_app. split; [|by apply IH].
  destruct r as [f|f|f]; cbn [redir_okb p_redir p_word] in *; repeat (constructor; [done|]); by apply words_nonzero.
Qed.

Lemma args_nonzero args :
  forallb (fun wr => word_okb (fst wr) && forallb redir_okb (snd wr)) args = true -> Forall (fun c => c <> 0) (p_args args).
Proof.
  induction args as [|[w rs] args IH]; cbn [forallb]; [constructor|]. rewrite !andb_true_iff. cbn [fst snd p_args]. intros [[Hw Hr] Ha].
  unfold p_word. cbn [app]. constructor; [done|]. apply Forall_app. split; [by apply words_nonzero|]. apply Forall_app. split; [by apply redirs_nonzero|by apply IH].
Qed.

Lemma amps_nonzero n : Forall (fun c => c <> 0) (p_amps n).
Proof. induction n; cbn; [constructor|]. by repeat (constructor; [done|]). Qed.

Lemma spelled_nonzero :
  (forall l, wf_line l = true -> Forall (fun c => c <> 0) (p_line l)) /\
  (forall p, wf_pipe p = true -> Forall (fun c => c <> 0) (p_pipe p)) /\
  (forall a, wf_atom a = true -> Forall (fun c => c <> 0) (p_atom a)).
Proof.
  apply grammar_ind; cbn [wf_line wf_pipe wf_atom p_line p_pipe p_atom]; intros; rewrite ?andb_true_iff in *; destruct_and?;
    repeat first [ apply Forall_app; split | apply Forall_cons; split; [done|] | apply amps_nonzero
                 | by apply redirs_nonzero | by apply args_nonzero | by eauto ].
Qed.

(** ** Properties *)

(** C27. The shell runs what it reads.  Take the whole shell with the three
    descriptors [io] open, in any interleaving with the processes it creates and
    the programs these load, whatever its reads return and whichever calls
    fail: every image that a process of the shell loads is a command of the
    parse tree of the last line that process, or the shell before it was
    forked, had read when it was loaded, under its own name, and its
    descriptors are exactly the ones its redirections and pipes in that line
    ask for: no end of a pipe and no descriptor of the shell is left open in
    it. *)
Theorem sh_execs_leaves image oracle (io : stdio) (n : nat) (console : ustr) (pid nxt : positive) (w : usystem) tr s path argv t tr' :
  ureach image oracle (Usystem [Uprc pid None (io_fds io) 0 (URun (sh_main n console))] [] nxt []) w ->
  us_trace w = tr ++ EExec s 0 path argv t :: tr' ->
  exists line c m io', last (lines_of (logs tr s)) = Some line /\ parse line = Ret (c, m) /\
    leaf (denote line c) io argv io' /\ t = io_fds io' /\ head argv = Some path.
Proof.
  intros HR HE. apply (reach_obeys _ _ (from_last_line io)) in HR as [_ HT].
  - destruct (HT _ _ _ _ _ _ HE) as (line & c & m & HN & HP & io' & HL & Ht & Hp). by exists line, c, m, io'.
  - split; [|intros ? ? ? ? ? ? H; by apply app_cons_not_nil in H].
    intros i q Hi. apply list_lookup_singleton_Some in Hi as [_ <-]. intros _. apply sh_main_obeys.
Qed.

(** A shell that reads "ls\n" and runs it. *)
Definition console_io : stdio := Stdio OConsole OConsole OConsole.
Definition ls_oracle (c : usys) : list (ures c) :=
  match c return list (ures c) with
  | Sread _ _ => [(1, [108]); (1, [115]); (1, [10])]
  | Swrite _ d => [Z.of_nat (length d)]
  | _ => []
  end.

Definition ls_follow (w : usystem) (sn : nat * nat) : usystem :=
  nth sn.2 (moves (fun _ _ => Some (PExit 0)) ls_oracle w sn.1) w.
Definition ls_start : usystem :=
  Usystem [Uprc 3 None (io_fds console_io) 0 (URun (sh_main 1 []))] [] 4 [].
Definition ls_run : usystem :=
  foldl ls_follow ls_start [(0, 0); (0, 0); (0, 0); (0, 1); (0, 2); (0, 1); (1, 1)]%nat.

Lemma ls_run_reach : ureach (fun _ _ => Some (PExit 0)) ls_oracle ls_start ls_run.
Proof.
  unfold ls_run. generalize [(0, 0); (0, 0); (0, 0); (0, 1); (0, 2); (0, 1); (1, 1)]%nat. intros l.
  induction l as [|sn l IH] using rev_ind; [apply ureach_init|]. rewrite foldl_app. cbn [foldl]. set (w := foldl ls_follow ls_start l) in *.
  unfold ls_follow at 1. destruct (decide (sn.2 < length (moves (fun _ _ => Some (PExit 0)) ls_oracle w sn.1))%nat) as [Hlt|Hge].
  - eapply ureach_step; [exact IH|]. exists sn.1. by apply list_elem_of_In, nth_In.
  - by rewrite nth_overflow by lia.
Qed.

(** What the shell did before the image was loaded: the prompt, the three
    reads of the line, and the fork. *)
Definition ls_before : list uevent := removelast (us_trace ls_run).

Lemma sh_execs_leaves_witness :
  us_trace ls_run = ls_before ++ [EExec 1 0 (bytes "ls") [bytes "ls"] (io_fds console_io)] /\
  last (lines_of (logs ls_before 1)) = Some (bytes "ls" ++ [10]) /\
  exists line c m io', last (lines_of (logs ls_before 1)) = Some line /\ parse line = Ret (c, m) /\
    leaf (denote line c) console_io [bytes "ls"] io' /\ io_fds console_io = io_fds io' /\ head [bytes "ls"] = Some (bytes "ls").
Proof.
  split_and!; [by vm_compute|by vm_compute|].
  apply (sh_execs_leaves (fun _ _ => Some (PExit 0)) ls_oracle console_io 1 [] 3 4 ls_run ls_before 1%nat (bytes "ls") [bytes "ls"] (io_fds console_io) []).
  - exact ls_run_reach.
  - by vm_compute.
Defined.

(** C28. The shell runs all of a line: for every line of the grammar, if the
    commands load and exit and no call is refused, the process the shell
    creates for the line can run it to its end, and the commands loaded on the
    way are exactly those of the line, in order, each with the descriptors
    its place in the line gives it: both sides of a bar hold the two ends of
    the same pipe. *)
Theorem sh_runs_line image oracle (io : stdio) (l : gline) (pid nxt : positive) :
  (forall path argv, image path argv = Some (PExit 0)) -> wf_line l = true ->
  exists w' t g st,
    ureach image oracle (Usystem [Uprc pid None (io_fds io) 0 (URun (run_line (p_line l)))] [] nxt []) w' /\
    us_procs w' !! 0%nat = Some (Uprc pid None t g (UZombie st)) /\
    execd w' = map (prod_map id io_fds) (leaves (t_line l) io 0).1.
Proof.
  intros Himage Hw. destruct (parse_spelled l Hw) as (c & m & HP & HD).
  pose proof (proj1 spelled_nonzero l Hw) as HN. set (w0 := Usystem _ _ _ _).
  assert (HA : at_slot w0 0 pid None (io_fds io) (runcmd m c)) by (unfold at_slot, w0, run_line; cbn; by rewrite HP).
  assert (Hone : forall i q j, us_procs w0 !! i = Some q -> is_child j q = false).
  { intros i q j Hi. unfold w0 in Hi. cbn in Hi. apply list_lookup_singleton_Some in Hi as [_ <-]. done. }
  destruct (run_tree image oracle m Himage c (parse_std _ _ _ HP) io w0 0%nat pid None HA) as (w' & R & [(t & g & st & Hz) _] & E & _).
  - intros i q j Hi Hj. by rewrite (Hone i q j Hi) in Hj.
  - intros i q Hi Hc. by rewrite (Hone i q 0%nat Hi) in Hc.
  - exists w', t, g, st. split_and!; [done|done|]. rewrite E, (strings_denote _ _ _ HN HP), HD. done.
Qed.

(** [a | b > f] *)
Definition bar_line : gline := GLine (GBar (GSimple [] [([97], [])]) (GPipe (GSimple [] [([98], [ROut [102]])]))) 0.

Lemma sh_runs_line_witness :
  (leaves (t_line bar_line) console_io 0).1 =
    [([[97]], Stdio OConsole (OPWrite 0) OConsole); ([[98]], Stdio (OPRead 0) (OFile [102] 1537) OConsole)] /\
  exists w' t g st,
    ureach (fun _ _ => Some (PExit 0)) (fun _ => []) (Usystem [Uprc 3 None (io_fds console_io) 0 (URun (run_line (p_line bar_line)))] [] 4 []) w' /\
    us_procs w' !! 0%nat = Some (Uprc 3 None t g (UZombie st)) /\
    execd w' = map (prod_map id io_fds) (leaves (t_line bar_line) console_io 0).1.
Proof. split; [by vm_compute|]. by apply (sh_runs_line (fun _ _ => Some (PExit 0)) (fun _ => []) console_io bar_line 3 4). Defined.
